(* ===== verification/_CoqProject ===== *)
-Q . S2P
Prelude.v
RangeSet.v
RangeSetProofs.v
BlockDevice.v
FsStructs.v
BlockAllocator.v
BlockAllocatorProofs.v
FreeListProofs.v
IterExt.v
MemStructs.v
MemStructsProofs.v
FsStrings.v
FsStringsProofs.v
FsDirectoryProofs.v
MemTree.v
Fs.v
FileLists.v
MemTreeRepr.v
MemTreeProofs.v
MemTreeInsert.v
MemTreeValid.v
MemTreeExamples.v
FsExamples.v
FsProofs.v
FsWriteProofs.v
FsRuns.v
TicketLock.v
RwCell.v
WrappingValue.v
Bits.v
NvmePrp.v
NvmeCommand.v
NvmeQueue.v
NvmeQueueProofs.v
NvmeQueueSpec.v
KernelMem.v
SlabHeap.v
SlabProofs.v
KernelHeap.v
KernelHeapProofs.v
PageAlloc.v
PageAllocProofs.v
PageInit.v
PageMapping.v
PageMappingProofs.v
NvmeProperties.v
NvmePropertiesProofs.v
NvmeAdmin.v
NvmeAdminProofs.v
NvmeController.v
NvmeControllerProofs.v
NvmeInit.v
NvmeControllerExamples.v
NvmeInitProofs.v
CoreLocals.v
CoreLocalsProofs.v
Tasks.v
TaskProofs.v
ContextSwitch.v
Gpt.v
GptProofs.v
Barrier.v
SingleArc.v
OwnedSlice.v
StaticVec.v
StaticVecProofs.v
StaticVecSpec.v
StaticVecMore.v
StaticVecMoreProofs.v
StaticVecExamples.v
NvmeBlock.v
NvmeMappingsProofs.v
NvmeBlockProofs.v
NvmeBlockExamples.v
