(* ===== verification/Prelude.v ===== *)
(** * A verification of WasabiOS

    WasabiOS is an operating system kernel in Rust with a file
    system of its own. This library models the parts of the repository that carry its
    logic as executable definitions, one file per component, and proves what makes each
    of them correct. Definitions keep the names of the source where Rocq allows it.
    [src/...] paths below are relative to the root of the repository.

    ** How the system is put together

    - The file system ([modules/wasabi-fs]) stores a tree of file nodes on a block
      device ([libs/block-device]). Free blocks are kept by a block allocator, the tree
      is cached in memory by [mem_tree], directories and strings are chains of blocks.
      Partition tables ([libs/gpt]) say where file systems are on a disk.
    - The kernel ([wasabi-kernel]) drives NVMe disks through command queues
      ([pci/nvme]), manages physical frames and virtual pages as range sets
      ([libs/shared/src/rangeset.rs], [mem]), maps them, serves small allocations
      from slabs ([mem/kernel_heap]), and schedules tasks on every core with the timer of
      the APIC ([core_local], [cpu], [task]).
    - All of it is protected by the locks, cells and barriers of
      [libs/shared/src/sync].

    ** How code becomes definitions

    - A call that can fail returns [result]: a value, an error, a panic, or no return at
      all ([Hang]). Code with mutable state is a computation [M] that passes the state;
      changes made before an error stay.
    - Integers are [Z] with the checks or the wrap-around of the source written out:
      additions that Rust checks panic when they overflow, atomic additions and
      wrapping types wrap. Debug assertions are kept.
    - Concurrent code is a step function per thread, one step per access to an atomic
      variable, and all interleavings are considered. The memory is sequentially
      consistent: weaker orderings of the source are taken as [SeqCst].
    - Loops whose bound is not structural take fuel, or are bounded by the length of what
      they walk over. Running out of fuel is [Hang], so every theorem that gives a
      result also shows that the fuel is enough; the theorems name the fuel as a
      number that their hypotheses bound, or the definitions compute it.
    - Code outside of the repository is a parameter with the documented laws as
      hypotheses, in a class: the block device ([BlockDevice], [BlockDeviceLaws]), the
      allocator behind the kernel heap, addresses and mappers of the crate [x86_64]
      ([Addresses], [Mapper], [AlignDown]), [bit_field] ([BitField]), [crc32fast]
      ([Crc32]), the calling convention ([Calls]). Every class has an instance, which the
      witnesses use. The NVMe controller and the timer of the APIC are environments
      that may do whatever their specification allows.

    ** Files, sources and theorems

    Shared: [Prelude] (results, state, weakest preconditions, integers, lists), [Bits]
    (bits of words, enums of bytes).

    Memory ranges and blocks.
    - [RangeSet], [RangeSetProofs]: [rangeset.rs]. [insert] is union, [remove] is
      difference, allocation is sound, complete and respects alignment and regions.
    - [BlockDevice]: [libs/block-device/src/structs.rs], [lib.rs], addresses, groups and
      the interface of devices. [IterExt]: [libs/shared/src/iter.rs].

    The file system, [modules/wasabi-fs/src].
    - [FsStructs] ([fs_structs.rs]), [BlockAllocator], [BlockAllocatorProofs]
      ([block_allocator.rs]): best-fit allocation, freeing on every branch, marking
      blocks; [FreeListProofs]: the free list survives [write] and [load].
    - [MemStructs], [MemStructsProofs] ([mem_structs.rs], block lists and file nodes),
      [FsStrings], [FsStringsProofs], [FsDirectoryProofs] (strings and directories of
      [fs.rs] and [mem_structs.rs]): round trips through the device.
    - [MemTree] ([mem_tree/mod.rs], [node_guard.rs]), [MemTreeRepr], [FileLists],
      [MemTreeProofs], [MemTreeInsert], [MemTreeValid], [MemTreeExamples]: the tree
      refines an ordered list of files for [find], for [insert_new] and [update] as long
      as no inner node is split, and for [delete] as long as no leave underflows; locks
      are released, but not when [find] fails; and runs that show where splits and
      merges go wrong.
    - [Fs] ([fs.rs]), [FsProofs], [FsWriteProofs], [FsRuns], [FsExamples]: mounting
      excludes other mounts, closing and opening is a round trip, the life of a file.

    Synchronisation, [libs/shared/src/sync].
    - [TicketLock], [RwCell] ([lockcell.rs]): the ticket lock refines a first-in
      first-out queue and makes progress; readers and writers exclude each other.
    - [Barrier] ([barrier.rs]): rounds of [n] threads that call [enter], one leader, no
      deadlock; a timeout of the leader breaks the barrier.
    - [WrappingValue] ([libs/shared/src/math/mod_group.rs]): arithmetic modulo a number.

    Data structures.
    - [SingleArc], [OwnedSlice] ([libs/shared/src/alloc_ext]): no interleaving of the
      owner, the references and the weak handles frees memory that is still used, but
      for one [clone] of a weak handle.
    - [StaticVec], [StaticVecMore], [StaticVecProofs], [StaticVecMoreProofs],
      [StaticVecExamples] ([forked-libs/staticvec/src]): vectors in a memory of slots
      that may be uninitialised, with the values that are dropped as ghost state.
      [StaticVecSpec]: any sequence of the calls of [Op] refines lists of bounded length
      and drops every value once. The files of the file system and the kernel take a vector for
      a list with its capacity checks written out, which this justifies but for
      [extend] with a vector by value: that call drops elements twice
      ([extend_after_drain_drops_twice]), and the inner nodes of [mem_tree] are
      merged by it.

    NVMe, [wasabi-kernel/src/pci/nvme].
    - [NvmePrp] ([prp.rs]), [NvmeCommand] ([generic_command.rs], [io_commands]),
      [NvmeQueue], [NvmeQueueProofs], [NvmeQueueSpec] ([queue.rs]): PRP lists chain
      their entries; the queue refines a pair of fifos for every controller.
    - [NvmeBlock], [NvmeMappingsProofs], [NvmeBlockProofs], [NvmeBlockExamples]
      ([block_device.rs]): the block device that the driver offers, over its queue,
      its pool of mapped pages and memory. Frames and mappings that are allocated and
      freed are a trace of ghost state. Pages of the pool are handed out once; a read
      that succeeds returns the blocks that the controller read. Its loops over groups
      of blocks take as fuel the number of groups, its waits the clock. Writing is not
      implemented by the source.
    - [NvmeProperties], [NvmePropertiesProofs] ([properties.rs] and the register access of
      [mod.rs]): registers survive writing and reading, and enabling ends on every device
      that follows the configuration within a bounded number of accesses ([penv] is what
      the device does to its registers at an access). [NvmeAdmin], [NvmeAdminProofs]
      ([admin_commands]): the fields of commands and the offsets of identify structures.
    - [NvmeController], [NvmeControllerProofs] ([mod.rs]): the pool of queues that a
      controller hands out as counted handles, its growth on every branch, and its end.
      [NvmeInit], [NvmeInitProofs] ([mod.rs], [capabilities.rs]): [initialize] as one
      executable function over the registers, the admin queue and the memory that the
      device writes ([dma]). [NvmeControllerExamples]: devices that these run on, and what
      the code does not handle.

    Kernel memory, [wasabi-kernel/src/mem].
    - [KernelMem] ([mod.rs] and shared types), [SlabHeap], [SlabProofs], [KernelHeap],
      [KernelHeapProofs] ([kernel_heap]): live allocations lie apart.
    - [PageAlloc], [PageAllocProofs] ([frame_allocator.rs], [page_allocator.rs],
      [structs.rs]): two live allocations share nothing; [PageInit]: [init] finds exactly
      what the processor does not map, and the pages whose entry has the PAT bit;
      [PageMapping], [PageMappingProofs] ([page_table.rs], [structs.rs]): mapping and unmapping is a round trip.

    Cores and tasks.
    - [CoreLocals], [CoreLocalsProofs] ([core_local], [cpu/interrupts], [cpu/apic]):
      interrupt counters over nested sections, the timer describes its registers, but
      for the duration after [restart].
    - [Tasks], [TaskProofs] ([task]): the task system is a round robin scheduler that
      neither panics nor deadlocks, and every task gets its turn; [ContextSwitch]: the
      assembly of a switch restores every register.

    Disks: [Gpt], [GptProofs] ([libs/gpt]): partition tables are read as written, or
    their backup.

    ** Bounds

    Capacities of inline vectors are the constants of the source, or parameters with the
    values of the kernel and of the test build in the examples. Counters are at the
    width of the source. Where a theorem needs a bound (fewer than [2^32] threads at a
    barrier, stacks below the end of the lower half, a rate of the timer whose interval
    fits 32 bits), it is a hypothesis.

    ** Not modelled

    Output only (graphics, tty, formatting and the sinks of the logger), the host tools
    (builder, old build scripts, FUSE front end, host libraries), the test framework, the
    procedural macros, and of the vendored crates under [forked-libs] the histogram and
    the sorting, strings, heaps and comparisons of [staticvec]. Register access by port or
    memory mapping without logic of its own (PCI configuration, ACPI tables, the GDT,
    calibration of timers), the experiments and tests of the NVMe driver, boot code in
    assembly, and statistics ([mem-stats]).
    Timing, caches and weak memory are outside of the models. *)

From stdpp Require Export base numbers list option gmap.
From Stdlib Require Export Lia.

#[global] Set Default Goal Selector "!".

(** ** Rust results

    A call of a Rust function ends in one of four ways: it returns a value
    ([Ok]), it returns an error value ([Err]), it unwinds or aborts through a
    failed assertion, an index out of bounds or an arithmetic overflow
    ([Panic]), or it never returns because it waits for a lock that nobody
    will release ([Hang], also the value of a loop that used up its fuel, so
    that termination is visible in the statements). *)
Inductive result (E A : Type) : Type :=
  | Ok (a : A)
  | Err (e : E)
  | Panic
  | Hang.
Arguments Ok {E A} a.
Arguments Err {E A} e.
Arguments Panic {E A}.
Arguments Hang {E A}.

#[export] Instance result_ret {E} : MRet (result E) := λ A, Ok.
#[export] Instance result_bind {E} : MBind (result E) := λ A B f m,
  match m with
  | Ok a => f a
  | Err e => Err e
  | Panic => Panic
  | Hang => Hang
  end.

(** [assert!], [expect] and [ok_or] *)
Definition assert_ {E} (b : bool) : result E unit := if b then Ok tt else Panic.
Definition expect {E A} (o : option A) : result E A :=
  match o with Some a => Ok a | None => Panic end.
Definition ok_or {E A} (e : E) (o : option A) : result E A :=
  match o with Some a => Ok a | None => Err e end.

(** [Result::map_err]; a panic stays a panic. *)
Definition map_err {E E' A} (f : E → E') (m : result E A) : result E' A :=
  match m with
  | Ok a => Ok a
  | Err e => Err (f e)
  | Panic => Panic
  | Hang => Hang
  end.

Definition is_ok {E A} (m : result E A) : bool :=
  match m with Ok _ => true | _ => false end.

Section result_lemmas.
Context {E A B : Type}.

Lemma bind_Ok (m : result E A) (f : A → result E B) (b : B) :
  (m ≫= f) = Ok b ↔ ∃ a, m = Ok a ∧ f a = Ok b.
Proof. destruct m; cbn; naive_solver. Qed.

Lemma bind_Err (m : result E A) (f : A → result E B) (e : E) :
  (m ≫= f) = Err e ↔ m = Err e ∨ ∃ a, m = Ok a ∧ f a = Err e.
Proof. destruct m; cbn; naive_solver. Qed.

Lemma assert_Ok (b : bool) (u : unit) : assert_ (E:=E) b = Ok u ↔ b = true.
Proof. destruct b, u; cbn; naive_solver. Qed.

Lemma expect_Ok (o : option A) (a : A) : expect (E:=E) o = Ok a ↔ o = Some a.
Proof. destruct o; cbn; naive_solver. Qed.
End result_lemmas.

(** [inv_ok H] splits [H : (x ← m; k) = Ok v] into the successful calls it is
    made of, as long as the head is a bind, an assertion or an [expect]. *)
Ltac inv_ok H :=
  repeat first
    [ apply bind_Ok in H;
      let a := fresh "a" in let Ha := fresh "Hok" in
      destruct H as (a & Ha & H); try (inv_ok Ha)
    | apply assert_Ok in H
    | apply expect_Ok in H ].

(** ** Stateful code

    A method that changes [self], the device or the heap it is given returns
    its result together with the new state; the state changes made before an
    error stay. *)
Definition M (S E A : Type) : Type := S → result E A * S.

#[export] Instance M_ret {S E} : MRet (M S E) := λ A a s, (Ok a, s).
#[export] Instance M_bind {S E} : MBind (M S E) := λ A B f m s,
  match m s with
  | (Ok a, s) => f a s
  | (Err e, s) => (Err e, s)
  | (Panic, s) => (Panic, s)
  | (Hang, s) => (Hang, s)
  end.

(** A call that does not touch the state *)
Definition lift {S E A} (r : result E A) : M S E A := λ s, (r, s).
(** A call on a part of the state's value *)
Definition gets {S E A} (f : S → A) : M S E A := λ s, (Ok (f s), s).
Definition put {S E} (s : S) : M S E unit := λ _, (Ok tt, s).
Definition modify {S E} (f : S → S) : M S E unit := λ s, (Ok tt, f s).

(** [Result::map_err] on a stateful call *)
Definition mapM_err {S E E' A} (f : E → E') (m : M S E A) : M S E' A := λ s,
  let '(r, s) := m s in (map_err f r, s).

(** A call whose error is handled by the caller *)
Definition try {S E E' A} (m : M S E A) : M S E' (A + E) := λ s,
  match m s with
  | (Ok a, s) => (Ok (inl a), s)
  | (Err e, s) => (Ok (inr e), s)
  | (Panic, s) => (Panic, s)
  | (Hang, s) => (Hang, s)
  end.

(** A call on one component of a paired state *)
Definition on_fst {S T E A} (m : M S E A) : M (S * T) E A := λ s,
  let '(r, s') := m s.1 in (r, (s', s.2)).
Definition on_snd {S T E A} (m : M T E A) : M (S * T) E A := λ s,
  let '(r, t') := m s.2 in (r, (s.1, t')).

Lemma run_bind {S E A B} (m : M S E A) (f : A → M S E B) s :
  (m ≫= f) s =
    match m s with
    | (Ok a, s) => f a s
    | (Err e, s) => (Err e, s)
    | (Panic, s) => (Panic, s)
    | (Hang, s) => (Hang, s)
    end.
Proof. done. Qed.

Lemma run_lift {S E A B} (r : result E A) (f : A → M S E B) a s :
  r = Ok a → (lift r ≫= f) s = f a s.
Proof. by intros ->. Qed.

Lemma run_gets {S E A B} (g : S → A) (f : A → M S E B) s :
  (gets g ≫= f) s = f (g s) s.
Proof. done. Qed.

Lemma run_modify {S E B} (g : S → S) (f : () → M S E B) s :
  (modify g ≫= f) s = f tt (g s).
Proof. done. Qed.

Lemma run_ret {S E A B} (a : A) (f : A → M S E B) s :
  (mret a ≫= f) s = f a s.
Proof. done. Qed.

(** A computation that succeeds is a sequence of successful steps. *)
Lemma run_bind_Ok {S E A B} (m : M S E A) (f : A → M S E B) s b s' :
  (m ≫= f) s = (Ok b, s') → ∃ a s1, m s = (Ok a, s1) ∧ f a s1 = (Ok b, s').
Proof. rewrite run_bind. destruct (m s) as [[a| | |] s1]; [|done..]. eauto. Qed.

Lemma run_lift_Ok {S E A B} (r : result E A) (f : A → M S E B) s b s' :
  (lift r ≫= f) s = (Ok b, s') → ∃ a, r = Ok a ∧ f a s = (Ok b, s').
Proof. rewrite run_bind. destruct r; [|done..]. eauto. Qed.

(** [run] executes the steps of a stateful computation that cannot fail;
    [run_ok lem] one call whose result [lem] gives, side conditions by
    arithmetic. *)
Ltac run :=
  repeat (first [rewrite run_gets | rewrite run_modify | rewrite run_ret
                | rewrite run_lift with (a:=_) by reflexivity]; cbn beta; try unfold id).
Tactic Notation "run_ok" uconstr(lem) :=
  erewrite run_lift by (first [exact lem | eapply lem; first [done | lia]]); cbn beta iota.

(** [wp m err post s]: from the state [s] the call [m] neither panics nor hangs;
    its value and state satisfy [post], or its error and state [err]. *)
Definition wp {S E A} (m : M S E A) (err : E → S → Prop) (post : A → S → Prop) (s : S) : Prop :=
  match m s with
  | (Ok a, s') => post a s'
  | (Err e, s') => err e s'
  | _ => False
  end.

Section wp.
Context {S E A B : Type}.
Implicit Types (err : E → S → Prop) (s : S).

Lemma wp_bind (m : M S E A) (f : A → M S E B) err post s :
  wp m err (λ a, wp (f a) err post) s → wp (m ≫= f) err post s.
Proof. unfold wp. rewrite run_bind. by destruct (m s) as [[| | |] ?]. Qed.

Lemma wp_ret (a : A) err (post : A → S → Prop) s : post a s → wp (mret a) err post s.
Proof. done. Qed.

Lemma wp_mono (m : M S E A) err err' (post post' : A → S → Prop) s :
  wp m err post s → (∀ a s', post a s' → post' a s') → (∀ e s', err e s' → err' e s') →
  wp m err' post' s.
Proof. unfold wp. destruct (m s) as [[| | |] ?]; eauto. Qed.

Lemma wp_lift (r : result E A) a err (post : A → S → Prop) s :
  r = Ok a → post a s → wp (lift r) err post s.
Proof. by intros ->. Qed.

Lemma wp_gets (g : S → A) err (post : A → S → Prop) s : post (g s) s → wp (gets g) err post s.
Proof. done. Qed.

Lemma wp_modify (g : S → S) err (post : unit → S → Prop) s :
  post tt (g s) → wp (modify g) err post s.
Proof. done. Qed.

Lemma wp_assert (b : bool) err (post : unit → S → Prop) s :
  b = true → post tt s → wp (lift (assert_ b)) err post s.
Proof. by intros ->. Qed.
End wp.

Lemma wp_on_fst {S T E A} (m : M S E A) (err : E → S * T → Prop) (post : A → S * T → Prop)
    (s : S) (t : T) :
  wp m (λ e s', err e (s', t)) (λ a s', post a (s', t)) s → wp (on_fst m) err post (s, t).
Proof. unfold wp, on_fst. cbn. by destruct (m s) as [[| | |] ?]. Qed.

(** ** Every outcome of a run *)

Section runs.
Context {S E : Type}.

(** What holds when the run panics, fails or returns; it always ends. *)
Definition runs {A} (m : M S E A) (pan : Prop) (err : E → S → Prop) (post : A → S → Prop) (s : S) : Prop :=
  match m s with
  | (Ok a, s) => post a s
  | (Err e, s) => err e s
  | (Panic, _) => pan
  | (Hang, _) => False
  end.

Lemma runs_bind {A B} (m : M S E A) (f : A → M S E B) (pan : Prop) err post s :
  runs m pan err (λ a, runs (f a) pan err post) s → runs (m ≫= f) pan err post s.
Proof. unfold runs. rewrite run_bind. by destruct (m s) as [[| | |] ?]. Qed.
Lemma runs_ret {A} (a : A) (pan : Prop) err (post : A → S → Prop) s : post a s → runs (mret a) pan err post s.
Proof. done. Qed.
Lemma runs_mono {A} (m : M S E A) (pan pan' : Prop) err err' (post post' : A → S → Prop) s :
  runs m pan err post s → (pan → pan') → (∀ e s', err e s' → err' e s') →
  (∀ a s', post a s' → post' a s') → runs m pan' err' post' s.
Proof. unfold runs. destruct (m s) as [[| | |] ?]; eauto. Qed.
Lemma runs_lift {A} (r : result E A) (pan : Prop) (err : E → S → Prop) (post : A → S → Prop) s :
  match r with Ok a => post a s | Err e => err e s | Panic => pan | Hang => False end →
  runs (lift r) pan err post s.
Proof. by destruct r. Qed.
Lemma runs_lift_Ok {A} (r : result E A) a (pan : Prop) (err : E → S → Prop) (post : A → S → Prop) s :
  r = Ok a → post a s → runs (lift r) pan err post s.
Proof. by intros ->. Qed.
Lemma runs_gets {A} (g : S → A) (pan : Prop) (err : E → S → Prop) (post : A → S → Prop) s :
  post (g s) s → runs (gets g) pan err post s.
Proof. done. Qed.
Lemma runs_modify (g : S → S) (pan : Prop) (err : E → S → Prop) (post : unit → S → Prop) s :
  post tt (g s) → runs (modify g) pan err post s.
Proof. done. Qed.
Lemma runs_assert (b : bool) (pan : Prop) (err : E → S → Prop) (post : unit → S → Prop) s :
  (b = true → post tt s) → (b = false → pan) → runs (lift (assert_ b)) pan err post s.
Proof. destruct b; cbn; auto. Qed.
End runs.

Lemma runs_try {S E E' A} (m : M S E' A) (pan : Prop) (err : E → S → Prop) (post : A + E' → S → Prop) s :
  runs m pan (λ e, post (inr e)) (λ a, post (inl a)) s → runs (try m) pan err post s.
Proof. unfold runs, try. by destruct (m s) as [[| | |] ?]. Qed.

Section parts.
Context {S T E A : Type}.

Lemma runs_on_fst (m : M S E A) pan (err : E → S * T → Prop) (post : A → S * T → Prop) s t :
  runs m pan (λ e s', err e (s', t)) (λ a s', post a (s', t)) s → runs (on_fst m) pan err post (s, t).
Proof. unfold runs, on_fst. cbn. by destruct (m s) as [[| | |] ?]. Qed.
Lemma runs_on_snd (m : M T E A) pan (err : E → S * T → Prop) (post : A → S * T → Prop) s t :
  runs m pan (λ e t', err e (s, t')) (λ a t', post a (s, t')) t → runs (on_snd m) pan err post (s, t).
Proof. unfold runs, on_snd. cbn. by destruct (m t) as [[| | |] ?]. Qed.
Lemma runs_mapM_err {E'} (f : E → E') (m : M S E A) pan (err : E' → S → Prop) (post : A → S → Prop) s :
  runs m pan (λ e, err (f e)) post s → runs (mapM_err f m) pan err post s.
Proof. unfold runs, mapM_err. by destruct (m s) as [[| | |] ?]. Qed.
End parts.

(** ** Machine integers

    A [u64] (and [usize] on x86-64) is a [Z] between 0 and [u64_max]. Overflow
    of [+], [-] and [*] panics, as in the builds the kernel and the tests use
    (overflow checks on); the wrapping, checked and saturating operations are
    written out. *)
Definition u64_max : Z := 18446744073709551615.
Definition u32_max : Z := 4294967295.

Definition usize_max : Z := u64_max.

Definition is_u64 (x : Z) : Prop := (0 ≤ x ≤ u64_max)%Z.

Section u64_ops.
Local Open Scope Z_scope.

Definition add_u64 {E} (a b : Z) : result E Z :=
  if a + b <=? u64_max then Ok (a + b) else Panic.
Definition sub_u64 {E} (a b : Z) : result E Z :=
  if b <=? a then Ok (a - b) else Panic.
Definition mul_u64 {E} (a b : Z) : result E Z :=
  if a * b <=? u64_max then Ok (a * b) else Panic.

Definition checked_add (a b : Z) : option Z :=
  if a + b <=? u64_max then Some (a + b) else None.
Definition checked_sub (a b : Z) : option Z :=
  if b <=? a then Some (a - b) else None.
Definition saturating_add (a b : Z) : Z := Z.min (a + b) u64_max.
Definition saturating_sub (a b : Z) : Z := Z.max (a - b) 0.
Definition wrapping_add (a b : Z) : Z := (a + b) mod (u64_max + 1).

Lemma add_u64_Ok {E} a b c : add_u64 (E:=E) a b = Ok c ↔ c = a + b ∧ a + b ≤ u64_max.
Proof. unfold add_u64. destruct (Z.leb_spec (a + b) u64_max); naive_solver lia. Qed.
Lemma sub_u64_Ok {E} a b c : sub_u64 (E:=E) a b = Ok c ↔ c = a - b ∧ b ≤ a.
Proof. unfold sub_u64. destruct (Z.leb_spec b a); naive_solver lia. Qed.

Lemma add_u64_ok {E} a b : a + b ≤ u64_max → add_u64 (E:=E) a b = Ok (a + b).
Proof. intros. by apply add_u64_Ok. Qed.
Lemma sub_u64_ok {E} a b : b ≤ a → sub_u64 (E:=E) a b = Ok (a - b).
Proof. intros. by apply sub_u64_Ok. Qed.
(** Bits below the lowest of the other number *)
(** [counts_required_for!] of [libs/shared]; both arguments are [usize] or [u64] *)
Definition counts_required_for (entry_size total_size : Z) : Z :=
  total_size / entry_size + (if negb (total_size mod entry_size =? 0) then 1 else 0).

Lemma lor_low_bits k n o : 0 ≤ n → 0 ≤ o < 2 ^ n → Z.lor (k * 2 ^ n) o = k * 2 ^ n + o.
Proof.
  intros Hn Ho. assert (Z.land (k * 2 ^ n) o = 0) as Hland.
  { apply Z.bits_inj'. intros i Hi. rewrite Z.land_spec, Z.bits_0.
    destruct (Z.lt_ge_cases i n).
    - rewrite Z.mul_pow2_bits_low by done. done.
    - assert (Z.testbit o i = false) as ->; [|by rewrite andb_false_r].
      destruct (decide (o = 0)) as [->|]; [by rewrite Z.bits_0|].
      apply Z.bits_above_log2; [lia|]. apply Z.lt_le_trans with n; [|done].
      apply Z.log2_lt_pow2; lia. }
  by rewrite <- Z.lxor_lor, <- Z.add_nocarry_lxor.
Qed.
End u64_ops.

(** ** Slices and vectors

    Indices are [nat]; reading, writing, inserting and removing out of bounds
    panics, as for [Vec], [StaticVec] and arrays. *)
Section vec.
Context {E A : Type}.

(** [Iterator::position] *)
Fixpoint position (p : A → bool) (l : list A) : option nat :=
  match l with
  | [] => None
  | x :: l => if p x then Some 0%nat else S <$> position p l
  end.

(** [Iterator::position] with a predicate that may panic *)
Fixpoint position_r (p : A → result E bool) (l : list A) : result E (option nat) :=
  match l with
  | [] => mret None
  | x :: l =>
      b ← p x;
      if b : bool then mret (Some 0%nat)
      else o ← position_r p l; mret (S <$> o)
  end.

Definition vec_get (l : list A) (i : nat) : result E A := expect (l !! i).

Definition vec_set (i : nat) (x : A) (l : list A) : result E (list A) :=
  if (i <? length l)%nat then Ok (<[i:=x]> l) else Panic.

Definition vec_insert (i : nat) (x : A) (l : list A) : result E (list A) :=
  if (i <=? length l)%nat then Ok (take i l ++ x :: drop i l) else Panic.

Definition vec_remove (i : nat) (l : list A) : result E (A * list A) :=
  match l !! i with
  | Some x => Ok (x, take i l ++ drop (S i) l)
  | None => Panic
  end.

(** [slice::swap] *)
Definition slice_swap (i j : nat) (l : list A) : result E (list A) :=
  match l !! i, l !! j with
  | Some x, Some y => Ok (<[i:=y]> (<[j:=x]> l))
  | _, _ => Panic
  end.

(** [slice::windows(2)] followed by [all] *)
Fixpoint windows2_all (p : A → A → bool) (l : list A) : bool :=
  match l with
  | x :: ((y :: _) as l') => p x y && windows2_all p l'
  | _ => true
  end.

Fixpoint windows2_all_r (p : A → A → result E bool) (l : list A) : result E bool :=
  match l with
  | x :: ((y :: _) as l') =>
      b ← p x y;
      if b : bool then windows2_all_r p l' else mret false
  | _ => mret true
  end.

(** [slice::chunks]: pieces of [n] elements, the last one may be shorter *)
Fixpoint chunks_fuel (fuel n : nat) (l : list A) : list (list A) :=
  match fuel, l with
  | S fuel, _ :: _ => take n l :: chunks_fuel fuel n (drop n l)
  | _, _ => []
  end.
Definition chunks (n : nat) (l : list A) : list (list A) := chunks_fuel (length l) n l.

Lemma position_r_Ok (p : A → result E bool) (q : A → bool) l :
  Forall (λ x, p x = Ok (q x)) l → position_r p l = Ok (position q l).
Proof.
  induction 1 as [|x l Hx _ IH]; [done|]. cbn. rewrite Hx. cbn.
  destruct (q x); [done|]. by rewrite IH.
Qed.

Lemma chunks_fuel_concat fuel n l :
  (0 < n)%nat → (length l ≤ fuel)%nat → concat (chunks_fuel fuel n l) = l.
Proof.
  intros Hn. revert l; induction fuel as [|fuel IH]; intros [|x l] Hl; cbn in *; try done; try lia.
  rewrite IH by (rewrite length_drop; cbn; lia). apply take_drop.
Qed.

Lemma chunks_concat n l : (0 < n)%nat → concat (chunks n l) = l.
Proof. intros. by apply chunks_fuel_concat. Qed.

Lemma chunks_fuel_length fuel n l :
  (0 < n)%nat → (length l ≤ fuel)%nat →
  (length l ≤ length (chunks_fuel fuel n l) * n < length l + n)%nat.
Proof.
  intros Hn. revert l; induction fuel as [|fuel IH]; intros l Hl;
    (destruct l as [|x l]; [cbn; lia|]); [cbn in Hl; lia|].
  cbn [chunks_fuel length]. specialize (IH (drop n (x :: l))).
  rewrite length_drop in IH. cbn [length] in *. specialize (IH ltac:(lia)).
  set (k := length (chunks_fuel fuel n (drop n (x :: l)))) in *. clearbody k.
  destruct (decide (n ≤ S (length l))%nat); [lia|].
  assert (k = 0%nat) as -> by (destruct k; [done|lia]). lia.
Qed.

Lemma chunks_length n l :
  (0 < n)%nat → (length l ≤ length (chunks n l) * n < length l + n)%nat.
Proof. intros. by apply chunks_fuel_length. Qed.

(** The first [k] pieces *)
Lemma chunks_fuel_take fuel n k l :
  (0 < n)%nat → (length l ≤ fuel)%nat → concat (take k (chunks_fuel fuel n l)) = take (k * n) l.
Proof.
  intros Hn. revert k l. induction fuel as [|fuel IH]; intros k [|x l] Hl; cbn [length] in Hl; try lia.
  - cbn [chunks_fuel]. by rewrite !take_nil.
  - cbn [chunks_fuel]. by rewrite !take_nil.
  - destruct k as [|k]; [done|]. cbn [chunks_fuel take concat].
    rewrite IH by (rewrite length_drop; cbn [length]; lia).
    replace (S k * n)%nat with (n + k * n)%nat by lia.
    by rewrite take_take_drop.
Qed.

Lemma chunks_take n k l : (0 < n)%nat → concat (take k (chunks n l)) = take (k * n) l.
Proof. intros. by apply chunks_fuel_take. Qed.

Lemma position_cons (p : A → bool) x l :
  position p (x :: l) = if p x then Some 0%nat else S <$> position p l.
Proof. done. Qed.

Lemma position_Some (p : A → bool) l i :
  position p l = Some i →
  ∃ x, l !! i = Some x ∧ p x = true ∧ Forall (λ y, p y = false) (take i l).
Proof.
  revert i; induction l as [|x l IH]; intros i; [done|].
  cbn. destruct (p x) eqn:Hx; [intros [= <-]; eauto|].
  destruct (position p l) as [j|] eqn:Hj; cbn; [|done].
  intros [= <-]. destruct (IH j eq_refl) as (y & Hy & Hp & Hl).
  exists y; repeat split; [done..|]. by constructor.
Qed.

(** The first match splits the list. *)
Lemma position_split (p : A → bool) l i :
  position p l = Some i →
  ∃ pre x post, l = pre ++ x :: post ∧ length pre = i ∧ p x = true ∧
    Forall (λ y, p y = false) pre.
Proof.
  intros (x & Hx & Hp & Hf)%position_Some.
  exists (take i l), x, (drop (S i) l).
  apply lookup_lt_Some in Hx as Hlt.
  rewrite take_drop_middle by done. rewrite length_take_le by lia. done.
Qed.

Lemma position_None (p : A → bool) l :
  position p l = None ↔ Forall (λ y, p y = false) l.
Proof.
  induction l as [|x l IH]; cbn; [by split; auto|].
  destruct (p x) eqn:Hx.
  - split; [done|]. intros H. apply Forall_cons in H as [H _]. congruence.
  - destruct (position p l); cbn.
    + split; [done|]. intros [_ H]%Forall_cons. by apply IH in H.
    + split; [|done]. intros _. constructor; [done|]. by apply IH.
Qed.

Lemma windows2_all_r_cons (p : A → A → result E bool) x y l :
  windows2_all_r p (x :: y :: l) =
    (b ← p x y; if b : bool then windows2_all_r p (y :: l) else mret false).
Proof. done. Qed.

Lemma windows2_all_cons (p : A → A → bool) x y l :
  windows2_all p (x :: y :: l) = p x y && windows2_all p (y :: l).
Proof. done. Qed.
End vec.

(** Vector operations at the element between two parts *)
Lemma vec_get_middle {E A} (pre post : list A) x n :
  length pre = n → vec_get (E:=E) (pre ++ x :: post) n = Ok x.
Proof. intros <-. unfold vec_get. by rewrite list_lookup_middle. Qed.

Lemma vec_remove_middle {E A} (pre post : list A) x n :
  length pre = n → vec_remove (E:=E) n (pre ++ x :: post) = Ok (x, pre ++ post).
Proof.
  intros <-. unfold vec_remove. rewrite list_lookup_middle by done.
  rewrite take_app_length. replace (S (length pre)) with (length pre + 1)%nat by lia.
  by rewrite drop_app_add.
Qed.

Lemma vec_set_middle {E A} (pre post : list A) x y n :
  length pre = n → vec_set (E:=E) n y (pre ++ x :: post) = Ok (pre ++ y :: post).
Proof.
  intros <-. unfold vec_set.
  rewrite (proj2 (Nat.ltb_lt _ _)) by (rewrite length_app; cbn; lia). f_equal.
  replace (length pre) with (length pre + 0)%nat by lia. by rewrite insert_app_r.
Qed.

Lemma vec_insert_after {E A} (pre post : list A) x y n :
  length pre = n → vec_insert (E:=E) (S n) y (pre ++ x :: post) = Ok (pre ++ x :: y :: post).
Proof.
  intros <-. unfold vec_insert.
  rewrite (proj2 (Nat.leb_le _ _)) by (rewrite length_app; cbn; lia). f_equal.
  replace (S (length pre)) with (length (pre ++ [x]))%nat by (rewrite length_app; cbn; lia).
  replace (pre ++ x :: post) with ((pre ++ [x]) ++ post) by by rewrite <- app_assoc.
  rewrite take_app_length, drop_app_length. by rewrite <- app_assoc.
Qed.

(** ** Pairwise relations on lists *)
Section pairwise.
Context {A : Type} (R : A → A → Prop).

Fixpoint pairwise (l : list A) : Prop :=
  match l with
  | [] => True
  | x :: l => Forall (R x) l ∧ pairwise l
  end.

Lemma pairwise_app l1 l2 :
  pairwise (l1 ++ l2) ↔
    pairwise l1 ∧ pairwise l2 ∧ Forall (λ x, Forall (R x) l2) l1.
Proof.
  induction l1 as [|x l1 IH]; cbn; [naive_solver|].
  rewrite IH, Forall_app, Forall_cons. naive_solver.
Qed.

Lemma pairwise_lookup l i j x y :
  pairwise l → l !! i = Some x → l !! j = Some y → i < j → R x y.
Proof.
  revert i j; induction l as [|z l IH]; intros i j; cbn; [done|].
  intros [Hz Hl]. destruct i as [|i], j as [|j]; cbn; try lia.
  - intros [= ->] Hj _. eapply Forall_lookup_1; eauto.
  - intros Hi Hj ?. eapply IH; eauto with lia.
Qed.
End pairwise.

Lemma NoDup_permuted {A} (l k : list A) : l ≡ₚ k → NoDup l → NoDup k.
Proof. by intros ->. Qed.

(** ** Counting elements of a list that changes at one index *)
Section count.
Context {A : Type} (p : A → bool).

Definition count (l : list A) : nat := length (filter p l).

Lemma count_app l k : count (l ++ k) = count l + count k.
Proof. unfold count. by rewrite filter_app, length_app. Qed.

Lemma count_cons x l : count (x :: l) = (if p x then 1 else 0) + count l.
Proof. unfold count. rewrite filter_cons. by destruct (p x). Qed.

Lemma count_insert l i x y :
  l !! i = Some x →
  count (<[i:=y]> l) + (if p x then 1 else 0) = count l + (if p y then 1 else 0).
Proof.
  intros Hx. apply take_drop_middle in Hx as Hl.
  rewrite <- Hl at 2. rewrite insert_take_drop by by eapply lookup_lt_Some.
  rewrite !count_app, !count_cons. lia.
Qed.

Lemma count_elem l i x : l !! i = Some x → p x = true → 1 ≤ count l.
Proof.
  intros Hx Hp. apply take_drop_middle in Hx as <-.
  rewrite count_app, count_cons, Hp. lia.
Qed.

Lemma count_zero l i x : count l = 0 → l !! i = Some x → p x = false.
Proof. intros Hc Hx. destruct (p x) eqn:Hp; [|done]. pose proof (count_elem l i x Hx Hp). lia. Qed.

Lemma count_one l i j x y :
  count l = 1 → l !! i = Some x → l !! j = Some y → p x = true → p y = true → i = j.
Proof.
  intros Hc Hx Hy Hpx Hpy. destruct (decide (i = j)) as [|Hne]; [done|].
  pose proof (lookup_lt_Some _ _ _ Hx). apply take_drop_middle in Hx as Hl.
  rewrite <- Hl in Hc. rewrite count_app, count_cons, Hpx in Hc.
  destruct (decide (j < i)) as [Hj|Hj].
  - assert (take i l !! j = Some y) as Hy' by by rewrite lookup_take_lt.
    pose proof (count_elem _ _ _ Hy' Hpy). lia.
  - assert (drop (S i) l !! (j - S i) = Some y) as Hy'.
    { rewrite lookup_drop. by replace (S i + (j - S i)) with j by lia. }
    pose proof (count_elem _ _ _ Hy' Hpy). lia.
Qed.

Lemma count_le l : count l ≤ length l.
Proof. unfold count. apply length_filter. Qed.

Lemma count_replicate n x : p x = false → count (replicate n x) = 0.
Proof. intros Hp. induction n as [|n IH]; [done|]. cbn [replicate]. by rewrite count_cons, Hp, IH. Qed.
End count.

Lemma count_all {A} (p : A → bool) l : count p l = length l → Forall (λ x, p x = true) l.
Proof.
  induction l as [|x l IH]; [constructor|]. rewrite count_cons. cbn [length]. pose proof (count_le p l).
  destruct (p x) eqn:Hp; [|lia]. intros Hc. constructor; [done|]. apply IH. lia.
Qed.
Lemma count_none {A} (p : A → bool) l : count p l = 0%nat → Forall (λ x, p x = false) l.
Proof.
  induction l as [|x l IH]; [constructor|]. rewrite count_cons. destruct (p x) eqn:Hp; [lia|]. intros Hc.
  constructor; [done|]. apply IH. lia.
Qed.
Lemma count_three {A} (p q : A → bool) l i x : (∀ y, p y = true → q y = false) → l !! i = Some x → p x = false → q x = false →
  (count p l + count q l < length l)%nat.
Proof.
  intros Hd. revert i. induction l as [|y l IH]; intros [|i] Hx Hp Hq; cbn in Hx; [done..| |].
  - injection Hx as ->. rewrite !count_cons, Hp, Hq. cbn [length]. clear IH. induction l as [|z l IH]; [cbn; lia|].
    rewrite !count_cons. cbn [length]. specialize (Hd z). destruct (p z), (q z); try lia; by specialize (Hd eq_refl).
  - rewrite !count_cons. cbn [length]. specialize (IH i Hx Hp Hq). specialize (Hd y).
    destruct (p y), (q y); try lia; by specialize (Hd eq_refl).
Qed.
Lemma sum_insert {A} (f : A → nat) l i x y : l !! i = Some x →
  (sum_list_with f (<[i:=y]> l) + f x = sum_list_with f l + f y)%nat.
Proof.
  revert i. induction l as [|z l IH]; intros [|i] Hx; cbn in Hx; [done..| |].
  - injection Hx as ->. cbn. lia.
  - change (<[S i:=y]> (z :: l)) with (z :: <[i:=y]> l). cbn [sum_list_with]. specialize (IH i Hx). lia.
Qed.
Lemma count_exists {A} (p : A → bool) l : (0 < count p l)%nat → ∃ i x, l !! i = Some x ∧ p x = true.
Proof.
  induction l as [|y l IH]; [cbn; lia|]. rewrite count_cons. destruct (p y) eqn:Hp.
  - intros _. by exists 0%nat, y.
  - intros Hc. destruct IH as (i & x & Hi & Hx); [lia|]. by exists (S i), x.
Qed.

Lemma count_below {A} (p : A → bool) l : (count p l < length l)%nat → ∃ i x, l !! i = Some x ∧ p x = false.
Proof.
  induction l as [|y l IH]; [cbn; lia|]. rewrite count_cons. cbn [length]. destruct (p y) eqn:Hp.
  - intros Hc. destruct IH as (i & x & Hi & Hx); [lia|]. by exists (S i), x.
  - intros _. by exists 0%nat, y.
Qed.
Lemma count_impl {A} (p q : A → bool) l : (∀ x, p x = true → q x = true) → (count p l ≤ count q l)%nat.
Proof.
  intros Hpq. induction l as [|x l IH]; [done|]. rewrite !count_cons. specialize (Hpq x).
  destruct (p x); [rewrite Hpq by done|]; lia.
Qed.
