(* ===== verification/RangeSet.v ===== *)
(** * [libs/shared/src/rangeset.rs]: sets of inclusive [u64] ranges

    The array [ranges] with its [in_use] prefix is kept as the source has it;
    [RangeSet_entries] is the slice of used entries. Every loop of the source
    is a definition of its own. Panics (capacity, shape assertions) are
    visible in the results. *)

From S2P Require Import Prelude.
Local Open Scope Z_scope.

Record Range := mkRange { start : Z; end_ : Z }.

#[export] Instance Range_eq_dec : EqDecision Range.
Proof. solve_decision. Defined.

Record RangeSet := mkRangeSet { ranges : list Range; in_use : nat }.

(** [RegionRequest] *)
Inductive RegionRequest :=
  | Any
  | Preference (r : RangeSet)
  | Forced (r : RangeSet).

(** ** Free functions *)

(** [if a.start > a.end { swap(&mut a.end, &mut a.start) }] *)
Definition normalize (a : Range) : Range :=
  if start a >? end_ a then mkRange (end_ a) (start a) else a.

Definition overlaps (a b : Range) : option Range :=
  let a := normalize a in
  let b := normalize b in
  if (start a <=? end_ b) && (start b <=? end_ a)
  then Some (mkRange (Z.max (start a) (start b)) (Z.min (end_ a) (end_ b)))
  else None.

Definition contains (a b : Range) : bool :=
  let a := normalize a in
  let b := normalize b in
  (start a >=? start b) && (end_ a <=? end_ b).

(** ** [impl RangeSet] *)

Definition RangeSet_new {E} (N : nat) : result E RangeSet :=
  _ ← assert_ (Z.of_nat N <=? u32_max);
  mret (mkRangeSet (replicate N (mkRange 0 0)) 0).

Definition RangeSet_entries (rs : RangeSet) : list Range :=
  take (in_use rs) (ranges rs).

Definition RangeSet_len (rs : RangeSet) : nat := in_use rs.

(** [for ii in idx..in_use - 1 { self.ranges.swap(ii, ii + 1) }], [n] rounds *)
Fixpoint swap_down {E} (l : list Range) (ii n : nat) : result E (list Range) :=
  match n with
  | O => mret l
  | S n => l ← slice_swap ii (S ii) l; swap_down l (S ii) n
  end.

Definition RangeSet_delete {E} (rs : RangeSet) (idx : nat) : result E RangeSet :=
  _ ← assert_ (idx <? in_use rs)%nat;
  l ← swap_down (ranges rs) idx (in_use rs - 1 - idx);
  mret (mkRangeSet l (in_use rs - 1)).

(** The test of the merge loop: both ends are extended by one so that touching
    ranges merge as well. *)
Definition touches (range ent : Range) : bool :=
  bool_decide (is_Some (overlaps
    (mkRange (start range) (saturating_add (end_ range) 1))
    (mkRange (start ent) (saturating_add (end_ ent) 1)))).

(** [self.ranges[self.in_use] = range; self.in_use += 1], after the capacity
    assertion *)
Definition RangeSet_push {E} (rs : RangeSet) (range : Range) : result E RangeSet :=
  _ ← assert_ (in_use rs <? length (ranges rs))%nat;
  l ← vec_set (in_use rs) range (ranges rs);
  mret (mkRangeSet l (S (in_use rs))).

(** The ['try_merges] loop: the inner [for] stops at the first entry that
    touches the range, merges it and starts over. *)
Fixpoint try_merges {E} (fuel : nat) (rs : RangeSet) (range : Range)
    : result E (RangeSet * Range) :=
  match fuel with
  | O => Hang
  | S fuel =>
      match position (touches range) (RangeSet_entries rs) with
      | None => mret (rs, range)
      | Some ii =>
          ent ← vec_get (ranges rs) ii;
          rs ← RangeSet_delete rs ii;
          try_merges fuel rs
            (mkRange (Z.min (start range) (start ent)) (Z.max (end_ range) (end_ ent)))
      end
  end.

Definition RangeSet_insert {E} (rs : RangeSet) (range : Range) : result E RangeSet :=
  _ ← assert_ (start range <=? end_ range);
  '(rs, range) ← try_merges (S (in_use rs)) rs range;
  RangeSet_push rs range.

(** [remove_if_exist]: the [for] loop over the entries from [ii] on, [n] left *)
Fixpoint remove_if_exist_loop {E} (rs : RangeSet) (range : Range) (ii n : nat)
    : result E (bool * RangeSet) :=
  match n with
  | O => mret (false, rs)
  | S n =>
      ent ← vec_get (ranges rs) ii;
      if bool_decide (range = ent) then
        rs ← RangeSet_delete rs ii; mret (true, rs)
      else if negb (contains range ent) then remove_if_exist_loop rs range (S ii) n
      else if start range =? start ent then
        _ ← assert_ ((end_ range <? end_ ent) && (end_ range >? start ent));
        s ← add_u64 (end_ range) 1;
        l ← vec_set ii (mkRange s (end_ ent)) (ranges rs);
        mret (true, mkRangeSet l (in_use rs))
      else if end_ range =? end_ ent then
        _ ← assert_ ((start range >? start ent) && (start range <? end_ ent));
        e ← sub_u64 (start range) 1;
        l ← vec_set ii (mkRange (start ent) e) (ranges rs);
        mret (true, mkRangeSet l (in_use rs))
      else
        _ ← assert_ ((start range >? start ent) && (start range <? end_ ent));
        l ← vec_set ii (mkRange (start ent) (start range)) (ranges rs);
        _ ← assert_ ((end_ range >? start ent) && (end_ range <? end_ ent));
        s ← add_u64 (end_ range) 1;
        rs ← RangeSet_insert (mkRangeSet l (in_use rs)) (mkRange s (end_ ent));
        mret (true, rs)
  end.

Definition RangeSet_remove_if_exist {E} (rs : RangeSet) (range : Range)
    : result E (bool * RangeSet) :=
  remove_if_exist_loop rs range 0 (in_use rs).

(** How one pass of the inner [for] loop of [remove] ends: it ran to the end
    ([break]), or an entry was deleted or split and the pass starts over
    ([continue 'try_subtractions]). *)
Inductive pass := PassDone (rs : RangeSet) | PassAgain (rs : RangeSet).

Fixpoint subtraction_pass {E} (rs : RangeSet) (range : Range) (ii n : nat)
    : result E pass :=
  match n with
  | O => mret (PassDone rs)
  | S n =>
      ent ← vec_get (ranges rs) ii;
      match overlaps range ent with
      | None => subtraction_pass rs range (S ii) n
      | Some _ =>
          if contains ent range then
            rs ← RangeSet_delete rs ii; mret (PassAgain rs)
          else if start range <=? start ent then
            l ← vec_set ii (mkRange (saturating_add (end_ range) 1) (end_ ent)) (ranges rs);
            subtraction_pass (mkRangeSet l (in_use rs)) range (S ii) n
          else if end_ range >=? end_ ent then
            l ← vec_set ii (mkRange (start ent) (saturating_sub (start range) 1)) (ranges rs);
            subtraction_pass (mkRangeSet l (in_use rs)) range (S ii) n
          else
            l ← vec_set ii (mkRange (saturating_add (end_ range) 1) (end_ ent)) (ranges rs);
            rs ← RangeSet_push (mkRangeSet l (in_use rs))
                   (mkRange (start ent) (saturating_sub (start range) 1));
            mret (PassAgain rs)
      end
  end.

Fixpoint try_subtractions {E} (fuel : nat) (rs : RangeSet) (range : Range)
    : result E RangeSet :=
  match fuel with
  | O => Hang
  | S fuel =>
      p ← subtraction_pass rs range 0 (in_use rs);
      match p with
      | PassDone rs => mret rs
      | PassAgain rs => try_subtractions fuel rs range
      end
  end.

Definition RangeSet_remove {E} (rs : RangeSet) (range : Range) : result E RangeSet :=
  _ ← assert_ (start range <=? end_ range);
  try_subtractions (S (in_use rs)) rs range.

(** [for &ent in rs.entries() { self.remove(ent) }] *)
Fixpoint remove_all {E} (rs : RangeSet) (ents : list Range) : result E RangeSet :=
  match ents with
  | [] => mret rs
  | ent :: ents => rs ← RangeSet_remove rs ent; remove_all rs ents
  end.

Definition RangeSet_subtract {E} (self rs : RangeSet) : result E RangeSet :=
  remove_all self (RangeSet_entries rs).

(** [try_fold(0, |acc, x| Some(acc + (x.end - x.start).checked_add(1)?))] *)
Fixpoint sum_fold {E} (acc : Z) (ents : list Range) : result E (option Z) :=
  match ents with
  | [] => mret (Some acc)
  | x :: ents =>
      d ← sub_u64 (end_ x) (start x);
      match checked_add d 1 with
      | None => mret None
      | Some d => acc ← add_u64 acc d; sum_fold acc ents
      end
  end.

Definition RangeSet_sum {E} (rs : RangeSet) : result E (option Z) :=
  sum_fold 0 (RangeSet_entries rs).

(** ** Allocation *)

(** [u64::count_ones] and [!x] *)
Fixpoint count_ones_pos (p : positive) : Z :=
  match p with
  | xH => 1
  | xO p => count_ones_pos p
  | xI p => 1 + count_ones_pos p
  end.
Definition count_ones (x : Z) : Z :=
  match x with Zpos p => count_ones_pos p | _ => 0 end.
Definition not_u64 (x : Z) : Z := Z.lxor x u64_max.

(** A candidate [(base, end, ptr)]. *)
Definition candidate : Type := Z * Z * Z.

(** How the loop over the requested regions ends for one entry. *)
Inductive region_result :=
  | RegionFound (c : candidate)
  | RegionContinue
  | RegionNone.

Fixpoint region_search {E} (ent : Range) (size alignmask : Z) (regions : list Range)
    : result E region_result :=
  match regions with
  | [] => mret RegionNone
  | region :: regions =>
      match overlaps ent region with
      | None => region_search ent size alignmask regions
      | Some overlap =>
          let align_overlap :=
            Z.land (wrapping_add (start overlap) alignmask) (not_u64 alignmask) in
          if (align_overlap >=? start overlap) && (align_overlap <=? end_ overlap)
             && (end_ overlap - align_overlap >=? size - 1)
          then
            overlap_alc_end ← add_u64 align_overlap (size - 1);
            if (align_overlap >? usize_max) || (overlap_alc_end >? usize_max)
            then mret RegionContinue
            else mret (RegionFound (align_overlap, overlap_alc_end, align_overlap))
          else region_search ent size alignmask regions
      end
  end.

(** ['allocation_search]; [None] of the outer option is the early [return None]
    of the [?] operator. *)
Fixpoint allocation_search {E} (size align : Z) (regions : option (list Range))
    (force_regions : bool) (ents : list Range) (allocation : option candidate)
    : result E (option (option candidate)) :=
  match ents with
  | [] => mret (Some allocation)
  | ent :: ents =>
      let alignmask := align - 1 in
      let align_fix := Z.land (align - Z.land (start ent) alignmask) alignmask in
      let base := start ent in
      match (e ← checked_add base (size - 1); checked_add e align_fix) with
      | None => mret None
      | Some end' =>
          if (base >? usize_max) || (end' >? usize_max) then
            allocation_search size align regions force_regions ents allocation
          else if end' >? end_ ent then
            allocation_search size align regions force_regions ents allocation
          else
            r ← match regions with
                | Some regions => region_search ent size alignmask regions
                | None => mret RegionNone
                end;
            match r with
            | RegionContinue =>
                allocation_search size align regions force_regions ents allocation
            | RegionFound c => mret (Some (Some c))
            | RegionNone =>
                let allocation :=
                  if force_regions then allocation
                  else match allocation with
                       | None => Some (base, end', base + align_fix)
                       | Some (b, e, _) =>
                           if e - b >? end' - base
                           then Some (base, end', base + align_fix)
                           else allocation
                       end in
                allocation_search size align regions force_regions ents allocation
            end
      end
  end.

Definition RangeSet_allocate_prefer {E} (rs : RangeSet) (size align : Z)
    (regions : RegionRequest) : result E (option Z * RangeSet) :=
  if size =? 0 then mret (None, rs)
  else if negb (count_ones align =? 1) then mret (None, rs)
  else
    let '(regions, force_regions) :=
      match regions with
      | Any => (None, false)
      | Preference r => (Some (RangeSet_entries r), false)
      | Forced r => (Some (RangeSet_entries r), true)
      end in
    a ← allocation_search size align regions force_regions (RangeSet_entries rs) None;
    match a with
    | Some (Some (base, end', ptr)) =>
        rs ← RangeSet_remove rs (mkRange base end');
        mret (Some ptr, rs)
    | _ => mret (None, rs)
    end.

Definition RangeSet_allocate {E} (rs : RangeSet) (size align : Z)
    : result E (option Z * RangeSet) :=
  RangeSet_allocate_prefer rs size align Any.
