(* ===== verification/RangeSetProofs.v ===== *)
(** * Correctness of [RangeSet]

    A set is seen through its entries: [covers l x] says that [x] lies in one
    of the ranges. [insert] is set union and keeps the ranges apart from each
    other, [remove] and [subtract] are set difference, [allocate] hands out an
    aligned block of covered addresses and removes it. All loops terminate:
    the statements give [Ok], never [Hang]. *)

From S2P Require Import Prelude RangeSet.
Local Open Scope Z_scope.

(** ** Specification vocabulary *)

Definition in_range (x : Z) (r : Range) : Prop := start r ≤ x ≤ end_ r.

#[export] Instance in_range_elem_of : ElemOf Z Range := in_range.

Definition covers (l : list Range) (x : Z) : Prop := Exists (in_range x) l.

(** A range of [u64] values, lower end first *)
Definition range_ok (r : Range) : Prop :=
  0 ≤ start r ∧ start r ≤ end_ r ∧ end_ r ≤ u64_max.

(** Two ranges that share no address *)
Definition disjoint (a b : Range) : Prop := end_ a < start b ∨ end_ b < start a.
(** Two ranges with at least one address between them *)
Definition separated (a b : Range) : Prop := end_ a + 1 < start b ∨ end_ b + 1 < start a.

(** The invariant of the doc comment: non-overlapping ranges. *)
Definition RangeSet_ok (rs : RangeSet) : Prop :=
  (in_use rs ≤ length (ranges rs))%nat ∧
  Forall range_ok (RangeSet_entries rs) ∧
  pairwise disjoint (RangeSet_entries rs).

(** The stronger form that sets built by [insert] alone have *)
Definition RangeSet_separated (rs : RangeSet) : Prop :=
  pairwise separated (RangeSet_entries rs).

(** A set with entries [l] and unused array slots [rest] *)
Definition of_entries (l rest : list Range) : RangeSet := mkRangeSet (l ++ rest) (length l).
Arguments of_entries : simpl never.

(** Free slots of the array *)
Definition room (rs : RangeSet) : nat := length (ranges rs) - in_use rs.

(** ** Shape lemmas *)

Lemma entries_of_entries l rest : RangeSet_entries (of_entries l rest) = l.
Proof. unfold RangeSet_entries, of_entries. cbn. by rewrite take_app_length. Qed.

Lemma in_use_of_entries l rest : in_use (of_entries l rest) = length l.
Proof. done. Qed.

Lemma of_entries_canon rs :
  (in_use rs ≤ length (ranges rs))%nat →
  ∃ rest, rs = of_entries (RangeSet_entries rs) rest.
Proof.
  intros H. exists (drop (in_use rs) (ranges rs)).
  unfold of_entries, RangeSet_entries. destruct rs as [l n]; cbn in *.
  rewrite take_drop, length_take_le by lia. done.
Qed.

Lemma room_of_entries l rest : room (of_entries l rest) = length rest.
Proof. unfold room, of_entries; cbn. rewrite length_app. lia. Qed.

Lemma RangeSet_ok_of_entries l rest :
  RangeSet_ok (of_entries l rest) ↔ Forall range_ok l ∧ pairwise disjoint l.
Proof.
  unfold RangeSet_ok. rewrite entries_of_entries.
  unfold of_entries; cbn. rewrite length_app. intuition lia.
Qed.

Create Rewrite HintDb rangeset.
#[export] Hint Rewrite entries_of_entries room_of_entries : rangeset.

Lemma slice_swap_next {E} (pre post : list Range) x y :
  slice_swap (E:=E) (length pre) (S (length pre)) (pre ++ x :: y :: post)
  = Ok (pre ++ y :: x :: post).
Proof.
  unfold slice_swap.
  rewrite list_lookup_middle by done.
  replace (pre ++ x :: y :: post) with ((pre ++ [x]) ++ y :: post) at 1
    by by rewrite <- app_assoc.
  rewrite list_lookup_middle by (rewrite length_app; cbn; lia).
  f_equal.
  replace (pre ++ x :: y :: post) with ((pre ++ [x]) ++ y :: post)
    by by rewrite <- app_assoc.
  replace (S (length pre)) with (length (pre ++ [x]) + 0)%nat
    by (rewrite length_app; cbn; lia).
  rewrite insert_app_r. cbn. rewrite <- app_assoc. cbn.
  replace (length pre) with (length pre + 0)%nat by lia.
  by rewrite insert_app_r.
Qed.

Lemma swap_down_spec {E} mid : ∀ pre x post,
  swap_down (E:=E) (pre ++ x :: mid ++ post) (length pre) (length mid)
  = Ok (pre ++ mid ++ x :: post).
Proof.
  induction mid as [|y mid IH]; intros pre x post; [done|].
  cbn. rewrite slice_swap_next. cbn.
  specialize (IH (pre ++ [y]) x post).
  rewrite length_app, <- !app_assoc in IH. cbn in IH.
  by replace (length pre + 1)%nat with (S (length pre)) in IH by lia.
Qed.

(** [delete] takes one entry out and leaves it behind the used part. *)
Lemma RangeSet_delete_spec {E} pre x mid rest :
  RangeSet_delete (E:=E) (of_entries (pre ++ x :: mid) rest) (length pre)
  = Ok (of_entries (pre ++ mid) (x :: rest)).
Proof.
  unfold RangeSet_delete, of_entries; cbn -[Nat.ltb].
  rewrite length_app; cbn -[Nat.ltb].
  rewrite (proj2 (Nat.ltb_lt _ _)) by lia. cbn.
  replace (length pre + S (length mid) - 1 - length pre)%nat with (length mid) by lia.
  rewrite <- app_assoc. cbn. rewrite swap_down_spec. cbn.
  rewrite <- app_assoc. f_equal. f_equal. rewrite length_app. lia.
Qed.

Lemma RangeSet_push_spec {E} l y rest r :
  RangeSet_push (E:=E) (of_entries l (y :: rest)) r = Ok (of_entries (l ++ [r]) rest).
Proof.
  unfold RangeSet_push, of_entries; cbn -[Nat.ltb].
  rewrite length_app; cbn -[Nat.ltb].
  rewrite (proj2 (Nat.ltb_lt _ _)) by lia. cbn -[Nat.ltb].
  unfold vec_set. rewrite (proj2 (Nat.ltb_lt _ _)) by (rewrite length_app; cbn; lia).
  cbn. replace (length l) with (length l + 0)%nat at 1 by lia.
  rewrite insert_app_r. cbn. rewrite <- app_assoc. f_equal. f_equal.
  rewrite length_app; cbn; lia.
Qed.

Lemma RangeSet_push_full {E} l r : RangeSet_push (E:=E) (of_entries l []) r = Panic.
Proof.
  unfold RangeSet_push, of_entries; cbn -[Nat.ltb].
  by rewrite app_nil_r, Nat.ltb_irrefl.
Qed.

Lemma entry_get {E} pre (x : Range) mid rest :
  vec_get (E:=E) (ranges (of_entries (pre ++ x :: mid) rest)) (length pre) = Ok x.
Proof.
  unfold vec_get, of_entries; cbn. rewrite <- app_assoc. cbn.
  by rewrite list_lookup_middle.
Qed.

Lemma entry_set {E} pre (x y : Range) mid rest :
  vec_set (E:=E) (length pre) y (ranges (of_entries (pre ++ x :: mid) rest))
  = Ok (ranges (of_entries (pre ++ y :: mid) rest)).
Proof.
  unfold vec_set, of_entries; cbn -[Nat.ltb].
  rewrite (proj2 (Nat.ltb_lt _ _)) by (rewrite !length_app; cbn; lia).
  rewrite <- app_assoc. cbn.
  replace (length pre) with (length pre + 0)%nat by lia.
  rewrite insert_app_r. cbn. by rewrite <- app_assoc.
Qed.

Lemma mkRangeSet_middle pre (x y : Range) mid rest :
  mkRangeSet (ranges (of_entries (pre ++ y :: mid) rest))
             (in_use (of_entries (pre ++ x :: mid) rest))
  = of_entries (pre ++ y :: mid) rest.
Proof. unfold of_entries; cbn. by rewrite !length_app. Qed.

(** ** Overlap, containment, contact *)

Lemma normalize_ok a : start a ≤ end_ a → normalize a = a.
Proof. intros. unfold normalize. destruct (Z.gtb_spec (start a) (end_ a)); [lia|done]. Qed.

Lemma overlaps_spec a b :
  start a ≤ end_ a → start b ≤ end_ b →
  overlaps a b =
    if decide (start a ≤ end_ b ∧ start b ≤ end_ a)
    then Some (mkRange (Z.max (start a) (start b)) (Z.min (end_ a) (end_ b)))
    else None.
Proof.
  intros Ha Hb. unfold overlaps. rewrite !normalize_ok by done.
  destruct (Z.leb_spec (start a) (end_ b)), (Z.leb_spec (start b) (end_ a));
    cbn; case_decide; try done; lia.
Qed.

Lemma contains_spec a b :
  start a ≤ end_ a → start b ≤ end_ b →
  contains a b = bool_decide (start b ≤ start a ∧ end_ a ≤ end_ b).
Proof.
  intros Ha Hb. unfold contains. rewrite !normalize_ok by done.
  rewrite Z.geb_leb.
  destruct (Z.leb_spec (start b) (start a)), (Z.leb_spec (end_ a) (end_ b)); cbn;
    symmetry; (apply bool_decide_eq_true_2 || apply bool_decide_eq_false_2); lia.
Qed.

Lemma touches_spec r e :
  range_ok r → range_ok e →
  touches r e = bool_decide (start r ≤ end_ e + 1 ∧ start e ≤ end_ r + 1).
Proof.
  intros (?&?&?) (?&?&?). unfold touches, saturating_add.
  rewrite overlaps_spec by (cbn; lia). cbn.
  case_decide; apply bool_decide_ext; split; intros H'; try lia; try done.
Qed.

Lemma touches_false r e :
  range_ok r → range_ok e → touches r e = false → separated r e.
Proof.
  intros ? ?. rewrite touches_spec by done. rewrite bool_decide_eq_false.
  unfold separated. lia.
Qed.

(** ** [insert] *)

Lemma separated_sym a b : separated a b → separated b a.
Proof. unfold separated. lia. Qed.
Lemma disjoint_sym a b : disjoint a b → disjoint b a.
Proof. unfold disjoint. lia. Qed.
Lemma separated_disjoint a b : separated a b → disjoint a b.
Proof. unfold separated, disjoint. lia. Qed.

Lemma pairwise_impl {A} (R S : A → A → Prop) l :
  (∀ a b, R a b → S a b) → pairwise R l → pairwise S l.
Proof.
  intros HRS. induction l as [|x l IH]; cbn; [done|].
  intros [? ?]. split; [|eauto]. eapply Forall_impl; eauto.
Qed.

Lemma pairwise_middle {A} (R : A → A → Prop) l1 x l2 :
  pairwise R (l1 ++ x :: l2) → pairwise R (l1 ++ l2).
Proof.
  rewrite !pairwise_app. cbn. intros (?&[? ?]&HF). split_and!; try done.
  eapply Forall_impl; [exact HF|]. intros y [_ ?]%Forall_cons. done.
Qed.

Lemma covers_app l1 l2 x : covers (l1 ++ l2) x ↔ covers l1 x ∨ covers l2 x.
Proof. apply Exists_app. Qed.
Lemma covers_cons r l x : covers (r :: l) x ↔ x ∈ r ∨ covers l x.
Proof. apply Exists_cons. Qed.

(** What one merge does to the addresses covered *)
Lemma merge_member r e x :
  range_ok r → range_ok e → start r ≤ end_ e + 1 → start e ≤ end_ r + 1 →
  in_range x (mkRange (Z.min (start r) (start e)) (Z.max (end_ r) (end_ e)))
  ↔ in_range x r ∨ in_range x e.
Proof. unfold range_ok, in_range; cbn. lia. Qed.

Lemma try_merges_spec {E} (R : Range → Range → Prop) fuel : ∀ l rest r,
  (length l < fuel)%nat → range_ok r → Forall range_ok l → pairwise R l →
  ∃ l' rest' r',
    try_merges (E:=E) fuel (of_entries l rest) r = Ok (of_entries l' rest', r') ∧
    range_ok r' ∧ Forall range_ok l' ∧ pairwise R l' ∧
    Forall (separated r') l' ∧
    (length l' + length rest' = length l + length rest)%nat ∧
    (length l' ≤ length l)%nat ∧
    (∀ x, (x ∈ r' ∨ covers l' x) ↔ (x ∈ r ∨ covers l x)).
Proof.
  induction fuel as [|fuel IH]; intros l rest r Hlen Hr Hl Hp; [lia|].
  cbn [try_merges]. rewrite entries_of_entries.
  destruct (position (touches r) l) as [ii|] eqn:Hpos.
  - apply position_split in Hpos as (pre & e & mid & -> & <- & Ht & _).
    apply Forall_app in Hl as [Hpre [Hoke Hmid]%Forall_cons].
    rewrite entry_get. cbn. rewrite RangeSet_delete_spec. cbn.
    rewrite touches_spec in Ht by done. apply bool_decide_eq_true in Ht as [Ht1 Ht2].
    destruct (IH (pre ++ mid) (e :: rest)
      (mkRange (Z.min (start r) (start e)) (Z.max (end_ r) (end_ e))))
      as (l' & rest' & r' & Heq & ? & ? & ? & ? & Hlen1 & Hlen2 & Hc).
    + rewrite !length_app in *. cbn in *. lia.
    + unfold range_ok in *; cbn; lia.
    + by apply Forall_app.
    + by eapply pairwise_middle.
    + exists l', rest', r'. split_and!; try done.
      * rewrite !length_app in *. cbn in *. lia.
      * rewrite !length_app in *. cbn in *. lia.
      * intros x. rewrite Hc, !covers_app, covers_cons.
        unfold elem_of, in_range_elem_of. rewrite merge_member by done. tauto.
  - exists l, rest, r. apply position_None in Hpos. split_and!; try done.
    clear -Hpos Hr Hl. induction Hl as [|e l He Hl IHl]; [constructor|].
    apply Forall_cons in Hpos as [? ?]. constructor; [by apply touches_false|auto].
Qed.

(** [insert] on a separated set with a free slot: it returns, the result is
    separated again, and covers what the set and the range covered. *)
Lemma insert_core {E} rs r :
  RangeSet_ok rs → RangeSet_separated rs → range_ok r → (0 < room rs)%nat →
  ∃ rs', RangeSet_insert (E:=E) rs r = Ok rs' ∧
    RangeSet_ok rs' ∧ RangeSet_separated rs' ∧
    length (ranges rs') = length (ranges rs) ∧
    (room rs ≤ S (room rs'))%nat ∧
    ∀ x, covers (RangeSet_entries rs') x ↔ covers (RangeSet_entries rs) x ∨ x ∈ r.
Proof.
  intros (Hn & Hok & _) Hsep Hr Hroom.
  destruct (of_entries_canon rs Hn) as [rest Hrs].
  unfold RangeSet_separated in Hsep.
  set (l := RangeSet_entries rs) in *. clearbody l. subst rs.
  rewrite room_of_entries in Hroom.
  unfold RangeSet_insert. rewrite (proj2 (Z.leb_le _ _)) by apply Hr. cbn -[try_merges].
  rewrite in_use_of_entries.
  destruct (try_merges_spec (E:=E) separated (S (length l)) l rest r)
    as (l' & rest' & r' & -> & ? & ? & ? & HF & ? & ? & Hc); [lia|done..|].
  cbn. destruct rest' as [|y rest']; [cbn in *; lia|].
  rewrite RangeSet_push_spec. eexists; split; [done|].
  assert (pairwise separated (l' ++ [r'])) as Hpw.
  { rewrite pairwise_app; cbn. split_and!; try done.
    eapply Forall_impl; [exact HF|]. intros z Hz.
    constructor; [by apply separated_sym|constructor]. }
  unfold RangeSet_separated.
  rewrite RangeSet_ok_of_entries, !room_of_entries, entries_of_entries.
  split_and!; try done.
  - by rewrite Forall_app, Forall_singleton.
  - eapply pairwise_impl; [|exact Hpw]. apply separated_disjoint.
  - unfold of_entries; cbn. rewrite !length_app. cbn in *. lia.
  - unfold room, of_entries in *; cbn in *. rewrite length_app in *. lia.
  - intros x. specialize (Hc x). rewrite covers_app, covers_cons.
    assert (covers [] x ↔ False) as -> by apply Exists_nil. tauto.
Qed.

(** [insert] on any set: without a free slot it may panic. *)
Lemma insert_cases {E} rs r :
  RangeSet_ok rs → range_ok r →
  (RangeSet_insert (E:=E) rs r = Panic ∧ room rs = 0%nat) ∨
  ∃ rs', RangeSet_insert (E:=E) rs r = Ok rs' ∧ RangeSet_ok rs' ∧
    length (ranges rs') = length (ranges rs) ∧
    ∀ x, covers (RangeSet_entries rs') x ↔ covers (RangeSet_entries rs) x ∨ x ∈ r.
Proof.
  intros (Hn & Hok & Hp) Hr. destruct (of_entries_canon rs Hn) as [rest Hrs].
  set (l := RangeSet_entries rs) in *. clearbody l. subst rs. rewrite room_of_entries.
  unfold RangeSet_insert. rewrite (proj2 (Z.leb_le _ _)) by apply Hr. cbn -[try_merges].
  rewrite in_use_of_entries.
  destruct (try_merges_spec (E:=E) disjoint (S (length l)) l rest r)
    as (l' & rest' & r' & -> & ? & ? & ? & HF & ? & ? & Hc); [lia|done..|].
  cbn. destruct rest' as [|y rest']; [left; rewrite RangeSet_push_full; cbn in *; split; [done|lia]|].
  right. rewrite RangeSet_push_spec. eexists; split; [done|].
  rewrite RangeSet_ok_of_entries, entries_of_entries. split; [split|split].
  - by rewrite Forall_app, Forall_singleton.
  - rewrite pairwise_app; cbn. split_and!; try done.
    eapply Forall_impl; [exact HF|]. intros z Hz.
    constructor; [by apply separated_disjoint, separated_sym|constructor].
  - unfold of_entries; cbn. rewrite !length_app. cbn in *. lia.
  - intros x. specialize (Hc x). rewrite covers_app, covers_cons.
    assert (covers [] x ↔ False) as -> by apply Exists_nil. tauto.
Qed.

(** ** [remove] *)

#[export] Instance disjoint_dec a b : Decision (disjoint a b).
Proof. unfold disjoint. apply _. Defined.

(** Entries that still share an address with the range: the loop's measure *)
Definition overlapping (r : Range) (l : list Range) : nat :=
  length (filter (λ e, ¬ disjoint r e) l).

(** An entry that a removal would have to split *)
Definition strictly_inside (r e : Range) : Prop := start e < start r ∧ end_ r < end_ e.
#[export] Instance strictly_inside_dec r e : Decision (strictly_inside r e).
Proof. unfold strictly_inside. apply _. Defined.

(** Number of entries to split; at most one, as they are disjoint *)
Definition splits (r : Range) (l : list Range) : nat := length (filter (strictly_inside r) l).

Definition sub_range (a b : Range) : Prop := start b ≤ start a ∧ end_ a ≤ end_ b.

Lemma pairwise_replace pre e e' post :
  sub_range e' e →
  pairwise disjoint (pre ++ e :: post) → pairwise disjoint (pre ++ e' :: post).
Proof.
  unfold sub_range, disjoint. rewrite !pairwise_app. cbn.
  intros Hs (?&[He ?]&HF). split_and!; try done.
  - eapply Forall_impl; [exact He|]. cbn. lia.
  - eapply Forall_impl; [exact HF|]. intros y [? ?]%Forall_cons.
    apply Forall_cons; split; [lia|done].
Qed.

(** What every step of the loop keeps: [l] are the entries before it, [l'] the
    entries after it. There are enough free slots for the splits to come, and
    every new entry comes from such a split. *)
Definition removing (r : Range) (l rest l' rest' : list Range) : Prop :=
  Forall range_ok l' ∧ pairwise disjoint l' ∧
  (splits r l' ≤ length rest')%nat ∧
  (length l' + length rest' = length l + length rest)%nat ∧
  (length l' + splits r l' ≤ length l + splits r l)%nat ∧
  (∀ x, covers l' x → covers l x) ∧
  (∀ x, x ∉ r → covers l x → covers l' x).

Lemma removing_trans r l1 rest1 l2 rest2 l3 rest3 :
  removing r l1 rest1 l2 rest2 → removing r l2 rest2 l3 rest3 →
  removing r l1 rest1 l3 rest3.
Proof.
  intros (?&?&?&?&?&?&?) (?&?&?&?&?&?&?). split_and!; try done; [lia|lia|auto|auto].
Qed.

Lemma overlapping_app r l1 l2 :
  overlapping r (l1 ++ l2) = (overlapping r l1 + overlapping r l2)%nat.
Proof. unfold overlapping. by rewrite filter_app, length_app. Qed.
Lemma overlapping_cons_disjoint r e l :
  disjoint r e → overlapping r (e :: l) = overlapping r l.
Proof. intros. unfold overlapping. by rewrite filter_cons_False by tauto. Qed.
Lemma overlapping_cons_overlap r e l :
  ¬ disjoint r e → overlapping r (e :: l) = S (overlapping r l).
Proof. intros. unfold overlapping. by rewrite filter_cons_True. Qed.
Lemma overlapping_disjoint r l : Forall (disjoint r) l → overlapping r l = 0%nat.
Proof. induction 1; [done|]. by rewrite overlapping_cons_disjoint. Qed.
Lemma splits_app r l1 l2 : splits r (l1 ++ l2) = (splits r l1 + splits r l2)%nat.
Proof. unfold splits. by rewrite filter_app, length_app. Qed.
Lemma splits_cons r e l :
  splits r (e :: l) = ((if decide (strictly_inside r e) then 1 else 0) + splits r l)%nat.
Proof. unfold splits. rewrite filter_cons. by case_decide. Qed.
Lemma splits_disjoint r l : range_ok r → Forall (disjoint r) l → splits r l = 0%nat.
Proof.
  intros (?&?&?). induction 1 as [|e l He ? IH]; [done|].
  rewrite splits_cons, IH. case_decide as Hs; [|done].
  unfold disjoint, strictly_inside in *. lia.
Qed.
Lemma splits_le_1 r l : range_ok r → pairwise disjoint l → (splits r l ≤ 1)%nat.
Proof.
  intros Hr. induction l as [|e l IH]; cbn [pairwise]; [by cbn; lia|].
  intros [He Hl]. rewrite splits_cons. case_decide as Hs; [|by apply IH].
  rewrite splits_disjoint; [lia|done|]. eapply Forall_impl; [exact He|]. cbn.
  intros z. unfold disjoint, strictly_inside, range_ok in *. lia.
Qed.
Lemma overlapping_le r l : (overlapping r l ≤ length l)%nat.
Proof. apply length_filter. Qed.

(** Replacing an overlapping entry by the part outside of the range *)
Lemma removing_trim r pre e e' post rest :
  range_ok r → range_ok e' → sub_range e' e → disjoint r e' →
  (∀ x, in_range x e → x ∉ r → in_range x e') →
  removing r (pre ++ e :: post) rest (pre ++ e :: post) rest →
  removing r (pre ++ e :: post) rest (pre ++ e' :: post) rest.
Proof.
  intros Hr Hok Hsub Hdis Hkeep (Hl & Hp & HP & _). unfold removing.
  assert (splits r (pre ++ e' :: post) ≤ splits r (pre ++ e :: post))%nat as Hsplits.
  { rewrite !splits_app, !splits_cons. destruct (decide (strictly_inside r e')) as [Hs|]; [|lia].
    unfold disjoint, strictly_inside, range_ok in *. lia. }
  apply Forall_app in Hl as [? [? ?]%Forall_cons]. split_and!.
  - by rewrite Forall_app, Forall_cons.
  - by eapply pairwise_replace.
  - lia.
  - by rewrite !length_app.
  - rewrite !length_app. cbn. lia.
  - intros x. rewrite !covers_app, !covers_cons.
    intros [?|[Hx|?]]; auto. right; left. unfold elem_of, in_range_elem_of, in_range in *.
    unfold sub_range in Hsub. lia.
  - intros x Hx. rewrite !covers_app, !covers_cons. intros [?|[?|?]]; auto.
    right; left. by apply Hkeep.
Qed.

(** Dropping an entry that lies inside of the range *)
Lemma removing_delete r pre e post rest :
  sub_range e r →
  removing r (pre ++ e :: post) rest (pre ++ e :: post) rest →
  removing r (pre ++ e :: post) rest (pre ++ post) (e :: rest).
Proof.
  intros Hsub (Hl & Hp & HP & _). unfold removing.
  assert (splits r (pre ++ post) ≤ splits r (pre ++ e :: post))%nat as Hsplits
    by (rewrite !splits_app, splits_cons; lia).
  apply Forall_app in Hl as [? [? ?]%Forall_cons]. split_and!.
  - by rewrite Forall_app.
  - by eapply pairwise_middle.
  - cbn. lia.
  - rewrite !length_app; cbn; lia.
  - rewrite !length_app in *; cbn; lia.
  - intros x. rewrite !covers_app, !covers_cons. tauto.
  - intros x Hx. rewrite !covers_app, !covers_cons. intros [?|[Hin|?]]; auto.
    exfalso. apply Hx. unfold elem_of, in_range_elem_of, in_range, sub_range in *. lia.
Qed.

(** Splitting the entry that has the range strictly inside *)
Lemma removing_split r pre e post y rest :
  range_ok r → strictly_inside r e →
  removing r (pre ++ e :: post) (y :: rest) (pre ++ e :: post) (y :: rest) →
  let l' := (pre ++ mkRange (end_ r + 1) (end_ e) :: post) ++ [mkRange (start e) (start r - 1)] in
  removing r (pre ++ e :: post) (y :: rest) l' rest ∧ Forall (disjoint r) l'.
Proof.
  intros Hr [Hs1 Hs2] (Hl & Hp & HP & _) l'.
  apply Forall_app in Hl as [Hpre [He Hpost]%Forall_cons].
  assert (Forall (disjoint e) (pre ++ post)) as Hde.
  { apply pairwise_app in Hp as (?&[Hpe _]&HF). rewrite Forall_app. split; [|done].
    eapply Forall_impl; [exact HF|]. intros z [? _]%Forall_cons. by apply disjoint_sym. }
  assert (Forall (disjoint r) l') as Hall.
  { apply Forall_app in Hde as [Hd1 Hd2]. subst l'.
    rewrite !Forall_app, Forall_cons, Forall_singleton. unfold disjoint, range_ok in *; cbn.
    split_and!; [|lia| |lia]; (eapply Forall_impl; [eassumption|]); cbn; lia. }
  split; [|done]. pose proof (splits_disjoint r l' Hr Hall) as Hsl.
  unfold removing. rewrite Hsl. split_and!; subst l'.
  - rewrite !Forall_app, Forall_cons, Forall_singleton. unfold range_ok in *; cbn.
    split_and!; try done; lia.
  - rewrite pairwise_app. split_and!; [|done|].
    + eapply pairwise_replace; [|exact Hp]. unfold sub_range, range_ok in *; cbn; lia.
    + apply Forall_app in Hde as [Hd1 Hd2]. rewrite Forall_app, Forall_cons.
      unfold disjoint, range_ok in *.
      split_and!; [|rewrite Forall_singleton; cbn; lia|];
        (eapply Forall_impl; [eassumption|]); cbn; intros z Hz;
        rewrite Forall_singleton; cbn; lia.
  - lia.
  - rewrite !length_app; cbn; lia.
  - rewrite !splits_app, splits_cons, decide_True by done. rewrite !length_app; cbn; lia.
  - intros x. rewrite !covers_app, !covers_cons. unfold covers at 3. rewrite Exists_nil.
    unfold elem_of, in_range_elem_of, in_range, range_ok in *; cbn.
    intros [[?|[?|?]]|[?|[]]]; auto; right; left; lia.
  - intros x Hx. rewrite !covers_app, !covers_cons.
    unfold elem_of, in_range_elem_of, in_range, range_ok in *; cbn in *.
    intros [?|[?|?]]; auto.
    assert (end_ r + 1 ≤ x ∨ x ≤ start r - 1) as [?|?] by lia; [left; right; left; lia|].
    right; left; lia.
Qed.

(** The four ways an entry can lie relative to the range *)
Lemma entry_cases r e :
  range_ok r → range_ok e →
  disjoint r e ∧ overlaps r e = None
  ∨ ¬ disjoint r e ∧ is_Some (overlaps r e) ∧
    (sub_range e r ∧ contains e r = true
     ∨ contains e r = false ∧
       (start r ≤ start e ∧ end_ r < end_ e
        ∨ start e < start r ∧ end_ e ≤ end_ r
        ∨ strictly_inside r e)).
Proof.
  intros Hr He. unfold range_ok in *.
  rewrite overlaps_spec, contains_spec by lia.
  unfold disjoint, sub_range, strictly_inside.
  case_decide as Hd; [right|left; split; [lia|done]].
  split_and!; [lia|by eexists|].
  destruct (decide (start r ≤ start e ∧ end_ e ≤ end_ r)) as [Hc|Hc].
  - left. split; [lia|]. by apply bool_decide_eq_true.
  - right. split; [by apply bool_decide_eq_false|lia].
Qed.

Lemma subtraction_pass_spec {E} r todo : ∀ pre rest,
  range_ok r →
  removing r (pre ++ todo) rest (pre ++ todo) rest →
  Forall (disjoint r) pre →
  ∃ l' rest', removing r (pre ++ todo) rest l' rest' ∧
    (subtraction_pass (E:=E) (of_entries (pre ++ todo) rest) r (length pre) (length todo)
       = Ok (PassDone (of_entries l' rest')) ∧ Forall (disjoint r) l'
     ∨ subtraction_pass (E:=E) (of_entries (pre ++ todo) rest) r (length pre) (length todo)
       = Ok (PassAgain (of_entries l' rest')) ∧
       (overlapping r l' < overlapping r (pre ++ todo))%nat).
Proof.
  induction todo as [|e todo IH]; intros pre rest Hr Hinv Hpre.
  { exists pre, rest. rewrite app_nil_r in *. split; [done|left]. done. }
  assert (range_ok e) as He
    by (destruct Hinv as [Hl _]; by apply Forall_app in Hl as [_ [? _]%Forall_cons]).
  (* carrying on with the entry replaced by e', which no longer overlaps *)
  assert (∀ e', removing r (pre ++ e :: todo) rest (pre ++ e' :: todo) rest →
      disjoint r e' →
      ∃ l' rest', removing r (pre ++ e :: todo) rest l' rest' ∧
      (subtraction_pass (E:=E) (of_entries (pre ++ e' :: todo) rest) r (S (length pre)) (length todo)
        = Ok (PassDone (of_entries l' rest')) ∧ Forall (disjoint r) l'
      ∨ subtraction_pass (E:=E) (of_entries (pre ++ e' :: todo) rest) r (S (length pre)) (length todo)
        = Ok (PassAgain (of_entries l' rest')) ∧
        (overlapping r l' < overlapping r (pre ++ e :: todo))%nat)) as Hcont.
  { intros e' Hrem Hdis. destruct (IH (pre ++ [e']) rest) as (l' & rest' & Hrem' & HIH).
    - done.
    - rewrite <- app_assoc. cbn. destruct Hrem as (?&?&?&?&?&?&?). by split_and!.
    - by rewrite Forall_app, Forall_singleton.
    - rewrite <- app_assoc in Hrem', HIH. cbn in Hrem', HIH.
      rewrite length_app in HIH. cbn in HIH.
      replace (length pre + 1)%nat with (S (length pre)) in HIH by lia.
      exists l', rest'. split; [by eapply removing_trans|].
      destruct HIH as [?|[? Hlt]]; [by left|right]. split; [done|].
      rewrite overlapping_app, overlapping_cons_disjoint in Hlt by done.
      rewrite overlapping_app.
      destruct (decide (disjoint r e)).
      + by rewrite overlapping_cons_disjoint.
      + rewrite overlapping_cons_overlap by done. lia. }
  cbn [length subtraction_pass]. rewrite entry_get. cbn.
  destruct (entry_cases r e Hr He)
    as [[Hd ->]|(Hd & [o ->] & [[Hsub ->]|[-> Hcase]])].
  - by apply Hcont.
  - rewrite RangeSet_delete_spec. cbn. eexists _, _. split; [by apply removing_delete|].
    right. split; [done|].
    rewrite !overlapping_app, overlapping_cons_overlap by done. lia.
  - unfold range_ok in Hr, He. pose proof Hd as Hd'. unfold disjoint in Hd'.
    destruct Hcase as [[H1 H2]|[[H1 H2]|[H1 H2]]].
    + rewrite (proj2 (Z.leb_le _ _)) by lia. unfold saturating_add. rewrite Z.min_l by lia.
      rewrite entry_set. cbn -[subtraction_pass]. rewrite mkRangeSet_middle.
      apply Hcont; [|unfold disjoint; cbn; lia].
      apply removing_trim; try done; unfold range_ok, sub_range, disjoint, in_range; cbn; try lia.
      intros x ? Hx. unfold elem_of, in_range_elem_of, in_range in Hx. lia.
    + rewrite (proj2 (Z.leb_gt _ _)), Z.geb_leb, (proj2 (Z.leb_le _ _)) by lia.
      unfold saturating_sub. rewrite Z.max_l by lia.
      rewrite entry_set. cbn -[subtraction_pass]. rewrite mkRangeSet_middle.
      apply Hcont; [|unfold disjoint; cbn; lia].
      apply removing_trim; try done; unfold range_ok, sub_range, disjoint, in_range; cbn; try lia.
      intros x ? Hx. unfold elem_of, in_range_elem_of, in_range in Hx. lia.
    + rewrite (proj2 (Z.leb_gt _ _)), Z.geb_leb, (proj2 (Z.leb_gt _ _)) by lia.
      unfold saturating_sub, saturating_add. rewrite Z.max_l, Z.min_l by lia.
      rewrite entry_set. cbn. rewrite mkRangeSet_middle.
      destruct rest as [|y rest].
      { exfalso. destruct Hinv as (_&_&HP&_). cbn [length] in HP.
        rewrite splits_app, splits_cons, decide_True in HP by done. lia. }
      rewrite RangeSet_push_spec. cbn.
      destruct (removing_split r pre e todo y rest) as [Hrem Hall]; try done.
      eexists _, _. split; [exact Hrem|]. right. split; [done|].
      rewrite (overlapping_app r pre), overlapping_cons_overlap by done.
      rewrite overlapping_disjoint by done. lia.
Qed.

Lemma try_subtractions_spec {E} r fuel : ∀ l rest,
  range_ok r → removing r l rest l rest → (overlapping r l < fuel)%nat →
  ∃ l' rest', removing r l rest l' rest' ∧ Forall (disjoint r) l' ∧
    try_subtractions (E:=E) fuel (of_entries l rest) r = Ok (of_entries l' rest').
Proof.
  induction fuel as [|fuel IH]; intros l rest Hr Hinv Hlt; [lia|].
  cbn [try_subtractions]. rewrite in_use_of_entries.
  destruct (subtraction_pass_spec (E:=E) r l [] rest)
    as (l1 & rest1 & Hrem & [[Heq Hall]|[Heq Hlt1]]); [done..|constructor| |].
  - cbn in Heq. rewrite Heq. cbn. exists l1, rest1. done.
  - cbn in Heq. rewrite Heq. cbn.
    destruct (IH l1 rest1) as (l2 & rest2 & Hrem2 & ? & ?).
    + done.
    + destruct Hrem as (?&?&?&?&?&?&?). by split_and!.
    + rewrite app_nil_l in Hlt1. lia.
    + exists l2, rest2. split_and!; try done. by eapply removing_trans.
Qed.

(** [remove] when there are free slots for the splits *)
Lemma remove_core {E} rs r :
  RangeSet_ok rs → range_ok r → (splits r (RangeSet_entries rs) ≤ room rs)%nat →
  ∃ rs', RangeSet_remove (E:=E) rs r = Ok rs' ∧ RangeSet_ok rs' ∧
    length (ranges rs') = length (ranges rs) ∧
    (in_use rs' ≤ in_use rs + splits r (RangeSet_entries rs))%nat ∧
    ∀ x, covers (RangeSet_entries rs') x ↔ covers (RangeSet_entries rs) x ∧ x ∉ r.
Proof.
  intros (Hn & Hok & Hp) Hr Hroom.
  destruct (of_entries_canon rs Hn) as [rest Hrs].
  set (l := RangeSet_entries rs) in *. clearbody l. subst rs.
  rewrite room_of_entries in Hroom.
  unfold RangeSet_remove. rewrite (proj2 (Z.leb_le _ _)) by apply Hr.
  cbn -[try_subtractions]. rewrite in_use_of_entries.
  destruct (try_subtractions_spec (E:=E) r (S (length l)) l rest)
    as (l' & rest' & (?&?&?&Hlen&Hlen2&Hc1&Hc2) & Hall & ->); [done|by unfold removing| |].
  { pose proof (overlapping_le r l). lia. }
  eexists; split; [done|].
  rewrite RangeSet_ok_of_entries, entries_of_entries, in_use_of_entries.
  split_and!; try done.
  - unfold of_entries; cbn. rewrite !length_app. lia.
  - lia.
  - intros x. split; [|naive_solver]. intros Hx. split; [auto|].
    intros Hin. unfold covers in Hx. apply Exists_exists in Hx as (e & He & Hxe).
    rewrite Forall_forall in Hall. specialize (Hall e He).
    unfold elem_of, in_range_elem_of, in_range, disjoint, range_ok in *. lia.
Qed.

(** An entry that has to be split when there is no free slot *)
Lemma remove_full {E} rs r :
  RangeSet_ok rs → range_ok r → room rs = 0%nat → (0 < splits r (RangeSet_entries rs))%nat →
  RangeSet_remove (E:=E) rs r = Panic.
Proof.
  intros (Hn & Hok & Hp) Hr Hroom Hsplit. destruct (of_entries_canon rs Hn) as [rest Hrs].
  set (l := RangeSet_entries rs) in *. clearbody l. subst rs. rewrite room_of_entries in Hroom.
  destruct rest; [|done]. unfold RangeSet_remove. rewrite (proj2 (Z.leb_le _ _)) by apply Hr.
  cbn -[try_subtractions]. rewrite in_use_of_entries. cbn [try_subtractions]. rewrite in_use_of_entries.
  assert (∃ pre e post, l = pre ++ e :: post ∧ strictly_inside r e) as (pre & e & post & -> & He).
  { unfold splits in Hsplit. destruct (filter (strictly_inside r) l) as [|e l'] eqn:Hf; [cbn in Hsplit; lia|].
    assert (e ∈ filter (strictly_inside r) l) as Hin by (rewrite Hf; left).
    apply list_elem_of_filter in Hin as [He Hin]. apply list_elem_of_split in Hin as (pre & post & ->).
    by exists pre, e, post. }
  assert (Forall (disjoint r) pre) as Hpre.
  { apply pairwise_app in Hp as (_ & _ & HF). eapply Forall_impl; [exact HF|].
    intros z [Hz _]%Forall_cons. unfold disjoint, strictly_inside in *. unfold range_ok in Hr. lia. }
  assert (∀ todo done, Forall range_ok todo → Forall (disjoint r) todo →
    subtraction_pass (E:=E) (of_entries (done ++ todo ++ e :: post) []) r (length done) (length (todo ++ e :: post))
      = Panic) as Hgo.
  { induction todo as [|z todo IH]; intros done Htodo Hz.
    - cbn [app length subtraction_pass]. rewrite entry_get. cbn.
      apply Forall_app in Hok as [_ [Hoke _]%Forall_cons].
      destruct (entry_cases r e Hr Hoke) as [[Hd _]|(_ & [o ->] & [[Hsub _]|[-> _]])];
        [unfold disjoint, strictly_inside, range_ok in *; lia|unfold sub_range, strictly_inside in *; lia|].
      destruct He as [H1 H2]. rewrite (proj2 (Z.leb_gt _ _)), Z.geb_leb, (proj2 (Z.leb_gt _ _)) by lia.
      rewrite entry_set. cbn. rewrite mkRangeSet_middle. by rewrite RangeSet_push_full.
    - apply Forall_cons in Htodo as [Hzok Htodo], Hz as [Hzd Hz].
      cbn [app length subtraction_pass]. rewrite entry_get. cbn.
      destruct (entry_cases r z Hr Hzok) as [[_ ->]|[Hd _]]; [|done].
      specialize (IH (done ++ [z]) Htodo Hz). rewrite length_app, <- app_assoc in IH. cbn in IH.
      by replace (length done + 1)%nat with (S (length done)) in IH by lia. }
  specialize (Hgo pre []). cbn [app length] in Hgo. rewrite Hgo; [done| |done].
  by apply Forall_app in Hok as [? _].
Qed.

(** [remove] on any set: without a free slot it may panic. *)
Lemma remove_cases {E} rs r :
  RangeSet_ok rs → range_ok r →
  (RangeSet_remove (E:=E) rs r = Panic ∧ room rs = 0%nat) ∨
  ∃ rs', RangeSet_remove (E:=E) rs r = Ok rs' ∧ RangeSet_ok rs' ∧
    length (ranges rs') = length (ranges rs) ∧
    ∀ x, covers (RangeSet_entries rs') x ↔ covers (RangeSet_entries rs) x ∧ x ∉ r.
Proof.
  intros Hok Hr. destruct (decide (splits r (RangeSet_entries rs) ≤ room rs)%nat) as [Hle|Hgt].
  - right. destruct (remove_core (E:=E) rs r Hok Hr Hle) as (rs' & ? & ? & ? & _ & ?). by exists rs'.
  - left. pose proof (splits_le_1 r _ Hr (proj2 (proj2 Hok))).
    split; [apply remove_full|]; [done|done|lia|lia|lia].
Qed.

Lemma remove_all_core {E} ents : ∀ rs,
  RangeSet_ok rs → Forall range_ok ents → (length ents ≤ room rs)%nat →
  ∃ rs', remove_all (E:=E) rs ents = Ok rs' ∧ RangeSet_ok rs' ∧
    ∀ x, covers (RangeSet_entries rs') x ↔
      covers (RangeSet_entries rs) x ∧ ¬ covers ents x.
Proof.
  induction ents as [|e ents IH]; intros rs Hrs Hents Hroom.
  { exists rs. split_and!; try done. intros x. unfold covers at 3.
    rewrite Exists_nil. tauto. }
  apply Forall_cons in Hents as [He Hents]. cbn [length] in Hroom.
  pose proof (splits_le_1 e _ He (proj2 (proj2 Hrs))) as Hs1.
  destruct (remove_core (E:=E) rs e Hrs He) as (rs1 & Heq & Hok1 & Hlen1 & Huse & Hc1); [lia|].
  cbn. rewrite Heq. cbn.
  destruct (IH rs1 Hok1 Hents) as (rs' & -> & Hok' & Hc'); [unfold room in *; lia|].
  exists rs'. split_and!; try done. intros x. rewrite Hc', Hc1, covers_cons. tauto.
Qed.

(** ** Alignment arithmetic *)

Lemma count_ones_pos_ge p : 1 ≤ count_ones_pos p.
Proof. induction p; cbn; lia. Qed.

Lemma count_ones_pow2 x : count_ones x = 1 → ∃ k, 0 ≤ k ∧ x = 2 ^ k.
Proof.
  destruct x as [|p|p]; cbn; try done.
  induction p as [p IH|p IH|]; cbn.
  - pose proof (count_ones_pos_ge p). lia.
  - intros (k & ? & Hk)%IH. exists (k + 1). split; [lia|].
    rewrite Z.pow_add_r, <- Hk by lia. lia.
  - intros _. by exists 0.
Qed.

Lemma land_mask k x : 0 ≤ k → Z.land x (2 ^ k - 1) = x mod 2 ^ k.
Proof.
  intros. rewrite <- Z.land_ones by done. f_equal. rewrite Z.ones_equiv. lia.
Qed.

(** [(align - (start & mask)) & mask] pads [start] to the next multiple. *)
Lemma align_fix_spec k s :
  0 ≤ k →
  let fix_ := Z.land (2 ^ k - Z.land s (2 ^ k - 1)) (2 ^ k - 1) in
  0 ≤ fix_ < 2 ^ k ∧ (s + fix_) mod 2 ^ k = 0 ∧
  (∀ p, s ≤ p → p mod 2 ^ k = 0 → s + fix_ ≤ p).
Proof.
  intros Hk fix_. subst fix_. rewrite !land_mask by done.
  assert (0 < 2 ^ k) as Hpos by (apply Z.pow_pos_nonneg; lia).
  set (a := 2 ^ k) in *. clearbody a.
  pose proof (Z.mod_pos_bound s a Hpos). pose proof (Z.mod_pos_bound (a - s mod a) a Hpos).
  split_and!; try lia.
  - rewrite Z.add_mod_idemp_r by lia.
    replace (s + (a - s mod a)) with ((s / a + 1) * a)
      by (pose proof (Z.div_mod s a ltac:(lia)); lia).
    apply Z.mod_mul. lia.
  - intros p Hp Hmod. apply Z.mod_divide in Hmod as [q ->]; [|lia].
    pose proof (Z.div_mod s a ltac:(lia)) as Hdm.
    set (m := s mod a) in *. set (d := s / a) in *. clearbody m d. subst s.
    destruct (decide (m = 0)) as [->|Hz].
    + rewrite Z.sub_0_r, Z.mod_same; lia.
    + rewrite (Z.mod_small (a - m)) by lia. assert (d < q) by nia. nia.
Qed.

Lemma land_not_mask k v :
  0 ≤ k → is_u64 v → Z.land v (not_u64 (2 ^ k - 1)) = v - v mod 2 ^ k.
Proof.
  intros Hk [Hv1 Hv2].
  assert (Z.land v (not_u64 (2 ^ k - 1)) = Z.ldiff v (Z.ones k)) as ->.
  { apply Z.bits_inj'. intros i Hi. unfold not_u64.
    change u64_max with (Z.ones 64).
    replace (2 ^ k - 1) with (Z.ones k) by (rewrite Z.ones_equiv; lia).
    rewrite Z.land_spec, Z.lxor_spec, Z.ldiff_spec.
    destruct (decide (i < 64)).
    - rewrite (Z.ones_spec_low 64) by lia. by rewrite xorb_true_r.
    - assert (Z.testbit v i = false) as ->; [|done].
      replace v with (v mod 2 ^ 64) by (apply Z.mod_small; unfold u64_max in *; lia).
      apply Z.mod_pow2_bits_high. lia. }
  rewrite Z.ldiff_ones_r by done. rewrite Z.shiftl_mul_pow2, Z.shiftr_div_pow2 by done.
  rewrite Z.mod_eq by (pose proof (Z.pow_pos_nonneg 2 k); lia). lia.
Qed.

(** ** [allocate_prefer] *)

Section allocation.
Context {E : Type} (l : list Range) (regions : option (list Range)) (force : bool)
  (size k : Z) (Hl : Forall range_ok l)
  (Hregions : Forall range_ok (default [] regions)) (Hsize : 1 ≤ size) (Hk : 0 ≤ k).

(** What holds of a candidate [(base, end, ptr)] whenever the search keeps it *)
Definition candidate_ok (c : candidate) : Prop :=
  let '(base, end', ptr) := c in
  end' = ptr + (size - 1) ∧ ptr mod 2 ^ k = 0 ∧
  (∃ ent, ent ∈ l ∧ start ent ≤ base ∧ base ≤ ptr ∧ end' ≤ end_ ent) ∧
  (force = true → base = ptr ∧
     ∃ region, region ∈ default [] regions ∧ start region ≤ ptr ∧ end' ≤ end_ region).

Lemma region_search_spec ent rs :
  ent ∈ l → rs ⊆ default [] regions →
  ∃ res, region_search (E:=E) ent size (2 ^ k - 1) rs = Ok res ∧
    match res with
    | RegionFound c => candidate_ok c
    | RegionContinue => False
    | RegionNone => True
    end.
Proof.
  intros Hent. rewrite Forall_forall in Hl. pose proof (Hl ent Hent) as (?&?&?).
  rewrite Forall_forall in Hregions.
  induction rs as [|region rs IH]; intros Hsub; [by eexists|].
  pose proof (Hregions region ltac:(set_solver)) as (?&?&?).
  cbn [region_search]. rewrite overlaps_spec by lia.
  case_decide as Hov; [|apply IH; set_solver]. cbn.
  set (s := Z.max (start ent) (start region)).
  assert (0 < 2 ^ k) as Hpos by (apply Z.pow_pos_nonneg; lia).
  assert (is_u64 (wrapping_add s (2 ^ k - 1))) as Hw.
  { unfold wrapping_add, is_u64, u64_max. pose proof (Z.mod_pos_bound (s + (2 ^ k - 1))
      (18446744073709551615 + 1)). lia. }
  rewrite land_not_mask by done.
  set (v := wrapping_add s (2 ^ k - 1)) in *.
  set (ao := v - v mod 2 ^ k).
  destruct (Z.geb_spec ao s), (Z.leb_spec ao (Z.min (end_ ent) (end_ region))); cbn;
    try (apply IH; set_solver).
  destruct (Z.geb_spec (Z.min (end_ ent) (end_ region) - ao) (size - 1)); cbn;
    [|apply IH; set_solver].
  rewrite add_u64_ok by lia. cbn.
  unfold usize_max. destruct (Z.gtb_spec ao u64_max); [lia|].
  destruct (Z.gtb_spec (ao + (size - 1)) u64_max); [lia|]. cbn.
  eexists; split; [done|]. cbn. split_and!; [done| | |].
  - subst ao. rewrite Zminus_mod_idemp_r, Z.sub_diag. apply Z.mod_0_l. lia.
  - exists ent. split_and!; try done; lia.
  - intros _. split; [done|]. exists region. split_and!; [set_solver|lia|lia].
Qed.

Lemma allocation_search_spec ents : ∀ a,
  ents ⊆ l → (∀ c, a = Some c → candidate_ok c) →
  ∃ res, allocation_search (E:=E) size (2 ^ k) regions force ents a = Ok res ∧
    ∀ c, res = Some (Some c) → candidate_ok c.
Proof.
  induction ents as [|ent ents IH]; intros a Hsub Ha.
  { eexists; split; [done|]. naive_solver. }
  assert (ent ∈ l) as Hent by set_solver.
  assert (ents ⊆ l) as Hsub' by set_solver.
  assert (range_ok ent) as (?&?&?) by (rewrite Forall_forall in Hl; auto).
  cbn [allocation_search].
  destruct (align_fix_spec k (start ent) Hk) as (Hfix & Hmod & _).
  set (fix_ := Z.land _ _) in *.
  unfold checked_add.
  destruct (Z.leb_spec (start ent + (size - 1)) u64_max); cbn; [|by exists None].
  destruct (Z.leb_spec (start ent + (size - 1) + fix_) u64_max); cbn; [|by exists None].
  destruct (orb _ _); [by apply IH|].
  destruct (Z.gtb_spec (start ent + (size - 1) + fix_) (end_ ent)); [by apply IH|].
  assert (∃ res, match regions with
      | Some rs => region_search (E:=E) ent size (2 ^ k - 1) rs
      | None => mret RegionNone end = Ok res ∧
      match res with
      | RegionFound c => candidate_ok c
      | RegionContinue => False
      | RegionNone => True
      end) as (res & -> & Hres).
  { clear IH Ha. pose proof (region_search_spec ent (default [] regions) Hent) as Hrs.
    destruct regions as [rs|]; [by apply Hrs|by eexists]. }
  cbn. destruct res as [c| |]; [|done|].
  - eexists; split; [done|]. naive_solver.
  - apply IH; [done|]. intros c Hc.
    assert (force = false → candidate_ok (start ent, start ent + (size - 1) + fix_, start ent + fix_))
      as Hnew.
    { intros Hf. unfold candidate_ok. rewrite Hf. split_and!; [lia|done| |done].
      exists ent. split_and!; try done; lia. }
    destruct force; [auto|]. destruct a as [[[b e] p]|]; [|simplify_eq; auto].
    case_match; simplify_eq; auto.
Qed.
End allocation.

(** Without regions the search keeps a candidate as soon as an entry has room. *)
Lemma allocation_search_total {E} l size k : Forall range_ok l → 1 ≤ size → 0 ≤ k →
  Forall (λ e, start e + size + 2 ^ k ≤ u64_max) l →
  ∀ ents a, ents ⊆ l → (∀ c, a = Some c → candidate_ok l None false size k c) →
  is_Some a ∨ (∃ ent p, ent ∈ ents ∧ p mod 2 ^ k = 0 ∧ start ent ≤ p ∧
                 p + size - 1 ≤ end_ ent) →
  ∃ c, allocation_search (E:=E) size (2 ^ k) None false ents a = Ok (Some (Some c)) ∧
    candidate_ok l None false size k c.
Proof.
  intros Hl Hsize Hk Hfit ents. induction ents as [|e ents IH]; intros a Hsub Ha Hex.
  { destruct Hex as [[c ->]|(?&?&?&_)]; [|set_solver]. exists c. split; [done|auto]. }
  assert (e ∈ l) as He by set_solver. assert (ents ⊆ l) as Hsub' by set_solver.
  pose proof Hl as Hl'. rewrite Forall_forall in Hl'. destruct (Hl' e He) as (?&?&?).
  rewrite Forall_forall in Hfit. pose proof (Hfit e He) as Hfe. cbn in Hfe.
  cbn [allocation_search].
  destruct (align_fix_spec k (start e) Hk) as (Hfix & Hmod & Hleast).
  set (fix_ := Z.land _ _) in *. unfold checked_add.
  rewrite (proj2 (Z.leb_le (start e + (size - 1)) _)) by lia. cbn.
  rewrite (proj2 (Z.leb_le (start e + (size - 1) + fix_) _)) by lia.
  unfold usize_max.
  destruct (Z.gtb_spec (start e) u64_max); [lia|].
  destruct (Z.gtb_spec (start e + (size - 1) + fix_) u64_max); [lia|]. cbn.
  destruct (Z.gtb_spec (start e + (size - 1) + fix_) (end_ e)) as [Hgt|Hle].
  - apply IH; try done. destruct Hex as [?|(ent & p & Hin & Hp & ? & ?)]; [by left|right].
    exists ent, p. split_and!; try done. apply elem_of_cons in Hin as [->|?]; [|done].
    specialize (Hleast p ltac:(done) Hp). lia.
  - assert (candidate_ok l None false size k
      (start e, start e + (size - 1) + fix_, start e + fix_)) as Hnew.
    { split_and!; [lia|done| |done]. exists e. split_and!; try done; lia. }
    apply IH; [done| |left].
    + intros c Hc. destruct a as [[[b e'] p]|]; [|naive_solver].
      case_match; simplify_eq; auto.
    + destruct a as [[[b e'] p]|]; [|done]. by case_match.
Qed.

(** ** [remove_if_exist] *)

(** Entries that do not contain the range are passed over. *)
Lemma remove_if_exist_skip {E} r pre : ∀ done_ post rest,
  range_ok r → Forall range_ok pre → Forall (λ e, ¬ sub_range r e) pre →
  remove_if_exist_loop (E:=E) (of_entries (done_ ++ pre ++ post) rest) r
    (length done_) (length pre + length post)
  = remove_if_exist_loop (of_entries (done_ ++ pre ++ post) rest) r
      (length done_ + length pre) (length post).
Proof.
  induction pre as [|e pre IH]; intros done_ post rest Hr Hok Hpre; cbn [length].
  { by rewrite Nat.add_0_r. }
  apply Forall_cons in Hok as [He Hok]. apply Forall_cons in Hpre as [Hn Hpre].
  cbn [remove_if_exist_loop Nat.add].
  rewrite <- app_comm_cons, entry_get. cbn [mbind result_bind].
  unfold range_ok in *.
  rewrite bool_decide_eq_false_2 by (intros ->; apply Hn; unfold sub_range; lia).
  rewrite contains_spec, bool_decide_eq_false_2 by (unfold sub_range in Hn; lia). cbn [negb].
  specialize (IH (done_ ++ [e]) post rest Hr Hok Hpre).
  rewrite <- !app_assoc, length_app in IH. cbn in IH.
  rewrite (Nat.add_1_r (length done_)) in IH. rewrite IH. f_equal. lia.
Qed.

(** The loop reaches the first entry that contains the range. *)
Lemma remove_if_exist_reach {E} r pre e post rest :
  range_ok r → Forall range_ok (pre ++ e :: post) → Forall (λ e, ¬ sub_range r e) pre →
  RangeSet_remove_if_exist (E:=E) (of_entries (pre ++ e :: post) rest) r
  = remove_if_exist_loop (of_entries (pre ++ e :: post) rest) r
      (length pre) (S (length post)).
Proof.
  intros Hr Hok Hpre. apply Forall_app in Hok as [Hok _].
  unfold RangeSet_remove_if_exist. rewrite in_use_of_entries, length_app.
  pose proof (remove_if_exist_skip (E:=E) r pre [] (e :: post) rest Hr Hok Hpre) as H.
  by cbn [app length Nat.add] in H.
Qed.

(** Either no entry contains the range, or the list splits at the first one. *)
Lemma first_container r l :
  Forall (λ e, ¬ sub_range r e) l ∨
  ∃ pre e post, l = pre ++ e :: post ∧ sub_range r e ∧ Forall (λ e, ¬ sub_range r e) pre.
Proof.
  induction l as [|e l IH]; [by left|].
  assert (sub_range r e ∨ ¬ sub_range r e) as [?|?] by (unfold sub_range; lia).
  - right. by exists [], e, l.
  - destruct IH as [?|(pre & e' & post & -> & ? & ?)]; [left; by constructor|].
    right. exists (e :: pre), e', post. split_and!; try done. by constructor.
Qed.

(** Shrinking one entry keeps a separated set separated. *)
Lemma separated_replace pre e e' post :
  sub_range e' e →
  pairwise separated (pre ++ e :: post) → pairwise separated (pre ++ e' :: post).
Proof.
  unfold sub_range, separated. rewrite !pairwise_app. cbn.
  intros Hs (?&[He ?]&HF). split_and!; try done.
  - eapply Forall_impl; [exact He|]. cbn. lia.
  - eapply Forall_impl; [exact HF|]. intros y [? ?]%Forall_cons.
    apply Forall_cons; split; [lia|done].
Qed.

(** In a set of disjoint ranges, an address of an entry is in no other. *)
Lemma covers_others pre e post x :
  pairwise disjoint (pre ++ e :: post) → x ∈ e → ¬ covers (pre ++ post) x.
Proof.
  unfold covers, elem_of, in_range_elem_of. rewrite pairwise_app; cbn.
  intros (_&[He _]&HF) Hx (e' & Hin & Hx')%Exists_exists.
  apply elem_of_app in Hin. rewrite Forall_forall in He, HF.
  unfold in_range, disjoint in *. destruct Hin as [Hin|Hin].
  - specialize (HF _ Hin). apply Forall_cons in HF as [? _]. lia.
  - specialize (He _ Hin). lia.
Qed.

(** One round of the loop at an entry that has an end in common with the range *)
Lemma remove_at_edge {E} r pre e post rest :
  range_ok r → Forall range_ok (pre ++ e :: post) → pairwise disjoint (pre ++ e :: post) →
  sub_range r e →
  r = e ∨ (start r < end_ r ∧ (start r = start e ∨ end_ r = end_ e)) →
  ∃ rs', remove_if_exist_loop (E:=E) (of_entries (pre ++ e :: post) rest) r
           (length pre) (S (length post)) = Ok (true, rs') ∧
    RangeSet_ok rs' ∧
    ∀ x, covers (RangeSet_entries rs') x ↔ covers (pre ++ e :: post) x ∧ x ∉ r.
Proof.
  intros Hr Hl Hp Hsub Hedge. pose proof Hl as Hl0.
  apply Forall_app in Hl as [Hlpre [He Hlpost]%Forall_cons].
  pose proof (λ x, covers_others pre e post x Hp) as Hoth.
  unfold range_ok, sub_range in *.
  cbn [remove_if_exist_loop]. rewrite entry_get. cbn [mbind result_bind].
  case_bool_decide as Heq.
  { subst e. rewrite RangeSet_delete_spec. cbn. eexists; split; [done|].
    rewrite RangeSet_ok_of_entries, entries_of_entries. split_and!.
    - by rewrite Forall_app.
    - by eapply pairwise_middle.
    - intros x. specialize (Hoth x). rewrite covers_app in *. rewrite covers_app, covers_cons.
      unfold covers in *. tauto. }
  destruct Hedge as [?|(Hlt & Hedge)]; [done|].
  rewrite contains_spec, bool_decide_eq_true_2 by (unfold sub_range in *; lia). cbn [negb].
  assert (∀ e', range_ok e' → sub_range e' e → (∀ x, x ∈ e' ↔ x ∈ e ∧ x ∉ r) →
    RangeSet_ok (of_entries (pre ++ e' :: post) rest) ∧
    ∀ x, covers (RangeSet_entries (of_entries (pre ++ e' :: post) rest)) x ↔
         covers (pre ++ e :: post) x ∧ x ∉ r) as Hfin.
  { intros e' He' Hsub' Hmem. rewrite RangeSet_ok_of_entries, entries_of_entries.
    split_and!; [by rewrite Forall_app, Forall_cons|by eapply pairwise_replace|].
    intros x. specialize (Hoth x). specialize (Hmem x).
    assert (x ∈ r → x ∈ e) by
      (unfold elem_of, in_range_elem_of, in_range, sub_range in *; lia).
    rewrite covers_app in *. rewrite !covers_app, !covers_cons. tauto. }
  assert (r ≠ e → ¬ (start r = start e ∧ end_ r = end_ e)) as Hne.
  { intros Hne [? ?]. apply Hne. destruct r, e; cbn in *; congruence. }
  specialize (Hne Heq). unfold elem_of, in_range_elem_of, in_range, sub_range in *.
  destruct (Z.eqb_spec (start r) (start e)).
  - rewrite (proj2 (Z.ltb_lt _ _)), (proj2 (Z.gtb_lt _ _)) by lia. cbn.
    rewrite add_u64_ok by lia. cbn. rewrite entry_set. cbn. rewrite mkRangeSet_middle.
    eexists; split; [done|]. apply Hfin; unfold range_ok; cbn; lia.
  - rewrite (proj2 (Z.eqb_eq (end_ r) (end_ e))) by lia.
    rewrite (proj2 (Z.gtb_lt _ _)), (proj2 (Z.ltb_lt _ _)) by lia. cbn.
    rewrite sub_u64_ok by lia. cbn. rewrite entry_set. cbn. rewrite mkRangeSet_middle.
    eexists; split; [done|]. apply Hfin; unfold range_ok; cbn; lia.
Qed.

(** In the middle of an entry: the upper part is inserted again, the lower part ends
    with the first address of the range. *)
Lemma remove_in_middle_step {E} r pre e post rest :
  range_ok r → Forall range_ok (pre ++ e :: post) → strictly_inside r e →
  remove_if_exist_loop (E:=E) (of_entries (pre ++ e :: post) rest) r (length pre) (S (length post)) =
  (rs ← RangeSet_insert (of_entries (pre ++ mkRange (start e) (start r) :: post) rest)
          (mkRange (end_ r + 1) (end_ e));
   mret (true, rs)).
Proof.
  intros Hr Hl [Hs1 Hs2]. apply Forall_app in Hl as [Hlpre [He Hlpost]%Forall_cons].
  unfold range_ok in *. cbn [remove_if_exist_loop]. rewrite entry_get. cbn [mbind result_bind].
  rewrite bool_decide_eq_false_2 by (intros ->; lia).
  rewrite contains_spec, bool_decide_eq_true_2 by lia. cbn [negb].
  rewrite (proj2 (Z.eqb_neq _ _)), (proj2 (Z.eqb_neq _ _)) by lia.
  rewrite (proj2 (Z.gtb_lt _ _)), (proj2 (Z.ltb_lt _ _)) by lia. cbn -[RangeSet_insert].
  rewrite entry_set. cbn -[RangeSet_insert].
  rewrite (proj2 (Z.gtb_lt _ _)), (proj2 (Z.ltb_lt _ _)) by lia. cbn -[RangeSet_insert].
  rewrite add_u64_ok by lia. cbn -[RangeSet_insert]. by rewrite mkRangeSet_middle.
Qed.

Lemma remove_in_middle_ok r pre e post rest :
  range_ok r → Forall range_ok (pre ++ e :: post) → pairwise disjoint (pre ++ e :: post) →
  strictly_inside r e →
  RangeSet_ok (of_entries (pre ++ mkRange (start e) (start r) :: post) rest) ∧
  range_ok (mkRange (end_ r + 1) (end_ e)).
Proof.
  intros Hr Hl Hp [Hs1 Hs2]. apply Forall_app in Hl as [Hlpre [He Hlpost]%Forall_cons].
  unfold range_ok in *; cbn. split; [|lia]. apply RangeSet_ok_of_entries.
  rewrite Forall_app, Forall_cons. unfold range_ok; cbn. split_and!; try done; try lia.
  eapply pairwise_replace; [|exact Hp]. unfold sub_range; cbn; lia.
Qed.

Lemma remove_in_middle_covers r pre e post x :
  pairwise disjoint (pre ++ e :: post) → strictly_inside r e → range_ok r →
  covers (pre ++ mkRange (start e) (start r) :: post) x ∨ x ∈ mkRange (end_ r + 1) (end_ e) ↔
  covers (pre ++ e :: post) x ∧ ¬ (start r < x ≤ end_ r).
Proof.
  intros Hp [Hs1 Hs2] Hr. pose proof (covers_others pre e post x Hp) as Hoth.
  rewrite covers_app in Hoth. rewrite !covers_app, !covers_cons. unfold range_ok in *.
  unfold elem_of, in_range_elem_of, in_range in *. cbn.
  destruct (decide (start e ≤ x ≤ end_ e)) as [Hx|Hx].
  - assert ((start e ≤ x ≤ start r ∨ end_ r + 1 ≤ x ≤ end_ e) ↔ ¬ (start r < x ≤ end_ r)) by lia. tauto.
  - assert (¬ (start e ≤ x ≤ start r) ∧ ¬ (end_ r + 1 ≤ x ≤ end_ e) ∧ ¬ (start r < x ≤ end_ r)) by lia. tauto.
Qed.

(** One round of the loop at an entry that has the range strictly inside *)
Lemma remove_in_middle {E} r pre e post rest :
  range_ok r → Forall range_ok (pre ++ e :: post) →
  pairwise disjoint (pre ++ e :: post) → pairwise separated (pre ++ e :: post) →
  (0 < room (of_entries (pre ++ e :: post) rest))%nat → strictly_inside r e →
  ∃ rs', remove_if_exist_loop (E:=E) (of_entries (pre ++ e :: post) rest) r
           (length pre) (S (length post)) = Ok (true, rs') ∧
    ∀ x, covers (RangeSet_entries rs') x ↔
      covers (pre ++ e :: post) x ∧ ¬ (start r < x ≤ end_ r).
Proof.
  intros Hr Hl Hdis Hsep Hroom Hs. rewrite remove_in_middle_step by done.
  destruct (remove_in_middle_ok r pre e post rest Hr Hl Hdis Hs) as [Hok Hr'].
  destruct (insert_core (E:=E) _ (mkRange (end_ r + 1) (end_ e)) Hok)
    as (rs' & -> & _ & _ & _ & _ & Hc); [|done| |].
  - unfold RangeSet_separated. rewrite entries_of_entries.
    eapply separated_replace; [|exact Hsep]. destruct Hs. unfold sub_range, range_ok in *; cbn; lia.
  - by rewrite room_of_entries in *.
  - cbn. eexists; split; [done|]. intros x. rewrite Hc, entries_of_entries. by apply remove_in_middle_covers.
Qed.

(** [remove_if_exist] on any set. In the middle of an entry the first address stays. *)
Lemma remove_if_exist_cases {E} rs r :
  RangeSet_ok rs → range_ok r → start r < end_ r →
  (RangeSet_remove_if_exist (E:=E) rs r = Panic ∧ room rs = 0%nat) ∨
  ∃ b rs', RangeSet_remove_if_exist (E:=E) rs r = Ok (b, rs') ∧ RangeSet_ok rs' ∧
    (b = false → rs' = rs) ∧
    (b = true ↔ Exists (sub_range r) (RangeSet_entries rs)) ∧
    (b = true → (∀ x, covers (RangeSet_entries rs') x → covers (RangeSet_entries rs) x) ∧
       ∀ x, x ≠ start r → covers (RangeSet_entries rs') x ↔ covers (RangeSet_entries rs) x ∧ x ∉ r).
Proof.
  intros Hok Hr Hlt. destruct (of_entries_canon rs (proj1 Hok)) as [rest Hrs].
  set (l := RangeSet_entries rs) in *. clearbody l. subst rs.
  pose proof Hok as [Hl Hp]%RangeSet_ok_of_entries. rewrite room_of_entries.
  destruct (first_container r l) as [Hnone|(pre & e & post & -> & Hsub & Hpre)].
  - right. exists false, (of_entries l rest). split.
    { unfold RangeSet_remove_if_exist. rewrite in_use_of_entries.
      pose proof (remove_if_exist_skip (E:=E) r l [] [] rest Hr Hl Hnone) as Hskip.
      cbn [app length Nat.add] in Hskip. rewrite app_nil_r, Nat.add_0_r in Hskip. by rewrite Hskip. }
    split; [done|]. split; [done|]. split; [|done]. split; [done|].
    intros (x & Hx & Hs)%Exists_exists. rewrite Forall_forall in Hnone. by apply Hnone in Hx.
  - rewrite remove_if_exist_reach by done.
    assert (Exists (sub_range r) (pre ++ e :: post)) as Hex by (apply Exists_app; right; by left).
    assert (r = e ∨ start r < end_ r ∧ (start r = start e ∨ end_ r = end_ e) ∨ strictly_inside r e)
      as [Hc|[Hc|Hc]].
    { unfold sub_range, strictly_inside in *. destruct (decide (start r = start e)), (decide (end_ r = end_ e)); lia. }
    1,2: right; destruct (remove_at_edge (E:=E) r pre e post rest Hr Hl Hp Hsub) as (rs' & -> & Hok' & Hcov); [tauto|];
      exists true, rs'; split; [done|]; split; [done|]; split; [done|]; split; [done|]; intros _;
      split; [intros x; rewrite Hcov; tauto|intros x _; apply Hcov].
    rewrite remove_in_middle_step by done.
    destruct (remove_in_middle_ok r pre e post rest Hr Hl Hp Hc) as [Hok1 Hr'].
    destruct (insert_cases (E:=E) _ _ Hok1 Hr') as [[-> Hroom]|(rs' & -> & Hok' & _ & Hcov)].
    { left. split; [done|]. by rewrite room_of_entries in Hroom. }
    right. exists true, rs'. split; [done|]. split; [done|]. split; [done|]. split; [done|]. intros _.
    split; intros x; rewrite Hcov, entries_of_entries, remove_in_middle_covers by done; [tauto|].
    unfold elem_of, in_range_elem_of, in_range. intros Hx.
    assert (¬ (start r < x ≤ end_ r) ↔ ¬ (start r ≤ x ≤ end_ r)) as -> by lia. done.
Qed.

(** ** [sum] *)

Definition range_size (r : Range) : Z := end_ r - start r + 1.
Fixpoint total_size (l : list Range) : Z :=
  match l with
  | [] => 0
  | r :: l => range_size r + total_size l
  end.

(** Disjoint ranges of [0, M] have at most [M + 1] addresses together. *)
Lemma total_size_bound M l :
  0 ≤ M → Forall (λ r, 0 ≤ start r ∧ start r ≤ end_ r ∧ end_ r ≤ M) l →
  pairwise disjoint l → total_size l ≤ M + 1.
Proof.
  intros HM Hl Hp.
  set (addrs := l ≫= λ r, seqZ (start r) (range_size r)).
  assert (Z.of_nat (length addrs) = total_size l) as <-.
  { subst addrs. clear Hp. induction Hl as [|r l Hr Hl IH]; [done|].
    rewrite bind_cons, length_app, length_seqZ, Nat2Z.inj_add, IH.
    cbn. unfold range_size. lia. }
  assert (∀ x, x ∈ addrs → covers l x) as Hin.
  { intros x. subst addrs. rewrite list_elem_of_bind. intros (r & Hx & Hr).
    apply Exists_exists. exists r. split; [done|]. apply elem_of_seqZ in Hx.
    unfold range_size, in_range in *. lia. }
  assert (NoDup addrs) as Hnd.
  { subst addrs. clear Hin. induction l as [|r l IH]; [constructor|]. cbn.
    cbn in Hp. destruct Hp as [Hr Hp]. apply Forall_cons in Hl as [? Hl].
    apply NoDup_app. split_and!; [apply NoDup_seqZ| |by apply IH].
    intros x Hx. rewrite list_elem_of_bind. intros (r' & Hx' & Hr').
    rewrite Forall_forall in Hr. specialize (Hr r' Hr').
    apply elem_of_seqZ in Hx, Hx'. unfold range_size, disjoint in *. lia. }
  assert (addrs ⊆+ seqZ 0 (M + 1)) as Hs.
  { apply NoDup_submseteq; [done|]. intros x Hx%Hin.
    apply Exists_exists in Hx as (r & Hr & Hx). rewrite Forall_forall in Hl.
    specialize (Hl r Hr). apply elem_of_seqZ. unfold in_range in *. lia. }
  apply submseteq_length in Hs. rewrite length_seqZ in Hs. lia.
Qed.

Lemma sum_fold_spec {E} l : ∀ acc,
  0 ≤ acc → Forall range_ok l → Forall (λ r, range_size r ≤ u64_max) l →
  acc + total_size l ≤ u64_max →
  sum_fold (E:=E) acc l = Ok (Some (acc + total_size l)).
Proof.
  induction l as [|r l IH]; intros acc Hacc Hl Hs Hb; cbn in *.
  { do 2 f_equal. lia. }
  apply Forall_cons in Hl as [(?&?&?) Hl]. apply Forall_cons in Hs as [Hr Hs].
  assert (0 ≤ total_size l).
  { clear -Hl. induction Hl as [|r l (?&?&?) ? IH]; cbn; [done|].
    unfold range_size in *. lia. }
  unfold range_size in *.
  rewrite sub_u64_ok by lia. cbn. unfold checked_add.
  rewrite (proj2 (Z.leb_le _ _)) by lia. rewrite add_u64_ok by lia. cbn.
  rewrite IH; try done; try lia. do 2 f_equal. lia.
Qed.

(** ** The properties *)

(** C10: [insert] of a well-shaped range into a set of separated ranges with a
    free slot always returns (the merge loop terminates), the result has
    separated ranges again and covers exactly the old addresses and those of
    the range. *)
Theorem RangeSet_insert_union {E} (rs : RangeSet) (r : Range) :
  RangeSet_ok rs → RangeSet_separated rs → range_ok r → (0 < room rs)%nat →
  ∃ rs', RangeSet_insert (E:=E) rs r = Ok rs' ∧
    RangeSet_ok rs' ∧ RangeSet_separated rs' ∧
    length (ranges rs') = length (ranges rs) ∧
    ∀ x, covers (RangeSet_entries rs') x ↔ covers (RangeSet_entries rs) x ∨ x ∈ r.
Proof.
  intros Hok Hsep Hr Hroom.
  destruct (insert_core (E:=E) rs r) as (rs' & ? & ? & ? & ? & _ & ?); try done.
  by exists rs'.
Qed.

(** C20: [remove] of a range from a set of disjoint ranges, with one free slot
    for the case that an entry has to be split, always returns (the loop
    terminates), keeps the ranges disjoint and takes away exactly the
    addresses of the range. *)
Theorem RangeSet_remove_difference {E} (rs : RangeSet) (r : Range) :
  RangeSet_ok rs → range_ok r → (0 < room rs)%nat →
  ∃ rs', RangeSet_remove (E:=E) rs r = Ok rs' ∧ RangeSet_ok rs' ∧
    length (ranges rs') = length (ranges rs) ∧
    ∀ x, covers (RangeSet_entries rs') x ↔ covers (RangeSet_entries rs) x ∧ x ∉ r.
Proof.
  intros Hok Hr Hroom. pose proof (splits_le_1 r _ Hr (proj2 (proj2 Hok))).
  destruct (remove_core (E:=E) rs r) as (rs' & ? & ? & ? & _ & ?); [done..|lia|].
  by exists rs'.
Qed.

(** [subtract] is set difference: with a free slot per subtracted entry it
    returns a set of disjoint ranges that covers what [self] covered and the
    argument did not. *)
Theorem RangeSet_subtract_difference {E} (self rs : RangeSet) :
  RangeSet_ok self → RangeSet_ok rs → (length (RangeSet_entries rs) ≤ room self)%nat →
  ∃ self', RangeSet_subtract (E:=E) self rs = Ok self' ∧ RangeSet_ok self' ∧
    ∀ x, covers (RangeSet_entries self') x ↔
      covers (RangeSet_entries self) x ∧ ¬ covers (RangeSet_entries rs) x.
Proof. intros Hs (_ & Hok & _) Hroom. by apply remove_all_core. Qed.

(** What an allocation does to the set: the block was covered, and is not any more. *)
Definition allocated_from (rs rs' : RangeSet) (size align : Z) (req : RegionRequest) (ptr : Z) : Prop :=
  ptr mod align = 0 ∧
  (∀ x, ptr ≤ x < ptr + size → covers (RangeSet_entries rs) x ∧ ¬ covers (RangeSet_entries rs') x) ∧
  (∀ x, covers (RangeSet_entries rs') x → covers (RangeSet_entries rs) x) ∧
  match req with
  | Forced r =>
      (∃ region, region ∈ RangeSet_entries r ∧ start region ≤ ptr ∧ ptr + size - 1 ≤ end_ region) ∧
      (∀ x, covers (RangeSet_entries rs) x → covers (RangeSet_entries rs') x ∨ ptr ≤ x < ptr + size)
  | _ => True
  end.

(** [allocate_prefer] on any set: without a free slot it may panic. *)
Lemma allocate_cases {E} rs size align req :
  RangeSet_ok rs → is_u64 size → is_u64 align →
  match req with Any => True | Preference r | Forced r => RangeSet_ok r end →
  (RangeSet_allocate_prefer (E:=E) rs size align req = Panic ∧ room rs = 0%nat) ∨
  ∃ o rs', RangeSet_allocate_prefer (E:=E) rs size align req = Ok (o, rs') ∧
    RangeSet_ok rs' ∧ length (ranges rs') = length (ranges rs) ∧
    match o with None => rs' = rs | Some ptr => allocated_from rs rs' size align req ptr end.
Proof.
  intros Hok [Hs1 Hs2] [Ha1 Ha2] Hreq. unfold RangeSet_allocate_prefer.
  destruct (Z.eqb_spec size 0); [right; by exists None, rs|].
  destruct (Z.eqb_spec (count_ones align) 1) as [Hco|]; [|right; by exists None, rs].
  apply count_ones_pow2 in Hco as (k & Hk & ->). cbn [negb].
  set (rf := match req with Any => (None, false)
    | Preference r => (Some (RangeSet_entries r), false)
    | Forced r => (Some (RangeSet_entries r), true) end).
  destruct rf as [regions force] eqn:Hrf. subst rf.
  destruct (allocation_search_spec (E:=E) (RangeSet_entries rs) regions force size k
    (proj1 (proj2 Hok))) with (ents := RangeSet_entries rs) (a := @None candidate)
    as (res & -> & Hres); try done; [|lia|].
  { destruct req; simplify_eq; cbn; [done|apply Hreq..]. }
  cbn. destruct res as [[[[base end'] ptr]|]|]; [|right; by exists None, rs..].
  destruct (Hres _ eq_refl) as (-> & Hmod & (ent & Hent & Hb1 & Hb2 & Hb3) & Hforce).
  pose proof Hok as (_ & Hl & _). rewrite Forall_forall in Hl. destruct (Hl ent Hent) as (?&?&?).
  destruct (remove_cases (E:=E) rs (mkRange base (ptr + (size - 1))))
    as [[-> Hroom]|(rs' & -> & Hok' & Hlen & Hc)]; [done|unfold range_ok; cbn; lia|by left|].
  right. exists (Some ptr), rs'. split; [done|]. split; [done|]. split; [done|].
  unfold allocated_from. split_and!; try done.
  - intros x Hx. rewrite Hc. split.
    + apply Exists_exists. exists ent. split; [done|]. unfold in_range. lia.
    + intros [_ Hnin]. apply Hnin. unfold elem_of, in_range_elem_of, in_range; cbn. lia.
  - intros x. rewrite Hc. tauto.
  - destruct req as [| |r]; try done. simplify_eq. destruct (Hforce eq_refl) as [-> (g&?&?&?)]. split.
    + exists g. cbn in *. split_and!; [done|lia|lia].
    + intros x Hx. rewrite Hc. unfold elem_of, in_range_elem_of, in_range. cbn.
      destruct (decide (ptr ≤ x < ptr + size)); [by right|left]. split; [done|lia].
Qed.

(** [allocate_prefer] never panics on a set with a free slot. When it
    returns an address, the address is a multiple of [align], the whole block
    of [size] addresses was covered before and is not covered afterwards,
    nothing else was added, and with [Forced] the block lies inside one of the
    requested regions. When it returns [None] the set is unchanged. *)
Theorem RangeSet_allocate_prefer_sound {E} (rs : RangeSet) (size align : Z)
    (req : RegionRequest) :
  RangeSet_ok rs → (0 < room rs)%nat → is_u64 size → is_u64 align →
  match req with Any => True | Preference r | Forced r => RangeSet_ok r end →
  ∃ o rs', RangeSet_allocate_prefer (E:=E) rs size align req = Ok (o, rs') ∧
    RangeSet_ok rs' ∧
    match o with
    | None => rs' = rs
    | Some ptr =>
        ptr mod align = 0 ∧
        (∀ x, ptr ≤ x < ptr + size →
           covers (RangeSet_entries rs) x ∧ ¬ covers (RangeSet_entries rs') x) ∧
        (∀ x, covers (RangeSet_entries rs') x → covers (RangeSet_entries rs) x) ∧
        match req with
        | Forced r => ∃ region, region ∈ RangeSet_entries r ∧
            start region ≤ ptr ∧ ptr + size - 1 ≤ end_ region
        | _ => True
        end
    end.
Proof.
  intros Hok Hroom Hs Ha Hreq.
  destruct (allocate_cases (E:=E) rs size align req) as [[_ ?]|(o & rs' & Heq & Hok' & _ & Ho)];
    [done..|lia|]. exists o, rs'. split; [done|]. split; [done|]. destruct o as [ptr|]; [|done].
  destruct Ho as (? & ? & ? & Hf). split_and!; try done. by destruct req as [| |r]; [..|destruct Hf].
Qed.

(** [allocate] finds memory whenever there is some: if an entry holds an
    aligned block of the requested size and no entry is so close to the end
    of the address space that the size computation overflows, the result is
    an address. *)
Theorem RangeSet_allocate_complete {E} (rs : RangeSet) (size align p : Z) (ent : Range) :
  RangeSet_ok rs → (0 < room rs)%nat → 1 ≤ size → count_ones align = 1 →
  Forall (λ e, start e + size + align ≤ u64_max) (RangeSet_entries rs) →
  ent ∈ RangeSet_entries rs → p mod align = 0 → start ent ≤ p → p + size - 1 ≤ end_ ent →
  ∃ ptr rs', RangeSet_allocate (E:=E) rs size align = Ok (Some ptr, rs').
Proof.
  intros Hok Hroom Hs Hco Hfit Hent Hp1 Hp2 Hp3.
  unfold RangeSet_allocate, RangeSet_allocate_prefer.
  rewrite (proj2 (Z.eqb_neq _ _)) by lia. rewrite Hco. cbn [Z.eqb negb].
  apply count_ones_pow2 in Hco as (k & Hk & ->).
  destruct Hok as (Hn & Hl & Hpw).
  destruct (allocation_search_total (E:=E) (RangeSet_entries rs) size k) with
    (ents := RangeSet_entries rs) (a := @None candidate)
    as (c & Hc & Hcok); try done.
  { right. by exists ent, p. }
  rewrite Hc. destruct c as [[base end'] ptr]. cbn.
  destruct Hcok as (-> & Hmod & (e & He & Hb1 & Hb2 & Hb3) & _).
  pose proof Hl as Hl'. rewrite Forall_forall in Hl'. destruct (Hl' e He) as (?&?&?).
  destruct (remove_core (E:=E) rs (mkRange base (ptr + (size - 1))))
    as (rs' & -> & _); [done|unfold range_ok; cbn; lia| |by eexists _, _].
  pose proof (splits_le_1 (mkRange base (ptr + (size - 1))) (RangeSet_entries rs)) as Hsp.
  unfold range_ok in Hsp; cbn in Hsp. specialize (Hsp ltac:(lia) Hpw). lia.
Qed.

(** [remove_if_exist] on a range that no entry contains returns [false] and
    leaves the set alone; on a range that is an entry, or that is a proper
    part of one with more than one address and one end in common, it returns
    [true] and removes exactly the range. *)
Theorem RangeSet_remove_if_exist_edges {E} (rs : RangeSet) (r : Range) :
  RangeSet_ok rs → range_ok r →
  Forall (λ e, sub_range r e → r = e ∨
    (start r < end_ r ∧ (start r = start e ∨ end_ r = end_ e))) (RangeSet_entries rs) →
  ∃ b rs', RangeSet_remove_if_exist (E:=E) rs r = Ok (b, rs') ∧ RangeSet_ok rs' ∧
    (b = true ↔ Exists (sub_range r) (RangeSet_entries rs)) ∧
    (b = false → rs' = rs) ∧
    (b = true → ∀ x, covers (RangeSet_entries rs') x ↔
       covers (RangeSet_entries rs) x ∧ x ∉ r).
Proof.
  intros Hok Hr Hedge.
  destruct (of_entries_canon rs (proj1 Hok)) as [rest Hrs].
  set (l := RangeSet_entries rs) in *. clearbody l. subst rs.
  apply RangeSet_ok_of_entries in Hok as [Hl Hp].
  destruct (first_container r l) as [Hnone|(pre & e & post & -> & Hsub & Hpre)].
  - exists false, (of_entries l rest). split_and!; try done.
    + pose proof (remove_if_exist_skip (E:=E) r l [] [] rest Hr Hl Hnone) as H.
      rewrite app_nil_l, app_nil_r, Nat.add_0_r in H.
      unfold RangeSet_remove_if_exist. rewrite in_use_of_entries. exact H.
    + by apply RangeSet_ok_of_entries.
    + split; [done|]. intros (e & He & Hse)%Exists_exists.
      rewrite Forall_forall in Hnone. by destruct (Hnone e He).
  - exists true. rewrite remove_if_exist_reach by done.
    assert (range_ok e) as He by by apply Forall_app in Hl as [_ [? _]%Forall_cons].
    destruct (remove_at_edge (E:=E) r pre e post rest) as (rs' & -> & Hok' & Hc'); try done.
    { by apply Forall_app in Hedge as [_ [Hedge _]%Forall_cons]; apply Hedge. }
    exists rs'. split_and!; try done.
    split; [|done]. intros _. rewrite Exists_app, Exists_cons. tauto.
Qed.

(** A range strictly inside an entry loses all of its addresses but the
    first: [remove_if_exist] reports success while [range.start] stays in the
    set (for a range of one address the set does not change at all). *)
Theorem RangeSet_remove_if_exist_middle {E} (rs : RangeSet) (r e : Range) :
  RangeSet_ok rs → RangeSet_separated rs → range_ok r → (0 < room rs)%nat →
  e ∈ RangeSet_entries rs → strictly_inside r e →
  ∃ rs', RangeSet_remove_if_exist (E:=E) rs r = Ok (true, rs') ∧
    ∀ x, covers (RangeSet_entries rs') x ↔
      covers (RangeSet_entries rs) x ∧ ¬ (start r < x ≤ end_ r).
Proof.
  intros Hok Hsep Hr Hroom Hin Hst.
  destruct (of_entries_canon rs (proj1 Hok)) as [rest Hrs].
  unfold RangeSet_separated in Hsep.
  set (l := RangeSet_entries rs) in *. clearbody l. subst rs.
  apply RangeSet_ok_of_entries in Hok as [Hl Hp].
  destruct (first_container r l) as [Hnone|(pre & e' & post & -> & Hsub & Hpre)].
  { rewrite Forall_forall in Hnone. exfalso. apply (Hnone e Hin).
    unfold sub_range, strictly_inside in *. lia. }
  assert (e' = e) as ->.
  { assert (start r ∈ e ∧ start r ∈ e') as [H1 H2].
    { unfold elem_of, in_range_elem_of, in_range, sub_range, strictly_inside, range_ok in *. lia. }
    pose proof (covers_others pre e' post (start r) Hp H2) as Hno.
    apply elem_of_app in Hin. destruct Hin as [Hin|[?|Hin]%elem_of_cons]; [|done|];
      exfalso; apply Hno, Exists_exists; exists e; (split; [set_solver|done]). }
  rewrite remove_if_exist_reach by done. by apply remove_in_middle.
Qed.

(** [sum] of a set of disjoint ranges, none of which is the whole address
    space and which leave at least one address out, is the number of covered
    addresses; it neither overflows nor returns [None]. *)
Theorem RangeSet_sum_total {E} (rs : RangeSet) (x : Z) :
  RangeSet_ok rs → is_u64 x → ¬ covers (RangeSet_entries rs) x →
  RangeSet_sum (E:=E) rs = Ok (Some (total_size (RangeSet_entries rs))).
Proof.
  intros (_ & Hl & Hp) [Hx1 Hx2] Hx. unfold RangeSet_sum.
  set (l := RangeSet_entries rs) in *. clearbody l.
  assert (total_size (mkRange x x :: l) ≤ u64_max + 1) as Hb.
  { apply total_size_bound; [unfold u64_max; lia| |].
    - constructor; [cbn; lia|]. done.
    - cbn. split; [|done]. apply Forall_forall. intros r Hr. unfold disjoint; cbn.
      destruct (decide (r.(end_) < x)), (decide (x < start r)); try lia.
      exfalso. apply Hx, Exists_exists. exists r. split; [done|]. unfold in_range. lia. }
  cbn in Hb. unfold range_size in Hb; cbn in Hb.
  apply (sum_fold_spec l 0); try done; [|lia].
  apply Forall_forall. intros r Hr. apply list_elem_of_split in Hr as (l1 & l2 & ->).
  assert (∀ l, Forall range_ok l → 0 ≤ total_size l) as Hpos.
  { induction 1 as [|r' l' (?&?&?) ? IH]; cbn; [done|]. unfold range_size. lia. }
  apply Forall_app in Hl as [Hl1 [? Hl2]%Forall_cons].
  specialize (Hpos l1 Hl1) as Hp1. specialize (Hpos l2 Hl2) as Hp2.
  assert (∀ l1 l2, total_size (l1 ++ l2) = total_size l1 + total_size l2) as Happ.
  { induction l0 as [|? ? IH]; intros; cbn; [done|]. rewrite IH. lia. }
  rewrite Happ in Hb. cbn in Hb. lia.
Qed.

(** ** The theorems at work on a small set

    Two entries, 10 to 19 and 30 to 39, in an array of four. *)
Definition demo_set : RangeSet :=
  of_entries [mkRange 10 19; mkRange 30 39] [mkRange 0 0; mkRange 0 0].

(** Decides the side conditions of the theorems on concrete sets. *)
Ltac by_evaluation :=
  unfold RangeSet_ok, RangeSet_separated, RangeSet_entries, demo_set, of_entries,
    room, range_ok, disjoint, separated, is_u64, strictly_inside, sub_range, u64_max;
  cbn; repeat first [split | apply Forall_cons | apply Forall_nil]; cbn; try done; try lia.

Lemma RangeSet_insert_union_witness :
  ∃ rs', RangeSet_insert (E:=unit) demo_set (mkRange 15 29) = Ok rs' ∧
    ∀ x, covers (RangeSet_entries rs') x ↔
      covers (RangeSet_entries demo_set) x ∨ x ∈ mkRange 15 29.
Proof.
  destruct (RangeSet_insert_union (E:=unit) demo_set (mkRange 15 29))
    as (rs' & ? & _ & _ & _ & ?); [by_evaluation..|]. by exists rs'.
Defined.

Lemma RangeSet_remove_difference_witness :
  ∃ rs', RangeSet_remove (E:=unit) demo_set (mkRange 12 33) = Ok rs' ∧
    ∀ x, covers (RangeSet_entries rs') x ↔
      covers (RangeSet_entries demo_set) x ∧ x ∉ mkRange 12 33.
Proof.
  destruct (RangeSet_remove_difference (E:=unit) demo_set (mkRange 12 33))
    as (rs' & ? & _ & _ & ?); [by_evaluation..|]. by exists rs'.
Defined.

Lemma RangeSet_subtract_difference_witness :
  ∃ rs', RangeSet_subtract (E:=unit) demo_set demo_set = Ok rs' ∧
    ∀ x, ¬ covers (RangeSet_entries rs') x.
Proof.
  destruct (RangeSet_subtract_difference (E:=unit) demo_set demo_set)
    as (rs' & ? & _ & H); [by_evaluation..|]. exists rs'. split; [done|].
  intros x Hx. apply H in Hx as [? []]. done.
Defined.

Lemma RangeSet_allocate_prefer_sound_witness :
  ∃ o rs', RangeSet_allocate_prefer (E:=unit) demo_set 4 8
    (Forced (of_entries [mkRange 25 45] [])) = Ok (o, rs') ∧ RangeSet_ok rs'.
Proof.
  destruct (RangeSet_allocate_prefer_sound (E:=unit) demo_set 4 8
    (Forced (of_entries [mkRange 25 45] []))) as (o & rs' & ? & ? & _); [by_evaluation..|].
  by exists o, rs'.
Defined.

Lemma RangeSet_allocate_complete_witness :
  ∃ ptr rs', RangeSet_allocate (E:=unit) demo_set 4 8 = Ok (Some ptr, rs').
Proof.
  apply (RangeSet_allocate_complete demo_set 4 8 32 (mkRange 30 39)); try by_evaluation.
  right. left.
Defined.

Lemma RangeSet_remove_if_exist_edges_witness :
  ∃ b rs', RangeSet_remove_if_exist (E:=unit) demo_set (mkRange 30 33) = Ok (b, rs') ∧
    RangeSet_ok rs' ∧ b = true.
Proof.
  destruct (RangeSet_remove_if_exist_edges (E:=unit) demo_set (mkRange 30 33))
    as (b & rs' & ? & ? & Hb & _); [by_evaluation..|].
  exists b, rs'. split; [done|]. split; [done|]. apply Hb. right. left. by_evaluation.
Defined.

Lemma RangeSet_remove_if_exist_middle_witness :
  ∃ rs', RangeSet_remove_if_exist (E:=unit) demo_set (mkRange 33 33) = Ok (true, rs') ∧
    covers (RangeSet_entries rs') 33.
Proof.
  destruct (RangeSet_remove_if_exist_middle (E:=unit) demo_set (mkRange 33 33) (mkRange 30 39))
    as (rs' & ? & H); [by_evaluation..|right; left|by_evaluation|].
  exists rs'. split; [done|]. apply H. split; [|cbn; lia].
  right. left. unfold in_range. cbn. lia.
Defined.

Lemma RangeSet_sum_total_witness : RangeSet_sum (E:=unit) demo_set = Ok (Some 20).
Proof.
  rewrite (RangeSet_sum_total demo_set 20); [done|by_evaluation..|].
  intros H. apply Exists_cons in H as [H|H]; [unfold in_range in H; cbn in H; lia|].
  apply Exists_cons in H as [H|H]; [unfold in_range in H; cbn in H; lia|]. by apply Exists_nil in H.
Defined.
