(* ===== verification/BlockDevice.v ===== *)
(** * [libs/block-device]: block addresses, block groups and the device interface

    [LBA] is a [u64] other than [u64::MAX], a [BlockGroup] a first block and a
    positive count. The arithmetic of [structs.rs] is kept with its panics.
    [BlockDevice] is the trait the file system is written against: a class with
    the operations, and a class [BlockDeviceLaws] with what an implementation
    promises. [MemDevice] is an implementation of it. *)

From S2P Require Import Prelude.
Local Open Scope Z_scope.

(** ** [LBA] *)

Definition LBA : Type := Z.

Definition LBA_ok (lba : LBA) : Prop := 0 ≤ lba < u64_max.

Definition LBA_new (addr : Z) : option LBA := if addr =? u64_max then None else Some addr.

Definition LBA_new_unchecked {E} (addr : Z) : result E LBA :=
  _ ← assert_ (negb (addr =? u64_max)); mret addr.

Definition LBA_from_byte_offset (BLOCK_SIZE offset : Z) : option LBA :=
  LBA_new (offset / BLOCK_SIZE).

Definition LBA_to_byte_offset {E} (BLOCK_SIZE : Z) (self : LBA) : result E Z :=
  mul_u64 self BLOCK_SIZE.

Definition LBA_MAX : LBA := u64_max - 1.

(** [impl Add<u64> for LBA] *)
Definition LBA_add {E} (self : LBA) (rhs : Z) : result E LBA :=
  s ← add_u64 self rhs;
  _ ← assert_ (negb (s =? u64_max));
  LBA_new_unchecked s.

(** [impl Sub<LBA> for LBA] *)
Definition LBA_sub {E} (self rhs : LBA) : result E Z :=
  _ ← assert_ (self >=? rhs);
  sub_u64 self rhs.

(** [impl Sub<u64> for LBA] *)
Definition LBA_sub_u64 {E} (self : LBA) (rhs : Z) : result E LBA :=
  d ← sub_u64 self rhs;
  LBA_new_unchecked d.

(** ** [BlockGroup] *)

Record BlockGroup := mkBlockGroup { bg_start : LBA; bg_count : Z }.

#[export] Instance BlockGroup_eq_dec : EqDecision BlockGroup.
Proof. solve_decision. Defined.

(** [NonZeroU64::new(n).expect(..)] *)
Definition NonZero {E} (n : Z) : result E Z := if n =? 0 then Panic else Ok n.

Definition BlockGroup_new {E} (start end_ : LBA) : result E BlockGroup :=
  e ← add_u64 end_ 1;
  d ← sub_u64 e start;
  count ← NonZero d;
  mret (mkBlockGroup start count).

Definition BlockGroup_with_count (start : LBA) (count : Z) : BlockGroup :=
  mkBlockGroup start count.

Definition BlockGroup_single (block : LBA) : BlockGroup := mkBlockGroup block 1.

Definition BlockGroup_end {E} (self : BlockGroup) : result E LBA :=
  past ← LBA_add (bg_start self) (bg_count self);
  LBA_sub_u64 past 1.

Definition BlockGroup_count (self : BlockGroup) : Z := bg_count self.

Definition BlockGroup_bytes {E} (self : BlockGroup) (block_size : Z) : result E Z :=
  mul_u64 (BlockGroup_count self) block_size.

(** [&&] evaluates [end()] only when the first test holds. *)
Definition BlockGroup_contains {E} (self : BlockGroup) (lba : LBA) : result E bool :=
  if bg_start self <=? lba
  then e ← BlockGroup_end self; mret (lba <=? e)
  else mret false.

Definition BlockGroup_subgroup {E} (self : BlockGroup) (block_offset : Z)
    : result E (option BlockGroup) :=
  if BlockGroup_count self >? block_offset then
    s ← LBA_add (bg_start self) block_offset;
    e ← BlockGroup_end self;
    g ← BlockGroup_new s e;
    mret (Some g)
  else mret None.

Definition BlockGroup_remove_end {E} (self : BlockGroup) (blocks_to_remove : Z)
    : result E (option BlockGroup) :=
  if BlockGroup_count self >? blocks_to_remove then
    e ← BlockGroup_end self;
    e ← LBA_sub_u64 e blocks_to_remove;
    g ← BlockGroup_new (bg_start self) e;
    mret (Some g)
  else mret None.

Definition BlockGroup_with_new_length {E} (self : BlockGroup) (new_length : Z)
    : result E (option BlockGroup) :=
  n ← sub_u64 (BlockGroup_count self) new_length;
  BlockGroup_remove_end self n.

(** [LBA]s of a group and of a list of groups, the vocabulary of the theorems *)
Definition in_group (x : LBA) (g : BlockGroup) : Prop :=
  bg_start g ≤ x < bg_start g + bg_count g.

Definition in_groups (x : LBA) (l : list BlockGroup) : Prop := Exists (in_group x) l.

(** A group whose address computations do not overflow: its past-the-end
    address is an LBA as well. *)
Definition group_ok (g : BlockGroup) : Prop :=
  0 ≤ bg_start g ∧ 1 ≤ bg_count g ∧ bg_start g + bg_count g < u64_max.

(** ** The device

    [B] stands for the contents of one block. [Block::new(t).block_data()] and
    the cast in [read_pointer] turn a value into a block and back; a type whose
    values survive that is an instance of [BlockConstructable]. *)
Class BlockConstructable (B T : Type) := {
  block_data : T → B;
  from_block : B → T;
  from_block_data t : from_block (block_data t) = t;
}.

Class BlockDevice (D B DE : Type) := {
  size : D → Z;
  read_block : D → LBA → result DE B;
  write_block : LBA → B → M D DE unit;
  write_block_atomic : LBA → B → M D DE unit;
  (** [compare_exchange_block]: [true] when the block was exchanged, [false] for
      [CompareExchangeError::OutdatedData] *)
  compare_exchange_block : LBA → B → B → M D DE bool;
}.

(** What an implementation promises about a successful access; no access changes
    the size *)
Class BlockDeviceLaws (D B DE : Type) `{!BlockDevice D B DE} := {
  write_block_read d d' lba b :
    write_block lba b d = (Ok tt, d') →
    read_block d' lba = Ok b ∧ ∀ lba', lba' ≠ lba → read_block d' lba' = read_block d lba';
  write_block_atomic_read d d' lba b :
    write_block_atomic lba b d = (Ok tt, d') →
    read_block d' lba = Ok b ∧ ∀ lba', lba' ≠ lba → read_block d' lba' = read_block d lba';
  compare_exchange_true d d' lba b b' :
    compare_exchange_block lba b b' d = (Ok true, d') →
    read_block d lba = Ok b ∧ read_block d' lba = Ok b' ∧
    ∀ lba', lba' ≠ lba → read_block d' lba' = read_block d lba';
  compare_exchange_false d d' lba b b' :
    compare_exchange_block lba b b' d = (Ok false, d') →
    ∀ lba', read_block d' lba' = read_block d lba';
  write_block_size d lba b : size (write_block lba b d).2 = size d;
  write_block_atomic_size d lba b : size (write_block_atomic lba b d).2 = size d;
  compare_exchange_size d lba b b' : size (compare_exchange_block lba b b' d).2 = size d;
}.

(** [BlockDevice::last_lba] *)
Definition last_lba {D B DE E} `{BlockDevice D B DE} (d : D) : result E LBA :=
  n ← sub_u64 (size d) 1;
  expect (LBA_new n).

(** [BlockDevice::read_pointer]; the size test holds for every type of the file
    system by a [const_assert] *)
Definition read_pointer {D B DE} `{BlockDevice D B DE} T `{BlockConstructable B T}
    (d : D) (ptr : LBA) : result DE T :=
  b ← read_block d ptr;
  mret (from_block b).

(** ** A device in memory

    [blocks] maps the addresses below [dev_size] to their contents; an access
    past the end is an error. *)
Record MemDevice (B : Type) := mkMemDevice { dev_size : Z; blocks : gmap Z B; blank : B }.
Arguments mkMemDevice {B}.
Arguments dev_size {B}.
Arguments blocks {B}.
Arguments blank {B}.

Section mem_device.
Context {B : Type} `{EqDecision B}.

Definition mem_read (d : MemDevice B) (lba : LBA) : result unit B :=
  if (0 <=? lba) && (lba <? dev_size d)
  then Ok (default (blank d) (blocks d !! lba)) else Err tt.

Definition mem_write (lba : LBA) (b : B) : M (MemDevice B) unit unit := λ d,
  if (0 <=? lba) && (lba <? dev_size d)
  then (Ok tt, mkMemDevice (dev_size d) (<[lba:=b]> (blocks d)) (blank d))
  else (Err tt, d).

Definition mem_compare_exchange (lba : LBA) (current new : B)
    : M (MemDevice B) unit bool := λ d,
  match mem_read d lba with
  | Ok b => if bool_decide (b = current)
            then let '(r, d) := mem_write lba new d in ((_ ← r; mret true), d)
            else (Ok false, d)
  | _ => (Err tt, d)
  end.

#[export] Instance MemDevice_BlockDevice : BlockDevice (MemDevice B) B unit := {
  size := dev_size;
  read_block := mem_read;
  write_block := mem_write;
  write_block_atomic := mem_write;
  compare_exchange_block := mem_compare_exchange;
}.

Lemma mem_write_read d d' lba b :
  mem_write lba b d = (Ok tt, d') →
  mem_read d' lba = Ok b ∧ ∀ lba', lba' ≠ lba → mem_read d' lba' = mem_read d lba'.
Proof.
  unfold mem_write. intros H. destruct (_ && _) eqn:Hb; [|done]. simplify_eq.
  split.
  - unfold mem_read. cbn. by rewrite Hb, lookup_insert_eq.
  - intros lba' Hne. unfold mem_read. cbn. by rewrite lookup_insert_ne.
Qed.

Lemma mem_write_size d lba b : dev_size (mem_write lba b d).2 = dev_size d.
Proof. unfold mem_write. by destruct (_ && _). Qed.

Lemma mem_compare_exchange_true d d' lba b b' :
  mem_compare_exchange lba b b' d = (Ok true, d') →
  mem_read d lba = Ok b ∧ mem_write lba b' d = (Ok tt, d').
Proof.
  unfold mem_compare_exchange.
  destruct (mem_read d lba) as [c|?| |]; try done. case_bool_decide; [|done]. subst.
  destruct (mem_write lba b' d) as [[[]|?| |] d'']; cbn; intros ?; simplify_eq; done.
Qed.

Lemma mem_compare_exchange_false d d' lba b b' :
  mem_compare_exchange lba b b' d = (Ok false, d') → d' = d.
Proof.
  unfold mem_compare_exchange.
  destruct (mem_read d lba) as [c|?| |]; try done. case_bool_decide; [|naive_solver].
  destruct (mem_write lba b' d) as [[[]|?| |] d'']; cbn; intros ?; simplify_eq.
Qed.

#[export] Instance MemDevice_laws : BlockDeviceLaws (MemDevice B) B unit.
Proof.
  split.
  - apply mem_write_read.
  - apply mem_write_read.
  - intros d d' lba b b' [? H]%mem_compare_exchange_true.
    split; [done|]. by apply mem_write_read.
  - by intros d d' lba b b' ->%mem_compare_exchange_false.
  - apply mem_write_size.
  - apply mem_write_size.
  - intros d lba b b'. cbn. unfold mem_compare_exchange. destruct (mem_read d lba); try done.
    case_bool_decide; [|done]. pose proof (mem_write_size d lba b').
    by destruct (mem_write lba b' d).
Qed.
End mem_device.

(** ** Block groups *)

Create Rewrite HintDb blocks.

Lemma LBA_add_ok {E} a n : a + n < u64_max → LBA_add (E:=E) a n = Ok (a + n).
Proof.
  intros H. unfold LBA_add, LBA_new_unchecked. rewrite add_u64_ok by lia. cbn.
  by rewrite (proj2 (Z.eqb_neq _ _)) by lia.
Qed.

Lemma LBA_sub_ok {E} a b : b ≤ a → LBA_sub (E:=E) a b = Ok (a - b).
Proof.
  intros H. unfold LBA_sub. rewrite (proj2 (Z.geb_le _ _)) by lia. cbn. by apply sub_u64_ok.
Qed.

Lemma LBA_sub_u64_ok {E} a n : 0 ≤ n ≤ a → a < u64_max → LBA_sub_u64 (E:=E) a n = Ok (a - n).
Proof.
  intros H ?. unfold LBA_sub_u64, LBA_new_unchecked. rewrite sub_u64_ok by lia. cbn.
  by rewrite (proj2 (Z.eqb_neq _ _)) by lia.
Qed.

Lemma NonZero_ok {E} n : n ≠ 0 → NonZero (E:=E) n = Ok n.
Proof. intros. unfold NonZero. by rewrite (proj2 (Z.eqb_neq _ _)) by lia. Qed.

Lemma BlockGroup_new_ok {E} s e :
  s ≤ e → e < u64_max → BlockGroup_new (E:=E) s e = Ok (mkBlockGroup s (e + 1 - s)).
Proof.
  intros ??. unfold BlockGroup_new. rewrite add_u64_ok by lia. cbn.
  rewrite sub_u64_ok by lia. cbn. by rewrite NonZero_ok by lia.
Qed.

Lemma BlockGroup_end_ok {E} g :
  group_ok g → BlockGroup_end (E:=E) g = Ok (bg_start g + bg_count g - 1).
Proof.
  intros (?&?&?). unfold BlockGroup_end. rewrite LBA_add_ok by lia. cbn.
  by rewrite LBA_sub_u64_ok by lia.
Qed.

#[export] Instance in_group_dec x g : Decision (in_group x g).
Proof. unfold in_group. apply _. Defined.

#[export] Instance in_groups_dec x l : Decision (in_groups x l).
Proof. unfold in_groups. apply _. Defined.

Lemma BlockGroup_contains_ok {E} g x :
  group_ok g → BlockGroup_contains (E:=E) g x = Ok (bool_decide (in_group x g)).
Proof.
  intros Hg. pose proof Hg as (?&?&?). unfold BlockGroup_contains, in_group.
  destruct (Z.leb_spec (bg_start g) x).
  - rewrite BlockGroup_end_ok by done. cbn. f_equal.
    destruct (Z.leb_spec x (bg_start g + bg_count g - 1)), (bool_decide_reflect
      (bg_start g ≤ x < bg_start g + bg_count g)); try done; lia.
  - by rewrite bool_decide_false by lia.
Qed.

Lemma subgroup_ok {E} g n :
  group_ok g → 0 ≤ n →
  BlockGroup_subgroup (E:=E) g n =
    Ok (if decide (n < bg_count g)
        then Some (mkBlockGroup (bg_start g + n) (bg_count g - n)) else None).
Proof.
  intros Hg Hn. pose proof Hg as (?&?&?). unfold BlockGroup_subgroup, BlockGroup_count.
  rewrite Z.gtb_ltb. destruct (Z.ltb_spec n (bg_count g)), (decide (n < bg_count g)); try lia; [|done].
  rewrite LBA_add_ok by lia. cbn. rewrite BlockGroup_end_ok by done. cbn.
  rewrite BlockGroup_new_ok by lia. cbn. do 3 f_equal. lia.
Qed.

Lemma with_new_length_ok {E} g n :
  group_ok g → 0 ≤ n ≤ bg_count g →
  BlockGroup_with_new_length (E:=E) g n =
    Ok (if decide (n = 0) then None else Some (mkBlockGroup (bg_start g) n)).
Proof.
  intros Hg Hn. pose proof Hg as (?&?&?).
  unfold BlockGroup_with_new_length, BlockGroup_remove_end, BlockGroup_count.
  rewrite sub_u64_ok by lia. cbn. rewrite Z.gtb_ltb.
  destruct (Z.ltb_spec (bg_count g - n) (bg_count g)), (decide (n = 0)); try lia; [|done].
  rewrite BlockGroup_end_ok by done. cbn. rewrite LBA_sub_u64_ok by lia. cbn.
  rewrite BlockGroup_new_ok by lia. cbn. do 3 f_equal. lia.
Qed.

(** [with_new_length(n)] and [subgroup(n)] cut a group into its first [n]
    blocks and the rest: neither call panics, [None] stands for an empty part,
    and every block of the group is in exactly one of the two parts. *)
Theorem BlockGroup_split_partition {E} (g : BlockGroup) (n : Z) :
  group_ok g → 0 ≤ n ≤ bg_count g →
  ∃ first rest,
    BlockGroup_with_new_length (E:=E) g n = Ok first ∧
    BlockGroup_subgroup (E:=E) g n = Ok rest ∧
    (first = None ↔ n = 0) ∧ (rest = None ↔ n = bg_count g) ∧
    Forall group_ok (option_list first ++ option_list rest) ∧
    (∀ x, in_group x g ↔ in_groups x (option_list first ++ option_list rest)) ∧
    ∀ f r x, first = Some f → rest = Some r → in_group x f → ¬ in_group x r.
Proof.
  intros Hg Hn. pose proof Hg as (?&?&?).
  rewrite with_new_length_ok, subgroup_ok by (done || lia).
  eexists _, _. split; [done|]. split; [done|].
  split; [destruct (decide (n = 0)); naive_solver lia|].
  split; [destruct (decide (n < bg_count g)); naive_solver lia|].
  split.
  { destruct (decide (n = 0)), (decide (n < bg_count g)); cbn;
      repeat constructor; cbn; lia. }
  split.
  - intros x. unfold in_groups.
    destruct (decide (n = 0)), (decide (n < bg_count g)); cbn;
      rewrite ?Exists_cons, ?Exists_nil; unfold in_group; cbn; intuition lia.
  - intros f r x Hf Hr.
    destruct (decide (n = 0)), (decide (n < bg_count g)); simplify_eq.
    unfold in_group; cbn. lia.
Qed.

Lemma BlockGroup_split_partition_witness :
  ∃ first rest,
    BlockGroup_with_new_length (E:=unit) (mkBlockGroup 10 5) 2 = Ok first ∧
    BlockGroup_subgroup (E:=unit) (mkBlockGroup 10 5) 2 = Ok rest ∧
    first = Some (mkBlockGroup 10 2) ∧ rest = Some (mkBlockGroup 12 3).
Proof.
  destruct (BlockGroup_split_partition (E:=unit) (mkBlockGroup 10 5) 2)
    as (f & r & Hf & Hr & _); [unfold group_ok, u64_max; cbn; lia..|].
  exists f, r. split; [done|]. split; [done|]. cbv in Hf, Hr. simplify_eq. done.
Defined.

(** [counts_required_for!] rounds up. *)
Lemma counts_required_for_ceil e n :
  0 < e → 0 ≤ n →
  n ≤ counts_required_for e n * e < n + e.
Proof.
  intros He Hn. unfold counts_required_for.
  pose proof (Z.div_mod n e) as Hd. pose proof (Z.mod_pos_bound n e He).
  destruct (Z.eqb_spec (n mod e) 0); cbn [negb]; nia.
Qed.

Lemma counts_required_for_unique e n k :
  0 < e → n ≤ k * e < n + e → k = counts_required_for e n.
Proof.
  intros He Hk. destruct (decide (0 ≤ n)) as [Hn|].
  - pose proof (counts_required_for_ceil e n He Hn). nia.
  - unfold counts_required_for.
    pose proof (Z.div_mod n e) as Hd. pose proof (Z.mod_pos_bound n e He).
    destruct (Z.eqb_spec (n mod e) 0); cbn [negb]; nia.
Qed.
