(* ===== verification/FsStructs.v ===== *)
(** * [modules/wasabi-fs/src/fs_structs.rs]: what the file system keeps on the device

    The [repr(C)] structures with their fields, the capacities of their inline
    vectors, the error enums of [fs.rs] and [mem_tree/mod.rs], and
    [MainHeader::matches_backup]. A [DevicePointer<T>] is the address of the
    block that holds a [T]. [StaticVec]s are lists whose length the operations
    that build them keep below the capacity. *)

From S2P Require Import Prelude BlockDevice.
Local Open Scope Z_scope.

(** ** Identifiers and small types *)

(** [FileId(NonZeroU64)] *)
Definition FileId : Type := Z.

Definition FileId_ROOT : FileId := 1.

Definition FileId_try_new (id : Z) : option FileId := if id =? 0 then None else Some id.

Definition FileId_next {E} (self : FileId) : result E FileId := add_u64 self 1.

Inductive FileType := File | Directory_.

#[export] Instance FileType_eq_dec : EqDecision FileType.
Proof. solve_decision. Defined.

Definition Timestamp : Type := Z.

(** [bitflags! struct Perm: u8] *)
Definition Perm : Type := Z.
Definition Perm_EXECUTE : Perm := 1.
Definition Perm_WRITE : Perm := Z.shiftl 1 1.
Definition Perm_READ : Perm := Z.shiftl 1 2.

(** ** Capacities *)

Definition BLOCK_SIZE : Z := 4096.
Definition BLOCK_RANGES_COUNT_PER_BLOCK : nat := 250.
(** [(4096 - (1 + 8)) / 16] *)
Definition BLOCK_LIST_GROUP_COUNT : nat := 255.
(** [4096 - (4 + 8)]: [LBA] has a niche, so [Option<DevicePointer>] takes 8 bytes *)
Definition BLOCK_STRING_DATA_LENGTH : nat := 4084.
Definition BLOCK_STRING_PART_DATA_LENGTH : nat := 4088.
Definition DIRECTORY_HEAD_ENTRY_COUNT : nat := 33.
(** [(4096 - (1 + 8)) / 120]: a [DirectoryEntry] is a 112-byte string head and an id *)
Definition DIRECTORY_PART_ENTRY_COUNT : nat := 34.

(** [blocks_required_for!] of [lib.rs] *)
Definition blocks_required_for (bytes : Z) : Z := counts_required_for BLOCK_SIZE bytes.

(** ** On-device structures *)

Inductive BlockListHead :=
  | BLH_Single (group : BlockGroup)
  | BLH_List (ptr : LBA).

#[export] Instance BlockListHead_eq_dec : EqDecision BlockListHead.
Proof. solve_decision. Defined.

(** [From<LBA> for BlockListHead] *)
Definition BlockListHead_from_LBA (value : LBA) : BlockListHead :=
  BLH_Single (BlockGroup_with_count value 1).

(** [fs_structs::BlockList] *)
Record FsBlockList := mkFsBlockList { fbl_blocks : list BlockGroup; fbl_next : option LBA }.

#[export] Instance FsBlockList_eq_dec : EqDecision FsBlockList.
Proof. solve_decision. Defined.

(** [DeviceStringHead<N>] and [BlockStringPart]; a byte is a [Z] *)
Record DeviceStringHead := mkDeviceStringHead
  { dsh_length : Z; dsh_data : list Z; dsh_next : option LBA }.

#[export] Instance DeviceStringHead_eq_dec : EqDecision DeviceStringHead.
Proof. solve_decision. Defined.

Record BlockStringPart := mkBlockStringPart { bsp_data : list Z; bsp_next : option LBA }.

#[export] Instance BlockStringPart_eq_dec : EqDecision BlockStringPart.
Proof. solve_decision. Defined.

(** [fs_structs::FileNode] without the padding *)
Record FsFileNode := mkFsFileNode {
  ffn_id : FileId;
  ffn_parent : option FileId;
  ffn_typ : FileType;
  ffn_permissions : list Perm;
  ffn_uid : Z;
  ffn_gid : Z;
  ffn_size : Z;
  ffn_created_at : Timestamp;
  ffn_modified_at : Timestamp;
  ffn_block_data : BlockListHead;
  ffn_block_count : Z;
}.

#[export] Instance FsFileNode_eq_dec : EqDecision FsFileNode.
Proof. solve_decision. Defined.

Inductive FsStatus := Uninitialized | Ready.

#[export] Instance FsStatus_eq_dec : EqDecision FsStatus.
Proof. solve_decision. Defined.

Record MainTransientHeader := mkMainTransientHeader {
  th_magic : list Z;
  mount_count : Z;
  open_in_write_mode : bool;
  th_status : FsStatus;
}.

#[export] Instance MainTransientHeader_eq_dec : EqDecision MainTransientHeader.
Proof. solve_decision. Defined.

Record MainHeader := mkMainHeader {
  mh_magic : list Z;
  mh_version : list Z;
  mh_uuid : Z;
  mh_root : LBA;
  mh_free_blocks : LBA;
  mh_backup_header : LBA;
  mh_name : option LBA;
  mh_transient : option MainTransientHeader;
  mh_next_file_id : FileId;
}.

#[export] Instance MainHeader_eq_dec : EqDecision MainHeader.
Proof. solve_decision. Defined.

(** [b"WasabiFs"], [b"WaTh"], [FS_VERSION] and the header's block *)
Definition MainHeader_MAGIC : list Z := [87; 97; 115; 97; 98; 105; 70; 115].
Definition MainTransientHeader_MAGIC : list Z := [87; 97; 84; 104].
Definition FS_VERSION : list Z := [0; 1; 0; 255].
Definition MAIN_HEADER_BLOCK : LBA := 0.

(** The changes [matches_backup] makes to its copy of the main header, which
    are those [copy_header_to_backup] makes before it writes *)
Definition as_backup (h : MainHeader) : MainHeader :=
  mkMainHeader (mh_magic h) (mh_version h) (mh_uuid h) (mh_root h) (mh_free_blocks h)
    MAIN_HEADER_BLOCK (mh_name h) None (mh_next_file_id h).

Definition MainHeader_matches_backup {E} (self backup : MainHeader) : result E bool :=
  _ ← assert_ (bool_decide (is_Some (mh_transient self)));
  _ ← assert_ (negb (mh_backup_header self =? MAIN_HEADER_BLOCK));
  mret (bool_decide (as_backup self = backup)).

Inductive TreeNode :=
  | TN_Leave (files : list FsFileNode)
  | TN_Node (children : list (LBA * option FileId)).

#[export] Instance TreeNode_eq_dec : EqDecision TreeNode.
Proof. solve_decision. Defined.

Record FreeBlockGroups := mkFreeBlockGroups
  { fbg_free : list BlockGroup; fbg_next : option LBA }.

#[export] Instance FreeBlockGroups_eq_dec : EqDecision FreeBlockGroups.
Proof. solve_decision. Defined.

Record FsDirectoryEntry := mkFsDirectoryEntry
  { fde_name : DeviceStringHead; fde_file_id : FileId }.

#[export] Instance FsDirectoryEntry_eq_dec : EqDecision FsDirectoryEntry.
Proof. solve_decision. Defined.

Record DirectoryHead := mkDirectoryHead {
  dh_parent : option FileId;
  dh_entry_count : Z;
  dh_entries : list FsDirectoryEntry;
  dh_next : option LBA;
}.

#[export] Instance DirectoryHead_eq_dec : EqDecision DirectoryHead.
Proof. solve_decision. Defined.

Record DirectoryPart := mkDirectoryPart
  { dp_entries : list FsDirectoryEntry; dp_next : option LBA }.

#[export] Instance DirectoryPart_eq_dec : EqDecision DirectoryPart.
Proof. solve_decision. Defined.

(** ** Errors *)

Inductive FsMalformedError :=
  | HeaderMagicInvalid
  | HeaderWithoutTransient
  | HeaderMismatch
  | DirectoryEntryCountMismatch (expected found : Z)
  | MalformedStringLength
  | MalformedStringUtf8.

(** [DE] is the error type of the device. [boxed] is [Box<dyn Error>]: it holds an
    error of the device or, where an [FsError] is boxed again, one of those. *)
Inductive FsError (DE : Type) :=
  | FE_BlockDevice (e : boxed DE)
  | BlockDeviceToSmall (max required : Z)
  | BlockDeviceFull (count : Z)
  | NoConsecutiveFreeBlocks (size : Z)
  | OverrideCheck
  | WriteAllocatorFreeList
  | HeaderVersionMismatch (version : list Z)
  | NotInitialized
  | CompareExchangeFailedToOften
  | AlreadyMounted
  | StringToLong
  | Oom
  | OomOnError
  | FE_MemTreeError (e : MemTreeError DE)
  | FileDoesNotExist (id : FileId)
  | FileTypeMismatch (id : FileId) (file_type expected : FileType)
  | ReadZeroBytes
  | MalformedFs (e : FsMalformedError)
with MemTreeError (DE : Type) :=
  | MTE_Oom
  | MTE_BlockDevice (e : boxed DE)
  | FileNodeExists (id : FileId)
  | MTE_FileDoesNotExist (id : FileId)
with boxed (DE : Type) :=
  | BoxDevice (e : DE)
  | BoxFs (e : FsError DE).
Arguments MTE_Oom {DE}.
Arguments MTE_BlockDevice {DE} e.
Arguments FileNodeExists {DE} id.
Arguments MTE_FileDoesNotExist {DE} id.
Arguments BoxDevice {DE} e.
Arguments BoxFs {DE} e.
Arguments FE_BlockDevice {DE} e.
Arguments BlockDeviceToSmall {DE} max required.
Arguments BlockDeviceFull {DE} count.
Arguments NoConsecutiveFreeBlocks {DE} size.
Arguments OverrideCheck {DE}.
Arguments WriteAllocatorFreeList {DE}.
Arguments HeaderVersionMismatch {DE} version.
Arguments NotInitialized {DE}.
Arguments CompareExchangeFailedToOften {DE}.
Arguments AlreadyMounted {DE}.
Arguments StringToLong {DE}.
Arguments Oom {DE}.
Arguments OomOnError {DE}.
Arguments FE_MemTreeError {DE} e.
Arguments FileDoesNotExist {DE} id.
Arguments FileTypeMismatch {DE} id file_type expected.
Arguments ReadZeroBytes {DE}.
Arguments MalformedFs {DE} e.

(** [From<MemTreeError> for FsError] *)
Definition FsError_from_MemTreeError {DE} (value : MemTreeError DE) : FsError DE :=
  match value with
  | MTE_Oom => Oom
  | MTE_BlockDevice e => FE_BlockDevice e
  | err => FE_MemTreeError err
  end.

(** [MemTreeError::from], applied to an [FsError] *)
Definition MemTreeError_from {DE} (value : FsError DE) : MemTreeError DE :=
  MTE_BlockDevice (BoxFs value).

(** [map_device_error], applied to an error of the device and to an [FsError];
    boxing the error does not fail *)
Definition map_device_error {DE} (e : DE) : FsError DE := FE_BlockDevice (BoxDevice e).
Definition map_fs_error {DE} (e : FsError DE) : FsError DE := FE_BlockDevice (BoxFs e).

(** ** A block type for concrete devices

    Blocks tagged with the structure they hold. Reading a block as another
    structure than the one stored gives some value of that structure, as a
    cast of unrelated bytes would. *)
Inductive FsBlock :=
  | FB_Header (h : MainHeader)
  | FB_Tree (t : TreeNode)
  | FB_Free (f : FreeBlockGroups)
  | FB_List (l : FsBlockList)
  | FB_String (s : DeviceStringHead)
  | FB_Part (p : BlockStringPart)
  | FB_DirHead (h : DirectoryHead)
  | FB_DirPart (p : DirectoryPart)
  | FB_Raw (data : list Z).

#[export] Instance FsBlock_eq_dec : EqDecision FsBlock.
Proof. solve_decision. Defined.

#[export] Instance FsBlock_header : BlockConstructable FsBlock MainHeader := {
  block_data := FB_Header;
  from_block b := match b with FB_Header h => h
                  | _ => mkMainHeader [] [] 0 0 0 0 None None 0 end;
  from_block_data _ := eq_refl;
}.
#[export] Instance FsBlock_tree : BlockConstructable FsBlock TreeNode := {
  block_data := FB_Tree;
  from_block b := match b with FB_Tree t => t | _ => TN_Leave [] end;
  from_block_data _ := eq_refl;
}.
#[export] Instance FsBlock_free : BlockConstructable FsBlock FreeBlockGroups := {
  block_data := FB_Free;
  from_block b := match b with FB_Free f => f | _ => mkFreeBlockGroups [] None end;
  from_block_data _ := eq_refl;
}.
#[export] Instance FsBlock_list : BlockConstructable FsBlock FsBlockList := {
  block_data := FB_List;
  from_block b := match b with FB_List l => l | _ => mkFsBlockList [] None end;
  from_block_data _ := eq_refl;
}.
#[export] Instance FsBlock_string : BlockConstructable FsBlock DeviceStringHead := {
  block_data := FB_String;
  from_block b := match b with FB_String s => s | _ => mkDeviceStringHead 0 [] None end;
  from_block_data _ := eq_refl;
}.
#[export] Instance FsBlock_part : BlockConstructable FsBlock BlockStringPart := {
  block_data := FB_Part;
  from_block b := match b with FB_Part p => p | _ => mkBlockStringPart [] None end;
  from_block_data _ := eq_refl;
}.
#[export] Instance FsBlock_dir_head : BlockConstructable FsBlock DirectoryHead := {
  block_data := FB_DirHead;
  from_block b := match b with FB_DirHead h => h | _ => mkDirectoryHead None 0 [] None end;
  from_block_data _ := eq_refl;
}.
#[export] Instance FsBlock_dir_part : BlockConstructable FsBlock DirectoryPart := {
  block_data := FB_DirPart;
  from_block b := match b with FB_DirPart p => p | _ => mkDirectoryPart [] None end;
  from_block_data _ := eq_refl;
}.
