(* ===== verification/BlockAllocator.v ===== *)
(** * [modules/wasabi-fs/src/block_allocator.rs]: the free list of the file system

    Every method of [BlockAllocator] and [BlockGroupList]. A method with
    [&mut self] is a [M BlockAllocator] computation; [write] and [load] work on
    a device. [debug_assert!]s are kept: they panic when they fail. *)

From S2P Require Import Prelude BlockDevice FsStructs.
Local Open Scope Z_scope.

Record BlockAllocator := mkBlockAllocator {
  free : list BlockGroup;
  on_disk : option LBA;
  self_on_disk : list LBA;
  dirty : bool;
}.

Definition set_free (l : list BlockGroup) (a : BlockAllocator) : BlockAllocator :=
  mkBlockAllocator l (on_disk a) (self_on_disk a) (dirty a).
Definition set_dirty (b : bool) (a : BlockAllocator) : BlockAllocator :=
  mkBlockAllocator (free a) (on_disk a) (self_on_disk a) b.

Definition CALC_ALLOC_SIZE_TRY_COUNT : nat := 10.

(** ** Consistency *)

(** [true] is [Ok(())], [false] is [Err(())] *)
Definition BlockAllocator_check_consistent {E} (self : BlockAllocator) : result E bool :=
  windows2_all_r (λ first second,
    past_first_end ← LBA_add (bg_start first) (bg_count first);
    mret (past_first_end <? bg_start second)) (free self).

(** [debug_assert!(self.check_consistent().is_ok())] *)
Definition debug_assert_consistent {E} : M BlockAllocator E unit :=
  self ← gets id;
  b ← lift (BlockAllocator_check_consistent self);
  lift (assert_ b).

Definition BlockAllocator_is_dirty (self : BlockAllocator) : bool := dirty self.

(** [check_matches_device] does not look at the device yet. *)
Definition BlockAllocator_check_matches_device {E} (self : BlockAllocator) : result E bool :=
  if BlockAllocator_is_dirty self then mret false
  else BlockAllocator_check_consistent self.

(** ** Marking single blocks as used *)

Definition BlockAllocator_mark_used (lba : LBA) : M BlockAllocator unit unit :=
  self ← gets id;
  o ← lift (position_r (λ group, BlockGroup_contains group lba) (free self));
  block_index ← lift (ok_or tt o);
  group ← lift (vec_get (free self) block_index);
  if lba =? bg_start group then
    if BlockGroup_count group =? 1 then
      '(_, l) ← lift (vec_remove block_index (free self));
      _ ← modify (set_free l);
      debug_assert_consistent
    else
      start ← lift (LBA_add (bg_start group) 1);
      n ← lift (sub_u64 (BlockGroup_count group) 1);
      count ← lift (NonZero n);
      l ← lift (vec_set block_index (mkBlockGroup start count) (free self));
      _ ← modify (set_free l);
      debug_assert_consistent
  else
    e ← lift (BlockGroup_end group);
    if lba =? e then
      n ← lift (sub_u64 (BlockGroup_count group) 1);
      count ← lift (NonZero n);
      l ← lift (vec_set block_index (mkBlockGroup (bg_start group) count) (free self));
      _ ← modify (set_free l);
      debug_assert_consistent
    else
      n ← lift (LBA_sub lba (bg_start group));
      count ← lift (NonZero n);
      l ← lift (vec_set block_index (mkBlockGroup (bg_start group) count) (free self));
      s ← lift (LBA_add lba 1);
      new_group ← lift (BlockGroup_new s e);
      l ← lift (vec_insert (S block_index) new_group l);
      _ ← modify (set_free l);
      debug_assert_consistent.

(** [for block in inital_usage { this.mark_used(block).expect(..) }] *)
Fixpoint mark_used_all {E} (inital_usage : list LBA) (this : BlockAllocator)
    : result E BlockAllocator :=
  match inital_usage with
  | [] => mret this
  | block :: inital_usage =>
      match BlockAllocator_mark_used block this with
      | (Ok _, this) => mark_used_all inital_usage this
      | (Hang, _) => Hang
      | _ => Panic
      end
  end.

Definition BlockAllocator_empty {E} (inital_usage : list LBA) (max_lba : LBA)
    : result E BlockAllocator :=
  count ← NonZero max_lba;
  mark_used_all inital_usage
    (mkBlockAllocator [BlockGroup_with_count 0 count] None [] true).

(** ** Contiguous allocation *)

(** The [for (i, group) in self.free.iter().enumerate()] loop: best fit *)
Fixpoint best_group (size i : Z) (l : list BlockGroup) (best best_rem : Z) : Z * Z :=
  match l with
  | [] => (best, best_rem)
  | group :: l =>
      if BlockGroup_count group <? size then best_group size (i + 1) l best best_rem
      else
        let rem := BlockGroup_count group - size in
        if rem <? best_rem then best_group size (i + 1) l i rem
        else best_group size (i + 1) l best best_rem
  end.

Definition BlockAllocator_allocate_group {DE} (size : Z)
    : M BlockAllocator (FsError DE) BlockGroup :=
  _ ← lift (assert_ (size >=? 1));
  self ← gets id;
  let '(best, best_rem) := best_group size 0 (free self) usize_max u64_max in
  if best =? usize_max then lift (Err (NoConsecutiveFreeBlocks size))
  else
    _ ← modify (set_dirty true);
    if best_rem =? 0 then
      '(group, l) ← lift (vec_remove (Z.to_nat best) (free self));
      _ ← modify (set_free l);
      mret group
    else
      group ← lift (vec_get (free self) (Z.to_nat best));
      count ← lift (NonZero size);
      let result := mkBlockGroup (bg_start group) count in
      start ← lift (LBA_add (bg_start group) size);
      rem ← lift (NonZero best_rem);
      l ← lift (vec_set (Z.to_nat best) (mkBlockGroup start rem) (free self));
      _ ← modify (set_free l);
      _ ← debug_assert_consistent;
      mret result.

Definition BlockAllocator_allocate_block {DE} : M BlockAllocator (FsError DE) LBA :=
  group ← BlockAllocator_allocate_group 1;
  mret (bg_start group).

(** ** Freeing *)

(** The [for i in 0..self.free.len()] loop of [free_group] *)
Fixpoint free_group_loop {E} (l : list BlockGroup) (free : BlockGroup)
    : result E (list BlockGroup) :=
  match l with
  | [] => mret []
  | current :: l =>
      if bg_start current >? bg_start free then mret (free :: current :: l)
      else
        e ← BlockGroup_end current;
        past ← LBA_add e 1;
        if past =? bg_start free then
          n ← add_u64 (BlockGroup_count current) (BlockGroup_count free);
          count ← NonZero n;
          mret (mkBlockGroup (bg_start current) count :: l)
        else
          e ← BlockGroup_end current;
          _ ← assert_ (bg_start free >? e);
          l ← free_group_loop l free;
          mret (current :: l)
  end.

Definition BlockAllocator_free_group {E} (group : BlockGroup) : M BlockAllocator E unit :=
  _ ← modify (set_dirty true);
  self ← gets id;
  l ← lift (free_group_loop (free self) group);
  _ ← modify (set_free l);
  debug_assert_consistent.

Definition BlockAllocator_free_block {E} (block : LBA) : M BlockAllocator E unit :=
  BlockAllocator_free_group (mkBlockGroup block 1).

(** [BlockGroupList] is its vector of groups. *)
Definition BlockGroupList : Type := list BlockGroup.

Fixpoint BlockAllocator_free {E} (groups : BlockGroupList) : M BlockAllocator E unit :=
  match groups with
  | [] => mret tt
  | group :: groups => _ ← BlockAllocator_free_group group; BlockAllocator_free groups
  end.

(** [self.groups.iter().map(|g| g.count()).sum()] *)
Fixpoint block_count_from {E} (acc : Z) (groups : list BlockGroup) : result E Z :=
  match groups with
  | [] => mret acc
  | g :: groups => acc ← add_u64 acc (BlockGroup_count g); block_count_from acc groups
  end.
Definition BlockGroupList_block_count {E} (groups : BlockGroupList) : result E Z :=
  block_count_from 0 groups.

(** ** Scattered allocation *)

(** The [while remaining_size > 0] loop. [group_size] halves in every round that
    does not allocate, so 64 rounds plus one allocation are enough. *)
Fixpoint allocate_loop {DE} (fuel : nat) (count remaining_size group_size : Z)
    (list_ : BlockGroupList) : M BlockAllocator (FsError DE) BlockGroupList :=
  match fuel with
  | O => lift Hang
  | S fuel =>
      if remaining_size >? 0 then
        if group_size =? 0 then
          _ ← BlockAllocator_free list_;
          lift (Err (BlockDeviceFull count))
        else if remaining_size >? group_size then
          allocate_loop fuel count remaining_size (Z.shiftr group_size 1) list_
        else λ self,
          match BlockAllocator_allocate_group (DE:=DE) group_size self with
          | (Ok group, self) =>
              (remaining_size ← lift (sub_u64 remaining_size group_size);
               allocate_loop fuel count remaining_size group_size (list_ ++ [group])) self
          | (Err _, self) =>
              allocate_loop fuel count remaining_size (Z.shiftr group_size 1) list_ self
          | (Panic, self) => (Panic, self)
          | (Hang, self) => (Hang, self)
          end
      else mret list_
  end.

Definition BlockAllocator_allocate {DE} (count : Z)
    : M BlockAllocator (FsError DE) BlockGroupList :=
  _ ← lift (assert_ (count >=? 1));
  let group_size := Z.shiftl 1 (Z.log2 count) in
  list_ ← allocate_loop 66 count count group_size [];
  n ← lift (BlockGroupList_block_count list_);
  _ ← lift (assert_ (n =? count));
  _ ← modify (set_dirty true);
  mret list_.

(** ** Iterating over the blocks of a list *)

Record BlockGroupListBlockIter := mkBlockIter {
  group_iter : list BlockGroup;
  current_group : option BlockGroup;
  current_index : Z;
}.

Definition BlockGroupList_block_iter (groups : BlockGroupList) : BlockGroupListBlockIter :=
  mkBlockIter groups None 0.

Definition BlockIter_next {E} (self : BlockGroupListBlockIter)
    : result E (option LBA * BlockGroupListBlockIter) :=
  let self :=
    match current_group self with
    | None => mkBlockIter (tail (group_iter self)) (head (group_iter self)) (current_index self)
    | Some _ => self
    end in
  match current_group self with
  | None => mret (None, self)
  | Some group =>
      _ ← assert_ (current_index self <? BlockGroup_count group);
      result ← LBA_add (bg_start group) (current_index self);
      n ← sub_u64 (BlockGroup_count group) 1;
      if current_index self =? n
      then mret (Some result, mkBlockIter (group_iter self) None 0)
      else
        i ← add_u64 (current_index self) 1;
        mret (Some result, mkBlockIter (group_iter self) (current_group self) i)
  end.

(** Running an iterator to its end *)
Fixpoint block_iter_collect {E} (fuel : nat) (it : BlockGroupListBlockIter)
    : result E (list LBA) :=
  match fuel with
  | O => Hang
  | S fuel =>
      '(o, it) ← BlockIter_next it;
      match o with
      | None => mret []
      | Some lba => l ← block_iter_collect fuel it; mret (lba :: l)
      end
  end.

(** The blocks of a list in order. The fuel is one more than their number. *)
Definition BlockGroupList_blocks {E} (groups : BlockGroupList) : result E (list LBA) :=
  n ← BlockGroupList_block_count groups;
  block_iter_collect (S (Z.to_nat n)) (BlockGroupList_block_iter groups).

(** ** The free list on the device *)

Section device.
Context {D B DE : Type} `{BlockDevice D B DE} `{!BlockConstructable B FreeBlockGroups}.

(** The [loop] of [write] that finds the blocks for the free list itself.
    [blocks_required] is computed once, before the loop. *)
Fixpoint write_allocate_loop (fuel : nat) (blocks_required free_group_count : Z)
    (loop_count : nat) : M BlockAllocator (FsError DE) BlockGroupList :=
  match fuel with
  | O => lift Hang
  | S fuel =>
      on_disk_blocks ← BlockAllocator_allocate blocks_required;
      new ← gets id;
      let len := Z.of_nat (length (free new)) in
      n ← lift (BlockGroupList_block_count on_disk_blocks);
      if n >=? counts_required_for (Z.of_nat BLOCK_RANGES_COUNT_PER_BLOCK) len
      then mret on_disk_blocks
      else
        _ ← lift (assert_ (free_group_count <? len));
        _ ← BlockAllocator_free on_disk_blocks;
        if (CALC_ALLOC_SIZE_TRY_COUNT <=? loop_count)%nat
        then lift (Err WriteAllocatorFreeList)
        else write_allocate_loop fuel blocks_required len (S loop_count)
  end.

(** [for block_data in new.free.chunks(..)]: one block per chunk, linked to the
    block after it; the rest of the blocks is returned *)
Fixpoint write_chunks (cs : list (list BlockGroup)) (iter : list LBA)
    : M D (FsError DE) (list LBA) :=
  match cs with
  | [] => mret iter
  | c :: cs =>
      match iter with
      | [] => lift Panic
      | lba :: iter =>
          _ ← mapM_err map_device_error
                (write_block lba (block_data (mkFreeBlockGroups c (head iter))));
          write_chunks cs iter
      end
  end.

(** The last [loop]: blocks that are left over become empty list blocks. *)
Fixpoint write_spare (iter : list LBA) : M D (FsError DE) unit :=
  match iter with
  | [] => mret tt
  | lba :: iter =>
      _ ← mapM_err map_device_error
            (write_block lba (block_data (mkFreeBlockGroups [] (head iter))));
      write_spare iter
  end.

(** [for block in &self.self_on_disk { new.free_block(block) }] *)
Fixpoint free_blocks {E} (l : list LBA) : M BlockAllocator E unit :=
  match l with
  | [] => mret tt
  | block :: l => _ ← BlockAllocator_free_block block; free_blocks l
  end.

(** The allocator part of [write]: the new allocator and the blocks of the list *)
Definition write_prepare : M BlockAllocator (FsError DE) BlockGroupList :=
  _ ← debug_assert_consistent;
  self ← gets id;
  _ ← modify (λ a, mkBlockAllocator (free a) None [] (dirty a));
  _ ← free_blocks (self_on_disk self);
  new ← gets id;
  let free_group_count := Z.max (Z.of_nat (length (free new))) 1 in
  let blocks_required :=
    counts_required_for (Z.of_nat BLOCK_RANGES_COUNT_PER_BLOCK) free_group_count in
  write_allocate_loop (2 + CALC_ALLOC_SIZE_TRY_COUNT) blocks_required free_group_count 0.

(** [write] returns the pointer and the value assigned to [*self]; on an error
    [self] keeps its old value. *)
Definition BlockAllocator_write (self : BlockAllocator)
    : M D (FsError DE) (LBA * BlockAllocator) :=
  let '(r, new) := write_prepare self in
  on_disk_blocks ← lift r;
  on_disk_block_iter ← lift (BlockGroupList_blocks on_disk_blocks);
  first_block ← lift (expect (head on_disk_block_iter));
  rest ← write_chunks (chunks BLOCK_RANGES_COUNT_PER_BLOCK (free new)) on_disk_block_iter;
  _ ← write_spare rest;
  mret (first_block, set_dirty false new).

(** The [while let Some(block) = next_block] loop of [load]; the fuel bounds the
    length of the chain, a cyclic chain never ends. *)
Fixpoint load_loop (fuel : nat) (device : D) (next_block : option LBA)
    (free : list BlockGroup) (self_on_disk : list LBA)
    : result DE (list BlockGroup * list LBA) :=
  match next_block with
  | None => mret (free, self_on_disk)
  | Some block =>
      match fuel with
      | O => Hang
      | S fuel =>
          data ← read_pointer FreeBlockGroups device block;
          load_loop fuel device (fbg_next data) (free ++ fbg_free data)
            (self_on_disk ++ [block])
      end
  end.

Definition BlockAllocator_load (fuel : nat) (device : D) (free_blocks : LBA)
    : result DE BlockAllocator :=
  let on_disk := Some free_blocks in
  '(free, self_on_disk) ← load_loop fuel device on_disk [] [];
  let block_allocator := mkBlockAllocator free on_disk self_on_disk false in
  b ← BlockAllocator_check_consistent block_allocator;
  _ ← assert_ b;
  mret block_allocator.
End device.
