(* ===== verification/BlockAllocatorProofs.v ===== *)
(** * Correctness of the block allocator

    The free list is a list of groups in ascending order with at least one used
    block between two of them ([groups_ok], the assumptions [check_consistent]
    names). What an operation does is said in terms of the set of free blocks
    [λ x, in_groups x (free a)]. *)

From S2P Require Import Prelude BlockDevice FsStructs BlockAllocator.
Local Open Scope Z_scope.

(** ** The invariant *)

(** [h] starts after [g] with a gap *)
Definition gap (g h : BlockGroup) : Prop := bg_start g + bg_count g < bg_start h.

Definition groups_ok (l : list BlockGroup) : Prop := Forall group_ok l ∧ pairwise gap l.

Definition is_free (a : BlockAllocator) (x : LBA) : Prop := in_groups x (free a).

(** [h] lies inside [g] *)
Definition within (g h : BlockGroup) : Prop :=
  bg_start g ≤ bg_start h ∧ bg_start h + bg_count h ≤ bg_start g + bg_count g.

Lemma in_groups_nil x : in_groups x [] ↔ False.
Proof. unfold in_groups. by rewrite Exists_nil. Qed.
Lemma in_groups_cons x g l : in_groups x (g :: l) ↔ in_group x g ∨ in_groups x l.
Proof. unfold in_groups. by rewrite Exists_cons. Qed.
Lemma in_groups_app x l k : in_groups x (l ++ k) ↔ in_groups x l ∨ in_groups x k.
Proof. unfold in_groups. by rewrite Exists_app. Qed.

#[export] Hint Rewrite in_groups_nil in_groups_cons in_groups_app : blocks.

Lemma groups_ok_nil : groups_ok [].
Proof. split; [constructor|done]. Qed.

Lemma groups_ok_single g : group_ok g → groups_ok [g].
Proof. split; [by constructor|]. cbn. auto. Qed.

Lemma groups_ok_app l k :
  groups_ok (l ++ k) ↔ groups_ok l ∧ groups_ok k ∧ Forall (λ g, Forall (gap g) k) l.
Proof. unfold groups_ok. rewrite Forall_app, pairwise_app. tauto. Qed.

Lemma groups_ok_cons g l :
  groups_ok (g :: l) ↔ group_ok g ∧ groups_ok l ∧ Forall (gap g) l.
Proof. unfold groups_ok. rewrite Forall_cons. cbn. tauto. Qed.

Lemma gap_disjoint g h x : gap g h → in_group x g → in_group x h → False.
Proof. unfold gap, in_group. lia. Qed.

Lemma gap_disjoint_l g l x : Forall (gap g) l → in_group x g → in_groups x l → False.
Proof.
  intros Hg Hx Hl. apply Exists_exists in Hl as (h & Hh & Hxh).
  rewrite Forall_forall in Hg. eauto using gap_disjoint.
Qed.

Lemma gap_disjoint_r g l x : Forall (λ h, gap h g) l → in_group x g → in_groups x l → False.
Proof.
  intros Hg Hx Hl. apply Exists_exists in Hl as (h & Hh & Hxh).
  rewrite Forall_forall in Hg. eapply gap_disjoint; [by apply Hg| |]; done.
Qed.

(** A group of the list is apart from everything around it. *)
Lemma groups_ok_middle pre g post :
  groups_ok (pre ++ g :: post) ↔
    groups_ok (pre ++ post) ∧ group_ok g ∧ Forall (λ h, gap h g) pre ∧ Forall (gap g) post.
Proof.
  rewrite !groups_ok_app, groups_ok_cons, !Forall_forall.
  setoid_rewrite Forall_cons. split.
  - intros (?&(?&?&?)&Hp). split_and!; try done; intros; by apply Hp.
  - intros ((?&?&?)&?&?&?). split_and!; try done. auto.
Qed.

Lemma middle_disjoint pre g post x :
  groups_ok (pre ++ g :: post) → in_group x g → ¬ in_groups x pre ∧ ¬ in_groups x post.
Proof.
  intros (_ & _ & Hpre & Hpost)%groups_ok_middle Hx.
  split; intros H; eauto using gap_disjoint_l, gap_disjoint_r.
Qed.

(** Replacing a group by groups inside it keeps the invariant, and changes the
    free blocks only inside the group. *)
Lemma replace_ok pre g post mid :
  groups_ok (pre ++ g :: post) → groups_ok mid → Forall (within g) mid →
  groups_ok (pre ++ mid ++ post).
Proof.
  intros (Hpp & Hg & Hpre & Hpost)%groups_ok_middle Hmid Hw.
  apply groups_ok_app in Hpp as (? & ? & Hpp).
  rewrite !groups_ok_app. split_and!; try done.
  - eapply Forall_impl; [exact Hw|]. intros h Hh. cbn.
    eapply Forall_impl; [exact Hpost|]. intros k Hk. unfold gap, within in *. lia.
  - rewrite Forall_forall in *. intros h Hh. apply Forall_app. split; [|by apply Hpp].
    apply Forall_forall. intros k Hk. specialize (Hpre h Hh). specialize (Hw k Hk).
    unfold gap, within in *. lia.
Qed.

Lemma replace_in pre g post mid (P : LBA → Prop) x :
  groups_ok (pre ++ g :: post) →
  (∀ y, in_groups y mid ↔ in_group y g ∧ P y) → (in_group x g ∨ P x) →
  (in_groups x (pre ++ mid ++ post) ↔ in_groups x (pre ++ g :: post) ∧ P x).
Proof.
  intros Hok Hmid HP. autorewrite with blocks. rewrite Hmid.
  pose proof (middle_disjoint pre g post x Hok). tauto.
Qed.

(** ** [check_consistent] *)

Lemma check_consistent_ok {E} a :
  groups_ok (free a) → BlockAllocator_check_consistent (E:=E) a = Ok true.
Proof.
  unfold BlockAllocator_check_consistent. induction (free a) as [|g [|h l] IH]; [done..|].
  intros (Hg & Hl & Hgap)%groups_ok_cons. rewrite windows2_all_r_cons.
  destruct Hg as (?&?&?). rewrite LBA_add_ok by lia. cbn [mbind result_bind mret result_ret].
  apply Forall_cons in Hgap as [Hgap _]. unfold gap in Hgap.
  rewrite (proj2 (Z.ltb_lt _ _)) by lia. auto.
Qed.

Lemma windows_gap {E} l :
  Forall group_ok l →
  windows2_all_r (E:=E) (λ first second,
    past_first_end ← LBA_add (bg_start first) (bg_count first);
    mret (past_first_end <? bg_start second)) l = Ok true → pairwise gap l.
Proof.
  induction l as [|g [|h l] IH]; [done|by cbn; auto|].
  intros [Hg Hl]%Forall_cons. rewrite windows2_all_r_cons.
  pose proof Hg as (?&?&?). rewrite LBA_add_ok by lia. cbn [mbind result_bind mret result_ret].
  destruct (Z.ltb_spec (bg_start g + bg_count g) (bg_start h)) as [Hlt|]; [|done].
  intros Hw. specialize (IH Hl Hw). cbn in IH |- *. split; [|done].
  destruct IH as [IH _]. constructor; [done|].
  eapply Forall_impl; [exact IH|]. intros k Hk.
  apply Forall_cons in Hl as [(?&?&?) _]. unfold gap in *. lia.
Qed.

(** On a list of well-formed groups, [check_consistent] succeeds exactly when
    the groups ascend with a gap between any two of them, not only between
    neighbours. *)
Theorem check_consistent_iff {E} (a : BlockAllocator) :
  Forall group_ok (free a) →
  (BlockAllocator_check_consistent (E:=E) a = Ok true ↔ pairwise gap (free a)).
Proof.
  intros Hok. split.
  - by apply windows_gap.
  - intros. by apply check_consistent_ok.
Qed.

Lemma debug_assert_consistent_ok {E} a :
  groups_ok (free a) → debug_assert_consistent (E:=E) a = (Ok tt, a).
Proof.
  intros H. unfold debug_assert_consistent. rewrite run_bind. cbn.
  by rewrite check_consistent_ok by done.
Qed.

(** ** [mark_used] *)

Lemma find_group {E} l x :
  Forall group_ok l →
  position_r (E:=E) (λ group, BlockGroup_contains group x) l
  = Ok (position (λ g, bool_decide (in_group x g)) l).
Proof.
  intros H. apply position_r_Ok. eapply Forall_impl; [exact H|].
  intros g Hg. by apply BlockGroup_contains_ok.
Qed.

Lemma find_group_None l x :
  position (λ g, bool_decide (in_group x g)) l = None ↔ ¬ in_groups x l.
Proof.
  rewrite position_None. unfold in_groups. rewrite <- Forall_Exists_neg.
  apply Forall_iff. intros g. by rewrite bool_decide_eq_false.
Qed.

(** What is left of a group when one of its blocks is taken out *)
Definition without (g : BlockGroup) (x : LBA) : list BlockGroup :=
  (if bg_start g <? x then [mkBlockGroup (bg_start g) (x - bg_start g)] else []) ++
  (if x + 1 <? bg_start g + bg_count g
   then [mkBlockGroup (x + 1) (bg_start g + bg_count g - (x + 1))] else []).

Lemma without_ok g x :
  group_ok g → in_group x g →
  groups_ok (without g x) ∧ Forall (within g) (without g x) ∧
  ∀ y, in_groups y (without g x) ↔ in_group y g ∧ y ≠ x.
Proof.
  intros (?&?&?) Hx. unfold in_group, without, within in *.
  destruct (Z.ltb_spec (bg_start g) x), (Z.ltb_spec (x + 1) (bg_start g + bg_count g));
    cbn; (split; [|split]).
  all: try (intros y; autorewrite with blocks; unfold in_group; cbn; lia).
  all: unfold groups_ok, group_ok, gap; cbn;
    repeat first [split | apply Forall_cons | apply Forall_nil]; cbn; try done; try lia.
Qed.

Lemma mark_used_free x a :
  groups_ok (free a) → is_free a x →
  ∃ l, BlockAllocator_mark_used x a = (Ok tt, set_free l a) ∧ groups_ok l ∧
    ∀ y, in_groups y l ↔ in_groups y (free a) ∧ y ≠ x.
Proof.
  intros Hok Hx. destruct (position (λ g, bool_decide (in_group x g)) (free a))
    as [i|] eqn:Hpos; [|by apply find_group_None in Hpos].
  pose proof (position_split _ _ _ Hpos) as (pre & g & post & Hl & Hi & Hg & _).
  apply bool_decide_eq_true in Hg.
  pose proof (find_group (E:=()) (free a) x (proj1 Hok)) as Hfind. rewrite Hpos in Hfind.
  rewrite Hl in Hok. pose proof (proj1 (groups_ok_middle _ _ _) Hok) as (_ & Hgok & _).
  destruct (without_ok g x Hgok Hg) as (Hw1 & Hw2 & Hw3).
  exists (pre ++ without g x ++ post).
  assert (groups_ok (pre ++ without g x ++ post)) as Hnew by by eapply replace_ok.
  split; [|split; [done|]].
  2:{ intros y. rewrite Hl. apply (replace_in pre g post _ (λ y, y ≠ x)); [done..|].
      destruct (decide (y = x)) as [->|]; [by left|by right]. }
  pose proof Hgok as (?&?&?). unfold in_group in Hg. unfold without in Hnew |- *.
  unfold BlockAllocator_mark_used.
  run. run_ok Hfind. run. rewrite Hl. run_ok vec_get_middle. unfold BlockGroup_count.
  destruct (Z.eqb_spec x (bg_start g)) as [->|Hne].
  - rewrite Z.ltb_irrefl in Hnew |- *. cbn [app] in Hnew |- *.
    destruct (Z.eqb_spec (bg_count g) 1) as [Hone|].
    + rewrite (proj2 (Z.ltb_ge _ _)) in Hnew |- * by lia. cbn [app] in Hnew |- *.
      run_ok vec_remove_middle. run. by apply debug_assert_consistent_ok.
    + rewrite (proj2 (Z.ltb_lt _ _)) in Hnew |- * by lia. cbn [app] in Hnew |- *.
      run_ok LBA_add_ok. run_ok sub_u64_ok. run_ok NonZero_ok.
      run_ok vec_set_middle.
      replace (bg_start g + bg_count g - (bg_start g + 1)) with (bg_count g - 1) in Hnew |- * by lia.
      run. by apply debug_assert_consistent_ok.
  - rewrite (proj2 (Z.ltb_lt (bg_start g) x)) in Hnew |- * by lia.
    run_ok BlockGroup_end_ok.
    destruct (Z.eqb_spec x (bg_start g + bg_count g - 1)) as [Hlast|].
    + rewrite (proj2 (Z.ltb_ge _ _)) in Hnew |- * by lia. cbn [app] in Hnew |- *.
      run_ok sub_u64_ok. run_ok NonZero_ok. run_ok vec_set_middle.
      replace (x - bg_start g) with (bg_count g - 1) in Hnew |- * by lia.
      run. by apply debug_assert_consistent_ok.
    + rewrite (proj2 (Z.ltb_lt _ _)) in Hnew |- * by lia. cbn [app] in Hnew |- *.
      run_ok LBA_sub_ok. run_ok NonZero_ok. run_ok vec_set_middle.
      run_ok LBA_add_ok. run_ok BlockGroup_new_ok. run_ok vec_insert_after.
      replace (bg_start g + bg_count g - 1 + 1 - (x + 1)) with
        (bg_start g + bg_count g - (x + 1)) by lia.
      run. by apply debug_assert_consistent_ok.
Qed.

Lemma mark_used_taken x a :
  groups_ok (free a) → ¬ is_free a x → BlockAllocator_mark_used x a = (Err tt, a).
Proof.
  intros Hok Hx. unfold BlockAllocator_mark_used. run.
  run_ok (find_group (free a) x (proj1 Hok)).
  by rewrite (proj2 (find_group_None _ _)).
Qed.

(** [mark_used] takes exactly the given block out of the free list, whether
    it is the only, the first, the last or an inner block of its group, keeps
    the list sorted and gapped and touches nothing else; for a block that is
    not free it returns an error and changes nothing. It never panics. *)
Theorem mark_used_spec (x : LBA) (a : BlockAllocator) :
  groups_ok (free a) →
  (is_free a x →
     ∃ a', BlockAllocator_mark_used x a = (Ok tt, a') ∧ groups_ok (free a') ∧
       dirty a' = dirty a ∧ on_disk a' = on_disk a ∧ self_on_disk a' = self_on_disk a ∧
       ∀ y, is_free a' y ↔ is_free a y ∧ y ≠ x) ∧
  (¬ is_free a x → BlockAllocator_mark_used x a = (Err tt, a)).
Proof.
  intros Hok. split; [|by apply mark_used_taken].
  intros Hx. destruct (mark_used_free x a Hok Hx) as (l & ? & ? & ?).
  by exists (set_free l a).
Qed.

(** ** [empty] *)

Lemma mark_used_all_ok {E} usage : ∀ a,
  groups_ok (free a) → NoDup usage → Forall (is_free a) usage →
  ∃ l, mark_used_all (E:=E) usage a = Ok (set_free l a) ∧ groups_ok l ∧
    ∀ y, in_groups y l ↔ in_groups y (free a) ∧ y ∉ usage.
Proof.
  induction usage as [|x usage IH]; intros a Hok Hnd Hfree.
  { exists (free a). destruct a; cbn. split; [done|]. split; [done|]. set_solver. }
  apply NoDup_cons in Hnd as [Hx Hnd]. apply Forall_cons in Hfree as [Hfx Hfree].
  destruct (mark_used_free x a Hok Hfx) as (l & Hm & Hlok & Hl). cbn. rewrite Hm.
  destruct (IH (set_free l a)) as (l' & Hr & Hlok' & Hl'); [done..| |].
  { rewrite Forall_forall in Hfree |- *. intros y Hy. apply Hl.
    split; [by apply Hfree|]. by intros ->. }
  exists l'. split; [by rewrite Hr|]. split; [done|].
  intros y. rewrite Hl'. cbn. rewrite Hl. set_solver.
Qed.

Lemma mark_used_all_panic {E} usage : ∀ a,
  groups_ok (free a) → ¬ (NoDup usage ∧ Forall (is_free a) usage) →
  mark_used_all (E:=E) usage a = Panic.
Proof.
  induction usage as [|x usage IH]; intros a Hok Hbad.
  { exfalso. apply Hbad. split; constructor. }
  cbn. destruct (decide (in_groups x (free a))) as [Hx|Hx].
  2:{ by rewrite mark_used_taken. }
  destruct (mark_used_free x a Hok Hx) as (l & -> & Hlok & Hl).
  apply IH; [done|]. intros [Hnd Hfree]. apply Hbad.
  rewrite Forall_forall in Hfree. split.
  - constructor; [|done]. intros Hin. apply Hfree, Hl in Hin. by destruct Hin.
  - constructor; [done|]. apply Forall_forall. intros y Hy. by apply Hl, Hfree.
Qed.

Lemma initial_groups_ok max_lba :
  0 < max_lba < u64_max → groups_ok [BlockGroup_with_count 0 max_lba].
Proof. intros. apply groups_ok_single. unfold group_ok; cbn; lia. Qed.

(** [empty] makes the blocks below [max_lba] free except for the initial
    usage, in a consistent and dirty allocator, provided the initial usage has
    no duplicates and lies below [max_lba]; otherwise it panics. *)
Theorem empty_spec {E} (usage : list LBA) (max_lba : LBA) :
  0 < max_lba < u64_max →
  (NoDup usage ∧ Forall (λ x, 0 ≤ x < max_lba) usage →
     ∃ a, BlockAllocator_empty (E:=E) usage max_lba = Ok a ∧
       groups_ok (free a) ∧ dirty a = true ∧ on_disk a = None ∧ self_on_disk a = [] ∧
       ∀ x, is_free a x ↔ 0 ≤ x < max_lba ∧ x ∉ usage) ∧
  (¬ (NoDup usage ∧ Forall (λ x, 0 ≤ x < max_lba) usage) →
     BlockAllocator_empty (E:=E) usage max_lba = Panic).
Proof.
  intros Hmax. unfold BlockAllocator_empty. rewrite NonZero_ok by lia. cbn [mbind result_bind].
  pose proof (initial_groups_ok max_lba Hmax) as Hinit.
  set (a0 := mkBlockAllocator _ _ _ _).
  assert (∀ x, is_free a0 x ↔ 0 ≤ x < max_lba) as Hfree.
  { intros x. unfold is_free. cbn. autorewrite with blocks. unfold in_group; cbn. intuition lia. }
  split.
  - intros [Hnd Hin]. destruct (mark_used_all_ok (E:=E) usage a0) as (l & Hr & ? & Hl); [done..| |].
    { eapply Forall_impl; [exact Hin|]. intros x. by rewrite Hfree. }
    exists (set_free l a0). do 5 (split; [done|]). intros x. rewrite <- Hfree. apply Hl.
  - intros Hbad. apply mark_used_all_panic; [done|]. intros [Hnd Hin]. apply Hbad.
    split; [done|]. eapply Forall_impl; [exact Hin|]. intros x. by rewrite Hfree.
Qed.

(** ** [allocate_group] *)

Lemma best_group_spec size l : ∀ i best rem,
  (best_group size i l best rem = (best, rem) ∧
     Forall (λ g, bg_count g < size ∨ rem ≤ bg_count g - size) l) ∨
  (∃ pre g post, l = pre ++ g :: post ∧
     best_group size i l best rem = (i + Z.of_nat (length pre), bg_count g - size) ∧
     size ≤ bg_count g ∧ bg_count g - size < rem ∧
     Forall (λ h, bg_count h < size ∨ bg_count g ≤ bg_count h) l).
Proof.
  induction l as [|g l IH]; intros i best rem; [by left|].
  cbn [best_group]. unfold BlockGroup_count.
  assert (∀ rem', rem' ≤ rem →
    (rem' = rem ∧ (bg_count g < size ∨ rem ≤ bg_count g - size)
     ∨ size ≤ bg_count g ∧ rem' = bg_count g - size ∧ rem' < rem) →
    ∀ best', (rem' = rem → best' = best) → (rem' ≠ rem → best' = i) →
    (best_group size (i + 1) l best' rem' = (best, rem) ∧
      Forall (λ g, bg_count g < size ∨ rem ≤ bg_count g - size) (g :: l)) ∨
    (∃ pre g' post, g :: l = pre ++ g' :: post ∧
      best_group size (i + 1) l best' rem' = (i + Z.of_nat (length pre), bg_count g' - size) ∧
      size ≤ bg_count g' ∧ bg_count g' - size < rem ∧
      Forall (λ h, bg_count h < size ∨ bg_count g' ≤ bg_count h) (g :: l))) as Hstep.
  { intros rem' Hle Hrem best' Hb1 Hb2.
    destruct (IH (i + 1) best' rem') as [[Hr Hf]|(pre & g' & post & Hl & Hr & ? & ? & Hf)].
    - destruct Hrem as [[-> Hg]|(Hg & Hr' & Hlt)].
      + left. rewrite Hb1 in Hr |- * by done. split; [done|]. by constructor.
      + right. exists [], g, l. split; [done|]. rewrite Hb2 in Hr |- * by lia.
        rewrite Hr. cbn. split; [f_equal; lia|]. do 2 (split; [lia|]).
        constructor; [lia|]. eapply Forall_impl; [exact Hf|]. cbn. intros; lia.
    - right. exists (g :: pre), g', post. rewrite Hl. split; [done|]. split.
      { rewrite <- Hl, Hr. cbn [length]. f_equal. lia. }
      do 2 (split; [lia|]). rewrite <- Hl. constructor; [lia|done]. }
  destruct (Z.ltb_spec (bg_count g) size); [by apply (Hstep rem); [lia|left; auto|..]|].
  destruct (Z.ltb_spec (bg_count g - size) rem).
  - apply Hstep; [lia|right; lia|lia|done].
  - apply Hstep; [lia|left; lia|done|done].
Qed.

(** Groups ascend, so their number is bounded by the addresses. *)
Lemma groups_ok_index pre g post :
  groups_ok (pre ++ g :: post) → Z.of_nat (length pre) ≤ bg_start g.
Proof.
  revert g post. induction pre as [|h pre IH] using rev_ind; intros g post.
  { intros ((?&_)&_)%groups_ok_cons. done. }
  intros Hok. pose proof Hok as (_&_&Hpre&_)%groups_ok_middle.
  apply Forall_app in Hpre as [_ Hh]. apply Forall_cons in Hh as [Hh _].
  rewrite <- app_assoc in Hok. pose proof Hok as (_&(?&?&?)&_)%groups_ok_middle.
  apply IH in Hok. unfold gap in Hh. rewrite length_app. cbn. lia.
Qed.

(** The part of a group that is left after its first [size] blocks are taken *)
Definition after (g : BlockGroup) (size : Z) : list BlockGroup :=
  if bg_count g =? size then [] else [mkBlockGroup (bg_start g + size) (bg_count g - size)].

Lemma after_ok g size :
  group_ok g → 1 ≤ size ≤ bg_count g →
  groups_ok (after g size) ∧ Forall (within g) (after g size) ∧
  ∀ y, in_groups y (after g size) ↔
    in_group y g ∧ ¬ in_group y (mkBlockGroup (bg_start g) size).
Proof.
  intros (?&?&?) ?. unfold after. destruct (Z.eqb_spec (bg_count g) size).
  - split; [apply groups_ok_nil|]. split; [done|].
    intros y. autorewrite with blocks. unfold in_group; cbn. lia.
  - split; [apply groups_ok_single; unfold group_ok; cbn; lia|].
    split; [repeat constructor; cbn; lia|].
    intros y. autorewrite with blocks. unfold in_group; cbn. lia.
Qed.

(** [allocate_group] fails when no group is large enough, and otherwise takes the
    first blocks of a smallest group that is. *)
Lemma allocate_group_fail {DE} size a :
  1 ≤ size → Forall (λ g, bg_count g < size) (free a) → Forall group_ok (free a) →
  BlockAllocator_allocate_group (DE:=DE) size a = (Err (NoConsecutiveFreeBlocks size), a).
Proof.
  intros Hs Hf Hok. unfold BlockAllocator_allocate_group.
  rewrite (proj2 (Z.geb_le _ _)) by lia. run.
  destruct (best_group_spec size (free a) 0 usize_max u64_max)
    as [[-> _]|(pre & g & post & Hl & _ & Hg & _)]; [done|].
  rewrite Hl in Hf. apply Forall_app in Hf as [_ [? _]%Forall_cons]. lia.
Qed.

Lemma allocate_group_core {DE} size a :
  1 ≤ size → groups_ok (free a) → ¬ Forall (λ g, bg_count g < size) (free a) →
  ∃ pre g post, free a = pre ++ g :: post ∧ size ≤ bg_count g ∧
    Forall (λ h, bg_count h < size ∨ bg_count g ≤ bg_count h) (free a) ∧
    BlockAllocator_allocate_group (DE:=DE) size a =
      (Ok (mkBlockGroup (bg_start g) size),
       set_free (pre ++ after g size ++ post) (set_dirty true a)).
Proof.
  intros Hs Hok Hf. unfold BlockAllocator_allocate_group.
  rewrite (proj2 (Z.geb_le _ _)) by lia. run.
  destruct (best_group_spec size (free a) 0 usize_max u64_max)
    as [[_ Hall]|(pre & g & post & Hl & -> & Hg & _ & Hbest)].
  { exfalso. apply Hf. destruct Hok as [Hgs _]. rewrite Forall_forall in Hall, Hgs |- *.
    intros g Hg. destruct (Hall g Hg); [done|]. destruct (Hgs g Hg) as (?&?&?).
    lia. }
  exists pre, g, post. split; [done|]. split; [done|]. split; [done|].
  pose proof Hok as Hok'. rewrite Hl in Hok'.
  pose proof (groups_ok_index _ _ _ Hok').
  pose proof Hok' as (_ & Hgok & _)%groups_ok_middle. pose proof Hgok as (?&?&?).
  rewrite (proj2 (Z.eqb_neq _ _)) by (unfold usize_max; lia). run.
  replace (Z.to_nat (0 + Z.of_nat (length pre))) with (length pre) by lia.
  unfold after. rewrite Hl.
  destruct (Z.eqb_spec (bg_count g - size) 0), (Z.eqb_spec (bg_count g) size); try lia.
  - run_ok vec_remove_middle. run. destruct g; cbn in *; subst. done.
  - run_ok vec_get_middle. run_ok NonZero_ok. run_ok LBA_add_ok. run_ok NonZero_ok.
    run_ok vec_set_middle. run. rewrite run_bind, debug_assert_consistent_ok; [done|].
    cbn. destruct (after_ok g size Hgok ltac:(lia)) as (H1' & H2' & _).
    unfold after in *. rewrite (proj2 (Z.eqb_neq _ _)) in * by lia.
    by apply (replace_ok pre g post [_]).
Qed.

Lemma allocate_group_free {DE} size a g a' :
  1 ≤ size → groups_ok (free a) →
  BlockAllocator_allocate_group (DE:=DE) size a = (Ok g, a') →
  groups_ok (free a') ∧ bg_count g = size ∧ group_ok g ∧ dirty a' = true ∧
  on_disk a' = on_disk a ∧ self_on_disk a' = self_on_disk a ∧
  (length (free a') ≤ length (free a))%nat ∧
  (∀ x, in_group x g → is_free a x) ∧
  ∀ x, is_free a' x ↔ is_free a x ∧ ¬ in_group x g.
Proof.
  intros Hs Hok Ha. destruct (decide (Forall (λ g, bg_count g < size) (free a))) as [Hf|Hf].
  { rewrite allocate_group_fail in Ha by (done || apply Hok). done. }
  destruct (allocate_group_core (DE:=DE) size a Hs Hok Hf)
    as (pre & h & post & Hl & Hh & _ & Hr). rewrite Hr in Ha. simplify_eq. cbn.
  unfold is_free. cbn. rewrite Hl in Hok |- *.
  pose proof Hok as (_ & Hhok & _)%groups_ok_middle. pose proof Hhok as (?&?&?).
  destruct (after_ok h size Hhok ltac:(lia)) as (H1' & H2' & H3').
  split; [by eapply replace_ok|]. split; [done|].
  split; [unfold group_ok; cbn; lia|]. do 3 (split; [done|]). split.
  { unfold after. destruct (_ =? _); rewrite !length_app; cbn; lia. }
  split.
  - intros x Hx. autorewrite with blocks. right; left. unfold in_group in *; cbn in *. lia.
  - intros x. apply (replace_in pre h post _ (λ x, ¬ in_group x (mkBlockGroup (bg_start h) size)));
      [done..|]. unfold in_group; cbn. lia.
Qed.

(** C13: [allocate_group] returns a contiguous group of the requested size exactly
    when some free group is large enough. The blocks handed out were free and
    are not free any more, nothing else changes, the list stays consistent and
    becomes dirty, and the group is cut from the start of a best fit: no free
    group that is large enough is smaller. On failure nothing changes. *)
Theorem allocate_group_spec {DE} (size : Z) (a : BlockAllocator) :
  1 ≤ size → groups_ok (free a) →
  (Exists (λ g, size ≤ bg_count g) (free a) →
     ∃ g a', BlockAllocator_allocate_group (DE:=DE) size a = (Ok g, a') ∧
       groups_ok (free a') ∧ dirty a' = true ∧ bg_count g = size ∧
       (∀ x, in_group x g → is_free a x) ∧
       (∀ x, is_free a' x ↔ is_free a x ∧ ¬ in_group x g) ∧
       ∃ h, h ∈ free a ∧ bg_start h = bg_start g ∧ size ≤ bg_count h ∧
         Forall (λ k, size ≤ bg_count k → bg_count h ≤ bg_count k) (free a)) ∧
  (¬ Exists (λ g, size ≤ bg_count g) (free a) →
     BlockAllocator_allocate_group (DE:=DE) size a = (Err (NoConsecutiveFreeBlocks size), a)).
Proof.
  intros Hs Hok. split.
  - intros Hex. destruct (allocate_group_core (DE:=DE) size a Hs Hok)
      as (pre & h & post & Hl & Hh & Hbest & Hr).
    { intros Hf. apply Exists_exists in Hex as (k & Hk & ?).
      rewrite Forall_forall in Hf. specialize (Hf k Hk). lia. }
    eexists _, _. split; [exact Hr|].
    destruct (allocate_group_free _ _ _ _ Hs Hok Hr) as (? & ? & ? & ? & ? & ? & ? & ? & ?).
    do 5 (split; [done|]). exists h. split; [rewrite Hl; apply elem_of_app; right; left|]. split; [done|]. split; [done|].
    eapply Forall_impl; [exact Hbest|]. cbn. lia.
  - intros Hex. apply allocate_group_fail; [done| |apply Hok].
    apply Forall_Exists_neg in Hex. eapply Forall_impl; [exact Hex|]. cbn. lia.
Qed.

(** ** [free_group] *)

(** [h] starts behind [g], possibly right behind it *)
Definition above (g h : BlockGroup) : Prop := bg_start g + bg_count g ≤ bg_start h.

(** [g] shares no block with a group of [l] *)
Definition apart (g : BlockGroup) (l : list BlockGroup) : Prop :=
  Forall (λ h, above h g ∨ above g h) l.

Lemma apart_iff g l :
  group_ok g → Forall group_ok l →
  (apart g l ↔ ∀ x, in_group x g → ¬ in_groups x l).
Proof.
  intros (?&?&?) Hl. unfold apart, in_groups. setoid_rewrite Exists_exists.
  rewrite Forall_forall in Hl |- *. unfold above, in_group. split.
  - intros Hap x Hx (h & Hh & Hxh). specialize (Hap h Hh). lia.
  - intros Hdis h Hh. specialize (Hl h Hh) as (?&?&?).
    destruct (decide (bg_start h + bg_count h ≤ bg_start g)); [by left|right].
    destruct (decide (bg_start g + bg_count g ≤ bg_start h)); [done|].
    destruct (Hdis (Z.max (bg_start g) (bg_start h))); [lia|]. exists h. split; [done|lia].
Qed.

(** The three ways the loop can end: the group is appended to one that ends
    right before it, it is inserted before the first group behind it, or it is
    dropped. *)
Inductive free_outcome (l : list BlockGroup) (g : BlockGroup) : list BlockGroup → Prop :=
  | FO_merge pre c post :
      l = pre ++ c :: post → bg_start c + bg_count c = bg_start g → Forall (above g) post →
      free_outcome l g (pre ++ mkBlockGroup (bg_start c) (bg_count c + bg_count g) :: post)
  | FO_insert pre h post :
      l = pre ++ h :: post → Forall (λ k, gap k g) pre → Forall (above g) (h :: post) →
      free_outcome l g (pre ++ g :: h :: post)
  | FO_drop : Forall (λ k, gap k g) l → free_outcome l g l.

Lemma free_outcome_cons k l g l' :
  gap k g → free_outcome l g l' → free_outcome (k :: l) g (k :: l').
Proof.
  intros Hk. destruct 1 as [pre c post -> ? ?|pre h post -> ? ?|?].
  - by apply (FO_merge _ _ (k :: pre)).
  - apply (FO_insert _ _ (k :: pre)); [done|by constructor|done].
  - apply FO_drop. by constructor.
Qed.

Lemma free_group_loop_spec {E} l g :
  groups_ok l → group_ok g → apart g l →
  ∃ l', free_group_loop (E:=E) l g = Ok l' ∧ free_outcome l g l'.
Proof.
  intros Hl Hg. revert Hl. induction l as [|c l IH]; intros Hl Hap.
  { exists []. split; [done|]. by apply FO_drop. }
  apply groups_ok_cons in Hl as (Hc & Hl & Hgap). apply Forall_cons in Hap as [Hcg Hap].
  pose proof Hc as (?&?&?). pose proof Hg as (?&?&?). cbn [free_group_loop].
  unfold above, BlockGroup_count in *. rewrite Z.gtb_ltb.
  destruct (Z.ltb_spec (bg_start g) (bg_start c)).
  { eexists. split; [done|]. apply (FO_insert _ _ []); [done|constructor|].
    constructor; [unfold above; lia|]. eapply Forall_impl; [exact Hgap|].
    unfold gap, above. intros; lia. }
  rewrite BlockGroup_end_ok by done. cbn [mbind result_bind].
  rewrite LBA_add_ok by lia. cbn [mbind result_bind].
  destruct (Z.eqb_spec (bg_start c + bg_count c - 1 + 1) (bg_start g)) as [Heq|Hne].
  - rewrite add_u64_ok by lia. cbn [mbind result_bind].
    rewrite NonZero_ok by lia. cbn [mbind result_bind].
    eexists. split; [done|]. apply (FO_merge _ _ []); [done|lia|].
    apply Forall_forall. intros h Hh. destruct Hl as [Hl _].
    rewrite Forall_forall in Hap, Hgap, Hl.
    specialize (Hap h Hh). specialize (Hgap h Hh). specialize (Hl h Hh) as (?&?&?).
    cbn in *. unfold gap, above in *. lia.
  - rewrite Z.gtb_ltb, (proj2 (Z.ltb_lt _ _)) by lia. cbn [assert_ mbind result_bind].
    destruct (IH Hl Hap) as (l' & Hr & Ho). rewrite Hr. cbn.
    eexists. split; [done|]. apply free_outcome_cons; [unfold gap; lia|done].
Qed.

Lemma above_gap g l :
  Forall group_ok l → ¬ in_groups (bg_start g + bg_count g) l →
  Forall (above g) l → Forall (gap g) l.
Proof.
  intros Hok Hn Hab. rewrite !Forall_forall in *. intros h Hh.
  specialize (Hab h Hh). specialize (Hok h Hh) as (?&?&?). unfold above, gap in *.
  destruct (decide (bg_start h = bg_start g + bg_count g)) as [He|]; [|lia].
  exfalso. apply Hn. apply Exists_exists. exists h. split; [done|]. unfold in_group. lia.
Qed.

(** Without a free block right behind the group the resulting list is
    consistent and has the expected blocks. *)
Lemma free_outcome_ok l g l' :
  groups_ok l → group_ok g → ¬ in_groups (bg_start g + bg_count g) l →
  free_outcome l g l' → groups_ok l'.
Proof.
  intros Hl Hg Hn. destruct 1 as [pre c post -> Hc Hpost|pre h post -> Hpre Hpost|?]; [| |done].
  - pose proof Hl as (Hpp & (?&?&?) & Hpre & _)%groups_ok_middle. destruct Hg as (?&?&?).
    autorewrite with blocks in Hn. apply groups_ok_middle. split; [done|].
    split; [unfold group_ok; cbn; lia|]. split.
    + eapply Forall_impl; [exact Hpre|]. unfold gap; cbn. lia.
    + apply above_gap in Hpost; [|apply groups_ok_app in Hpp; apply Hpp|tauto].
      eapply Forall_impl; [exact Hpost|]. unfold gap; cbn. lia.
  - apply groups_ok_middle. split; [done|]. split; [done|]. split; [done|].
    apply above_gap; [apply groups_ok_app in Hl; apply Hl| |done].
    intros Hin. apply Hn. autorewrite with blocks in *. tauto.
Qed.

Lemma free_outcome_touch l g l' :
  group_ok g → groups_ok l → in_groups (bg_start g + bg_count g) l →
  free_outcome l g l' → Forall group_ok l' ∧ ¬ pairwise gap l'.
Proof.
  intros Hg Hl Hin Ho.
  assert (∀ pre post c', bg_start c' + bg_count c' = bg_start g + bg_count g →
    Forall (above g) post → in_groups (bg_start g + bg_count g) post →
    ¬ pairwise gap (pre ++ c' :: post)) as Hbad.
  { intros pre post c' Hc' Hpost Hin' (_ & [Hp _] & _)%pairwise_app.
    apply Exists_exists in Hin' as (h & Hh & Hxh). rewrite Forall_forall in Hp, Hpost.
    specialize (Hp h Hh). specialize (Hpost h Hh). unfold gap, above, in_group in *. lia. }
  pose proof Hg as (?&?&?).
  destruct Ho as [pre c post -> Hc Hpost|pre h post -> Hpre Hpost|Hd].
  - pose proof Hl as (Hpp & (?&?&?) & Hpre & _)%groups_ok_middle.
    apply groups_ok_app in Hpp as ((?&_)&(?&_)&_).
    split; [apply Forall_app; split; [done|]; constructor; [unfold group_ok; cbn; lia|done]|].
    apply Hbad; [cbn; lia|done|]. autorewrite with blocks in Hin.
    destruct Hin as [Hin|[Hin|Hin]]; [|unfold in_group in Hin; lia|done].
    exfalso. apply Exists_exists in Hin as (k & Hk & Hxk). rewrite Forall_forall in Hpre.
    specialize (Hpre k Hk). cbn in Hpre. unfold gap, in_group in *. lia.
  - destruct Hl as [Hf _]. apply Forall_app in Hf as [? ?].
    split; [apply Forall_app; split; [done|]; by constructor|].
    apply Hbad; [done..|]. apply in_groups_app in Hin as [Hin|Hin]; [|done].
    exfalso. apply Exists_exists in Hin as (k & Hk & Hxk). rewrite Forall_forall in Hpre.
    specialize (Hpre k Hk). cbn in Hpre. unfold gap, in_group in *. lia.
  - exfalso. apply Exists_exists in Hin as (k & Hk & Hxk). rewrite Forall_forall in Hd.
    specialize (Hd k Hk). cbn in Hd. unfold gap, in_group in *. lia.
Qed.

(** A free group ends right before [g], or one starts behind it *)
Definition has_anchor (l : list BlockGroup) (g : BlockGroup) : Prop :=
  in_groups (bg_start g - 1) l ∨ Exists (λ h, bg_start g < bg_start h) l.

#[export] Instance has_anchor_dec l g : Decision (has_anchor l g).
Proof. unfold has_anchor. apply _. Defined.

Lemma free_outcome_union l g l' x :
  group_ok g → Forall group_ok l → has_anchor l g → free_outcome l g l' →
  (in_groups x l' ↔ in_groups x l ∨ in_group x g).
Proof.
  intros (?&?&?) Hl Hanchor. destruct 1 as [pre c post -> Hc _|pre h post -> _ _|Hd].
  - apply Forall_app in Hl as [_ Hl]. apply Forall_cons in Hl as [(?&?&?) _].
    autorewrite with blocks. unfold in_group; cbn. intuition lia.
  - autorewrite with blocks. tauto.
  - exfalso. rewrite Forall_forall in Hd.
    destruct Hanchor as [Hin|Hin]; apply Exists_exists in Hin as (h & Hh & Hx);
      specialize (Hd h Hh); rewrite Forall_forall in Hl; destruct (Hl h Hh) as (?&?&?);
      cbn in *; unfold gap, in_group in *; lia.
Qed.

Lemma free_outcome_lost l g l' :
  group_ok g → Forall group_ok l → ¬ has_anchor l g → free_outcome l g l' → l' = l.
Proof.
  intros (?&?&?) Hl Hanchor. destruct 1 as [pre c post -> Hc _|pre h post -> _ Hp|Hd]; [| |done].
  - exfalso. apply Hanchor. left. autorewrite with blocks. right; left.
    apply Forall_app in Hl as [_ Hl]. apply Forall_cons in Hl as [(?&?&?) _].
    unfold in_group. lia.
  - exfalso. apply Hanchor. right. apply Exists_app. right; left.
    apply Forall_cons in Hp as [Hp _]. unfold above in Hp. lia.
Qed.

Lemma free_group_run {E} g a :
  groups_ok (free a) → group_ok g → apart g (free a) →
  ∃ l', free_outcome (free a) g l' ∧
    BlockAllocator_free_group (E:=E) g a =
      debug_assert_consistent (set_free l' (set_dirty true a)).
Proof.
  intros Hok Hg Hap. unfold BlockAllocator_free_group.
  destruct (free_group_loop_spec (E:=E) (free a) g Hok Hg Hap) as (l' & Hr & Ho).
  exists l'. split; [done|]. run. by run_ok Hr.
Qed.

Lemma free_group_anchored {E} g a :
  groups_ok (free a) → group_ok g → apart g (free a) →
  ¬ is_free a (bg_start g + bg_count g) → has_anchor (free a) g →
  ∃ l', BlockAllocator_free_group (E:=E) g a = (Ok tt, set_free l' (set_dirty true a)) ∧
    groups_ok l' ∧ ∀ x, in_groups x l' ↔ in_groups x (free a) ∨ in_group x g.
Proof.
  intros Hok Hg Hap Hn Hanchor.
  destruct (free_group_run (E:=E) g a Hok Hg Hap) as (l' & Ho & Hr).
  pose proof (free_outcome_ok _ _ _ Hok Hg Hn Ho) as Hok'.
  exists l'. rewrite Hr, debug_assert_consistent_ok by done. split; [done|]. split; [done|].
  intros x. by apply free_outcome_union; [| apply Hok| |].
Qed.

Lemma windows_total {E} l :
  Forall group_ok l →
  ∃ b, windows2_all_r (E:=E) (λ first second,
    past_first_end ← LBA_add (bg_start first) (bg_count first);
    mret (past_first_end <? bg_start second)) l = Ok b.
Proof.
  induction l as [|g [|h l] IH]; [by eexists..|].
  intros [(?&?&?) Hl]%Forall_cons. rewrite windows2_all_r_cons, LBA_add_ok by lia.
  cbn [mbind result_bind mret result_ret].
  destruct (_ <? _); [by apply IH|by eexists].
Qed.

(** C15: [free_group] of a group that shares no block with the free list. With a
    free group right before it or one behind it, and none right behind it, the
    group is added to the free blocks and the list stays consistent. With
    neither a group right before it nor one behind it the group is lost: the
    call succeeds and the free list is what it was. With a free block right
    behind it the two groups are not merged and the consistency assertion at
    the end panics. *)
Theorem free_group_spec {E} (g : BlockGroup) (a : BlockAllocator) :
  groups_ok (free a) → group_ok g → (∀ x, in_group x g → ¬ is_free a x) →
  (¬ is_free a (bg_start g + bg_count g) → has_anchor (free a) g →
     ∃ a', BlockAllocator_free_group (E:=E) g a = (Ok tt, a') ∧ groups_ok (free a') ∧
       dirty a' = true ∧ ∀ x, is_free a' x ↔ is_free a x ∨ in_group x g) ∧
  (¬ has_anchor (free a) g →
     BlockAllocator_free_group (E:=E) g a = (Ok tt, set_dirty true a)) ∧
  (is_free a (bg_start g + bg_count g) →
     fst (BlockAllocator_free_group (E:=E) g a) = Panic).
Proof.
  intros Hok Hg Hdis. pose proof (proj2 (apart_iff g (free a) Hg (proj1 Hok)) Hdis) as Hap.
  split; [|split].
  - intros Hn Hanchor. destruct (free_group_anchored (E:=E) g a) as (l' & ? & ? & ?); [done..|].
    by eexists.
  - intros Hanchor. destruct (free_group_run (E:=E) g a Hok Hg Hap) as (l' & Ho & ->).
    apply free_outcome_lost in Ho as ->; [|done|apply Hok|done].
    rewrite debug_assert_consistent_ok by done. by destruct a.
  - intros Hin. destruct (free_group_run (E:=E) g a Hok Hg Hap) as (l' & Ho & ->).
    destruct (free_outcome_touch _ _ _ Hg Hok Hin Ho) as [Hf Hp].
    destruct (windows_total (E:=E) l' Hf) as [[] Hb]; [by apply windows_gap in Hb|].
    unfold debug_assert_consistent, BlockAllocator_check_consistent. run. cbn. by run_ok Hb.
Qed.

(** ** [allocate] *)

(** Once [remaining_size > group_size] the loop only halves [group_size] until it
    gives up. *)
Lemma allocate_loop_give_up {DE} count rem a : ∀ fuel gs,
  1 ≤ rem → 0 ≤ gs < rem → gs < 2 ^ (Z.of_nat fuel - 1) →
  allocate_loop (DE:=DE) fuel count rem gs [] a = (Err (BlockDeviceFull count), a).
Proof.
  induction fuel as [|fuel IH]; intros gs Hrem Hgs Hf; [cbn in Hf; lia|].
  cbn [allocate_loop]. rewrite !Z.gtb_ltb.
  rewrite (proj2 (Z.ltb_lt 0 rem)) by lia.
  destruct (Z.eqb_spec gs 0); [done|].
  rewrite (proj2 (Z.ltb_lt gs rem)) by lia.
  rewrite Z.shiftr_div_pow2 by lia. change (2 ^ 1) with 2.
  pose proof (Z.div_mod gs 2). pose proof (Z.mod_pos_bound gs 2).
  apply IH; [done|lia|].
  replace (Z.of_nat (S fuel) - 1) with (Z.succ (Z.of_nat fuel - 1)) in Hf by lia.
  destruct (decide (fuel = 0%nat)) as [->|]; [cbn in Hf; lia|].
  rewrite Z.pow_succ_r in Hf by lia. lia.
Qed.

Definition is_pow2 (n : Z) : Prop := n = 2 ^ Z.log2 n.

#[export] Instance is_pow2_dec n : Decision (is_pow2 n).
Proof. unfold is_pow2. apply _. Defined.

Lemma top_bit_bounds count :
  1 ≤ count ≤ u64_max → 1 ≤ 2 ^ Z.log2 count ≤ count ∧ 2 ^ Z.log2 count < 2 ^ 64.
Proof.
  intros Hc. pose proof (Z.log2_spec count ltac:(lia)) as [Hlo _].
  pose proof (Z.log2_nonneg count).
  assert (0 < 2 ^ Z.log2 count) by (apply Z.pow_pos_nonneg; lia).
  unfold u64_max in Hc. change (2 ^ 64) with 18446744073709551616. lia.
Qed.

(** The first round on a power of two *)
Lemma allocate_loop_pow2_fail {DE} fuel count a :
  1 ≤ count → Forall group_ok (free a) → Forall (λ g, bg_count g < count) (free a) →
  count < 2 ^ Z.of_nat fuel →
  allocate_loop (DE:=DE) (S fuel) count count count [] a = (Err (BlockDeviceFull count), a).
Proof.
  intros Hc Hok Hf Hfuel. cbn [allocate_loop].
  rewrite !Z.gtb_ltb, (proj2 (Z.ltb_lt 0 count)) by lia.
  rewrite Z.ltb_irrefl, (proj2 (Z.eqb_neq _ _)) by lia.
  rewrite allocate_group_fail by done.
  rewrite Z.shiftr_div_pow2 by lia. change (2 ^ 1) with 2.
  pose proof (Z.div_mod count 2). pose proof (Z.mod_pos_bound count 2).
  apply allocate_loop_give_up; [lia|lia|].
  destruct fuel as [|fuel]; [cbn in Hfuel; lia|].
  rewrite Nat2Z.inj_succ, Z.pow_succ_r in Hfuel by lia.
  replace (Z.of_nat (S fuel) - 1) with (Z.of_nat fuel) by lia. lia.
Qed.

Lemma allocate_loop_pow2_ok {DE} fuel count a g a' :
  1 ≤ count → BlockAllocator_allocate_group (DE:=DE) count a = (Ok g, a') →
  allocate_loop (DE:=DE) (S (S fuel)) count count count [] a = (Ok [g], a').
Proof.
  intros Hc Hr. cbn [allocate_loop].
  rewrite !Z.gtb_ltb, (proj2 (Z.ltb_lt 0 count)) by lia.
  rewrite Z.ltb_irrefl, (proj2 (Z.eqb_neq _ _)) by lia.
  rewrite Hr. run_ok sub_u64_ok. by rewrite Z.sub_diag.
Qed.

(** What [allocate] does around the loop *)
Lemma allocate_around {DE} count a r :
  1 ≤ count → allocate_loop (DE:=DE) 66 count count (2 ^ Z.log2 count) [] a = r →
  BlockAllocator_allocate (DE:=DE) count a =
    match r with
    | (Ok groups, a) =>
        (n ← lift (BlockGroupList_block_count groups);
         _ ← lift (assert_ (n =? count)); _ ← modify (set_dirty true); mret groups) a
    | (Err e, a) => (Err e, a)
    | (Panic, a) => (Panic, a)
    | (Hang, a) => (Hang, a)
    end.
Proof.
  intros Hc <-. unfold BlockAllocator_allocate.
  generalize 66%nat as fuel. intros fuel. rewrite (proj2 (Z.geb_le _ _)) by lia.
  rewrite Z.shiftl_1_l. by rewrite (run_lift _ _ tt).
Qed.

Lemma allocate_fail {DE} count a :
  1 ≤ count ≤ u64_max → groups_ok (free a) →
  ¬ (is_pow2 count ∧ ¬ Forall (λ g, bg_count g < count) (free a)) →
  BlockAllocator_allocate (DE:=DE) count a = (Err (BlockDeviceFull count), a).
Proof.
  intros Hc Hok Hno. destruct (top_bit_bounds count Hc) as [Hb Hb64].
  apply (allocate_around count a (Err (BlockDeviceFull count), a)); [lia|].
  destruct (decide (is_pow2 count)) as [Hp|Hp].
  - destruct (decide (Forall (λ g, bg_count g < count) (free a))) as [Hf|]; [|tauto].
    rewrite <- Hp. apply allocate_loop_pow2_fail; [lia|apply Hok|done|].
    change (Z.of_nat 65) with (Z.succ 64). rewrite Z.pow_succ_r by lia. unfold is_pow2 in Hp. lia.
  - unfold is_pow2 in Hp. apply allocate_loop_give_up; [lia|lia|].
    change (Z.of_nat 66 - 1) with (Z.succ 64). rewrite Z.pow_succ_r by lia. lia.
Qed.

Lemma allocate_pow2 {DE} count a :
  1 ≤ count ≤ u64_max → groups_ok (free a) → is_pow2 count →
  ¬ Forall (λ g, bg_count g < count) (free a) →
  ∃ g a', BlockAllocator_allocate_group (DE:=DE) count a = (Ok g, a') ∧
    BlockAllocator_allocate (DE:=DE) count a = (Ok [g], a').
Proof.
  intros Hc Hok Hp Hf.
  destruct (allocate_group_core (DE:=DE) count a ltac:(lia) Hok Hf)
    as (pre & h & post & _ & _ & _ & Hr).
  eexists _, _. split; [exact Hr|].
  erewrite allocate_around; [|lia|].
  2:{ rewrite <- Hp. by apply allocate_loop_pow2_ok; [lia|]. }
  assert (BlockGroupList_block_count (E:=FsError DE) [mkBlockGroup (bg_start h) count] = Ok count)
    as Hn.
  { unfold BlockGroupList_block_count. cbn. by rewrite add_u64_ok by lia. }
  cbv beta iota. run_ok Hn. rewrite Z.eqb_refl. by run.
Qed.

Lemma exists_large n l :
  Exists (λ g, n ≤ bg_count g) l ↔ ¬ Forall (λ g, bg_count g < n) l.
Proof.
  split.
  - intros Hex Hall. apply Exists_exists in Hex as (g & Hg & ?).
    rewrite Forall_forall in Hall. specialize (Hall g Hg). lia.
  - intros Hall. destruct (decide (Exists (λ g, n ≤ bg_count g) l)) as [|Hn]; [done|].
    exfalso. apply Hall. apply Forall_Exists_neg in Hn.
    eapply Forall_impl; [exact Hn|]. cbn. lia.
Qed.

(** [allocate] succeeds for exactly those requests that [allocate_group] can
    serve in one piece and whose size is a power of two; it then returns that
    one group. For any other count, three blocks for instance, it returns
    [BlockDeviceFull] and leaves the allocator as it was, however many blocks
    are free: the test [remaining_size > group_size] keeps the loop from ever
    taking a first part. *)
Theorem allocate_exact {DE} (count : Z) (a : BlockAllocator) :
  1 ≤ count ≤ u64_max → groups_ok (free a) →
  (is_pow2 count ∧ Exists (λ g, count ≤ bg_count g) (free a) →
     ∃ g a', BlockAllocator_allocate_group (DE:=DE) count a = (Ok g, a') ∧
       BlockAllocator_allocate (DE:=DE) count a = (Ok [g], a')) ∧
  (¬ (is_pow2 count ∧ Exists (λ g, count ≤ bg_count g) (free a)) →
     BlockAllocator_allocate (DE:=DE) count a = (Err (BlockDeviceFull count), a)).
Proof.
  intros Hc Hok.
  split.
  - intros [Hp Hex]. apply allocate_pow2; [done..|by apply exists_large].
  - intros Hno. apply allocate_fail; [done..|]. by rewrite <- exists_large.
Qed.

Lemma allocate_ok_inv {DE} count a groups a' :
  1 ≤ count ≤ u64_max → groups_ok (free a) →
  BlockAllocator_allocate (DE:=DE) count a = (Ok groups, a') →
  ∃ g, groups = [g] ∧ BlockAllocator_allocate_group (DE:=DE) count a = (Ok g, a').
Proof.
  intros Hc Hok Ha.
  destruct (decide (is_pow2 count)) as [Hp|Hp].
  2:{ rewrite allocate_fail in Ha by (done || tauto). done. }
  destruct (decide (Forall (λ g, bg_count g < count) (free a))) as [Hf|Hf].
  { rewrite allocate_fail in Ha by (done || tauto). done. }
  destruct (allocate_pow2 (DE:=DE) count a) as (g & b & Hg & Hb); [done..|].
  rewrite Hb in Ha. simplify_eq. by exists g.
Qed.

(** What [allocate] hands out was free: when it returns a list of groups, the
    groups have [count] blocks in total, all of them were free before and none
    of them afterwards, no other block changed, and the free list is consistent
    and marked dirty. *)
Theorem allocate_sound {DE} (count : Z) (a : BlockAllocator) (groups : BlockGroupList)
    (a' : BlockAllocator) :
  1 ≤ count ≤ u64_max → groups_ok (free a) →
  BlockAllocator_allocate (DE:=DE) count a = (Ok groups, a') →
  BlockGroupList_block_count (E:=DE) groups = Ok count ∧
  groups_ok (free a') ∧ dirty a' = true ∧
  (∀ x, in_groups x groups → is_free a x) ∧
  ∀ x, is_free a' x ↔ is_free a x ∧ ¬ in_groups x groups.
Proof.
  intros Hc Hok (g & -> & Hg)%allocate_ok_inv; [|done..].
  destruct (allocate_group_free count a g a' ltac:(lia) Hok Hg)
    as (? & Hn & ? & ? & ? & ? & ? & Hin & Hiff).
  split.
  { unfold BlockGroupList_block_count. cbn. rewrite add_u64_ok by (unfold BlockGroup_count; lia).
    cbn. unfold BlockGroup_count. by rewrite Hn. }
  do 2 (split; [done|]). split.
  - intros x. autorewrite with blocks. intros [?|[]]. auto.
  - intros x. autorewrite with blocks. rewrite Hiff. tauto.
Qed.

(** ** The blocks of a list, in order *)

Definition group_blocks (g : BlockGroup) : list LBA := seqZ (bg_start g) (bg_count g).
Fixpoint groups_blocks (l : list BlockGroup) : list LBA :=
  match l with [] => [] | g :: l => group_blocks g ++ groups_blocks l end.

Lemma elem_of_group_blocks x g : x ∈ group_blocks g ↔ in_group x g.
Proof. unfold group_blocks, in_group. by rewrite elem_of_seqZ. Qed.

Lemma elem_of_groups_blocks x l : x ∈ groups_blocks l ↔ in_groups x l.
Proof.
  induction l as [|g l IH]; cbn.
  - rewrite in_groups_nil. by rewrite elem_of_nil.
  - by rewrite elem_of_app, in_groups_cons, elem_of_group_blocks, IH.
Qed.

Lemma NoDup_group_blocks g : NoDup (group_blocks g).
Proof. apply NoDup_seqZ. Qed.

Lemma block_count_from_ok {E} l : ∀ acc,
  Forall group_ok l → acc + Z.of_nat (length (groups_blocks l)) ≤ u64_max →
  block_count_from (E:=E) acc l = Ok (acc + Z.of_nat (length (groups_blocks l))).
Proof.
  induction l as [|g l IH]; intros acc Hl Hb; cbn; [f_equal; lia|].
  apply Forall_cons in Hl as [(?&?&?) Hl]. cbn in Hb. revert Hb.
  unfold group_blocks. rewrite length_app, length_seqZ. intros Hb.
  unfold BlockGroup_count. rewrite add_u64_ok by lia. cbn [mbind result_bind].
  rewrite IH by (done || lia). f_equal. lia.
Qed.

Lemma BlockIter_next_Some {E} g gs i :
  group_ok g → 0 ≤ i < bg_count g →
  BlockIter_next (E:=E) (mkBlockIter gs (Some g) i) =
    Ok (Some (bg_start g + i),
        if i =? bg_count g - 1 then mkBlockIter gs None 0 else mkBlockIter gs (Some g) (i + 1)).
Proof.
  intros (?&?&?) Hi. unfold BlockIter_next, BlockGroup_count. cbn [current_group current_index].
  rewrite (proj2 (Z.ltb_lt _ _)) by lia. cbn [assert_ mbind result_bind].
  rewrite LBA_add_ok by lia. cbn [mbind result_bind]. rewrite sub_u64_ok by lia.
  cbn [mbind result_bind group_iter]. destruct (i =? bg_count g - 1); [done|].
  by rewrite add_u64_ok by lia.
Qed.

Lemma block_iter_step {E} fuel it it' lba l :
  BlockIter_next (E:=E) it = Ok (Some lba, it') → block_iter_collect (E:=E) fuel it' = Ok l →
  block_iter_collect (E:=E) (S fuel) it = Ok (lba :: l).
Proof. intros H1 H2. cbn. rewrite H1. cbn. by rewrite H2. Qed.

Lemma block_iter_in_group {E} g gs rest n : ∀ fuel i,
  group_ok g → 0 ≤ i → bg_count g - i = Z.of_nat (S n) →
  block_iter_collect (E:=E) fuel (mkBlockIter gs None 0) = Ok rest →
  block_iter_collect (E:=E) (S n + fuel) (mkBlockIter gs (Some g) i)
  = Ok (seqZ (bg_start g + i) (bg_count g - i) ++ rest).
Proof.
  induction n as [|n IH]; intros fuel i Hg Hi Hn Hrest;
    rewrite seqZ_cons by lia;
    (eapply block_iter_step; [apply BlockIter_next_Some; [done|lia]|]).
  - rewrite (proj2 (Z.eqb_eq _ _)) by lia. rewrite Hn, Hrest. done.
  - rewrite (proj2 (Z.eqb_neq _ _)) by lia. etrans; [exact (IH fuel (i + 1) Hg ltac:(lia) ltac:(lia) Hrest)|].
    do 3 f_equal; lia.
Qed.

Lemma block_iter_all {E} gs : ∀ fuel,
  Forall group_ok gs → (length (groups_blocks gs) < fuel)%nat →
  block_iter_collect (E:=E) fuel (mkBlockIter gs None 0) = Ok (groups_blocks gs).
Proof.
  induction gs as [|g gs IH]; intros fuel Hgs Hf; cbn [groups_blocks] in *.
  { destruct fuel; [cbn in Hf; lia|done]. }
  apply Forall_cons in Hgs as [Hg Hgs]. pose proof Hg as (?&?&?).
  rewrite length_app in Hf. unfold group_blocks in Hf. rewrite length_seqZ in Hf.
  destruct fuel as [|fuel]; [lia|].
  change (block_iter_collect (S fuel) (mkBlockIter (g :: gs) None 0))
    with (block_iter_collect (E:=E) (S fuel) (mkBlockIter gs (Some g) 0)).
  set (n := (Z.to_nat (bg_count g) - 1)%nat).
  replace (S fuel) with (S n + (fuel - n))%nat by lia.
  rewrite (block_iter_in_group g gs (groups_blocks gs)); [|done|lia|lia|apply IH; [done|lia]].
  unfold group_blocks. by rewrite Z.add_0_r, Z.sub_0_r.
Qed.

(** Iterating over a list of block groups with [block_iter] yields the blocks
    of every group in ascending order, group after group, and then ends; the
    number of blocks is [block_count]. *)
Theorem block_iter_enumerates {E} (groups : BlockGroupList) :
  Forall group_ok groups → Z.of_nat (length (groups_blocks groups)) ≤ u64_max →
  BlockGroupList_blocks (E:=E) groups = Ok (groups_blocks groups) ∧
  BlockGroupList_block_count (E:=E) groups = Ok (Z.of_nat (length (groups_blocks groups))).
Proof.
  intros Hg Hb. unfold BlockGroupList_blocks, BlockGroupList_block_count, BlockGroupList_block_iter.
  rewrite block_count_from_ok by (done || lia). cbn [mbind result_bind].
  split; [|done]. apply block_iter_all; [done|lia].
Qed.

Lemma blocks_single {E} g :
  group_ok g → BlockGroupList_blocks (E:=E) [g] = Ok (group_blocks g).
Proof.
  intros Hg. pose proof Hg as (?&?&?). unfold BlockGroupList_blocks, BlockGroupList_block_count, BlockGroupList_block_iter.
  assert (groups_blocks [g] = group_blocks g) as Hs by apply app_nil_r.
  assert (Z.of_nat (length (group_blocks g)) = bg_count g) as Hl.
  { unfold group_blocks. rewrite length_seqZ. lia. }
  rewrite block_count_from_ok; [|by constructor|rewrite Hs; lia]. cbn [mbind result_bind].
  rewrite block_iter_all; [by rewrite Hs|by constructor|lia].
Qed.

(** ** The theorems at work on a small allocator

    Blocks 10 to 14 and 20 to 29 are free. *)
Definition demo_alloc : BlockAllocator :=
  mkBlockAllocator [mkBlockGroup 10 5; mkBlockGroup 20 10] None [] false.

Lemma demo_alloc_ok : groups_ok (free demo_alloc).
Proof.
  unfold groups_ok, group_ok, gap, u64_max; cbn.
  repeat first [split | apply Forall_cons | apply Forall_nil]; cbn; try done; lia.
Qed.

(** Decides [in_group]/[in_groups] goals and the like on concrete groups. *)
Ltac by_decision := apply (bool_decide_unpack _); vm_compute; exact I.

Lemma check_consistent_iff_witness :
  BlockAllocator_check_consistent (E:=unit) demo_alloc = Ok true ∧ pairwise gap (free demo_alloc).
Proof.
  assert (BlockAllocator_check_consistent (E:=unit) demo_alloc = Ok true) as H by done.
  split; [done|]. apply (check_consistent_iff (E:=unit)); [apply demo_alloc_ok|done].
Defined.

Lemma mark_used_spec_witness :
  (∃ a', BlockAllocator_mark_used 12 demo_alloc = (Ok tt, a') ∧ groups_ok (free a')) ∧
  BlockAllocator_mark_used 15 demo_alloc = (Err tt, demo_alloc).
Proof.
  split.
  - destruct (proj1 (mark_used_spec 12 demo_alloc demo_alloc_ok)) as (a' & ? & ? & _).
    + unfold is_free. by_decision.
    + by exists a'.
  - apply (mark_used_spec 15 demo_alloc demo_alloc_ok). unfold is_free. by_decision.
Defined.

Lemma empty_spec_witness :
  ∃ a, BlockAllocator_empty (E:=unit) [0; 7] 100 = Ok a ∧ is_free a 8 ∧ ¬ is_free a 7.
Proof.
  destruct (proj1 (empty_spec (E:=unit) [0; 7] 100 ltac:(unfold u64_max; lia)))
    as (a & ? & _ & _ & _ & _ & Hf).
  - split; [by_decision|]. repeat constructor; lia.
  - exists a. split; [done|]. rewrite !Hf. set_solver by lia.
Defined.

Lemma allocate_group_spec_witness :
  ∃ g a', BlockAllocator_allocate_group (DE:=unit) 4 demo_alloc = (Ok g, a') ∧ bg_count g = 4.
Proof.
  destruct (proj1 (allocate_group_spec (DE:=unit) 4 demo_alloc ltac:(lia) demo_alloc_ok))
    as (g & a' & ? & _ & _ & ? & _); [by_decision|]. by exists g, a'.
Defined.

Lemma free_group_spec_witness :
  (∃ a', BlockAllocator_free_group (E:=unit) (mkBlockGroup 15 3) demo_alloc = (Ok tt, a') ∧
     ∀ x, is_free a' x ↔ is_free demo_alloc x ∨ in_group x (mkBlockGroup 15 3)) ∧
  BlockAllocator_free_group (E:=unit) (mkBlockGroup 40 3) demo_alloc =
    (Ok tt, set_dirty true demo_alloc) ∧
  fst (BlockAllocator_free_group (E:=unit) (mkBlockGroup 15 5) demo_alloc) = Panic.
Proof.
  assert (∀ s n, 15 ≤ s → 1 ≤ n → s + n ≤ 20 ∨ 30 ≤ s → s + n < 100 →
    group_ok (mkBlockGroup s n) ∧
    ∀ x, in_group x (mkBlockGroup s n) → ¬ is_free demo_alloc x) as H.
  { intros s n ????. split; [unfold group_ok, u64_max; cbn; lia|].
    intros x. unfold is_free; cbn. autorewrite with blocks. unfold in_group; cbn. lia. }
  split; [|split].
  - destruct (H 15 3) as [? ?]; [lia..|].
    destruct (proj1 (free_group_spec (E:=unit) (mkBlockGroup 15 3) demo_alloc demo_alloc_ok
      ltac:(done) ltac:(done))) as (a' & ? & _ & _ & ?).
    + unfold is_free. by_decision.
    + by_decision.
    + by exists a'.
  - destruct (H 40 3) as [? ?]; [lia..|].
    apply (free_group_spec (mkBlockGroup 40 3) demo_alloc demo_alloc_ok); [done..|by_decision].
  - destruct (H 15 5) as [? ?]; [lia..|].
    apply (free_group_spec (mkBlockGroup 15 5) demo_alloc demo_alloc_ok); [done..|].
    unfold is_free. by_decision.
Defined.

Lemma allocate_exact_witness :
  BlockAllocator_allocate (DE:=unit) 3 demo_alloc = (Err (BlockDeviceFull 3), demo_alloc) ∧
  ∃ g a', BlockAllocator_allocate (DE:=unit) 4 demo_alloc = (Ok [g], a').
Proof.
  split.
  - apply (allocate_exact 3 demo_alloc ltac:(unfold u64_max; lia) demo_alloc_ok). by_decision.
  - destruct (proj1 (allocate_exact (DE:=unit) 4 demo_alloc ltac:(unfold u64_max; lia)
      demo_alloc_ok)) as (g & a' & _ & ?); [by_decision|]. by exists g, a'.
Defined.

Lemma allocate_sound_witness :
  ∃ groups a', BlockAllocator_allocate (DE:=unit) 4 demo_alloc = (Ok groups, a') ∧
    ∀ x, is_free a' x ↔ is_free demo_alloc x ∧ ¬ in_groups x groups.
Proof.
  destruct (BlockAllocator_allocate (DE:=unit) 4 demo_alloc) as [[groups| | |] a'] eqn:H;
    [|vm_compute in H; discriminate..].
  exists groups, a'. split; [done|].
  apply (allocate_sound (DE:=unit) 4 demo_alloc groups a' ltac:(unfold u64_max; lia)
    demo_alloc_ok H).
Defined.

Lemma block_iter_enumerates_witness :
  BlockGroupList_blocks (E:=unit) (free demo_alloc) =
    Ok [10; 11; 12; 13; 14; 20; 21; 22; 23; 24; 25; 26; 27; 28; 29].
Proof.
  rewrite (proj1 (block_iter_enumerates (free demo_alloc) (proj1 demo_alloc_ok)
    ltac:(vm_compute; discriminate))). done.
Defined.
