(* ===== verification/FreeListProofs.v ===== *)
(** * The free list on the device: [BlockAllocator::write] and [load]

    Proved against the interface [BlockDeviceLaws]: [write] leaves a linked
    chain of blocks on the device from which [load] rebuilds the free list. *)

From S2P Require Import Prelude BlockDevice FsStructs BlockAllocator BlockAllocatorProofs.
Local Open Scope Z_scope.

Lemma counts_required_for_mono e m n :
  0 < e → 0 ≤ m ≤ n → counts_required_for e m ≤ counts_required_for e n.
Proof.
  intros He Hm. pose proof (counts_required_for_ceil e m He ltac:(lia)).
  pose proof (counts_required_for_ceil e n He ltac:(lia)). nia.
Qed.

(** The number of blocks [write] asks for *)
Definition blocks_for_list (l : list BlockGroup) : Z :=
  counts_required_for (Z.of_nat BLOCK_RANGES_COUNT_PER_BLOCK)
    (Z.max (Z.of_nat (length l)) 1).

Lemma blocks_for_list_bounds l :
  1 ≤ blocks_for_list l ≤ Z.max (Z.of_nat (length l)) 1.
Proof.
  unfold blocks_for_list. change (Z.of_nat BLOCK_RANGES_COUNT_PER_BLOCK) with 250.
  pose proof (counts_required_for_ceil 250 (Z.max (Z.of_nat (length l)) 1)). lia.
Qed.

Lemma groups_ok_length l : groups_ok l → Z.of_nat (length l) ≤ u64_max.
Proof.
  destruct l as [|g l _] using rev_ind; [done|]. intros Hok.
  pose proof (groups_ok_index _ _ _ Hok). pose proof Hok as (_&(?&?&?)&_)%groups_ok_middle.
  rewrite length_app. cbn. lia.
Qed.

Lemma blocks_for_list_u64 l : groups_ok l → 1 ≤ blocks_for_list l ≤ u64_max.
Proof.
  intros Hok%groups_ok_length. pose proof (blocks_for_list_bounds l).
  unfold u64_max in *. lia.
Qed.

(** ** The allocator part *)

(** A call of [free_group] that returns leaves a consistent list, because it ends
    with the assertion. *)
Lemma debug_assert_inv {E} a u a' :
  Forall group_ok (free a) → debug_assert_consistent (E:=E) a = (Ok u, a') →
  a' = a ∧ groups_ok (free a).
Proof.
  intros Hf. unfold debug_assert_consistent, BlockAllocator_check_consistent. run.
  destruct (windows_total (E:=E) (free a) Hf) as [b Hb]. run_ok Hb.
  destruct b; cbn; [|done]. intros [=]. split; [done|]. split; [done|]. by eapply windows_gap.
Qed.

Lemma free_group_loop_groups {E} l g l' :
  Forall group_ok l → group_ok g → free_group_loop (E:=E) l g = Ok l' → Forall group_ok l'.
Proof.
  intros Hl Hg. revert l'. induction Hl as [|c l Hc Hl IH]; intros l'; cbn [free_group_loop].
  { by intros [= <-]. }
  rewrite Z.gtb_ltb. destruct (_ <? _); [intros [= <-]; by repeat (constructor; try done)|].
  pose proof Hc as (?&?&?). pose proof Hg as (?&?&?).
  rewrite BlockGroup_end_ok by done. cbn [mbind result_bind].
  rewrite LBA_add_ok by lia. cbn [mbind result_bind].
  destruct (Z.eqb_spec (bg_start c + bg_count c - 1 + 1) (bg_start g)).
  - intros Hr. inv_ok Hr. injection Hr as <-. apply add_u64_Ok in Hok as [-> ?].
    unfold BlockGroup_count, NonZero in *. destruct (_ =? _); [done|]. simplify_eq.
    constructor; [|done]. unfold group_ok; cbn. lia.
  - intros Hr. inv_ok Hr. injection Hr as <-. constructor; [done|]. eauto.
Qed.

Lemma free_group_keeps {E} g a u a' :
  Forall group_ok (free a) → group_ok g →
  BlockAllocator_free_group (E:=E) g a = (Ok u, a') →
  groups_ok (free a') ∧ on_disk a' = on_disk a ∧ self_on_disk a' = self_on_disk a.
Proof.
  intros Hf Hg. unfold BlockAllocator_free_group. run. rewrite run_bind. cbn [lift].
  destruct (free_group_loop (E:=E) (free (set_dirty true a)) g) as [l| | |] eqn:Hl; try done.
  run. intros Ha. apply free_group_loop_groups in Hl; [|done..].
  apply debug_assert_inv in Ha as [-> ?]; [|done]. done.
Qed.

Lemma free_blocks_keeps {E} l : ∀ a u a',
  groups_ok (free a) → Forall (λ x, 0 ≤ x < u64_max - 1) l →
  free_blocks (E:=E) l a = (Ok u, a') →
  groups_ok (free a') ∧ on_disk a' = on_disk a ∧ self_on_disk a' = self_on_disk a.
Proof.
  induction l as [|x l IH]; intros a u a' Ha Hl; cbn [free_blocks]; [by intros [= _ <-]|].
  apply Forall_cons in Hl as [Hx Hl]. rewrite run_bind. unfold BlockAllocator_free_block.
  destruct (BlockAllocator_free_group (E:=E) (mkBlockGroup x 1) a) as [[u'| | |] a1] eqn:H1;
    try done.
  apply free_group_keeps in H1 as (Hok1 & H1 & H2);
    [|apply Ha|unfold group_ok; cbn; lia].
  intros (?&?&?)%IH; [|done..]. split; [done|]. split; congruence.
Qed.

(** No block becomes free but those of the group. *)
Lemma free_group_loop_sub {E} l g l' x :
  Forall group_ok l → group_ok g → free_group_loop (E:=E) l g = Ok l' →
  in_groups x l' → in_groups x l ∨ in_group x g.
Proof.
  intros Hl Hg. revert l'. induction Hl as [|c l Hc Hl IH]; intros l'; cbn [free_group_loop].
  { intros [= <-]. by left. }
  rewrite Z.gtb_ltb. destruct (_ <? _).
  { intros [= <-]. rewrite in_groups_cons. tauto. }
  pose proof Hc as (?&?&?). pose proof Hg as (?&?&?).
  rewrite BlockGroup_end_ok by done. cbn [mbind result_bind].
  rewrite LBA_add_ok by lia. cbn [mbind result_bind].
  destruct (Z.eqb_spec (bg_start c + bg_count c - 1 + 1) (bg_start g)).
  - intros Hr. inv_ok Hr. injection Hr as <-. apply add_u64_Ok in Hok as [-> ?].
    unfold BlockGroup_count, NonZero in *. destruct (_ =? _); [done|]. simplify_eq.
    rewrite !in_groups_cons. unfold in_group; cbn. intros [|]; [|by left; right].
    destruct (decide (x < bg_start g)); [left; left; lia|right; lia].
  - intros Hr. inv_ok Hr. injection Hr as <-. rewrite !in_groups_cons.
    intros [|Hin]; [by left; left|]. apply IH in Hin; [|done]. tauto.
Qed.

Lemma free_group_sub {E} g a u a' x :
  Forall group_ok (free a) → group_ok g →
  BlockAllocator_free_group (E:=E) g a = (Ok u, a') →
  is_free a' x → is_free a x ∨ in_group x g.
Proof.
  intros Hf Hg. unfold BlockAllocator_free_group. run. rewrite run_bind. cbn [lift].
  destruct (free_group_loop (E:=E) (free (set_dirty true a)) g) as [l| | |] eqn:Hl; try done.
  run. intros Ha. pose proof Hl as Hl'. apply free_group_loop_groups in Hl; [|done..].
  apply debug_assert_inv in Ha as [-> ?]; [|done]. by eapply free_group_loop_sub.
Qed.

Lemma free_blocks_sub {E} l x : ∀ a u a',
  groups_ok (free a) → Forall (λ x, 0 ≤ x < u64_max - 1) l →
  free_blocks (E:=E) l a = (Ok u, a') → is_free a' x → is_free a x ∨ x ∈ l.
Proof.
  induction l as [|y l IH]; intros a u a' Ha Hl; cbn [free_blocks]; [intros [= _ <-]; by left|].
  apply Forall_cons in Hl as [Hy Hl]. rewrite run_bind. unfold BlockAllocator_free_block.
  destruct (BlockAllocator_free_group (E:=E) (mkBlockGroup y 1) a) as [[u'| | |] a1] eqn:H1;
    try done.
  assert (group_ok (mkBlockGroup y 1)) as Hg by (unfold group_ok; cbn; lia).
  pose proof H1 as (Hok1 & _ & _)%free_group_keeps; [|apply Ha|done].
  intros H2 [Hx|Hx]%(IH _ _ _ Hok1 Hl H2); [|by right; right].
  apply (free_group_sub _ _ _ _ _ (proj1 Ha) Hg H1) in Hx as [Hx|Hx]; [by left|].
  assert (x = y) as -> by (unfold in_group in Hx; cbn in Hx; lia). right; left.
Qed.

(** The retry loop of [write] never retries: an allocation does not add groups,
    so the blocks asked for first are enough. *)
Lemma write_allocate_first {DE} fuel a k :
  groups_ok (free a) →
  write_allocate_loop (DE:=DE) (S fuel) (blocks_for_list (free a))
    (Z.max (Z.of_nat (length (free a))) 1) k a =
  BlockAllocator_allocate (blocks_for_list (free a)) a.
Proof.
  intros Hok. pose proof (blocks_for_list_u64 _ Hok) as Hn.
  cbn [write_allocate_loop]. rewrite run_bind.
  destruct (BlockAllocator_allocate (DE:=DE) (blocks_for_list (free a)) a)
    as [[groups| | |] a'] eqn:Ha; [|done..].
  apply allocate_ok_inv in Ha as (g & -> & Ha); [|done..].
  apply allocate_group_free in Ha as (Hok' & Hg & _ & _ & _ & _ & Hlen & _); [|lia|done].
  run. assert (BlockGroupList_block_count (E:=FsError DE) [g] = Ok (blocks_for_list (free a))) as Hc.
  { unfold BlockGroupList_block_count. cbn. unfold BlockGroup_count.
    rewrite Hg, add_u64_ok by lia. done. }
  run_ok Hc. rewrite (proj2 (Z.geb_le _ _)); [done|].
  apply counts_required_for_mono; [done|lia].
Qed.

(** The state [write_prepare] allocates from *)
Lemma write_prepare_inv {DE} a groups new :
  groups_ok (free a) → Forall (λ x, 0 ≤ x < u64_max - 1) (self_on_disk a) →
  write_prepare (DE:=DE) a = (Ok groups, new) →
  ∃ b g, groups_ok (free b) ∧ groups = [g] ∧
    BlockAllocator_allocate_group (DE:=DE) (blocks_for_list (free b)) b = (Ok g, new) ∧
    on_disk b = None ∧ self_on_disk b = [] ∧ (self_on_disk a = [] → free b = free a) ∧
    (∀ x, is_free b x → is_free a x ∨ x ∈ self_on_disk a).
Proof.
  intros Hok Hself. unfold write_prepare.
  rewrite run_bind, debug_assert_consistent_ok by done. run.
  rewrite run_bind. set (a1 := mkBlockAllocator _ _ _ _).
  destruct (free_blocks (E:=FsError DE) (self_on_disk a) a1) as [[u| | |] b] eqn:Hfb; try done.
  run. intros Hw. change (2 + CALC_ALLOC_SIZE_TRY_COUNT)%nat with (S 11) in Hw.
  assert (groups_ok (free b) ∧ on_disk b = None ∧ self_on_disk b = []) as (Hb & ? & ?)
    by by apply free_blocks_keeps in Hfb.
  fold (blocks_for_list (free b)) in Hw. rewrite write_allocate_first in Hw by done.
  apply allocate_ok_inv in Hw as (g & -> & Hg); [|by apply blocks_for_list_u64|done].
  exists b, g. split_and!; [done..| |].
  - intros Hnil. rewrite Hnil in Hfb. cbn in Hfb. by injection Hfb as _ <-.
  - intros x Hx. by apply (free_blocks_sub _ x a1 _ _ Hok Hself Hfb) in Hx.
Qed.

(** ** The device part *)

Section device.
Context {D B DE : Type} `{!BlockDevice D B DE} `{!BlockDeviceLaws D B DE}.
Context `{!BlockConstructable B FreeBlockGroups}.
Implicit Types (d : D) (ls : list LBA) (cs : list (list BlockGroup)).

(** The blocks [ls] hold the pieces [cs], each linked to the next block. *)
Fixpoint chain d ls cs : Prop :=
  match ls, cs with
  | [], [] => True
  | lba :: ls, c :: cs =>
      read_block d lba = Ok (block_data (mkFreeBlockGroups c (head ls))) ∧ chain d ls cs
  | _, _ => False
  end.

Lemma write_spare_chunks ls : ∀ d,
  write_spare ls d =
    (_ ← write_chunks (DE:=DE) (replicate (length ls) []) ls; mret tt) d.
Proof.
  induction ls as [|lba ls IH]; intros d; [done|].
  cbn [write_spare length replicate write_chunks]. rewrite !run_bind.
  destruct (mapM_err _ _ d) as [[]]; [|done..]. by rewrite IH, run_bind.
Qed.

Lemma write_chunks_app cs1 cs2 : ∀ ls d,
  write_chunks (cs1 ++ cs2) ls d =
    (rest ← write_chunks (DE:=DE) cs1 ls; write_chunks cs2 rest) d.
Proof.
  induction cs1 as [|c cs1 IH]; intros ls d; [done|].
  cbn [app write_chunks]. destruct ls as [|lba ls]; [done|].
  rewrite !run_bind. destruct (mapM_err _ _ d) as [[]]; [|done..].
  by rewrite IH, run_bind.
Qed.

(** [write] writes one block per piece of the list, padded with empty pieces. *)
Lemma write_all_pieces cs ls d :
  (length cs ≤ length ls)%nat →
  (rest ← write_chunks (DE:=DE) cs ls; write_spare rest) d =
  (_ ← write_chunks (DE:=DE) (cs ++ replicate (length ls - length cs) []) ls; mret tt) d.
Proof.
  intros Hlen. rewrite !run_bind, write_chunks_app, run_bind.
  destruct (write_chunks cs ls d) as [[rest| | |] d1] eqn:Hw; [|done..].
  assert (length rest = length ls - length cs)%nat as Hrest.
  { clear Hlen. revert ls d Hw. induction cs as [|c cs IH]; intros ls d; cbn [write_chunks].
    - intros [= -> _]. cbn. lia.
    - destruct ls as [|lba ls]; [done|]. rewrite run_bind.
      destruct (mapM_err _ _ d) as [[]]; [|done..]. intros ->%IH. cbn. lia. }
  rewrite write_spare_chunks, Hrest, run_bind. done.
Qed.

Lemma write_chunks_chain cs : ∀ ls d rest d',
  length ls = length cs → NoDup ls →
  write_chunks (DE:=DE) cs ls d = (Ok rest, d') →
  chain d' ls cs ∧ ∀ x, x ∉ ls → read_block d' x = read_block d x.
Proof.
  induction cs as [|c cs IH]; intros [|lba ls] d rest d' Hlen Hnd Hw; cbn in Hlen; try lia.
  { cbn in Hw. by injection Hw as _ <-. }
  apply NoDup_cons in Hnd as [Hlba Hnd]. cbn [write_chunks] in Hw. rewrite run_bind in Hw.
  unfold mapM_err in Hw.
  destruct (write_block lba _ d) as [[[]| | |] d1] eqn:H1; cbn in Hw; try done.
  apply write_block_read in H1 as [Hr1 Hr2].
  destruct (IH ls d1 rest d') as [Hc Hk]; [lia|done..|].
  cbn [chain]. split; [split; [by rewrite Hk|done]|].
  intros x [Hx1 Hx2]%not_elem_of_cons. by rewrite Hk, Hr2.
Qed.

(** [load] follows a chain to its end. *)
Lemma load_chain d ls : ∀ cs fuel fr sd,
  chain d ls cs → (length ls ≤ fuel)%nat →
  load_loop (DE:=DE) fuel d (head ls) fr sd = Ok (fr ++ concat cs, sd ++ ls).
Proof.
  induction ls as [|lba ls IH]; intros [|c cs] fuel fr sd Hc Hf; try done.
  { destruct fuel; cbn; by rewrite !app_nil_r. }
  destruct Hc as [Hr Hc]. destruct fuel as [|fuel]; cbn in Hf; [lia|].
  cbn [load_loop head]. unfold read_pointer. rewrite Hr. cbn [mbind result_bind mret result_ret].
  rewrite from_block_data. cbn [fbg_next fbg_free].
  rewrite (IH cs) by (done || lia). cbn [concat]. by rewrite <- !app_assoc.
Qed.

Lemma concat_replicate_nil {A} n : concat (replicate n ([] : list A)) = [].
Proof. by induction n. Qed.

Lemma chunks_fit (l : list BlockGroup) n :
  counts_required_for (Z.of_nat BLOCK_RANGES_COUNT_PER_BLOCK) (Z.of_nat (length l)) ≤ n →
  Z.of_nat (length (chunks BLOCK_RANGES_COUNT_PER_BLOCK l)) ≤ n.
Proof.
  intros Hn. pose proof (chunks_length BLOCK_RANGES_COUNT_PER_BLOCK l ltac:(cbv; lia)) as Hl.
  change (Z.of_nat BLOCK_RANGES_COUNT_PER_BLOCK) with 250 in Hn.
  change BLOCK_RANGES_COUNT_PER_BLOCK with 250%nat in Hl |- *.
  rewrite <- (counts_required_for_unique 250 _ (Z.of_nat (length (chunks 250 l)))) in Hn; lia.
Qed.

(** What is on the device after the writes of [write] *)
Lemma write_run a d ptr a' d' :
  groups_ok (free a) → Forall (λ x, 0 ≤ x < u64_max - 1) (self_on_disk a) →
  BlockAllocator_write (DE:=DE) a d = (Ok (ptr, a'), d') →
  ∃ b g new, groups_ok (free b) ∧
    BlockAllocator_allocate_group (DE:=DE) (blocks_for_list (free b)) b = (Ok g, new) ∧
    (self_on_disk a = [] → free b = free a) ∧
    a' = set_dirty false new ∧ on_disk a' = None ∧ self_on_disk a' = [] ∧
    ptr = bg_start g ∧ groups_ok (free a') ∧ group_ok g ∧
    (∀ x, in_group x g → is_free b x ∧ ¬ is_free a' x) ∧
    (∀ x, ¬ in_group x g → read_block d' x = read_block d x) ∧
    (∃ cs, chain d' (group_blocks g) cs ∧ concat cs = free a') ∧
    (∀ x, is_free b x → is_free a x ∨ x ∈ self_on_disk a).
Proof.
  intros Hok Hself. unfold BlockAllocator_write.
  destruct (write_prepare (DE:=DE) a) as [[groups| | |] new] eqn:Hprep; try done.
  apply write_prepare_inv in Hprep as (b & g & Hb & -> & Hg & Hod & Hsod & Hfree & Hsub); [|done..].
  pose proof (blocks_for_list_u64 _ Hb).
  pose proof Hg as (Hnew & Hcount & Hgok & _ & Hod' & Hsod' & Hlen & Hin & Hiff)%allocate_group_free;
    [|lia|done].
  run. run_ok (blocks_single g Hgok).
  pose proof Hgok as (?&?&?).
  assert (Z.of_nat (length (group_blocks g)) = bg_count g) as Hgl.
  { unfold group_blocks. rewrite length_seqZ. lia. }
  assert (head (group_blocks g) = Some (bg_start g)) as Hhead.
  { unfold group_blocks. by rewrite seqZ_cons by lia. }
  rewrite Hhead. run.
  assert (length (chunks BLOCK_RANGES_COUNT_PER_BLOCK (free new)) ≤ length (group_blocks g))%nat
    as Hfit.
  { apply Nat2Z.inj_le. rewrite Hgl, Hcount. apply chunks_fit, counts_required_for_mono; [done|].
    lia. }
  pose proof (write_all_pieces _ _ d Hfit) as Hw.
  set (cs := chunks _ _ ++ replicate _ []) in *.
  rewrite run_bind in Hw. rewrite run_bind.
  destruct (write_chunks (chunks _ _) (group_blocks g) d) as [[rest2| | |] d2]; try done.
  rewrite run_bind in Hw. rewrite run_bind. rewrite Hw.
  destruct (write_chunks cs (group_blocks g) d) as [[rest| | |] d1] eqn:Hw1; try done.
  cbn. intros [= <- <- <-].
  exists b, g, new. cbn. rewrite Hod', Hsod', Hod, Hsod. split_and!; try done.
  - intros x Hx. split; [by apply Hin|]. unfold is_free; cbn. intros [_ []]%Hiff. done.
  - intros x Hx. eapply write_chunks_chain in Hw1 as [_ Hk].
    + apply Hk. by rewrite elem_of_group_blocks.
    + unfold cs. rewrite length_app, length_replicate. lia.
    + apply NoDup_group_blocks.
  - exists cs. split.
    + eapply write_chunks_chain in Hw1 as [Hc _]; [done| |apply NoDup_group_blocks].
      unfold cs. rewrite length_app, length_replicate. lia.
    + unfold cs. rewrite concat_app, concat_replicate_nil, app_nil_r.
      by apply chunks_concat; cbv; lia.
Qed.

Lemma chain_same d d' ls cs :
  (∀ x, x ∈ ls → read_block d' x = read_block d x) → chain d ls cs → chain d' ls cs.
Proof.
  revert cs. induction ls as [|lba ls IH]; intros [|c cs] Hs; [done..|]. intros [Hr Hc].
  split; [by rewrite Hs by left|]. apply IH; [|done]. intros x Hx. apply Hs. by right.
Qed.

(** Where the list goes, and that [load] finds it there as long as its blocks keep
    their contents *)
Lemma write_load a d ptr a' d' :
  groups_ok (free a) → Forall (λ x, 0 ≤ x < u64_max - 1) (self_on_disk a) →
  BlockAllocator_write (DE:=DE) a d = (Ok (ptr, a'), d') →
  groups_ok (free a') ∧ dirty a' = false ∧ self_on_disk a' = [] ∧
  ∃ g, ptr = bg_start g ∧ group_ok g ∧
    (∀ x, in_group x g → (is_free a x ∨ x ∈ self_on_disk a) ∧ ¬ is_free a' x) ∧
    (∀ x, ¬ in_group x g → read_block d' x = read_block d x) ∧
    (∀ fuel d2, (length (group_blocks g) ≤ fuel)%nat →
     (∀ x, in_group x g → read_block d2 x = read_block d' x) →
     BlockAllocator_load (DE:=DE) fuel d2 ptr =
       Ok (mkBlockAllocator (free a') (Some ptr) (group_blocks g) false)).
Proof.
  intros Hok Hself Hw. apply write_run in Hw
    as (b & g & new & Hb & Hg & Hfree & Ha' & Hod & Hsod & -> & Hok' & Hgok & Hin & Hout &
        (cs & Hc & Hcs) & Hsub); [|done..].
  split; [done|]. split; [by subst|]. split; [done|].
  exists g. do 2 (split; [done|]). split; [intros x []%Hin; auto|]. split; [done|].
  intros fuel d2 Hf Hsame. unfold BlockAllocator_load.
  assert (head (group_blocks g) = Some (bg_start g)) as <-.
  { destruct Hgok as (?&?&?). unfold group_blocks. by rewrite seqZ_cons by lia. }
  rewrite (load_chain _ _ cs); [|eapply chain_same; [|exact Hc]|done].
  - cbn [mbind result_bind app]. rewrite Hcs. by rewrite check_consistent_ok by done.
  - intros x Hx%elem_of_group_blocks. by apply Hsame.
Qed.

(** A device that accepts writes to the blocks [P], now and after such writes *)
Definition accepts (good : D → Prop) (P : LBA → Prop) : Prop :=
  ∀ d x b, good d → P x → ∃ d', write_block x b d = (Ok tt, d') ∧ good d'.

Lemma write_chunks_total good P cs : ∀ ls d,
  (length cs ≤ length ls)%nat → accepts good P → good d → Forall P ls →
  ∃ rest d', write_chunks (DE:=DE) cs ls d = (Ok rest, d') ∧ good d' ∧ Forall P rest.
Proof.
  induction cs as [|c cs IH]; intros ls d Hlen Hacc Hd Hls; cbn [write_chunks].
  { by exists ls, d. }
  destruct ls as [|lba ls]; [cbn in Hlen; lia|]. apply Forall_cons in Hls as [Hlba Hls].
  destruct (Hacc d lba (block_data (mkFreeBlockGroups c (head ls)))) as (d1 & H1 & ?); [done..|].
  rewrite run_bind. unfold mapM_err. rewrite H1. cbn.
  apply IH; [cbn in Hlen; lia|done..].
Qed.

Lemma write_spare_total good P ls d :
  accepts good P → good d → Forall P ls → ∃ d', write_spare (DE:=DE) ls d = (Ok tt, d').
Proof.
  intros Hacc Hd Hls. rewrite write_spare_chunks, run_bind.
  destruct (write_chunks_total good P (replicate (length ls) []) ls d) as (rest & d' & -> & _);
    [by rewrite length_replicate|done..|]. by exists d'.
Qed.

Lemma write_prepare_clean a :
  groups_ok (free a) → self_on_disk a = [] →
  write_prepare (DE:=DE) a =
    BlockAllocator_allocate (blocks_for_list (free a))
      (mkBlockAllocator (free a) None [] (dirty a)).
Proof.
  intros Hok Hself. unfold write_prepare.
  rewrite run_bind, debug_assert_consistent_ok by done. run. rewrite Hself. cbn [free_blocks]. run.
  change (2 + CALC_ALLOC_SIZE_TRY_COUNT)%nat with (S 11).
  by apply (write_allocate_first 11 (mkBlockAllocator (free a) None [] (dirty a))).
Qed.
End device.

(** C9: the free list survives a trip to the device. When [write] returns the
    pointer [ptr], the blocks of one contiguous group that was free and no
    longer is hold the list, every other block of the device is unchanged, and
    [load] of [ptr] (with fuel for that many blocks) returns an allocator with
    the same free list that records those blocks as its own. The allocator in
    memory does not record them: its [self_on_disk] is empty. *)
Theorem write_load_roundtrip {D B DE : Type} `{!BlockDevice D B DE} `{!BlockDeviceLaws D B DE}
    `{!BlockConstructable B FreeBlockGroups} (a : BlockAllocator) (d : D) (ptr : LBA)
    (a' : BlockAllocator) (d' : D) :
  groups_ok (free a) → Forall (λ x, 0 ≤ x < u64_max - 1) (self_on_disk a) →
  BlockAllocator_write (DE:=DE) a d = (Ok (ptr, a'), d') →
  groups_ok (free a') ∧ dirty a' = false ∧ self_on_disk a' = [] ∧
  ∃ g, ptr = bg_start g ∧ group_ok g ∧
    (∀ x, in_group x g → ¬ is_free a' x) ∧
    (∀ x, ¬ in_group x g → read_block d' x = read_block d x) ∧
    (∀ fuel, (length (group_blocks g) ≤ fuel)%nat →
     BlockAllocator_load (DE:=DE) fuel d' ptr =
       Ok (mkBlockAllocator (free a') (Some ptr) (group_blocks g) false)).
Proof.
  intros Hok Hself Hw.
  apply write_load in Hw as (? & ? & ? & g & ? & ? & Hin & Hout & Hload); [|done..].
  do 3 (split; [done|]). exists g. do 2 (split; [done|]). split; [by intros x []%Hin|].
  split; [done|]. intros fuel Hf. by apply Hload.
Qed.

(** When [write] works. For an allocator that records no blocks of its own
    (a new one, and every one that was written since it was loaded) and a device
    that accepts writes to free blocks, [write] succeeds exactly when the number
    of blocks the list needs is a power of two and some free group has that
    many blocks; otherwise it returns [BlockDeviceFull] before anything is
    written. The loop that retries with more blocks is never needed. *)
Theorem write_outcome {D B DE : Type} `{!BlockDevice D B DE} `{!BlockDeviceLaws D B DE}
    `{!BlockConstructable B FreeBlockGroups} (a : BlockAllocator) (good : D → Prop) (d : D) :
  groups_ok (free a) → self_on_disk a = [] → accepts good (is_free a) → good d →
  (is_pow2 (blocks_for_list (free a)) ∧
     Exists (λ g, blocks_for_list (free a) ≤ bg_count g) (free a) →
   ∃ ptr a' d', BlockAllocator_write (DE:=DE) a d = (Ok (ptr, a'), d')) ∧
  (¬ (is_pow2 (blocks_for_list (free a)) ∧
      Exists (λ g, blocks_for_list (free a) ≤ bg_count g) (free a)) →
   BlockAllocator_write (DE:=DE) a d = (Err (BlockDeviceFull (blocks_for_list (free a))), d)).
Proof.
  intros Hok Hself Hacc Hd. pose proof (blocks_for_list_u64 _ Hok) as Hn.
  unfold BlockAllocator_write. rewrite write_prepare_clean by done.
  set (a1 := mkBlockAllocator _ _ _ _).
  rewrite exists_large. split.
  - intros [Hp Hf]. destruct (allocate_pow2 (DE:=DE) (blocks_for_list (free a)) a1)
      as (g & new & Hg & ->); [done..|].
    apply allocate_group_free in Hg as (Hnew & Hcount & Hgok & _ & _ & _ & Hlen & Hin & _);
      [|lia|done].
    pose proof Hgok as (?&?&?). run. run_ok (blocks_single g Hgok).
    assert (Forall (is_free a) (group_blocks g)) as Hfree.
    { apply Forall_forall. intros x Hx. apply Hin. by apply elem_of_group_blocks. }
    replace (head (group_blocks g)) with (Some (bg_start g))
      by (unfold group_blocks; by rewrite seqZ_cons by lia). run.
    destruct (write_chunks_total good (is_free a)
      (chunks BLOCK_RANGES_COUNT_PER_BLOCK (free new)) (group_blocks g) d)
      as (rest & d1 & Hw & Hd1 & Hrest); [|done..|].
    { apply Nat2Z.inj_le. unfold group_blocks at 1. rewrite length_seqZ, Z2Nat.id, Hcount by lia.
      apply chunks_fit, counts_required_for_mono; [done|]. cbn in Hlen. lia. }
    rewrite run_bind, Hw, run_bind.
    destruct (write_spare_total (DE:=DE) good (is_free a) rest d1) as [d2 ->]; [done..|].
    by eexists _, _, _.
  - intros Hno. rewrite allocate_fail by done. done.
Qed.

(** ** The theorems at work on an empty device of 100 blocks *)

Definition demo_device : MemDevice FsBlock := mkMemDevice 100 ∅ (FB_Raw []).

Lemma write_load_roundtrip_witness :
  ∃ ptr a' d' own fuel, BlockAllocator_write demo_alloc demo_device = (Ok (ptr, a'), d') ∧
    BlockAllocator_load fuel d' ptr = Ok (mkBlockAllocator (free a') (Some ptr) own false).
Proof.
  destruct (BlockAllocator_write (DE:=unit) demo_alloc demo_device) as [[[ptr a']| | |] d'] eqn:H;
    [|vm_compute in H; discriminate..].
  destruct (write_load_roundtrip demo_alloc demo_device ptr a' d' demo_alloc_ok
    (Forall_nil_2 _) H) as (_ & _ & _ & g & Hptr & Hg & _ & _ & Hload).
  exists ptr, a', d', (group_blocks g), (length (group_blocks g)).
  split; [done|]. by apply Hload.
Defined.

Lemma write_outcome_witness :
  ∃ ptr a' d', BlockAllocator_write (DE:=unit) demo_alloc demo_device = (Ok (ptr, a'), d').
Proof.
  apply (write_outcome (DE:=unit) demo_alloc (λ d, dev_size d = 100) demo_device
    demo_alloc_ok eq_refl); [|done|by_decision].
  intros d x b Hd Hx. cbn. unfold mem_write. rewrite Hd.
  unfold is_free in Hx; cbn in Hx. autorewrite with blocks in Hx. unfold in_group in Hx; cbn in Hx.
  rewrite (proj2 (Z.leb_le _ _)), (proj2 (Z.ltb_lt _ _)) by lia. by eexists.
Defined.
