(* ===== verification/IterExt.v ===== *)
(** * [libs/shared/src/iter.rs]: [with_positions] and [peeked]

    The underlying iterator is the list of the items it still yields, so a
    [Peekable] over it is that list as well. *)

From S2P Require Import Prelude.

Section iter.
Context {A : Type}.

(** ** [with_positions] *)

Record PositionInfo := mkPositionInfo
  { pi_index : nat; pi_first : bool; pi_last : bool; pi_item : A }.

Record WithPositionIter := mkWithPositionIter
  { wp_iter : list A; wp_is_first : bool; wp_index : nat }.

Definition with_positions (iter : list A) : WithPositionIter := mkWithPositionIter iter true 0.

Definition WithPositionIter_next (self : WithPositionIter)
    : option (PositionInfo * WithPositionIter) :=
  match wp_iter self with
  | [] => None
  | item :: iter =>
      Some (mkPositionInfo (wp_index self) (wp_is_first self)
              (match head iter with None => true | Some _ => false end) item,
            mkWithPositionIter iter false (S (wp_index self)))
  end.

Fixpoint WithPositionIter_collect (fuel : nat) (self : WithPositionIter) : list PositionInfo :=
  match fuel with
  | O => []
  | S fuel =>
      match WithPositionIter_next self with
      | None => []
      | Some (i, self) => i :: WithPositionIter_collect fuel self
      end
  end.

(** ** [peeked] *)

Definition Peeked : Type := list A.

Definition Peeked_next (self : Peeked) : option ((A * option A) * Peeked) :=
  match self with
  | [] => None
  | current :: self => Some ((current, head self), self)
  end.

Fixpoint Peeked_collect (self : Peeked) : list (A * option A) :=
  match self with
  | [] => []
  | current :: self => (current, head self) :: Peeked_collect self
  end.

(** ** What the iterators yield *)

Lemma Peeked_collect_lookup (l : list A) i :
  Peeked_collect l !! i = x ← l !! i; Some (x, l !! S i).
Proof.
  revert i. induction l as [|x l IH]; intros [|i]; cbn; [done..| |by rewrite IH].
  by destruct l.
Qed.

Lemma Peeked_collect_length l : length (Peeked_collect l) = length l.
Proof. induction l; cbn; auto. Qed.

Lemma with_positions_from l : ∀ fuel f k i,
  length l ≤ fuel →
  WithPositionIter_collect fuel (mkWithPositionIter l f k) !! i =
    x ← l !! i;
    Some (mkPositionInfo (k + i) (match i with O => f | _ => false end)
            (bool_decide (S i = length l)) x).
Proof.
  induction l as [|x l IH]; intros fuel f k i Hf; [by destruct fuel|].
  destruct fuel as [|fuel]; cbn in Hf; [lia|].
  cbn. destruct i as [|i]; cbn.
  - rewrite Nat.add_0_r. do 2 f_equal. by destruct l.
  - rewrite IH by lia. destruct (l !! i); cbn; [|done].
    do 2 f_equal; [lia|by destruct i|].
    apply bool_decide_ext. lia.
Qed.
End iter.
Arguments PositionInfo : clear implicits.
Arguments WithPositionIter : clear implicits.

(** [with_positions] yields the items in order, numbered from 0, with the
    [first] flag on the first and the [last] flag on the last item only, and
    [peeked] yields every item with the item after it. *)
Theorem iterators_positions {A} (l : list A) (i : nat) (x : A) :
  l !! i = Some x →
  WithPositionIter_collect (length l) (with_positions l) !! i =
    Some (mkPositionInfo i (bool_decide (i = 0)) (bool_decide (S i = length l)) x) ∧
  Peeked_collect l !! i = Some (x, l !! S i).
Proof.
  intros Hx. unfold with_positions.
  rewrite with_positions_from, Peeked_collect_lookup by done. rewrite !Hx.
  split; [by destruct i|done].
Qed.

Lemma iterators_positions_witness :
  WithPositionIter_collect 3 (with_positions [10; 20; 30]) !! 2 =
    Some (mkPositionInfo 2 false true 30).
Proof. exact (proj1 (iterators_positions [10; 20; 30] 2 30 eq_refl)). Defined.
