(* ===== verification/MemStructs.v ===== *)
(** * [modules/wasabi-fs/src/mem_structs.rs]: block lists and file nodes in memory

    [BlockList] with its partial iterator and its transfer to and from the
    device, [BlockListAccess], and [FileNode]. The directory part of the file
    needs the strings of the file system and is in [FsStrings]. A [ReadWriteCell] that is only
    locked for the duration of a call is its contents. *)

From S2P Require Import Prelude BlockDevice FsStructs BlockAllocator IterExt.
Local Open Scope Z_scope.

(** ** [BlockList] *)

Inductive BlockList :=
  | BL_Single (group : BlockGroup)
  | BL_Vec (groups : list BlockGroup).

#[export] Instance BlockList_eq_dec : EqDecision BlockList.
Proof. solve_decision. Defined.

Definition BlockList_as_slice (self : BlockList) : list BlockGroup :=
  match self with BL_Single group => [group] | BL_Vec groups => groups end.

Definition BlockList_block_count {E} (self : BlockList) : result E Z :=
  block_count_from 0 (BlockList_as_slice self).

Definition BlockList_single {E} (self : BlockList) : result E BlockGroup :=
  _ ← assert_ (length (BlockList_as_slice self) =? 1)%nat;
  vec_get (BlockList_as_slice self) 0.

Definition BlockList_push (self : BlockList) (group : BlockGroupList) : BlockList :=
  match self with
  | BL_Single first => BL_Vec (first :: group)
  | BL_Vec vec => BL_Vec (vec ++ group)
  end.

(** [From<LBA> for BlockList] *)
Definition BlockList_from_LBA {E} (value : LBA) : result E BlockList :=
  g ← BlockGroup_new value value; mret (BL_Single g).

(** ** Partial iteration *)

Record PartialBlockGroup := mkPartialBlockGroup
  { pbg_group : BlockGroup; pbg_offset : Z; pbg_len : Z }.

Record BlockListPartialIter := mkPartialIter
  { pi_group_iter : list BlockGroup; skip_bytes : Z; remaining_bytes : Z }.

Definition BlockList_iter_partial (self : BlockList) (byte_offset bytes : Z)
    : BlockListPartialIter :=
  mkPartialIter (BlockList_as_slice self) byte_offset bytes.

(** The part of [next] after the group to yield is found: [offset] is the offset
    into its first block. *)
Definition partial_finish {E} (current_group : BlockGroup) (offset remaining : Z)
    (groups : list BlockGroup)
    : result E (option PartialBlockGroup * BlockListPartialIter) :=
  bytes ← BlockGroup_bytes current_group BLOCK_SIZE;
  '(current_group, len) ←
    (if remaining <? bytes then
       o ← BlockGroup_with_new_length current_group (blocks_required_for remaining);
       g ← expect o;
       mret (g, remaining)
     else mret (current_group, bytes));
  _ ← assert_ (remaining >=? len);
  let remaining := remaining - len in
  bytes ← BlockGroup_bytes current_group BLOCK_SIZE;
  e ← add_u64 offset len;
  _ ← assert_ (e <=? bytes);
  mret (Some (mkPartialBlockGroup current_group offset len),
        mkPartialIter groups 0 remaining).

(** [BlockListPartialIter::next]: the [while let] loop over the groups *)
Fixpoint partial_next {E} (groups : list BlockGroup) (skip remaining : Z)
    : result E (option PartialBlockGroup * BlockListPartialIter) :=
  match groups with
  | [] => mret (None, mkPartialIter [] skip remaining)
  | current_group :: groups =>
      bytes ← BlockGroup_bytes current_group BLOCK_SIZE;
      if skip >=? bytes then partial_next groups (skip - bytes) remaining
      else if skip >? 0 then
        o ← BlockGroup_subgroup current_group (skip / BLOCK_SIZE);
        current_group ← expect o;
        partial_finish current_group (skip mod BLOCK_SIZE) remaining groups
      else partial_finish current_group 0 remaining groups
  end.

Definition PartialIter_next {E} (self : BlockListPartialIter)
    : result E (option PartialBlockGroup * BlockListPartialIter) :=
  partial_next (pi_group_iter self) (skip_bytes self) (remaining_bytes self).

(** Running the iterator to its end; every call takes at least one group, so the
    fuel is one more than their number. *)
Fixpoint partial_collect {E} (fuel : nat) (it : BlockListPartialIter)
    : result E (list PartialBlockGroup) :=
  match fuel with
  | O => Hang
  | S fuel =>
      '(o, it) ← PartialIter_next it;
      match o with
      | None => mret []
      | Some p => l ← partial_collect fuel it; mret (p :: l)
      end
  end.

Definition PartialIter_all {E} (it : BlockListPartialIter) : result E (list PartialBlockGroup) :=
  partial_collect (S (length (pi_group_iter it))) it.

(** ** [BlockListAccess] and [FileNode] *)

Inductive BlockListAccess :=
  | OnDevice (head : BlockListHead)
  | InMem (list_ : BlockList)
  | Both (list_ : BlockList) (head : BlockListHead).

#[export] Instance BlockListAccess_eq_dec : EqDecision BlockListAccess.
Proof. solve_decision. Defined.

Definition BlockListAccess_get_list {E} (self : BlockListAccess) : result E BlockList :=
  match self with
  | OnDevice _ => Panic
  | InMem l | Both l _ => Ok l
  end.

Record FileNode := mkFileNode {
  id : FileId;
  parent : option FileId;
  typ : FileType;
  permissions : list Perm;
  uid : Z;
  gid : Z;
  fsize : Z;
  created_at : Timestamp;
  modified_at : Timestamp;
  fblock_data : BlockListAccess;
  fblock_count : Z;
}.

#[export] Instance FileNode_eq_dec : EqDecision FileNode.
Proof. solve_decision. Defined.

Definition FileNode_new (id : FileId) (parent : option FileId) (typ : FileType) (size : Z)
    (block_data : BlockListAccess) (block_count : Z) : FileNode :=
  mkFileNode id parent typ [0; 0; 0; 0] 0 0 size 0 0 block_data block_count.

Definition set_block_data (b : BlockListAccess) (f : FileNode) : FileNode :=
  mkFileNode (id f) (parent f) (typ f) (permissions f) (uid f) (gid f) (fsize f)
    (created_at f) (modified_at f) b (fblock_count f).

(** [From<FsFileNode> for FileNode] *)
Definition FileNode_from (n : FsFileNode) : FileNode :=
  mkFileNode (ffn_id n) (ffn_parent n) (ffn_typ n) (ffn_permissions n) (ffn_uid n) (ffn_gid n)
    (ffn_size n) (ffn_created_at n) (ffn_modified_at n) (OnDevice (ffn_block_data n))
    (ffn_block_count n).

(** The [FsFileNode] that [write] builds *)
Definition to_device (f : FileNode) (head : BlockListHead) : FsFileNode :=
  mkFsFileNode (id f) (parent f) (typ f) (permissions f) (uid f) (gid f) (fsize f)
    (created_at f) (modified_at f) head (fblock_count f).

Section device.
Context {D B DE : Type} `{BlockDevice D B DE} `{!BlockConstructable B FsBlockList}.

(** The [while let] loop of [BlockList::read]; the fuel bounds the length of the
    chain. *)
Fixpoint read_list_loop (fuel : nat) (device : D) (next_block_ptr : option LBA)
    (list_ : list BlockGroup) : result (FsError DE) (list BlockGroup) :=
  match next_block_ptr with
  | None => mret list_
  | Some block_ptr =>
      match fuel with
      | O => Hang
      | S fuel =>
          block ← map_err map_device_error (read_pointer FsBlockList device block_ptr);
          read_list_loop fuel device (fbl_next block) (list_ ++ fbl_blocks block)
      end
  end.

Definition BlockList_read (fuel : nat) (head : BlockListHead) (device : D)
    : result (FsError DE) BlockList :=
  match head with
  | BLH_Single group => mret (BL_Single group)
  | BLH_List ptr => l ← read_list_loop fuel device (Some ptr) []; mret (BL_Vec l)
  end.

(** The [for] loop of [BlockList::write] over the blocks zipped with the chunks *)
Fixpoint write_list_blocks (blocks : list (LBA * option LBA)) (cs : list (list BlockGroup))
    : M D (FsError DE) unit :=
  match blocks, cs with
  | (block_addr, next_block_addr) :: blocks, groups :: cs =>
      _ ← mapM_err map_device_error
            (write_block block_addr (block_data (mkFsBlockList groups next_block_addr)));
      write_list_blocks blocks cs
  | _, _ => mret tt
  end.

(** The state is the device and the block allocator. *)
Definition BlockList_write (self : BlockList)
    : M (D * BlockAllocator) (FsError DE) BlockListHead :=
  match self with
  | BL_Single group => mret (BLH_Single group)
  | BL_Vec block_groups =>
      let data_block_count :=
        counts_required_for (Z.of_nat BLOCK_LIST_GROUP_COUNT)
          (Z.of_nat (length block_groups)) in
      _ ← lift (assert_ (data_block_count >=? 1));
      data_blocks ← on_snd (BlockAllocator_allocate data_block_count);
      first_group ← lift (vec_get data_blocks 0);
      blocks ← lift (BlockGroupList_blocks data_blocks);
      _ ← on_fst (write_list_blocks (Peeked_collect blocks)
                    (chunks BLOCK_LIST_GROUP_COUNT block_groups));
      mret (BLH_List (bg_start first_group))
  end.

(** [FileNode::write] returns the device node and the value left in the cell. *)
Definition FileNode_write (self : FileNode)
    : M (D * BlockAllocator) (FsError DE) (FsFileNode * FileNode) :=
  match fblock_data self with
  | OnDevice head => mret (to_device self head, self)
  | InMem l | Both l _ =>
      head ← BlockList_write l;
      mret (to_device self head, set_block_data (Both l head) self)
  end.

Definition FileNode_resolve_block_data (fuel : nat) (self : FileNode) (device : D)
    : result (FsError DE) FileNode :=
  match fblock_data self with
  | OnDevice head =>
      l ← BlockList_read fuel head device;
      mret (set_block_data (InMem l) self)
  | InMem _ | Both _ _ => mret self
  end.
End device.
