(* ===== verification/MemStructsProofs.v ===== *)
(** * Correctness of block lists and file nodes

    Block lists survive a trip to the device, and the partial iterator yields
    the blocks of a byte range when the range starts at a block boundary and
    reaches into the last group. *)

From S2P Require Import Prelude BlockDevice FsStructs BlockAllocator BlockAllocatorProofs FreeListProofs.
From S2P Require Import IterExt MemStructs.
Local Open Scope Z_scope.

(** ** Block lists on the device *)

Section device.
Context {D B DE : Type} `{!BlockDevice D B DE} `{!BlockDeviceLaws D B DE}.
Context `{!BlockConstructable B FsBlockList}.
Implicit Types (d : D) (ls : list LBA) (cs : list (list BlockGroup)).

(** The blocks [ls] hold the pieces [cs] of a block list, linked in order. *)
Fixpoint list_chain d ls cs : Prop :=
  match ls, cs with
  | [], [] => True
  | lba :: ls, c :: cs =>
      read_block d lba = Ok (block_data (mkFsBlockList c (head ls))) ∧ list_chain d ls cs
  | _, _ => False
  end.

Lemma write_list_blocks_chain ls : ∀ cs d d',
  length ls = length cs → NoDup ls →
  write_list_blocks (DE:=DE) (Peeked_collect ls) cs d = (Ok tt, d') →
  list_chain d' ls cs ∧ ∀ x, x ∉ ls → read_block d' x = read_block d x.
Proof.
  induction ls as [|lba ls IH]; intros [|c cs] d d' Hlen Hnd Hw; cbn in Hlen; try lia.
  { cbn in Hw. by injection Hw as <-. }
  apply NoDup_cons in Hnd as [Hlba Hnd].
  cbn [Peeked_collect write_list_blocks] in Hw. rewrite run_bind in Hw. unfold mapM_err in Hw.
  destruct (write_block lba _ d) as [[[]| | |] d1] eqn:H1; cbn in Hw; try done.
  apply write_block_read in H1 as [Hr1 Hr2].
  destruct (IH cs d1 d') as [Hc Hk]; [lia|done..|].
  cbn [list_chain]. split; [split; [by rewrite Hk|done]|].
  intros x [Hx1 Hx2]%not_elem_of_cons. by rewrite Hk, Hr2.
Qed.

Lemma read_list_chain d ls : ∀ cs fuel acc,
  list_chain d ls cs → (length ls ≤ fuel)%nat →
  read_list_loop (DE:=DE) fuel d (head ls) acc = Ok (acc ++ concat cs).
Proof.
  induction ls as [|lba ls IH]; intros [|c cs] fuel acc Hc Hf; try done.
  { destruct fuel; cbn; by rewrite app_nil_r. }
  destruct Hc as [Hr Hc]. destruct fuel as [|fuel]; cbn in Hf; [lia|].
  cbn [read_list_loop head]. unfold read_pointer. rewrite Hr.
  cbn [mbind result_bind mret result_ret map_err].
  rewrite from_block_data. cbn [fbl_next fbl_blocks].
  rewrite (IH cs) by (done || lia). cbn [concat]. by rewrite <- app_assoc.
Qed.

Lemma chunks_length_exact {A} n (l : list A) :
  (0 < n)%nat →
  Z.of_nat (length (chunks n l)) = counts_required_for (Z.of_nat n) (Z.of_nat (length l)).
Proof.
  intros Hn. pose proof (chunks_length n l Hn). apply counts_required_for_unique; lia.
Qed.

(** What [BlockList::write] of a vector does: one contiguous group of formerly
    free blocks holds the list. *)
Lemma BlockList_write_vec groups d a head d' a' :
  groups_ok (free a) → Z.of_nat (length groups) ≤ u64_max →
  BlockList_write (DE:=DE) (BL_Vec groups) (d, a) = (Ok head, (d', a')) →
  ∃ g, head = BLH_List (bg_start g) ∧ group_ok g ∧ groups_ok (free a') ∧
    (∀ x, in_group x g → is_free a x) ∧
    (∀ x, is_free a' x ↔ is_free a x ∧ ¬ in_group x g) ∧
    (∀ x, ¬ in_group x g → read_block d' x = read_block d x) ∧
    list_chain d' (group_blocks g) (chunks BLOCK_LIST_GROUP_COUNT groups).
Proof.
  intros Hok Hlen. unfold BlockList_write.
  pose proof (chunks_length_exact BLOCK_LIST_GROUP_COUNT groups ltac:(cbv; lia)) as Hcs.
  set (n := counts_required_for _ _) in *.
  destruct (Z.geb_spec n 1) as [Hn|]; [|done]. run. rewrite run_bind. unfold on_snd at 1. cbn [snd].
  destruct (BlockAllocator_allocate (DE:=DE) n a) as [[gs| | |] a1] eqn:Ha; try done.
  assert (n ≤ u64_max) as Hnu.
  { pose proof (counts_required_for_ceil (Z.of_nat BLOCK_LIST_GROUP_COUNT)
      (Z.of_nat (length groups)) ltac:(done) ltac:(lia)) as Hceil. fold n in Hceil.
    change (Z.of_nat BLOCK_LIST_GROUP_COUNT) with 255 in Hceil. lia. }
  apply allocate_ok_inv in Ha as (g & -> & Hg); [|lia|done].
  apply allocate_group_free in Hg
    as (Hok1 & Hcount & Hgok & _ & _ & _ & _ & Hin & Hiff); [|lia|done].
  cbn [fst]. run_ok (eq_refl : vec_get [g] 0 = Ok g). run_ok (blocks_single g Hgok).
  rewrite run_bind. unfold on_fst. cbn [fst snd].
  destruct (write_list_blocks _ _ d) as [[[]| | |] d1] eqn:Hw; try done.
  intros [= <- <- <-]. pose proof Hgok as (?&?&?).
  apply write_list_blocks_chain in Hw as [Hc Hk]; [| |apply NoDup_group_blocks].
  2:{ apply Nat2Z.inj. rewrite Hcs. unfold group_blocks. rewrite length_seqZ. lia. }
  exists g. split_and!; try done. intros x Hx. apply Hk. by rewrite elem_of_group_blocks.
Qed.

(** Reading a written list back *)
Lemma BlockList_write_read l d a head d' a' :
  groups_ok (free a) → Z.of_nat (length (BlockList_as_slice l)) ≤ u64_max →
  BlockList_write (DE:=DE) l (d, a) = (Ok head, (d', a')) →
  ∃ own, groups_ok (free a') ∧ (∀ x, x ∈ own → is_free a x) ∧
    (∀ x, is_free a' x ↔ is_free a x ∧ x ∉ own) ∧
    (∀ x, x ∉ own → read_block d' x = read_block d x) ∧
    ∀ d'' fuel, (length own ≤ fuel)%nat →
      (∀ x, x ∈ own → read_block d'' x = read_block d' x) →
      BlockList_read (DE:=DE) fuel head d'' = Ok l.
Proof.
  intros Hok Hlen Hw. destruct l as [g|groups].
  { cbn in Hw. injection Hw as <- <- <-. exists []. split_and!; try done.
    - by intros x ?%elem_of_nil.
    - intros x. rewrite elem_of_nil. tauto. }
  apply BlockList_write_vec in Hw as (g & -> & Hg & Hok' & Hin & Hiff & Hout & Hc); [|done..].
  exists (group_blocks g). setoid_rewrite elem_of_group_blocks. split_and!; try done.
  intros d'' fuel Hf Hsame. unfold BlockList_read.
  assert (∀ ls cs, (∀ x, x ∈ ls → in_group x g) → list_chain d' ls cs → list_chain d'' ls cs)
    as Hmove.
  { induction ls as [|x ls IH]; intros [|c cs] Hls Hl; try done. destruct Hl as [Hx Hl].
    split; [rewrite Hsame; [done|]|]; [by apply Hls; left|]. apply IH; [|done].
    intros y Hy. apply Hls. by right. }
  assert (list_lookup_head : head (group_blocks g) = Some (bg_start g)).
  { destruct Hg as (?&?&?). unfold group_blocks. by rewrite seqZ_cons by lia. }
  rewrite <- list_lookup_head. rewrite (read_list_chain _ _ (chunks BLOCK_LIST_GROUP_COUNT groups)).
  - cbn. by rewrite chunks_concat by (cbv; lia).
  - apply Hmove; [|done]. intros x. by rewrite elem_of_group_blocks.
  - done.
Qed.
End device.

(** C18: a file node survives a trip to the device. When [FileNode::write] of a
    node with its block list in memory succeeds, the blocks it used for the
    list were free and are not free any more, no other block of the device
    changed, the node keeps its list, and the device node, loaded again and
    resolved (on any device state that still has those blocks), is the same
    file with the same block list. *)
Theorem file_node_roundtrip {D B DE : Type} `{!BlockDevice D B DE} `{!BlockDeviceLaws D B DE}
    `{!BlockConstructable B FsBlockList} (f f' : FileNode) (l : BlockList) (n : FsFileNode)
    (d d' : D) (a a' : BlockAllocator) :
  groups_ok (free a) → Z.of_nat (length (BlockList_as_slice l)) ≤ u64_max →
  BlockListAccess_get_list (E:=DE) (fblock_data f) = Ok l →
  FileNode_write (DE:=DE) f (d, a) = (Ok (n, f'), (d', a')) →
  BlockListAccess_get_list (E:=DE) (fblock_data f') = Ok l ∧ groups_ok (free a') ∧
  ∃ own, (∀ x, x ∈ own → is_free a x) ∧
    (∀ x, is_free a' x ↔ is_free a x ∧ x ∉ own) ∧
    (∀ x, x ∉ own → read_block d' x = read_block d x) ∧
    ∀ d'' fuel, (length own ≤ fuel)%nat →
      (∀ x, x ∈ own → read_block d'' x = read_block d' x) →
      FileNode_resolve_block_data (DE:=DE) fuel (FileNode_from n) d'' =
        Ok (set_block_data (InMem l) f).
Proof.
  intros Hok Hlen Hl Hw.
  assert (∃ head, BlockList_write (DE:=DE) l (d, a) = (Ok head, (d', a')) ∧
    n = to_device f head ∧ f' = set_block_data (Both l head) f) as (head & Hw' & -> & ->).
  { unfold FileNode_write in Hw. destruct (fblock_data f) as [h|l'|l' h]; cbn in Hl; [done|..];
      injection Hl as ->; rewrite run_bind in Hw;
      destruct (BlockList_write l (d, a)) as [[head| | |] [d1 a1]]; cbn in Hw; try done;
      injection Hw as <- <- <- <-; by exists head. }
  apply BlockList_write_read in Hw' as (own & ? & ? & ? & ? & Hread); [|done..].
  split; [done|]. split; [done|]. exists own. split_and!; try done.
  intros d'' fuel Hf Hsame. unfold FileNode_resolve_block_data. cbn.
  rewrite Hread by done. done.
Qed.

(** ** The partial iterator *)

Definition block_number (l : list BlockGroup) : Z := Z.of_nat (length (groups_blocks l)).

Lemma block_number_cons g l :
  group_ok g → block_number (g :: l) = bg_count g + block_number l.
Proof.
  intros (?&?&?). unfold block_number. cbn. unfold group_blocks.
  rewrite length_app, length_seqZ. lia.
Qed.

Lemma block_number_nonneg l : 0 ≤ block_number l.
Proof. unfold block_number. lia. Qed.

Lemma BlockGroup_bytes_ok {E} g :
  bg_count g * 4096 ≤ u64_max → BlockGroup_bytes (E:=E) g BLOCK_SIZE = Ok (bg_count g * 4096).
Proof.
  intros Hb. unfold BlockGroup_bytes, mul_u64, BlockGroup_count, BLOCK_SIZE.
  by rewrite (proj2 (Z.leb_le _ _)).
Qed.

Lemma blocks_required_bounds n :
  0 ≤ n → n ≤ blocks_required_for n * 4096 < n + 4096.
Proof. intros. by apply counts_required_for_ceil. Qed.

(** What is yielded for a group of which the first blocks are skipped already *)
Definition clip (g : BlockGroup) (remaining : Z) : BlockGroup :=
  if remaining <? bg_count g * 4096
  then mkBlockGroup (bg_start g) (blocks_required_for remaining) else g.

Lemma partial_finish_exact {E} g offset remaining groups :
  group_ok g → bg_count g * 4096 ≤ u64_max → 0 < remaining → 0 ≤ offset < 4096 →
  offset + remaining ≤ u64_max →
  partial_finish (E:=E) g offset remaining groups =
    let len := Z.min remaining (bg_count g * 4096) in
    if offset + len <=? bg_count (clip g remaining) * 4096
    then Ok (Some (mkPartialBlockGroup (clip g remaining) offset len),
             mkPartialIter groups 0 (remaining - len))
    else Panic.
Proof.
  intros Hg Hb Hrem Hoff Hu. unfold partial_finish, clip.
  rewrite BlockGroup_bytes_ok by done. cbn [mbind result_bind].
  pose proof (blocks_required_bounds remaining ltac:(lia)).
  destruct (Z.ltb_spec remaining (bg_count g * 4096)) as [Hlt|Hge].
  - rewrite with_new_length_ok by (done || lia). cbn [mbind result_bind].
    destruct (decide (blocks_required_for remaining = 0)); [lia|]. cbn [expect mbind result_bind mret result_ret].
    rewrite (proj2 (Z.geb_le _ _)) by lia. cbn [assert_ mbind result_bind].
    rewrite BlockGroup_bytes_ok by (cbn; lia). cbn [mbind result_bind bg_count].
    rewrite add_u64_ok by lia. cbn [mbind result_bind].
    rewrite Z.min_l by lia. cbv zeta. by destruct (_ <=? _).
  - cbn [mbind result_bind mret result_ret].
    rewrite (proj2 (Z.geb_le _ _)) by lia. cbn [assert_ mbind result_bind].
    rewrite BlockGroup_bytes_ok by done. cbn [mbind result_bind].
    rewrite add_u64_ok by lia. cbn [mbind result_bind].
    rewrite Z.min_r by lia. cbv zeta. by destruct (_ <=? _).
Qed.

(** The group of the iterator that a byte offset inside the first group selects *)
Definition skip_blocks (g : BlockGroup) (skip : Z) : BlockGroup :=
  mkBlockGroup (bg_start g + skip / 4096) (bg_count g - skip / 4096).

Lemma partial_next_exact {E} g groups skip remaining :
  group_ok g → bg_count g * 4096 ≤ u64_max → 0 ≤ skip < bg_count g * 4096 → 0 < remaining →
  4096 + remaining ≤ u64_max →
  partial_next (E:=E) (g :: groups) skip remaining =
    let g' := skip_blocks g skip in
    let len := Z.min remaining (bg_count g' * 4096) in
    if skip mod 4096 + len <=? bg_count (clip g' remaining) * 4096
    then Ok (Some (mkPartialBlockGroup (clip g' remaining) (skip mod 4096) len),
             mkPartialIter groups 0 (remaining - len))
    else Panic.
Proof.
  intros Hg Hb Hskip Hrem Hu. pose proof Hg as (?&?&?). cbn [partial_next].
  rewrite BlockGroup_bytes_ok by done. cbn [mbind result_bind].
  rewrite Z.geb_leb, (proj2 (Z.leb_gt _ _)) by lia.
  pose proof (Z.div_mod skip 4096). pose proof (Z.mod_pos_bound skip 4096).
  rewrite Z.gtb_ltb. destruct (Z.ltb_spec 0 skip).
  - change BLOCK_SIZE with 4096. rewrite subgroup_ok by (done || lia).
    destruct (decide (skip / 4096 < bg_count g)); [|lia]. cbn [mbind result_bind expect].
    rewrite partial_finish_exact; [done|..]; cbn; try lia. unfold group_ok; cbn; lia.
  - assert (skip = 0) as -> by lia. rewrite partial_finish_exact by (done || lia).
    unfold skip_blocks. rewrite Z.add_0_r, Z.sub_0_r. by destruct g.
Qed.

(** The first group the partial iterator yields, exactly. With a byte offset
    inside the first group, [next] yields the blocks from the one the offset
    falls in on, cut to the blocks the remaining bytes need, if the offset
    inside the first block plus the length still fits in those blocks; otherwise
    it panics. In particular a range that starts inside a block and crosses
    into the next one panics as soon as its length is a multiple of the block
    size. *)
Theorem partial_iter_first {E} (g : BlockGroup) (groups : list BlockGroup) (skip remaining : Z) :
  group_ok g → bg_count g * 4096 ≤ u64_max → 0 ≤ skip < bg_count g * 4096 → 0 < remaining →
  4096 + remaining ≤ u64_max →
  (skip mod 4096 + Z.min remaining (bg_count (skip_blocks g skip) * 4096)
     ≤ bg_count (clip (skip_blocks g skip) remaining) * 4096 →
   PartialIter_next (E:=E) (mkPartialIter (g :: groups) skip remaining) =
     Ok (Some (mkPartialBlockGroup (clip (skip_blocks g skip) remaining) (skip mod 4096)
                 (Z.min remaining (bg_count (skip_blocks g skip) * 4096))),
         mkPartialIter groups 0
           (remaining - Z.min remaining (bg_count (skip_blocks g skip) * 4096)))) ∧
  (skip mod 4096 ≠ 0 → remaining mod 4096 = 0 →
   PartialIter_next (E:=E) (mkPartialIter (g :: groups) skip remaining) = Panic).
Proof.
  intros Hg Hb Hskip Hrem Hu. unfold PartialIter_next. cbn [pi_group_iter skip_bytes remaining_bytes].
  rewrite partial_next_exact by done. cbv zeta. split.
  - intros Hfit. by rewrite (proj2 (Z.leb_le _ _)).
  - intros Hs Hr. rewrite (proj2 (Z.leb_gt _ _)); [done|].
    pose proof (Z.mod_pos_bound skip 4096 ltac:(lia)).
    unfold clip. pose proof (blocks_required_bounds remaining ltac:(lia)).
    pose proof (Z.div_mod remaining 4096 ltac:(lia)).
    destruct (Z.ltb_spec remaining (bg_count (skip_blocks g skip) * 4096)); cbn [bg_count]; lia.
Qed.

Lemma partial_iter_first_witness :
  PartialIter_next (E:=unit) (mkPartialIter [mkBlockGroup 5 4] 4100 50) =
    Ok (Some (mkPartialBlockGroup (mkBlockGroup 6 1) 4 50), mkPartialIter [] 0 0) ∧
  PartialIter_next (E:=unit) (mkPartialIter [mkBlockGroup 5 4] 1 4096) = Panic.
Proof.
  split.
  - rewrite (proj1 (partial_iter_first (mkBlockGroup 5 4) [] 4100 50
      ltac:(unfold group_ok, u64_max; cbn; lia) ltac:(unfold u64_max; cbn; lia)
      ltac:(cbn; lia) ltac:(lia) ltac:(unfold u64_max; lia)) ltac:(vm_compute; discriminate)). done.
  - apply (partial_iter_first (mkBlockGroup 5 4) [] 1 4096);
      try (unfold group_ok, u64_max; cbn; lia); done.
Defined.

(** The blocks of the yielded parts *)
Definition part_blocks (ps : list PartialBlockGroup) : list LBA :=
  groups_blocks (pbg_group <$> ps).

Lemma skip_blocks_aligned g k :
  skip_blocks g (k * 4096) = mkBlockGroup (bg_start g + k) (bg_count g - k).
Proof. unfold skip_blocks. by rewrite Z.div_mul. Qed.

Lemma group_blocks_split g k :
  0 ≤ k ≤ bg_count g →
  group_blocks g = group_blocks (mkBlockGroup (bg_start g) k) ++
    group_blocks (mkBlockGroup (bg_start g + k) (bg_count g - k)).
Proof.
  intros Hk. unfold group_blocks. cbn. rewrite <- seqZ_app by lia. f_equal. lia.
Qed.

Lemma group_blocks_drop g k :
  0 ≤ k ≤ bg_count g →
  group_blocks (mkBlockGroup (bg_start g + k) (bg_count g - k)) =
    drop (Z.to_nat k) (group_blocks g).
Proof.
  intros Hk. rewrite (group_blocks_split g k) by done.
  rewrite drop_app_length'; [done|]. unfold group_blocks. rewrite length_seqZ. done.
Qed.

Lemma group_blocks_take g n :
  0 ≤ n ≤ bg_count g →
  group_blocks (mkBlockGroup (bg_start g) n) = take (Z.to_nat n) (group_blocks g).
Proof.
  intros Hn. rewrite (group_blocks_split g n) by done.
  rewrite take_app_length'; [done|]. unfold group_blocks. rewrite length_seqZ. done.
Qed.

(** The specification of the iteration: offset 0 in every part, [remaining] bytes
    in total, and the blocks from block [k] on. *)
Definition yields (groups : list BlockGroup) (k remaining : Z) (ps : list PartialBlockGroup)
    : Prop :=
  Forall (λ p, pbg_offset p = 0 ∧ 0 < pbg_len p ≤ bg_count (pbg_group p) * 4096) ps ∧
  foldr Z.add 0 (pbg_len <$> ps) = remaining ∧
  part_blocks ps =
    take (Z.to_nat (blocks_required_for remaining)) (drop (Z.to_nat k) (groups_blocks groups)).

Lemma partial_next_aligned {E} g groups k remaining :
  group_ok g → bg_count g * 4096 ≤ u64_max → 0 ≤ k < bg_count g → 0 < remaining →
  4096 + remaining ≤ u64_max →
  partial_next (E:=E) (g :: groups) (k * 4096) remaining =
    let g' := mkBlockGroup (bg_start g + k) (bg_count g - k) in
    let len := Z.min remaining (bg_count g' * 4096) in
    Ok (Some (mkPartialBlockGroup (clip g' remaining) 0 len),
        mkPartialIter groups 0 (remaining - len)).
Proof.
  intros Hg Hb Hk Hrem Hu. rewrite partial_next_exact by (done || lia).
  rewrite skip_blocks_aligned, Z.mod_mul by lia. cbv zeta. rewrite (proj2 (Z.leb_le _ _)); [done|].
  unfold clip. cbn [bg_count]. pose proof (blocks_required_bounds remaining ltac:(lia)).
  destruct (Z.ltb_spec remaining ((bg_count g - k) * 4096)); cbn [bg_count]; lia.
Qed.

Lemma blocks_required_add n r :
  0 ≤ n → 0 ≤ r → blocks_required_for (n * 4096 + r) = n + blocks_required_for r.
Proof.
  intros Hn Hr. pose proof (blocks_required_bounds r Hr).
  symmetry. apply counts_required_for_unique; unfold BLOCK_SIZE; lia.
Qed.

Lemma partial_collect_aligned {E} last : ∀ init fuel k remaining,
  Forall group_ok (init ++ [last]) → block_number (init ++ [last]) * 4096 ≤ u64_max - 4096 →
  (length (init ++ [last]) < fuel)%nat → 0 ≤ k → 0 < remaining →
  block_number init * 4096 < k * 4096 + remaining ≤ block_number (init ++ [last]) * 4096 →
  ∃ ps, partial_collect (E:=E) fuel (mkPartialIter (init ++ [last]) (k * 4096) remaining) = Ok ps ∧
    yields (init ++ [last]) k remaining ps.
Proof.
  induction init as [|g init IH]; intros [|fuel] k remaining Hok Hb Hf Hk Hrem Hr;
    try (cbn in Hf; lia); cbn [app] in *;
    apply Forall_cons in Hok as [Hg Hok]; pose proof Hg as (?&?&?);
    rewrite (block_number_cons _ _ Hg) in Hb, Hr.
  - change (block_number []) with 0 in *.
    pose proof (blocks_required_bounds remaining ltac:(lia)) as Hbr.
    cbn [partial_collect]. unfold PartialIter_next. cbn [pi_group_iter skip_bytes remaining_bytes].
    rewrite partial_next_aligned by (done || lia). cbn [mbind result_bind bg_count].
    rewrite (Z.min_l remaining) by lia. rewrite Z.sub_diag.
    destruct fuel as [|fuel]; [cbn in Hf; lia|]. cbn.
    eexists. split; [done|]. unfold clip; cbn [bg_count bg_start].
    assert (blocks_required_for remaining ≤ bg_count last - k) by lia.
    set (p := if _ <? _ then _ else _).
    assert (p = mkBlockGroup (bg_start last + k) (blocks_required_for remaining)) as ->.
    { unfold p. destruct (Z.ltb_spec remaining ((bg_count last - k) * 4096)); [done|].
      f_equal. lia. }
    split_and!; cbn; [constructor; [cbn; lia|done]|lia|].
    unfold part_blocks. cbn. rewrite !app_nil_r. rewrite <- group_blocks_drop by lia.
    by rewrite <- (group_blocks_take (mkBlockGroup _ (bg_count last - k))) by (cbn; lia).
  - pose proof (block_number_nonneg init).
    assert (Forall group_ok init) by (apply Forall_app in Hok; apply Hok).
    assert (block_number (init ++ [last]) = block_number init + bg_count last) as Hlast.
    { unfold block_number. clear -Hok. induction init as [|h init IH]; cbn in *.
      - apply Forall_cons in Hok as [(?&?&?) _]. unfold group_blocks.
        rewrite app_nil_r, length_seqZ. lia.
      - apply Forall_cons in Hok as [_ Hok]. rewrite !length_app. specialize (IH Hok). lia. }
    rewrite (block_number_cons _ _ Hg) in Hr.
    destruct (decide (k < bg_count g)) as [Hin|Hout].
    + cbn [partial_collect]. unfold PartialIter_next. cbn [pi_group_iter skip_bytes remaining_bytes].
      rewrite partial_next_aligned by (done || lia). cbn [mbind result_bind bg_count].
      rewrite Z.min_r by lia.
      destruct (IH fuel 0 (remaining - (bg_count g - k) * 4096)) as (ps & Hps & Hy);
        [done|lia|cbn in Hf; lia|lia|lia|lia|].
      change (0 * 4096) with 0 in Hps. rewrite Hps. cbn [mbind result_bind mret result_ret].
      eexists. split; [done|]. destruct Hy as (Hy1 & Hy2 & Hy3).
      unfold clip; cbn [bg_count bg_start]. rewrite (proj2 (Z.ltb_ge _ _)) by lia.
      split_and!; cbn [fmap list_fmap foldr pbg_len pbg_group].
      * constructor; [cbn; lia|done].
      * lia.
      * unfold part_blocks in *. cbn [fmap list_fmap groups_blocks pbg_group].
        rewrite Hy3. rewrite group_blocks_drop by lia.
        replace (Z.to_nat (blocks_required_for remaining)) with
          (length (drop (Z.to_nat k) (group_blocks g)) +
           Z.to_nat (blocks_required_for (remaining - (bg_count g - k) * 4096)))%nat.
        2:{ rewrite length_drop. unfold group_blocks. rewrite length_seqZ.
            pose proof (blocks_required_add (bg_count g - k)
              (remaining - (bg_count g - k) * 4096) ltac:(lia) ltac:(lia)) as Ha.
            replace ((bg_count g - k) * 4096 + (remaining - (bg_count g - k) * 4096))
              with remaining in Ha by lia.
            pose proof (blocks_required_bounds (remaining - (bg_count g - k) * 4096) ltac:(lia)).
            lia. }
        rewrite drop_app_le by (unfold group_blocks; rewrite length_seqZ; lia).
        by rewrite take_app_add.
    + destruct (IH (S fuel) (k - bg_count g) remaining) as (ps & Hps & Hy1 & Hy2 & Hy3);
        [done|lia|cbn in Hf; lia|lia|lia|lia|].
      exists ps. split.
      * rewrite <- Hps. cbn [partial_collect]. unfold PartialIter_next.
        cbn [pi_group_iter skip_bytes remaining_bytes partial_next].
        rewrite BlockGroup_bytes_ok by lia. cbn [mbind result_bind].
        rewrite Z.geb_leb, (proj2 (Z.leb_le _ _)) by lia. do 3 f_equal. lia.
      * split_and!; [done..|]. rewrite Hy3. cbn [groups_blocks].
        rewrite drop_app_ge by (unfold group_blocks; rewrite length_seqZ; lia).
        do 2 f_equal. unfold group_blocks. rewrite length_seqZ. lia.
Qed.

(** A byte range that starts at a block boundary and ends in the last group
    of a block list: the partial iterator runs to its end without a panic, its
    parts all have offset 0, their lengths add up to the length of the range,
    and their blocks are exactly the blocks of the range, in order. *)
Theorem partial_iter_aligned {E} (init : list BlockGroup) (last : BlockGroup) (k remaining : Z) :
  Forall group_ok (init ++ [last]) → block_number (init ++ [last]) * 4096 ≤ u64_max - 4096 →
  0 ≤ k → 0 < remaining →
  block_number init * 4096 < k * 4096 + remaining ≤ block_number (init ++ [last]) * 4096 →
  ∃ ps, PartialIter_all (E:=E)
      (BlockList_iter_partial (BL_Vec (init ++ [last])) (k * 4096) remaining) = Ok ps ∧
    Forall (λ p, pbg_offset p = 0 ∧ 0 < pbg_len p ≤ bg_count (pbg_group p) * 4096) ps ∧
    foldr Z.add 0 (pbg_len <$> ps) = remaining ∧
    part_blocks ps = take (Z.to_nat (blocks_required_for remaining))
      (drop (Z.to_nat k) (groups_blocks (init ++ [last]))).
Proof. intros. apply partial_collect_aligned; try done. cbn. lia. Qed.

Lemma partial_iter_aligned_witness :
  ∃ ps, PartialIter_all (E:=unit)
      (BlockList_iter_partial (BL_Vec ([mkBlockGroup 10 3] ++ [mkBlockGroup 20 5])) (1 * 4096) 9000)
        = Ok ps ∧ part_blocks ps = [11; 12; 20].
Proof.
  destruct (partial_iter_aligned (E:=unit) [mkBlockGroup 10 3] (mkBlockGroup 20 5) 1 9000)
    as (ps & ? & _ & _ & Hb).
  - repeat constructor; cbn; unfold u64_max; lia.
  - vm_compute. discriminate.
  - lia.
  - lia.
  - vm_compute. split; [done|discriminate].
  - exists ps. split; [done|]. rewrite Hb. vm_compute. done.
Defined.

(** A range that ends before the last group makes the iteration panic: after
    the last part is yielded no byte remains, and the next call asks for a
    group of zero blocks of the following group. *)
Theorem partial_iter_early_end {E} (g h : BlockGroup) (groups : list BlockGroup) (remaining : Z) :
  group_ok g → group_ok h → bg_count g * 4096 ≤ u64_max → bg_count h * 4096 ≤ u64_max →
  0 < remaining ≤ bg_count g * 4096 → 4096 + remaining ≤ u64_max →
  PartialIter_all (E:=E) (BlockList_iter_partial (BL_Vec (g :: h :: groups)) 0 remaining) = Panic.
Proof.
  intros Hg Hh Hbg Hbh Hrem Hu. pose proof Hg as (?&?&?). pose proof Hh as (?&?&?).
  assert (PartialIter_next (E:=E) (mkPartialIter (h :: groups) 0 0) = Panic) as Hstop.
  { unfold PartialIter_next. cbn [pi_group_iter skip_bytes remaining_bytes partial_next].
    rewrite BlockGroup_bytes_ok by done. cbn [mbind result_bind].
    rewrite Z.geb_leb, (proj2 (Z.leb_gt _ _)) by lia. cbn [Z.gtb Z.compare].
    unfold partial_finish. rewrite BlockGroup_bytes_ok by done. cbn [mbind result_bind].
    rewrite (proj2 (Z.ltb_lt _ _)) by lia. change (blocks_required_for 0) with 0.
    by rewrite with_new_length_ok by (done || lia). }
  pose proof (partial_next_aligned (E:=E) g (h :: groups) 0 remaining Hg Hbg
    ltac:(lia) ltac:(lia) Hu) as Hfirst.
  change (0 * 4096) with 0 in Hfirst. cbv zeta in Hfirst. cbn [bg_count] in Hfirst.
  rewrite Z.min_l, Z.sub_diag in Hfirst by lia.
  unfold PartialIter_all, BlockList_iter_partial.
  cbn [BlockList_as_slice pi_group_iter length partial_collect].
  rewrite (Hfirst : PartialIter_next (mkPartialIter (g :: h :: groups) 0 remaining) = _).
  cbn [mbind result_bind]. by rewrite Hstop.
Qed.

Lemma partial_iter_early_end_witness :
  PartialIter_all (E:=unit)
    (BlockList_iter_partial (BL_Vec [mkBlockGroup 10 3; mkBlockGroup 20 5]) 0 4096) = Panic.
Proof.
  apply partial_iter_early_end; unfold group_ok, u64_max; cbn; lia.
Defined.

Definition demo_file : FileNode :=
  FileNode_new 7 (Some 1) File 5000 (InMem (BL_Vec [mkBlockGroup 40 1; mkBlockGroup 50 1])) 2.

Lemma file_node_roundtrip_witness :
  ∃ n f' d' a' fuel, FileNode_write (DE:=unit) demo_file (demo_device, demo_alloc) =
      (Ok (n, f'), (d', a')) ∧
    FileNode_resolve_block_data (DE:=unit) fuel (FileNode_from n) d' = Ok demo_file.
Proof.
  destruct (FileNode_write (DE:=unit) demo_file (demo_device, demo_alloc))
    as [[[n f']| | |] [d' a']] eqn:H; [|vm_compute in H; discriminate..].
  destruct (file_node_roundtrip demo_file f' (BL_Vec [mkBlockGroup 40 1; mkBlockGroup 50 1])
    n demo_device d' demo_alloc a' demo_alloc_ok ltac:(vm_compute; discriminate) eq_refl H)
    as (_ & _ & own & _ & _ & _ & Hread).
  exists n, f', d', a', (length own). split; [done|]. by rewrite (Hread d' (length own)).
Defined.
