(* ===== verification/FsStrings.v ===== *)
(** * Strings and directories on the device

    The string functions of [fs.rs] and [Directory] and [DirectoryEntry] of
    [mem_structs.rs]. They are methods of the file system but touch only its
    device and its block allocator, which are the state here. A Rust string is
    its bytes; every [str] of the program is valid UTF-8, which
    [String::from_utf8] checks when a string is read. *)

From S2P Require Import Prelude BlockDevice FsStructs BlockAllocator IterExt.
Local Open Scope Z_scope.

(** ** UTF-8 *)

Definition between (lo hi b : Z) : bool := (lo <=? b) && (b <=? hi).

(** The well-formed byte sequences of the Unicode standard *)
Fixpoint from_utf8 (l : list Z) : bool :=
  match l with
  | [] => true
  | a :: l =>
      if between 0 127 a then from_utf8 l
      else
        match l with
        | [] => false
        | b :: l =>
            if between 194 223 a then between 128 191 b && from_utf8 l
            else
              match l with
              | [] => false
              | c :: l =>
                  if between 224 239 a then
                    between (if a =? 224 then 160 else 128) (if a =? 237 then 159 else 191) b &&
                    between 128 191 c && from_utf8 l
                  else
                    match l with
                    | [] => false
                    | e :: l =>
                        between 240 244 a &&
                        between (if a =? 240 then 144 else 128) (if a =? 244 then 143 else 191) b &&
                        between 128 191 c && between 128 191 e && from_utf8 l
                    end
              end
        end
  end.

(** ** Slices *)

(** [&l[..n]] and [&l[n..]] *)
Definition slice_to {E A} (n : nat) (l : list A) : result E (list A) :=
  _ ← assert_ (n <=? length l)%nat; mret (take n l).
Definition slice_from {E A} (n : nat) (l : list A) : result E (list A) :=
  _ ← assert_ (n <=? length l)%nat; mret (drop n l).

(** [let mut data = [0; n]; data[..l.len()].copy_from_slice(l)] *)
Definition copy_to_array {E} (n : nat) (l : list Z) : result E (list Z) :=
  _ ← assert_ (length l <=? n)%nat; mret (l ++ replicate (n - length l) 0).

(** [DirectoryEntry::name] is a [DeviceStringHead<100>]. *)
Definition DIRECTORY_ENTRY_NAME_LENGTH : nat := 100.

(** ** In-memory directories *)

Record DirectoryEntry := mkDirectoryEntry { de_name : list Z; de_id : FileId }.
Record Directory := mkDirectory { parent_id : option FileId; entries : list DirectoryEntry }.

#[export] Instance DirectoryEntry_eq_dec : EqDecision DirectoryEntry.
Proof. solve_decision. Defined.
#[export] Instance Directory_eq_dec : EqDecision Directory.
Proof. solve_decision. Defined.

Definition Directory_create_root : Directory := mkDirectory None [].
Definition Directory_empty (parent_id : FileId) : Directory := mkDirectory (Some parent_id) [].

Section device.
Context {D B DE : Type} `{BlockDevice D B DE}.
Context `{!BlockConstructable B DeviceStringHead} `{!BlockConstructable B BlockStringPart}.
Context `{!BlockConstructable B DirectoryHead} `{!BlockConstructable B DirectoryPart}.

(** The state is the device and the block allocator. *)
Local Abbreviation SM := (M (D * BlockAllocator) (FsError DE)).

(** ** Reading strings *)

(** The [while] loop of [read_string_head]: every round reads at least one byte. *)
Fixpoint read_string_loop (fuel : nat) (device : D) (length_remaining : nat)
    (next_ptr : option LBA) (string : list Z) : result (FsError DE) (list Z) :=
  if (length_remaining =? 0)%nat then mret string
  else
    match fuel with
    | O => Hang
    | S fuel =>
        ptr ← ok_or (MalformedFs MalformedStringLength) next_ptr;
        block ← map_err map_device_error (read_pointer BlockStringPart device ptr);
        let length_in_block := Nat.min length_remaining BLOCK_STRING_PART_DATA_LENGTH in
        part ← slice_to length_in_block (bsp_data block);
        read_string_loop fuel device (length_remaining - length_in_block) (bsp_next block)
          (string ++ part)
    end.

Definition read_string_head (device : D) (head : DeviceStringHead)
    : result (FsError DE) (list Z) :=
  let length_remaining := Z.to_nat (dsh_length head) in
  let length_in_block := Nat.min length_remaining BLOCK_STRING_DATA_LENGTH in
  string ← slice_to length_in_block (dsh_data head);
  let length_remaining := (length_remaining - length_in_block)%nat in
  string ← read_string_loop length_remaining device length_remaining (dsh_next head) string;
  if from_utf8 string then mret string else Err (MalformedFs MalformedStringUtf8).

Definition read_string (device : D) (string_ptr : LBA) : result (FsError DE) (list Z) :=
  head_block ← map_err map_device_error (read_pointer DeviceStringHead device string_ptr);
  read_string_head device head_block.

(** ** Writing strings *)

(** The [while] loop of [write_string_parts] and the assertion after it *)
Fixpoint write_parts_loop (bytes : list Z) (blocks : list LBA) : M D (FsError DE) unit :=
  match bytes, blocks with
  | [], blocks => lift (assert_ (bool_decide (blocks = [])))
  | _ :: _, [] => lift Panic
  | _ :: _, part_lba :: blocks =>
      let n := Nat.min BLOCK_STRING_PART_DATA_LENGTH (length bytes) in
      part_data ← lift (copy_to_array BLOCK_STRING_PART_DATA_LENGTH (take n bytes));
      _ ← mapM_err map_device_error
            (write_block part_lba (block_data (mkBlockStringPart part_data (head blocks))));
      write_parts_loop (drop n bytes) blocks
  end.

Definition write_string_parts (parts_substring : list Z) (part_blocks : list LBA)
    : M D (FsError DE) LBA :=
  first_part_lba ← lift (expect (head part_blocks));
  _ ← write_parts_loop parts_substring part_blocks;
  mret first_part_lba.

(** [(length_in_parts, length_in_head)] *)
Definition split_length (string_len : nat) : nat * nat :=
  if (BLOCK_STRING_DATA_LENGTH <? string_len)%nat
  then ((string_len - BLOCK_STRING_DATA_LENGTH)%nat, BLOCK_STRING_DATA_LENGTH)
  else (O, string_len).

(** [TryInto::<u32>::try_into(string.len()).map_err(|_| FsError::StringToLong)] *)
Definition string_length (string : list Z) : result (FsError DE) Z :=
  let len := Z.of_nat (length string) in
  if len <=? u32_max then mret len else Err StringToLong.

Definition part_block_count (length_in_parts : nat) : Z :=
  counts_required_for (Z.of_nat BLOCK_STRING_PART_DATA_LENGTH) (Z.of_nat length_in_parts).

(** [write_string_head::<N>] *)
Definition write_string_head (N : nat) (string : list Z) : SM DeviceStringHead :=
  let '(length_in_parts, length_in_head) := split_length (length string) in
  len ← lift (string_length string);
  head_slice ← lift (slice_to length_in_head string);
  data ← lift (copy_to_array N head_slice);
  if (length_in_parts =? 0)%nat then mret (mkDeviceStringHead len data None)
  else
    part_substr ← lift (slice_from N string);
    blocks ← on_snd (BlockAllocator_allocate (part_block_count length_in_parts));
    blocks ← lift (BlockGroupList_blocks blocks);
    next ← on_fst (write_string_parts part_substr blocks);
    mret (mkDeviceStringHead len data (Some next)).

Definition write_string (string : list Z) : SM LBA :=
  let '(length_in_parts, length_in_head) := split_length (length string) in
  blocks ← on_snd (BlockAllocator_allocate (part_block_count length_in_parts + 1));
  blocks ← lift (BlockGroupList_blocks blocks);
  head_lba ← lift (expect (head blocks));
  let blocks := tail blocks in
  len ← lift (string_length string);
  head_slice ← lift (slice_to length_in_head string);
  data ← lift (copy_to_array BLOCK_STRING_DATA_LENGTH head_slice);
  next ← (if (0 <? length_in_parts)%nat then
            next ← on_fst (write_string_parts (drop BLOCK_STRING_DATA_LENGTH string) blocks);
            mret (Some next)
          else mret None);
  _ ← on_fst (mapM_err map_device_error
        (write_block head_lba (block_data (mkDeviceStringHead len data next))));
  mret head_lba.

(** ** Directory entries *)

Definition DirectoryEntry_load (device : D) (fs_entry : FsDirectoryEntry)
    : result (FsError DE) DirectoryEntry :=
  name ← read_string_head device (fde_name fs_entry);
  mret (mkDirectoryEntry name (fde_file_id fs_entry)).

Definition DirectoryEntry_write (self : DirectoryEntry) : SM FsDirectoryEntry :=
  name ← write_string_head DIRECTORY_ENTRY_NAME_LENGTH (de_name self);
  mret (mkFsDirectoryEntry name (de_id self)).

(** ** Reading directories *)

(** [extend_entries] *)
Fixpoint extend_entries (device : D) (mem_entries : list DirectoryEntry)
    (device_entries : list FsDirectoryEntry) : result (FsError DE) (list DirectoryEntry) :=
  match device_entries with
  | [] => mret mem_entries
  | entry :: device_entries =>
      mem_entry ← DirectoryEntry_load device entry;
      extend_entries device (mem_entries ++ [mem_entry]) device_entries
  end.

(** The [while let] loop of [Directory::read]; the fuel bounds the number of parts. *)
Fixpoint read_directory_loop (fuel : nat) (device : D) (expected_count : Z)
    (next_part_ptr : option LBA) (entries : list DirectoryEntry)
    : result (FsError DE) (list DirectoryEntry) :=
  match next_part_ptr with
  | None => mret entries
  | Some part_ptr =>
      match fuel with
      | O => Hang
      | S fuel =>
          part ← map_err map_device_error (read_pointer DirectoryPart device part_ptr);
          let found := Z.of_nat (length entries) + Z.of_nat (length (dp_entries part)) in
          if found >? expected_count
          then Err (MalformedFs (DirectoryEntryCountMismatch expected_count found))
          else
            entries ← extend_entries device entries (dp_entries part);
            read_directory_loop fuel device expected_count (dp_next part) entries
      end
  end.

Definition Directory_read (fuel : nat) (device : D) (device_ptr : LBA)
    : result (FsError DE) Directory :=
  head ← map_err map_device_error (read_pointer DirectoryHead device device_ptr);
  let expected_count := dh_entry_count head in
  let head_count := Z.of_nat (length (dh_entries head)) in
  if expected_count <? head_count
  then Err (MalformedFs (DirectoryEntryCountMismatch expected_count head_count))
  else
    entries ← extend_entries device [] (dh_entries head);
    entries ← read_directory_loop fuel device expected_count (dh_next head) entries;
    if bool_decide (Z.of_nat (length entries) = expected_count)
    then mret (mkDirectory (dh_parent head) entries)
    else Err (MalformedFs (DirectoryEntryCountMismatch expected_count
                             (Z.of_nat (length entries)))).

(** ** Writing directories *)

(** [for mem_entry in entries { vec.push(mem_entry.write(fs)?) }] *)
Fixpoint write_entries (entries : list DirectoryEntry) : SM (list FsDirectoryEntry) :=
  match entries with
  | [] => mret []
  | mem_entry :: entries =>
      e ← DirectoryEntry_write mem_entry;
      l ← write_entries entries;
      mret (e :: l)
  end.

(** The [for] loop over the remaining blocks zipped with the chunks of entries *)
Fixpoint write_directory_parts (blocks : list (LBA * option LBA))
    (cs : list (list DirectoryEntry)) : SM unit :=
  match blocks, cs with
  | (block_lba, next_lba) :: blocks, entries :: cs =>
      part_entries ← write_entries entries;
      _ ← on_fst (mapM_err map_device_error
            (write_block block_lba (block_data (mkDirectoryPart part_entries next_lba))));
      write_directory_parts blocks cs
  | _, _ => mret tt
  end.

Definition Directory_write (self : Directory) : SM LBA :=
  let count := length (entries self) in
  let entries_in_parts :=
    (if (DIRECTORY_HEAD_ENTRY_COUNT <? count)%nat
     then count - DIRECTORY_HEAD_ENTRY_COUNT else 0)%nat in
  let blocks_required := blocks_required_for (Z.of_nat entries_in_parts) + 1 in
  blocks ← on_snd (BlockAllocator_allocate blocks_required);
  blocks ← lift (BlockGroupList_blocks blocks);
  head_block_lba ← lift (expect (head blocks));
  let blocks := tail blocks in
  let n := Nat.min DIRECTORY_HEAD_ENTRY_COUNT count in
  head_entries ← write_entries (take n (entries self));
  _ ← on_fst (mapM_err map_device_error (write_block head_block_lba
        (block_data (mkDirectoryHead (parent_id self) (Z.of_nat count) head_entries
                       (head blocks)))));
  _ ← write_directory_parts (Peeked_collect blocks)
        (chunks DIRECTORY_PART_ENTRY_COUNT (drop n (entries self)));
  mret head_block_lba.
End device.
