(* ===== verification/FsStringsProofs.v ===== *)
(** * Strings and directories survive a trip to the device *)

From S2P Require Import Prelude BlockDevice FsStructs BlockAllocator BlockAllocatorProofs IterExt.
From S2P Require Import FsStrings.
Local Open Scope Z_scope.

(** ** Blocks taken from the allocator *)

(** [a'] is [a] without the blocks [own], which were free. *)
Definition takes (a a' : BlockAllocator) (own : list LBA) : Prop :=
  groups_ok (free a') ∧ (∀ x, x ∈ own → is_free a x) ∧
  ∀ x, is_free a' x ↔ is_free a x ∧ x ∉ own.

Lemma takes_nil a : groups_ok (free a) → takes a a [].
Proof.
  intros Ha. split; [done|]. split; [by intros x ?%elem_of_nil|].
  intros x. rewrite elem_of_nil. tauto.
Qed.

(** An allocation and the list of its blocks *)
Lemma allocate_blocks {DE} n a gs a' :
  1 ≤ n ≤ u64_max → groups_ok (free a) →
  BlockAllocator_allocate (DE:=DE) n a = (Ok gs, a') →
  ∃ blocks, (∀ E, BlockGroupList_blocks (E:=E) gs = Ok blocks) ∧ Z.of_nat (length blocks) = n ∧
    NoDup blocks ∧ takes a a' blocks.
Proof.
  intros Hn Hok Ha. apply allocate_ok_inv in Ha as (g & -> & Hg); [|done..].
  apply allocate_group_free in Hg
    as (Hok' & Hcount & Hgok & _ & _ & _ & _ & Hin & Hiff); [|lia|done].
  exists (group_blocks g). split; [intros E; by apply blocks_single|]. split; [|split; [|split; [|split]]].
  - unfold group_blocks. rewrite length_seqZ. lia.
  - apply NoDup_group_blocks.
  - done.
  - intros x. rewrite elem_of_group_blocks. apply Hin.
  - intros x. rewrite elem_of_group_blocks. apply Hiff.
Qed.

Section device.
Context {D B DE : Type} `{!BlockDevice D B DE} `{!BlockDeviceLaws D B DE}.

(** Devices that agree outside of some blocks, and on some blocks *)
Definition unchanged_but (own : list LBA) (d d' : D) : Prop :=
  ∀ x, x ∉ own → read_block d' x = read_block d x.
Definition same_blocks (own : list LBA) (d d' : D) : Prop :=
  ∀ x, x ∈ own → read_block d' x = read_block d x.

Lemma write_block_ok lba b d d' :
  write_block lba b d = (Ok tt, d') →
  read_block d' lba = Ok b ∧ unchanged_but [lba] d d'.
Proof.
  intros [? Hr]%write_block_read. split; [done|]. intros x Hx. apply Hr.
  intros ->. apply Hx. by left.
Qed.

Lemma mapM_write_inv {A} lba b d d' (k : () → M D (FsError DE) A) r :
  (mapM_err map_device_error (write_block lba b) ≫= k) d = (Ok r, d') →
  ∃ d1, write_block lba b d = (Ok tt, d1) ∧ k tt d1 = (Ok r, d').
Proof.
  rewrite run_bind. unfold mapM_err. destruct (write_block lba b d) as [[[]| | |] d1]; cbn; try done.
  intros Hk. by exists d1.
Qed.

Section strings.
Context `{!BlockConstructable B DeviceStringHead} `{!BlockConstructable B BlockStringPart}.

(** [l] followed by zeros up to length [n] *)
Definition padded (n : nat) (l : list Z) : list Z := l ++ replicate (n - length l) 0.

Lemma copy_to_array_ok {E} n l : (length l ≤ n)%nat → copy_to_array (E:=E) n l = Ok (padded n l).
Proof. intros Hl. unfold copy_to_array. by rewrite (proj2 (Nat.leb_le _ _)). Qed.

Lemma slice_padded {E} n l : (length l ≤ n)%nat → slice_to (E:=E) (length l) (padded n l) = Ok l.
Proof.
  intros Hl. unfold slice_to, padded.
  rewrite (proj2 (Nat.leb_le _ _)) by (rewrite length_app; lia). cbn. by rewrite take_app_length.
Qed.

Local Abbreviation PART := BLOCK_STRING_PART_DATA_LENGTH.

Lemma part_pos : (0 < PART)%nat.
Proof. apply Nat.ltb_lt. by vm_compute. Qed.

(** The blocks [ls] hold the parts of the string [s], linked in order. *)
Fixpoint part_chain (d : D) (ls : list LBA) (s : list Z) : Prop :=
  match ls with
  | [] => s = []
  | lba :: ls =>
      s ≠ [] ∧
      read_block d lba = Ok (block_data (mkBlockStringPart (padded PART (take PART s)) (head ls))) ∧
      part_chain d ls (drop PART s)
  end.

Lemma part_chain_same d d' ls s :
  same_blocks ls d d' → part_chain d ls s → part_chain d' ls s.
Proof.
  revert s. induction ls as [|lba ls IH]; intros s Hs; [done|]. intros (Hne & Hr & Hc).
  split; [done|]. rewrite Hs by (left). split; [done|]. apply IH; [|done].
  intros x Hx. apply Hs. by right.
Qed.

Local Opaque BLOCK_STRING_PART_DATA_LENGTH BLOCK_STRING_DATA_LENGTH.

Lemma write_parts_chain ls : ∀ s d d',
  NoDup ls → write_parts_loop (DE:=DE) s ls d = (Ok tt, d') →
  part_chain d' ls s ∧ unchanged_but ls d d'.
Proof.
  induction ls as [|lba ls IH]; intros [|c s] d d' Hnd; cbn [write_parts_loop]; try done.
  - cbn. intros [= <-]. split; [done|]. by intros x _.
  - apply NoDup_cons in Hnd as [Hlba Hnd]. set (n := Nat.min PART _).
    assert (take n (c :: s) = take PART (c :: s) ∧ drop n (c :: s) = drop PART (c :: s)) as [-> ->].
    { unfold n. destruct (Nat.min_spec PART (length (c :: s))) as [[_ ->]|[Hle ->]]; [done|].
      by rewrite !take_ge, !drop_ge. }
    rewrite copy_to_array_ok by (rewrite length_take; lia). run.
    intros (d1 & [Hr1 Hu1]%write_block_ok & Hw)%mapM_write_inv.
    apply IH in Hw as [Hc Hu]; [|done]. split.
    + split; [done|]. split; [by rewrite Hu|done].
    + intros x [Hx1 Hx2]%not_elem_of_cons. rewrite Hu, Hu1 by (done || by rewrite list_elem_of_singleton).
      done.
Qed.

Lemma read_parts_chain d ls : ∀ s fuel acc,
  part_chain d ls s → (length s ≤ fuel)%nat →
  read_string_loop (DE:=DE) fuel d (length s) (head ls) acc = Ok (acc ++ s).
Proof.
  pose proof part_pos as HP.
  induction ls as [|lba ls IH]; intros s fuel acc Hc Hf.
  { cbn in Hc. subst s. destruct fuel; cbn; by rewrite app_nil_r. }
  destruct Hc as (Hne & Hr & Hc).
  assert (0 < length s)%nat as Hs by (destruct s; [done|cbn; lia]).
  destruct fuel as [|fuel]; [lia|]. cbn [read_string_loop head ok_or].
  rewrite (proj2 (Nat.eqb_neq _ _)) by lia. cbn [mbind result_bind]. unfold read_pointer.
  rewrite Hr. cbn [mbind result_bind mret result_ret map_err]. rewrite from_block_data.
  cbn [bsp_data bsp_next].
  assert (Nat.min (length s) PART = length (take PART s)) as -> by (rewrite length_take; lia).
  rewrite slice_padded by (rewrite length_take; lia). cbn [mbind result_bind].
  rewrite length_take.
  replace (length s - Nat.min PART (length s))%nat with (length (drop PART s))
    by (rewrite length_drop; lia).
  rewrite IH by (done || rewrite length_drop; lia).
  by rewrite <- app_assoc, take_drop.
Qed.
Local Abbreviation HEAD := BLOCK_STRING_DATA_LENGTH.

Lemma string_length_ok (s : list Z) :
  Z.of_nat (length s) ≤ u32_max → string_length (DE:=DE) s = Ok (Z.of_nat (length s)).
Proof. intros Hs. unfold string_length. by rewrite (proj2 (Z.leb_le _ _)). Qed.

Lemma string_length_long (s : list Z) :
  u32_max < Z.of_nat (length s) → string_length (DE:=DE) s = Err StringToLong.
Proof. intros Hs. unfold string_length. by rewrite (proj2 (Z.leb_gt _ _)). Qed.

Lemma part_block_count_bounds n :
  Z.of_nat n ≤ u32_max → 0 ≤ part_block_count n ≤ u32_max.
Proof.
  intros Hn. unfold part_block_count. pose proof part_pos.
  pose proof (counts_required_for_ceil (Z.of_nat PART) (Z.of_nat n) ltac:(lia) ltac:(lia)). nia.
Qed.

Lemma part_block_count_0 : part_block_count 0 = 0.
Proof. pose proof part_pos. symmetry. apply counts_required_for_unique; lia. Qed.

(** A head whose string ends in the parts [ls] is read back. *)
Lemma read_head_parts d (s s1 : list Z) ls :
  from_utf8 s = true → s1 = take HEAD s → part_chain d ls (drop HEAD s) →
  read_string_head (DE:=DE) d
    (mkDeviceStringHead (Z.of_nat (length s)) (padded HEAD s1) (head ls)) = Ok s.
Proof.
  intros Hutf -> Hc. unfold read_string_head. cbn [dsh_length dsh_data dsh_next].
  rewrite Nat2Z.id.
  assert (Nat.min (length s) HEAD = length (take HEAD s)) as -> by (rewrite length_take; lia).
  rewrite slice_padded by (rewrite length_take; lia). cbn [mbind result_bind].
  rewrite length_take.
  replace (length s - Nat.min HEAD (length s))%nat with (length (drop HEAD s))
    by (rewrite length_drop; lia).
  rewrite (read_parts_chain d ls (drop HEAD s)) by done. cbn [mbind result_bind].
  by rewrite take_drop, Hutf.
Qed.

(** What [split_length] means for the string *)
Lemma split_length_spec (s : list Z) :
  ∃ n h, split_length (length s) = (n, h) ∧ n = length (drop HEAD s) ∧
    h = length (take HEAD s) ∧ slice_to (E:=FsError DE) h s = Ok (take HEAD s).
Proof.
  unfold split_length, slice_to. rewrite length_drop, length_take.
  destruct (Nat.ltb_spec HEAD (length s)); eexists _, _; (split; [done|]).
  - split; [done|]. split; [lia|]. rewrite (proj2 (Nat.leb_le _ _)) by lia. done.
  - split; [lia|]. split; [lia|]. rewrite (proj2 (Nat.leb_le _ _)) by lia. cbn.
    by rewrite !take_ge.
Qed.

(** A string survives a trip to the device. When [write_string] succeeds it used
    blocks that were free and are not free any more, changed no other block of
    the device, and [read_string] of the returned block, on any device that
    still has those blocks, gives the same string back. *)
Theorem string_roundtrip (s : list Z) (d d' : D) (a a' : BlockAllocator) (lba : LBA) :
  groups_ok (free a) → from_utf8 s = true →
  write_string (DE:=DE) s (d, a) = (Ok lba, (d', a')) →
  ∃ own, takes a a' own ∧ unchanged_but own d d' ∧
    ∀ d'', same_blocks own d' d'' → read_string (DE:=DE) d'' lba = Ok s.
Proof.
  intros Hok Hutf. unfold write_string.
  destruct (split_length_spec s) as (n & h & -> & Hn & Hh & Hslice).
  rewrite run_bind. unfold on_snd at 1. cbn [snd fst].
  destruct (BlockAllocator_allocate _ a) as [[gs| | |] a1] eqn:Ha; [|done..].
  destruct (Z.le_gt_cases (Z.of_nat (length s)) u32_max) as [Hlen|Hlen].
  2:{ rewrite run_bind. cbn [lift]. destruct (BlockGroupList_blocks gs) as [ls| | |]; [|done..].
      rewrite run_bind. cbn [lift]. destruct (expect (head ls)); [|done..].
      rewrite string_length_long by done. done. }
  assert (Z.of_nat n ≤ u32_max) as Hnl by (rewrite Hn, length_drop; lia).
  pose proof (part_block_count_bounds n Hnl) as Hcount.
  apply allocate_blocks in Ha as (ls & Hls & Hlsn & Hnd & Htakes);
    [|unfold u32_max, u64_max in *; lia|done].
  run_ok (Hls (FsError DE)). destruct ls as [|lba' ls]; [cbn in Hlsn; lia|].
  cbn [head expect tail]. run. run_ok (string_length_ok s Hlen).
  rewrite Hslice. run. rewrite copy_to_array_ok by (rewrite length_take; lia). run.
  apply NoDup_cons in Hnd as [Hnin Hnd]. cbn [length] in Hlsn.
  set (next := if (0 <? n)%nat then _ else _). rewrite run_bind.
  assert (∀ r st, next (d, a1) = (r, st) →
    (∃ d1, r = Ok (head ls) ∧ st = (d1, a1) ∧ part_chain d1 ls (drop HEAD s) ∧
       unchanged_but ls d d1) ∨ ∀ o, r ≠ Ok o) as Hnext.
  { unfold next. intros r st. destruct (Nat.ltb_spec 0 n) as [Hpos|Hzero].
    - rewrite run_bind. unfold on_fst. cbn [fst snd]. unfold write_string_parts.
      rewrite run_bind. cbn [lift]. destruct ls as [|l0 ls].
      { exfalso. pose proof part_pos as HP.
        pose proof (counts_required_for_ceil (Z.of_nat PART) (Z.of_nat n) ltac:(lia) ltac:(lia))
          as Hceil. fold (part_block_count n) in Hceil. cbn [length] in Hlsn.
        replace (part_block_count n) with 0 in Hceil by lia. lia. }
      cbn [head expect]. rewrite run_bind.
      destruct (write_parts_loop _ _ d) as [[[]| | |] d1] eqn:Hw; cbn;
        intros [= <- <-]; [left|by right..].
      apply write_parts_chain in Hw as [? ?]; [|done]. by exists d1.
    - intros [= <- <-]. left. exists d.
      assert (n = 0%nat) as Hn0 by lia. rewrite Hn0, part_block_count_0 in Hlsn.
      destruct ls; [|cbn [length] in Hlsn; lia]. split; [done|]. split; [done|].
      split; [|by intros x _]. cbn. apply length_zero_iff_nil. lia. }
  destruct (next (d, a1)) as [r st]. destruct (Hnext r st eq_refl) as
    [(d1 & -> & -> & Hc & Hu)|Hno]; [|destruct r; try done; by destruct (Hno a0)].
  rewrite run_bind. unfold on_fst. cbn [fst snd].
  unfold mapM_err. destruct (write_block lba' _ d1) as [[[]| | |] d2] eqn:Hw; cbn; try done.
  intros [= <- <- <-]. apply write_block_ok in Hw as [Hr2 Hu2].
  exists (lba' :: ls). split; [done|]. split.
  - intros x [Hx1 Hx2]%not_elem_of_cons.
    rewrite Hu2, Hu by (done || by rewrite list_elem_of_singleton). done.
  - intros d'' Hsame. unfold read_string, read_pointer.
    rewrite Hsame by (left). rewrite Hr2. cbn [mbind result_bind mret result_ret map_err].
    rewrite from_block_data. apply read_head_parts; [done|done|].
    eapply part_chain_same; [|eapply part_chain_same; [|exact Hc]].
    + intros x Hx. apply Hsame. by right.
    + intros x Hx. apply Hu2. rewrite list_elem_of_singleton. by intros ->.
Qed.

(** The on-device form of a short string *)
Definition short_head (N : nat) (s : list Z) : DeviceStringHead :=
  mkDeviceStringHead (Z.of_nat (length s)) (padded N s) None.

(** The fixed-size string of a directory entry, completely: a name of at most [N]
    bytes is stored in the entry and read back as it was, without any block;
    a longer one makes the write panic, although the rest was meant to go to
    string parts, and one longer than a [u32] is refused. *)
Theorem write_string_head_spec (N : nat) (s : list Z) (d : D) (a : BlockAllocator) :
  (N < BLOCK_STRING_DATA_LENGTH)%nat → from_utf8 s = true →
  write_string_head (DE:=DE) N s (d, a) =
    (if decide (Z.of_nat (length s) ≤ u32_max)
     then if decide (length s ≤ N)%nat then Ok (short_head N s) else Panic
     else Err StringToLong, (d, a)) ∧
  ((length s ≤ N)%nat → ∀ d', read_string_head (DE:=DE) d' (short_head N s) = Ok s).
Proof.
  intros HN Hutf. split.
  - unfold write_string_head. destruct (split_length_spec s) as (n & h & -> & -> & -> & Hslice).
    case_decide as Hlen; [|by rewrite string_length_long by lia].
    rewrite string_length_ok by done. run. rewrite Hslice. run. case_decide as Hs.
    + rewrite take_ge, drop_ge by lia. rewrite copy_to_array_ok by done. by run.
    + unfold copy_to_array. rewrite (proj2 (Nat.leb_gt _ _)) by (rewrite length_take; lia). done.
  - intros Hs d'. unfold read_string_head, short_head. cbn [dsh_length dsh_data dsh_next].
    rewrite Nat2Z.id, Nat.min_l by lia. rewrite slice_padded by done.
    cbn [mbind result_bind]. rewrite Nat.sub_diag. cbn. by rewrite Hutf.
Qed.
End strings.
End device.
