(* ===== verification/FsDirectoryProofs.v ===== *)
(** * Directories on the device

    What [Directory::read] gives for a directory that [Directory::write] wrote:
    the directory itself while its entries fit into the blocks the write asks
    for, and an error as soon as they do not. *)

From S2P Require Import Prelude BlockDevice FsStructs BlockAllocator BlockAllocatorProofs IterExt.
From S2P Require Import FsStrings FsStringsProofs.
Local Open Scope Z_scope.

Section device.
Context {D B DE : Type} `{!BlockDevice D B DE} `{!BlockDeviceLaws D B DE}.
Context `{!BlockConstructable B DeviceStringHead} `{!BlockConstructable B BlockStringPart}.
Context `{!BlockConstructable B DirectoryHead} `{!BlockConstructable B DirectoryPart}.

Local Abbreviation NAME := DIRECTORY_ENTRY_NAME_LENGTH.
Local Abbreviation PART := DIRECTORY_PART_ENTRY_COUNT.
Local Abbreviation HEAD := DIRECTORY_HEAD_ENTRY_COUNT.

(** Entries whose name fits into the entry *)
Definition entry_ok (e : DirectoryEntry) : Prop :=
  from_utf8 (de_name e) = true ∧ (length (de_name e) ≤ NAME)%nat.

Definition fs_entry (e : DirectoryEntry) : FsDirectoryEntry :=
  mkFsDirectoryEntry (short_head NAME (de_name e)) (de_id e).

Lemma name_short : (NAME < BLOCK_STRING_DATA_LENGTH)%nat.
Proof. apply Nat.ltb_lt. by vm_compute. Qed.

Lemma write_head_ok e s : entry_ok e →
  write_string_head (DE:=DE) NAME (de_name e) s = (Ok (short_head NAME (de_name e)), s).
Proof.
  intros [Hutf Hlen]. destruct s as [d a].
  unfold write_string_head. destruct (split_length_spec (DE:=DE) (de_name e)) as (n & h & -> & -> & -> & Hs).
  pose proof name_short as Hn.
  rewrite string_length_ok; [|unfold u32_max, NAME in *; lia]. run. rewrite Hs. run.
  rewrite take_ge, drop_ge by lia. rewrite copy_to_array_ok by done. by run.
Qed.

Lemma read_head_ok e d : entry_ok e →
  read_string_head (DE:=DE) d (short_head NAME (de_name e)) = Ok (de_name e).
Proof.
  intros [Hutf Hlen]. unfold read_string_head, short_head. cbn [dsh_length dsh_data dsh_next].
  pose proof name_short as Hn.
  rewrite Nat2Z.id, Nat.min_l by lia. rewrite slice_padded by done.
  cbn [mbind result_bind]. rewrite Nat.sub_diag. cbn. by rewrite Hutf.
Qed.

Lemma DirectoryEntry_write_ok e s : entry_ok e →
  DirectoryEntry_write (DE:=DE) e s = (Ok (fs_entry e), s).
Proof. intros He. unfold DirectoryEntry_write. by rewrite run_bind, write_head_ok. Qed.

Lemma write_entries_ok es s : Forall entry_ok es →
  write_entries (DE:=DE) es s = (Ok (fs_entry <$> es), s).
Proof.
  induction 1 as [|e es He Hes IH]; [done|]. cbn [write_entries].
  rewrite run_bind, DirectoryEntry_write_ok by done. by rewrite run_bind, IH.
Qed.

Lemma extend_entries_ok d es : ∀ acc, Forall entry_ok es →
  extend_entries (DE:=DE) d acc (fs_entry <$> es) = Ok (acc ++ es).
Proof.
  induction es as [|e es IH]; intros acc Hes; cbn; [by rewrite app_nil_r|].
  apply Forall_cons in Hes as [He Hes]. unfold DirectoryEntry_load. cbn.
  rewrite read_head_ok by done. cbn. rewrite IH by done. destruct e. by rewrite <- app_assoc.
Qed.

(** The blocks [ls] hold the first pieces of [cs], linked in order. *)
Fixpoint dir_chain (d : D) (ls : list LBA) (cs : list (list DirectoryEntry)) : Prop :=
  match ls, cs with
  | [], _ => True
  | lba :: ls, c :: cs =>
      read_block d lba = Ok (block_data (mkDirectoryPart (fs_entry <$> c) (head ls))) ∧
      dir_chain d ls cs
  | _ :: _, [] => False
  end.

Lemma dir_chain_same d d' ls cs : same_blocks ls d d' → dir_chain d ls cs → dir_chain d' ls cs.
Proof.
  revert cs. induction ls as [|lba ls IH]; intros [|c cs] Hs; try done. intros [Hr Hc].
  split; [rewrite Hs; [done|left]|]. apply IH; [|done]. intros x Hx. apply Hs. by right.
Qed.

Lemma write_parts_dir ls : ∀ cs d a st,
  NoDup ls → (length ls ≤ length cs)%nat → Forall (Forall entry_ok) cs →
  write_directory_parts (DE:=DE) (Peeked_collect ls) cs (d, a) = (Ok tt, st) →
  ∃ d', st = (d', a) ∧ dir_chain d' ls cs ∧ unchanged_but ls d d'.
Proof.
  induction ls as [|lba ls IH]; intros [|c cs] d a st Hnd Hlen Hcs; cbn [length] in Hlen; try lia.
  - intros [= <-]. exists d. split; [done|]. split; [done|]. by intros x _.
  - intros [= <-]. exists d. split; [done|]. split; [done|]. by intros x _.
  - apply NoDup_cons in Hnd as [Hnin Hnd]. apply Forall_cons in Hcs as [Hc Hcs].
    cbn [Peeked_collect write_directory_parts]. rewrite run_bind, write_entries_ok by done.
    rewrite run_bind. unfold on_fst, mapM_err. cbn [fst snd].
    destruct (write_block lba _ d) as [[[]| | |] d1] eqn:Hw; cbn; try done.
    apply write_block_ok in Hw as [Hr1 Hu1]. intros Hw.
    apply IH in Hw as (d' & -> & Hch & Hu); [|done|lia|done].
    exists d'. split; [done|]. split; [split; [by rewrite Hu|done]|].
    intros x [Hx1 Hx2]%not_elem_of_cons.
    rewrite Hu, Hu1 by (done || by rewrite list_elem_of_singleton). done.
Qed.

Lemma read_parts_dir d ls : ∀ cs fuel expected acc,
  dir_chain d ls cs → Forall (Forall entry_ok) cs → (length ls ≤ fuel)%nat →
  Z.of_nat (length acc) + Z.of_nat (length (concat (take (length ls) cs))) ≤ expected →
  read_directory_loop (DE:=DE) fuel d expected (head ls) acc =
    Ok (acc ++ concat (take (length ls) cs)).
Proof.
  induction ls as [|lba ls IH]; intros cs fuel expected acc Hc Hcs Hf Hexp.
  { cbn. destruct fuel; cbn; by rewrite app_nil_r. }
  destruct cs as [|c cs]; [done|]. destruct Hc as [Hr Hc].
  destruct fuel as [|fuel]; cbn [length] in Hf; [lia|].
  apply Forall_cons in Hcs as [Hcok Hcs].
  cbn [length take concat] in Hexp |- *. rewrite length_app in Hexp.
  cbn [read_directory_loop head]. unfold read_pointer. rewrite Hr.
  cbn [mbind result_bind mret result_ret map_err]. rewrite from_block_data.
  cbn [dp_entries dp_next]. rewrite length_fmap.
  destruct (Z.gtb_spec (Z.of_nat (length acc) + Z.of_nat (length c)) expected); [lia|].
  rewrite extend_entries_ok by done. cbn [mbind result_bind].
  rewrite (IH cs fuel expected) by (done || rewrite ?length_app; lia). by rewrite <- app_assoc.
Qed.

(** The number of entries that end up in the parts *)
Definition stored_in_parts (count : nat) : nat :=
  (Z.to_nat (blocks_required_for (Z.of_nat (count - HEAD))) * PART)%nat.

Lemma blocks_for_entries m :
  let k := blocks_required_for (Z.of_nat m) in
  0 ≤ k ∧ Z.of_nat m ≤ k * 4096 < Z.of_nat m + 4096 ∧
  ((m ≤ PART)%nat → (m ≤ Z.to_nat k * PART)%nat) ∧
  ((PART < m)%nat → (Z.to_nat k * PART < m)%nat).
Proof.
  cbn. set (k := blocks_required_for (Z.of_nat m)).
  assert (Z.of_nat m ≤ k * 4096 < Z.of_nat m + 4096) as Hk
    by (apply counts_required_for_ceil; lia).
  unfold PART. split; [lia|]. split; [done|]. split; intros Hm.
  - destruct (decide (m = 0%nat)); [lia|]. assert (1 ≤ k) by lia. nia.
  - apply Nat2Z.inj_lt. rewrite Nat2Z.inj_mul, Z2Nat.id by lia. cbn. lia.
Qed.

Lemma chunks_Forall {A} (P : A → Prop) n (l : list A) :
  (0 < n)%nat → Forall P l → Forall (Forall P) (chunks n l).
Proof. intros Hn Hl. apply Forall_concat. by rewrite chunks_concat. Qed.

(** C17: what [Directory::read] gives for a directory that [Directory::write] wrote, on
    any device that still has the blocks the write used. A directory of at most
    67 entries comes back as it was. [Directory::write] asks for one block of
    parts per 4096 entries but a block holds 34, so the further entries of a
    larger directory are not stored, and reading it is an error. *)
Theorem directory_roundtrip (dir : Directory) (d d' : D) (a a' : BlockAllocator) (lba : LBA) :
  groups_ok (free a) → Forall entry_ok (entries dir) →
  Z.of_nat (length (entries dir)) ≤ u64_max →
  Directory_write (DE:=DE) dir (d, a) = (Ok lba, (d', a')) →
  ∃ own, takes a a' own ∧ unchanged_but own d d' ∧
    ∀ d'' fuel, same_blocks own d' d'' → (length own ≤ fuel)%nat →
      Directory_read (DE:=DE) fuel d'' lba =
        let count := length (entries dir) in
        if decide (count ≤ 67)%nat then Ok dir
        else Err (MalformedFs (DirectoryEntryCountMismatch (Z.of_nat count)
               (33 + Z.of_nat (stored_in_parts count)))).
Proof.
  intros Hok Hes Hmax. unfold Directory_write.
  set (count := length (entries dir)) in *.
  assert ((if (HEAD <? count)%nat then count - HEAD else 0)%nat = (count - HEAD)%nat) as ->
    by (destruct (Nat.ltb_spec HEAD count); lia).
  set (m := (count - HEAD)%nat). pose proof (blocks_for_entries m) as (Hk0 & Hk & Hle & Hgt).
  set (k := blocks_required_for (Z.of_nat m)) in *.
  rewrite run_bind. unfold on_snd at 1. cbn [snd fst].
  destruct (BlockAllocator_allocate _ a) as [[gs| | |] a1] eqn:Ha; [|done..].
  apply allocate_blocks in Ha as (ls & Hls & Hlsn & Hnd & Htakes); [|unfold u64_max in *; lia|done].
  run_ok (Hls (FsError DE)). destruct ls as [|lba' ls]; [cbn in Hlsn; lia|].
  cbn [head expect tail]. run. cbn [length] in Hlsn. apply NoDup_cons in Hnd as [Hnin Hnd].
  set (n := Nat.min HEAD count).
  assert (Forall entry_ok (take n (entries dir)) ∧ Forall entry_ok (drop n (entries dir))) as [Hes1 Hes2]
    by (split; [by apply Forall_take|by apply Forall_drop]).
  rewrite run_bind, write_entries_ok by done. rewrite run_bind. unfold on_fst, mapM_err. cbn [fst snd].
  destruct (write_block lba' _ d) as [[[]| | |] d1] eqn:Hw; cbn; try done.
  apply write_block_ok in Hw as [Hr1 Hu1]. rewrite run_bind.
  destruct (write_directory_parts _ _ (d1, a1)) as [[[]| | |] st] eqn:Hp; try done.
  intros [= <- ->].
  assert (length (drop n (entries dir)) = m) as Hm by (rewrite length_drop; fold count; lia).
  set (cs := chunks PART (drop n (entries dir))) in *.
  assert (Forall (Forall entry_ok) cs) as Hcs by (apply chunks_Forall; [unfold PART; lia|done]).
  assert (length ls ≤ length cs)%nat as Hlen.
  { pose proof (chunks_length PART (drop n (entries dir)) ltac:(unfold PART; lia)) as Hcl.
    fold cs in Hcl. rewrite Hm in Hcl. unfold PART in Hcl. lia. }
  apply write_parts_dir in Hp as (d2 & [= -> ->] & Hch & Hu2); [|done..].
  exists (lba' :: ls). split; [done|]. split.
  { intros x [Hx1 Hx2]%not_elem_of_cons.
    rewrite Hu2, Hu1 by (done || by rewrite list_elem_of_singleton). done. }
  intros d'' fuel Hsame Hfuel. cbn [length] in Hfuel. unfold Directory_read, read_pointer.
  rewrite Hsame by (left). rewrite Hu2, Hr1 by done.
  cbn [mbind result_bind mret result_ret map_err]. rewrite from_block_data.
  cbn [dh_entry_count dh_entries dh_next dh_parent]. rewrite length_fmap.
  rewrite length_take. fold count.
  rewrite (proj2 (Z.ltb_ge _ _)) by lia. rewrite extend_entries_ok by done.
  cbn [mbind result_bind app].
  assert (concat (take (length ls) cs) = take (length ls * PART) (drop n (entries dir))) as Hstored
    by (apply chunks_take; unfold PART; lia).
  assert (length ls = Z.to_nat k) as Hlk by lia.
  rewrite (read_parts_dir d'' ls cs); [|by eapply dir_chain_same;
    [|exact Hch]; intros x Hx; apply Hsame; right|done|lia|].
  2:{ rewrite Hstored, !length_take, Hm. fold count. lia. }
  cbn [mbind result_bind]. rewrite Hstored, length_app, !length_take, Hm, Hlk. fold count.
  unfold stored_in_parts. fold m k. destruct (decide (count ≤ 67)%nat) as [Hc|Hc].
  - specialize (Hle ltac:(unfold m, HEAD, PART; lia)).
    rewrite bool_decide_eq_true_2 by lia.
    rewrite (take_ge (drop n _)) by (rewrite Hm; lia). rewrite take_drop. by destruct dir.
  - specialize (Hgt ltac:(unfold m, HEAD, PART in *; lia)).
    rewrite bool_decide_eq_false_2 by lia. do 3 f_equal.
    rewrite (Nat.min_l (Z.to_nat k * PART)) by lia. unfold n, HEAD in *. lia.
Qed.
End device.
