(* ===== verification/MemTree.v ===== *)
(** * [modules/wasabi-fs/src/mem_tree]: the file tree in memory

    Nodes live in a heap and are named by pointers, as the [Box]es and the raw
    [parent] pointers of the source name them; a link holds the pointer of the
    boxed node and the device pointer. Locks are booleans: taking a lock that
    is held never returns ([Hang]), because the operations here run alone and
    nobody else would release it. Following a pointer to a freed node is a
    [Panic]. The capacities of the nodes differ between the kernel and the test
    build, so they are a class with both as instances. Recursion along the tree
    takes a bound on its height as fuel. *)

From S2P Require Import Prelude BlockDevice FsStructs BlockAllocator MemStructs.
Local Open Scope Z_scope.

(** ** Data *)

Class TreeCapacity := {
  LEAVE_MAX_FILE_COUNT : nat;
  NODE_MAX_CHILD_COUNT : nat;
  leave_even : (2 * (LEAVE_MAX_FILE_COUNT / 2) = LEAVE_MAX_FILE_COUNT)%nat;
  leave_min : (1 ≤ LEAVE_MAX_FILE_COUNT / 2)%nat;
  node_even : (2 * (NODE_MAX_CHILD_COUNT / 2) = NODE_MAX_CHILD_COUNT)%nat;
  node_min : (2 ≤ NODE_MAX_CHILD_COUNT / 2)%nat;
}.

Definition kernel_capacity : TreeCapacity.
Proof. refine {| LEAVE_MAX_FILE_COUNT := 20; NODE_MAX_CHILD_COUNT := 250 |}; cbn; lia. Defined.
Definition test_capacity : TreeCapacity.
Proof. refine {| LEAVE_MAX_FILE_COUNT := 6; NODE_MAX_CHILD_COUNT := 30 |}; cbn; lia. Defined.

Definition ptr : Type := positive.

Record MemTreeLink := mkLink { link_node : option ptr; device_ptr : option LBA }.

Inductive MemTreeNode :=
  | Node (parent : option ptr) (children : list (MemTreeLink * option FileId))
      (dirty dirty_children lock : bool)
  | Leave (parent : option ptr) (files : list FileNode) (dirty lock : bool).

Record MemTree := mkTree {
  heap : gmap ptr MemTreeNode;
  next_ptr : ptr;
  root : MemTreeLink;
  root_lock : bool;
}.

(** The place of a link: the root of the tree or a child of a node *)
Inductive link_place := AtRoot | AtChild (p : ptr) (i : nat).

Definition MemTree_empty : MemTree :=
  mkTree {[ 1%positive := Leave None [] true false ]} 2%positive
    (mkLink (Some 1%positive) None) false.

Definition MemTree_invalid : MemTree :=
  mkTree ∅ 1%positive (mkLink None None) false.

(** ** [MemTreeNode] *)

Definition node_lock (n : MemTreeNode) : bool :=
  match n with Node _ _ _ _ l => l | Leave _ _ _ l => l end.
Definition set_lock (l : bool) (n : MemTreeNode) : MemTreeNode :=
  match n with
  | Node p c d dc _ => Node p c d dc l
  | Leave p f d _ => Leave p f d l
  end.
(** [get_parent] and [get_parent_mut] *)
Definition MemTreeNode_get_parent (n : MemTreeNode) : option ptr :=
  match n with Node p _ _ _ _ => p | Leave p _ _ _ => p end.
Definition set_parent (q : option ptr) (n : MemTreeNode) : MemTreeNode :=
  match n with
  | Node _ c d dc l => Node q c d dc l
  | Leave _ f d l => Leave q f d l
  end.
(** [*node.dirty_mut() = b] *)
Definition MemTreeNode_dirty_mut (b : bool) (n : MemTreeNode) : MemTreeNode :=
  match n with
  | Node p c _ dc l => Node p c b dc l
  | Leave p f _ l => Leave p f b l
  end.
Definition MemTreeNode_has_dirty_leaves (n : MemTreeNode) : bool :=
  match n with Node _ _ d dc _ => d || dc | Leave _ _ d _ => d end.
Definition MemTreeNode_len (n : MemTreeNode) : nat :=
  match n with Node _ c _ _ _ => length c | Leave _ f _ _ => length f end.

Definition MemTreeNode_new_from (device_node : TreeNode) (parent : option ptr) : MemTreeNode :=
  match device_node with
  | TN_Leave files => Leave parent (FileNode_from <$> files) false false
  | TN_Node children =>
      Node parent ((λ c : LBA * option FileId, (mkLink None (Some c.1), c.2)) <$> children)
        false false false
  end.

Section tree.
Context `{TreeCapacity}.

Definition MemTreeNode_cap (n : MemTreeNode) : nat :=
  match n with
  | Node _ _ _ _ _ => NODE_MAX_CHILD_COUNT
  | Leave _ _ _ _ => LEAVE_MAX_FILE_COUNT
  end.

(** [StaticVec::insert] and [push] on a vector of capacity [cap] *)
Definition static_insert {E A} (cap i : nat) (x : A) (l : list A) : result E (list A) :=
  _ ← assert_ (length l <? cap)%nat; vec_insert i x l.
Definition static_push {E A} (cap : nat) (x : A) (l : list A) : result E (list A) :=
  _ ← assert_ (length l <? cap)%nat; mret (l ++ [x]).

(** ** Heap, locks and links *)

Definition get_node {E} (p : ptr) : M MemTree E MemTreeNode := λ t,
  (expect (heap t !! p), t).
Definition put_node {E} (p : ptr) (n : MemTreeNode) : M MemTree E unit :=
  modify (λ t, mkTree (<[p:=n]> (heap t)) (next_ptr t) (root t) (root_lock t)).
(** [Box::new] and the drop of a box *)
Definition box_new {E} (n : MemTreeNode) : M MemTree E ptr := λ t,
  (Ok (next_ptr t), mkTree (<[next_ptr t:=n]> (heap t)) (Pos.succ (next_ptr t)) (root t) (root_lock t)).
Definition box_drop {E} (p : ptr) : M MemTree E unit :=
  modify (λ t, mkTree (delete p (heap t)) (next_ptr t) (root t) (root_lock t)).
Definition put_root {E} (l : MemTreeLink) : M MemTree E unit :=
  modify (λ t, mkTree (heap t) (next_ptr t) l (root_lock t)).
Definition put_root_lock {E} (b : bool) : M MemTree E unit :=
  modify (λ t, mkTree (heap t) (next_ptr t) (root t) b).

Definition lock_node {E} (p : ptr) : M MemTree E unit :=
  n ← get_node p;
  if node_lock n then lift Hang else put_node p (set_lock true n).
Definition unlock_node {E} (p : ptr) : M MemTree E unit :=
  n ← get_node p; put_node p (set_lock false n).
Definition lock_root {E} : M MemTree E unit :=
  b ← gets root_lock;
  if b : bool then lift Hang else put_root_lock true.
Definition unlock_root {E} : M MemTree E unit := put_root_lock false.

Definition get_link {E} (at_ : link_place) : M MemTree E MemTreeLink :=
  match at_ with
  | AtRoot => gets root
  | AtChild p i =>
      n ← get_node p;
      match n with
      | Node _ children _ _ _ => c ← lift (vec_get children i); mret c.1
      | Leave _ _ _ _ => lift Panic
      end
  end.
Definition put_link {E} (at_ : link_place) (l : MemTreeLink) : M MemTree E unit :=
  match at_ with
  | AtRoot => put_root l
  | AtChild p i =>
      n ← get_node p;
      match n with
      | Node q children d dc lk =>
          c ← lift (vec_get children i);
          put_node p (Node q (<[i:=(l, c.2)]> children) d dc lk)
      | Leave _ _ _ _ => lift Panic
      end
  end.

Definition MemTree_set_root_device_ptr {E} (root_device_ptr : LBA) : M MemTree E unit :=
  r ← gets root;
  _ ← lift (assert_ (bool_decide (device_ptr r = None)));
  _ ← lift (assert_ (bool_decide (link_node r = None)));
  put_root (mkLink (link_node r) (Some root_device_ptr)).

(** [NodeGuard::into_parent]: unlocks the node and returns its parent; for a node
    without parent nothing happens *)
Definition NodeGuard_into_parent {E} (p : ptr) : M MemTree E (option ptr) :=
  n ← get_node p;
  match MemTreeNode_get_parent n with
  | None => mret None
  | Some q => _ ← unlock_node p; mret (Some q)
  end.

(** [unlock_upwards] *)
Fixpoint MemTree_unlock_upwards {E} (fuel : nat) (p : ptr) : M MemTree E unit :=
  match fuel with
  | O => lift Hang
  | S fuel =>
      o ← NodeGuard_into_parent p;
      match o with
      | Some q => MemTree_unlock_upwards fuel q
      | None => _ ← unlock_node p; unlock_root
      end
  end.

Section device.
Context {D B DE : Type} `{BlockDevice D B DE} `{!BlockConstructable B TreeNode}.

(** [MemTreeLink::resolve] of the link at a place *)
Definition MemTreeLink_resolve (device : D) (at_ : link_place) (parent_node : option ptr)
    : M MemTree (FsError DE) unit :=
  self ← get_link at_;
  match link_node self with
  | Some _ => mret tt
  | None =>
      match device_ptr self with
      | None => lift Panic
      | Some dp =>
          device_node ← lift (map_err map_device_error (read_pointer TreeNode device dp));
          p ← box_new (MemTreeNode_new_from device_node parent_node);
          put_link at_ (mkLink (Some p) (Some dp))
      end
  end.

(** [id <= max_id.unwrap_or(FileId::MAX)] *)
Definition id_le_max (fid : FileId) (max_id : option FileId) : bool :=
  fid <=? default u64_max max_id.

(** ** Finding the leave *)

(** The ['outer] loop of [find_leave]; [is_mut] is [BorrowType::is_mut()] *)
Fixpoint find_leave_loop (fuel : nat) (is_mut : bool) (device : D) (fid : FileId)
    (current : ptr) : M MemTree (FsError DE) ptr :=
  match fuel with
  | O => lift Hang
  | S fuel =>
      n ← get_node current;
      match n with
      | Leave _ _ _ _ => mret current
      | Node q children d dc lk =>
          _ ← (if is_mut then put_node current (Node q children d true lk) else mret tt);
          match position (λ c, id_le_max fid c.2) children with
          | None => lift Panic
          | Some i =>
              _ ← MemTreeLink_resolve device (AtChild current i) (Some current);
              child ← get_link (AtChild current i);
              next ← lift (expect (link_node child));
              _ ← lock_node next;
              _ ← (if is_mut then mret tt else unlock_node current);
              find_leave_loop fuel is_mut device fid next
          end
      end
  end.

Definition MemTree_find_leave (fuel : nat) (is_mut : bool) (device : D) (fid : FileId)
    : M MemTree (FsError DE) ptr :=
  _ ← lock_root;
  _ ← MemTreeLink_resolve device AtRoot None;
  r ← get_link AtRoot;
  current ← lift (expect (link_node r));
  _ ← lock_node current;
  _ ← (if is_mut then mret tt else unlock_root);
  find_leave_loop fuel is_mut device fid current.

(** [find]; the guard is dropped at the end, which unlocks the leave *)
Definition MemTree_find (fuel : nat) (device : D) (fid : FileId)
    : M MemTree (FsError DE) (option FileNode) :=
  leave ← MemTree_find_leave fuel false device fid;
  n ← get_node leave;
  match n with
  | Node _ _ _ _ _ => lift Panic
  | Leave _ files _ _ =>
      let result := list_find (λ f, id f = fid) files in
      _ ← unlock_node leave;
      mret (snd <$> result)
  end.

(** ** Insertion *)

(** [insert_split_at_root] *)
Definition MemTree_insert_split_at_root (root_ptr : ptr) (split_id : FileId)
    (new_node : MemTreeNode) : M MemTree (MemTreeError DE) unit :=
  n ← get_node root_ptr;
  _ ← lift (assert_ (bool_decide (MemTreeNode_get_parent n = None)));
  _ ← unlock_node root_ptr;
  old_root_link ← gets root;
  old ← lift (expect (link_node old_root_link));
  _ ← lift (assert_ (bool_decide (old = root_ptr)));
  right_node ← box_new new_node;
  new_root ← box_new (Node None
    [(mkLink (Some old) None, Some split_id); (mkLink (Some right_node) None, None)]
    true true false);
  ln ← get_node old;
  _ ← put_node old (set_parent (Some new_root) ln);
  rn ← get_node right_node;
  _ ← put_node right_node (set_parent (Some new_root) rn);
  _ ← put_root (mkLink (Some new_root) None);
  unlock_root.

(** [Some(new_node_max).take_if(|_| insert_position != len)] *)
Definition max_unless_last (new_node_max : FileId) (insert_position len : nat) : option FileId :=
  if (insert_position =? len)%nat then None else Some new_node_max.

Fixpoint MemTree_insert_split (fuel : nat) (current old_node_ptr : ptr)
    (old_node_new_max : FileId) (new_node : MemTreeNode) (new_node_max : FileId)
    : M MemTree (MemTreeError DE) unit :=
  match fuel with
  | O => lift Hang
  | S fuel =>
      n ← get_node current;
      match n with
      | Leave _ _ _ _ => lift Panic
      | Node next_parent children _ dirty_children lk =>
          new_ptr ← box_new new_node;
          let new_node_link := mkLink (Some new_ptr) None in
          old_position ← lift (expect
            (position (λ c, bool_decide (link_node c.1 = Some old_node_ptr)) children));
          let insert_position := S old_position in
          _ ← lift (assert_ (insert_position <=? length children)%nat);
          if (length children <? NODE_MAX_CHILD_COUNT)%nat then
            old ← lift (vec_get children old_position);
            let children := <[old_position:=(old.1, Some old_node_new_max)]> children in
            let new_max := max_unless_last new_node_max insert_position (length children) in
            children ← lift (static_insert NODE_MAX_CHILD_COUNT insert_position
              (new_node_link, new_max) children);
            _ ← put_node current (Node next_parent children true dirty_children lk);
            MemTree_unlock_upwards (S fuel) current
          else
            let half_capacity := (NODE_MAX_CHILD_COUNT / 2)%nat in
            let right_children := drop half_capacity children in
            let children := take half_capacity children in
            _ ← lift (assert_ (length children =? length right_children)%nat);
            '(children, right_children) ←
              (if (insert_position <=? half_capacity)%nat then
                 let new_max := max_unless_last new_node_max insert_position (length children) in
                 children ← lift (static_insert NODE_MAX_CHILD_COUNT insert_position
                   (new_node_link, new_max) children);
                 mret (children, right_children)
               else
                 let insert_position := (insert_position - half_capacity)%nat in
                 let new_max :=
                   max_unless_last new_node_max insert_position (length right_children) in
                 right_children ← lift (static_insert NODE_MAX_CHILD_COUNT insert_position
                   (new_node_link, new_max) right_children);
                 mret (children, right_children));
            last_child ← lift (expect (last children));
            split_id ← lift (expect last_child.2);
            let new_node := Node next_parent right_children true true false in
            _ ← put_node current (Node next_parent children true dirty_children lk);
            o ← NodeGuard_into_parent current;
            match o with
            | Some parent =>
                MemTree_insert_split fuel parent current split_id new_node new_node_max
            | None => MemTree_insert_split_at_root current split_id new_node
            end
      end
  end.

(** The part of [insert] after the leave was found to be full *)
Definition insert_full_leave (fuel : nat) (leave : ptr) (q : option ptr) (files : list FileNode)
    (lk : bool) (insert_pos : nat) (file : FileNode) : M MemTree (MemTreeError DE) unit :=
  let half_capacity := (LEAVE_MAX_FILE_COUNT / 2)%nat in
  let right_node_files := drop half_capacity files in
  let left_node_files := take half_capacity files in
  _ ← lift (assert_ (length left_node_files =? length right_node_files)%nat);
  '(left_node_files, right_node_files) ←
    (if (insert_pos <=? half_capacity)%nat then
       l ← lift (static_insert LEAVE_MAX_FILE_COUNT insert_pos file left_node_files);
       mret (l, right_node_files)
     else
       l ← lift (static_insert LEAVE_MAX_FILE_COUNT (insert_pos - half_capacity) file
                   right_node_files);
       mret (left_node_files, l));
  left_last ← lift (expect (last left_node_files));
  right_last ← lift (expect (last right_node_files));
  let split_id := id left_last in
  let new_node_max := id right_last in
  let new_node := Leave q right_node_files true false in
  _ ← put_node leave (Leave q left_node_files true lk);
  o ← NodeGuard_into_parent leave;
  match o with
  | Some p => MemTree_insert_split fuel p leave split_id new_node new_node_max
  | None => MemTree_insert_split_at_root leave split_id new_node
  end.

(** [insert] *)
Definition MemTree_insert (fuel : nat) (device : D) (file : FileNode) (create_only : bool)
    : M MemTree (MemTreeError DE) unit :=
  leave ← mapM_err MemTreeError_from (MemTree_find_leave fuel true device (id file));
  n ← get_node leave;
  match n with
  | Node _ _ _ _ _ => lift Panic
  | Leave q files d lk =>
      match position (λ f, id f =? id file) files with
      | Some override_pos =>
          if create_only then
            _ ← MemTree_unlock_upwards fuel leave;
            lift (Err (FileNodeExists (id file)))
          else
            l ← lift (vec_set override_pos file files);
            _ ← put_node leave (Leave q l true lk);
            MemTree_unlock_upwards fuel leave
      | None =>
          let insert_pos :=
            default (length files) (position (λ f, id f >? id file) files) in
          if (length files <? LEAVE_MAX_FILE_COUNT)%nat then
            l ← lift (static_insert LEAVE_MAX_FILE_COUNT insert_pos file files);
            _ ← put_node leave (Leave q l true lk);
            MemTree_unlock_upwards fuel leave
          else insert_full_leave fuel leave q files lk insert_pos file
      end
  end.

Definition MemTree_insert_new (fuel : nat) (device : D) (file : FileNode)
    : M MemTree (MemTreeError DE) unit := MemTree_insert fuel device file true.
Definition MemTree_update (fuel : nat) (device : D) (file : FileNode)
    : M MemTree (MemTreeError DE) unit := MemTree_insert fuel device file false.

(** ** Deletion *)

Inductive DeleteRebalanceMode :=
  | TakeFromRight
  | TakeFromLeft
  | Merge (merge_left_index : nat).

(** [ChildrenForRebalance]: the two nodes, both locked, and the places of their
    maxima in the parent's children *)
Record ChildrenForRebalance := mkChildren {
  left_guard : ptr;
  left_index : nat;
  right_guard : ptr;
  right_index : nat;
  rmode : DeleteRebalanceMode;
}.

Inductive RebalanceVariants :=
  | RV_Merge (left right : nat)
  | RV_TakeFromRight
  | RV_TakeFromLeft.

Definition to_check (unbalanced_index len : nat) : list (RebalanceVariants * bool) :=
  let u := unbalanced_index in
  if (u =? 0)%nat then
    [(RV_TakeFromRight, false); (RV_Merge u (u + 1), false);
     (RV_Merge u (u + 1), true); (RV_TakeFromRight, true)]
  else if (u =? len - 1)%nat then
    [(RV_TakeFromLeft, false); (RV_Merge (u - 1) u, false);
     (RV_Merge (u - 1) u, true); (RV_TakeFromLeft, true)]
  else
    [(RV_TakeFromRight, false); (RV_TakeFromLeft, false);
     (RV_Merge (u - 1) u, false); (RV_Merge u (u + 1), false);
     (RV_Merge (u - 1) u, true); (RV_Merge u (u + 1), true);
     (RV_TakeFromRight, true); (RV_TakeFromLeft, true)].

Definition resolve_if (resolve : bool) (device : D) (node : ptr) (i : nat)
    : M MemTree (FsError DE) unit :=
  if resolve then MemTreeLink_resolve device (AtChild node i) (Some node) else mret tt.

(** [link.as_mut()] of a child *)
Definition child_ptr {E} (node : ptr) (i : nat) : M MemTree E (option ptr) :=
  l ← get_link (AtChild node i); mret (link_node l).

(** Both nodes are locked and returned as guards. *)
Definition lock_pair (left right : ptr) (li ri : nat) (mode : DeleteRebalanceMode)
    : M MemTree (FsError DE) (option ChildrenForRebalance) :=
  _ ← lock_node left;
  _ ← lock_node right;
  mret (Some (mkChildren left li right ri mode)).

(** One entry of [to_check]; [None] is [continue] or falling through *)
Definition try_variant (device : D) (node : ptr) (u : nat) (v : RebalanceVariants)
    (resolve : bool) : M MemTree (FsError DE) (option ChildrenForRebalance) :=
  match v with
  | RV_Merge li ri =>
      _ ← resolve_if resolve device node li;
      _ ← resolve_if resolve device node ri;
      lo ← child_ptr node li;
      ro ← child_ptr node ri;
      match lo, ro with
      | Some l, Some r =>
          ln ← get_node l;
          rn ← get_node r;
          if (MemTreeNode_len ln + MemTreeNode_len rn <=? MemTreeNode_cap ln)%nat
          then lock_pair l r li ri (Merge li)
          else mret None
      | _, _ => mret None
      end
  | RV_TakeFromRight =>
      _ ← resolve_if resolve device node (u + 1)%nat;
      lo ← child_ptr node u;
      l ← lift (expect lo);
      ro ← child_ptr node (u + 1)%nat;
      match ro with
      | None => mret None
      | Some r =>
          rn ← get_node r;
          if (MemTreeNode_cap rn / 2 <? MemTreeNode_len rn)%nat
          then lock_pair l r u (u + 1) TakeFromRight
          else mret None
      end
  | RV_TakeFromLeft =>
      _ ← resolve_if resolve device node (u - 1)%nat;
      lo ← child_ptr node (u - 1)%nat;
      match lo with
      | None => mret None
      | Some l =>
          ro ← child_ptr node u;
          r ← lift (expect ro);
          ln ← get_node l;
          if (MemTreeNode_cap ln / 2 <? MemTreeNode_len ln)%nat
          then lock_pair l r (u - 1) u TakeFromLeft
          else mret None
      end
  end.

Fixpoint try_variants (device : D) (node : ptr) (u : nat)
    (vs : list (RebalanceVariants * bool)) : M MemTree (FsError DE) ChildrenForRebalance :=
  match vs with
  | [] => lift Panic
  | (v, resolve) :: vs =>
      o ← try_variant device node u v resolve;
      match o with
      | Some c => mret c
      | None => try_variants device node u vs
      end
  end.

Definition MemTree_get_children_for_rebalance (node unbalanced_ptr : ptr) (device : D)
    : M MemTree (FsError DE) ChildrenForRebalance :=
  n ← get_node node;
  match n with
  | Leave _ _ _ _ => lift Panic
  | Node q children _ _ _ =>
      _ ← lift (assert_ ((NODE_MAX_CHILD_COUNT / 2 <? length children)%nat
                         || bool_decide (q = None)));
      _ ← lift (assert_ (2 <=? length children)%nat);
      unbalanced_index ← lift (expect
        (position (λ c, bool_decide (link_node c.1 = Some unbalanced_ptr)) children));
      try_variants device node unbalanced_index (to_check unbalanced_index (length children))
  end.

(** Reading and writing [children[i].1], the target of [left_max_id] and
    [right_max_id] *)
Definition get_max {E} (node : ptr) (i : nat) : M MemTree E (option FileId) :=
  n ← get_node node;
  match n with
  | Node _ children _ _ _ => c ← lift (vec_get children i); mret c.2
  | Leave _ _ _ _ => lift Panic
  end.
Definition put_max {E} (node : ptr) (i : nat) (m : option FileId) : M MemTree E unit :=
  n ← get_node node;
  match n with
  | Node q children d dc lk =>
      c ← lift (vec_get children i);
      put_node node (Node q (<[i:=(c.1, m)]> children) d dc lk)
  | Leave _ _ _ _ => lift Panic
  end.

(** [children[merge_left_index] = (new_link, merged_max_id);
    children.remove(merge_left_index + 1)], which drops the two old nodes *)
Definition replace_merged {E} (node : ptr) (i : nat) (new_link : MemTreeLink)
    (m : option FileId) (left right : ptr) : M MemTree E unit :=
  n ← get_node node;
  match n with
  | Node q children d dc lk =>
      children ← lift (vec_set i (new_link, m) children);
      '(_, children) ← lift (vec_remove (S i) children);
      _ ← put_node node (Node q children d dc lk);
      _ ← box_drop left;
      box_drop right
  | Leave _ _ _ _ => lift Panic
  end.

(** [rebalance_node] for the root: a root with one child is replaced by it *)
Definition promote_only_child {E} (unbalanced_root : ptr) : M MemTree E unit :=
  n ← get_node unbalanced_root;
  match n with
  | Leave _ _ _ _ => lift Panic
  | Node q children d dc lk =>
      '((new_root_link, max), children) ← lift (vec_remove 0 children);
      _ ← lift (assert_ (bool_decide (max = None)));
      _ ← put_node unbalanced_root (Node q children d dc lk);
      new_root ← lift (expect (link_node new_root_link));
      _ ← lock_node new_root;
      rn ← get_node new_root;
      _ ← put_node new_root (set_parent None rn);
      _ ← unlock_node new_root;
      old ← gets root;
      _ ← match link_node old with Some o => box_drop o | None => mret tt end;
      _ ← put_root new_root_link;
      unlock_root
  end.

(** [m.map_err(MemTreeError::from)?] while the [Mut] guard of the parent is alive: on
    an error the guard is dropped, and dropping a [Mut] guard panics. *)
Definition question_mark_under_guard {E E' A} (m : M MemTree E A) : M MemTree E' A := λ t,
  match m t with
  | (Ok a, t) => (Ok a, t)
  | (Err _, t) | (Panic, t) => (Panic, t)
  | (Hang, t) => (Hang, t)
  end.

(** The three ways of [rebalance_node] for a node that is not the root; [true] when
    the nodes were merged and the parent has to be looked at next *)
Definition rebalance_node_step (device : D) (parent unbalanced : ptr)
    : M MemTree (MemTreeError DE) bool :=
  c ← question_mark_under_guard
        (MemTree_get_children_for_rebalance parent unbalanced device);
  ln ← get_node (left_guard c);
  rn ← get_node (right_guard c);
  match ln, rn with
  | Node lq lcs _ ldc llk, Node rq rcs _ rdc rlk =>
      match rmode c with
      | TakeFromRight =>
          '(to_move, rcs) ← lift (vec_remove 0 rcs);
          _ ← lift (assert_ (NODE_MAX_CHILD_COUNT / 2 <=? length rcs)%nat);
          left_new_max ← lift (expect to_move.2);
          left_max ← get_max parent (left_index c);
          lm ← lift (expect left_max);
          _ ← lift (assert_ (left_new_max >? lm));
          _ ← put_max parent (left_index c) (Some left_new_max);
          lcs ← lift (static_push NODE_MAX_CHILD_COUNT to_move lcs);
          _ ← put_node (left_guard c) (Node lq lcs true ldc llk);
          _ ← put_node (right_guard c) (Node rq rcs true rdc rlk);
          _ ← unlock_node (left_guard c);
          _ ← unlock_node (right_guard c);
          mret false
      | TakeFromLeft =>
          '(to_move, lcs) ← lift (vec_remove (length lcs - 1) lcs);
          _ ← lift (assert_ (NODE_MAX_CHILD_COUNT / 2 <=? length lcs)%nat);
          _ ← lift (assert_ (bool_decide (to_move.2 = None)));
          left_max ← get_max parent (left_index c);
          lm ← lift (expect left_max);
          let to_move := (to_move.1, Some lm) in
          new_last_left ← lift (vec_get lcs (length lcs - 1));
          new_left_max ← lift (expect new_last_left.2);
          let lcs := <[(length lcs - 1)%nat:=(new_last_left.1, None)]> lcs in
          _ ← put_max parent (left_index c) (Some new_left_max);
          rcs ← lift (static_insert NODE_MAX_CHILD_COUNT 0 to_move rcs);
          _ ← put_node (left_guard c) (Node lq lcs true ldc llk);
          _ ← put_node (right_guard c) (Node rq rcs true rdc rlk);
          _ ← unlock_node (left_guard c);
          _ ← unlock_node (right_guard c);
          mret false
      | Merge merge_left_index =>
          _ ← lift (assert_ (length (lcs ++ rcs) <=? NODE_MAX_CHILD_COUNT)%nat);
          merged_max_id ← get_max parent (right_index c);
          new_node ← box_new (Node lq (lcs ++ rcs) true true false);
          _ ← replace_merged parent merge_left_index (mkLink (Some new_node) None) merged_max_id
                (left_guard c) (right_guard c);
          mret true
      end
  | _, _ => lift Panic
  end.

Fixpoint MemTree_rebalance_node (fuel : nat) (unbalanced_node : ptr) (device : D)
    : M MemTree (MemTreeError DE) unit :=
  match fuel with
  | O => lift Hang
  | S fuel =>
      o ← NodeGuard_into_parent unbalanced_node;
      match o with
      | None =>
          n ← get_node unbalanced_node;
          if (MemTreeNode_len n =? 1)%nat then promote_only_child unbalanced_node
          else MemTree_unlock_upwards (S fuel) unbalanced_node
      | Some parent =>
          merged ← rebalance_node_step device parent unbalanced_node;
          if merged : bool then MemTree_rebalance_node fuel parent device
          else MemTree_unlock_upwards fuel parent
      end
  end.

Definition MemTree_rebalance_leave (fuel : nat) (unbalanced_node : ptr) (device : D)
    : M MemTree (MemTreeError DE) unit :=
  o ← NodeGuard_into_parent unbalanced_node;
  parent ← lift (expect o);
  c ← question_mark_under_guard
        (MemTree_get_children_for_rebalance parent unbalanced_node device);
  ln ← get_node (left_guard c);
  rn ← get_node (right_guard c);
  match ln, rn with
  | Leave lq lfs _ llk, Leave rq rfs _ rlk =>
      match rmode c with
      | TakeFromRight =>
          '(to_move, rfs) ← lift (vec_remove 0 rfs);
          _ ← lift (assert_ (LEAVE_MAX_FILE_COUNT / 2 <=? length rfs)%nat);
          left_max ← get_max parent (left_index c);
          lm ← lift (expect left_max);
          _ ← lift (assert_ (id to_move >? lm));
          _ ← put_max parent (left_index c) (Some (id to_move));
          lfs ← lift (static_push LEAVE_MAX_FILE_COUNT to_move lfs);
          _ ← put_node (left_guard c) (Leave lq lfs true llk);
          _ ← put_node (right_guard c) (Leave rq rfs true rlk);
          _ ← unlock_node (left_guard c);
          _ ← unlock_node (right_guard c);
          MemTree_unlock_upwards fuel parent
      | TakeFromLeft =>
          '(to_move, lfs) ← lift (vec_remove (length lfs - 1) lfs);
          _ ← lift (assert_ (LEAVE_MAX_FILE_COUNT / 2 <=? length lfs)%nat);
          left_last ← lift (vec_get lfs (length lfs - 1));
          _ ← put_max parent (left_index c) (Some (id left_last));
          first ← lift (vec_get rfs 0);
          _ ← lift (assert_ (id to_move <? id first));
          rfs ← lift (static_insert LEAVE_MAX_FILE_COUNT 0 to_move rfs);
          _ ← put_node (left_guard c) (Leave lq lfs true llk);
          _ ← put_node (right_guard c) (Leave rq rfs true rlk);
          _ ← unlock_node (left_guard c);
          _ ← unlock_node (right_guard c);
          MemTree_unlock_upwards fuel parent
      | Merge merge_left_index =>
          _ ← lift (assert_ (length (lfs ++ rfs) <=? LEAVE_MAX_FILE_COUNT)%nat);
          merged_max_id ← get_max parent (right_index c);
          new_node ← box_new (Leave lq (lfs ++ rfs) true false);
          _ ← replace_merged parent merge_left_index (mkLink (Some new_node) None) merged_max_id
                (left_guard c) (right_guard c);
          MemTree_rebalance_node fuel parent device
      end
  | _, _ => lift Panic
  end.

Definition MemTree_delete (fuel : nat) (device : D) (file_id : FileId)
    : M MemTree (MemTreeError DE) FileNode :=
  leave ← mapM_err MemTreeError_from (MemTree_find_leave fuel true device file_id);
  n ← get_node leave;
  match n with
  | Node _ _ _ _ _ => lift Panic
  | Leave q files d lk =>
      match position (λ f, id f =? file_id) files with
      | None =>
          _ ← MemTree_unlock_upwards fuel leave;
          lift (Err (MTE_FileDoesNotExist file_id))
      | Some file_pos =>
          '(file_node, files) ← lift (vec_remove file_pos files);
          _ ← put_node leave (Leave q files true lk);
          if (LEAVE_MAX_FILE_COUNT / 2 <=? length files)%nat || bool_decide (q = None) then
            _ ← MemTree_unlock_upwards fuel leave;
            mret file_node
          else
            _ ← MemTree_rebalance_leave fuel leave device;
            mret file_node
      end
  end.

(** ** Validity *)

(** The match on two neighbouring maxima *)
Definition max_ascends (first second : option FileId) : bool :=
  match first, second with
  | Some first, Some second => first <? second
  | Some _, None => true
  | None, _ => false
  end.

Fixpoint assert_valid_children {E} (check : ptr → M MemTree E unit)
    (children : list (MemTreeLink * option FileId)) : M MemTree E unit :=
  match children with
  | [] => mret tt
  | (link, _) :: children =>
      _ ← match link_node link with Some p => check p | None => mret tt end;
      assert_valid_children check children
  end.

Fixpoint MemTreeNode_assert_valid {E} (fuel : nat) (parent : option ptr) (self : ptr)
    : M MemTree E unit :=
  match fuel with
  | O => lift Hang
  | S fuel =>
      _ ← lock_node self;
      n ← get_node self;
      _ ← lift (assert_ (bool_decide (parent = MemTreeNode_get_parent n)));
      _ ← (match parent with
           | Some _ => lift (assert_ (MemTreeNode_cap n / 2 <=? MemTreeNode_len n)%nat)
           | None => mret tt
           end);
      _ ← match n with
          | Node _ children _ _ _ =>
              _ ← lift (assert_ (windows2_all max_ascends (snd <$> children)));
              l ← lift (expect (last children));
              _ ← lift (assert_ (bool_decide (l.2 = None)));
              assert_valid_children (MemTreeNode_assert_valid fuel (Some self)) children
          | Leave _ files _ _ =>
              lift (assert_ (windows2_all (λ a b, id a <=? id b) files))
          end;
      unlock_node self
  end.

Definition MemTree_assert_valid {E} (fuel : nat) : M MemTree E unit :=
  _ ← lock_root;
  r ← gets root;
  p ← lift (expect (link_node r));
  _ ← MemTreeNode_assert_valid fuel None p;
  unlock_root.

(** ** Writing the tree to the device

    The state is the tree, the device and the block allocator. *)
Context `{!BlockConstructable B FsBlockList}.

Definition FM (A : Type) : Type := M (MemTree * (D * BlockAllocator)) (FsError DE) A.

(** A body under a [MutChild] guard: the guard unlocks the node when it is dropped,
    also on an early return with an error. *)
Definition with_guard (p : ptr) (body : FM unit) : FM unit := λ s,
  match (_ ← on_fst (lock_node p); body) s with
  | (Ok u, s) => (_ ← on_fst (unlock_node p); mret u) s
  | (Err e, s) => (_ ← on_fst (unlock_node p); lift (Err e)) s
  | (Panic, s) => (Panic, s)
  | (Hang, s) => (Hang, s)
  end.

(** [for file in files { fs_files.push(file.write(device, block_allocator)?) }],
    [n] files from index [i] on *)
Fixpoint flush_files (p : ptr) (i n : nat) (fs_files : list FsFileNode) : FM (list FsFileNode) :=
  match n with
  | O => mret fs_files
  | S n =>
      nd ← on_fst (get_node p);
      match nd with
      | Node _ _ _ _ _ => lift Panic
      | Leave q files d lk =>
          f ← lift (vec_get files i);
          '(fs_file, f) ← on_snd (FileNode_write f);
          _ ← on_fst (put_node p (Leave q (<[i:=f]> files) d lk));
          flush_files p (S i) n (fs_files ++ [fs_file])
      end
  end.

(** [for (child_link, _) in children { child_link.flush_to_device(..)? }] *)
Fixpoint flush_children (flush : link_place → FM unit) (p : ptr) (i n : nat) : FM unit :=
  match n with
  | O => mret tt
  | S n => _ ← flush (AtChild p i); flush_children flush p (S i) n
  end.

(** The children of the device node; every link must have a device pointer *)
Fixpoint device_children {E} (children : list (MemTreeLink * option FileId))
    : result E (list (LBA * option FileId)) :=
  match children with
  | [] => mret []
  | (link, max_id) :: children =>
      dp ← expect (device_ptr link);
      l ← device_children children;
      mret ((dp, max_id) :: l)
  end.

(** Writing a dirty node to a new block *)
Definition flush_dirty_node (at_ : link_place) (p : ptr) : FM unit :=
  dp ← on_snd (on_snd BlockAllocator_allocate_block);
  self ← on_fst (get_link at_);
  _ ← on_fst (put_link at_ (mkLink (link_node self) (Some dp)));
  _ ← match device_ptr self with
      | Some old_device_ptr => on_snd (on_snd (BlockAllocator_free_block old_device_ptr))
      | None => mret tt
      end;
  n ← on_fst (get_node p);
  tree_node ←
    match n with
    | Node _ children _ _ _ => cs ← lift (device_children children); mret (TN_Node cs)
    | Leave _ files _ _ => fs ← flush_files p 0 (length files) []; mret (TN_Leave fs)
    end;
  _ ← on_snd (on_fst (mapM_err map_device_error (write_block dp (block_data tree_node))));
  n ← on_fst (get_node p);
  on_fst (put_node p (MemTreeNode_dirty_mut false n)).

(** [MemTreeLink::flush_to_device] of the link at a place *)
Fixpoint MemTreeLink_flush_to_device (fuel : nat) (at_ : link_place) : FM unit :=
  match fuel with
  | O => lift Hang
  | S fuel =>
      self ← on_fst (get_link at_);
      match link_node self with
      | None => lift (assert_ (bool_decide (is_Some (device_ptr self))))
      | Some p =>
          with_guard p (
            n ← on_fst (get_node p);
            d ← match n with
                | Node _ children d dc _ =>
                    _ ← (if dc : bool then
                           _ ← flush_children (MemTreeLink_flush_to_device fuel) p 0
                                 (length children);
                           n ← on_fst (get_node p);
                           match n with
                           | Node q children d _ lk => on_fst (put_node p (Node q children d false lk))
                           | Leave _ _ _ _ => lift Panic
                           end
                         else mret tt);
                    mret d
                | Leave _ _ d _ => mret d
                end;
            if d : bool then flush_dirty_node at_ p else mret tt)
      end
  end.

(** The part of [MemTree::flush_to_device] under the root lock: the result of the
    link is looked at only after the lock is released *)
Definition flush_root (fuel : nat) : FM LBA := λ s,
  match MemTreeLink_flush_to_device fuel AtRoot s with
  | (Panic, s) => (Panic, s)
  | (Hang, s) => (Hang, s)
  | (r, s) =>
      (root_link ← on_fst (gets root);
       root_ptr ← lift (expect (device_ptr root_link));
       _ ← on_fst unlock_root;
       _ ← lift r;
       mret root_ptr) s
  end.

Definition MemTree_flush_to_device (fuel : nat) : FM LBA :=
  _ ← on_fst lock_root;
  flush_root fuel.
End device.
End tree.
