(* ===== verification/Fs.v ===== *)
(** * [modules/wasabi-fs/src/fs.rs]: the file system

    [FileSystem] with its header, opening, closing, flushing, directories and
    files. The type parameter that tells read-only from writable file systems
    exists only at compile time and is left out. The device of a file system that
    is opened or created is returned beside the result, as its blocks keep their
    contents when the file system value is dropped. *)

From S2P Require Import Prelude BlockDevice FsStructs BlockAllocator IterExt MemStructs.
From S2P Require Import FsStrings MemTree.
Local Open Scope Z_scope.

(** ** Constants and data *)

Definition INITALLY_USED_BLOCKS : list LBA := [MAIN_HEADER_BLOCK].
Definition MIN_BLOCK_COUNT : Z := 4.
Definition RETRY_COMPARE_EXCHANGE_COUNT : nat := 10.

Inductive AccessMode := ReadOnly | ReadWrite.
Inductive OverwriteCheck := CheckExisting | IgnoreExisting.

#[export] Instance AccessMode_eq_dec : EqDecision AccessMode.
Proof. solve_decision. Defined.

Record HeaderData := mkHeaderData {
  hd_name : option (list Z);
  hd_name_head : option LBA;
  hd_version : list Z;
  hd_uuid : Z;
  hd_next_file_id : FileId;
  hd_dirty : bool;
  hd_status : FsStatus;
  hd_mount_count : Z;
  hd_root_ptr : LBA;
  hd_free_blocks : option LBA;
}.

Inductive DirectoryChange :=
  | Created (dir_id : FileId) (dir : Directory)
  | InsertFile (dir_id : FileId) (entry : DirectoryEntry).

Record FileSystem (D : Type) := mkFs {
  device : D;
  max_block_count : Z;
  max_usable_lba : LBA;
  backup_header_lba : LBA;
  block_allocator : BlockAllocator;
  header_data : HeaderData;
  mem_tree : MemTree;
  directory_changes : list DirectoryChange;
  access_mode : AccessMode;
}.
Arguments mkFs {D}.
Arguments device {D}.
Arguments max_block_count {D}.
Arguments max_usable_lba {D}.
Arguments backup_header_lba {D}.
Arguments block_allocator {D}.
Arguments header_data {D}.
Arguments mem_tree {D}.
Arguments directory_changes {D}.
Arguments access_mode {D}.

(** ** Updates of single fields *)

Section updates.
Context {D : Type}.
Implicit Types fs : FileSystem D.

Definition set_device (d : D) fs : FileSystem D :=
  mkFs d (max_block_count fs) (max_usable_lba fs) (backup_header_lba fs) (block_allocator fs)
    (header_data fs) (mem_tree fs) (directory_changes fs) (access_mode fs).
Definition set_limits (n : Z) (lba backup : LBA) fs : FileSystem D :=
  mkFs (device fs) n lba backup (block_allocator fs)
    (header_data fs) (mem_tree fs) (directory_changes fs) (access_mode fs).
Definition set_allocator (a : BlockAllocator) fs : FileSystem D :=
  mkFs (device fs) (max_block_count fs) (max_usable_lba fs) (backup_header_lba fs) a
    (header_data fs) (mem_tree fs) (directory_changes fs) (access_mode fs).
Definition set_header_data (h : HeaderData) fs : FileSystem D :=
  mkFs (device fs) (max_block_count fs) (max_usable_lba fs) (backup_header_lba fs)
    (block_allocator fs) h (mem_tree fs) (directory_changes fs) (access_mode fs).
Definition set_mem_tree (t : MemTree) fs : FileSystem D :=
  mkFs (device fs) (max_block_count fs) (max_usable_lba fs) (backup_header_lba fs)
    (block_allocator fs) (header_data fs) t (directory_changes fs) (access_mode fs).
Definition set_changes (l : list DirectoryChange) fs : FileSystem D :=
  mkFs (device fs) (max_block_count fs) (max_usable_lba fs) (backup_header_lba fs)
    (block_allocator fs) (header_data fs) (mem_tree fs) l (access_mode fs).
Definition set_access (m : AccessMode) fs : FileSystem D :=
  mkFs (device fs) (max_block_count fs) (max_usable_lba fs) (backup_header_lba fs)
    (block_allocator fs) (header_data fs) (mem_tree fs) (directory_changes fs) m.
End updates.

Definition hd_set_name (name : option (list Z)) (head : option LBA) (h : HeaderData) : HeaderData :=
  mkHeaderData name head (hd_version h) (hd_uuid h) (hd_next_file_id h) (hd_dirty h)
    (hd_status h) (hd_mount_count h) (hd_root_ptr h) (hd_free_blocks h).
Definition hd_set_uuid (uuid : Z) (h : HeaderData) : HeaderData :=
  mkHeaderData (hd_name h) (hd_name_head h) (hd_version h) uuid (hd_next_file_id h)
    (hd_dirty h) (hd_status h) (hd_mount_count h) (hd_root_ptr h) (hd_free_blocks h).
Definition hd_set_next_file_id (id : FileId) (h : HeaderData) : HeaderData :=
  mkHeaderData (hd_name h) (hd_name_head h) (hd_version h) (hd_uuid h) id
    (hd_dirty h) (hd_status h) (hd_mount_count h) (hd_root_ptr h) (hd_free_blocks h).
Definition hd_set_mount (status : FsStatus) (count : Z) (h : HeaderData) : HeaderData :=
  mkHeaderData (hd_name h) (hd_name_head h) (hd_version h) (hd_uuid h) (hd_next_file_id h)
    (hd_dirty h) status count (hd_root_ptr h) (hd_free_blocks h).
Definition hd_set_root (root : LBA) (h : HeaderData) : HeaderData :=
  mkHeaderData (hd_name h) (hd_name_head h) (hd_version h) (hd_uuid h) (hd_next_file_id h)
    (hd_dirty h) (hd_status h) (hd_mount_count h) root (hd_free_blocks h).
Definition hd_set_free_blocks (p : LBA) (h : HeaderData) : HeaderData :=
  mkHeaderData (hd_name h) (hd_name_head h) (hd_version h) (hd_uuid h) (hd_next_file_id h)
    (hd_dirty h) (hd_status h) (hd_mount_count h) (hd_root_ptr h) (Some p).

Definition set_transient (t : MainTransientHeader) (h : MainHeader) : MainHeader :=
  mkMainHeader (mh_magic h) (mh_version h) (mh_uuid h) (mh_root h) (mh_free_blocks h)
    (mh_backup_header h) (mh_name h) (Some t) (mh_next_file_id h).
Definition set_mount (count : Z) (write : bool) (t : MainTransientHeader) : MainTransientHeader :=
  mkMainTransientHeader (th_magic t) count write (th_status t).

(** [u8] arithmetic *)
Definition add_u8 {E} (a b : Z) : result E Z := if a + b <=? 255 then Ok (a + b) else Panic.
Definition sub_u8 {E} (a b : Z) : result E Z := if b <=? a then Ok (a - b) else Panic.

(** ** [existing_fs_check.rs] *)

Inductive FsFound :=
  | FoundNone
  | WasabiFs (version : list Z)
  | Fat16 | Fat32 | Ntfs | Ext | Xfs | Btrfs.

#[export] Instance FsFound_eq_dec : EqDecision FsFound.
Proof. solve_decision. Defined.

Definition FS_MAGICS : list (FsFound * Z * list Z) :=
  [(Fat16, 54, [70; 65; 84; 49; 54]);
   (Fat32, 54, [70; 65; 84; 51; 50]);
   (Ntfs, 3, [78; 84; 70; 83]);
   (Ext, 1080, [83; 239]);
   (Xfs, 0, [88; 70; 83; 66]);
   (Btrfs, 65600, [95; 66; 72; 82; 102; 83; 95; 77])].

(** The bytes of a block, and the accesses to the device that transfer bytes *)
Class BlockBytes (D B DE : Type) := {
  block_bytes : B → list Z;
  (** the contents of a buffer of the given length after the blocks were read into it *)
  read_blocks : D → list BlockGroup → Z → result DE (list Z);
  write_blocks : list BlockGroup → list Z → M D DE unit;
  write_partial_block : LBA → list Z → Z → M D DE unit;
}.

Section check.
Context {D B DE : Type} `{BlockDevice D B DE} `{!BlockBytes D B DE}.

(** [&block[offset..offset + n]] *)
Definition slice_range {E A} (offset n : nat) (l : list A) : result E (list A) :=
  l ← slice_from offset l; slice_to n l.

(** [magic] and [version] are the first two fields of the header. *)
Definition check_for_wasabifs (device : D) : result DE FsFound :=
  if MAIN_HEADER_BLOCK >=? size device then mret FoundNone
  else
    block ← read_block device MAIN_HEADER_BLOCK;
    let bytes := block_bytes (D:=D) (DE:=DE) block in
    magic ← slice_range 0 8 bytes;
    if bool_decide (magic = MainHeader_MAGIC) then
      version ← slice_range 8 4 bytes;
      mret (WasabiFs version)
    else mret FoundNone.

(** The [for] loop over [FS_MAGICS] *)
Fixpoint check_magics (device : D) (magics : list (FsFound * Z * list Z)) : result DE FsFound :=
  match magics with
  | [] => mret FoundNone
  | (fs, offset, magic) :: magics =>
      let block := offset / BLOCK_SIZE in
      let offset_in_block := offset mod BLOCK_SIZE in
      if block >=? size device then check_magics device magics
      else
        lba ← expect (LBA_new block);
        buffer ← read_block device lba;
        found ← slice_range (Z.to_nat offset_in_block) (length magic)
                  (block_bytes (D:=D) (DE:=DE) buffer);
        if bool_decide (found = magic) then mret fs else check_magics device magics
  end.

Definition check_for_filesystem (device : D) : result DE FsFound :=
  fs_found ← check_for_wasabifs device;
  match fs_found with
  | WasabiFs version => mret (WasabiFs version)
  | _ => check_magics device FS_MAGICS
  end.
End check.

(** ** The file system as state *)

Section fs.
Context `{TreeCapacity}.
Context {D B DE : Type} `{BlockDevice D B DE} `{!BlockBytes D B DE}.
Context `{!BlockConstructable B MainHeader} `{!BlockConstructable B TreeNode}.
Context `{!BlockConstructable B FreeBlockGroups} `{!BlockConstructable B FsBlockList}.
Context `{!BlockConstructable B DeviceStringHead} `{!BlockConstructable B BlockStringPart}.
Context `{!BlockConstructable B DirectoryHead} `{!BlockConstructable B DirectoryPart}.

(** A bound on the height of the tree and on the length of the chains of blocks *)
Variable fuel : nat.
(** The order in which a [HashMap] with these entries is iterated *)
Variable hash_order : list (FileId * Directory) → list (FileId * Directory).

Local Abbreviation FSM := (M (FileSystem D) (FsError DE)).

(** Calls on parts of the file system *)
Definition on_device {A} (m : M D (FsError DE) A) : FSM A := λ fs,
  let '(r, d) := m (device fs) in (r, set_device d fs).
Definition on_allocator {A} (m : M BlockAllocator (FsError DE) A) : FSM A := λ fs,
  let '(r, a) := m (block_allocator fs) in (r, set_allocator a fs).
Definition on_storage {A} (m : M (D * BlockAllocator) (FsError DE) A) : FSM A := λ fs,
  let '(r, s) := m (device fs, block_allocator fs) in
  (r, set_allocator s.2 (set_device s.1 fs)).
(** A call on the tree, which reads the device *)
Definition on_tree {A} (m : D → M MemTree (FsError DE) A) : FSM A := λ fs,
  let '(r, t) := m (device fs) (mem_tree fs) in (r, set_mem_tree t fs).
Definition on_all {A} (m : M (MemTree * (D * BlockAllocator)) (FsError DE) A) : FSM A := λ fs,
  let '(r, s) := m (mem_tree fs, (device fs, block_allocator fs)) in
  (r, set_mem_tree s.1 (set_allocator s.2.2 (set_device s.2.1 fs))).
Definition modify_header (f : HeaderData → HeaderData) : FSM unit :=
  modify (λ fs, set_header_data (f (header_data fs)) fs).

(** ** The header *)

(** The block is returned as it was read, with its padding. *)
Definition FileSystem_header (device : D) : result (FsError DE) B :=
  map_err map_device_error (read_block device MAIN_HEADER_BLOCK).

Definition write_main_header (header : MainHeader) : FSM unit :=
  on_device (mapM_err map_device_error
    (write_block_atomic MAIN_HEADER_BLOCK (block_data header))).

Definition copy_header_to_backup (header : MainHeader) : FSM unit :=
  lba ← gets backup_header_lba;
  on_device (mapM_err map_device_error
    (write_block_atomic lba (block_data (as_backup header)))).

Definition write_header : FSM unit :=
  h ← gets header_data;
  free_blocks ← lift (expect (hd_free_blocks h));
  backup ← gets backup_header_lba;
  mode ← gets access_mode;
  let header := mkMainHeader MainHeader_MAGIC FS_VERSION (hd_uuid h) (hd_root_ptr h) free_blocks
    backup (hd_name_head h)
    (Some (mkMainTransientHeader MainTransientHeader_MAGIC 1
             (bool_decide (mode = ReadWrite)) (hd_status h)))
    (hd_next_file_id h) in
  _ ← copy_header_to_backup header;
  write_main_header header.

Definition create_fs_device_access (device : D) (access : AccessMode) (mem_tree : MemTree)
    : result (FsError DE) (FileSystem D) :=
  let max_block_count := size device in
  if max_block_count <? MIN_BLOCK_COUNT
  then Err (BlockDeviceToSmall max_block_count MIN_BLOCK_COUNT)
  else
    n ← sub_u64 max_block_count 2;
    max_usable_lba ← expect (LBA_new n);
    n ← sub_u64 max_block_count 1;
    backup_header_lba ← expect (LBA_new n);
    next_file_id ← FileId_next FileId_ROOT;
    block_allocator ← BlockAllocator_empty INITALLY_USED_BLOCKS max_usable_lba;
    mret (mkFs device max_block_count max_usable_lba backup_header_lba block_allocator
      (mkHeaderData None None FS_VERSION 0 next_file_id true Uninitialized 1 LBA_MAX None)
      mem_tree [] access).

(** [created] *)
Definition FileSystem_created (fs : FileSystem D) : FileSystem D := set_changes [] fs.

(** [From<LBA> for BlockListAccess] *)
Definition BlockListAccess_from_LBA (value : LBA) : BlockListAccess :=
  OnDevice (BlockListHead_from_LBA value).

(** ** Reading files and directories *)

Definition find_file (id : FileId) : FSM (option FileNode) :=
  on_tree (λ device, MemTree_find fuel device id).

Definition read_file_attr (id : FileId) : FSM (option FileNode) :=
  mapM_err map_fs_error (find_file id).

Definition get_file_meta (id : FileId) : FSM FileNode :=
  o ← find_file id;
  lift (ok_or (FileDoesNotExist id) o).

(** [find] hands out the node that the tree holds ([Arc]), so the cell that
    [resolve_block_data] changes is the one in the leave. *)
Definition update_leaves (f : FileNode) (n : MemTreeNode) : MemTreeNode :=
  match n with
  | Node _ _ _ _ _ => n
  | Leave p files d lk =>
      Leave p ((λ g, if decide (MemStructs.id g = MemStructs.id f) then f else g) <$> files) d lk
  end.
Definition resolve_block_data (file_node : FileNode) : FSM FileNode :=
  device ← gets device;
  f ← lift (FileNode_resolve_block_data fuel file_node device);
  _ ← modify (λ fs, let t := mem_tree fs in
        set_mem_tree (mkTree (update_leaves f <$> heap t) (next_ptr t) (root t) (root_lock t)) fs);
  mret f.

Definition read_directory (id : FileId) : FSM Directory :=
  o ← find_file id;
  metadata ← lift (ok_or (FileDoesNotExist id) o);
  if bool_decide (typ metadata = Directory_) then
    metadata ← resolve_block_data metadata;
    block_data ← lift (BlockListAccess_get_list (fblock_data metadata));
    n ← lift (BlockList_block_count block_data);
    _ ← lift (assert_ (n =? 1));
    block_group ← lift (BlockList_single block_data);
    device ← gets device;
    lift (Directory_read fuel device (bg_start block_group))
  else lift (Err (FileTypeMismatch id (typ metadata) Directory_)).

Definition next_multiple_of {E} (n k : Z) : result E Z := mul_u64 (counts_required_for k n) k.

Definition read_file (id : FileId) (offset size : Z) : FSM (list Z) :=
  if size =? 0 then lift (Err ReadZeroBytes)
  else
    o ← find_file id;
    metadata ← lift (ok_or (FileDoesNotExist id) o);
    if bool_decide (typ metadata = File) then
      metadata ← resolve_block_data metadata;
      list_ ← lift (BlockListAccess_get_list (fblock_data metadata));
      let block_list := BlockList_iter_partial list_ offset size in
      '(first, _) ← lift (PartialIter_next block_list);
      first ← lift (expect first);
      let offset_in_first_block := pbg_offset first in
      len ← lift (next_multiple_of size BLOCK_SIZE);
      groups ← lift (PartialIter_all block_list);
      device ← gets device;
      data ← lift (map_err map_device_error (read_blocks device (pbg_group <$> groups) len));
      end_ ← lift (add_u64 offset_in_first_block size);
      _ ← lift (assert_ (end_ <=? Z.of_nat (length data)));
      lift (slice_range (Z.to_nat offset_in_first_block) (Z.to_nat size) data)
    else lift (Err (FileTypeMismatch id (typ metadata) File)).

(** ** Directory changes *)

Definition new_directory_node (dir_id : FileId) (parent : option FileId) (lba : LBA) : FileNode :=
  FileNode_new dir_id parent Directory_ 0 (BlockListAccess_from_LBA lba) 0.

Definition insert_new (file : FileNode) : FSM unit :=
  on_tree (λ device, mapM_err FsError_from_MemTreeError (MemTree_insert_new fuel device file)).
Definition update_file (file : FileNode) : FSM unit :=
  on_tree (λ device, mapM_err FsError_from_MemTreeError (MemTree_update fuel device file)).

(** The entries of [changed_dirs], with a new entry pushed to the directory [dir_id] *)
Definition push_entry (dir_id : FileId) (entry : DirectoryEntry)
    (changed_dirs : list (FileId * Directory)) : list (FileId * Directory) :=
  (λ c : FileId * Directory,
    if decide (c.1 = dir_id) then (c.1, mkDirectory (parent_id c.2) (entries c.2 ++ [entry])) else c)
  <$> changed_dirs.

(** The first [for] loop of [apply_directory_changes] *)
Fixpoint apply_changes_loop (dir_changes : list DirectoryChange)
    (changed_dirs : list (FileId * Directory)) : FSM (list (FileId * Directory)) :=
  match dir_changes with
  | [] => mret changed_dirs
  | Created dir_id dir :: dir_changes =>
      dir_lba ← on_storage (Directory_write dir);
      _ ← insert_new (new_directory_node dir_id (parent_id dir) dir_lba);
      apply_changes_loop dir_changes changed_dirs
  | InsertFile dir_id entry :: dir_changes =>
      changed_dirs ←
        (match list_find (λ c, c.1 = dir_id) changed_dirs with
         | Some _ => mret changed_dirs
         | None => dir ← read_directory dir_id; mret (changed_dirs ++ [(dir_id, dir)])
         end);
      '(_, (_, changed_dir)) ← lift (expect (list_find (λ c, c.1 = dir_id) changed_dirs));
      _ ← lift (assert_ (forallb (λ e, negb (de_id e =? de_id entry)) (entries changed_dir)));
      apply_changes_loop dir_changes (push_entry dir_id entry changed_dirs)
  end.

(** The second one, over the entries of the map *)
Fixpoint write_changed_dirs (changed_dirs : list (FileId * Directory)) : FSM unit :=
  match changed_dirs with
  | [] => mret tt
  | (dir_id, changed_dir) :: changed_dirs =>
      o ← find_file dir_id;
      file_node ← lift (ok_or (FileDoesNotExist dir_id) o);
      if bool_decide (typ file_node = Directory_) then
        new_lba ← on_storage (Directory_write changed_dir);
        _ ← update_file (set_block_data (BlockListAccess_from_LBA new_lba) file_node);
        write_changed_dirs changed_dirs
      else lift (Err (FileTypeMismatch dir_id (typ file_node) Directory_))
  end.

Definition apply_directory_changes (dir_changes : list DirectoryChange) : FSM unit :=
  changed_dirs ← apply_changes_loop dir_changes [];
  write_changed_dirs (hash_order changed_dirs).

(** ** [flush] and [close] *)

(** [assert_matches!(self.access_mode, AccessMode::ReadWrite)] *)
Definition assume_writable : FSM unit :=
  mode ← gets access_mode;
  lift (assert_ (bool_decide (mode = ReadWrite))).

(** The [match] on the access mode *)
Definition flush_data : FSM unit :=
  mode ← gets access_mode;
  match mode with
  | ReadOnly =>
      changes ← gets directory_changes;
      _ ← lift (assert_ (match changes with [] => true | _ => false end));
      on_tree (λ _, MemTree_assert_valid fuel)
  | ReadWrite =>
      _ ← assume_writable;
      changes ← gets directory_changes;
      _ ← modify (set_changes []);
      _ ← apply_directory_changes changes;
      root_ptr ← on_all (MemTree_flush_to_device fuel);
      modify_header (hd_set_root root_ptr)
  end.

Definition write_allocator : FSM LBA :=
  a ← gets block_allocator;
  '(ptr, a) ← on_device (BlockAllocator_write a);
  _ ← modify (set_allocator a);
  mret ptr.

(** The part of [flush] for the allocator *)
Definition flush_allocator : FSM unit :=
  a ← gets block_allocator;
  h ← gets header_data;
  if BlockAllocator_is_dirty a || negb (bool_decide (is_Some (hd_free_blocks h))) then
    _ ← assume_writable;
    free_block_ptr ← write_allocator;
    modify_header (hd_set_free_blocks free_block_ptr)
  else
    matches ← lift (BlockAllocator_check_matches_device a);
    if matches : bool then mret tt
    else _ ← assume_writable; _ ← write_allocator; mret tt.

Definition flush : FSM unit :=
  _ ← flush_data;
  _ ← flush_allocator;
  write_header.

(** The loop of [close]. On [OutdatedData] the device has put its block into
    [current_block]. *)
Fixpoint close_loop (retries : nat) (current_block closed_header : B) : FSM D :=
  match retries with
  | O => lift (Err CompareExchangeFailedToOften)
  | S retries =>
      exchanged ← on_device (mapM_err map_device_error
        (compare_exchange_block MAIN_HEADER_BLOCK current_block closed_header));
      d ← gets device;
      if exchanged : bool then mret d
      else
        current_block ← lift (map_err map_device_error (read_block d MAIN_HEADER_BLOCK));
        close_loop retries current_block closed_header
  end.

(** The transient header [close] leaves behind *)
Definition closed_transient (access_mode : AccessMode) (t : MainTransientHeader)
    : result (FsError DE) MainTransientHeader :=
  match access_mode with
  | ReadOnly =>
      n ← sub_u8 (mount_count t) 1; mret (set_mount n (open_in_write_mode t) t)
  | ReadWrite =>
      n ← sub_u8 (mount_count t) 1; mret (set_mount n false t)
  end.

Definition close : FSM D :=
  _ ← flush;
  d ← gets device;
  open_block ← lift (FileSystem_header d);
  let open_header := from_block open_block in
  transient ← lift (expect (mh_transient open_header));
  mode ← gets access_mode;
  t ← lift (closed_transient mode transient);
  let closed_header := set_transient t open_header in
  close_loop RETRY_COMPARE_EXCHANGE_COUNT open_block (block_data closed_header).

(** ** Creating and opening *)

(** A constructor takes the device; [body] is what it does with the file system. *)
Definition with_new_fs (device_access : D → result (FsError DE) (FileSystem D)) (body : FSM unit)
    : M D (FsError DE) (FileSystem D) := λ d,
  match device_access d with
  | Ok fs => let '(r, fs) := body fs in ((_ ← r; mret (FileSystem_created fs)), device fs)
  | Err e => (Err e, d)
  | Panic => (Panic, d)
  | Hang => (Hang, d)
  end.

(** The header that marks the device during the creation *)
Definition initial_header (uuid : Z) (fs : FileSystem D) : MainHeader :=
  mkMainHeader MainHeader_MAGIC FS_VERSION uuid (hd_root_ptr (header_data fs)) LBA_MAX
    (backup_header_lba fs) None
    (Some (mkMainTransientHeader MainTransientHeader_MAGIC 1 true Uninitialized))
    (hd_next_file_id (header_data fs)).

Definition create_body (uuid : Z) (name : option (list Z)) (access : AccessMode) : FSM unit :=
  _ ← modify_header (hd_set_uuid uuid);
  device_header ← gets (initial_header uuid);
  _ ← write_main_header device_header;
  _ ← copy_header_to_backup device_header;
  _ ← match name with
      | Some string =>
          name_block ← on_storage (write_string string);
          modify_header (hd_set_name name (Some name_block))
      | None => mret tt
      end;
  root_dir_block ← on_storage (Directory_write Directory_create_root);
  _ ← insert_new (new_directory_node FileId_ROOT None root_dir_block);
  _ ← modify_header (λ h, hd_set_mount Ready (hd_mount_count h) h);
  _ ← modify (set_access access);
  flush.

Definition create_internal (uuid : Z) (name : option (list Z)) (override_check : OverwriteCheck)
    (access : AccessMode) : M D (FsError DE) (FileSystem D) :=
  d ← gets (λ d, d);
  fs_found ← lift (map_err map_device_error (check_for_filesystem d));
  _ ← (if bool_decide (fs_found = FoundNone) then mret tt
       else match override_check with
            | CheckExisting => lift (Err OverrideCheck)
            | IgnoreExisting => mret tt
            end);
  with_new_fs (λ d, create_fs_device_access d ReadWrite MemTree_empty)
    (create_body uuid name access).

(** The transient header of a mounted file system, [AlreadyMounted] if the
    one on the device excludes the access *)
Definition mounted_transient (access : AccessMode) (force_open : bool) (t : MainTransientHeader)
    : result (FsError DE) MainTransientHeader :=
  if force_open then
    mret (set_mount 1 (bool_decide (access = ReadWrite)) t)
  else
    match access with
    | ReadOnly =>
        if open_in_write_mode t then Err AlreadyMounted
        else n ← add_u8 (mount_count t) 1; mret (set_mount n (open_in_write_mode t) t)
    | ReadWrite =>
        if negb (mount_count t =? 0) then Err AlreadyMounted
        else n ← add_u8 (mount_count t) 1; mret (set_mount n true t)
    end.

(** The checks before the header is used *)
Definition check_header (header : MainHeader) : result (FsError DE) MainTransientHeader :=
  if bool_decide (mh_magic header ≠ MainHeader_MAGIC) then Err (MalformedFs HeaderMagicInvalid)
  else if bool_decide (mh_version header ≠ FS_VERSION)
  then Err (HeaderVersionMismatch (mh_version header))
  else
    t ← ok_or (MalformedFs HeaderWithoutTransient) (mh_transient header);
    if bool_decide (th_status t ≠ Ready) then Err NotInitialized else mret t.

(** The part of [open_internal] that only reads: the header block, what was found
    in it, and the sizes that the backup header's address gives *)
Record LoadedHeader := mkLoaded {
  lh_block : B;
  lh_transient : MainTransientHeader;
  lh_max_usable_lba : LBA;
  lh_max_block_count : Z;
  lh_name : option (list Z);
}.

Definition read_name (d : D) (name : option LBA) : result (FsError DE) (option (list Z)) :=
  match name with
  | Some ptr => string ← read_string d ptr; mret (Some string)
  | None => mret None
  end.

Definition load_header (d : D) : result (FsError DE) LoadedHeader :=
  header_block ← FileSystem_header d;
  let header := from_block header_block in
  transient ← check_header header;
  let backup_header_lba := mh_backup_header header in
  max_usable_lba ← LBA_sub_u64 backup_header_lba 1;
  max_block_count ← add_u64 backup_header_lba 1;
  if size d <? max_block_count then Err (BlockDeviceToSmall (size d) max_block_count)
  else
    backup_header ← map_err map_device_error (read_pointer MainHeader d backup_header_lba);
    matches ← MainHeader_matches_backup header backup_header;
    if matches : bool then
      name ← read_name d (mh_name header);
      mret (mkLoaded header_block transient max_usable_lba max_block_count name)
    else Err (MalformedFs HeaderMismatch).

Definition opened_header_data (header : MainHeader) (name : option (list Z))
    (t : MainTransientHeader) : HeaderData :=
  mkHeaderData name (mh_name header) (mh_version header) (mh_uuid header)
    (mh_next_file_id header) false (th_status t) (mount_count t)
    (mh_root header) (Some (mh_free_blocks header)).

Definition open_body (access : AccessMode) (force_open : bool) : FSM unit :=
  d ← gets device;
  l ← lift (load_header d);
  let header := from_block (lh_block l) in
  let transient := lh_transient l in
  _ ← modify (set_limits (lh_max_block_count l) (lh_max_usable_lba l) (mh_backup_header header));
  _ ← modify_header (λ _, opened_header_data header (lh_name l) transient);
  new_transient ← lift (mounted_transient access force_open transient);
  exchanged ← on_device (mapM_err map_device_error
    (compare_exchange_block MAIN_HEADER_BLOCK (lh_block l)
       (block_data (set_transient new_transient header))));
  _ ← lift (if exchanged : bool then mret tt else Err CompareExchangeFailedToOften);
  d ← gets device;
  a ← lift (map_err map_device_error (BlockAllocator_load fuel d (mh_free_blocks header)));
  _ ← modify (set_allocator a);
  on_tree (λ _, MemTree_set_root_device_ptr (mh_root header)).

Definition open_internal (access : AccessMode) (force_open : bool)
    : M D (FsError DE) (FileSystem D) :=
  with_new_fs (λ d, create_fs_device_access d access MemTree_invalid) (open_body access force_open).

(** The public constructors *)
Definition FsReadOnly_create uuid name override_check :=
  create_internal uuid name override_check ReadOnly.
Definition FsReadOnly_open := open_internal ReadOnly false.
Definition FsReadWrite_create uuid name override_check :=
  create_internal uuid name override_check ReadWrite.
Definition FsReadWrite_open := open_internal ReadWrite false.
Definition FsReadWrite_force_open := open_internal ReadWrite true.

(** ** Creating and writing files *)

Definition get_and_inc_file_id : FSM FileId :=
  h ← gets header_data;
  next ← lift (FileId_next (hd_next_file_id h));
  _ ← modify_header (hd_set_next_file_id next);
  mret (hd_next_file_id h).

Definition expect_directory (id : FileId) : FSM unit :=
  o ← find_file id;
  parent_dir ← lift (ok_or (FileDoesNotExist id) o);
  if bool_decide (typ parent_dir = Directory_) then mret tt
  else lift (Err (FileTypeMismatch id (typ parent_dir) Directory_)).

Definition create_directory (dir : Directory) (name : list Z) : FSM FileId :=
  parent_id ← lift (expect (parent_id dir));
  _ ← expect_directory parent_id;
  dir_id ← get_and_inc_file_id;
  _ ← modify (λ fs, set_changes
        (directory_changes fs ++ [InsertFile parent_id (mkDirectoryEntry name dir_id)]) fs);
  _ ← modify (λ fs, set_changes (directory_changes fs ++ [Created dir_id dir]) fs);
  _ ← flush;
  mret dir_id.

Definition create_file (name : list Z) (parent : FileId) : FSM FileId :=
  _ ← expect_directory parent;
  file_id ← get_and_inc_file_id;
  device_block ← on_allocator BlockAllocator_allocate_block;
  let file_node := FileNode_new file_id (Some parent) File 0
    (BlockListAccess_from_LBA device_block) 1 in
  _ ← insert_new file_node;
  _ ← modify (λ fs, set_changes
        (directory_changes fs ++ [InsertFile parent (mkDirectoryEntry name file_id)]) fs);
  mret file_id.

(** The groups [write_blocks] is given and the blocks written partially *)
Record PartialWrite := mkPartialWrite {
  pw_groups : list BlockGroup;
  partial_first_block : option PartialBlockGroup;
  partial_last_block : option PartialBlockGroup;
}.
Definition pw_push (g : option BlockGroup) (w : PartialWrite) : PartialWrite :=
  mkPartialWrite (option_list g ++ pw_groups w) (partial_first_block w) (partial_last_block w).
Definition pw_set_first (g : PartialBlockGroup) (w : PartialWrite) : PartialWrite :=
  mkPartialWrite (pw_groups w) (Some g) (partial_last_block w).
Definition pw_set_last (g : PartialBlockGroup) (w : PartialWrite) : PartialWrite :=
  mkPartialWrite (pw_groups w) (partial_first_block w) (Some g).

(** The closure of [filter_map] applied to the items of the iterator *)
Fixpoint partial_write_groups {E} (items : list (@PositionInfo PartialBlockGroup))
    : result E PartialWrite :=
  match items with
  | [] => mret (mkPartialWrite [] None None)
  | info :: items =>
      let group := pi_item info in
      if pi_first info && negb (pbg_offset group =? 0) then
        remaining ← BlockGroup_subgroup (pbg_group group) 1;
        if pi_last info then
          if BlockGroup_count (pbg_group group) =? 1 then
            _ ← assert_ (match remaining with None => true | Some _ => false end);
            w ← partial_write_groups items;
            mret (pw_set_first group w)
          else
            remaining ← (match remaining with
                         | Some g => BlockGroup_remove_end g 1
                         | None => mret None
                         end);
            w ← partial_write_groups items;
            mret (pw_set_first group (pw_set_last group (pw_push remaining w)))
        else
          w ← partial_write_groups items;
          mret (pw_set_first group (pw_push remaining w))
      else if pi_last info && negb (pbg_len group =? BLOCK_SIZE) then
        remaining ← BlockGroup_remove_end (pbg_group group) 1;
        w ← partial_write_groups items;
        mret (pw_set_last group (pw_push remaining w))
      else
        _ ← assert_ (pbg_offset group =? 0);
        _ ← assert_ (pbg_len group =? BLOCK_SIZE);
        w ← partial_write_groups items;
        mret (pw_push (Some (pbg_group group)) w)
  end.

Definition positions {A} (l : list A) : list (@PositionInfo A) :=
  WithPositionIter_collect (S (length l)) (with_positions l).

Definition write_blocks_partial (block_list : BlockList) (offset : Z) (data : list Z) : FSM unit :=
  let len := Z.of_nat (length data) in
  let offset_block_skip := offset / BLOCK_SIZE in
  let offset_in_first_block := offset - offset_block_skip * BLOCK_SIZE in
  end_in_first ← lift (add_u64 offset_in_first_block len);
  let required_block_count := blocks_required_for end_in_first in
  count ← lift (BlockList_block_count block_list);
  _ ← lift (assert_ (count >=? required_block_count));
  full ← lift (sub_u64 len offset);
  let full_block_data_len := full / BLOCK_SIZE * BLOCK_SIZE in
  full_block_data ← lift (slice_from (Z.to_nat offset) data);
  full_block_data ← lift (slice_to (Z.to_nat full_block_data_len) full_block_data);
  items ← lift (PartialIter_all (BlockList_iter_partial block_list offset len));
  w ← lift (partial_write_groups (positions items));
  _ ← on_device (mapM_err map_device_error (write_blocks (pw_groups w) full_block_data));
  _ ← match partial_first_block w with
      | Some g =>
          n ← lift (sub_u64 BLOCK_SIZE (pbg_offset g));
          let partial_block_length := Z.min n (pbg_len g) in
          part ← lift (slice_to (Z.to_nat partial_block_length) data);
          on_device (mapM_err map_device_error
            (write_partial_block (bg_start (pbg_group g)) part (pbg_offset g)))
      | None => mret tt
      end;
  match partial_last_block w with
  | Some g =>
      length_plus_offset ← lift (add_u64 (pbg_len g) (pbg_offset g));
      n ← lift (sub_u64 length_plus_offset
            (BLOCK_SIZE * (BlockGroup_count (pbg_group g) - 1)));
      rest ← lift (sub_u64 len n);
      last_block_data ← lift (slice_from (Z.to_nat rest) data);
      lba ← lift (BlockGroup_end (pbg_group g));
      on_device (mapM_err map_device_error (write_partial_block lba last_block_data 0))
  | None => mret tt
  end.

Definition set_blocks (l : BlockList) (count : Z) (f : FileNode) : FileNode :=
  mkFileNode (MemStructs.id f) (parent f) (typ f) (permissions f) (uid f) (gid f) (fsize f)
    (created_at f) (modified_at f) (InMem l) count.

Definition write_file (id : FileId) (offset : Z) (data : list Z) : FSM unit :=
  o ← find_file id;
  file_node ← lift (ok_or (FileDoesNotExist id) o);
  if bool_decide (typ file_node = File) then
    match data with
    | [] => mret tt
    | _ :: _ =>
        file_node ← resolve_block_data file_node;
        write_len ← lift (add_u64 offset (Z.of_nat (length data)));
        if blocks_required_for write_len >? fblock_count file_node then
          let blocks_to_alloc := blocks_required_for write_len - fblock_count file_node in
          new_blocks ← on_allocator (BlockAllocator_allocate blocks_to_alloc);
          block_list ← lift (BlockListAccess_get_list (fblock_data file_node));
          let block_list := BlockList_push block_list new_blocks in
          count ← lift (BlockList_block_count block_list);
          _ ← write_blocks_partial block_list offset data;
          update_file (set_blocks block_list count file_node)
        else
          block_list ← lift (BlockListAccess_get_list (fblock_data file_node));
          write_blocks_partial block_list offset data
    end
  else lift (Err (FileTypeMismatch id (typ file_node) File)).
End fs.
