(* ===== verification/FileLists.v ===== *)
(** * Lists of files ordered by their id

    What the operations of the file tree mean on the list of files the tree
    represents: [file_insert], [file_update] and [file_remove], how they act on a
    part of the list between smaller and larger ids, and how the searches in the
    source compute them. *)

From Stdlib Require Import Sorted.
From stdpp Require Import sorting.
From S2P Require Import Prelude BlockDevice FsStructs MemStructs MemTree.
Local Open Scope Z_scope.

(** Insertion before the first file with a larger id *)
Fixpoint file_insert (x : FileNode) (l : list FileNode) : list FileNode :=
  match l with
  | [] => [x]
  | f :: l => if id f >? id x then x :: f :: l else f :: file_insert x l
  end.

(** Replacing the file with the same id *)
Fixpoint file_update (x : FileNode) (l : list FileNode) : list FileNode :=
  match l with
  | [] => []
  | f :: l => if id f =? id x then x :: l else f :: file_update x l
  end.

(** Removing the file with the id *)
Fixpoint file_remove (x : FileId) (l : list FileNode) : list FileNode :=
  match l with
  | [] => []
  | f :: l => if id f =? x then l else f :: file_remove x l
  end.

Definition files_sorted (l : list FileNode) : Prop := StronglySorted Z.lt (id <$> l).

Lemma files_sorted_app l k :
  files_sorted (l ++ k) ↔
    files_sorted l ∧ files_sorted k ∧ ∀ f g, f ∈ l → g ∈ k → id f < id g.
Proof.
  unfold files_sorted. rewrite fmap_app, StronglySorted_app. split.
  - intros (Hlk & Hl & Hk). split; [done|]. split; [done|].
    intros f g Hf Hg. apply Hlk; by apply list_elem_of_fmap_2.
  - intros (Hl & Hk & Hlk). split; [|done].
    intros a b (f & -> & Hf)%list_elem_of_fmap (g & -> & Hg)%list_elem_of_fmap. auto.
Qed.

Lemma files_sorted_cons f l :
  files_sorted (f :: l) ↔ files_sorted l ∧ Forall (λ g, id f < id g) l.
Proof.
  unfold files_sorted. cbn. split.
  - intros [Hs Hf]%StronglySorted_inv. by rewrite Forall_fmap in Hf.
  - intros [Hs Hf]. constructor; [done|]. by rewrite Forall_fmap.
Qed.

(** ** Insertion *)

Lemma file_insert_middle x L fs R :
  Forall (λ f, id f < id x) L → Forall (λ f, id x < id f) R →
  file_insert x (L ++ fs ++ R) = L ++ file_insert x fs ++ R.
Proof.
  intros HL HR. induction HL as [|f L Hf HL IH]; cbn.
  - induction fs as [|f fs IH]; cbn.
    + destruct HR as [|f R Hf HR]; [done|]. cbn. by rewrite (proj2 (Z.gtb_lt _ _)) by done.
    + destruct (id f >? id x); [done|]. cbn. by rewrite IH.
  - destruct (Z.gtb_spec (id f) (id x)); [lia|]. by rewrite IH.
Qed.

(** The position [insert] computes *)
Lemma file_insert_position x l :
  let i := default (length l) (position (λ f, id f >? id x) l) in
  (i ≤ length l)%nat ∧ file_insert x l = take i l ++ x :: drop i l.
Proof.
  cbn. induction l as [|f l [IH1 IH2]]; [done|]. rewrite position_cons. cbn.
  destruct (id f >? id x); [split; [cbn; lia|done]|].
  destruct (position _ l) as [i|]; cbn in *; (split; [lia|]); by rewrite IH2.
Qed.

Lemma file_insert_length x l : length (file_insert x l) = S (length l).
Proof. induction l as [|f l IH]; cbn; [done|]. destruct (id f >? id x); cbn; by rewrite ?IH. Qed.

Lemma file_insert_perm x l : file_insert x l ≡ₚ x :: l.
Proof.
  induction l as [|f l IH]; cbn; [done|]. destruct (id f >? id x); [done|].
  rewrite IH. apply Permutation_swap.
Qed.

Lemma file_insert_Forall (P : FileNode → Prop) x l : Forall P (file_insert x l) ↔ P x ∧ Forall P l.
Proof. by rewrite file_insert_perm, Forall_cons. Qed.

Lemma file_insert_sorted x l :
  files_sorted l → Forall (λ f, id f ≠ id x) l → files_sorted (file_insert x l).
Proof.
  induction l as [|f l IH]; cbn; intros Hs Hx; [by repeat constructor|].
  apply files_sorted_cons in Hs as [Hs Hf]. apply Forall_cons in Hx as [Hfx Hx].
  destruct (Z.gtb_spec (id f) (id x)) as [Hlt|Hle].
  - apply files_sorted_cons. split; [by apply files_sorted_cons|].
    constructor; [lia|]. eapply Forall_impl; [exact Hf|]. cbn. lia.
  - apply files_sorted_cons. split; [by apply IH|]. apply file_insert_Forall. split; [lia|done].
Qed.

(** ** Finding a file *)

Lemma file_position_None x l :
  position (λ f, id f =? x) l = None ↔ Forall (λ f, id f ≠ x) l.
Proof.
  rewrite position_None, !Forall_forall. split; intros Hx f Hf; specialize (Hx f Hf); cbn in *.
  - by apply Z.eqb_neq.
  - by apply Z.eqb_neq.
Qed.

(** The files beside the part where [x] belongs do not matter. *)
Lemma file_absent_middle x L fs R :
  Forall (λ f, id f < x) L → Forall (λ f, x < id f) R →
  (Forall (λ f, id f ≠ x) (L ++ fs ++ R) ↔ Forall (λ f, id f ≠ x) fs).
Proof.
  intros HL HR. rewrite !Forall_app. split; [naive_solver|]. intros Hfs. split_and!; [|done|].
  - eapply Forall_impl; [exact HL|]. cbn. lia.
  - eapply Forall_impl; [exact HR|]. cbn. lia.
Qed.

(** ** Replacing a file *)

Lemma file_update_middle x L fs R :
  Forall (λ f, id f < id x) L → Forall (λ f, id x < id f) R →
  file_update x (L ++ fs ++ R) = L ++ file_update x fs ++ R.
Proof.
  intros HL HR. induction HL as [|f L Hf HL IH]; cbn.
  - induction fs as [|f fs IH]; cbn.
    + induction HR as [|f R Hf HR IHR]; [done|]. cbn.
      rewrite (proj2 (Z.eqb_neq _ _)) by lia. by rewrite IHR.
    + destruct (id f =? id x); [done|]. by rewrite IH.
  - rewrite (proj2 (Z.eqb_neq _ _)) by lia. by rewrite IH.
Qed.

Lemma file_update_position x l i :
  position (λ f, id f =? id x) l = Some i → <[i:=x]> l = file_update x l ∧ (i < length l)%nat.
Proof.
  revert i. induction l as [|f l IH]; intros i; [done|]. rewrite position_cons. cbn.
  destruct (id f =? id x); [intros [= <-]; split; [done|lia]|].
  destruct (position _ l) as [j|]; intros [= <-]. destruct (IH j eq_refl) as [<- ?].
  split; [done|lia].
Qed.

Lemma file_update_ids x l : (id <$> file_update x l) = (id <$> l).
Proof.
  induction l as [|f l IH]; cbn; [done|]. destruct (Z.eqb_spec (id f) (id x)) as [->|]; [done|].
  cbn. by rewrite IH.
Qed.

Lemma file_update_length x l : length (file_update x l) = length l.
Proof. by rewrite <- (length_fmap id), file_update_ids, length_fmap. Qed.

Lemma Forall_ids (P : Z → Prop) l k :
  (id <$> l) = (id <$> k) → Forall (λ f, P (id f)) l → Forall (λ f, P (id f)) k.
Proof.
  intros Heq Hl. apply (proj1 (Forall_fmap (A:=FileNode) id P k)). rewrite <- Heq.
  by apply (proj2 (Forall_fmap (A:=FileNode) id P l)).
Qed.

(** ** Removing a file *)

Lemma file_remove_middle x L fs R :
  Forall (λ f, id f < x) L → Forall (λ f, x < id f) R →
  file_remove x (L ++ fs ++ R) = L ++ file_remove x fs ++ R.
Proof.
  intros HL HR. induction HL as [|f L Hf HL IH]; cbn.
  - induction fs as [|f fs IH]; cbn.
    + induction HR as [|f R Hf HR IHR]; [done|]. cbn.
      rewrite (proj2 (Z.eqb_neq _ _)) by lia. by rewrite IHR.
    + destruct (id f =? x); [done|]. by rewrite IH.
  - rewrite (proj2 (Z.eqb_neq _ _)) by lia. by rewrite IH.
Qed.

Lemma file_remove_position {E} x l i :
  position (λ f, id f =? x) l = Some i →
  ∃ f, vec_remove (E:=E) i l = Ok (f, file_remove x l) ∧ id f = x ∧
    (snd <$> list_find (λ f, id f = x) l) = Some f ∧ S (length (file_remove x l)) = length l ∧
    sublist (file_remove x l) l.
Proof.
  intros Hi. revert i Hi. induction l as [|f l IH]; intros i; [done|]. rewrite position_cons. cbn.
  destruct (Z.eqb_spec (id f) x) as [Hf|Hf].
  - intros [= <-]. exists f. rewrite decide_True by done. split_and!; try done.
    by apply sublist_cons.
  - destruct (position _ l) as [j|]; intros [= <-].
    destruct (IH j eq_refl) as (g & Hr & Hg & Hfind & Hlen & Hsub). exists g.
    rewrite decide_False by done. split_and!; try done.
    + unfold vec_remove in *. cbn. destruct (l !! j); [|done]. injection Hr as <- <-. done.
    + destruct (list_find _ l) as [[]|]; [done|done].
    + cbn. lia.
    + by constructor.
Qed.

Lemma sublist_Forall (P : FileNode → Prop) l k : sublist l k → Forall P k → Forall P l.
Proof. induction 1; intros Hp; decompose_Forall_hyps; auto. Qed.

Lemma sublist_files_sorted l k : sublist l k → files_sorted k → files_sorted l.
Proof.
  induction 1 as [|f l k Hs IH|f l k Hs IH]; [done|..]; rewrite !files_sorted_cons; intros [? ?].
  - split; [auto|]. by eapply sublist_Forall.
  - auto.
Qed.

(** ** Splitting a full leave *)

(** The halves of a full leave around the new file *)
Lemma insert_halves {E} half (x : FileNode) (l : list FileNode) i :
  length l = (2 * half)%nat → (i ≤ length l)%nat →
  ∃ ll rl,
    (if (i <=? half)%nat
     then l1 ← vec_insert (E:=E) i x (take half l); mret (l1, drop half l)
     else l2 ← vec_insert (E:=E) (i - half) x (drop half l); mret (take half l, l2)) = Ok (ll, rl) ∧
    ll ++ rl = take i l ++ x :: drop i l ∧
    (half ≤ length ll ≤ S half)%nat ∧ (half ≤ length rl ≤ S half)%nat.
Proof.
  intros Hlen Hi. destruct (Nat.leb_spec i half) as [Hle|Hgt]; unfold vec_insert.
  - rewrite length_take_le by lia. rewrite (proj2 (Nat.leb_le _ _)) by lia.
    cbn [mbind result_bind mret result_ret]. eexists _, _. split; [done|]. split.
    + rewrite <- app_assoc. cbn. f_equal; [rewrite take_take; f_equal; lia|]. f_equal.
      rewrite <- (take_drop half l) at 3. rewrite drop_app_le; [done|]. rewrite length_take. lia.
    + rewrite length_app, length_take, length_cons, length_drop, length_take, length_drop. lia.
  - rewrite length_drop. rewrite (proj2 (Nat.leb_le _ _)) by lia.
    cbn [mbind result_bind mret result_ret]. eexists _, _. split; [done|]. split.
    + rewrite app_assoc. f_equal.
      * rewrite <- (take_drop half l) at 3. rewrite take_app.
        rewrite length_take_le by lia. f_equal. rewrite take_take. f_equal. lia.
      * f_equal. rewrite drop_drop. f_equal. lia.
    + rewrite length_app, length_cons, !length_take, !length_drop. lia.
Qed.
