(* ===== verification/MemTreeRepr.v ===== *)
(** * What a file tree in memory represents

    [tree_repr n t fs]: the tree [t] of height [n], whose nodes are in memory or
    still on the device, holds exactly the files [fs] from left to right. The
    predicate contains everything [assert_valid] checks (parents, ascending
    maxima, occupancy), that every lock is released, and that the search keys
    separate the files of neighbouring subtrees. [ctx] is a tree with a hole: the
    path from the root to a node, with everything beside it. *)

From S2P Require Import Prelude BlockDevice FsStructs BlockAllocator MemStructs MemTree.
Local Open Scope Z_scope.

(** ** Keys *)

(** The maxima [ms] and the file lists [ss] of neighbouring subtrees to the right
    of key [lo], up to key [hi]: every subtree has a maximum *)
Fixpoint seg_from (lo : Z) (ms : list (option FileId)) (ss : list (list FileNode)) (hi : Z)
    : Prop :=
  match ms, ss with
  | [], [] => lo = hi
  | m :: ms, s :: ss =>
      ∃ k, m = Some k ∧ lo < k ∧ Forall (λ f, lo < id f ≤ k) s ∧ seg_from k ms ss hi
  | _, _ => False
  end.

(** The same for all the subtrees of a node: the last one has no maximum *)
Fixpoint bounds_from (lo : Z) (ms : list (option FileId)) (ss : list (list FileNode)) : Prop :=
  match ms, ss with
  | [m], [s] => m = None ∧ Forall (λ f, lo < id f) s
  | m :: ms, s :: ss =>
      ∃ k, m = Some k ∧ lo < k ∧ Forall (λ f, lo < id f ≤ k) s ∧ bounds_from k ms ss
  | _, _ => False
  end.

Lemma bounds_from_cons lo m ms s ss :
  ms ≠ [] →
  (bounds_from lo (m :: ms) (s :: ss) ↔
   ∃ k, m = Some k ∧ lo < k ∧ Forall (λ f, lo < id f ≤ k) s ∧ bounds_from k ms ss).
Proof. by destruct ms, ss. Qed.

Lemma bounds_from_mono lo lo' ms ss :
  lo' ≤ lo → bounds_from lo ms ss → bounds_from lo' ms ss.
Proof.
  intros Hlo. destruct ms as [|m ms], ss as [|s ss]; try (by destruct ms); try done.
  destruct ms as [|m' ms].
  - destruct ss as [|s' ss]; [|cbn; naive_solver]. intros [-> Hs]. split; [done|].
    eapply Forall_impl; [exact Hs|]. cbn. lia.
  - rewrite !bounds_from_cons by done. intros (k & -> & ? & Hs & ?).
    exists k. split; [done|]. split; [lia|]. split; [|done].
    eapply Forall_impl; [exact Hs|]. cbn. lia.
Qed.

Lemma bounds_from_app lo ms1 ss1 ms2 ss2 :
  length ms1 = length ss1 → ms2 ≠ [] →
  (bounds_from lo (ms1 ++ ms2) (ss1 ++ ss2) ↔
   ∃ mid, seg_from lo ms1 ss1 mid ∧ bounds_from mid ms2 ss2).
Proof.
  revert lo ss1. induction ms1 as [|m ms1 IH]; intros lo [|s ss1] Hlen Hne; cbn in Hlen; try done.
  { cbn. naive_solver. }
  cbn [app]. rewrite bounds_from_cons by (by destruct ms1).
  injection Hlen as Hlen. cbn [seg_from]. setoid_rewrite (IH _ ss1 Hlen Hne). naive_solver.
Qed.

Lemma seg_from_le lo ms ss hi : seg_from lo ms ss hi → lo ≤ hi.
Proof.
  revert lo ss. induction ms as [|m ms IH]; intros lo [|s ss]; cbn; try done; [lia|].
  intros (k & _ & ? & _ & ?%IH). lia.
Qed.

Lemma seg_from_files lo ms ss hi :
  seg_from lo ms ss hi → Forall (λ f, lo < id f ≤ hi) (concat ss).
Proof.
  revert lo ss. induction ms as [|m ms IH]; intros lo [|s ss]; cbn; try done.
  intros (k & _ & ? & Hs & Hseg). pose proof (seg_from_le _ _ _ _ Hseg).
  apply Forall_app. split.
  - eapply Forall_impl; [exact Hs|]. cbn. lia.
  - apply IH in Hseg. eapply Forall_impl; [exact Hseg|]. cbn. lia.
Qed.

Lemma bounds_from_files lo ms ss :
  bounds_from lo ms ss → Forall (λ f, lo < id f) (concat ss).
Proof.
  revert lo ss. induction ms as [|m ms IH]; intros lo [|s ss]; cbn [bounds_from concat]; try done.
  destruct ms as [|m' ms].
  { destruct ss; [|naive_solver]. intros [_ ?]. by rewrite app_nil_r. }
  intros (k & -> & ? & Hs & Hb). apply Forall_app. split.
  - eapply Forall_impl; [exact Hs|]. cbn. lia.
  - apply IH in Hb. eapply Forall_impl; [exact Hb|]. cbn. lia.
Qed.

(** The keys the hole between [lo] and [m] accepts *)
Definition in_slot (lo : Z) (m : option FileId) (x : Z) : Prop :=
  lo < x ∧ match m with Some k => x ≤ k | None => True end.

Lemma bounds_from_focus lo m ms s ss :
  bounds_from lo (m :: ms) (s :: ss) →
  Forall (λ f, in_slot lo m (id f)) s ∧
  (∀ s', Forall (λ f, in_slot lo m (id f)) s' → bounds_from lo (m :: ms) (s' :: ss)) ∧
  ∀ x, in_slot lo m x → Forall (λ f, x < id f) (concat ss).
Proof.
  unfold in_slot. destruct ms as [|m' ms].
  - destruct ss; cbn; [|naive_solver]. intros [-> Hs]. split.
    + eapply Forall_impl; [exact Hs|]. cbn. auto.
    + split; [|by constructor]. intros s' Hs'. split; [done|].
      eapply Forall_impl; [exact Hs'|]. cbn. tauto.
  - rewrite bounds_from_cons by done. intros (k & -> & Hk & Hs & Hb). split; [done|]. split.
    + intros s' Hs'. apply bounds_from_cons; [done|]. by exists k.
    + intros x [_ Hx]. apply bounds_from_files in Hb.
      eapply Forall_impl; [exact Hb|]. cbn. lia.
Qed.

Lemma seg_from_length lo ms ss hi : seg_from lo ms ss hi → length ms = length ss.
Proof.
  revert lo ss. induction ms as [|m ms IH]; intros lo [|s ss]; cbn; try done.
  intros (k & _ & _ & _ & ?%IH). lia.
Qed.

Lemma bounds_from_length lo ms ss : bounds_from lo ms ss → length ms = length ss.
Proof.
  revert lo ss. induction ms as [|m ms IH]; intros lo ss; [by destruct ss|].
  destruct ss as [|s ss]; [by destruct ms|].
  destruct ms as [|m' ms]; [destruct ss; [done|cbn; naive_solver]|].
  rewrite bounds_from_cons by done. intros (k & _ & _ & _ & ?%IH). cbn in *. lia.
Qed.

(** The first child with [id <= max] is the one whose slot contains the id. *)
Lemma find_slot lo (cs : list (MemTreeLink * option FileId)) ss x :
  bounds_from lo cs.*2 ss → lo < x ≤ u64_max →
  ∃ i pre link m post sL s sR mid,
    position (λ c, id_le_max x c.2) cs = Some i ∧ cs = pre ++ (link, m) :: post ∧
    length pre = i ∧ ss = sL ++ s :: sR ∧ length sL = length pre ∧
    seg_from lo pre.*2 sL mid ∧ bounds_from mid (m :: post.*2) (s :: sR) ∧ in_slot mid m x.
Proof.
  intros Hb Hx. revert lo ss Hb Hx.
  induction cs as [|[link m] cs IH]; intros lo ss Hb Hx; [by destruct ss|].
  destruct ss as [|s ss]; [by cbn in Hb; destruct (cs.*2)|].
  cbn [fmap list_fmap snd] in Hb. rewrite position_cons.
  destruct (id_le_max x (link, m).2) eqn:Hle; cbn in Hle.
  - exists 0%nat, [], link, m, cs, [], s, ss, lo. split_and!; try done.
    unfold in_slot, id_le_max in *. apply Z.leb_le in Hle. split; [lia|]. by destruct m.
  - destruct cs as [|c cs].
    { destruct ss; [|naive_solver]. destruct Hb as [-> _]. unfold id_le_max in Hle. cbn in Hle.
      apply Z.leb_gt in Hle. lia. }
    rewrite bounds_from_cons in Hb by done. destruct Hb as (k & -> & ? & Hs & Hb).
    unfold id_le_max in Hle. cbn in Hle. apply Z.leb_gt in Hle.
    destruct (IH k ss Hb ltac:(lia))
      as (i & pre & link' & m' & post & sL & s' & sR & mid & Hp & Hcs & <- & -> & ? & ? & ? & ?).
    exists (S (length pre)), ((link, Some k) :: pre), link', m', post, (s :: sL), s', sR, mid.
    rewrite Hp, Hcs. split_and!; try done; [cbn; lia|]. cbn. by exists k.
Qed.

(** ** Trees *)

Definition is_child (par : option ptr) : bool := match par with Some _ => true | None => false end.

(** Between half and full, where the lower bound does not hold for the root. [mx]
    is the upper bound that is asked for. *)
Definition sized (nonroot : bool) (cap mx len : nat) : Prop :=
  (len ≤ mx)%nat ∧ (nonroot = true → (cap / 2 ≤ len)%nat).

Section repr.
Context `{TreeCapacity}.
Context {D B DE : Type} `{BlockDevice D B DE} `{!BlockConstructable B TreeNode}.
(** The device, and the number of children a node may have *)
Variable d : D.
Variable ncap : nat.

Fixpoint dev_repr (n : nat) (nonroot : bool) (lba : LBA) (fs : list FileNode) : Prop :=
  match n with
  | O => ∃ files, read_pointer (DE:=DE) TreeNode d lba = Ok (TN_Leave files) ∧
      fs = FileNode_from <$> files ∧
      sized nonroot LEAVE_MAX_FILE_COUNT LEAVE_MAX_FILE_COUNT (length fs)
  | S n => ∃ cs segs, read_pointer (DE:=DE) TreeNode d lba = Ok (TN_Node cs) ∧
      Forall2 (λ c s, dev_repr n true c.1 s) cs segs ∧ fs = concat segs ∧
      bounds_from 0 cs.*2 segs ∧ sized nonroot NODE_MAX_CHILD_COUNT ncap (length cs)
  end.

(** The subtree at [p] with parent [par] holds the files [fs] and its nodes in
    memory are [ps]; the lock of [p] is [lk], the locks below are free. *)
Fixpoint node_repr (n : nat) (h : gmap ptr MemTreeNode) (lk : bool) (p : ptr)
    (par : option ptr) (fs : list FileNode) (ps : list ptr) : Prop :=
  match n with
  | O => ps = [p] ∧
      sized (is_child par) LEAVE_MAX_FILE_COUNT LEAVE_MAX_FILE_COUNT (length fs) ∧
      ∃ dt, h !! p = Some (Leave par fs dt lk)
  | S n => ∃ cs dt dc segs, h !! p = Some (Node par cs dt dc lk) ∧
      Forall2 (λ (c : MemTreeLink * option FileId) (s : list FileNode * list ptr),
        match link_node c.1 with
        | Some p' => node_repr n h false p' (Some p) s.1 s.2
        | None => s.2 = [] ∧ ∃ lba, device_ptr c.1 = Some lba ∧ dev_repr n true lba s.1
        end) cs segs ∧
      fs = concat segs.*1 ∧ ps = p :: concat segs.*2 ∧ bounds_from 0 cs.*2 segs.*1 ∧
      sized (is_child par) NODE_MAX_CHILD_COUNT ncap (length cs)
  end.

Definition link_repr (n : nat) (h : gmap ptr MemTreeNode) (par : option ptr)
    (link : MemTreeLink) (fs : list FileNode) (ps : list ptr) : Prop :=
  match link_node link with
  | Some p => node_repr n h false p par fs ps
  | None => ps = [] ∧ ∃ lba, device_ptr link = Some lba ∧ dev_repr n (is_child par) lba fs
  end.

Definition kids_repr (n : nat) (h : gmap ptr MemTreeNode) (q : ptr)
    : list (MemTreeLink * option FileId) → list (list FileNode * list ptr) → Prop :=
  Forall2 (λ c s, link_repr n h (Some q) c.1 s.1 s.2).

Definition tree_repr (n : nat) (t : MemTree) (fs : list FileNode) : Prop :=
  root_lock t = false ∧ Forall (λ f, 0 < id f) fs ∧
  ∃ ps, link_repr n (heap t) None (root t) fs ps ∧ NoDup ps ∧
    Forall (λ p, (p < next_ptr t)%positive) ps.

Lemma node_repr_S n h lk p par fs ps :
  node_repr (S n) h lk p par fs ps ↔
  ∃ cs dt dc segs, h !! p = Some (Node par cs dt dc lk) ∧ kids_repr n h p cs segs ∧
    fs = concat segs.*1 ∧ ps = p :: concat segs.*2 ∧ bounds_from 0 cs.*2 segs.*1 ∧
    sized (is_child par) NODE_MAX_CHILD_COUNT ncap (length cs).
Proof. done. Qed.

(** Heaps that agree on the nodes of a subtree *)
Definition agree (ps : list ptr) (h h' : gmap ptr MemTreeNode) : Prop :=
  ∀ p, p ∈ ps → h' !! p = h !! p.

Lemma agree_insert ps h p n : p ∉ ps → agree ps h (<[p:=n]> h).
Proof. intros Hp q Hq. by rewrite lookup_insert_ne by (intros ->; done). Qed.

Lemma agree_trans ps h1 h2 h3 : agree ps h1 h2 → agree ps h2 h3 → agree ps h1 h3.
Proof. intros H1 H2 p Hp. by rewrite H2, H1. Qed.

Lemma agree_weaken ps ps' h h' : (∀ p, p ∈ ps' → p ∈ ps) → agree ps h h' → agree ps' h h'.
Proof. intros Hsub Ha p Hp. auto. Qed.

Lemma node_repr_frame n : ∀ h h' lk p par fs ps,
  agree ps h h' → node_repr n h lk p par fs ps → node_repr n h' lk p par fs ps.
Proof.
  induction n as [|n IH]; intros h h' lk p par fs ps Ha.
  - intros (-> & Hsz & dt & Hp). split; [done|]. split; [done|]. exists dt.
    by rewrite Ha by (left).
  - rewrite !node_repr_S. intros (cs & dt & dc & segs & Hp & Hk & -> & -> & Hb & Hsz).
    exists cs, dt, dc, segs. rewrite Ha by (left). split; [done|]. split; [|done].
    assert (∀ q, q ∈ concat segs.*2 → h' !! q = h !! q) as Ha' by (intros; apply Ha; by right).
    clear -IH Hk Ha'. induction Hk as [|c s cs segs Hc Hk IHk]; constructor.
    + unfold link_repr in *. destruct (link_node c.1); [|done].
      eapply IH; [|exact Hc]. intros q Hq. apply Ha'. cbn. apply elem_of_app. by left.
    + apply IHk. intros q Hq. apply Ha'. cbn. apply elem_of_app. by right.
Qed.

Lemma link_repr_frame n h h' par link fs ps :
  agree ps h h' → link_repr n h par link fs ps → link_repr n h' par link fs ps.
Proof.
  unfold link_repr. destruct (link_node link); [|done]. apply node_repr_frame.
Qed.

Lemma kids_repr_frame n h h' q cs segs :
  agree (concat segs.*2) h h' → kids_repr n h q cs segs → kids_repr n h' q cs segs.
Proof.
  intros Ha Hk. induction Hk as [|c s cs segs Hc Hk IHk]; constructor.
  - eapply link_repr_frame; [|exact Hc]. eapply agree_weaken; [|exact Ha].
    intros p Hp. cbn. apply elem_of_app. by left.
  - apply IHk. eapply agree_weaken; [|exact Ha].
    intros p Hp. cbn. apply elem_of_app. by right.
Qed.

Lemma kids_repr_app n h q cs1 cs2 segs1 segs2 :
  length cs1 = length segs1 →
  (kids_repr n h q (cs1 ++ cs2) (segs1 ++ segs2) ↔
   kids_repr n h q cs1 segs1 ∧ kids_repr n h q cs2 segs2).
Proof.
  intros Hlen. split.
  - intros Hk. by apply Forall2_app_inv in Hk.
  - intros [? ?]. by apply Forall2_app.
Qed.

(** The root node of a subtree, and changing its lock *)
Lemma node_repr_lookup n h lk p par fs ps :
  node_repr n h lk p par fs ps →
  ∃ nd, h !! p = Some nd ∧ node_lock nd = lk ∧ MemTreeNode_get_parent nd = par ∧
    (n = 0%nat ↔ ∃ fs dt, nd = Leave par fs dt lk).
Proof.
  destruct n as [|n].
  - intros (_ & _ & dt & Hp). eexists. split; [done|]. naive_solver.
  - rewrite node_repr_S. intros (cs & dt & dc & segs & Hp & _). eexists. split; [done|].
    naive_solver.
Qed.

Lemma node_repr_root_in n h lk p par fs ps : node_repr n h lk p par fs ps → p ∈ ps.
Proof.
  destruct n as [|n]; [intros (-> & _); by left|].
  rewrite node_repr_S. intros (cs & dt & dc & segs & _ & _ & _ & -> & _). by left.
Qed.

Lemma node_repr_relock n h lk lk' p par fs ps nd :
  node_repr n h lk p par fs ps → NoDup ps → h !! p = Some nd →
  node_repr n (<[p:=set_lock lk' nd]> h) lk' p par fs ps.
Proof.
  destruct n as [|n].
  - intros (-> & Hsz & dt & Hp) _ Hnd. simplify_eq. split; [done|]. split; [done|].
    exists dt. by rewrite lookup_insert_eq.
  - rewrite !node_repr_S. intros (cs & dt & dc & segs & Hp & Hk & -> & -> & Hb & Hsz) Hnd Hl.
    simplify_eq. apply NoDup_cons in Hnd as [Hnd _].
    exists cs, dt, dc, segs. rewrite lookup_insert_eq. split; [done|]. split; [|done].
    eapply kids_repr_frame; [|exact Hk]. by apply agree_insert.
Qed.

(** ** A tree with a hole

    The path from the root pointer [rt] down to a node [p] at height [n] with
    parent [par], [k] nodes long and all of it locked or all of it free ([lk]),
    with the files left and right of the hole, the nodes outside of the hole,
    and the keys the hole accepts. *)
Inductive ctx (lk : bool) (h : gmap ptr MemTreeNode) (rt : option ptr)
    : nat → nat → ptr → option ptr → list FileNode → list FileNode → list ptr →
      (Z → Prop) → Prop :=
  | ctx_root n p : rt = Some p → ctx lk h rt 0 n p None [] [] [] (λ x, 0 < x)
  | ctx_child k n p q qpar pre link m post dt dc sL sR fsL fsR ps rng mid :
      ctx lk h rt k (S n) q qpar fsL fsR ps rng →
      h !! q = Some (Node qpar (pre ++ (link, m) :: post) dt dc lk) →
      link_node link = Some p →
      kids_repr n h q pre sL → kids_repr n h q post sR →
      sized (is_child qpar) NODE_MAX_CHILD_COUNT ncap (length (pre ++ (link, m) :: post)) →
      seg_from 0 pre.*2 sL.*1 mid → bounds_from mid (m :: post.*2) ([] :: sR.*1) →
      Forall (λ f, rng (id f)) (concat sL.*1 ++ concat sR.*1) →
      ctx lk h rt (S k) n p (Some q) (fsL ++ concat sL.*1) (concat sR.*1 ++ fsR)
        (q :: concat sL.*2 ++ concat sR.*2 ++ ps) (λ x, rng x ∧ in_slot mid m x).

Lemma ctx_frame lk h h' rt k n p par fsL fsR ps rng :
  agree ps h h' → ctx lk h rt k n p par fsL fsR ps rng →
  ctx lk h' rt k n p par fsL fsR ps rng.
Proof.
  intros Ha Hc. revert Ha.
  induction Hc as [n p Hr|k n p q qpar pre link m post dt dc sL sR fsL fsR ps rng mid
    Hc IH Hq Hl Hpre Hpost Hsz Hseg Hb Hrng]; intros Ha; [by constructor|].
  econstructor; try done.
  - apply IH. eapply agree_weaken; [|exact Ha]. set_solver.
  - rewrite Ha; [exact Hq|left].
  - eapply kids_repr_frame; [|exact Hpre]. eapply agree_weaken; [|exact Ha]. set_solver.
  - eapply kids_repr_frame; [|exact Hpost]. eapply agree_weaken; [|exact Ha]. set_solver.
Qed.

Lemma ctx_files lk h rt k n p par fsL fsR ps rng x :
  ctx lk h rt k n p par fsL fsR ps rng → rng x →
  0 < x ∧ Forall (λ f, id f < x) fsL ∧ Forall (λ f, x < id f) fsR.
Proof.
  intros Hc. revert x.
  induction Hc as [n p Hr|k n p q qpar pre link m post dt dc sL sR fsL fsR ps rng mid
    Hc IH Hq Hl Hpre Hpost Hsz Hseg Hb Hrng]; intros x Hx.
  { by split_and!; [|constructor..]. }
  destruct Hx as [Hx Hs]. destruct (IH x Hx) as (? & ? & ?).
  apply seg_from_files in Hseg. apply bounds_from_focus in Hb as (_ & _ & Hright).
  split; [done|]. split; apply Forall_app; split; try done; [|by apply Hright].
  eapply Forall_impl; [exact Hseg|]. intros f Hf. cbn in Hf. destruct Hs as [? _]. lia.
Qed.

(** The parts of a node around one child *)
Lemma node_of_parts n h lk q qpar pre link m post dt dc sL sR fs ps :
  ∀ mid,
  h !! q = Some (Node qpar (pre ++ (link, m) :: post) dt dc lk) →
  kids_repr n h q pre sL → link_repr n h (Some q) link fs ps → kids_repr n h q post sR →
  sized (is_child qpar) NODE_MAX_CHILD_COUNT ncap (length (pre ++ (link, m) :: post)) →
  seg_from 0 pre.*2 sL.*1 mid → bounds_from mid (m :: post.*2) ([] :: sR.*1) →
  Forall (λ f, in_slot mid m (id f)) fs →
  node_repr (S n) h lk q qpar (concat sL.*1 ++ fs ++ concat sR.*1)
    (q :: concat sL.*2 ++ ps ++ concat sR.*2).
Proof.
  intros mid Hq Hpre Hl Hpost Hsz Hseg Hb Hfs. apply node_repr_S.
  exists (pre ++ (link, m) :: post), dt, dc, (sL ++ (fs, ps) :: sR).
  assert (length pre = length sL) as Hlen by by eapply Forall2_length.
  split; [done|]. split; [|split; [|split; [|split; [|done]]]].
  - apply kids_repr_app; [done|]. split; [done|]. by constructor.
  - rewrite fmap_app, concat_app. done.
  - rewrite fmap_app, concat_app. done.
  - rewrite !fmap_app. cbn [fmap list_fmap]. apply bounds_from_app; [|done|].
    + by rewrite !length_fmap.
    + exists mid. split; [done|]. apply bounds_from_focus in Hb as (_ & Hb & _). by apply Hb.
Qed.

(** Taking one child out of a node *)
Lemma parts_of_node n h lk q qpar fs ps x :
  node_repr (S n) h lk q qpar fs ps → 0 < x ≤ u64_max →
  ∃ i pre link m post dt dc sL s sR mid,
    h !! q = Some (Node qpar (pre ++ (link, m) :: post) dt dc lk) ∧
    position (λ c, id_le_max x c.2) (pre ++ (link, m) :: post) = Some i ∧ length pre = i ∧
    kids_repr n h q pre sL ∧ link_repr n h (Some q) link s.1 s.2 ∧ kids_repr n h q post sR ∧
    sized (is_child qpar) NODE_MAX_CHILD_COUNT ncap (length (pre ++ (link, m) :: post)) ∧
    seg_from 0 pre.*2 sL.*1 mid ∧ bounds_from mid (m :: post.*2) ([] :: sR.*1) ∧
    Forall (λ f, in_slot mid m (id f)) s.1 ∧ in_slot mid m x ∧
    fs = concat sL.*1 ++ s.1 ++ concat sR.*1 ∧
    ps = q :: concat sL.*2 ++ s.2 ++ concat sR.*2.
Proof.
  rewrite node_repr_S. intros (cs & dt & dc & segs & Hq & Hk & -> & -> & Hb & Hsz) Hx.
  destruct (find_slot 0 cs segs.*1 x Hb Hx)
    as (i & pre & link & m & post & sL & s & sR & mid & Hpos & -> & Hi & Hss & Hlen & Hseg & Hb' & Hslot).
  apply fmap_app_inv in Hss as (tL & tR' & -> & Htr & ->).
  destruct tR' as [|t tR]; [done|]. cbn in Htr. injection Htr as -> ->.
  rewrite length_fmap in Hlen.
  apply kids_repr_app in Hk as [Hpre Hk]; [|done].
  apply Forall2_cons in Hk as [Hl Hpost].
  pose proof (bounds_from_focus _ _ _ _ _ Hb') as (Hin & Hre & _).
  exists i, pre, link, m, post, dt, dc, tL, t, tR, mid.
  split_and!; try done.
  - apply Hre. constructor.
  - by rewrite fmap_app, concat_app.
  - by rewrite fmap_app, concat_app.
Qed.

(** Filling the hole of a free path gives the whole tree. *)
Lemma ctx_plug lk h rt k n p par fsL fsR psC rng : ∀ fs ps,
  ctx lk h rt k n p par fsL fsR psC rng → lk = false →
  node_repr n h false p par fs ps → Forall (λ f, rng (id f)) fs →
  ∃ r ps', rt = Some r ∧ node_repr (k + n) h false r None (fsL ++ fs ++ fsR) ps' ∧
    ps' ≡ₚ psC ++ ps.
Proof.
  intros fs ps Hc. revert fs ps.
  induction Hc as [n p Hr|k n p q qpar pre link m post dt dc sL sR fsL fsR psC rng mid
    Hc IH Hq Hl Hpre Hpost Hsz Hseg Hb Hrng]; intros fs ps -> Hn Hfs.
  { exists p, ps. rewrite app_nil_r. done. }
  destruct (IH (concat sL.*1 ++ fs ++ concat sR.*1) (q :: concat sL.*2 ++ ps ++ concat sR.*2))
    as (r & ps' & Hr & Hn' & Hps'); [done|..].
  - eapply node_of_parts; try done.
    + unfold link_repr. by rewrite Hl.
    + eapply Forall_impl; [exact Hfs|]. by intros f [_ ?].
  - apply Forall_app in Hrng as [HL HR]. apply Forall_app. split; [done|].
    apply Forall_app. split; [|done]. eapply Forall_impl; [exact Hfs|]. by intros f [? _].
  - exists r, ps'. split; [done|]. split.
    + replace (S k + n)%nat with (k + S n)%nat by lia. by rewrite <- !app_assoc in *.
    + rewrite Hps'. solve_Permutation.
Qed.
End repr.

(** ** Allowing more children *)

Section mono.
Context `{TreeCapacity}.
Context {D B DE : Type} `{BlockDevice D B DE} `{!BlockConstructable B TreeNode}.
Variable d : D.
Variables c1 c2 : nat.
Hypothesis c1_le_c2 : (c1 ≤ c2)%nat.

Lemma sized_mono nonroot cap len : sized nonroot cap c1 len → sized nonroot cap c2 len.
Proof. intros [? ?]. split; [lia|done]. Qed.

Lemma dev_repr_mono n : ∀ nr lba fs,
  dev_repr (DE:=DE) d c1 n nr lba fs → dev_repr (DE:=DE) d c2 n nr lba fs.
Proof.
  induction n as [|n IH]; intros nr lba fs; [done|].
  intros (cs & segs & Hr & Hk & -> & Hb & Hsz). exists cs, segs.
  split; [done|]. split; [|split; [done|split; [done|by apply sized_mono]]].
  clear -IH Hk. induction Hk as [|c s cs segs Hc Hk IHk]; constructor; [by apply IH|done].
Qed.

Lemma node_repr_mono n : ∀ h lk p par fs ps,
  node_repr (DE:=DE) d c1 n h lk p par fs ps → node_repr (DE:=DE) d c2 n h lk p par fs ps.
Proof.
  induction n as [|n IH]; intros h lk p par fs ps; [done|].
  rewrite !node_repr_S. intros (cs & dt & dc & segs & Hp & Hk & -> & -> & Hb & Hsz).
  exists cs, dt, dc, segs. split; [done|]. split; [|do 3 (split; [done|]); by apply sized_mono].
  clear -IH Hk c1_le_c2. induction Hk as [|c s cs segs Hc Hk IHk]; constructor; [|done].
  unfold link_repr in *. destruct (link_node c.1); [by apply IH|].
  destruct Hc as (-> & lba & ? & ?). split; [done|]. exists lba. split; [done|].
  by apply dev_repr_mono.
Qed.

Lemma link_repr_mono n h par link fs ps :
  link_repr (DE:=DE) d c1 n h par link fs ps → link_repr (DE:=DE) d c2 n h par link fs ps.
Proof.
  unfold link_repr. destruct (link_node link); [apply node_repr_mono|].
  intros (-> & lba & ? & ?). split; [done|]. exists lba. split; [done|]. by apply dev_repr_mono.
Qed.

Lemma kids_repr_mono n h q cs segs :
  kids_repr (DE:=DE) d c1 n h q cs segs → kids_repr (DE:=DE) d c2 n h q cs segs.
Proof. intros Hk. eapply Forall2_impl; [exact Hk|]. intros c s. apply link_repr_mono. Qed.

Lemma ctx_mono lk h rt k n p par fsL fsR ps rng :
  ctx (DE:=DE) d c1 lk h rt k n p par fsL fsR ps rng →
  ctx (DE:=DE) d c2 lk h rt k n p par fsL fsR ps rng.
Proof.
  induction 1; [by constructor|].
  econstructor; eauto using kids_repr_mono, sized_mono.
Qed.

Lemma tree_repr_mono n t fs : tree_repr (DE:=DE) d c1 n t fs → tree_repr (DE:=DE) d c2 n t fs.
Proof.
  intros (? & ? & ps & ? & ? & ?). split; [done|]. split; [done|]. exists ps.
  split; [by apply link_repr_mono|done].
Qed.
End mono.
