(* ===== verification/MemTreeProofs.v ===== *)
(** * Searching and changing the file tree

    [find], [insert_new] and [update] do to the represented list of files what
    their names say, and leave a valid tree with every lock released. *)

From S2P Require Import Prelude BlockDevice FsStructs BlockAllocator MemStructs MemTree MemTreeRepr.
Local Open Scope Z_scope.

Section proofs.
Context `{TreeCapacity}.
Context {D B DE : Type} `{BlockDevice D B DE} `{!BlockConstructable B TreeNode}.
Variable d : D.
Variable ncap : nat.

Abbreviation node_repr := (node_repr (DE:=DE) d ncap).
Abbreviation link_repr := (link_repr (DE:=DE) d ncap).
Abbreviation kids_repr := (kids_repr (DE:=DE) d ncap).
Abbreviation dev_repr := (dev_repr (DE:=DE) d ncap).
Abbreviation tree_repr := (tree_repr (DE:=DE) d ncap).
Abbreviation ctx := (ctx (DE:=DE) d ncap).

(** ** Running the heap operations *)

Lemma get_node_ok {E A} p n t (f : MemTreeNode → M MemTree E A) :
  heap t !! p = Some n → (get_node p ≫= f) t = f n t.
Proof. intros Hp. rewrite run_bind. unfold get_node. by rewrite Hp. Qed.

Definition set_node (p : ptr) (n : MemTreeNode) (t : MemTree) : MemTree :=
  mkTree (<[p:=n]> (heap t)) (next_ptr t) (root t) (root_lock t).

Lemma put_node_ok {E A} p n t (f : () → M MemTree E A) :
  (put_node p n ≫= f) t = f tt (set_node p n t).
Proof. done. Qed.

Lemma lock_node_ok {E A} p n t (f : () → M MemTree E A) :
  heap t !! p = Some n → node_lock n = false →
  (lock_node p ≫= f) t = f tt (set_node p (set_lock true n) t).
Proof.
  intros Hp Hl. unfold lock_node. rewrite run_bind, (get_node_ok p n) by done. by rewrite Hl.
Qed.

Lemma unlock_node_ok {E A} p n t (f : () → M MemTree E A) :
  heap t !! p = Some n →
  (unlock_node p ≫= f) t = f tt (set_node p (set_lock false n) t).
Proof. intros Hp. unfold unlock_node. by rewrite run_bind, (get_node_ok p n) by done. Qed.

Lemma unlock_node_run {E} p n t :
  heap t !! p = Some n → unlock_node (E:=E) p t = (Ok tt, set_node p (set_lock false n) t).
Proof. intros Hp. unfold unlock_node. by rewrite (get_node_ok p n) by done. Qed.

Lemma into_parent_ok {E A} p n t (f : option ptr → M MemTree E A) :
  heap t !! p = Some n →
  (NodeGuard_into_parent p ≫= f) t =
    match MemTreeNode_get_parent n with
    | None => f None t
    | Some q => f (Some q) (set_node p (set_lock false n) t)
    end.
Proof.
  intros Hp. unfold NodeGuard_into_parent.
  rewrite run_bind, (get_node_ok p n) by done. destruct (MemTreeNode_get_parent n); [|done].
  by rewrite (unlock_node_ok p n).
Qed.

(** ** Unlocking upwards *)

(** The state after the path is released represents the whole tree. *)
Lemma unlock_upwards_spec {E} r k n p par fsL fsR psC rng : ∀ fuel t fs ps,
  ctx true (heap t) (Some r) k n p par fsL fsR psC rng →
  node_repr n (heap t) true p par fs ps → NoDup (psC ++ ps) →
  Forall (λ f, rng (id f)) fs → (k < fuel)%nat →
  ∃ h' ps', MemTree_unlock_upwards (E:=E) fuel p t =
      (Ok tt, mkTree h' (next_ptr t) (root t) false) ∧
    node_repr (k + n) h' false r None (fsL ++ fs ++ fsR) ps' ∧ ps' ≡ₚ psC ++ ps.
Proof.
  revert n p par fsL fsR psC rng. induction k as [|k IH];
    intros n p par fsL fsR psC rng [|fuel] t fs ps Hc Hn Hnd Hfs Hfuel; try lia;
    (destruct (node_repr_lookup _ _ _ _ _ _ _ _ _ Hn) as (nd & Hp & Hlk & Hpar & _));
    cbn [MemTree_unlock_upwards]; rewrite (into_parent_ok p nd) by done; rewrite Hpar; clear Hpar.
  - inversion Hc; subst. match goal with H : Some _ = Some _ |- _ => injection H as -> end.
    rewrite (unlock_node_ok p nd) by done.
    eexists _, ps. split; [done|]. rewrite app_nil_r. split; [|done].
    cbn in Hnd. by eapply node_repr_relock.
  - inversion Hc as [|k' n' p' q qpar pre link m post dt dc sL sR fsL' fsR' psC' rng' mid
      Hc' Hq Hl Hpre Hpost Hsz Hseg Hb Hrng]; subst.
    set (t1 := set_node p (set_lock false nd) t).
    assert (p ∈ ps) as Hpin by by eapply node_repr_root_in.
    apply NoDup_app in Hnd as (HndC & Hdis & Hndp).
    assert (∀ x, x ∈ q :: concat sL.*2 ++ concat sR.*2 ++ psC' → x ≠ p) as Hne.
    { intros x Hx ->. by apply (Hdis p). }
    assert (agree (q :: concat sL.*2 ++ concat sR.*2 ++ psC') (heap t) (heap t1)) as Hag.
    { intros x Hx. cbn. rewrite lookup_insert_ne; [done|]. intros ->. by apply (Hne x). }
    destruct (IH (S n) q qpar fsL' fsR' psC' rng' fuel t1
      (concat sL.*1 ++ fs ++ concat sR.*1) (q :: concat sL.*2 ++ ps ++ concat sR.*2))
      as (h' & ps' & Hrun & Hn' & Hps').
    + eapply ctx_frame; [|exact Hc']. eapply agree_weaken; [|exact Hag]. set_solver.
    + eapply (node_of_parts _ _ _ _ _ _ _ pre link m post); try done.
      * rewrite (Hag q) by left. exact Hq.
      * eapply kids_repr_frame; [|exact Hpre]. eapply agree_weaken; [|exact Hag]. set_solver.
      * unfold MemTreeRepr.link_repr. rewrite Hl. by eapply node_repr_relock.
      * eapply kids_repr_frame; [|exact Hpost]. eapply agree_weaken; [|exact Hag]. set_solver.
      * eapply Forall_impl; [exact Hfs|]. by intros f [_ ?].
    + eapply NoDup_permuted; [|apply NoDup_app; split_and!; [exact HndC|exact Hdis|exact Hndp]].
      solve_Permutation.
    + apply Forall_app in Hrng as [HL HR]. apply Forall_app. split; [done|].
      apply Forall_app. split; [|done]. eapply Forall_impl; [exact Hfs|]. by intros f [? _].
    + lia.
    + exists h', ps'. split; [exact Hrun|]. split.
      * replace (S k + n)%nat with (k + S n)%nat by lia. by rewrite <- !app_assoc in *.
      * rewrite Hps'. solve_Permutation.
Qed.

(** ** Resolving links *)

(** Loading a node from the device gives a node that represents the same files. *)
Lemma dev_to_node n par lba fs :
  dev_repr n (is_child par) lba fs →
  ∃ tn, read_pointer (DE:=DE) TreeNode d lba = Ok tn ∧
    ∀ h p, h !! p = Some (MemTreeNode_new_from tn par) → node_repr n h false p par fs [p].
Proof.
  destruct n as [|n].
  - intros (files & Hr & -> & Hsz). exists (TN_Leave files). split; [done|].
    intros h p Hp. split; [done|]. split; [done|]. by exists false.
  - intros (cs & segs & Hr & Hk & -> & Hb & Hsz). exists (TN_Node cs). split; [done|].
    intros h p Hp. apply node_repr_S.
    eexists _, false, false, ((λ s, (s, [])) <$> segs). split; [exact Hp|].
    assert (concat (((λ s : list FileNode, (s, [] : list ptr)) <$> segs).*2) = []) as Hnil.
    { clear. induction segs; cbn; auto. }
    assert (((λ s : list FileNode, (s, [] : list ptr)) <$> segs).*1 = segs) as Hfst.
    { clear. induction segs; cbn; by f_equal. }
    assert (((λ c : LBA * option FileId, (mkLink None (Some c.1), c.2)) <$> cs).*2 = cs.*2) as Hsnd.
    { clear. induction cs; cbn; by f_equal. }
    rewrite Hnil, Hfst, Hsnd, length_fmap. split; [|done].
    clear -Hk. induction Hk as [|c s cs segs Hc Hk IHk]; cbn; constructor; [|done].
    cbn. split; [done|]. by exists c.1.
Qed.

(** What stays the same when a link below [p] is resolved *)
Definition grown (p : ptr) (t t' : MemTree) : Prop :=
  root t' = root t ∧ root_lock t' = root_lock t ∧ (next_ptr t ≤ next_ptr t')%positive ∧
  ∀ q, q ≠ p → (q < next_ptr t)%positive → heap t' !! q = heap t !! q.

Lemma get_child_ok {E A} p q cs i c dt dc lk t (f : MemTreeLink → M MemTree E A) :
  heap t !! p = Some (Node q cs dt dc lk) → cs !! i = Some c →
  (get_link (AtChild p i) ≫= f) t = f c.1 t.
Proof.
  intros Hp Hc. unfold get_link. rewrite run_bind, (get_node_ok p _ _ _ Hp).
  unfold vec_get. by rewrite Hc.
Qed.

Lemma put_child_run {E} p q pre c post dt dc lk t l :
  heap t !! p = Some (Node q (pre ++ c :: post) dt dc lk) →
  put_link (E:=E) (AtChild p (length pre)) l t =
    (Ok tt, set_node p (Node q (pre ++ (l, c.2) :: post) dt dc lk) t).
Proof.
  intros Hp. unfold put_link. rewrite (get_node_ok p _ _ _ Hp).
  unfold vec_get. rewrite list_lookup_middle by done. run.
  assert (<[length pre:=(l, c.2)]> (pre ++ c :: post) = pre ++ (l, c.2) :: post) as Hins.
  { replace (length pre) with (length pre + 0)%nat by lia. by rewrite insert_app_r. }
  by rewrite Hins.
Qed.

Lemma resolve_child n t p par pre link m post dt dc lk fs ps :
  heap t !! p = Some (Node par (pre ++ (link, m) :: post) dt dc lk) →
  link_repr n (heap t) (Some p) link fs ps → p ∉ ps → (p < next_ptr t)%positive →
  ∃ t' p' link' ps',
    MemTreeLink_resolve (DE:=DE) d (AtChild p (length pre)) (Some p) t = (Ok tt, t') ∧
    heap t' !! p = Some (Node par (pre ++ (link', m) :: post) dt dc lk) ∧
    link_node link' = Some p' ∧ node_repr n (heap t') false p' (Some p) fs ps' ∧
    grown p t t' ∧
    ((ps' = ps ∧ t' = t) ∨ (ps = [] ∧ ps' = [next_ptr t] ∧ next_ptr t' = Pos.succ (next_ptr t))).
Proof.
  intros Hp Hl Hnin Hlt. unfold MemTreeLink_resolve.
  rewrite (get_child_ok p _ _ _ (link, m) _ _ _ _ _ Hp) by by apply list_lookup_middle.
  cbn [fst]. unfold MemTreeRepr.link_repr in Hl. destruct (link_node link) as [p'|] eqn:Hln.
  { exists t, p', link, ps. split_and!; try done. by left. }
  destruct Hl as (-> & lba & -> & Hdev). apply dev_to_node in Hdev as (tn & Hr & Hn).
  rewrite Hr. cbn [map_err]. run. rewrite run_bind. cbn [box_new].
  set (t1 := mkTree (<[next_ptr t:=MemTreeNode_new_from tn (Some p)]> (heap t))
    (Pos.succ (next_ptr t)) (root t) (root_lock t)).
  assert (heap t1 !! p = Some (Node par (pre ++ (link, m) :: post) dt dc lk)) as Hp1.
  { cbn. rewrite lookup_insert_ne; [done|lia]. }
  rewrite (put_child_run p par pre (link, m) post dt dc lk t1 _ Hp1).
  eexists _, (next_ptr t), _, [next_ptr t]. split; [done|].
  split; [cbn; by rewrite lookup_insert_eq|]. split; [done|]. split.
  - apply Hn. cbn. rewrite lookup_insert_ne by lia. by rewrite lookup_insert_eq.
  - split; [|right; done]. split; [done|]. split; [done|]. split; [cbn; lia|].
    intros q Hq1 Hq2. cbn. rewrite lookup_insert_ne by done. rewrite lookup_insert_ne; [done|lia].
Qed.

(** ** Descending to the leave *)

(** One round of the loop of [find_leave] at an inner node *)
Definition descend_body (is_mut : bool) (x : FileId) (p : ptr) (i : nat)
    : M MemTree (FsError DE) ptr :=
  _ ← MemTreeLink_resolve (DE:=DE) d (AtChild p i) (Some p);
  child ← get_link (AtChild p i);
  next ← lift (expect (link_node child));
  _ ← lock_node next;
  _ ← (if is_mut then mret tt else unlock_node p);
  mret next.

(** Everything a round changes: the node passed is relocked, the child is loaded
    if necessary and locked. *)
Lemma descend_step is_mut n t p par pre link m post dt dc fs ps x :
  heap t !! p = Some (Node par (pre ++ (link, m) :: post) dt dc true) →
  link_repr n (heap t) (Some p) link fs ps → p ∉ ps → (p < next_ptr t)%positive →
  NoDup ps → Forall (λ q, (q < next_ptr t)%positive) ps →
  ∃ t' p' link' ps',
    descend_body is_mut x p (length pre) t = (Ok p', t') ∧
    heap t' !! p = Some (Node par (pre ++ (link', m) :: post) dt dc is_mut) ∧
    link_node link' = Some p' ∧ node_repr n (heap t') true p' (Some p) fs ps' ∧
    root t' = root t ∧ root_lock t' = root_lock t ∧ (next_ptr t ≤ next_ptr t')%positive ∧
    (∀ q, q ≠ p → q ∉ ps → (q < next_ptr t)%positive → heap t' !! q = heap t !! q) ∧
    (ps' = ps ∨ (ps = [] ∧ ps' = [next_ptr t] ∧ next_ptr t' = Pos.succ (next_ptr t))).
Proof.
  intros Hp Hl Hnin Hlt Hnd Hps. unfold descend_body.
  destruct (resolve_child n t p par pre link m post dt dc true fs ps Hp Hl Hnin Hlt)
    as (t1 & p' & link' & ps' & Hr & Hp1 & Hl' & Hn' & (Hroot & Hrl & Hnext & Hsame) & Hcase).
  rewrite run_bind, Hr.
  rewrite (get_child_ok p _ _ _ (link', m) _ _ _ _ _ Hp1) by by apply list_lookup_middle.
  cbn [fst]. rewrite Hl'. run.
  destruct (node_repr_lookup _ _ _ _ _ _ _ _ _ Hn') as (nd & Hnd' & Hlk & Hpar & _).
  rewrite (lock_node_ok p' nd) by done.
  set (t2 := set_node p' (set_lock true nd) t1).
  assert (p' ∈ ps') as Hp'in by by eapply node_repr_root_in.
  assert (p ∉ ps') as Hnin'.
  { destruct Hcase as [[-> _]|(-> & -> & _)]; [done|]. rewrite list_elem_of_singleton. lia. }
  assert (p' ≠ p) as Hne by (intros ->; done).
  assert (NoDup ps') as Hndps'.
  { destruct Hcase as [[-> _]|(-> & -> & _)]; [done|]. apply NoDup_singleton. }
  assert (node_repr n (heap t2) true p' (Some p) fs ps') as Hn2 by by eapply node_repr_relock.
  assert (heap t2 !! p = Some (Node par (pre ++ (link', m) :: post) dt dc true)) as Hp2.
  { cbn. by rewrite lookup_insert_ne. }
  assert (∀ q, q ≠ p → q ∉ ps → (q < next_ptr t)%positive → heap t2 !! q = heap t !! q) as Hsame2.
  { intros q Hq1 Hq2 Hq3. cbn. rewrite lookup_insert_ne; [by apply Hsame|]. intros ->.
    destruct Hcase as [[-> _]|(-> & -> & _)]; [done|].
    apply list_elem_of_singleton in Hp'in. lia. }
  assert (ps' = ps ∨ (ps = [] ∧ ps' = [next_ptr t] ∧ next_ptr t1 = Pos.succ (next_ptr t)))
    as Hcase' by (destruct Hcase as [[? _]|(?&?&?)]; [by left|by right]).
  destruct is_mut.
  - run. exists t2, p', link', ps'. split_and!; done.
  - rewrite (unlock_node_ok p _ t2 _ Hp2). cbn [set_lock].
    eexists _, p', link', ps'. split; [done|].
    split; [cbn; by rewrite lookup_insert_eq|]. split; [done|]. split.
    + eapply node_repr_frame; [|exact Hn2]. by apply agree_insert.
    + do 3 (split; [done|]). split; [|done].
      intros q Hq1 Hq2 Hq3. cbn. rewrite lookup_insert_ne by done. by apply Hsame2.
Qed.

(** Where the search for [x] ends: at a leave whose lock is held, with the path to
    it locked or free *)
Definition at_leave (is_mut : bool) (r : ptr) (k : nat) (x : FileId) (all : list FileNode)
    (t : MemTree) (leaf : ptr) : Prop :=
  ∃ par fsL fs fsR psC ps rng,
    ctx is_mut (heap t) (Some r) k 0 leaf par fsL fsR psC rng ∧
    node_repr 0 (heap t) true leaf par fs ps ∧ NoDup (psC ++ ps) ∧
    Forall (λ q, (q < next_ptr t)%positive) (psC ++ ps) ∧
    Forall (λ f, rng (id f)) fs ∧ rng x ∧ fsL ++ fs ++ fsR = all.

Lemma find_leave_loop_S fuel is_mut x p t :
  find_leave_loop (DE:=DE) (S fuel) is_mut d x p t =
    (n ← get_node p;
     match n with
     | Leave _ _ _ _ => mret p
     | Node q children dt dc lk =>
         _ ← (if is_mut then put_node p (Node q children dt true lk) else mret tt);
         match position (λ c, id_le_max x c.2) children with
         | None => lift Panic
         | Some i => next ← descend_body is_mut x p i; find_leave_loop fuel is_mut d x next
         end
     end) t.
Proof.
  cbn [find_leave_loop]. rewrite !run_bind.
  destruct (get_node p t) as [[[q cs dt dc lk|]| | |] t1]; [|done..].
  rewrite !run_bind. set (m := if is_mut then _ else _).
  destruct (m t1) as [[[]| | |] t2]; [|done..].
  destruct (position _ cs) as [i|]; [|done]. unfold descend_body. rewrite !run_bind.
  destruct (MemTreeLink_resolve _ _ _ t2) as [[[]| | |] t3]; [|done..].
  rewrite !run_bind. destruct (get_link _ t3) as [[c| | |] t4]; [|done..].
  rewrite !run_bind. destruct (lift _ t4) as [[nx| | |] t5]; [|done..].
  rewrite !run_bind. destruct (lock_node nx t5) as [[[]| | |] t6]; [|done..].
  rewrite !run_bind. clear m. set (m := if is_mut then _ else _).
  by destruct (m t6) as [[[]| | |] t7].
Qed.

Lemma find_leave_loop_spec is_mut x r : ∀ n fuel t k p par fsL fs fsR psC ps rng,
  ctx is_mut (heap t) (Some r) k n p par fsL fsR psC rng →
  node_repr n (heap t) true p par fs ps → NoDup (psC ++ ps) →
  Forall (λ q, (q < next_ptr t)%positive) (psC ++ ps) →
  Forall (λ f, rng (id f)) fs → rng x → x ≤ u64_max → (n < fuel)%nat →
  ∃ leaf t', find_leave_loop (DE:=DE) fuel is_mut d x p t = (Ok leaf, t') ∧
    at_leave is_mut r (k + n) x (fsL ++ fs ++ fsR) t' leaf ∧
    root t' = root t ∧ root_lock t' = root_lock t.
Proof.
  induction n as [|n IH]; intros [|fuel] t k p par fsL fs fsR psC ps rng
    Hc Hn Hnd Hlt Hfs Hx Hmax Hfuel; try lia; rewrite find_leave_loop_S.
  { pose proof Hn as (-> & _ & dt & Hp). rewrite (get_node_ok p _ _ _ Hp).
    exists p, t. split; [done|]. split; [|done]. rewrite Nat.add_0_r.
    by exists par, fsL, fs, fsR, psC, [p], rng. }
  destruct (ctx_files _ _ _ _ _ _ _ _ _ _ _ _ _ _ Hc Hx) as (Hx0 & _ & _).
  apply NoDup_app in Hnd as (HndC & Hdis & Hndp). apply Forall_app in Hlt as [HltC Hlt].
  destruct (parts_of_node _ _ _ _ _ _ _ _ _ x Hn ltac:(lia))
    as (i & pre & link & m & post & dt & dc & sL & s & sR & mid & Hp & Hpos & <- & Hpre & Hl &
        Hpost & Hsz & Hseg & Hb & Hs & Hslot & -> & ->).
  rewrite (get_node_ok p _ _ _ Hp). rewrite run_bind.
  set (dc' := if is_mut then true else dc).
  set (t0 := if is_mut then set_node p (Node par (pre ++ (link, m) :: post) dt true true) t else t).
  assert ((if is_mut then put_node (E:=FsError DE) p (Node par (pre ++ (link, m) :: post) dt true true)
    else mret tt) t = (Ok tt, t0)) as -> by by destruct is_mut.
  assert (heap t0 !! p = Some (Node par (pre ++ (link, m) :: post) dt dc' true)) as Hp0.
  { unfold t0, dc'. destruct is_mut; [cbn; by rewrite lookup_insert_eq|done]. }
  assert (∀ q, q ≠ p → heap t0 !! q = heap t !! q) as Hsame0.
  { intros q Hq. unfold t0. destruct is_mut; [cbn; by rewrite lookup_insert_ne|done]. }
  assert (next_ptr t0 = next_ptr t ∧ root t0 = root t ∧ root_lock t0 = root_lock t)
    as (Hnx0 & Hrt0 & Hrl0) by (unfold t0; by destruct is_mut).
  clearbody t0 dc'. rewrite Hpos, run_bind.
  apply NoDup_cons in Hndp as [Hnin Hndp]. apply Forall_cons in Hlt as [Hltp Hlt].
  apply NoDup_app in Hndp as (HndL & HdisL & Hndp). apply NoDup_app in Hndp as (Hnds & HdisS & HndR).
  rewrite !Forall_app in Hlt. destruct Hlt as (HltL & HltS & HltR).
  rewrite !not_elem_of_app in Hnin. destruct Hnin as (HninL & HninS & HninR).
  assert (p ∉ psC) as HninC by (intros Hin; apply (Hdis p Hin); left).
  destruct (descend_step is_mut n t0 p par pre link m post dt dc' s.1 s.2 x Hp0)
    as (t1 & p' & link' & ps' & -> & Hp1 & Hl' & Hn1 & Hrt1 & Hrl1 & Hnx1 & Hsame1 & Hcase).
  { eapply link_repr_frame; [|exact Hl]. intros q Hq. apply Hsame0. by intros ->. }
  { done. }
  { by rewrite Hnx0. }
  { done. }
  { by rewrite Hnx0. }
  assert (∀ l, p ∉ l → (∀ q, q ∈ l → q ∉ s.2) → Forall (λ q, (q < next_ptr t)%positive) l →
    agree l (heap t) (heap t1)) as Hagree.
  { intros l Hl1 Hl2 Hl3 q Hq. rewrite Forall_forall in Hl3. specialize (Hl3 q Hq).
    rewrite Hsame1; [apply Hsame0| |by apply Hl2|by rewrite Hnx0]; by intros ->. }
  assert (∀ q, q ∈ ps' → q ∈ s.2 ∨ q = next_ptr t) as Hps'.
  { intros q Hq. destruct Hcase as [->|(_ & -> & _)]; [by left|].
    apply list_elem_of_singleton in Hq as ->. right. done. }
  assert (∀ l, (∀ q, q ∈ l → q ∉ s.2) → Forall (λ q, (q < next_ptr t)%positive) l →
    ∀ q, q ∈ l → q ∉ ps') as Hfresh.
  { intros l Hl1 Hl2 q Hq [Hq'| ->]%Hps'; [by eapply Hl1|].
    rewrite Forall_forall in Hl2. specialize (Hl2 _ Hq). lia. }
  destruct (IH fuel t1 (S k) p' (Some p) (fsL ++ concat sL.*1) s.1 (concat sR.*1 ++ fsR)
    (p :: concat sL.*2 ++ concat sR.*2 ++ psC) ps' (λ y, rng y ∧ in_slot mid m y))
    as (leaf & t' & -> & Hat & Hrt & Hrl).
  - eapply (ctx_child _ _ _ _ _ _ n p' p par pre link' m post); try done.
    + eapply ctx_frame; [|exact Hc]. apply Hagree; [done|set_solver|done].
    + eapply kids_repr_frame; [|exact Hpre]. apply Hagree; [done|set_solver|done].
    + eapply kids_repr_frame; [|exact Hpost]. apply Hagree; [done|set_solver|done].
    + rewrite length_app in *. exact Hsz.
    + apply Forall_app in Hfs as [? Hfs]. apply Forall_app in Hfs as [_ ?]. by apply Forall_app.
  - done.
  - apply NoDup_app. split; [|split].
    + constructor; [rewrite !not_elem_of_app; split_and!; done|].
      apply NoDup_app. split; [done|]. split; [set_solver|].
      apply NoDup_app. split; [done|]. split; [|done]. intros q Hq1 Hq2.
      apply (Hdis q Hq2). right. apply elem_of_app. right. apply elem_of_app. by right.
    + intros q Hq. eapply (Hfresh (p :: concat sL.*2 ++ concat sR.*2 ++ psC)); [| |exact Hq].
      * intros y [->|Hy]%elem_of_cons; [done|]. rewrite !elem_of_app in Hy. set_solver.
      * rewrite Forall_cons, !Forall_app. done.
    + destruct Hcase as [->|(_ & -> & _)]; [done|apply NoDup_singleton].
  - rewrite Hnx0 in Hnx1.
    assert (∀ l, Forall (λ q, (q < next_ptr t)%positive) l →
      Forall (λ q, (q < next_ptr t1)%positive) l) as Hup.
    { intros l Hl0. eapply Forall_impl; [exact Hl0|]. cbn. lia. }
    apply Forall_app. split; [apply Hup; rewrite Forall_cons, !Forall_app; done|].
    destruct Hcase as [->|(_ & -> & Hnx)]; [by apply Hup|].
    constructor; [rewrite Hnx, Hnx0; lia|constructor].
  - rewrite !Forall_app in Hfs. destruct Hfs as (_ & Hfs & _).
    rewrite Forall_forall in Hfs, Hs |- *. intros f Hf. split; [by apply Hfs|by apply Hs].
  - done.
  - done.
  - lia.
  - exists leaf, t'. split; [done|]. split; [|split; congruence].
    replace (k + S n)%nat with (S k + n)%nat by lia. by rewrite <- !app_assoc in *.
Qed.

(** ** [find_leave] and [find] *)

Lemma find_leave_spec is_mut n fuel t fs x :
  tree_repr n t fs → 0 < x ≤ u64_max → (n < fuel)%nat →
  ∃ leaf t' r, MemTree_find_leave (DE:=DE) fuel is_mut d x t = (Ok leaf, t') ∧
    at_leave is_mut r n x fs t' leaf ∧ link_node (root t') = Some r ∧ root_lock t' = is_mut.
Proof.
  intros (Hrl & Hpos & ps & Hl & Hnd & Hlt) Hx Hfuel. unfold MemTree_find_leave, lock_root.
  rewrite !run_bind. cbn [gets]. rewrite Hrl. cbn [put_root_lock modify].
  set (t0 := mkTree (heap t) (next_ptr t) (root t) true).
  assert (∃ t1 r ps', MemTreeLink_resolve (DE:=DE) d AtRoot None t0 = (Ok tt, t1) ∧
    link_node (root t1) = Some r ∧ root_lock t1 = true ∧ node_repr n (heap t1) false r None fs ps' ∧
    NoDup ps' ∧ Forall (λ q, (q < next_ptr t1)%positive) ps')
    as (t1 & r & ps' & Hr & Hroot & Hlock & Hn & Hnd' & Hlt').
  { unfold MemTreeLink_resolve, get_link. run. change (root t0) with (root t).
    unfold MemTreeRepr.link_repr in Hl. destruct (link_node (root t)) as [r|] eqn:Hlk.
    { exists t0, r, ps. by split_and!. }
    destruct Hl as (-> & lba & -> & Hdev). apply (dev_to_node n None) in Hdev as (tn & Hr & Hn).
    rewrite Hr. cbn [map_err]. run. rewrite run_bind. cbn [box_new].
    eexists _, (next_ptr t), [next_ptr t]. split; [done|]. split; [done|]. split; [done|]. split.
    - apply Hn. cbn. by rewrite lookup_insert_eq.
    - split; [apply NoDup_singleton|]. constructor; [cbn; lia|constructor]. }
  rewrite run_bind, Hr. unfold get_link. run. rewrite Hroot. run.
  destruct (node_repr_lookup _ _ _ _ _ _ _ _ _ Hn) as (nd & Hp & Hlk & _).
  rewrite (lock_node_ok r nd) by done.
  set (t2 := if is_mut then set_node r (set_lock true nd) t1
    else mkTree (heap (set_node r (set_lock true nd) t1)) (next_ptr t1) (root t1) false).
  assert (((if is_mut then mret tt else unlock_root (E:=FsError DE))
    (set_node r (set_lock true nd) t1)) = (Ok tt, t2)) as Heq by by destruct is_mut.
  rewrite run_bind, Heq.
  assert (heap t2 = <[r:=set_lock true nd]> (heap t1) ∧ root t2 = root t1 ∧ root_lock t2 = is_mut ∧
    next_ptr t2 = next_ptr t1) as (Hh2 & Hr2 & Hl2 & Hn2) by (unfold t2; by destruct is_mut).
  destruct (find_leave_loop_spec is_mut x r n fuel t2 0 r None [] fs [] [] ps' (λ y, 0 < y))
    as (leaf & t3 & -> & Hat & Hr3 & Hl3).
  - by constructor.
  - rewrite Hh2. by eapply node_repr_relock.
  - done.
  - by rewrite Hn2.
  - done.
  - lia.
  - lia.
  - lia.
  - exists leaf, t3, r. rewrite app_nil_r in Hat. split; [done|].
    split; [exact Hat|]. split; congruence.
Qed.

Lemma at_leave_parts is_mut r n x all t leaf :
  at_leave is_mut r n x all t leaf →
  ∃ par fsL fs fsR psC rng dt,
    ctx is_mut (heap t) (Some r) n 0 leaf par fsL fsR psC rng ∧
    heap t !! leaf = Some (Leave par fs dt true) ∧
    sized (is_child par) LEAVE_MAX_FILE_COUNT LEAVE_MAX_FILE_COUNT (length fs) ∧
    (leaf ∉ psC) ∧ NoDup psC ∧ Forall (λ q, (q < next_ptr t)%positive) (psC ++ [leaf]) ∧
    Forall (λ f, rng (id f)) fs ∧ rng x ∧ fsL ++ fs ++ fsR = all ∧
    Forall (λ f, id f < x) fsL ∧ Forall (λ f, x < id f) fsR.
Proof.
  intros (par & fsL & fs & fsR & psC & ps & rng & Hc & Hn & Hnd & Hlt & Hfs & Hx & Hall).
  destruct (ctx_files _ _ _ _ _ _ _ _ _ _ _ _ _ _ Hc Hx) as (_ & HL & HR).
  destruct Hn as (-> & Hsz & dt & Hp). apply NoDup_app in Hnd as (HndC & Hdis & _).
  exists par, fsL, fs, fsR, psC, rng, dt. split_and!; try done.
  intros Hin. apply (Hdis leaf Hin). left.
Qed.

(** Searching a part of the files suffices. *)
Lemma list_find_part x L fs R :
  Forall (λ f : FileNode, id f < x) L → Forall (λ f : FileNode, x < id f) R →
  (snd <$> list_find (λ f, id f = x) fs) = (snd <$> list_find (λ f, id f = x) (L ++ fs ++ R)).
Proof.
  intros HL HR. induction HL as [|f L Hf HL IH].
  - induction fs as [|f fs IH]; cbn.
    + induction HR as [|f R Hf HR IH]; cbn; [done|]. rewrite decide_False by lia.
      destruct (list_find _ R) as [[]|]; done.
    + destruct (decide (id f = x)); [done|]. cbn in IH. rewrite <- !option_fmap_compose.
      change (snd ∘ prod_map S Datatypes.id) with (@snd nat FileNode).
      destruct (list_find _ fs) as [[]|], (list_find _ (fs ++ R)) as [[]|]; done.
  - cbn. rewrite decide_False by lia. rewrite IH.
    destruct (list_find _ (L ++ fs ++ R)) as [[]|]; done.
Qed.

(** C5: [find] is total and exact on every valid tree, whatever part of it is
    loaded: it returns the file with the id if the tree holds one and nothing
    otherwise; the nodes on the way are read from the device, and afterwards the
    tree is valid, represents the same files and holds no lock. *)
Theorem MemTree_find_spec n fuel t fs x :
  tree_repr n t fs → 0 < x ≤ u64_max → (n < fuel)%nat →
  ∃ t', MemTree_find (DE:=DE) fuel d x t = (Ok (snd <$> list_find (λ f, id f = x) fs), t') ∧
    tree_repr n t' fs.
Proof.
  intros Ht Hx Hfuel. pose proof Ht as (_ & Hpos & _).
  destruct (find_leave_spec false n fuel t fs x Ht Hx Hfuel)
    as (leaf & t1 & r & Hrun & Hat & Hr & Hrl).
  destruct (at_leave_parts _ _ _ _ _ _ _ Hat)
    as (par & fsL & gs & fsR & psC & rng & dt & Hc & Hp & Hsz & Hnin & HndC & Hlt & Hfs & _ &
        Hall & HL & HR).
  unfold MemTree_find. rewrite run_bind, Hrun, (get_node_ok leaf _ _ _ Hp).
  rewrite (unlock_node_ok leaf _ _ _ Hp). cbn [set_lock].
  eexists. split; [by rewrite (list_find_part x fsL gs fsR HL HR), Hall|].
  split; [done|]. split; [done|]. cbn [root set_node heap next_ptr].
  destruct (ctx_plug d ncap false (<[leaf:=Leave par gs dt false]> (heap t1))
    (Some r) n 0 leaf par fsL fsR psC rng gs [leaf]) as (r' & ps' & Hr' & Hn & Hps).
  - eapply ctx_frame; [|exact Hc]. by apply agree_insert.
  - done.
  - split; [done|]. split; [done|]. exists dt. by rewrite lookup_insert_eq.
  - done.
  - injection Hr' as <-. exists ps'. unfold MemTreeRepr.link_repr. rewrite Hr.
    rewrite Nat.add_0_r, Hall in Hn. split; [done|]. split.
    + apply (NoDup_permuted (psC ++ [leaf])); [by rewrite Hps|]. apply NoDup_app. split; [done|].
      split; [|apply NoDup_singleton]. intros q Hq ->%list_elem_of_singleton. done.
    + by rewrite Hps.
Qed.

(** ** What is left after a device error

    The heap only grows in a search: nodes that are loaded and links to them stay. *)

Definition link_ext (c c' : MemTreeLink * option FileId) : Prop :=
  c'.2 = c.2 ∧ ∀ p, link_node c.1 = Some p → link_node c'.1 = Some p.
Definition node_ext (n n' : MemTreeNode) : Prop :=
  match n, n' with
  | Leave _ _ _ _, Leave _ _ _ _ => True
  | Node _ cs _ _ _, Node _ cs' _ _ _ => Forall2 link_ext cs cs'
  | _, _ => False
  end.
(** Pointers of new nodes are new. *)
Definition heap_wf (t : MemTree) : Prop := ∀ p, is_Some (heap t !! p) → (p < next_ptr t)%positive.
Record tree_ext (t t' : MemTree) : Prop := {
  te_root : root t' = root t;
  te_lock : root_lock t' = root_lock t;
  te_heap p n : heap t !! p = Some n → ∃ n', heap t' !! p = Some n' ∧ node_ext n n';
  te_wf : heap_wf t';
}.
Definition extends {E A} (m : M MemTree E A) : Prop := ∀ t, heap_wf t → tree_ext t (m t).2.

Lemma link_ext_refl cs : Forall2 link_ext cs cs.
Proof. induction cs; constructor; done. Qed.
Lemma node_ext_refl n : node_ext n n.
Proof. destruct n; [apply link_ext_refl|done]. Qed.
Lemma node_ext_trans n1 n2 n3 : node_ext n1 n2 → node_ext n2 n3 → node_ext n1 n3.
Proof.
  destruct n1 as [? cs1|], n2 as [? cs2|], n3 as [? cs3|]; try done. cbn. intros H1 H2.
  revert cs3 H2. induction H1 as [|c1 c2 cs1 cs2 [Hs Hl] _ IH]; intros cs3 H2; inversion H2 as [|? c3 ? ? [Hs' Hl']]; subst; constructor.
  - split; [congruence|auto].
  - by apply IH.
Qed.
Lemma node_ext_lock n b : node_ext n (set_lock b n).
Proof. destruct n; [apply link_ext_refl|done]. Qed.

Lemma tree_ext_refl t : heap_wf t → tree_ext t t.
Proof. intros Hwf. split; try done. intros p n Hn. exists n. split; [done|apply node_ext_refl]. Qed.
Lemma tree_ext_trans t1 t2 t3 : tree_ext t1 t2 → tree_ext t2 t3 → tree_ext t1 t3.
Proof.
  intros [R1 L1 H1 _] [R2 L2 H2 W2]. split; [congruence|congruence| |done].
  intros p n (n' & Hn' & He)%H1. destruct (H2 p n' Hn') as (n'' & Hn'' & He'). exists n''. split; [done|by eapply node_ext_trans].
Qed.

Lemma extends_bind {E A C} (m : M MemTree E A) (f : A → M MemTree E C) :
  extends m → (∀ a, extends (f a)) → extends (m ≫= f).
Proof.
  intros Hm Hf t Hwf. specialize (Hm t Hwf). rewrite run_bind. destruct (m t) as [[a| | |] t1]; try done.
  eapply tree_ext_trans; [exact Hm|]. apply Hf, Hm.
Qed.
Lemma extends_lift {E A} (r : result E A) : extends (lift r).
Proof. intros t Hwf. by apply tree_ext_refl. Qed.
Lemma extends_get {E} p : extends (get_node (E:=E) p).
Proof. intros t Hwf. by apply tree_ext_refl. Qed.
Lemma extends_ret {E A} (a : A) : extends (E:=E) (mret a).
Proof. intros t Hwf. by apply tree_ext_refl. Qed.

Lemma put_ext {E} p n n' t : heap_wf t → heap t !! p = Some n → node_ext n n' → tree_ext t (put_node (E:=E) p n' t).2.
Proof.
  intros Hwf Hp He. split; try done; cbn.
  - intros q m Hq. destruct (decide (q = p)) as [->|Hne].
    + rewrite lookup_insert_eq. rewrite Hp in Hq. injection Hq as <-. by eexists.
    + rewrite lookup_insert_ne by done. exists m. split; [done|apply node_ext_refl].
  - intros q Hq. cbn in Hq |- *. destruct (decide (q = p)) as [->|Hne]; [apply Hwf; by eexists|].
    apply Hwf. by rewrite lookup_insert_ne in Hq by done.
Qed.
Lemma extends_lock {E} p : extends (lock_node (E:=E) p).
Proof.
  intros t Hwf. unfold lock_node. rewrite run_bind. unfold get_node at 1. destruct (heap t !! p) as [n|] eqn:Hp; cbn [expect];
    [|by apply tree_ext_refl]. destruct (node_lock n); [by apply tree_ext_refl|]. eapply put_ext; [done..|apply node_ext_lock].
Qed.
Lemma extends_unlock {E} p : extends (unlock_node (E:=E) p).
Proof.
  intros t Hwf. unfold unlock_node. rewrite run_bind. unfold get_node at 1. destruct (heap t !! p) as [n|] eqn:Hp; cbn [expect];
    [|by apply tree_ext_refl]. eapply put_ext; [done..|apply node_ext_lock].
Qed.
Lemma extends_get_link {E} p i : extends (get_link (E:=E) (AtChild p i)).
Proof.
  unfold get_link. apply extends_bind; [apply extends_get|]. intros [q cs a b lk|q fs a lk]; [|apply extends_lift].
  apply extends_bind; [apply extends_lift|]. intros c. apply extends_ret.
Qed.

(** Filling in a link without a node *)
Lemma insert_link_ext (cs : list (MemTreeLink * option FileId)) i c l : cs !! i = Some c → link_node c.1 = None →
  Forall2 link_ext cs (<[i:=(l, c.2)]> cs).
Proof.
  revert i. induction cs as [|c' cs IH]; intros [|i] Hc Hn; try done; cbn in *.
  - injection Hc as ->. constructor; [|apply link_ext_refl]. split; [done|]. intros p. by rewrite Hn.
  - constructor; [done|]. by apply IH.
Qed.

Lemma extends_resolve p i par : extends (MemTreeLink_resolve (DE:=DE) d (AtChild p i) par).
Proof.
  intros t Hwf. unfold MemTreeLink_resolve. cbn [get_link]. rewrite !run_bind. unfold get_node at 1.
  destruct (heap t !! p) as [[q cs a b lk|]|] eqn:Hp; cbn [expect]; try by apply tree_ext_refl.
  rewrite run_bind. unfold lift at 1, vec_get. destruct (cs !! i) as [c|] eqn:Hc; cbn [expect]; [|by apply tree_ext_refl].
  cbn [mret M_ret]. destruct (link_node c.1) eqn:Hn; [by apply tree_ext_refl|].
  destruct (device_ptr c.1) as [dp|]; [|by apply tree_ext_refl].
  rewrite run_bind. unfold lift at 1. destruct (map_err _ _) as [node|e| |]; try by apply tree_ext_refl.
  rewrite run_bind. cbn [box_new]. set (t1 := mkTree _ _ _ _).
  assert (p ≠ next_ptr t) as Hne by (intros ->; specialize (Hwf (next_ptr t) ltac:(by eexists)); lia).
  assert (heap_wf t1) as Hwf1.
  { intros x Hx. cbn in Hx |- *. destruct (decide (x = next_ptr t)) as [->|]; [lia|].
    rewrite lookup_insert_ne in Hx by done. apply Hwf in Hx. lia. }
  assert (tree_ext t t1) as H1.
  { split; try done. intros x n Hx. exists n. split; [|apply node_ext_refl]. cbn. rewrite lookup_insert_ne; [done|].
    intros <-. specialize (Hwf (next_ptr t) ltac:(by eexists)). lia. }
  eapply tree_ext_trans; [exact H1|]. cbn [put_link]. rewrite run_bind. unfold get_node.
  assert (heap t1 !! p = Some (Node q cs a b lk)) as Hp1 by (cbn; by rewrite lookup_insert_ne).
  rewrite Hp1. cbn [expect]. rewrite run_bind. unfold lift, vec_get. rewrite Hc. cbn [expect].
  eapply put_ext; [done..|]. by apply insert_link_ext.
Qed.

Lemma find_leave_loop_ext fuel x : ∀ cur, extends (find_leave_loop (DE:=DE) fuel false d x cur).
Proof.
  induction fuel as [|fuel IH]; intros cur; cbn [find_leave_loop]; [apply extends_lift|].
  apply extends_bind; [apply extends_get|]. intros [q cs a b lk|q fs a lk]; [|apply extends_ret].
  apply extends_bind; [apply extends_ret|]. intros _. destruct (position _ cs) as [i|]; [|apply extends_lift].
  apply extends_bind; [apply extends_resolve|]. intros _. apply extends_bind; [apply extends_get_link|]. intros c.
  apply extends_bind; [apply extends_lift|]. intros next. apply extends_bind; [apply extends_lock|]. intros _.
  apply extends_bind; [apply extends_unlock|]. intros _. apply IH.
Qed.

Lemma link_ext_position cs cs' x : Forall2 link_ext cs cs' →
  position (λ c, id_le_max x c.2) cs' = position (λ c, id_le_max x c.2) cs.
Proof.
  induction 1 as [|c c' cs cs' [Hs _] _ IH]; [done|]. rewrite !position_cons, IH. by rewrite Hs.
Qed.

(** A successful step of the loop: the child is in memory, and locked in place of the
    node. *)
Lemma resolve_fails at_ par t e t1 :
  MemTreeLink_resolve (DE:=DE) d at_ par t = (Err e, t1) → t1 = t.
Proof.
  unfold MemTreeLink_resolve. rewrite run_bind. destruct at_ as [|p i]; cbn [get_link].
  - cbn [gets]. destruct (link_node (root t)); [done|]. destruct (device_ptr (root t)); [|done].
    cbv beta iota. rewrite run_bind. unfold lift at 1. destruct (map_err _ _); [done|by intros [= _ <-]|done..].
  - rewrite run_bind. unfold get_node at 1. destruct (heap t !! p) as [[q cs a b lk|]|] eqn:Hp; cbn [expect]; try done.
    rewrite run_bind. unfold lift at 1, vec_get. destruct (cs !! i) as [c|] eqn:Hc; cbn [expect]; [|done].
    cbn [mret M_ret]. destruct (link_node c.1); [done|]. destruct (device_ptr c.1); [|done].
    cbv beta iota. rewrite run_bind. unfold lift at 1. destruct (map_err _ _); [|by intros [= _ <-]|done..].
    rewrite run_bind. cbn [box_new put_link]. rewrite run_bind. unfold get_node. destruct (heap _ !! p) as [[]|]; cbn [expect]; try done.
    cbv beta iota. unfold mbind, M_bind, lift, vec_get, put_node, modify, expect. by repeat case_match; intros; simplify_eq/=.
Qed.

(** A link in memory is not loaded again. *)
Lemma resolve_loaded {A} cur i par t q cs a b lk c next (f : () → M MemTree (FsError DE) A) :
  heap t !! cur = Some (Node q cs a b lk) → cs !! i = Some c → link_node c.1 = Some next →
  (MemTreeLink_resolve (DE:=DE) d (AtChild cur i) par ≫= f) t = f tt t.
Proof.
  intros Hc Hi Hl. rewrite run_bind. unfold MemTreeLink_resolve. cbn [get_link]. rewrite run_bind, (get_node_ok cur _ _ _ Hc).
  unfold vec_get. rewrite Hi. cbn [expect]. unfold lift. unfold mbind, M_bind, mret, M_ret. cbv beta iota. by rewrite Hl.
Qed.
Lemma get_link_ok {A} cur i t q cs a b lk c (f : MemTreeLink → M MemTree (FsError DE) A) :
  heap t !! cur = Some (Node q cs a b lk) → cs !! i = Some c → (get_link (AtChild cur i) ≫= f) t = f c.1 t.
Proof.
  intros Hc Hi. rewrite run_bind. cbn [get_link]. rewrite (get_node_ok cur _ _ _ Hc). unfold vec_get. by rewrite Hi.
Qed.

(** What a link is after it was resolved *)
Lemma resolve_loads cur i par t tb q cs a b lk :
  MemTreeLink_resolve (DE:=DE) d (AtChild cur i) par t = (Ok tt, tb) → heap_wf t →
  heap t !! cur = Some (Node q cs a b lk) →
  ∃ cs' c next, heap tb !! cur = Some (Node q cs' a b lk) ∧ cs' !! i = Some c ∧ link_node c.1 = Some next.
Proof.
  intros Hres Hwf Hp. unfold MemTreeLink_resolve in Hres. cbn [get_link] in Hres.
  rewrite run_bind, (get_node_ok cur _ _ _ Hp) in Hres. rewrite run_bind in Hres. unfold lift at 1, vec_get in Hres.
  destruct (cs !! i) as [c|] eqn:Hc; cbn [expect] in Hres; [|done]. cbn [mret M_ret] in Hres.
  destruct (link_node c.1) as [next|] eqn:Hn; [injection Hres as <-; by exists cs, c, next|].
  destruct (device_ptr c.1) as [dp|]; [|done]. cbv beta iota in Hres. rewrite run_bind in Hres.
  unfold lift at 1 in Hres. destruct (map_err _ _) as [node|e| |]; try done.
  rewrite run_bind in Hres. cbn [box_new put_link] in Hres. set (t1 := mkTree _ _ _ _) in Hres.
  assert (cur ≠ next_ptr t) as Hne by (intros ->; specialize (Hwf (next_ptr t) ltac:(by eexists)); lia).
  assert (heap t1 !! cur = Some (Node q cs a b lk)) as Hp1 by (cbn; by rewrite lookup_insert_ne).
  rewrite (get_node_ok cur _ _ _ Hp1) in Hres. unfold vec_get in Hres. rewrite Hc in Hres. injection Hres as <-.
  eexists _, (mkLink (Some (next_ptr t)) (Some dp), c.2), (next_ptr t). split; [by cbn; rewrite lookup_insert_eq|].
  split; [|done]. apply list_lookup_insert_eq. by eapply lookup_lt_Some.
Qed.

(** A search that fails does so at [cur] or goes to the next node: the child is in memory, and
    locked in place of [cur]. *)
Lemma find_loop_step x fuel cur q cs a b t e t1 :
  find_leave_loop (DE:=DE) (S fuel) false d x cur t = (Err e, t1) → heap_wf t →
  heap t !! cur = Some (Node q cs a b true) →
  t1 = t ∨ ∃ i tb cs' c next nn,
    position (λ c, id_le_max x c.2) cs' = Some i ∧ heap_wf tb ∧
    heap tb !! cur = Some (Node q cs' a b true) ∧ cs' !! i = Some c ∧ link_node c.1 = Some next ∧
    next ≠ cur ∧ heap tb !! next = Some nn ∧
    find_leave_loop (DE:=DE) fuel false d x next
      (set_node cur (Node q cs' a b false) (set_node next (set_lock true nn) tb)) = (Err e, t1).
Proof.
  intros Hrun Hwf Hc. cbn [find_leave_loop] in Hrun. rewrite (get_node_ok cur _ _ _ Hc), run_ret in Hrun.
  destruct (position (λ c, id_le_max x c.2) cs) as [i|] eqn:Hpos; [|done].
  pose proof (extends_resolve cur i (Some cur) t Hwf) as Hext. rewrite run_bind in Hrun.
  destruct (MemTreeLink_resolve d (AtChild cur i) (Some cur) t) as [[[]|e'| |] tb] eqn:Hres; [| |done..].
  2:{ apply resolve_fails in Hres as ->. injection Hrun as _ <-. by left. }
  right. cbn [snd] in Hext. destruct (resolve_loads _ _ _ _ _ _ _ _ _ _ Hres Hwf Hc) as (cs' & c & next & Hcb & Hi & Hl).
  destruct (te_heap _ _ Hext cur _ Hc) as (n' & Hcb' & Hcs). rewrite Hcb in Hcb'. injection Hcb' as <-. cbn in Hcs.
  rewrite (get_link_ok cur i tb _ _ _ _ _ c _ Hcb Hi) in Hrun. rewrite Hl in Hrun. cbn [expect] in Hrun.
  rewrite run_bind in Hrun. unfold lift at 1 in Hrun.
  destruct (heap tb !! next) as [nn|] eqn:Hnn;
    [|by rewrite run_bind in Hrun; unfold lock_node in Hrun; rewrite run_bind in Hrun; unfold get_node in Hrun; rewrite Hnn in Hrun].
  destruct (node_lock nn) eqn:Hlk;
    [by rewrite run_bind in Hrun; unfold lock_node in Hrun; rewrite (get_node_ok next _ _ _ Hnn), Hlk in Hrun|].
  assert (next ≠ cur) as Hnc by (intros ->; rewrite Hcb in Hnn; by injection Hnn as <-).
  rewrite (lock_node_ok next _ _ _ Hnn Hlk), (unlock_node_ok cur (Node q cs' a b true)) in Hrun
    by (cbn; by rewrite lookup_insert_ne). cbn [set_lock] in Hrun.
  exists i, tb, cs', c, next, nn. split; [by rewrite (link_ext_position cs cs')|]. split; [apply Hext|]. done.
Qed.

(** A search that fails behind [cur] leaves a lock: a search of the same file that comes
    to [cur] again waits for it forever. *)
Lemma find_loop_error_hangs x e : ∀ fuel cur n t t1,
  find_leave_loop (DE:=DE) fuel false d x cur t = (Err e, t1) → heap_wf t →
  heap t !! cur = Some n → node_lock n = true →
  ∀ fuel' t2, heap t2 = heap t1 →
    ((_ ← lock_node cur; find_leave_loop (DE:=DE) fuel' false d x cur) t2).1 = Hang.
Proof.
  induction fuel as [|fuel IH]; intros cur n t t1 Hrun Hwf Hn Hlk fuel' t2 H2; [done|].
  destruct n as [q cs a b lk|q fs a lk]; [|by cbn [find_leave_loop] in Hrun; rewrite (get_node_ok cur _ _ _ Hn) in Hrun].
  cbn in Hlk. subst lk. destruct (find_loop_step _ _ _ _ _ _ _ _ _ _ Hrun Hwf Hn) as [->|Hstep].
  { rewrite run_bind. unfold lock_node. rewrite (get_node_ok cur (Node q cs a b true)) by congruence. done. }
  destruct Hstep as (i & tb & cs' & c & next & nn & Hpos & Hwfb & Hcb & Hi & Hl & Hnc & Hnn & Hrun').
  set (td := set_node cur _ _) in Hrun'. assert (heap_wf td) as Hwfd.
  { intros p. cbn. intros Hp. apply Hwfb. destruct (decide (p = cur)) as [->|]; [by eexists|].
    rewrite lookup_insert_ne in Hp by done. destruct (decide (p = next)) as [->|]; [by eexists|].
    by rewrite lookup_insert_ne in Hp by done. }
  pose proof (find_leave_loop_ext fuel x next td Hwfd) as Hext. rewrite Hrun' in Hext. cbn [snd] in Hext.
  assert (heap td !! cur = Some (Node q cs' a b false)) as Hcd by (cbn; by rewrite lookup_insert_eq).
  assert (heap td !! next = Some (set_lock true nn)) as Hnd by (cbn; by rewrite lookup_insert_ne, lookup_insert_eq).
  destruct (te_heap _ _ Hext cur _ Hcd) as ([q2 cs2 a2 b2 lk2|] & Hc2 & Hcs2); [|done]. cbn in Hcs2.
  destruct (te_heap _ _ Hext next _ Hnd) as (n2 & Hn2 & _). rewrite <- H2 in Hc2, Hn2.
  destruct (Forall2_lookup_l _ _ _ _ _ Hcs2 Hi) as (c2 & Hi2 & _ & Hl2). specialize (Hl2 next Hl).
  assert (node_lock (set_lock true nn) = true) as Hlkn by by destruct nn.
  destruct lk2; [by rewrite run_bind; unfold lock_node; rewrite (get_node_ok cur _ _ _ Hc2)|].
  rewrite (lock_node_ok cur _ _ _ Hc2 eq_refl). cbn [set_lock]. set (t3 := set_node cur _ t2).
  assert (heap t3 !! cur = Some (Node q2 cs2 a2 b2 true)) as Hc3 by (cbn; by rewrite lookup_insert_eq).
  assert (heap t3 !! next = Some n2) as Hn3 by (cbn; by rewrite lookup_insert_ne).
  destruct fuel' as [|fuel']; [done|]. cbn [find_leave_loop]. rewrite (get_node_ok cur _ _ _ Hc3), run_ret.
  rewrite (link_ext_position cs' cs2), Hpos by done. rewrite (resolve_loaded _ _ _ _ _ _ _ _ _ _ _ _ Hc3 Hi2 Hl2).
  rewrite (get_link_ok _ _ _ _ _ _ _ _ _ _ Hc3 Hi2), Hl2. cbn [expect]. rewrite run_bind. unfold lift at 1.
  destruct (node_lock n2) eqn:Hlk2; [by rewrite run_bind; unfold lock_node; rewrite (get_node_ok next _ _ _ Hn3), Hlk2|].
  rewrite (lock_node_ok next _ _ _ Hn3 Hlk2), (unlock_node_ok cur (Node q2 cs2 a2 b2 true))
    by (cbn; by rewrite lookup_insert_ne, lookup_insert_eq). cbn [set_lock].
  specialize (IH next (set_lock true nn) td t1 Hrun' Hwfd Hnd Hlkn fuel' t2 H2). rewrite (lock_node_ok next _ _ _ Hn2 Hlk2) in IH.
  replace (set_node cur _ _) with (set_node next (set_lock true n2) t2); [exact IH|]. unfold t3, set_node. cbn. f_equal.
  rewrite (insert_insert_ne _ next cur) by done. rewrite insert_insert_eq. symmetry. apply insert_id.
  by rewrite lookup_insert_ne.
Qed.

(** The same for the link at the root *)
Lemma resolve_root_fails t e t1 :
  MemTreeLink_resolve (DE:=DE) d AtRoot None t = (Err e, t1) → root_lock t = true →
  root_lock t1 = true ∧ link_node (root t1) = None.
Proof.
  intros Hres Hl. pose proof Hres as ->%resolve_fails. split; [done|].
  unfold MemTreeLink_resolve in Hres. rewrite run_bind in Hres. cbn [get_link gets] in Hres.
  by destruct (link_node (root t)).
Qed.
Lemma resolve_root_loaded t p :
  link_node (root t) = Some p → MemTreeLink_resolve (DE:=DE) d AtRoot None t = (Ok tt, t).
Proof. intros Hp. unfold MemTreeLink_resolve. rewrite run_bind. cbn [get_link gets]. by rewrite Hp. Qed.
Lemma resolve_root_loads t tb :
  MemTreeLink_resolve (DE:=DE) d AtRoot None t = (Ok tt, tb) → heap_wf t →
  ∃ p, link_node (root tb) = Some p ∧ heap_wf tb ∧ root_lock tb = root_lock t.
Proof.
  intros Hres Hwf. unfold MemTreeLink_resolve in Hres. rewrite run_bind in Hres. cbn [get_link gets] in Hres.
  destruct (link_node (root t)) as [p|] eqn:Hp; [injection Hres as <-; by exists p|].
  destruct (device_ptr (root t)) as [dp|]; [|done]. cbv beta iota in Hres. rewrite run_bind in Hres.
  unfold lift at 1 in Hres. destruct (map_err _ _) as [node|e| |]; try done.
  rewrite run_bind in Hres. cbn in Hres. injection Hres as <-. eexists. split; [done|]. split; [|done].
  intros q. cbn. intros Hq. destruct (decide (q = next_ptr t)) as [->|]; [lia|].
  rewrite lookup_insert_ne in Hq by done. apply Hwf in Hq. lia.
Qed.

(** Taking the root: what a search has done when its loop starts. *)
Lemma find_leave_enters x fuel t e t1 :
  heap_wf t → MemTree_find_leave (DE:=DE) fuel false d x t = (Err e, t1) →
  (root_lock t1 = true ∧ link_node (root t1) = None) ∨
  ∃ p n td, link_node (root td) = Some p ∧ root_lock td = false ∧ heap_wf td ∧
    heap td !! p = Some n ∧ node_lock n = true ∧
    find_leave_loop (DE:=DE) fuel false d x p td = (Err e, t1).
Proof.
  intros Hwf Hrun. unfold MemTree_find_leave in Hrun. rewrite run_bind in Hrun. unfold lock_root in Hrun.
  rewrite run_bind in Hrun. cbn [gets] in Hrun. destruct (root_lock t) eqn:Hrl; [done|].
  cbn [put_root_lock modify] in Hrun. set (t0 := mkTree _ _ _ _) in Hrun.
  assert (heap_wf t0) as Hwf0 by done. rewrite run_bind in Hrun.
  destruct (MemTreeLink_resolve d AtRoot None t0) as [[[]|e'| |] tb] eqn:Hres; [| |done..].
  2:{ injection Hrun as -> <-. left. by eapply resolve_root_fails. }
  right. destruct (resolve_root_loads t0 tb Hres Hwf0) as (p & Hp & Hwfb & Hlb).
  rewrite run_bind in Hrun. cbn [get_link gets] in Hrun. rewrite Hp in Hrun. cbn [expect] in Hrun.
  rewrite run_bind in Hrun. unfold lift at 1 in Hrun.
  destruct (heap tb !! p) as [n|] eqn:Hn;
    [|by rewrite run_bind in Hrun; unfold lock_node in Hrun; rewrite run_bind in Hrun; unfold get_node in Hrun; rewrite Hn in Hrun].
  destruct (node_lock n) eqn:Hlk;
    [by rewrite run_bind in Hrun; unfold lock_node in Hrun; rewrite (get_node_ok p _ _ _ Hn), Hlk in Hrun|].
  rewrite (lock_node_ok p _ _ _ Hn Hlk), run_bind in Hrun. cbn [unlock_root put_root_lock modify] in Hrun.
  eexists p, (set_lock true n), _. split_and!; [| | | | |exact Hrun]; [done|done| |by cbn; rewrite lookup_insert_eq|by destruct n].
  intros q. cbn. intros Hq. apply Hwfb. destruct (decide (q = p)) as [->|]; [by eexists|].
  by rewrite lookup_insert_ne in Hq by done.
Qed.

(** C40: an error of [find], which a failing device causes, leaves a lock held on the way
    to the file: every later search for the file waits for it forever. If the root was
    not read this is the lock of the root, and every search waits; otherwise the lock of
    the root was released. *)
Theorem MemTree_find_error_keeps_lock fuel t x e t1 :
  heap_wf t → MemTree_find (DE:=DE) fuel d x t = (Err e, t1) →
  (∀ fuel', (MemTree_find (DE:=DE) fuel' d x t1).1 = Hang) ∧
  (if link_node (root t1) is Some _ then root_lock t1 = false
   else ∀ fuel' x', MemTree_find (DE:=DE) fuel' d x' t1 = (Hang, t1)).
Proof.
  intros Hwf Hrun. assert (MemTree_find_leave (DE:=DE) fuel false d x t = (Err e, t1)) as Hleave.
  { unfold MemTree_find in Hrun. rewrite run_bind in Hrun.
    destruct (MemTree_find_leave fuel false d x t) as [[leaf|e'| |] t']; [exfalso|by injection Hrun as -> ->|done..].
    rewrite run_bind in Hrun. unfold get_node at 1 in Hrun. destruct (heap t' !! leaf) as [[]|] eqn:Hl; cbn [expect] in Hrun; try done.
    by rewrite (unlock_node_ok leaf _ _ _ Hl) in Hrun. }
  apply find_leave_enters in Hleave as [[Hl Hnone]|(p & n & td & Hp & Hrl & Hwfd & Hn & Hlk & Hloop)]; [| |done].
  { assert (∀ fuel' x', MemTree_find (DE:=DE) fuel' d x' t1 = (Hang, t1)) as Hroot.
    { intros fuel' x'. unfold MemTree_find, MemTree_find_leave, lock_root. rewrite !run_bind. cbn [gets]. by rewrite Hl. }
    split; [intros fuel'; by rewrite Hroot|]. by rewrite Hnone. }
  pose proof (find_leave_loop_ext fuel x p td Hwfd) as Hext. rewrite Hloop in Hext. cbn [snd] in Hext.
  rewrite (te_root _ _ Hext), (te_lock _ _ Hext), Hp. split; [|done].
  intros fuel'. unfold MemTree_find. rewrite run_bind.
  assert ((MemTree_find_leave (DE:=DE) fuel' false d x t1).1 = Hang) as Hh; [|by destruct (MemTree_find_leave _ _ _ _ _) as [[] ?]].
  unfold MemTree_find_leave, lock_root. rewrite !run_bind. cbn [gets]. rewrite (te_lock _ _ Hext), Hrl.
  cbn [put_root_lock modify]. rewrite run_bind, (resolve_root_loaded _ p) by (cbn; by rewrite (te_root _ _ Hext)).
  rewrite run_bind. cbn [get_link gets root]. rewrite (te_root _ _ Hext), Hp. cbn [expect]. rewrite run_bind.
  unfold lift at 1. destruct (te_heap _ _ Hext p _ Hn) as (n' & Hn' & _). set (t2 := mkTree _ _ _ _).
  pose proof (find_loop_error_hangs x e fuel p n td t1 Hloop Hwfd Hn Hlk fuel') as Hhang.
  assert (heap t2 !! p = Some n') as Hn2 by done. destruct (node_lock n') eqn:Hlk'.
  { rewrite run_bind. unfold lock_node. rewrite (get_node_ok p _ _ _ Hn2). by rewrite Hlk'. }
  rewrite (lock_node_ok p _ _ _ Hn2 Hlk'), run_bind. cbn [unlock_root put_root_lock modify].
  specialize (Hhang (mkTree (heap t1) (next_ptr t1) (root t1) false) eq_refl).
  rewrite (lock_node_ok p n') in Hhang by done. rewrite (te_root _ _ Hext) in Hhang. exact Hhang.
Qed.

End proofs.
