(* ===== verification/MemTreeInsert.v ===== *)
(** * Inserting and updating files in the file tree

    [insert_new] and [update] on a valid tree where no inner node is split: the node
    above a full leave has room for one more child. *)

From S2P Require Import Prelude BlockDevice FsStructs BlockAllocator MemStructs MemTree FileLists.
From S2P Require Import MemTreeRepr MemTreeProofs.
Local Open Scope Z_scope.

Section proofs.
Context `{TreeCapacity}.
Context {D B DE : Type} `{BlockDevice D B DE} `{!BlockConstructable B TreeNode}.
Variable d : D.

Abbreviation node_repr := (node_repr (DE:=DE) d).
Abbreviation link_repr := (link_repr (DE:=DE) d).
Abbreviation kids_repr := (kids_repr (DE:=DE) d).
Abbreviation tree_repr := (tree_repr (DE:=DE) d).
Abbreviation ctx := (ctx (DE:=DE) d).

(** ** Ending an operation *)

(** Releasing the path from a valid node gives a valid tree. *)
Lemma release_path {E} ncap r k n p par fsL fsR psC rng fuel t fs ps :
  ctx ncap true (heap t) (Some r) k n p par fsL fsR psC rng →
  node_repr ncap n (heap t) true p par fs ps → NoDup (psC ++ ps) →
  Forall (λ q, (q < next_ptr t)%positive) (psC ++ ps) →
  Forall (λ f, rng (id f)) fs → link_node (root t) = Some r → (k < fuel)%nat →
  Forall (λ f, 0 < id f) (fsL ++ fs ++ fsR) →
  ∃ t', MemTree_unlock_upwards (E:=E) fuel p t = (Ok tt, t') ∧
    tree_repr ncap (k + n) t' (fsL ++ fs ++ fsR).
Proof.
  intros Hc Hn Hnd Hlt Hfs Hr Hfuel Hpos.
  destruct (unlock_upwards_spec (E:=E) d ncap r k n p par fsL fsR psC rng fuel t fs ps)
    as (h' & ps' & Hrun & Hn' & Hps); [done..|].
  eexists. split; [exact Hrun|]. split; [done|]. split; [done|]. exists ps'.
  unfold MemTreeRepr.link_repr. cbn [root]. rewrite Hr. split; [done|]. split.
  - eapply (NoDup_permuted (psC ++ ps)); [by rewrite Hps|done].
  - cbn [next_ptr]. by rewrite Hps.
Qed.

(** The same for a leave with new contents *)
Lemma release_leave {E} ncap r k p par fsL fsR psC rng fuel t fs dt :
  ctx ncap true (heap t) (Some r) k 0 p par fsL fsR psC rng →
  heap t !! p = Some (Leave par fs dt true) →
  sized (is_child par) LEAVE_MAX_FILE_COUNT LEAVE_MAX_FILE_COUNT (length fs) →
  p ∉ psC → NoDup psC → Forall (λ q, (q < next_ptr t)%positive) (psC ++ [p]) →
  Forall (λ f, rng (id f)) fs → link_node (root t) = Some r → (k < fuel)%nat →
  Forall (λ f, 0 < id f) (fsL ++ fs ++ fsR) →
  ∃ t', MemTree_unlock_upwards (E:=E) fuel p t = (Ok tt, t') ∧
    tree_repr ncap k t' (fsL ++ fs ++ fsR).
Proof.
  intros Hc Hp Hsz Hnin Hnd Hlt Hfs Hr Hfuel Hpos.
  destruct (release_path (E:=E) ncap r k 0 p par fsL fsR psC rng fuel t fs [p])
    as (t' & ? & ?); [done|..]; try done.
  - split; [done|]. split; [done|]. by exists dt.
  - apply NoDup_app. split; [done|]. split; [|apply NoDup_singleton].
    intros q Hq ->%list_elem_of_singleton. done.
  - exists t'. by rewrite Nat.add_0_r in *.
Qed.

(** ** Splitting a leave *)

Lemma last_elem {A} (l : list A) x : last l = Some x → x ∈ l.
Proof. intros (l' & ->)%last_Some. apply elem_of_app. right. by left. Qed.

(** Every file of a sorted list is at most the last one. *)
Lemma files_sorted_last l a : files_sorted l → last l = Some a → Forall (λ f, id f ≤ id a) l.
Proof.
  intros Hs (l' & ->)%last_Some. apply files_sorted_app in Hs as (_ & _ & Hlt).
  apply Forall_app. split.
  - apply Forall_forall. intros f Hf. specialize (Hlt f a Hf ltac:(by left)). lia.
  - by repeat constructor.
Qed.

(** The maxima after a leave was split in two *)
Lemma split_bounds mid m (ms : list (option FileId)) ss l r a b n :
  bounds_from mid (m :: ms) ([] :: ss) → files_sorted (l ++ r) →
  last l = Some a → last r = Some b → Forall (λ f, in_slot mid m (id f)) (l ++ r) →
  bounds_from mid (Some (id a) :: max_unless_last (id b) (S n) (n + S (length ms)) :: ms)
    (l :: r :: ss).
Proof.
  intros Hb Hs Ha Hr Hin. pose proof (proj1 (files_sorted_app _ _) Hs) as (Hsl & Hsr & Hlr).
  pose proof (files_sorted_last l a Hsl Ha) as Hmax.
  pose proof (files_sorted_last r b Hsr Hr) as Hmaxr.
  apply last_elem in Ha, Hr. apply Forall_app in Hin as [Hinl Hinr].
  rewrite Forall_forall in Hinl. pose proof (Hinl a Ha) as [Hmid _].
  apply bounds_from_cons; [done|]. exists (id a). split; [done|]. split; [done|]. split.
  { rewrite Forall_forall in Hmax |- *. intros f Hf. split; [by apply Hinl|by apply Hmax]. }
  unfold max_unless_last. assert (Forall (λ f, id a < id f) r) as Hra.
  { apply Forall_forall. intros f Hf. by apply Hlr. }
  destruct ms as [|m' ms].
  - cbn [length]. rewrite (proj2 (Nat.eqb_eq _ _)) by lia.
    destruct ss as [|s ss]; [done|]. cbn in Hb. naive_solver.
  - cbn [length]. rewrite (proj2 (Nat.eqb_neq _ _)) by lia.
    apply bounds_from_cons; [done|]. exists (id b). split; [done|]. split.
    { rewrite Forall_forall in Hra. by apply Hra. }
    split; [apply Forall_and; by split|].
    rewrite bounds_from_cons in Hb by done. destruct Hb as (k & -> & _ & _ & Hb).
    eapply bounds_from_mono; [|exact Hb]. rewrite Forall_forall in Hinr.
    by destruct (Hinr b Hr) as [_ ?].
Qed.

(** Only the link on the path leads to a node outside of its siblings. *)
Lemma kids_no_link ncap n h q cs segs p :
  kids_repr ncap n h q cs segs → p ∉ concat segs.*2 →
  Forall (λ c, bool_decide (link_node c.1 = Some p) = false) cs.
Proof.
  intros Hk. induction Hk as [|c s cs segs Hc Hk IH]; cbn; intros Hnin; constructor.
  - apply bool_decide_eq_false_2. intros Hl. unfold MemTreeRepr.link_repr in Hc. rewrite Hl in Hc.
    apply Hnin. apply elem_of_app. left. by eapply node_repr_root_in.
  - apply IH. intros Hin. apply Hnin. apply elem_of_app. by right.
Qed.

Lemma position_middle {A} (f : A → bool) pre x post :
  Forall (λ y, f y = false) pre → f x = true →
  position f (pre ++ x :: post) = Some (length pre).
Proof.
  intros Hpre Hx. induction Hpre as [|y pre Hy Hpre IH]; cbn; [by rewrite Hx|].
  by rewrite Hy, IH.
Qed.

(** The node at [q] has less than [cap] children. *)
Definition room_in (cap : nat) (h : gmap ptr MemTreeNode) (q : ptr) : Prop :=
  ∀ qpar cs dt dc lk, h !! q = Some (Node qpar cs dt dc lk) → (length cs < cap)%nat.

(** A full leave below the root: its files are split between it and a new right
    neighbour. *)
Lemma insert_split_spec ncap cap r k leaf q fsL fsR psC rng fuel t l rr dt a b :
  ctx ncap true (heap t) (Some r) k 0 leaf (Some q) fsL fsR psC rng →
  (ncap ≤ cap ≤ NODE_MAX_CHILD_COUNT)%nat → room_in cap (heap t) q →
  heap t !! leaf = Some (Leave (Some q) l dt false) →
  sized true LEAVE_MAX_FILE_COUNT LEAVE_MAX_FILE_COUNT (length l) →
  sized true LEAVE_MAX_FILE_COUNT LEAVE_MAX_FILE_COUNT (length rr) →
  leaf ∉ psC → NoDup psC → Forall (λ q, (q < next_ptr t)%positive) (psC ++ [leaf]) →
  files_sorted (l ++ rr) → last l = Some a → last rr = Some b →
  Forall (λ f, rng (id f)) (l ++ rr) → link_node (root t) = Some r → (k < fuel)%nat →
  Forall (λ f, 0 < id f) (fsL ++ (l ++ rr) ++ fsR) →
  ∃ t', MemTree_insert_split (DE:=DE) fuel q leaf (id a) (Leave (Some q) rr true false) (id b) t
      = (Ok tt, t') ∧
    tree_repr cap k t' (fsL ++ (l ++ rr) ++ fsR).
Proof.
  intros Hc [Hle Hcap] Hroom Hp Hszl Hszr Hnin HndC Hlt Hs Ha Hb Hrng Hr Hfuel Hpos.
  destruct fuel as [|fuel]; [lia|].
  inversion Hc as [|k' n' p' q' qpar pre link m post dt' dc sL sR fsL' fsR' psC' rng' mid
    Hc' Hq Hl Hpre Hpost Hsz Hseg Hbd Hsib]; subst.
  cbn [MemTree_insert_split]. rewrite (get_node_ok q _ _ _ Hq). rewrite run_bind. cbn [box_new].
  set (np := next_ptr t). set (t1 := mkTree _ _ _ _).
  assert (leaf ∉ concat sL.*2) as HnL by (intros ?; apply Hnin; set_solver).
  assert (leaf ∉ concat sR.*2) as HnR by (intros ?; apply Hnin; set_solver).
  rewrite (position_middle _ pre (link, m) post);
    [|by eapply kids_no_link|by apply bool_decide_eq_true_2].
  cbn [expect]. run.
  destruct Hsz as [Hszq Hszq']. specialize (Hroom _ _ _ _ _ Hq).
  assert (length (pre ++ (link, m) :: post) = length pre + S (length post))%nat as Hlen
    by by rewrite length_app.
  assert ((S (length pre) <=? length (pre ++ (link, m) :: post))%nat = true) as ->
    by (apply Nat.leb_le; lia). cbn [assert_]. run.
  assert ((length (pre ++ (link, m) :: post) <? NODE_MAX_CHILD_COUNT)%nat = true) as ->
    by (apply Nat.ltb_lt; lia).
  unfold vec_get. rewrite list_lookup_middle by done. cbn [expect]. run. cbn [fst].
  assert (<[length pre:=(link, Some (id a))]> (pre ++ (link, m) :: post) =
    pre ++ (link, Some (id a)) :: post) as ->.
  { replace (length pre) with (length pre + 0)%nat by lia. by rewrite insert_app_r. }
  unfold static_insert.
  rewrite length_app. cbn [length]. rewrite (proj2 (Nat.ltb_lt _ _)) by lia.
  cbn [assert_ mbind result_bind]. rewrite vec_insert_after by done. run.
  set (mx := max_unless_last _ _ _). set (cs := pre ++ _).
  rewrite put_node_ok. set (t2 := set_node q (Node qpar cs true dc true) t1).
  apply Forall_app in Hlt as [Hlt Hltl]. apply Forall_cons in Hltl as [Hltl _].
  assert (Forall (λ x, (x < np)%positive) (q :: concat sL.*2 ++ concat sR.*2 ++ psC'))
    as Hlt0 by done.
  assert (∀ x, x ∈ (q :: concat sL.*2 ++ concat sR.*2 ++ psC') → (x < np)%positive) as Hnp
    by by apply Forall_forall.
  assert (agree (concat sL.*2 ++ concat sR.*2 ++ psC') (heap t) (heap t2)) as Hag.
  { intros x Hx. cbn. apply NoDup_cons in HndC as [HqC _].
    rewrite lookup_insert_ne by (intros ->; done). rewrite lookup_insert_ne; [done|].
    specialize (Hnp x ltac:(by right)). lia. }
  assert (Forall (λ f, in_slot mid m (id f)) (l ++ rr)) as Hslot.
  { eapply Forall_impl; [exact Hrng|]. by intros f [_ ?]. }
  destruct (release_path (E:=MemTreeError DE) cap r k' 1 q qpar fsL' fsR' psC' rng' (S fuel) t2
    (concat sL.*1 ++ (l ++ rr) ++ concat sR.*1)
    (q :: concat sL.*2 ++ [leaf; np] ++ concat sR.*2)) as (t' & Hrun & Ht').
  - eapply ctx_mono; [exact Hle|]. eapply ctx_frame; [|exact Hc'].
    eapply agree_weaken; [|exact Hag]. set_solver.
  - apply node_repr_S. exists cs, true, dc, (sL ++ (l, [leaf]) :: (rr, [np]) :: sR).
    split; [cbn; by rewrite lookup_insert_eq|]. split; [|split; [|split; [|split]]].
    + apply kids_repr_app; [by eapply Forall2_length|]. split.
      { eapply kids_repr_mono; [exact Hle|]. eapply kids_repr_frame; [|exact Hpre].
        eapply agree_weaken; [|exact Hag]. set_solver. }
      apply not_elem_of_cons in Hnin as [Hne _].
      pose proof (Hnp q ltac:(left)) as Hqnp. fold np in Hltl. constructor; [|constructor].
      * unfold MemTreeRepr.link_repr. cbn [fst snd]. rewrite Hl. split; [done|]. split; [done|].
        exists dt. cbn. by rewrite !lookup_insert_ne by lia.
      * unfold MemTreeRepr.link_repr. cbn [fst snd link_node]. split; [done|]. split; [done|].
        exists true. cbn. rewrite lookup_insert_ne by lia. by rewrite lookup_insert_eq.
      * eapply kids_repr_mono; [exact Hle|]. eapply kids_repr_frame; [|exact Hpost].
        eapply agree_weaken; [|exact Hag]. set_solver.
    + rewrite fmap_app, concat_app. cbn. by rewrite <- app_assoc.
    + rewrite fmap_app, concat_app. done.
    + unfold cs. rewrite !fmap_app. cbn [fmap list_fmap fst snd]. apply bounds_from_app; [|done|].
      { rewrite !length_fmap. by eapply Forall2_length. }
      exists mid. split; [done|]. unfold mx.
      replace (length post) with (length post.*2) by by rewrite length_fmap.
      by apply (split_bounds mid m).
    + unfold cs. rewrite Hlen in *. rewrite length_app. cbn [length]. split; [lia|].
      intros Hch. specialize (Hszq' Hch). lia.
  - apply (NoDup_permuted ((q :: concat sL.*2 ++ concat sR.*2 ++ psC') ++ [leaf; np]));
      [solve_Permutation|].
    apply NoDup_app. split; [done|]. split.
    + intros x Hx [->|Hxn]%elem_of_cons; [done|]. apply list_elem_of_singleton in Hxn as ->.
      specialize (Hnp np Hx). lia.
    + apply NoDup_cons. split; [|apply NoDup_singleton]. rewrite list_elem_of_singleton.
      fold np in Hltl. lia.
  - change (next_ptr t2) with (Pos.succ np). apply Forall_forall. intros x Hx.
    assert (x ∈ (q :: concat sL.*2 ++ concat sR.*2 ++ psC') ∨ x = leaf ∨ x = np) as Hcase
      by set_solver.
    fold np in Hltl. destruct Hcase as [Hx'|[->| ->]]; [|lia|lia]. specialize (Hnp x Hx'). lia.
  - apply Forall_app in Hsib as [HsL HsR]. apply Forall_app. split; [done|].
    apply Forall_app. split; [|done]. eapply Forall_impl; [exact Hrng|]. by intros f [? _].
  - done.
  - lia.
  - by rewrite <- !app_assoc in *.
  - exists t'. split; [exact Hrun|]. replace (S k') with (k' + 1)%nat by lia.
    by rewrite <- !app_assoc in *.
Qed.

(** A full leave that is the root: the new root has the two halves as children. *)
Lemma insert_split_at_root_spec cap r t l rr dt lk a b :
  heap t !! r = Some (Leave None l dt lk) → link_node (root t) = Some r →
  (r < next_ptr t)%positive → (2 ≤ cap)%nat →
  sized true LEAVE_MAX_FILE_COUNT LEAVE_MAX_FILE_COUNT (length l) →
  sized true LEAVE_MAX_FILE_COUNT LEAVE_MAX_FILE_COUNT (length rr) →
  files_sorted (l ++ rr) → last l = Some a → last rr = Some b →
  Forall (λ f, 0 < id f) (l ++ rr) →
  ∃ t', MemTree_insert_split_at_root (DE:=DE) r (id a) (Leave None rr true false) t = (Ok tt, t') ∧
    tree_repr cap 1 t' (l ++ rr).
Proof.
  intros Hp Hr Hlt Hcap Hszl Hszr Hs Ha Hb Hpos. unfold MemTree_insert_split_at_root.
  rewrite (get_node_ok r _ _ _ Hp). cbn [MemTreeNode_get_parent].
  rewrite bool_decide_eq_true_2 by done. cbn [assert_]. run.
  rewrite (unlock_node_ok r _ _ _ Hp). cbn [set_lock]. run.
  cbn [root set_node]. rewrite Hr. cbn [expect]. run.
  rewrite bool_decide_eq_true_2 by done. cbn [assert_]. run.
  rewrite !run_bind. cbn [box_new heap next_ptr]. set (n1 := next_ptr t).
  rewrite run_bind. cbn [box_new heap next_ptr]. set (n2 := Pos.succ n1).
  assert (r < n1)%positive as Hr1 by done. assert (n1 < n2)%positive as H12 by lia.
  rewrite (get_node_ok r (Leave None l dt false))
    by (cbn; rewrite !lookup_insert_ne by lia; by rewrite lookup_insert_eq).
  rewrite put_node_ok. rewrite (get_node_ok n1 (Leave None rr true false))
    by (cbn; rewrite !lookup_insert_ne by lia; by rewrite lookup_insert_eq).
  rewrite put_node_ok. cbn [set_parent]. unfold put_root, unlock_root, put_root_lock. run.
  eexists. split; [done|].
  split; [done|]. split; [done|]. exists [n2; r; n1]. split; [|split].
  - unfold MemTreeRepr.link_repr. cbn [root link_node]. apply node_repr_S.
    eexists _, true, true, [(l, [r]); (rr, [n1])]. split.
    { cbn. rewrite !lookup_insert_ne by lia. by rewrite lookup_insert_eq. }
    split; [|split; [by cbn; rewrite app_nil_r|split; [done|split; [|done]]]].
    + constructor; [|constructor; [|constructor]]; unfold MemTreeRepr.link_repr;
        cbn [fst snd link_node]; (split; [done|]); (split; [done|]).
      * exists dt. cbn. rewrite lookup_insert_ne by lia. by rewrite lookup_insert_eq.
      * exists true. cbn. by rewrite lookup_insert_eq.
    + cbn [fmap list_fmap fst snd].
      apply (split_bounds 0 None [] [] l rr a b 0); try done.
      eapply Forall_impl; [exact Hpos|]. by split.
  - apply NoDup_cons. split; [set_unfold; lia|]. apply NoDup_cons. split; [set_unfold; lia|].
    apply NoDup_singleton.
  - cbn [next_ptr set_node heap]. repeat constructor; lia.
Qed.

(** The two halves as [insert] computes them *)
Lemma split_files {E} (x : FileNode) (fs : list FileNode) i (t : MemTree) :
  length fs = LEAVE_MAX_FILE_COUNT → (i ≤ length fs)%nat →
  let half := (LEAVE_MAX_FILE_COUNT / 2)%nat in
  ∃ l rr,
    (if (i <=? half)%nat then
       l ← lift (static_insert LEAVE_MAX_FILE_COUNT i x (take half fs)); mret (l, drop half fs)
     else
       l ← lift (static_insert LEAVE_MAX_FILE_COUNT (i - half) x (drop half fs));
       mret (take half fs, l)) t = (Ok (l, rr) : result E _, t) ∧
    l ++ rr = take i fs ++ x :: drop i fs ∧
    (half ≤ length l ≤ S half)%nat ∧ (half ≤ length rr ≤ S half)%nat.
Proof.
  intros Hlen Hi half. pose proof leave_even as He. pose proof leave_min as Hm. fold half in He, Hm.
  destruct (insert_halves (E:=E) half x fs i) as (l & rr & Hrun & Hrest); [lia|done|].
  exists l, rr. split; [|done]. unfold static_insert. rewrite length_take, length_drop.
  rewrite !(proj2 (Nat.ltb_lt _ _)) by lia. cbn [assert_ mbind result_bind].
  destruct (i <=? half)%nat; cbn [mbind result_bind] in Hrun.
  - destruct (vec_insert i x (take half fs)) as [l1| | |] eqn:Hv; try done.
    injection Hrun as -> <-. rewrite run_bind. done.
  - destruct (vec_insert (i - half) x (drop half fs)) as [l1| | |] eqn:Hv; try done.
    injection Hrun as <- ->. rewrite run_bind. done.
Qed.

Lemma insert_full_leave_spec ncap cap r k leaf par fsL fs fsR psC rng fuel t dt i x :
  ctx ncap true (heap t) (Some r) k 0 leaf par fsL fsR psC rng →
  (ncap ≤ cap ≤ NODE_MAX_CHILD_COUNT)%nat → (2 ≤ cap)%nat →
  (∀ q, par = Some q → room_in cap (heap t) q) →
  heap t !! leaf = Some (Leave par fs dt true) → length fs = LEAVE_MAX_FILE_COUNT →
  leaf ∉ psC → NoDup psC → Forall (λ q, (q < next_ptr t)%positive) (psC ++ [leaf]) →
  (i ≤ length fs)%nat → files_sorted (take i fs ++ x :: drop i fs) →
  Forall (λ f, rng (id f)) (take i fs ++ x :: drop i fs) →
  link_node (root t) = Some r → (k < fuel)%nat →
  Forall (λ f, 0 < id f) (fsL ++ (take i fs ++ x :: drop i fs) ++ fsR) →
  ∃ t' k', insert_full_leave (DE:=DE) fuel leaf par fs true i x t = (Ok tt, t') ∧
    (k ≤ k' ≤ S k)%nat ∧
    tree_repr cap k' t' (fsL ++ (take i fs ++ x :: drop i fs) ++ fsR).
Proof.
  intros Hc Hcap Hcap2 Hroom Hp Hlen Hnin HndC Hlt Hi Hs Hrng Hr Hfuel Hpos. unfold insert_full_leave.
  pose proof leave_even as He. pose proof leave_min as Hm.
  rewrite (proj2 (Nat.eqb_eq _ _)) by (rewrite length_take, length_drop; lia).
  cbn [assert_]. run.
  destruct (split_files (E:=MemTreeError DE) x fs i t Hlen Hi)
    as (l & rr & Hrun & Happ & Hll & Hlr).
  rewrite <- Happ in *. clear Happ. rewrite run_bind, Hrun.
  destruct (last l) as [a|] eqn:Ha; [|apply last_None in Ha as ->; cbn in *; lia].
  destruct (last rr) as [b|] eqn:Hb; [|apply last_None in Hb as ->; cbn in *; lia].
  cbn [expect]. run. rewrite put_node_ok.
  set (t1 := set_node leaf (Leave par l true true) t).
  assert (heap t1 !! leaf = Some (Leave par l true true)) as Hp1
    by by cbn; rewrite lookup_insert_eq.
  rewrite (into_parent_ok leaf _ _ _ Hp1). cbn [MemTreeNode_get_parent].
  assert (sized true LEAVE_MAX_FILE_COUNT LEAVE_MAX_FILE_COUNT (length l)) as Hszl
    by (split; intros; lia).
  assert (sized true LEAVE_MAX_FILE_COUNT LEAVE_MAX_FILE_COUNT (length rr)) as Hszr
    by (split; intros; lia).
  destruct par as [q|].
  - cbn [set_lock].
    destruct (insert_split_spec ncap cap r k leaf q fsL fsR psC rng fuel
      (set_node leaf (Leave (Some q) l true false) t1) l rr true a b) as (t' & ? & ?); try done.
    + eapply ctx_frame; [|exact Hc]. cbn. rewrite insert_insert_eq. by apply agree_insert.
    + intros qpar cs dt' dc lk. cbn. rewrite insert_insert_eq. rewrite lookup_insert_Some.
      intros [[_ ?]|[_ Hq]]; [done|]. by eapply Hroom.
    + cbn. by rewrite lookup_insert_eq.
    + exists t', k. split; [done|]. split; [lia|done].
  - inversion Hc as [n' p' Hrt|]; subst. injection Hrt as <-. cbn [app] in *.
    rewrite app_nil_r in *. apply Forall_cons in Hlt as [Hlt _].
    destruct (insert_split_at_root_spec cap r t1 l rr true true a b) as (t' & ? & ?);
      try done.
    exists t', 1%nat. split; [done|]. split; [lia|done].
Qed.

(** ** [insert] *)

(** When the leave of an id is full, the node above it has less than [cap] children. *)
Definition room_above (cap fuel : nat) (x : FileId) (t : MemTree) : Prop :=
  ∀ leaf t1 q gs dt lk, MemTree_find_leave (DE:=DE) fuel true d x t = (Ok leaf, t1) →
    heap t1 !! leaf = Some (Leave (Some q) gs dt lk) → length gs = LEAVE_MAX_FILE_COUNT →
    room_in cap (heap t1) q.

Lemma MemTree_insert_spec ncap cap n fuel t fs file create_only :
  tree_repr ncap n t fs → (ncap ≤ cap ≤ NODE_MAX_CHILD_COUNT)%nat → (2 ≤ cap)%nat →
  room_above cap fuel (id file) t → files_sorted fs → 0 < id file ≤ u64_max → (n < fuel)%nat →
  ∃ t' n' res, MemTree_insert (DE:=DE) fuel d file create_only t = (res, t') ∧
    (n ≤ n' ≤ S n)%nat ∧
    if decide (Forall (λ f, id f ≠ id file) fs)
    then res = Ok tt ∧ tree_repr cap n' t' (file_insert file fs)
    else if create_only
    then res = Err (FileNodeExists (id file)) ∧ tree_repr ncap n t' fs
    else res = Ok tt ∧ tree_repr ncap n t' (file_update file fs).
Proof.
  intros Ht Hcap Hcap2 Hroom Hs Hx Hfuel. pose proof Ht as (_ & Hpos & _).
  destruct (find_leave_spec d ncap true n fuel t fs (id file) Ht Hx Hfuel)
    as (leaf & t1 & r & Hrun & Hat & Hr & Hrl).
  destruct (at_leave_parts _ _ _ _ _ _ _ _ _ Hat)
    as (par & fsL & gs & fsR & psC & rng & dt & Hc & Hp & [Hsz Hsz'] & Hnin & HndC & Hlt & Hfs &
        Hrx & <- & HL & HR).
  rewrite (file_insert_middle file fsL gs fsR), (file_update_middle file fsL gs fsR) by done.
  pose proof Hpos as Hpos'. rewrite !Forall_app in Hpos'. destruct Hpos' as (HpL & Hpg & HpR).
  unfold MemTree_insert. rewrite run_bind. unfold mapM_err at 1. rewrite Hrun. cbn [map_err fst snd].
  rewrite (get_node_ok leaf _ _ _ Hp).
  destruct (position (λ f, id f =? id file) gs) as [i|] eqn:Hi.
  - assert (¬ Forall (λ f, id f ≠ id file) (fsL ++ gs ++ fsR)) as Hex.
    { rewrite file_absent_middle by done. by rewrite <- file_position_None, Hi. }
    destruct (file_update_position _ _ _ Hi) as [Hset Hilt].
    destruct create_only.
    + destruct (release_leave (E:=MemTreeError DE) ncap r n leaf par fsL fsR psC rng fuel t1 gs dt)
        as (t' & Hun & Ht'); try done.
      eexists t', n, _. split; [by rewrite run_bind, Hun|]. split; [lia|].
      by rewrite decide_False by done.
    + unfold vec_set. rewrite (proj2 (Nat.ltb_lt _ _)) by done. rewrite Hset. run.
      rewrite put_node_ok.
      destruct (release_leave (E:=MemTreeError DE) ncap r n leaf par fsL fsR psC rng fuel
        (set_node leaf (Leave par (file_update file gs) true true) t1) (file_update file gs) true)
        as (t' & Hun & Ht'); try done.
      * eapply ctx_frame; [|exact Hc]. by apply agree_insert.
      * cbn. by rewrite lookup_insert_eq.
      * by rewrite file_update_length.
      * by apply (Forall_ids rng gs); [rewrite file_update_ids|].
      * rewrite !Forall_app. split_and!; try done.
        apply (Forall_ids (λ x, 0 < x) gs); [by rewrite file_update_ids|done].
      * exists t', n, (Ok tt). split; [done|]. split; [lia|]. by rewrite decide_False by done.
  - assert (Forall (λ f, id f ≠ id file) (fsL ++ gs ++ fsR)) as Habs.
    { rewrite file_absent_middle by done. by apply file_position_None. }
    destruct (file_insert_position file gs) as [Hile Hins].
    set (i := default (length gs) _) in *.
    assert (files_sorted (file_insert file gs)) as Hs'.
    { apply files_sorted_app in Hs as (_ & Hs & _). apply files_sorted_app in Hs as (Hs & _ & _).
      apply file_insert_sorted; [done|]. by apply file_position_None. }
    assert (Forall (λ f, rng (id f)) (file_insert file gs)) as Hrng'
      by by apply file_insert_Forall.
    assert (Forall (λ f, 0 < id f) (fsL ++ file_insert file gs ++ fsR)) as Hpos''.
    { rewrite !Forall_app. split_and!; try done. apply file_insert_Forall. split; [lia|done]. }
    destruct (Nat.ltb_spec (length gs) LEAVE_MAX_FILE_COUNT) as [Hless|Hfull].
    + unfold static_insert. rewrite (proj2 (Nat.ltb_lt _ _)) by done.
      cbn [assert_ mbind result_bind]. unfold vec_insert.
      rewrite (proj2 (Nat.leb_le _ _)) by done. rewrite <- Hins. run. rewrite put_node_ok.
      destruct (release_leave (E:=MemTreeError DE) ncap r n leaf par fsL fsR psC rng fuel
        (set_node leaf (Leave par (file_insert file gs) true true) t1) (file_insert file gs) true)
        as (t' & Hun & Ht'); try done.
      * eapply ctx_frame; [|exact Hc]. by apply agree_insert.
      * cbn. by rewrite lookup_insert_eq.
      * rewrite file_insert_length. split; [lia|]. intros Hch. specialize (Hsz' Hch). lia.
      * exists t', n, (Ok tt). split; [done|]. split; [lia|]. rewrite decide_True by done.
        split; [done|].
        eapply tree_repr_mono; [|exact Ht']. lia.
    + rewrite Hins in *.
      destruct (insert_full_leave_spec ncap cap r n leaf par fsL gs fsR psC rng fuel t1 dt i file)
        as (t' & n' & Hfl & Hn' & Ht'); try done; [intros q ->; eapply Hroom; [done..|lia]|lia|].
      exists t', n', (Ok tt). split; [done|]. split; [lia|]. by rewrite decide_True by done.
Qed.

(** C7: [insert_new] on a valid tree where no inner node is split: if the leave of the
    id is full, the node above it has room for another child ([room_above], with [cap] up
    to the capacity of the nodes). Splitting an inner node goes wrong
    ([insert_ascending_hangs], [insert_descending_loses_files]). A file with a new id goes to its place in the order of the ids, by
    filling up a leave, by splitting a full leave or by growing a root; a file
    whose id is taken is refused and nothing changes. In both cases the tree is
    valid afterwards, its files are in order and every lock is released. *)
Theorem MemTree_insert_new_spec ncap cap n fuel t fs file :
  tree_repr ncap n t fs → (ncap ≤ cap ≤ NODE_MAX_CHILD_COUNT)%nat → (2 ≤ cap)%nat →
  room_above cap fuel (id file) t → files_sorted fs → 0 < id file ≤ u64_max → (n < fuel)%nat →
  ∃ t' n', (n ≤ n' ≤ S n)%nat ∧
    if decide (Forall (λ f, id f ≠ id file) fs)
    then MemTree_insert_new (DE:=DE) fuel d file t = (Ok tt, t') ∧
      tree_repr cap n' t' (file_insert file fs) ∧ files_sorted (file_insert file fs)
    else MemTree_insert_new (DE:=DE) fuel d file t = (Err (FileNodeExists (id file)), t') ∧
      tree_repr ncap n t' fs.
Proof.
  intros Ht Hcap Hcap2 Hroom Hs Hx Hfuel.
  destruct (MemTree_insert_spec ncap cap n fuel t fs file true Ht Hcap Hcap2 Hroom Hs Hx Hfuel)
    as (t' & n' & res & Hrun & Hn' & Hcase). unfold MemTree_insert_new. rewrite Hrun.
  exists t', n'. split; [done|].
  case_decide as Habs; destruct Hcase as [-> Ht']; [|done].
  split; [done|]. split; [done|]. by apply file_insert_sorted.
Qed.

(** [update] on the same trees: an existing file is replaced in place, a file
    that does not exist is inserted. *)
Theorem MemTree_update_spec ncap cap n fuel t fs file :
  tree_repr ncap n t fs → (ncap ≤ cap ≤ NODE_MAX_CHILD_COUNT)%nat → (2 ≤ cap)%nat →
  room_above cap fuel (id file) t → files_sorted fs → 0 < id file ≤ u64_max → (n < fuel)%nat →
  ∃ t' n', MemTree_update (DE:=DE) fuel d file t = (Ok tt, t') ∧ (n ≤ n' ≤ S n)%nat ∧
    if decide (Forall (λ f, id f ≠ id file) fs)
    then tree_repr cap n' t' (file_insert file fs)
    else tree_repr ncap n t' (file_update file fs).
Proof.
  intros Ht Hcap Hcap2 Hroom Hs Hx Hfuel.
  destruct (MemTree_insert_spec ncap cap n fuel t fs file false Ht Hcap Hcap2 Hroom Hs Hx Hfuel)
    as (t' & n' & res & Hrun & Hn' & Hcase). unfold MemTree_update. rewrite Hrun.
  exists t', n'. case_decide as Habs; destruct Hcase as [-> Ht']; done.
Qed.

(** ** [delete] *)

(** C19: [delete] where no leave underflows: the leave of the id is the root or more
    than half full. The file is removed and returned; for an unknown id the error
    names it and nothing changes. The tree is valid and free of locks afterwards. *)
Theorem MemTree_delete_spec ncap n fuel t fs x :
  tree_repr ncap n t fs → 0 < x ≤ u64_max → (n < fuel)%nat →
  (∀ leaf t1 q gs dt lk, MemTree_find_leave (DE:=DE) fuel true d x t = (Ok leaf, t1) →
     heap t1 !! leaf = Some (Leave q gs dt lk) →
     q = None ∨ (LEAVE_MAX_FILE_COUNT / 2 < length gs)%nat) →
  ∃ t', MemTree_delete (DE:=DE) fuel d x t =
      (match snd <$> list_find (λ f, id f = x) fs with
       | Some f => Ok f
       | None => Err (MTE_FileDoesNotExist x)
       end, t') ∧
    tree_repr ncap n t' (file_remove x fs).
Proof.
  intros Ht Hx Hfuel Hroom. pose proof Ht as (_ & Hpos & _).
  destruct (find_leave_spec d ncap true n fuel t fs x Ht Hx Hfuel)
    as (leaf & t1 & r & Hrun & Hat & Hr & Hrl).
  destruct (at_leave_parts _ _ _ _ _ _ _ _ _ Hat)
    as (par & fsL & gs & fsR & psC & rng & dt & Hc & Hp & [Hsz Hsz'] & Hnin & HndC & Hlt & Hfs &
        Hrx & <- & HL & HR).
  specialize (Hroom leaf t1 par gs dt true Hrun Hp).
  rewrite <- (list_find_part x fsL gs fsR HL HR), (file_remove_middle x fsL gs fsR HL HR).
  unfold MemTree_delete. rewrite run_bind. unfold mapM_err at 1. rewrite Hrun. cbn [map_err fst snd].
  rewrite (get_node_ok leaf _ _ _ Hp).
  destruct (position (λ f, id f =? x) gs) as [i|] eqn:Hi.
  - destruct (file_remove_position (E:=MemTreeError DE) x gs i Hi)
      as (f & Hrem & _ & Hfind & Hlen & Hsub).
    rewrite Hrem, Hfind. run. rewrite put_node_ok.
    assert ((LEAVE_MAX_FILE_COUNT / 2 <=? length (file_remove x gs))%nat || bool_decide (par = None)
      = true) as ->.
    { destruct Hroom as [->|Hroom]; [by rewrite bool_decide_eq_true_2, orb_true_r|].
      rewrite (proj2 (Nat.leb_le _ _)) by lia. done. }
    destruct (release_leave (E:=MemTreeError DE) ncap r n leaf par fsL fsR psC rng fuel
      (set_node leaf (Leave par (file_remove x gs) true true) t1) (file_remove x gs) true)
      as (t' & Hun & Ht'); try done.
    + eapply ctx_frame; [|exact Hc]. by apply agree_insert.
    + cbn. by rewrite lookup_insert_eq.
    + split; [lia|]. intros Hch. destruct Hroom as [->|Hroom]; [done|lia].
    + by eapply sublist_Forall.
    + rewrite !Forall_app in Hpos |- *. destruct Hpos as (? & ? & ?). split_and!; try done.
      by eapply sublist_Forall.
    + exists t'. by rewrite run_bind, Hun.
  - apply file_position_None in Hi.
    assert (file_remove x gs = gs ∧ snd <$> list_find (λ f, id f = x) gs = None) as [-> ->].
    { clear -Hi. induction Hi as [|f gs Hf Hi [IH1 IH2]]; [done|]. cbn.
      rewrite (proj2 (Z.eqb_neq _ _)) by done. rewrite IH1, decide_False by done.
      by destruct (list_find _ gs) as [[]|]. }
    destruct (release_leave (E:=MemTreeError DE) ncap r n leaf par fsL fsR psC rng fuel t1 gs dt)
      as (t' & Hun & Ht'); try done.
    exists t'. by rewrite run_bind, Hun.
Qed.

(** ** The empty tree *)

(** A new tree is a valid tree without files. *)
Lemma MemTree_empty_repr ncap : tree_repr ncap 0 MemTree_empty [].
Proof.
  split; [done|]. split; [constructor|]. exists [1%positive]. split; [|split].
  - split; [done|]. split; [split; [apply Nat.le_0_l|done]|]. by exists true.
  - apply NoDup_singleton.
  - by repeat constructor.
Qed.
End proofs.
