(* ===== verification/MemTreeValid.v ===== *)
(** * [assert_valid] accepts the valid trees

    The run-time check of the tree succeeds on every tree the representation
    predicate describes and leaves it as it was. *)

From S2P Require Import Prelude BlockDevice FsStructs BlockAllocator MemStructs MemTree FileLists.
From S2P Require Import MemTreeRepr MemTreeProofs.
Local Open Scope Z_scope.

Lemma bounds_from_ascends lo ms ss : bounds_from lo ms ss → windows2_all max_ascends ms = true.
Proof.
  revert lo ss. induction ms as [|m ms IH]; intros lo ss Hb; [done|].
  destruct ms as [|m' ms]; [done|]. destruct ss as [|s ss]; [done|].
  rewrite bounds_from_cons in Hb by done. destruct Hb as (k & -> & _ & _ & Hb).
  rewrite windows2_all_cons, (IH k ss Hb), andb_true_r.
  destruct ss as [|s' ss]; [by destruct m', ms|]. destruct ms as [|m'' ms].
  - destruct ss; [by destruct Hb as [-> _]|cbn in Hb; naive_solver].
  - rewrite bounds_from_cons in Hb by done. destruct Hb as (k' & -> & ? & _). cbn.
    by apply Z.ltb_lt.
Qed.

Lemma bounds_from_last lo ms ss : bounds_from lo ms ss → last ms = Some None.
Proof.
  revert lo ss. induction ms as [|m ms IH]; intros lo ss Hb; [by destruct ss|].
  destruct ss as [|s ss]; [by destruct ms|].
  destruct ms as [|m' ms]; [destruct ss; [by destruct Hb as [-> _]|cbn in Hb; naive_solver]|].
  rewrite bounds_from_cons in Hb by done. destruct Hb as (k & _ & _ & _ & Hb).
  rewrite last_cons_cons. by eapply IH.
Qed.

Lemma files_sorted_windows fs : files_sorted fs → windows2_all (λ a b, id a <=? id b) fs = true.
Proof.
  induction fs as [|f fs IH]; [done|]. intros [Hs Hf]%files_sorted_cons.
  destruct fs as [|g fs]; [done|]. rewrite windows2_all_cons, (IH Hs), andb_true_r.
  apply Forall_cons in Hf as [Hf _]. apply Z.leb_le. lia.
Qed.

Section proofs.
Context `{TreeCapacity}.
Context {D B DE : Type} `{BlockDevice D B DE} `{!BlockConstructable B TreeNode}.
Variable d : D.
Variable ncap : nat.

Abbreviation node_repr := (node_repr (DE:=DE) d ncap).
Abbreviation link_repr := (link_repr (DE:=DE) d ncap).
Abbreviation kids_repr := (kids_repr (DE:=DE) d ncap).
Abbreviation tree_repr := (tree_repr (DE:=DE) d ncap).

Lemma assert_valid_children_ok {E} n q (check : ptr → M MemTree E unit) cs segs t :
  kids_repr n (heap t) q cs segs →
  (∀ p fs ps, node_repr n (heap t) false p (Some q) fs ps → (fs, ps) ∈ segs →
     check p t = (Ok tt, t)) →
  assert_valid_children check cs t = (Ok tt, t).
Proof.
  intros Hk Hcheck. induction Hk as [|[link m] s cs segs Hc Hk IH]; [done|].
  cbn [assert_valid_children]. rewrite run_bind. cbn [fst] in Hc.
  assert (assert_valid_children check cs t = (Ok tt, t)) as Hrest.
  { apply IH. intros p fs ps Hn Hin. eapply Hcheck; [exact Hn|]. by right. }
  unfold MemTreeRepr.link_repr in Hc. destruct (link_node link) as [p|]; [|done].
  rewrite (Hcheck p s.1 s.2 Hc); [done|]. destruct s. left.
Qed.

Lemma set_node_back p nd t :
  heap t !! p = Some nd → node_lock nd = false →
  set_node p (set_lock false (set_lock true nd)) (set_node p (set_lock true nd) t) = t.
Proof.
  intros Hp Hl. destruct t as [h nx r rl]. unfold set_node. cbn in *. f_equal.
  rewrite insert_insert_eq. apply insert_id. rewrite Hp. by destruct nd; cbn in *; subst.
Qed.

Lemma node_assert_valid {E} n : ∀ fuel t p par fs ps,
  node_repr n (heap t) false p par fs ps → NoDup ps → files_sorted fs → (n < fuel)%nat →
  MemTreeNode_assert_valid (E:=E) fuel par p t = (Ok tt, t).
Proof.
  induction n as [|n IH]; intros [|fuel] t p par fs ps Hn Hnd Hs Hfuel; try lia;
    cbn [MemTreeNode_assert_valid].
  - destruct Hn as (-> & [Hsz Hsz'] & dt & Hp).
    rewrite (lock_node_ok p _ _ _ Hp) by done. cbn [set_lock].
    rewrite (get_node_ok p (Leave par fs dt true)) by (cbn; by rewrite lookup_insert_eq).
    cbn [MemTreeNode_get_parent MemTreeNode_cap MemTreeNode_len].
    rewrite bool_decide_eq_true_2 by done. cbn [assert_]. run. rewrite run_bind.
    assert ((match par with
      | Some _ => lift (assert_ (LEAVE_MAX_FILE_COUNT / 2 <=? length fs)%nat)
      | None => mret tt
      end : M MemTree E unit) (set_node p (Leave par fs dt true) t)
      = (Ok tt, set_node p (Leave par fs dt true) t)) as ->.
    { destruct par; [|done]. by rewrite (proj2 (Nat.leb_le _ _)) by by apply Hsz'. }
    rewrite files_sorted_windows by done. cbn [assert_]. run.
    rewrite (unlock_node_run p (Leave par fs dt true)) by (cbn; by rewrite lookup_insert_eq).
    f_equal. by apply (set_node_back p (Leave par fs dt false)).
  - rewrite node_repr_S in Hn. destruct Hn as (cs & dt & dc & segs & Hp & Hk & -> & -> & Hb & Hsz & Hsz').
    rewrite (lock_node_ok p _ _ _ Hp) by done. cbn [set_lock].
    set (t1 := set_node p (Node par cs dt dc true) t).
    assert (heap t1 !! p = Some (Node par cs dt dc true)) as Hp1
      by (cbn; by rewrite lookup_insert_eq).
    rewrite (get_node_ok p _ _ _ Hp1).
    cbn [MemTreeNode_get_parent MemTreeNode_cap MemTreeNode_len].
    rewrite bool_decide_eq_true_2 by done. cbn [assert_]. run. rewrite run_bind.
    assert ((match par with
      | Some _ => lift (assert_ (NODE_MAX_CHILD_COUNT / 2 <=? length cs)%nat)
      | None => mret tt
      end : M MemTree E unit) t1 = (Ok tt, t1)) as ->.
    { destruct par; [|done]. by rewrite (proj2 (Nat.leb_le _ _)) by by apply Hsz'. }
    rewrite (bounds_from_ascends _ _ _ Hb). cbn [assert_]. rewrite run_bind. run.
    pose proof (bounds_from_last _ _ _ Hb) as Hlast. rewrite fmap_last in Hlast.
    destruct (last cs) as [l|]; [|done]. cbn in Hlast. injection Hlast as Hl. cbn [expect].
    run. rewrite Hl. rewrite bool_decide_eq_true_2 by done. cbn [assert_]. run.
    apply NoDup_cons in Hnd as [Hnin Hnd].
    rewrite (assert_valid_children_ok n p _ cs segs t1).
    + rewrite (unlock_node_run p _ _ Hp1). f_equal.
      by apply (set_node_back p (Node par cs dt dc false)).
    + eapply kids_repr_frame; [|exact Hk]. by apply agree_insert.
    + intros p' fs ps Hn Hin. eapply IH; [exact Hn| | |lia].
      * apply list_elem_of_split in Hin as (s1 & s2 & ->). rewrite fmap_app, concat_app in Hnd.
        cbn in Hnd. by apply NoDup_app in Hnd as (_ & _ & [? _]%NoDup_app).
      * apply list_elem_of_split in Hin as (s1 & s2 & ->). rewrite fmap_app, concat_app in Hs.
        cbn in Hs. apply files_sorted_app in Hs as (_ & Hs & _).
        by apply files_sorted_app in Hs as (? & _ & _).
Qed.

(** The check [assert_valid] passes on every valid tree whose root is loaded and
    whose files are in order, and changes nothing; in particular it passes after
    every operation that is proved to keep the tree valid. *)
Theorem MemTree_assert_valid_ok {E} n fuel t fs :
  tree_repr n t fs → files_sorted fs → is_Some (link_node (root t)) → (n < fuel)%nat →
  MemTree_assert_valid (E:=E) fuel t = (Ok tt, t).
Proof.
  intros (Hrl & _ & ps & Hl & Hnd & _) Hs [r Hr] Hfuel.
  unfold MemTree_assert_valid, lock_root. rewrite !run_bind. cbn [gets]. rewrite Hrl.
  cbn [put_root_lock modify]. rewrite run_bind. cbn [gets root]. rewrite Hr. cbn [expect]. run.
  unfold MemTreeRepr.link_repr in Hl. rewrite Hr in Hl. rewrite run_bind.
  rewrite (node_assert_valid n fuel _ r None fs ps) by done.
  unfold unlock_root, put_root_lock, modify. cbn. f_equal. destruct t. cbn in *. by subst.
Qed.
End proofs.
