(* ===== verification/MemTreeExamples.v ===== *)
(** * The file tree on concrete inputs

    A device with a two-level tree, on which the theorems about the tree are
    applied, and runs that show where the tree code goes wrong. The capacities are
    those of the test build. *)

From S2P Require Import Prelude BlockDevice FsStructs BlockAllocator BlockAllocatorProofs FreeListProofs.
From S2P Require Import MemStructs MemTree FileLists MemTreeRepr MemTreeProofs MemTreeInsert MemTreeValid.
Local Open Scope Z_scope.

#[local] Existing Instance test_capacity.

Definition demo_node (n : FileId) : FsFileNode :=
  mkFsFileNode n (Some 1) File [7; 5; 5; 5] 0 0 100 0 0 (BLH_Single (mkBlockGroup (1000 + n) 1)) 1.
Definition mem_file (n : FileId) : FileNode := FileNode_from (demo_node n).

(** Block 6 is the root with the leaves 7 and 8; the right leave is full. *)
Definition demo_tree_device : MemDevice FsBlock :=
  mkMemDevice 100
    (<[6:=FB_Tree (TN_Node [(7, Some 5); (8, None)])]>
    (<[7:=FB_Tree (TN_Leave (demo_node <$> [1; 2; 3; 5]))]>
    (<[8:=FB_Tree (TN_Leave (demo_node <$> [10; 12; 14; 16; 18; 20]))]> ∅))) (FB_Raw []).

Definition demo_tree : MemTree := mkTree ∅ 1%positive (mkLink None (Some 6)) false.
Definition demo_files : list FileNode := mem_file <$> [1; 2; 3; 5; 10; 12; 14; 16; 18; 20].

Lemma demo_tree_repr : tree_repr (DE:=unit) demo_tree_device 4 1 demo_tree demo_files.
Proof.
  split; [done|]. split; [by repeat constructor|]. exists []. split; [|by split; constructor].
  split; [done|]. exists 6. split; [done|].
  exists [(7, Some 5); (8, None)], [mem_file <$> [1; 2; 3; 5]; mem_file <$> [10; 12; 14; 16; 18; 20]].
  split; [done|]. split; [|split; [done|split]].
  - constructor; [|constructor; [|constructor]].
    + exists (demo_node <$> [1; 2; 3; 5]). split; [done|]. split; [done|]. cbn. split; [lia|].
      intros _. cbn. lia.
    + exists (demo_node <$> [10; 12; 14; 16; 18; 20]). split; [done|]. split; [done|].
      cbn. split; [lia|]. intros _. cbn. lia.
  - cbn. exists 5. split; [done|]. split; [done|]. split; [by repeat constructor|].
    split; [done|]. by repeat constructor.
  - split; [cbn; lia|done].
Qed.

Lemma demo_files_sorted : files_sorted demo_files.
Proof. by repeat constructor. Qed.

Lemma absent_15 : Forall (λ f, id f ≠ id (mem_file 15)) demo_files.
Proof. apply file_position_None. by vm_compute. Qed.

Lemma MemTree_find_spec_witness :
  (∃ t', MemTree_find (DE:=unit) 3 demo_tree_device 14 demo_tree = (Ok (Some (mem_file 14)), t')) ∧
  ∃ t', MemTree_find (DE:=unit) 3 demo_tree_device 15 demo_tree = (Ok None, t').
Proof.
  split.
  - destruct (MemTree_find_spec (DE:=unit) demo_tree_device 4 1 3 demo_tree demo_files 14
      demo_tree_repr ltac:(unfold u64_max; lia) ltac:(lia)) as (t' & -> & _). by exists t'.
  - destruct (MemTree_find_spec (DE:=unit) demo_tree_device 4 1 3 demo_tree demo_files 15
      demo_tree_repr ltac:(unfold u64_max; lia) ltac:(lia)) as (t' & -> & _). by exists t'.
Defined.

Lemma demo_room x : x = 15 ∨ x = 16 → room_above (DE:=unit) demo_tree_device 5 3 x demo_tree.
Proof.
  intros [->| ->] leaf t1 q gs dt lk Hrun Hp _ qpar cs dt' dc lk' Hq; vm_compute in Hrun;
    injection Hrun as <- <-; vm_compute in Hp; injection Hp as <- _ _ _; vm_compute in Hq;
    injection Hq as _ <- _ _ _; cbn; lia.
Qed.

Lemma MemTree_insert_new_spec_witness :
  (∃ t', MemTree_insert_new (DE:=unit) 3 demo_tree_device (mem_file 15) demo_tree = (Ok tt, t')) ∧
  ∃ t', MemTree_insert_new (DE:=unit) 3 demo_tree_device (mem_file 16) demo_tree =
    (Err (FileNodeExists 16), t').
Proof.
  split.
  - destruct (MemTree_insert_new_spec (DE:=unit) demo_tree_device 4 5 1 3 demo_tree demo_files
      (mem_file 15) demo_tree_repr ltac:(cbn; lia) ltac:(lia)
      (demo_room 15 ltac:(by left)) demo_files_sorted
      ltac:(cbn; unfold u64_max; lia) ltac:(lia)) as (t' & n' & _ & Hcase).
    rewrite decide_True in Hcase by exact absent_15.
    destruct Hcase as [Hrun _]. by exists t'.
  - destruct (MemTree_insert_new_spec (DE:=unit) demo_tree_device 4 5 1 3 demo_tree demo_files
      (mem_file 16) demo_tree_repr ltac:(cbn; lia) ltac:(lia)
      (demo_room 16 ltac:(by right)) demo_files_sorted
      ltac:(cbn; unfold u64_max; lia) ltac:(lia)) as (t' & n' & _ & Hcase).
    rewrite decide_False in Hcase; [destruct Hcase as [Hrun _]; by exists t'|].
    intros Hf. rewrite Forall_forall in Hf. apply (Hf (mem_file 16)); [|done].
    unfold demo_files. apply list_elem_of_fmap_2. by_decision.
Defined.

Lemma MemTree_update_spec_witness :
  ∃ t' n', MemTree_update (DE:=unit) 3 demo_tree_device (mem_file 15) demo_tree = (Ok tt, t') ∧
    tree_repr (DE:=unit) demo_tree_device 5 n' t' (file_insert (mem_file 15) demo_files).
Proof.
  destruct (MemTree_update_spec (DE:=unit) demo_tree_device 4 5 1 3 demo_tree demo_files
    (mem_file 15) demo_tree_repr ltac:(cbn; lia) ltac:(lia)
    (demo_room 15 ltac:(by left)) demo_files_sorted
    ltac:(cbn; unfold u64_max; lia) ltac:(lia)) as (t' & n' & Hrun & _ & Hcase).
  rewrite decide_True in Hcase by exact absent_15.
  destruct Hcase as [? ?]. by exists t', n'.
Defined.

Lemma MemTree_delete_spec_witness :
  (∃ t', MemTree_delete (DE:=unit) 3 demo_tree_device 14 demo_tree = (Ok (mem_file 14), t')) ∧
  ∃ t', MemTree_delete (DE:=unit) 3 demo_tree_device 4 demo_tree = (Err (MTE_FileDoesNotExist 4), t').
Proof.
  split.
  - destruct (MemTree_delete_spec (DE:=unit) demo_tree_device 4 1 3 demo_tree demo_files 14
      demo_tree_repr ltac:(unfold u64_max; lia) ltac:(lia)) as (t' & -> & _); [|by exists t'].
    intros leaf t1 q gs dt lk Hrun Hp. right.
    vm_compute in Hrun. injection Hrun as <- <-. vm_compute in Hp. injection Hp as _ <- _ _.
    cbn. lia.
  - destruct (MemTree_delete_spec (DE:=unit) demo_tree_device 4 1 3 demo_tree demo_files 4
      demo_tree_repr ltac:(unfold u64_max; lia) ltac:(lia)) as (t' & -> & _); [|by exists t'].
    intros leaf t1 q gs dt lk Hrun Hp. right.
    vm_compute in Hrun. injection Hrun as <- <-. vm_compute in Hp. injection Hp as _ <- _ _.
    cbn. lia.
Defined.

(** A tree with two leaves in memory *)
Definition loaded_tree : MemTree :=
  mkTree (<[1%positive:=Node None [(mkLink (Some 2%positive) None, Some 5);
                                   (mkLink None (Some 8), None)] true true false]>
         {[ 2%positive := Leave (Some 1%positive) (mem_file <$> [1; 2; 3; 5]) true false ]})
    3%positive (mkLink (Some 1%positive) None) false.

Lemma loaded_tree_repr : tree_repr (DE:=unit) demo_tree_device 4 1 loaded_tree demo_files.
Proof.
  split; [done|]. split; [by repeat constructor|]. exists [1%positive; 2%positive].
  split; [|split; [by_decision|by repeat constructor]].
  cbn [root loaded_tree]. apply node_repr_S.
  eexists _, true, true, [(mem_file <$> [1; 2; 3; 5], [2%positive]);
    (mem_file <$> [10; 12; 14; 16; 18; 20], [])].
  split; [done|]. split; [|split; [done|split; [done|split]]].
  - constructor; [|constructor; [|constructor]].
    + split; [done|]. split; [split; [cbn; lia|cbn; lia]|]. by exists true.
    + split; [done|]. exists 8. split; [done|].
      exists (demo_node <$> [10; 12; 14; 16; 18; 20]). split; [done|]. split; [done|].
      split; cbn; lia.
  - cbn. exists 5. split; [done|]. split; [done|]. split; [by repeat constructor|].
    split; [done|]. by repeat constructor.
  - split; [cbn; lia|done].
Qed.

Lemma MemTree_assert_valid_ok_witness :
  MemTree_assert_valid (E:=unit) 2 loaded_tree = (Ok tt, loaded_tree).
Proof.
  apply (MemTree_assert_valid_ok (DE:=unit) demo_tree_device 4 1 2 loaded_tree demo_files
    loaded_tree_repr demo_files_sorted); [by eexists|lia].
Defined.

(** The right leaf is beyond the end of the device *)
Definition broken_device : MemDevice FsBlock :=
  mkMemDevice 100
    (<[6:=FB_Tree (TN_Node [(7, Some 5); (100, None)])]>
    (<[7:=FB_Tree (TN_Leave (demo_node <$> [1; 2; 3; 5]))]> ∅)) (FB_Raw []).

(** A search in the right leaf fails and leaves the lock of the node above it, the next one
    hangs. With a root that cannot be read every search hangs. *)
Lemma MemTree_find_error_keeps_lock_witness :
  (∃ t', MemTree_find (DE:=unit) 3 broken_device 14 demo_tree = (Err (map_device_error tt), t') ∧
    (MemTree_find (DE:=unit) 3 broken_device 14 t').1 = Hang) ∧
  ∃ t', MemTree_find (DE:=unit) 3 demo_tree_device 5
      (mkTree ∅ 1%positive (mkLink None (Some 100)) false) = (Err (map_device_error tt), t') ∧
    MemTree_find (DE:=unit) 3 demo_tree_device 7 t' = (Hang, t').
Proof.
  assert (∀ l b, heap_wf (mkTree ∅ 1%positive l b)) as Hwf by (intros l b p [n Hn]; done).
  split.
  - eexists. split; [vm_compute; reflexivity|].
    eapply (MemTree_find_error_keeps_lock (DE:=unit) broken_device 3 demo_tree 14);
      [apply Hwf|vm_compute; reflexivity].
  - eexists. split; [vm_compute; reflexivity|].
    edestruct (MemTree_find_error_keeps_lock (DE:=unit) demo_tree_device 3
      (mkTree ∅ 1%positive (mkLink None (Some 100)) false) 5) as [_ Hhang];
      [apply Hwf|vm_compute; reflexivity|].
    apply (Hhang 3%nat 7).
Defined.

(** ** Runs on larger trees *)

(** Insertion of files with the given ids, up to the first error *)
Fixpoint insert_all (ids : list FileId) : M MemTree (MemTreeError unit) unit :=
  match ids with
  | [] => mret tt
  | i :: ids =>
      _ ← MemTree_insert_new (DE:=unit) 10 demo_device (mem_file i);
      insert_all ids
  end.

(** The ids that [find] does not find *)
Definition missing {D} `{BlockDevice D FsBlock unit} (device : D) (t : MemTree)
    (ids : list FileId) : list FileId :=
  List.filter (λ i, match fst (MemTree_find (DE:=unit) 10 device i t) with
                    | Ok (Some _) => false
                    | _ => true
                    end) ids.

Definition ids_up (n : nat) : list FileId := Z.of_nat <$> seq 1 n.
Definition ids_down (n : nat) : list FileId := rev (ids_up n).

(** Inserting the ids 1, 2, ... in order works until an inner node is full. The
    insertion that splits the inner node makes four files unreachable, and as the
    children of the new inner node keep their old parent, a later insertion waits
    for a lock that it holds itself and never returns. *)
Theorem insert_ascending_hangs :
  missing demo_device (snd (insert_all (ids_up 93) MemTree_empty)) (ids_up 93) = [] ∧
  fst (insert_all (ids_up 94) MemTree_empty) = Ok tt ∧
  missing demo_device (snd (insert_all (ids_up 94) MemTree_empty)) (ids_up 94) = [91; 92; 93; 94] ∧
  fst (insert_all (ids_up 96) MemTree_empty) = Hang.
Proof. split_and!; vm_compute; reflexivity. Qed.

(** Inserting the ids 94, 93, ... 1 reports success for all of them, but the
    last insertion splits the inner node without updating the maximum of the leave
    that was split: three files cannot be found any more and the tree does not pass
    its own check. *)
Theorem insert_descending_loses_files :
  missing demo_device (snd (insert_all (ids_down 93) MemTree_empty)) (ids_down 93) = [] ∧
  fst (insert_all (ids_down 94) MemTree_empty) = Ok tt ∧
  missing demo_device (snd (insert_all (ids_down 94) MemTree_empty)) (ids_down 94) = [7; 6; 5] ∧
  fst (MemTree_assert_valid (E:=unit) 10 (snd (insert_all (ids_down 94) MemTree_empty))) = Panic.
Proof. split_and!; vm_compute; reflexivity. Qed.

(** A device with two inner nodes of 20 and 15 leaves, each leave with three files:
    leave [j] holds the ids from [10 * j + 1] to [10 * j + 3]. *)
Definition big_leave (j : Z) : TreeNode :=
  TN_Leave (demo_node <$> [10 * j + 1; 10 * j + 2; 10 * j + 3]).
Definition big_children (first count : nat) : list (LBA * option FileId) :=
  ((λ j, (100 + Z.of_nat j, Some (10 * Z.of_nat j + 3))) <$> seq first (count - 1)) ++
  [(100 + Z.of_nat (first + count - 1), None)].
Definition big_device : MemDevice FsBlock :=
  mkMemDevice 1000
    (foldr (λ j m, <[100 + Z.of_nat j:=FB_Tree (big_leave (Z.of_nat j))]> m)
       (<[1:=FB_Tree (TN_Node [(2, Some 193); (3, None)])]>
       (<[2:=FB_Tree (TN_Node (big_children 0 20))]>
       (<[3:=FB_Tree (TN_Node (big_children 20 15))]> ∅))) (seq 0 35)) (FB_Raw []).
Definition big_ids : list FileId :=
  concat ((λ j, [10 * Z.of_nat j + 1; 10 * Z.of_nat j + 2; 10 * Z.of_nat j + 3]) <$> seq 0 35).

(** The tree after every file was looked up: all its nodes are in memory. *)
Definition big_tree : MemTree :=
  foldr (λ i t, snd (MemTree_find (DE:=unit) 10 big_device i t))
    (mkTree ∅ 1%positive (mkLink None (Some 1)) false) big_ids.

(** [delete] panics on a tree that holds all its files and passes its own check:
    when two leaves are merged, the inner node above is rebalanced although it has
    enough children, and there is no way to rebalance it. *)
Theorem delete_panics_on_valid_tree :
  missing big_device big_tree big_ids = [] ∧
  fst (MemTree_assert_valid (E:=unit) 10 big_tree) = Ok tt ∧
  fst (MemTree_delete (DE:=unit) 10 big_device 11 big_tree) = Panic.
Proof. split_and!; vm_compute; reflexivity. Qed.

(** ** The tests of the source *)

Definition test_file_ids : list FileId :=
  [743; 152; 983; 284; 621; 847; 519; 366; 215; 790; 488; 951; 104; 325; 876; 267; 638;
   710; 499; 392; 827; 603; 140; 981; 236; 745; 812; 564; 952; 688; 427; 205; 999; 341;
   756; 674; 438; 810; 295; 158; 623; 892; 432; 273; 509; 611; 733; 856; 921; 684; 312;
   497; 134; 789; 268; 905; 740; 157; 372; 698; 829; 542; 624; 782; 451; 628; 195; 923;
   304; 574; 831; 269; 911; 156; 784; 393; 530; 629; 678; 851; 415; 27; 949; 673; 528;
   379; 604; 798; 15; 972; 748; 357; 600; 241; 19; 84; 43; 895; 305; 820].

(** [test_insert_100_files] *)
Lemma test_insert_100_files :
  fst (insert_all test_file_ids MemTree_empty) = Ok tt ∧
  missing demo_device (snd (insert_all test_file_ids MemTree_empty)) test_file_ids = [] ∧
  fst (MemTree_assert_valid (E:=unit) 10 (snd (insert_all test_file_ids MemTree_empty))) = Ok tt.
Proof. split_and!; vm_compute; reflexivity. Qed.
