(* ===== verification/FsExamples.v ===== *)
(** * Strings and directories on concrete inputs *)

From S2P Require Import Prelude BlockDevice FsStructs BlockAllocator BlockAllocatorProofs FreeListProofs.
From S2P Require Import FsStrings FsStringsProofs FsDirectoryProofs.
Local Open Scope Z_scope.

(** A string of 5000 bytes, which needs a second block *)
Definition demo_string : list Z := replicate 5000 97.

Lemma string_roundtrip_witness :
  ∃ lba d' a', write_string (DE:=unit) demo_string (demo_device, demo_alloc) = (Ok lba, (d', a')) ∧
    read_string (DE:=unit) d' lba = Ok demo_string.
Proof.
  destruct (write_string (DE:=unit) demo_string (demo_device, demo_alloc))
    as [[lba| | |] [d' a']] eqn:Hw; [|vm_compute in Hw; discriminate..].
  exists lba, d', a'. split; [done|].
  destruct (string_roundtrip (DE:=unit) demo_string demo_device d' demo_alloc a' lba
    demo_alloc_ok ltac:(vm_compute; reflexivity) Hw) as (own & _ & _ & Hread).
  apply Hread. by intros x _.
Defined.

Lemma write_string_head_spec_witness :
  fst (write_string_head (DE:=unit) 100 [102; 195; 188] (demo_device, demo_alloc)) =
    Ok (short_head 100 [102; 195; 188]) ∧
  fst (write_string_head (DE:=unit) 100 (replicate 101 97) (demo_device, demo_alloc)) = Panic.
Proof.
  split.
  - rewrite (proj1 (write_string_head_spec (DE:=unit) 100 [102; 195; 188] demo_device demo_alloc
      ltac:(apply Nat.ltb_lt; vm_compute; reflexivity) ltac:(vm_compute; reflexivity))).
    vm_compute. reflexivity.
  - rewrite (proj1 (write_string_head_spec (DE:=unit) 100 (replicate 101 97) demo_device demo_alloc
      ltac:(apply Nat.ltb_lt; vm_compute; reflexivity) ltac:(vm_compute; reflexivity))).
    vm_compute. reflexivity.
Defined.

Definition demo_directory (n : nat) : Directory :=
  mkDirectory (Some 1) ((λ i, mkDirectoryEntry [97; 98] (Z.of_nat i)) <$> seq 2 n).

Lemma demo_directory_ok n : Forall entry_ok (entries (demo_directory n)).
Proof.
  apply Forall_forall. intros e (i & -> & _)%list_elem_of_fmap. split; [done|]. cbn.
  unfold DIRECTORY_ENTRY_NAME_LENGTH. lia.
Qed.

Lemma directory_roundtrip_witness :
  (∃ lba d' a' fuel, Directory_write (DE:=unit) (demo_directory 60) (demo_device, demo_alloc)
      = (Ok lba, (d', a')) ∧
    Directory_read (DE:=unit) fuel d' lba = Ok (demo_directory 60)) ∧
  ∃ lba d' a' fuel, Directory_write (DE:=unit) (demo_directory 68) (demo_device, demo_alloc)
      = (Ok lba, (d', a')) ∧
    Directory_read (DE:=unit) fuel d' lba =
      Err (MalformedFs (DirectoryEntryCountMismatch 68 67)).
Proof.
  split.
  - destruct (Directory_write (DE:=unit) (demo_directory 60) (demo_device, demo_alloc))
      as [[lba| | |] [d' a']] eqn:Hw; [|vm_compute in Hw; discriminate..].
    destruct (directory_roundtrip (DE:=unit) (demo_directory 60) demo_device d' demo_alloc a' lba
      demo_alloc_ok (demo_directory_ok 60) ltac:(vm_compute; discriminate) Hw)
      as (own & _ & _ & Hread).
    exists lba, d', a', (length own). split; [done|]. rewrite Hread; [|by intros x _|lia].
    vm_compute. reflexivity.
  - destruct (Directory_write (DE:=unit) (demo_directory 68) (demo_device, demo_alloc))
      as [[lba| | |] [d' a']] eqn:Hw; [|vm_compute in Hw; discriminate..].
    destruct (directory_roundtrip (DE:=unit) (demo_directory 68) demo_device d' demo_alloc a' lba
      demo_alloc_ok (demo_directory_ok 68) ltac:(vm_compute; discriminate) Hw)
      as (own & _ & _ & Hread).
    exists lba, d', a', (length own). split; [done|]. rewrite Hread; [|by intros x _|lia].
    vm_compute. reflexivity.
Defined.
