(* ===== verification/FsProofs.v ===== *)
(** * Mounting and closing a file system

    What the main header says after [open] and [close], which mounts exclude each
    other, and that an opened file system is the one that was closed. *)

From S2P Require Import Prelude BlockDevice FsStructs BlockAllocator BlockAllocatorProofs FreeListProofs.
From S2P Require Import IterExt MemStructs FsStrings MemTree Fs.
Local Open Scope Z_scope.

Section proofs.
Context `{TreeCapacity}.
Context {D B DE : Type} `{!BlockDevice D B DE} `{!BlockDeviceLaws D B DE} `{!BlockBytes D B DE}.
Context `{!BlockConstructable B MainHeader} `{!BlockConstructable B TreeNode}.
Context `{!BlockConstructable B FreeBlockGroups} `{!BlockConstructable B FsBlockList}.
Context `{!BlockConstructable B DeviceStringHead} `{!BlockConstructable B BlockStringPart}.
Context `{!BlockConstructable B DirectoryHead} `{!BlockConstructable B DirectoryPart}.

Implicit Types (d : D) (fs : FileSystem D) (h : MainHeader) (t : MainTransientHeader).

(** ** Single steps *)

(** Devices that agree on every block but the main header *)
Definition same_but (l : list LBA) d d' : Prop :=
  size d' = size d ∧ ∀ x, x ∉ l → read_block d' x = read_block d x.

Lemma same_but_refl l d : same_but l d d.
Proof. by split. Qed.

Lemma same_but_trans l d1 d2 d3 : same_but l d1 d2 → same_but l d2 d3 → same_but l d1 d3.
Proof. intros [? H1] [? H2]. split; [congruence|]. intros x Hx. by rewrite H2, H1. Qed.

Lemma same_but_weaken l k d d' : l ⊆ k → same_but l d d' → same_but k d d'.
Proof. intros Hl [? Hs]. split; [done|]. intros x Hx. apply Hs. set_solver. Qed.

Lemma on_device_Ok {A} (m : M D (FsError DE) A) fs a fs' :
  on_device m fs = (Ok a, fs') → ∃ d', m (device fs) = (Ok a, d') ∧ fs' = set_device d' fs.
Proof. unfold on_device. destruct (m (device fs)) as [r d']. intros [= -> <-]. eauto. Qed.

Lemma mapM_err_Ok {S E E' A} (f : E → E') (m : M S E A) s a s' :
  mapM_err f m s = (Ok a, s') → m s = (Ok a, s').
Proof. unfold mapM_err. destruct (m s) as [[?| | |] s1]; cbn; congruence. Qed.

Lemma write_atomic_Ok lba b fs u fs' :
  on_device (mapM_err map_device_error (write_block_atomic lba b)) fs = (Ok u, fs') →
  ∃ d', fs' = set_device d' fs ∧ read_block d' lba = Ok b ∧ same_but [lba] (device fs) d'.
Proof.
  intros (d' & Hw%mapM_err_Ok & ->)%on_device_Ok. destruct u. exists d'. split; [done|].
  pose proof (write_block_atomic_size (device fs) lba b) as Hsize. rewrite Hw in Hsize.
  apply write_block_atomic_read in Hw as [Hr Hs]. split; [done|]. split; [done|].
  intros x Hx. apply Hs. intros ->. apply Hx. by left.
Qed.

(** The header [write_header] writes *)
Definition header_of fs (free_blocks : LBA) : MainHeader :=
  mkMainHeader MainHeader_MAGIC FS_VERSION (hd_uuid (header_data fs))
    (hd_root_ptr (header_data fs)) free_blocks (backup_header_lba fs)
    (hd_name_head (header_data fs))
    (Some (mkMainTransientHeader MainTransientHeader_MAGIC 1
             (bool_decide (access_mode fs = ReadWrite)) (hd_status (header_data fs))))
    (hd_next_file_id (header_data fs)).

Lemma write_header_Ok fs u fs' :
  write_header fs = (Ok u, fs') →
  ∃ p d', hd_free_blocks (header_data fs) = Some p ∧ fs' = set_device d' fs ∧
    read_block d' MAIN_HEADER_BLOCK = Ok (block_data (header_of fs p)) ∧
    (backup_header_lba fs ≠ MAIN_HEADER_BLOCK →
     read_block d' (backup_header_lba fs) = Ok (block_data (as_backup (header_of fs p)))) ∧
    same_but [MAIN_HEADER_BLOCK; backup_header_lba fs] (device fs) d'.
Proof.
  unfold write_header. rewrite run_gets. intros (p & Hp%expect_Ok & Hw)%run_lift_Ok.
  rewrite !run_gets in Hw. apply run_bind_Ok in Hw as (u1 & fs1 & Hbackup & Hmain).
  unfold copy_header_to_backup in Hbackup. rewrite run_gets in Hbackup.
  apply write_atomic_Ok in Hbackup as (d1 & -> & Hr1 & Hs1).
  apply write_atomic_Ok in Hmain as (d2 & -> & Hr2 & Hs2).
  exists p, d2. split; [done|]. split; [by destruct fs|]. split; [done|]. split.
  - intros Hne. destruct Hs2 as [_ Hs2]. rewrite Hs2; [done|]. by intros ?%list_elem_of_singleton.
  - eapply same_but_trans; eapply same_but_weaken; [|exact Hs1| |exact Hs2]; set_solver.
Qed.

(** ** [close] *)

Lemma close_loop_Ok retries cur b fs d' fs' :
  read_block (device fs) MAIN_HEADER_BLOCK = Ok cur →
  close_loop (DE:=DE) retries cur b fs = (Ok d', fs') →
  fs' = set_device d' fs ∧ read_block d' MAIN_HEADER_BLOCK = Ok b ∧
  same_but [MAIN_HEADER_BLOCK] (device fs) d'.
Proof.
  revert cur fs. induction retries as [|retries IH]; intros cur fs Hcur; cbn [close_loop]; [done|].
  intros (exch & fs1 & (d1 & Hx%mapM_err_Ok & ->)%on_device_Ok & Hk)%run_bind_Ok.
  rewrite run_gets in Hk. cbn [device set_device] in Hk.
  pose proof (compare_exchange_size (device fs) MAIN_HEADER_BLOCK cur b) as Hsize.
  rewrite Hx in Hsize. cbn in Hsize. destruct exch.
  - injection Hk as <- <-. apply compare_exchange_true in Hx as (_ & Hr & Hs).
    split; [done|]. split; [done|]. split; [done|]. intros x Hne. apply Hs. intros ->.
    apply Hne. by left.
  - pose proof (compare_exchange_false _ _ _ _ _ Hx) as Hs.
    apply run_lift_Ok in Hk as (cur' & Hcur' & Hk).
    assert (read_block d1 MAIN_HEADER_BLOCK = Ok cur') as Hr1.
    { destruct (read_block d1 MAIN_HEADER_BLOCK); cbn in Hcur'; congruence. }
    apply IH in Hk as (-> & Hr & Hsame); [|done]. split; [by destruct fs|]. split; [done|].
    eapply same_but_trans; [|exact Hsame]. by split.
Qed.

(** The header [close] leaves: nobody has it mounted. *)
Definition closed_header h : MainHeader :=
  match mh_transient h with
  | Some t => set_transient (set_mount 0 false t) h
  | None => h
  end.

Lemma closed_transient_header_of fs p t' :
  closed_transient (DE:=DE) (access_mode fs)
    (mkMainTransientHeader MainTransientHeader_MAGIC 1
       (bool_decide (access_mode fs = ReadWrite)) (hd_status (header_data fs))) = Ok t' →
  set_transient t' (header_of fs p) = closed_header (header_of fs p).
Proof. unfold closed_transient. destruct (access_mode fs); cbn; by intros [= <-]. Qed.

Lemma close_Ok fuel hash_order fs d' fs' :
  close (DE:=DE) fuel hash_order fs = (Ok d', fs') →
  ∃ fs1 p, (_ ← flush_data fuel hash_order; flush_allocator) fs = (Ok tt, fs1) ∧
    hd_free_blocks (header_data fs1) = Some p ∧ fs' = set_device d' fs1 ∧
    read_block d' MAIN_HEADER_BLOCK = Ok (block_data (closed_header (header_of fs1 p))) ∧
    (backup_header_lba fs1 ≠ MAIN_HEADER_BLOCK →
     read_block d' (backup_header_lba fs1) =
       Ok (block_data (as_backup (closed_header (header_of fs1 p))))) ∧
    same_but [MAIN_HEADER_BLOCK; backup_header_lba fs1] (device fs1) d'.
Proof.
  unfold close, flush. intros (u & fs2 & Hflush & Hk)%run_bind_Ok.
  apply run_bind_Ok in Hflush as (u1 & fs0 & H0 & Hflush).
  apply run_bind_Ok in Hflush as (u2 & fs1 & H1 & Hw). destruct u1, u2.
  exists fs1. apply write_header_Ok in Hw as (p & d2 & Hp & -> & Hmain & Hbackup & Hsame).
  exists p. split; [rewrite run_bind, H0; exact H1|]. split; [done|].
  rewrite run_gets in Hk. cbn [device set_device] in Hk. unfold FileSystem_header in Hk.
  rewrite Hmain in Hk. cbn [map_err] in Hk. rewrite run_lift with (a := block_data (header_of fs1 p)) in Hk by done.
  rewrite from_block_data in Hk. apply run_lift_Ok in Hk as (t & Ht & Hk).
  cbn in Ht. injection Ht as <-.
  rewrite run_gets in Hk. apply run_lift_Ok in Hk as (t' & Ht' & Hk).
  cbn [access_mode set_device] in Ht'. apply (closed_transient_header_of fs1 p) in Ht'.
  rewrite Ht' in Hk. apply close_loop_Ok in Hk as (-> & Hr & Hs); [|done].
  cbn [device set_device] in Hs. split; [by destruct fs1|]. split; [done|]. split.
  - intros Hne. destruct Hs as [_ Hs]. rewrite Hs by (by intros ?%list_elem_of_singleton).
    by apply Hbackup.
  - eapply same_but_trans; [exact Hsame|]. eapply same_but_weaken; [|exact Hs]. set_solver.
Qed.

Lemma matches_backup_ok {E} h t b :
  mh_transient h = Some t → mh_backup_header h ≠ MAIN_HEADER_BLOCK →
  MainHeader_matches_backup (E:=E) h b = Ok (bool_decide (as_backup h = b)).
Proof.
  intros Ht Hne. unfold MainHeader_matches_backup. rewrite Ht. cbn.
  by rewrite (proj2 (Z.eqb_neq _ _)).
Qed.

Lemma matches_backup_inv {E} h b :
  MainHeader_matches_backup (E:=E) h b = Ok true →
  mh_backup_header h ≠ MAIN_HEADER_BLOCK ∧ as_backup h = b.
Proof.
  unfold MainHeader_matches_backup. intros Hm. inv_ok Hm. injection Hm as Hm.
  apply bool_decide_eq_true in Hm. split; [|done]. by apply Z.eqb_neq, negb_true_iff.
Qed.

(** Whoever closes a file system, with whatever access, leaves a main header
    that says that nobody has it mounted: mount count 0, not open for writing.
    Other mounts of the same device are not counted. The backup header matches
    the main header. *)
Theorem close_spec (fuel : nat) (hash_order : list (FileId * Directory) → list (FileId * Directory))
    (fs : FileSystem D) (d' : D) (fs' : FileSystem D) :
  close (DE:=DE) fuel hash_order fs = (Ok d', fs') →
  ∃ h t, read_block d' MAIN_HEADER_BLOCK = Ok (block_data h) ∧
    mh_transient h = Some t ∧ mount_count t = 0 ∧ open_in_write_mode t = false ∧
    (mh_backup_header h ≠ MAIN_HEADER_BLOCK →
     read_block d' (mh_backup_header h) = Ok (block_data (as_backup h)) ∧
     MainHeader_matches_backup (E:=DE) h (as_backup h) = Ok true).
Proof.
  intros (fs1 & p & _ & _ & _ & Hmain & Hbackup & _)%close_Ok.
  eexists _, _. split; [exact Hmain|]. split; [done|]. do 2 (split; [done|]).
  intros Hne. split; [by apply Hbackup|].
  erewrite matches_backup_ok by done. by rewrite bool_decide_true.
Qed.

(** ** [open] *)

Lemma with_new_fs_Ok (device_access : D → result (FsError DE) (FileSystem D)) body d fs d' :
  with_new_fs device_access body d = (Ok fs, d') →
  ∃ fs0 fs1, device_access d = Ok fs0 ∧ body fs0 = (Ok tt, fs1) ∧
    fs = FileSystem_created fs1 ∧ d' = device fs1.
Proof.
  unfold with_new_fs. destruct (device_access d) as [fs0| | |]; [|done..].
  destruct (body fs0) as [[[]| | |] fs1] eqn:Hb; cbn; [|done..]. intros [= <- <-]. by exists fs0, fs1.
Qed.

(** [create_fs_device_access] only looks at the size. *)
Lemma create_access_fields d access tr fs :
  create_fs_device_access (DE:=DE) d access tr = Ok fs →
  device fs = d ∧ mem_tree fs = tr ∧ access_mode fs = access.
Proof.
  unfold create_fs_device_access. destruct (_ <? _); [done|]. intros Hc. inv_ok Hc.
  by injection Hc as <-.
Qed.

Lemma create_access_same d d' access access' tr fs :
  size d' = size d → create_fs_device_access (DE:=DE) d access tr = Ok fs →
  create_fs_device_access (DE:=DE) d' access' tr = Ok (set_access access' (set_device d' fs)).
Proof.
  unfold create_fs_device_access. intros ->. destruct (_ <? _); [done|]. intros Hc.
  repeat match type of Hc with
         | (?m ≫= _) = _ => destruct m; cbn [mbind result_bind] in Hc |- *; [|done..]
         end.
  by injection Hc as <-.
Qed.

Lemma load_header_inv d l :
  load_header (DE:=DE) d = Ok l →
  let h := from_block (lh_block l) in
  read_block d MAIN_HEADER_BLOCK = Ok (lh_block l) ∧
  check_header (DE:=DE) h = Ok (lh_transient l) ∧
  LBA_sub_u64 (E:=FsError DE) (mh_backup_header h) 1 = Ok (lh_max_usable_lba l) ∧
  add_u64 (E:=FsError DE) (mh_backup_header h) 1 = Ok (lh_max_block_count l) ∧
  (size d <? lh_max_block_count l) = false ∧
  (∃ backup, read_block d (mh_backup_header h) = Ok backup ∧
     MainHeader_matches_backup (E:=FsError DE) h (from_block backup) = Ok true) ∧
  read_name d (mh_name h) = Ok (lh_name l).
Proof.
  unfold load_header, FileSystem_header, read_pointer.
  destruct (read_block d MAIN_HEADER_BLOCK) as [b| | |]; [|done..]. cbn [map_err mbind result_bind].
  destruct (check_header (from_block b)) as [t| | |] eqn:Ht; [|done..]. cbn [mbind result_bind].
  destruct (LBA_sub_u64 _ _) as [mu| | |] eqn:Hmu; [|done..]. cbn [mbind result_bind].
  destruct (add_u64 _ _) as [mb| | |] eqn:Hmb; [|done..]. cbn [mbind result_bind].
  destruct (size d <? mb) eqn:Hsize; [done|].
  destruct (read_block d (mh_backup_header _)) as [bb| | |] eqn:Hbb; [|done..].
  cbn [map_err mbind result_bind mret result_ret].
  destruct (MainHeader_matches_backup _ _) as [[]| | |] eqn:Hm; [|done..]. cbn [mbind result_bind].
  destruct (read_name d _) as [name| | |] eqn:Hname; [|done..]. cbn. intros [= <-]. cbn.
  by split_and!; eauto.
Qed.

Lemma set_transient_as_backup t h : as_backup (set_transient t h) = as_backup h.
Proof. done. Qed.

Lemma check_header_transient h t nt :
  check_header (DE:=DE) h = Ok t → th_status nt = Ready →
  check_header (DE:=DE) (set_transient nt h) = Ok nt.
Proof.
  unfold check_header. intros Hc Hs. cbn [mh_magic mh_version mh_transient set_transient].
  case_bool_decide; [done|]. case_bool_decide; [done|].
  cbn [ok_or mbind result_bind]. rewrite Hs. by rewrite bool_decide_false by (intros []; done).
Qed.

Lemma check_header_status h t : check_header (DE:=DE) h = Ok t → th_status t = Ready.
Proof.
  unfold check_header. case_bool_decide; [done|]. case_bool_decide; [done|].
  destruct (mh_transient h) as [t0|]; [|done]. cbn [ok_or mbind result_bind].
  case_bool_decide as Hs; [done|]. intros [= <-]. destruct (th_status t0); [|done].
  by destruct Hs.
Qed.

(** After the transient header was replaced the same checks succeed. *)
Lemma load_header_again d d' l nt :
  load_header (DE:=DE) d = Ok l → same_but [MAIN_HEADER_BLOCK] d d' →
  let h' := set_transient nt (from_block (lh_block l)) in
  read_block d' MAIN_HEADER_BLOCK = Ok (block_data h') → th_status nt = Ready →
  load_header (DE:=DE) d' =
    (name ← read_name d' (mh_name h');
     mret (mkLoaded (block_data h') nt (lh_max_usable_lba l) (lh_max_block_count l) name)).
Proof.
  intros (Hr & Hc & Hmu & Hmb & Hsz & (backup & Hbr & Hm) & Hname)%load_header_inv [Hsize Hsame].
  intros h' Hr' Hs. subst h'. set (h := from_block (lh_block l)) in *.
  apply matches_backup_inv in Hm as [Hne Hm].
  unfold load_header, FileSystem_header, read_pointer. rewrite Hr'.
  cbn [map_err mbind result_bind]. rewrite from_block_data.
  rewrite (check_header_transient h _ nt Hc Hs). cbn [mbind result_bind].
  cbn [mh_backup_header set_transient]. rewrite Hmu. cbn [mbind result_bind]. rewrite Hmb.
  cbn [mbind result_bind]. rewrite Hsize, Hsz.
  rewrite Hsame by (by intros ?%list_elem_of_singleton). rewrite Hbr.
  cbn [map_err mbind result_bind mret result_ret].
  by rewrite (matches_backup_ok _ nt), bool_decide_true.
Qed.

Lemma mounted_transient_status access force t t' :
  mounted_transient (DE:=DE) access force t = Ok t' → th_status t' = th_status t.
Proof.
  unfold mounted_transient. destruct force; [by intros [= <-]|].
  destruct access; (destruct (_ : bool); [done|]); unfold add_u8; destruct (_ <=? _); cbn; try done;
    by intros [= <-].
Qed.

(** What a successful [open] did *)
Lemma open_Ok fuel access force d fs d' :
  open_internal (DE:=DE) fuel access force d = (Ok fs, d') →
  ∃ l t a fs0, load_header (DE:=DE) d = Ok l ∧
    mounted_transient (DE:=DE) access force (lh_transient l) = Ok t ∧
    create_fs_device_access (DE:=DE) d access MemTree_invalid = Ok fs0 ∧
    read_block d' MAIN_HEADER_BLOCK = Ok (block_data (set_transient t (from_block (lh_block l)))) ∧
    same_but [MAIN_HEADER_BLOCK] d d' ∧
    BlockAllocator_load (DE:=DE) fuel d' (mh_free_blocks (from_block (lh_block l))) = Ok a ∧
    block_allocator fs = a ∧
    header_data fs = opened_header_data (from_block (lh_block l)) (lh_name l) (lh_transient l).
Proof.
  unfold open_internal. intros (fs0 & fs1 & Hnew & Hbody & -> & ->)%with_new_fs_Ok.
  pose proof (create_access_fields _ _ _ _ Hnew) as (Hd & Ht & _).
  unfold open_body in Hbody. rewrite run_gets, Hd in Hbody.
  apply run_lift_Ok in Hbody as (l & Hl & Hbody). rewrite run_modify in Hbody.
  unfold modify_header in Hbody. rewrite run_modify in Hbody.
  apply run_lift_Ok in Hbody as (t & Hmt & Hbody).
  apply run_bind_Ok in Hbody as (exch & fs2 & (d1 & Hx%mapM_err_Ok & ->)%on_device_Ok & Hbody).
  apply run_lift_Ok in Hbody as (u & Hexch & Hbody). destruct exch; [|done].
  rewrite run_gets in Hbody. apply run_lift_Ok in Hbody as (a & Ha & Hbody).
  rewrite run_modify in Hbody. cbn [device set_device set_header_data set_limits] in *.
  pose proof (compare_exchange_size (device fs0) MAIN_HEADER_BLOCK (lh_block l)
    (block_data (set_transient t (from_block (lh_block l))))) as Hsize.
  rewrite Hx in Hsize. rewrite Hd in *. apply compare_exchange_true in Hx as (_ & Hr & Hs).
  exists l, t, a, fs0. split; [done|]. split; [done|]. split; [done|].
  unfold on_tree in Hbody.
  destruct (MemTree_set_root_device_ptr _ _) as [r tr]. injection Hbody as -> <-. cbn.
  split; [done|]. split.
  { split; [done|]. intros x Hx. apply Hs. intros ->. apply Hx. by left. }
  split; [|done]. by destruct (BlockAllocator_load fuel d1 _); cbn in Ha; simplify_eq.
Qed.

Lemma mounted_excludes access access2 t t' :
  access = ReadWrite ∨ access2 = ReadWrite → 0 ≤ mount_count t →
  mounted_transient (DE:=DE) access false t = Ok t' →
  mounted_transient (DE:=DE) access2 false t' = Err AlreadyMounted.
Proof.
  intros Hrw Ht. unfold mounted_transient.
  destruct access; (destruct (_ : bool) eqn:Hb; [done|]); unfold add_u8;
    destruct (_ <=? _); cbn; try done; intros [= <-]; cbn.
  - destruct access2; [by destruct Hrw|].
    destruct (Z.eqb_spec (mount_count t + 1) 0); [lia|done].
  - destruct access2; [done|]. destruct (Z.eqb_spec (mount_count t + 1) 0); [lia|done].
Qed.

(** C12: a mount for writing excludes every other mount, a mount for reading
    excludes mounts for writing. After a successful [open] no second [open]
    succeeds while one of the two is for writing; the second call does not write
    to the device, and it returns [AlreadyMounted] when the file system has no
    name that would have to be read first. *)
Theorem open_excludes (fuel fuel2 : nat) (access access2 : AccessMode) (d : D)
    (fs : FileSystem D) (d' : D) :
  access = ReadWrite ∨ access2 = ReadWrite →
  open_internal (DE:=DE) fuel access false d = (Ok fs, d') →
  0 ≤ hd_mount_count (header_data fs) →
  snd (open_internal (DE:=DE) fuel2 access2 false d') = d' ∧
  (∀ fs2, fst (open_internal (DE:=DE) fuel2 access2 false d') ≠ Ok fs2) ∧
  (hd_name_head (header_data fs) = None →
   fst (open_internal (DE:=DE) fuel2 access2 false d') = Err AlreadyMounted).
Proof.
  intros Hrw (l & t & a & fs0 & Hl & Ht & Hnew & Hr & Hsame & _ & _ & Hhd)%open_Ok Hcount.
  rewrite Hhd in Hcount |- *. cbn [hd_mount_count hd_name_head opened_header_data] in *.
  pose proof (create_access_same _ d' _ access2 _ _ (proj1 Hsame) Hnew) as Hnew2.
  pose proof (mounted_excludes _ _ _ _ Hrw Hcount Ht) as Hexcl.
  apply mounted_transient_status in Ht.
  assert (th_status t = Ready) as Hready.
  { rewrite Ht. pose proof (load_header_inv _ _ Hl) as (_ & Hc & _).
    by apply check_header_status in Hc. }
  pose proof (load_header_again _ _ _ t Hl Hsame Hr Hready) as Hl2.
  enough (∃ e, open_internal (DE:=DE) fuel2 access2 false d' = (e, d') ∧ (∀ fs2, e ≠ Ok fs2) ∧
    (mh_name (from_block (lh_block l)) = None → e = Err AlreadyMounted)) as (e & -> & ?) by done.
  unfold open_internal, with_new_fs. rewrite Hnew2. unfold open_body. rewrite run_gets.
  cbn [device set_access set_device]. rewrite run_bind. unfold lift at 1. rewrite Hl2.
  cbn [mh_name set_transient].
  destruct (read_name d' (mh_name (from_block (lh_block l)))) as [name| | |] eqn:Hname;
    cbn [mbind result_bind mret result_ret lh_block lh_transient].
  2-4: eexists; split; [reflexivity|]; split; [done|]; intros Hn; by rewrite Hn in Hname.
  rewrite run_modify. unfold modify_header. rewrite run_modify, run_bind. unfold lift at 1.
  rewrite Hexcl. eexists. split; [reflexivity|]. by split.
Qed.

(** ** Opening what was closed *)

Lemma create_access_ok d access tr :
  MIN_BLOCK_COUNT ≤ size d ≤ u64_max →
  ∃ fs, create_fs_device_access (DE:=DE) d access tr = Ok fs.
Proof.
  unfold MIN_BLOCK_COUNT, u64_max. intros Hs. unfold create_fs_device_access, MIN_BLOCK_COUNT.
  rewrite (proj2 (Z.ltb_ge _ _)) by lia. rewrite !sub_u64_ok by lia. cbn [mbind result_bind].
  unfold LBA_new, u64_max. rewrite !(proj2 (Z.eqb_neq _ _)) by lia.
  cbn [expect mbind result_bind FileId_next FileId_ROOT].
  unfold BlockAllocator_empty. rewrite NonZero_ok by lia. cbn [mbind result_bind].
  set (a0 := mkBlockAllocator _ _ _ _).
  destruct (mark_used_all_ok (E:=FsError DE) INITALLY_USED_BLOCKS a0) as (l & -> & _).
  - apply initial_groups_ok. unfold u64_max. lia.
  - apply NoDup_singleton.
  - constructor; [|constructor]. unfold is_free. cbn. autorewrite with blocks. left.
    unfold in_group, MAIN_HEADER_BLOCK; cbn. lia.
  - by eexists.
Qed.

Lemma write_chunks_size cs : ∀ ls d, size (write_chunks (DE:=DE) cs ls d).2 = size d.
Proof.
  induction cs as [|c cs IH]; intros ls d; cbn [write_chunks]; [done|].
  destruct ls as [|lba ls]; [done|]. rewrite run_bind. unfold mapM_err.
  pose proof (write_block_size d lba (block_data (mkFreeBlockGroups c (head ls)))) as Hs.
  destruct (write_block lba _ d) as [[?| | |] d1]; cbn in *; [|done..]. rewrite IH. done.
Qed.

Lemma allocator_write_size a d r d' :
  BlockAllocator_write (DE:=DE) a d = (r, d') → size d' = size d.
Proof.
  unfold BlockAllocator_write. destruct (write_prepare a) as [[gs| | |] new];
    [|by intros [= _ <-]..]. rewrite run_bind. cbn [lift].
  destruct (BlockGroupList_blocks gs) as [bs| | |]; rewrite run_bind; cbn [lift];
    [|by intros [= _ <-]..].
  destruct (expect (head bs)) as [b| | |]; rewrite run_bind; cbn [lift]; [|by intros [= _ <-]..].
  set (cs := chunks BLOCK_RANGES_COUNT_PER_BLOCK (free new)).
  pose proof (write_chunks_size cs bs d) as Hs. rewrite run_bind.
  destruct (write_chunks (DE:=DE) cs bs d) as [[rest| | |] d1]; [|by intros [= _ <-]..].
  rewrite run_bind, write_spare_chunks, run_bind. set (spare := replicate (length rest) []).
  pose proof (write_chunks_size spare rest d1) as Hs1.
  destruct (write_chunks (DE:=DE) spare rest d1) as [[?| | |] d2]; cbn in *; intros [= _ <-]; congruence.
Qed.

(** A writable file system as it is after its data was flushed: the allocator has
    changed, and neither header block is free or part of the old free list. The
    name, if there is one, can be read as long as the blocks that the allocator
    may not give away keep their contents. *)
Definition reserved fs (x : LBA) : Prop := x = MAIN_HEADER_BLOCK ∨ x = backup_header_lba fs.
Definition given_away fs (x : LBA) : Prop :=
  is_free (block_allocator fs) x ∨ x ∈ self_on_disk (block_allocator fs).

Record flushed fs : Prop := {
  fl_mode : access_mode fs = ReadWrite;
  fl_groups : groups_ok (free (block_allocator fs));
  fl_own : Forall (λ x, 0 ≤ x < u64_max - 1) (self_on_disk (block_allocator fs));
  fl_dirty : dirty (block_allocator fs) = true;
  fl_status : hd_status (header_data fs) = Ready;
  fl_backup : 1 ≤ backup_header_lba fs < size (device fs);
  fl_size : MIN_BLOCK_COUNT ≤ size (device fs) ≤ u64_max;
  fl_reserved x : reserved fs x → ¬ given_away fs x;
  fl_name d2 : (∀ x, ¬ reserved fs x → ¬ given_away fs x →
                read_block d2 x = read_block (device fs) x) →
    read_name d2 (hd_name_head (header_data fs)) = Ok (hd_name (header_data fs));
}.

Lemma flush_allocator_dirty fs fs' :
  access_mode fs = ReadWrite → dirty (block_allocator fs) = true →
  flush_allocator (DE:=DE) fs = (Ok tt, fs') →
  ∃ ptr a d, BlockAllocator_write (DE:=DE) (block_allocator fs) (device fs) = (Ok (ptr, a), d) ∧
    fs' = set_header_data (hd_set_free_blocks ptr (header_data fs))
            (set_allocator a (set_device d fs)).
Proof.
  intros Hmode Hdirty. unfold flush_allocator, BlockAllocator_is_dirty. rewrite !run_gets, Hdirty.
  cbn [orb]. unfold assume_writable. intros Hf. rewrite run_bind, run_gets, Hmode in Hf.
  cbn in Hf. apply run_bind_Ok in Hf as (ptr & fs1 & Hw & Hm).
  unfold write_allocator in Hw. rewrite run_gets in Hw.
  apply run_bind_Ok in Hw as ([ptr' a] & fs2 & (d & Hd & ->)%on_device_Ok & Hw).
  rewrite run_modify in Hw. cbn in Hw. injection Hw as <- <-. exists ptr', a, d.
  split; [done|]. injection Hm as <-. by destruct fs.
Qed.

(** C11: opening what was closed. When a file system open for writing is closed
    successfully, and its data was flushed as described, then the device can be
    opened again, for reading or writing, provided it accepts the exchange of
    the header block. The opened file system has the free blocks, the name, the
    uuid, the next file id and the root of the tree that the closed one had. *)
Theorem close_open_roundtrip (fuel : nat)
    (hash_order : list (FileId * Directory) → list (FileId * Directory))
    (fs fs1 : FileSystem D) (d' : D) (fs' : FileSystem D) (access : AccessMode) :
  flush_data (DE:=DE) fuel hash_order fs = (Ok tt, fs1) → flushed fs1 →
  close (DE:=DE) fuel hash_order fs = (Ok d', fs') →
  (∀ b b', read_block d' MAIN_HEADER_BLOCK = Ok b →
     ∃ d2, compare_exchange_block (D:=D) (DE:=DE) MAIN_HEADER_BLOCK b b' d' = (Ok true, d2)) →
  ∃ n, ∀ fuel2, (n ≤ fuel2)%nat →
  ∃ fs2 d2, open_internal (DE:=DE) fuel2 access false d' = (Ok fs2, d2) ∧
    free (block_allocator fs2) = free (block_allocator fs') ∧
    hd_name (header_data fs2) = hd_name (header_data fs1) ∧
    hd_uuid (header_data fs2) = hd_uuid (header_data fs1) ∧
    hd_next_file_id (header_data fs2) = hd_next_file_id (header_data fs1) ∧
    hd_free_blocks (header_data fs2) = hd_free_blocks (header_data fs') ∧
    root (mem_tree fs2) = mkLink None (Some (hd_root_ptr (header_data fs1))).
Proof.
  intros Hdata Hfl Hclose Hex. destruct Hfl.
  apply close_Ok in Hclose as (fs3 & p & Hflush & Hp & -> & Hmain & Hbackup & Hsame).
  rewrite run_bind, Hdata in Hflush.
  apply flush_allocator_dirty in Hflush as (ptr & a & d1 & Hw & ->); [|done..].
  pose proof (allocator_write_size _ _ _ _ Hw) as Hsz1.
  apply write_load in Hw as (_ & _ & _ & g & -> & Hg & Hin & Hout & Hload); [|done..].
  cbn [hd_free_blocks header_data set_header_data hd_set_free_blocks] in Hp. injection Hp as <-.
  cbn [device set_header_data set_allocator set_device backup_header_lba] in *.
  set (fs3 := set_header_data _ _) in *. set (h := closed_header (header_of fs3 _)) in *.
  exists (length (group_blocks g)). intros fuel2 Hfuel.
  destruct Hsame as [Hsz Hsame]. rewrite Hsz1 in Hsz.
  assert (∀ x, ¬ reserved fs1 x → read_block d' x = read_block d1 x) as Hd'.
  { intros x Hx. apply Hsame. unfold reserved in Hx. set_solver. }
  assert (∀ x, ¬ reserved fs1 x → ¬ given_away fs1 x → read_block d' x = read_block (device fs1) x)
    as Hkeep.
  { intros x Hx Hg'. rewrite Hd' by done. apply Hout. by intros [? _]%Hin. }
  assert (∀ x, in_group x g → read_block d' x = read_block d1 x) as Hlist.
  { intros x [Hx _]%Hin. apply Hd'. intros Hr. by apply (fl_reserved0 x Hr). }
  destruct (create_access_ok d' access MemTree_invalid) as [fs0 Hnew]; [by rewrite Hsz|].
  pose proof (create_access_fields _ _ _ _ Hnew) as (Hd0 & Ht0 & _).
  set (t := mkMainTransientHeader MainTransientHeader_MAGIC 0 false Ready).
  assert (mh_transient h = Some t) as Hht.
  { unfold h, t, fs3. cbn. by rewrite fl_status0. }
  assert (check_header (DE:=DE) h = Ok t) as Hcheck.
  { unfold check_header. rewrite Hht. by rewrite !bool_decide_false by (intros []; done). }
  assert (load_header (DE:=DE) d' = Ok (mkLoaded (block_data h) t (backup_header_lba fs1 - 1)
    (backup_header_lba fs1 + 1) (hd_name (header_data fs1)))) as Hl.
  { unfold load_header, FileSystem_header, read_pointer. rewrite Hmain. cbn [map_err mbind result_bind].
    rewrite from_block_data, Hcheck. cbn [mbind result_bind].
    change (mh_backup_header h) with (backup_header_lba fs1).
    unfold LBA_sub_u64, LBA_new_unchecked. rewrite sub_u64_ok by lia. cbn [mbind result_bind].
    rewrite (proj2 (Z.eqb_neq _ _)) by lia. cbn [assert_ negb mbind result_bind mret result_ret].
    rewrite add_u64_ok by lia. cbn [mbind result_bind].
    rewrite (proj2 (Z.ltb_ge _ _)) by lia. unfold MAIN_HEADER_BLOCK in Hbackup.
    rewrite Hbackup by lia. cbn [map_err mbind result_bind mret result_ret].
    rewrite from_block_data, (matches_backup_ok _ t);
      [|done|cbn; unfold MAIN_HEADER_BLOCK; lia].
    rewrite bool_decide_true by done. cbn [mbind result_bind]. by rewrite fl_name0. }
  destruct (mounted_transient (DE:=DE) access false t) as [nt| | |] eqn:Hnt; [|by destruct access..].
  destruct (Hex (block_data h) (block_data (set_transient nt h)) Hmain) as [d2 Hx].
  pose proof (compare_exchange_true _ _ _ _ _ Hx) as (_ & _ & Hs2).
  assert (BlockAllocator_load (DE:=DE) fuel2 d2 (bg_start g) =
    Ok (mkBlockAllocator (free a) (Some (bg_start g)) (group_blocks g) false)) as Ha.
  { apply Hload; [done|]. intros x Hx'. rewrite Hs2; [by apply Hlist|]. intros ->.
    apply (fl_reserved0 MAIN_HEADER_BLOCK); [by left|]. by apply Hin. }
  unfold open_internal, with_new_fs. rewrite Hnew. unfold open_body. rewrite run_gets, Hd0.
  rewrite (run_lift _ _ _ _ Hl), run_modify. unfold modify_header. rewrite run_modify.
  cbn [lh_transient lh_block]. rewrite (run_lift _ _ _ _ Hnt), run_bind. unfold on_device at 1.
  unfold mapM_err at 1. cbn [device set_header_data set_limits]. rewrite Hd0, from_block_data, Hx.
  cbn [map_err]. rewrite (run_lift _ _ tt) by done. rewrite run_gets. cbn [device set_device].
  change (mh_free_blocks h) with (bg_start g). rewrite Ha. cbn [map_err].
  rewrite (run_lift _ _ _ _ eq_refl), run_modify. unfold on_tree.
  cbn [mem_tree set_allocator set_device set_header_data set_limits]. rewrite Ht0.
  cbn. eexists _, _. split; [reflexivity|]. by split_and!.
Qed.
End proofs.
