(* ===== verification/FsWriteProofs.v ===== *)
(** * Writing the data of a file

    Which accesses to the device [write_blocks_partial] makes, and the offsets for
    which it panics. *)

From S2P Require Import Prelude BlockDevice FsStructs BlockAllocator IterExt MemStructs MemStructsProofs.
From S2P Require Import FsStrings MemTree Fs.
Local Open Scope Z_scope.

Section proofs.
Context {D B DE : Type} `{!BlockDevice D B DE} `{!BlockBytes D B DE}.
Implicit Types (fs : FileSystem D).

(** Additions and sums end with a value or a panic, never with an error. *)
Lemma add_u64_cases {E} a b : (∃ c, add_u64 (E:=E) a b = Ok c) ∨ add_u64 (E:=E) a b = Panic.
Proof. unfold add_u64. destruct (_ <=? _); eauto. Qed.

Lemma block_count_cases {E} l : ∀ acc,
  (∃ n, block_count_from (E:=E) acc l = Ok n) ∨ block_count_from (E:=E) acc l = Panic.
Proof.
  induction l as [|g l IH]; intros acc; cbn; [eauto|].
  destruct (add_u64_cases (E:=E) acc (BlockGroup_count g)) as [[c ->]| ->]; cbn; eauto.
Qed.

Lemma run_lift_Panic {A} {r : result (FsError DE) A} {C} (k : A → M (FileSystem D) (FsError DE) C) fs :
  (∃ a, r = Ok a) ∨ r = Panic → (∀ a, r = Ok a → k a fs = (Panic, fs)) →
  (lift r ≫= k) fs = (Panic, fs).
Proof. rewrite run_bind. intros [[a ->]| ->] Hk; [|done]. by apply Hk. Qed.

(** A write that starts further into the file than it is long panics before
    anything is written, because the data is cut at the offset of the file. *)
Theorem write_blocks_partial_panics (block_list : BlockList) (offset : Z) (data : list Z)
    (fs : FileSystem D) :
  Z.of_nat (length data) < offset →
  write_blocks_partial (DE:=DE) block_list offset data fs = (Panic, fs).
Proof.
  intros Hlen. unfold write_blocks_partial.
  apply run_lift_Panic; [apply add_u64_cases|]. intros e _.
  apply run_lift_Panic; [apply block_count_cases|]. intros n _.
  apply run_lift_Panic; [destruct (_ >=? _); cbn; eauto|]. intros u _.
  unfold sub_u64. by rewrite (proj2 (Z.leb_gt _ _)).
Qed.

Lemma remove_end_1 {E} start n :
  0 ≤ start → 1 ≤ n → start + n < u64_max →
  BlockGroup_remove_end (E:=E) (mkBlockGroup start n) 1 =
    Ok (if decide (n = 1) then None else Some (mkBlockGroup start (n - 1))).
Proof.
  intros ???. unfold BlockGroup_remove_end, BlockGroup_count. cbn [bg_count bg_start].
  rewrite Z.gtb_ltb. destruct (Z.ltb_spec 1 n), (decide (n = 1)); try lia; [|done].
  rewrite BlockGroup_end_ok by (unfold group_ok; cbn; lia). cbn [bg_start bg_count mbind result_bind].
  rewrite LBA_sub_u64_ok by lia. cbn [mbind result_bind].
  rewrite BlockGroup_new_ok by lia. cbn. do 3 f_equal. lia.
Qed.

Lemma positions_single {A} (x : A) : positions [x] = [mkPositionInfo 0 true true x].
Proof. done. Qed.

(** The only piece of a write from the start of a file with one group of blocks *)
Lemma single_group_pieces {E} g n :
  group_ok g → bg_count g * 4096 ≤ u64_max - 4096 → 0 < n ≤ bg_count g * 4096 →
  PartialIter_all (E:=E) (BlockList_iter_partial (BL_Single g) 0 n) =
    Ok [mkPartialBlockGroup (mkBlockGroup (bg_start g) (blocks_required_for n)) 0 n].
Proof.
  intros Hg Hb Hn. pose proof Hg as (?&?&?). pose proof (blocks_required_bounds n ltac:(lia)) as Hk.
  unfold PartialIter_all, BlockList_iter_partial. cbn [pi_group_iter BlockList_as_slice length].
  cbn [partial_collect]. unfold PartialIter_next. cbn [pi_group_iter skip_bytes remaining_bytes].
  pose proof (partial_next_aligned (E:=E) g [] 0 n Hg ltac:(lia) ltac:(lia) ltac:(lia) ltac:(lia)) as Hp.
  change (0 * 4096) with 0 in Hp. rewrite Hp.
  cbn [mbind result_bind]. rewrite !Z.sub_0_r, Z.add_0_r.
  assert (Z.min n (bg_count (mkBlockGroup (bg_start g) (bg_count g)) * 4096) = n) as ->.
  { cbn [bg_count]. lia. }
  cbn [pi_group_iter partial_next skip_bytes mbind result_bind mret result_ret].
  do 3 f_equal. unfold clip. cbn [bg_count bg_start].
  destruct (Z.ltb_spec n (bg_count g * 4096)); [done|]. f_equal. lia.
Qed.

(** Writing [n] bytes from the start of a file with one group of blocks, when
    they fit: one full block is written as a block; otherwise the whole blocks
    but the last one are handed to [write_blocks] together with the bytes of all
    whole blocks, and the last block with the bytes from its start on to
    [write_partial_block]. Nothing else is written and nothing panics. *)
Theorem write_blocks_partial_single (g : BlockGroup) (data : list Z) (fs : FileSystem D) :
  let n := Z.of_nat (length data) in
  let k := blocks_required_for n in
  group_ok g → bg_count g * 4096 ≤ u64_max - 4096 → 0 < n ≤ bg_count g * 4096 →
  write_blocks_partial (DE:=DE) (BL_Single g) 0 data fs =
    (if decide (n = 4096) then
       _ ← on_device (mapM_err map_device_error
             (write_blocks [mkBlockGroup (bg_start g) 1] data));
       mret tt
     else
       _ ← on_device (mapM_err map_device_error
             (write_blocks
                (if decide (k = 1) then [] else [mkBlockGroup (bg_start g) (k - 1)])
                (take (Z.to_nat (n / 4096 * 4096)) data)));
       on_device (mapM_err map_device_error
         (write_partial_block (bg_start g + k - 1)
            (drop (Z.to_nat ((k - 1) * 4096)) data) 0))) fs.
Proof.
  intros n k Hg Hb Hn. pose proof Hg as (?&?&?). pose proof (blocks_required_bounds n ltac:(lia)) as Hk.
  fold k in Hk. assert (0 ≤ n / 4096 * 4096 ≤ n) as Hfull.
  { pose proof (Z.mul_div_le n 4096). pose proof (Z.div_pos n 4096). lia. }
  unfold write_blocks_partial. fold n. change (0 / BLOCK_SIZE) with 0. cbn [Z.mul Z.sub].
  rewrite Z.sub_0_r.
  run_ok (add_u64_ok 0 n ltac:(lia)).
  rewrite (run_lift _ _ (bg_count g)).
  2:{ unfold BlockList_block_count. cbn. rewrite add_u64_ok by (unfold BlockGroup_count, u64_max in *; lia).
      done. }
  rewrite (run_lift _ _ tt).
  2:{ rewrite Z.add_0_l. fold k. by rewrite (proj2 (Z.geb_le _ _)) by lia. }
  run_ok (sub_u64_ok n 0 ltac:(lia)). rewrite Z.sub_0_r. change BLOCK_SIZE with 4096.
  rewrite (run_lift _ _ data) by done.
  rewrite (run_lift _ _ (take (Z.to_nat (n / 4096 * 4096)) data)).
  2:{ unfold slice_to. by rewrite (proj2 (Nat.leb_le _ _)) by (unfold n in *; lia). }
  rewrite (run_lift _ _ _ _ (single_group_pieces g n Hg Hb Hn)). fold k.
  rewrite positions_single. cbn [partial_write_groups pi_item pi_first pi_last pbg_offset pbg_len pbg_group].
  change BLOCK_SIZE with 4096. cbn [negb andb Z.eqb].
  destruct (decide (n = 4096)) as [Heq|Hne].
  - assert (k = 1) as -> by lia. rewrite Heq. cbn [Z.eqb Pos.eqb negb].
    rewrite (run_lift _ _ (mkPartialWrite [mkBlockGroup (bg_start g) 1] None None)) by done.
    change (4096 / 4096 * 4096) with 4096. rewrite take_ge by (unfold n in Heq; lia).
    cbn [pw_groups partial_first_block partial_last_block].
    rewrite !run_bind. destruct (on_device _ fs) as [[[]| | |] fs1]; done.
  - rewrite (proj2 (Z.eqb_neq _ _)) by done. cbn [negb].
    rewrite remove_end_1 by lia. cbn [mbind result_bind mret result_ret].
    rewrite (run_lift _ _ (mkPartialWrite
      (if decide (k = 1) then [] else [mkBlockGroup (bg_start g) (k - 1)]) None
      (Some (mkPartialBlockGroup (mkBlockGroup (bg_start g) k) 0 n)))).
    2:{ by destruct (decide (k = 1)). }
    cbn [pw_groups partial_first_block partial_last_block].
    rewrite !run_bind. destruct (on_device _ fs) as [[u| | |] fs1]; [|done..].
    rewrite run_ret. cbn [pbg_len pbg_offset pbg_group]. rewrite Z.add_0_r || idtac.
    rewrite (run_lift _ _ n) by (rewrite add_u64_ok by lia; by rewrite Z.add_0_r).
    unfold BlockGroup_count. cbn [bg_count]. run_ok (sub_u64_ok n (4096 * (k - 1)) ltac:(lia)).
    run_ok (sub_u64_ok n (n - 4096 * (k - 1)) ltac:(lia)).
    replace (n - (n - 4096 * (k - 1))) with ((k - 1) * 4096) by lia.
    rewrite (run_lift _ _ (drop (Z.to_nat ((k - 1) * 4096)) data)).
    2:{ unfold slice_from. by rewrite (proj2 (Nat.leb_le _ _)) by (unfold n in *; lia). }
    rewrite (run_lift _ _ (bg_start g + k - 1)); [done|].
    rewrite BlockGroup_end_ok by (unfold group_ok; cbn; lia). done.
Qed.
End proofs.
