(* ===== verification/FsRuns.v ===== *)
(** * The file system on a concrete device

    A device in memory whose blocks can be read as bytes, and runs of the file
    system on it: the life of a file, and the runs that show where the code goes
    wrong. The capacities are those of the kernel build. *)

From S2P Require Import Prelude BlockDevice FsStructs BlockAllocator IterExt MemStructs.
From S2P Require Import BlockAllocatorProofs FreeListProofs FsStrings MemTree Fs FsProofs FsWriteProofs.
Local Open Scope Z_scope.

#[local] Existing Instance kernel_capacity.

(** ** A device that transfers bytes

    Blocks of bytes are [FB_Raw]; of the other blocks only the first bytes of the
    header are looked at as bytes. *)

Definition pad_block (l : list Z) : list Z := l ++ replicate (4096 - length l) 0.

Definition FsBlock_bytes (b : FsBlock) : list Z :=
  match b with
  | FB_Raw data => pad_block data
  | FB_Header h => pad_block (mh_magic h ++ mh_version h)
  | _ => replicate 4096 0
  end.

Fixpoint mem_read_all (d : MemDevice FsBlock) (l : list LBA) : result unit (list Z) :=
  match l with
  | [] => mret []
  | x :: l => b ← mem_read d x; rest ← mem_read_all d l; mret (FsBlock_bytes b ++ rest)
  end.

Fixpoint mem_write_all (l : list LBA) (data : list Z) : M (MemDevice FsBlock) unit unit :=
  match l with
  | [] => mret tt
  | x :: l => _ ← mem_write x (FB_Raw (take 4096 data)); mem_write_all l (drop 4096 data)
  end.

Definition group_lbas (groups : list BlockGroup) : list LBA :=
  concat ((λ g, seqZ (bg_start g) (bg_count g)) <$> groups).

#[export] Instance MemDevice_bytes : BlockBytes (MemDevice FsBlock) FsBlock unit := {
  block_bytes := FsBlock_bytes;
  read_blocks d groups len := mem_read_all d (group_lbas groups);
  write_blocks groups data := mem_write_all (group_lbas groups) data;
  write_partial_block lba data offset d :=
    match mem_read d lba with
    | Ok b =>
        let bytes := FsBlock_bytes b in
        let n := Z.to_nat offset in
        mem_write lba (FB_Raw (take n bytes ++ data ++ drop (n + length data) bytes)) d
    | _ => (Err tt, d)
    end;
}.

Abbreviation RunFs := (FileSystem (MemDevice FsBlock)).

Definition empty_device : MemDevice FsBlock := mkMemDevice 100 ∅ (FB_Raw []).

Definition keep_order {A} (l : list A) : list A := l.

Abbreviation fuel := 10%nat.

Local Abbreviation DM := (M (MemDevice FsBlock) (FsError unit)).

Definition create_fs (name : option (list Z)) (access : AccessMode) : DM RunFs :=
  create_internal fuel keep_order 7 name CheckExisting access.
Definition open_fs (access : AccessMode) : DM RunFs := open_internal fuel access false.

(** A call on a file system whose device is shared with others *)
Definition on_mount {A} (fs : RunFs) (m : M RunFs (FsError unit) A) : DM (A * RunFs) := λ d,
  let '(r, fs) := m (set_device d fs) in ((a ← r; mret (a, fs)), device fs).

Definition close_fs (fs : RunFs) : DM unit := _ ← on_mount fs (close fuel keep_order); mret tt.

(** A device with a new, closed file system without a name *)
Definition prepared : MemDevice FsBlock :=
  snd ((fs ← create_fs None ReadWrite; close_fs fs) empty_device).

(** ** The life of a file *)

Definition first_session (fs : RunFs) : DM (FileId * FileId) :=
  '(ids, fs) ← on_mount fs (
     dir ← create_directory fuel keep_order (Directory_empty FileId_ROOT) [100];
     file ← create_file fuel [102; 195; 188] dir;
     _ ← write_file fuel file 0 (replicate 4096 7);
     _ ← write_file fuel file 4096 [];
     _ ← write_file fuel file 2 [8; 9; 10];
     mret (dir, file));
  _ ← close_fs fs;
  mret ids.

Definition second_session (ids : FileId * FileId) (fs : RunFs)
    : DM (Directory * Directory * list Z) :=
  '(found, fs) ← on_mount fs (
     root ← read_directory fuel FileId_ROOT;
     dir ← read_directory fuel ids.1;
     data ← read_file fuel ids.2 0 6;
     mret (root, dir, data));
  _ ← close_fs fs;
  mret found.

(** A file system at work. A directory and a file in it are created, the file
    is written twice and the file system is closed; after it is opened again for
    reading, the directories list the new entries and the file has the bytes
    that were written last. *)
Example file_life :
  fst ((fs ← create_fs None ReadWrite;
        ids ← first_session fs;
        fs ← open_fs ReadOnly;
        second_session ids fs) empty_device) =
    Ok (mkDirectory None [mkDirectoryEntry [100] 2],
        mkDirectory (Some 1) [mkDirectoryEntry [102; 195; 188] 3],
        [7; 7; 8; 9; 10; 7]).
Proof. vm_compute. reflexivity. Qed.

(** ** Where mounting goes wrong *)

(** Two readers; the first one looks at the root directory and closes. *)
Definition one_of_two_readers_closes : DM RunFs :=
  reader1 ← open_fs ReadOnly;
  reader2 ← open_fs ReadOnly;
  '(_, reader1) ← on_mount reader1 (read_directory fuel FileId_ROOT);
  _ ← close_fs reader1;
  mret reader2.

Definition finds_root (fs : RunFs) : DM bool :=
  '(o, _) ← on_mount fs (find_file fuel FileId_ROOT); mret (bool_decide (is_Some o)).

(** Closing one of two readers forgets the other one. Flushing writes a mount
    count of 1 whatever it was, so after the first reader closed the count is 0
    and the device can be opened for writing, which is refused before. Once a
    file was created then, the second reader does not find the root directory,
    which it found before. *)
Theorem close_forgets_other_readers :
  fst ((reader ← open_fs ReadOnly; open_fs ReadWrite) prepared) = Err AlreadyMounted ∧
  fst ((reader2 ← one_of_two_readers_closes; finds_root reader2) prepared) = Ok true ∧
  fst ((reader2 ← one_of_two_readers_closes;
        writer ← open_fs ReadWrite;
        '(_, writer) ← on_mount writer (create_file fuel [102] FileId_ROOT);
        _ ← close_fs writer;
        finds_root reader2) prepared) = Ok false.
Proof. split_and!; vm_compute; reflexivity. Qed.

(** Two ways to use the read-only access that always panic. Closing a file
    system opened for reading from which nothing was read asserts the validity
    of a tree that is not loaded. Creating a file system with read-only access
    asserts write access, because a new allocator has to be written. *)
Theorem read_only_panics :
  fst ((fs ← open_fs ReadOnly; close_fs fs) prepared) = Panic ∧
  fst (create_fs None ReadOnly empty_device) = Panic.
Proof. split; vm_compute; reflexivity. Qed.

(** ** The theorems about mounting and writing at work *)

Lemma open_prepared access :
  ∃ fs d', open_internal (DE:=unit) fuel access false prepared = (Ok fs, d') ∧
    hd_mount_count (header_data fs) = 0 ∧ hd_name_head (header_data fs) = None.
Proof.
  destruct access; eexists _, _; (split; [vm_compute; reflexivity|split; reflexivity]).
Qed.

Lemma open_excludes_witness :
  ∃ fs d', open_internal (DE:=unit) fuel ReadWrite false prepared = (Ok fs, d') ∧
    fst (open_internal (DE:=unit) fuel ReadOnly false d') = Err AlreadyMounted.
Proof.
  destruct (open_prepared ReadWrite) as (fs & d' & Hopen & Hcount & Hname).
  exists fs, d'. split; [exact Hopen|].
  destruct (open_excludes (DE:=unit) fuel fuel ReadWrite ReadOnly prepared fs d'
    (or_introl eq_refl) Hopen ltac:(rewrite Hcount; lia)) as (_ & _ & H). by apply H.
Defined.

(** A session that changes something and is then closed *)
Definition changed_fs : RunFs :=
  match (fs ← open_fs ReadWrite; on_mount fs (create_file fuel [102] FileId_ROOT)) prepared with
  | (Ok (_, fs), d) => fs
  | _ => mkFs prepared 0 0 0 demo_alloc (mkHeaderData None None [] 0 0 false Ready 0 0 None)
           MemTree_invalid [] ReadWrite
  end.

Lemma close_spec_witness :
  ∃ d' fs', close (DE:=unit) fuel keep_order changed_fs = (Ok d', fs') ∧
    ∃ h t, mem_read d' 0 = Ok (FB_Header h) ∧ mh_transient h = Some t ∧ mount_count t = 0.
Proof.
  destruct (close (DE:=unit) fuel keep_order changed_fs) as [[d'| | |] fs'] eqn:Hc;
    [|vm_compute in Hc; discriminate..].
  exists d', fs'. split; [reflexivity|].
  destruct (close_spec (DE:=unit) fuel keep_order changed_fs d' fs' Hc)
    as (h & t & Hr & Ht & Hcount & _).
  exists h, t. split; [exact Hr|]. split; [exact Ht|exact Hcount].
Defined.

(** The file system after the flush of its data *)
Definition flushed_fs : RunFs := snd (flush_data (DE:=unit) fuel keep_order changed_fs).

Lemma flushed_fs_fields :
  block_allocator flushed_fs =
    mkBlockAllocator [mkBlockGroup 2 1; mkBlockGroup 7 91] (Some 3) [3] true ∧
  backup_header_lba flushed_fs = 99 ∧ access_mode flushed_fs = ReadWrite ∧
  hd_status (header_data flushed_fs) = Ready ∧ size (device flushed_fs) = 100 ∧
  hd_name (header_data flushed_fs) = None ∧ hd_name_head (header_data flushed_fs) = None.
Proof. split_and!; vm_compute; reflexivity. Qed.

Lemma flushed_fs_ok : flushed (DE:=unit) flushed_fs.
Proof.
  destruct flushed_fs_fields as (Ha & Hb & Hm & Hs & Hsize & Hn & Hh).
  split; unfold given_away, reserved, is_free; rewrite ?Ha, ?Hb, ?Hm, ?Hs, ?Hsize, ?Hn, ?Hh;
    cbn [free self_on_disk dirty].
  - reflexivity.
  - unfold groups_ok, group_ok, gap, u64_max; cbn.
    repeat first [split | apply Forall_cons | apply Forall_nil]; cbn; try done; lia.
  - constructor; [unfold u64_max; lia|constructor].
  - reflexivity.
  - reflexivity.
  - lia.
  - unfold MIN_BLOCK_COUNT, u64_max. lia.
  - intros x [-> | ->]; by_decision.
  - reflexivity.
Qed.

Lemma close_open_roundtrip_witness :
  ∃ d' fs', close (DE:=unit) fuel keep_order changed_fs = (Ok d', fs') ∧
    ∃ n fs2 d2, open_internal (DE:=unit) n ReadOnly false d' = (Ok fs2, d2) ∧
      hd_next_file_id (header_data fs2) = 3 ∧ root (mem_tree fs2) = mkLink None (Some 6).
Proof.
  assert (fst (flush_data (DE:=unit) fuel keep_order changed_fs) = Ok tt) as Hdata
    by (vm_compute; reflexivity).
  destruct (close (DE:=unit) fuel keep_order changed_fs) as [[d'| | |] fs'] eqn:Hc;
    [|vm_compute in Hc; discriminate..].
  exists d', fs'. split; [reflexivity|].
  destruct (close_open_roundtrip (DE:=unit) fuel keep_order changed_fs flushed_fs d' fs' ReadOnly)
    as (n & Hopen).
  - unfold flushed_fs. rewrite <- Hdata. apply surjective_pairing.
  - exact flushed_fs_ok.
  - exact Hc.
  - intros b b' Hb. exists (snd (mem_write 0 b' d')). cbn in Hb |- *.
    unfold mem_compare_exchange. change MAIN_HEADER_BLOCK with 0 in *. rewrite Hb.
    rewrite bool_decide_true by reflexivity. unfold mem_read in Hb. unfold mem_write.
    destruct (_ && _); [reflexivity|discriminate].
  - destruct (Hopen n (le_n n)) as (fs2 & d2 & Ho & _ & _ & _ & Hid & _ & Hroot).
    exists n, fs2, d2. split; [exact Ho|]. rewrite Hid, Hroot. split; vm_compute; reflexivity.
Defined.

Lemma write_blocks_partial_panics_witness :
  write_blocks_partial (DE:=unit) (BL_Single (mkBlockGroup 10 3)) 4096 [1; 2; 3] changed_fs =
    (Panic, changed_fs).
Proof. apply write_blocks_partial_panics. vm_compute. reflexivity. Defined.

Lemma write_blocks_partial_single_witness :
  ∃ fs', write_blocks_partial (DE:=unit) (BL_Single (mkBlockGroup 10 3)) 0
           (replicate 4097 1) changed_fs = (Ok tt, fs') ∧
    mem_read (device fs') 11 = Ok (FB_Raw (1 :: replicate 4095 0)).
Proof.
  rewrite (write_blocks_partial_single (DE:=unit) (mkBlockGroup 10 3) (replicate 4097 1) changed_fs).
  - eexists. split; vm_compute; reflexivity.
  - unfold group_ok, u64_max; cbn; lia.
  - unfold u64_max; cbn; lia.
  - rewrite length_replicate. cbn. lia.
Defined.
