(* ===== verification/TicketLock.v ===== *)
(** * [libs/shared/src/sync/lockcell.rs]: the ticket lock

    [UnsafeTicketLock] as a program for any number of threads. Every access to an
    atomic variable is one step, so all interleavings of the threads are
    considered; the memory orderings of the source are taken to be sequentially
    consistent. What a thread does between two accesses is part of the step that
    follows it. [LockCellGuard] is the permission to call [unlock] once. *)

From S2P Require Import Prelude.
Local Open Scope Z_scope.

(** ** The lock *)

(** [!0] of the owner, an [AtomicU16] *)
Definition NO_OWNER : Z := 65535.

Record UnsafeTicketLock := mkTicketLock {
  current_ticket : Z;
  next_ticket : Z;
  shattered : bool;
  owner : Z;
  preemtable : bool;
}.

Definition UnsafeTicketLock_new : UnsafeTicketLock := mkTicketLock 0 0 false NO_OWNER true.
Definition UnsafeTicketLock_new_non_preemtable : UnsafeTicketLock :=
  mkTicketLock 0 0 false NO_OWNER false.

Inductive LockReason := Acquired | Shattered.

(** [fetch_add(1)] on an [AtomicU64] wraps around. *)
Definition fetch_add_next (l : UnsafeTicketLock) : Z * UnsafeTicketLock :=
  (next_ticket l, mkTicketLock (current_ticket l) (wrapping_add (next_ticket l) 1) (shattered l)
                    (owner l) (preemtable l)).
Definition fetch_add_current (l : UnsafeTicketLock) : UnsafeTicketLock :=
  mkTicketLock (wrapping_add (current_ticket l) 1) (next_ticket l) (shattered l)
    (owner l) (preemtable l).
Definition set_owner (o : Z) (l : UnsafeTicketLock) : UnsafeTicketLock :=
  mkTicketLock (current_ticket l) (next_ticket l) (shattered l) o (preemtable l).

Definition UnsafeTicketLock_shatter_permanent (l : UnsafeTicketLock) : UnsafeTicketLock :=
  mkTicketLock (current_ticket l) (next_ticket l) true (owner l) (preemtable l).
Definition UnsafeTicketLock_is_unlocked (l : UnsafeTicketLock) : bool := owner l =? NO_OWNER.
Definition UnsafeTicketLock_is_preemtable (l : UnsafeTicketLock) : bool := preemtable l.

(** ** A thread in [lock] and [unlock] *)

Inductive pc :=
  | Idle
  (** in [lock], before [next_ticket.fetch_add] *)
  | TakeTicket
  (** at the condition of the outer [while] loop *)
  | Waiting (ticket : Z)
  (** at [self.owner.load] *)
  | CheckOwner (ticket : Z)
  (** at the condition of the inner [while] loop *)
  | Spinning (ticket : Z)
  (** at [self.owner.store(core_id)] *)
  | SetOwner
  (** [lock] has returned a guard *)
  | Held (reason : LockReason)
  (** in [unlock], after [is_unlocked] was true *)
  | CheckShattered
  (** in [unlock], at [self.owner.store(!0)] *)
  | ClearOwner
  (** in [unlock], at [current_ticket.fetch_add] *)
  | NextTicket
  (** the three panics *)
  | UsedInInterrupt
  | DeadlockDetected (ticket : Z)
  | AlreadyUnlocked.

(** [depth] counts the calls of [s_enter_lock] without one of [s_exit_lock]. *)
Record Thread := mkThread { at_pc : pc; depth : Z }.

Definition go (p : pc) (t : Thread) : Thread := mkThread p (depth t).

Section thread.
(** The core a thread runs on and whether it is in an interrupt *)
Context (core_id : Z) (in_interrupt : bool).

Definition lock_step (l : UnsafeTicketLock) (t : Thread) : Thread * UnsafeTicketLock :=
  match at_pc t with
  | Idle =>
      if preemtable l && in_interrupt then (go UsedInInterrupt t, l)
      else if shattered l then (go (Held Shattered) t, l)
      else (mkThread TakeTicket (depth t + 1), l)
  | TakeTicket => let '(ticket, l) := fetch_add_next l in (go (Waiting ticket) t, l)
  | Waiting ticket =>
      if current_ticket l =? ticket then (go SetOwner t, l) else (go (CheckOwner ticket) t, l)
  | CheckOwner ticket =>
      if negb (owner l =? NO_OWNER) && (owner l =? core_id)
      then (go (DeadlockDetected ticket) t, l) else (go (Spinning ticket) t, l)
  | Spinning ticket =>
      if current_ticket l =? ticket then (go (Waiting ticket) t, l) else (t, l)
  | SetOwner => (go (Held Acquired) t, set_owner core_id l)
  (** the drop of the guard: [unlock] *)
  | Held _ =>
      if UnsafeTicketLock_is_unlocked l then (go CheckShattered t, l) else (go ClearOwner t, l)
  | CheckShattered => if shattered l then (go ClearOwner t, l) else (go AlreadyUnlocked t, l)
  | ClearOwner => (go NextTicket t, set_owner NO_OWNER l)
  | NextTicket => (mkThread Idle (depth t - 1), fetch_add_current l)
  | UsedInInterrupt | DeadlockDetected _ | AlreadyUnlocked => (t, l)
  end.
End thread.

(** ** All threads *)

Section system.
Context (core_id : nat → Z) (in_interrupt : nat → bool).

Definition State : Type := UnsafeTicketLock * list Thread.

Definition run_thread (i : nat) (s : State) : State :=
  match s.2 !! i with
  | Some t => let '(t, l) := lock_step (core_id i) (in_interrupt i) s.1 t in (l, <[i:=t]> s.2)
  | None => s
  end.

Inductive step : State → State → Prop :=
  | step_thread s i : (i < length s.2)%nat → step s (run_thread i s).

Definition initial (l : UnsafeTicketLock) (n : nat) : State := (l, replicate n (mkThread Idle 0)).

(** ** The specification: a queue of threads, of which the first holds the lock *)

Inductive queue_step : list nat → list nat → Prop :=
  | enqueue q i : i ∉ q → queue_step q (q ++ [i])
  | dequeue i q : queue_step (i :: q) q.

(** Where a thread is between taking the lock and giving it back *)
Definition holds (p : pc) : bool :=
  match p with
  | SetOwner | Held _ | CheckShattered | ClearOwner | NextTicket => true
  | _ => false
  end.

(** The ticket of a thread that waits *)
Definition ticket_of (p : pc) : option Z :=
  match p with
  | Waiting t | CheckOwner t | Spinning t | DeadlockDetected t => Some t
  | _ => None
  end.

(** The thread is the owner that the lock records. *)
Definition owns (p : pc) : bool :=
  match p with Held _ | ClearOwner => true | _ => false end.

Definition modulus : Z := u64_max + 1.

(** How the state represents a queue *)
Record represents (s : State) (q : list nat) : Prop := {
  rep_nodup : NoDup q;
  rep_threads i : i ∈ q → (i < length s.2)%nat;
  rep_out i t : s.2 !! i = Some t → i ∉ q → holds (at_pc t) = false ∧ ticket_of (at_pc t) = None;
  rep_in k i t : q !! k = Some i → s.2 !! i = Some t →
    if holds (at_pc t) then k = 0%nat ∧ at_pc t ≠ CheckShattered ∧ at_pc t ≠ Held Shattered
    else ticket_of (at_pc t) = Some ((current_ticket s.1 + Z.of_nat k) mod modulus);
  rep_alive i t : s.2 !! i = Some t → at_pc t ≠ AlreadyUnlocked;
  rep_current : 0 ≤ current_ticket s.1 < modulus;
  rep_next : next_ticket s.1 = (current_ticket s.1 + Z.of_nat (length q)) mod modulus;
  rep_shattered : shattered s.1 = false;
  rep_owner : owner s.1 =
    match q with
    | i :: _ =>
        match s.2 !! i with
        | Some t => if owns (at_pc t) then core_id i else NO_OWNER
        | None => NO_OWNER
        end
    | [] => NO_OWNER
    end;
}.

(** The owner [represents] asks for *)
Definition owner_of (ts : list Thread) (q : list nat) : Z :=
  match q with
  | i :: _ =>
      match ts !! i with
      | Some t => if owns (at_pc t) then core_id i else NO_OWNER
      | None => NO_OWNER
      end
  | [] => NO_OWNER
  end.

(** ** The simulation *)

Lemma queue_length (q : list nat) n : NoDup q → (∀ i, i ∈ q → (i < n)%nat) → (length q ≤ n)%nat.
Proof.
  intros Hq Hlt. assert (length q ≤ length (seq 0 n))%nat as Hl; [|by rewrite length_seq in Hl].
  apply submseteq_length, NoDup_submseteq; [done|]. intros i Hi%Hlt. apply elem_of_seq. lia.
Qed.

(** A step that does not change who waits and who holds *)
Lemma rep_local l l' ts q i t t' :
  represents (l, ts) q → ts !! i = Some t →
  current_ticket l' = current_ticket l → next_ticket l' = next_ticket l →
  shattered l' = shattered l → at_pc t' ≠ AlreadyUnlocked →
  (i ∉ q → holds (at_pc t') = false ∧ ticket_of (at_pc t') = None) →
  (∀ k, q !! k = Some i →
   if holds (at_pc t') then k = 0%nat ∧ at_pc t' ≠ CheckShattered ∧ at_pc t' ≠ Held Shattered
   else ticket_of (at_pc t') = Some ((current_ticket l + Z.of_nat k) mod modulus)) →
  owner l' = owner_of (<[i:=t']> ts) q →
  represents (l', <[i:=t']> ts) q.
Proof.
  intros [] Ht Hc Hn Hs Ha Hout Hin Ho. cbn [fst snd] in *.
  assert (i < length ts)%nat as Hi by by eapply lookup_lt_Some.
  split; cbn [fst snd]; rewrite ?Hc, ?Hn, ?Hs; try done.
  - by rewrite length_insert.
  - intros j u [(<- & <- & _)|[Hne Hu]]%list_lookup_insert_Some Hj; [by apply Hout|by eapply rep_out0].
  - intros k j u Hk [(<- & <- & _)|[Hne Hu]]%list_lookup_insert_Some; [by apply Hin|by eapply rep_in0].
  - intros j u [(<- & <- & _)|[Hne Hu]]%list_lookup_insert_Some; [done|by eapply rep_alive0].
Qed.

(** Only the head of the queue can be the recorded owner, so a thread that does
    not own the lock before and after its step leaves the recorded owner right. *)
Lemma owner_same l ts q i t t' :
  represents (l, ts) q → ts !! i = Some t → owns (at_pc t) = owns (at_pc t') →
  owner l = owner_of (<[i:=t']> ts) q.
Proof.
  intros [] Ht Hown. cbn [fst snd] in *. rewrite rep_owner0. unfold owner_of. destruct q as [|j q]; [done|].
  destruct (decide (i = j)) as [<-|Hne].
  - rewrite list_lookup_insert_eq by by eapply lookup_lt_Some. rewrite Ht. by rewrite Hown.
  - by rewrite list_lookup_insert_ne.
Qed.

Lemma rep_elem l ts q i t :
  represents (l, ts) q → ts !! i = Some t → holds (at_pc t) = true ∨ is_Some (ticket_of (at_pc t)) →
  ∃ k, q !! k = Some i.
Proof.
  intros [] Ht Hin. destruct (decide (i ∈ q)) as [Hi|Hi]; [by apply list_elem_of_lookup_1|].
  destruct (rep_out0 i t Ht Hi) as [Hh Hn]. rewrite Hh, Hn in Hin. by destruct Hin as [|[]].
Qed.

Lemma rep_not_elem l ts q i t :
  represents (l, ts) q → ts !! i = Some t → holds (at_pc t) = false → ticket_of (at_pc t) = None →
  i ∉ q.
Proof.
  intros [] Ht Hh Hn [k Hk]%list_elem_of_lookup_1. specialize (rep_in0 k i t Hk Ht).
  rewrite Hh in rep_in0. congruence.
Qed.

(** A thread that holds the lock is the first of the queue. *)
Lemma rep_head l ts q i t :
  represents (l, ts) q → ts !! i = Some t → holds (at_pc t) = true →
  (∃ q', q = i :: q') ∧ at_pc t ≠ CheckShattered ∧ at_pc t ≠ Held Shattered.
Proof.
  intros Hrep Ht Hh. destruct (rep_elem _ _ _ _ _ Hrep Ht (or_introl Hh)) as [k Hk].
  destruct Hrep. specialize (rep_in0 k i t Hk Ht). rewrite Hh in rep_in0.
  destruct rep_in0 as (-> & ? & ?). split; [|done]. destruct q; simplify_eq/=. eauto.
Qed.

Lemma mod_add_unique c k : 0 ≤ c < modulus → 0 ≤ k < modulus → (c + k) mod modulus = c → k = 0.
Proof.
  intros Hc Hk He. destruct (decide (c + k < modulus)).
  - rewrite Z.mod_small in He by lia. lia.
  - replace (c + k) with (c + k - modulus + 1 * modulus) in He by lia.
    rewrite Z.mod_add in He by done. rewrite Z.mod_small in He by lia. lia.
Qed.

(** Between two steps that matter the thread keeps its ticket. *)
Lemma rep_waiting l ts q i t t' ticket :
  represents (l, ts) q → ts !! i = Some t →
  holds (at_pc t) = false → ticket_of (at_pc t) = Some ticket →
  holds (at_pc t') = false → ticket_of (at_pc t') = Some ticket →
  represents (l, <[i:=t']> ts) q.
Proof.
  intros Hrep Ht Hh Htk Hh' Htk'.
  assert (∀ p, holds p = false → owns p = false ∧ p ≠ Held Shattered) as Hown by by intros [].
  assert (∃ k, q !! k = Some i) as [k0 Hk0] by (eapply rep_elem; [done..|right; by rewrite Htk]).
  eapply rep_local; try done.
  - intros Heq. by rewrite Heq in Htk'.
  - intros []. by eapply list_elem_of_lookup_2.
  - intros k Hk. rewrite Hh', Htk', <- Htk. destruct Hrep. specialize (rep_in0 k i t Hk Ht).
    by rewrite Hh in rep_in0.
  - eapply owner_same; [done..|]. by rewrite (proj1 (Hown _ Hh)), (proj1 (Hown _ Hh')).
Qed.

Lemma rep_take_ticket l ts q i t :
  represents (l, ts) q → ts !! i = Some t → at_pc t = TakeTicket →
  represents ((fetch_add_next l).2, <[i:=go (Waiting (next_ticket l)) t]> ts) (q ++ [i]).
Proof.
  intros Hrep Ht Hpc.
  assert (i ∉ q) as Hiq by (eapply rep_not_elem; [done..|by rewrite Hpc|by rewrite Hpc]).
  pose proof (owner_same _ _ _ _ _ (go (Waiting (next_ticket l)) t) Hrep Ht) as Ho.
  rewrite Hpc in Ho. specialize (Ho eq_refl). destruct Hrep. cbn [fst snd] in *.
  assert (i < length ts)%nat as Hi by by eapply lookup_lt_Some.
  split; cbn [fst snd fetch_add_next current_ticket next_ticket shattered owner]; try done.
  - apply NoDup_app. split; [done|]. split; [|apply NoDup_singleton].
    intros j Hj ->%list_elem_of_singleton. done.
  - intros j. rewrite length_insert, elem_of_app, list_elem_of_singleton. intros [?| ->]; auto.
  - intros j u [(<- & <- & _)|[Hne Hu]]%list_lookup_insert_Some Hj; [set_solver|].
    eapply rep_out0; [done|set_solver].
  - intros k j u Hk [(<- & <- & _)|[Hne Hu]]%list_lookup_insert_Some.
    + cbn. apply lookup_app_Some in Hk as [Hk|[Hk Hk']].
      { by apply list_elem_of_lookup_2 in Hk. }
      apply list_lookup_singleton_Some in Hk' as [Hk' _].
      rewrite rep_next0. repeat f_equal. lia.
    + apply lookup_app_Some in Hk as [Hk|[Hk Hk']]; [by eapply rep_in0|].
      apply list_lookup_singleton_Some in Hk' as [_ ->]. done.
  - intros j u [(<- & <- & _)|[Hne Hu]]%list_lookup_insert_Some; [done|by eapply rep_alive0].
  - rewrite rep_next0, length_app. cbn. unfold wrapping_add. fold modulus.
    rewrite Zplus_mod_idemp_l. f_equal. lia.
  - rewrite Ho. unfold owner_of. destruct q as [|j q]; [|done]. cbn.
    by rewrite list_lookup_insert_eq.
Qed.

Lemma rep_next_ticket l ts q i t :
  represents (l, ts) q → ts !! i = Some t → at_pc t = NextTicket →
  ∃ q', q = i :: q' ∧
    represents (fetch_add_current l, <[i:=mkThread Idle (depth t - 1)]> ts) q'.
Proof.
  intros Hrep Ht Hpc.
  destruct (rep_head _ _ _ _ _ Hrep Ht) as [[q' ->] _]; [by rewrite Hpc|].
  exists q'. split; [done|]. destruct Hrep. cbn [fst snd] in *.
  apply NoDup_cons in rep_nodup0 as [Hi Hq].
  assert (i < length ts)%nat as Hlt by by eapply lookup_lt_Some.
  assert (∀ k j u, q' !! k = Some j → ts !! j = Some u → holds (at_pc u) = false ∧
    ticket_of (at_pc u) = Some ((current_ticket l + Z.of_nat (S k)) mod modulus)) as Hrest.
  { intros k j u Hk Hu. specialize (rep_in0 (S k) j u Hk Hu).
    destruct (holds (at_pc u)); [by destruct rep_in0|done]. }
  split; cbn [fst snd fetch_add_current current_ticket next_ticket shattered owner]; try done.
  - intros j Hj. rewrite length_insert. apply rep_threads0. by right.
  - intros j u [(<- & <- & _)|[Hne Hu]]%list_lookup_insert_Some Hj; [done|].
    eapply rep_out0; [done|]. by intros [->|]%elem_of_cons.
  - intros k j u Hk [(<- & <- & _)|[Hne Hu]]%list_lookup_insert_Some.
    { by apply list_elem_of_lookup_2 in Hk. }
    destruct (Hrest k j u Hk Hu) as [-> ->]. f_equal. unfold wrapping_add. fold modulus.
    rewrite Zplus_mod_idemp_l. f_equal. lia.
  - intros j u [(<- & <- & _)|[Hne Hu]]%list_lookup_insert_Some; [done|by eapply rep_alive0].
  - unfold wrapping_add. fold modulus. by apply Z.mod_pos_bound.
  - rewrite rep_next0. unfold wrapping_add. fold modulus. cbn [length].
    rewrite Zplus_mod_idemp_l. f_equal. lia.
  - rewrite Ht, Hpc in rep_owner0. cbn in rep_owner0. rewrite rep_owner0.
    destruct q' as [|j q']; [done|].
    assert (j ≠ i) as Hne by (intros ->; apply Hi; by left).
    rewrite list_lookup_insert_ne by done. destruct (ts !! j) as [u|] eqn:Hu; [|done].
    destruct (Hrest 0%nat j u eq_refl Hu) as [Hh _]. by destruct (at_pc u).
Qed.

Lemma run_thread_eq l ts i t :
  ts !! i = Some t →
  run_thread i (l, ts) =
    let '(t', l') := lock_step (core_id i) (in_interrupt i) l t in (l', <[i:=t']> ts).
Proof. intros Ht. unfold run_thread. cbn. by rewrite Ht. Qed.

(** Every step of a thread is a step of the queue or none. *)
Lemma run_thread_simulates s q i :
  (∀ j, core_id j ≠ NO_OWNER) → represents s q → Z.of_nat (length s.2) < modulus →
  (i < length s.2)%nat →
  ∃ q', represents (run_thread i s) q' ∧ (q' = q ∨ queue_step q q').
Proof.
  destruct s as [l ts]. intros Hcore Hrep Hlen Hi. cbn in Hi, Hlen.
  destruct (lookup_lt_is_Some_2 ts i Hi) as [t Ht]. rewrite (run_thread_eq _ _ _ _ Ht).
  pose proof (rep_shattered _ _ Hrep) as Hsh. pose proof (rep_current _ _ Hrep) as Hcur.
  cbn [fst snd] in Hsh, Hcur.
  assert (Hstay : ∀ t' ticket, holds (at_pc t) = false → ticket_of (at_pc t) = Some ticket →
    holds (at_pc t') = false → ticket_of (at_pc t') = Some ticket →
    ∃ q', represents (l, <[i:=t']> ts) q' ∧ (q' = q ∨ queue_step q q')).
  { intros t' ticket ????. exists q. split; [|by left]. by eapply rep_waiting. }
  unfold lock_step. destruct (at_pc t) as [| |tk|tk|tk| |r| | | | |tk|] eqn:Hpc.
  - assert (i ∉ q) as Hiq by (eapply rep_not_elem; [done..|by rewrite Hpc|by rewrite Hpc]).
    assert (Hout : ∀ t', holds (at_pc t') = false → ticket_of (at_pc t') = None →
      at_pc t' ≠ AlreadyUnlocked →
      ∃ q', represents (l, <[i:=t']> ts) q' ∧ (q' = q ∨ queue_step q q')).
    { intros t' Hh Hn Ha. exists q. split; [|by left]. eapply rep_local; try done.
      - intros k Hk. by apply list_elem_of_lookup_2 in Hk.
      - eapply owner_same; [done..|]. rewrite Hpc. by destruct (at_pc t'). }
    destruct (_ && _); [by apply Hout|]. rewrite Hsh. by apply Hout.
  - exists (q ++ [i]). pose proof (rep_take_ticket _ _ _ _ _ Hrep Ht Hpc) as Hr.
    split; [exact Hr|]. right. constructor.
    eapply rep_not_elem; [done..|by rewrite Hpc|by rewrite Hpc].
  - destruct (Z.eqb_spec (current_ticket l) tk) as [Heq|]; [|by eapply Hstay].
    destruct (rep_elem _ _ _ _ _ Hrep Ht) as [k Hk]; [right; by rewrite Hpc|].
    assert (k = 0%nat) as ->.
    { pose proof (rep_in _ _ Hrep k i t Hk Ht) as Hin. rewrite Hpc in Hin. cbn in Hin.
      injection Hin as Hin. pose proof (lookup_lt_Some _ _ _ Hk).
      pose proof (queue_length q (length ts) (rep_nodup _ _ Hrep) (rep_threads _ _ Hrep)).
      assert (Z.of_nat k = 0); [|lia].
      apply (mod_add_unique (current_ticket l)); [done|lia|congruence]. }
    exists q. split; [|by left]. eapply rep_local; try done.
    + intros []. by eapply list_elem_of_lookup_2.
    + intros k' Hk'. cbn. split; [|done]. by eapply NoDup_lookup; [apply Hrep|..].
    + eapply owner_same; [done..|]. by rewrite Hpc.
  - destruct (_ && _); by eapply Hstay.
  - destruct (_ =? _); [by eapply Hstay|].
    exists q. rewrite list_insert_id by done. split; [done|by left].
  - destruct (rep_head _ _ _ _ _ Hrep Ht) as [[q' ->] _]; [by rewrite Hpc|].
    exists (i :: q'). split; [|by left]. eapply rep_local; try done.
    + intros []. by left.
    + intros k Hk. cbn. split; [|done]. by eapply NoDup_lookup; [apply Hrep|..].
    + cbn. by rewrite list_lookup_insert_eq.
  - destruct (rep_head _ _ _ _ _ Hrep Ht) as [[q' ->] (_ & Hns)]; [by rewrite Hpc|].
    pose proof (rep_owner _ _ Hrep) as Ho. cbn in Ho. rewrite Ht, Hpc in Ho. cbn in Ho.
    unfold UnsafeTicketLock_is_unlocked. rewrite Ho, (proj2 (Z.eqb_neq _ _)) by done.
    exists (i :: q'). split; [|by left]. eapply rep_local; try done.
    + intros []. by left.
    + intros k Hk. cbn. split; [|done]. by eapply NoDup_lookup; [apply Hrep|..].
    + eapply owner_same; [done..|]. by rewrite Hpc.
  - destruct (rep_head _ _ _ _ _ Hrep Ht) as (_ & Hne & _); [by rewrite Hpc|]. by rewrite Hpc in Hne.
  - destruct (rep_head _ _ _ _ _ Hrep Ht) as [[q' ->] _]; [by rewrite Hpc|].
    exists (i :: q'). split; [|by left]. eapply rep_local; try done.
    + intros []. by left.
    + intros k Hk. cbn. split; [|done]. by eapply NoDup_lookup; [apply Hrep|..].
    + cbn. by rewrite list_lookup_insert_eq.
  - destruct (rep_next_ticket _ _ _ _ _ Hrep Ht Hpc) as (q' & -> & Hr).
    exists q'. split; [exact Hr|]. right. constructor.
  - exists q. rewrite list_insert_id by done. split; [done|by left].
  - exists q. rewrite list_insert_id by done. split; [done|by left].
  - by destruct (rep_alive _ _ Hrep i t Ht).
Qed.

Lemma initial_represents (l : UnsafeTicketLock) n :
  l = UnsafeTicketLock_new ∨ l = UnsafeTicketLock_new_non_preemtable →
  represents (initial l n) [].
Proof.
  intros Hl.
  assert (current_ticket l = 0 ∧ next_ticket l = 0 ∧ shattered l = false ∧ owner l = NO_OWNER)
    as (Hc & Hn & Hs & Ho) by (destruct Hl as [-> | ->]; done).
  split; cbn [initial fst snd]; rewrite ?Hc, ?Hn, ?Hs, ?Ho; try done.
  - apply NoDup_nil_2.
  - by intros i Hi%not_elem_of_nil.
  - by intros i t [-> _]%lookup_replicate_1 _.
  - by intros i t [-> _]%lookup_replicate_1.
Qed.

Lemma step_length s s' : step s s' → length s'.2 = length s.2.
Proof.
  destruct 1 as [s i _]. unfold run_thread. destruct (s.2 !! i) as [t|]; [|done].
  destruct (lock_step _ _ _ _). cbn. by rewrite length_insert.
Qed.

Lemma reachable_represents l n s :
  (∀ j, core_id j ≠ NO_OWNER) →
  l = UnsafeTicketLock_new ∨ l = UnsafeTicketLock_new_non_preemtable → Z.of_nat n < modulus →
  rtc step (initial l n) s →
  length s.2 = n ∧ ∃ q, represents s q ∧ rtc queue_step [] q.
Proof.
  intros Hcore Hl Hn. revert s. apply rtc_ind_r; [|intros s s' _ Hstep (Hlen & q & Hrep & Hq)].
  - split; [cbn; by rewrite length_replicate|]. exists []. split; [by apply initial_represents|done].
  - split; [rewrite <- Hlen; by apply step_length|].
    destruct Hstep as [s i Hi]. rewrite <- Hlen in Hn.
    destruct (run_thread_simulates s q i Hcore Hrep Hn Hi) as (q' & Hrep' & [-> |Hs]).
    + by exists q.
    + exists q'. split; [done|]. by eapply rtc_r.
Qed.

(** C6: the ticket lock is a first-in first-out queue. Every execution of fewer
    than 2^64 threads is one of the specification, in which a thread joins the
    end of the queue when it takes its ticket and leaves it from the front when
    it unlocks: the state represents the queue, so the thread at place [k] waits
    for the ticket [k] behind the current one, or it is the first and holds the
    lock. *)
Theorem ticket_lock_refines_queue (l : UnsafeTicketLock) (n : nat) (s : State) :
  (∀ j, core_id j ≠ NO_OWNER) →
  l = UnsafeTicketLock_new ∨ l = UnsafeTicketLock_new_non_preemtable → Z.of_nat n < modulus →
  rtc step (initial l n) s →
  ∃ q, rtc queue_step [] q ∧ represents s q ∧
    ∀ i t, s.2 !! i = Some t → holds (at_pc t) = true → ∃ q', q = i :: q'.
Proof.
  intros Hcore Hl Hn Hs.
  destruct (reachable_represents l n s Hcore Hl Hn Hs) as (_ & q & Hrep & Hq).
  exists q. split; [done|]. split; [done|]. intros i t Ht Hh. destruct s as [l' ts].
  by eapply rep_head.
Qed.

(** Mutual exclusion. In every reachable state at most one thread holds the
    lock, the recorded owner is the core of the thread that has the guard, and no
    [unlock] ever panics because the lock is not locked. *)
Theorem ticket_lock_mutual_exclusion (l : UnsafeTicketLock) (n : nat) (s : State) :
  (∀ j, core_id j ≠ NO_OWNER) →
  l = UnsafeTicketLock_new ∨ l = UnsafeTicketLock_new_non_preemtable → Z.of_nat n < modulus →
  rtc step (initial l n) s →
  (∀ i j t u, s.2 !! i = Some t → s.2 !! j = Some u →
     holds (at_pc t) = true → holds (at_pc u) = true → i = j) ∧
  (∀ i t, s.2 !! i = Some t → at_pc t = Held Acquired → owner s.1 = core_id i) ∧
  (∀ i t, s.2 !! i = Some t → at_pc t ≠ AlreadyUnlocked).
Proof.
  intros Hcore Hl Hn Hs.
  destruct (reachable_represents l n s Hcore Hl Hn Hs) as (_ & q & Hrep & _).
  destruct s as [l' ts]. split_and!.
  - intros i j t u Ht Hu Hht Hhu.
    destruct (rep_head _ _ _ _ _ Hrep Ht Hht) as [[q1 ->] _].
    by destruct (rep_head _ _ _ _ _ Hrep Hu Hhu) as [[q2 [= ->]] _].
  - intros i t Ht Hpc. destruct (rep_head _ _ _ _ _ Hrep Ht) as [[q1 ->] _]; [by rewrite Hpc|].
    pose proof (rep_owner _ _ Hrep) as Ho. cbn in Ho, Ht. rewrite Ht, Hpc in Ho. done.
  - apply (rep_alive _ _ Hrep).
Qed.

(** The deadlock panic is raised only for a real deadlock: another thread of
    the same core has the guard. *)
Theorem deadlock_detection_sound (l : UnsafeTicketLock) (n : nat) (s : State) (i : nat)
    (t t' : Thread) (ticket : Z) :
  (∀ j, core_id j ≠ NO_OWNER) →
  l = UnsafeTicketLock_new ∨ l = UnsafeTicketLock_new_non_preemtable → Z.of_nat n < modulus →
  rtc step (initial l n) s → s.2 !! i = Some t → at_pc t ≠ DeadlockDetected ticket →
  (run_thread i s).2 !! i = Some t' → at_pc t' = DeadlockDetected ticket →
  ∃ j u, j ≠ i ∧ s.2 !! j = Some u ∧ owns (at_pc u) = true ∧ core_id j = core_id i.
Proof.
  intros Hcore Hl Hn Hs Ht Hne Ht' Hpc'.
  destruct (reachable_represents l n s Hcore Hl Hn Hs) as (_ & q & Hrep & _).
  destruct s as [l' ts]. rewrite (run_thread_eq _ _ _ _ Ht) in Ht'.
  destruct (lock_step _ _ l' t) as [t1 l1] eqn:Hstep. cbn in Ht, Ht'.
  rewrite list_lookup_insert_eq in Ht' by by eapply lookup_lt_Some. injection Ht' as ->.
  unfold lock_step in Hstep. destruct (at_pc t) as [| |tk|tk|tk| |r| | | | |tk|] eqn:Hpc;
    try (repeat case_match; simplify_eq/=; congruence).
  destruct (_ && _) eqn:H in Hstep; [|by simplify_eq/=]. injection Hstep as <- <-.
  apply andb_true_iff in H as [Hno Hown]. apply negb_true_iff, Z.eqb_neq in Hno.
  apply Z.eqb_eq in Hown. pose proof (rep_owner _ _ Hrep) as Ho. cbn in Ho. unfold owner_of in Ho.
  destruct q as [|j q]; [done|]. destruct (ts !! j) as [u|] eqn:Hu; [|done].
  destruct (owns (at_pc u)) eqn:Hou; [|done]. exists j, u. split; [|split_and!; [done..|congruence]].
  intros ->. rewrite Hu in Ht. injection Ht as ->. by rewrite Hpc in Hou.
Qed.

(** [n] steps of one thread *)
Definition run_alone (i n : nat) (s : State) : State := Nat.iter n (run_thread i) s.

(** The first thread of the queue gets the lock. Once a thread that has taken
    a ticket and did not panic is the first of the queue, at most four of its own
    steps end with the lock held. *)
Theorem ticket_lock_progress (s : State) (q : list nat) (i : nat) (t : Thread) (ticket : Z) :
  represents s (i :: q) → s.2 !! i = Some t → ticket_of (at_pc t) = Some ticket →
  at_pc t ≠ DeadlockDetected ticket →
  ∃ n u, (n ≤ 4)%nat ∧ (run_alone i n s).2 !! i = Some u ∧ at_pc u = Held Acquired.
Proof.
  destruct s as [l ts]. intros Hrep Ht Hticket Halive. cbn in Ht.
  assert (i < length ts)%nat as Hi by by eapply lookup_lt_Some.
  assert (ticket = current_ticket l) as ->.
  { pose proof (rep_in _ _ Hrep 0%nat i t eq_refl Ht) as Hin.
    destruct (holds (at_pc t)) eqn:Hh; [by destruct (at_pc t)|].
    pose proof (rep_current _ _ Hrep). cbn [fst snd] in *. rewrite Z.add_0_r, Z.mod_small in Hin by done.
    congruence. }
  assert (Hstep : ∀ t, at_pc t = Waiting (current_ticket l) ∨ at_pc t = Spinning (current_ticket l) ∨
      at_pc t = CheckOwner (current_ticket l) ∨ at_pc t = SetOwner → ∀ ts, (i < length ts)%nat →
    ts !! i = Some t → owner l = NO_OWNER →
    (run_thread i (l, ts)).1 = (if holds (at_pc t) then set_owner (core_id i) l else l) ∧
    length (run_thread i (l, ts)).2 = length ts ∧
    (run_thread i (l, ts)).2 !! i = Some (go (match at_pc t with
      | CheckOwner k => Spinning k | Spinning k => Waiting k | Waiting _ => SetOwner
      | _ => Held Acquired end) t)).
  { intros u Hu ts' Hi' Hts Ho. rewrite (run_thread_eq _ _ _ _ Hts). unfold lock_step.
    destruct Hu as [-> |[-> |[-> | ->]]]; cbn [holds]; rewrite ?Z.eqb_refl, ?Ho; cbn;
      rewrite ?length_insert, list_lookup_insert_eq by done; done. }
  assert (Ho : owner l = NO_OWNER).
  { pose proof (rep_owner _ _ Hrep) as Ho. cbn in Ho. rewrite Ht in Ho.
    rewrite Ho. by destruct (at_pc t). }
  assert (Hgo : ∀ n u ts, (i < length ts)%nat → ts !! i = Some u →
    match at_pc u with
    | CheckOwner k => k = current_ticket l ∧ n = 4%nat
    | Spinning k => k = current_ticket l ∧ n = 3%nat
    | Waiting k => k = current_ticket l ∧ n = 2%nat
    | SetOwner => n = 1%nat
    | _ => False
    end → ∃ v, (run_alone i n (l, ts)).2 !! i = Some v ∧ at_pc v = Held Acquired).
  { induction n as [|n IH]; intros u ts' Hi' Hu Hpc.
    { destruct (at_pc u); naive_solver lia. }
    unfold run_alone. rewrite Nat.iter_succ_r.
    destruct (Hstep u) with (ts:=ts') as (Hl & Hlen & Hlook); [|done..|].
    { destruct (at_pc u); naive_solver. }
    destruct (run_thread i (l, ts')) as [l1 ts1]. cbn [fst snd] in *.
    destruct (at_pc u) eqn:Hpcu; try done; cbn [holds] in Hl; subst l1.
    - destruct Hpc as [-> [= ->]]. by eapply IH; [rewrite Hlen|exact Hlook|].
    - destruct Hpc as [-> [= ->]]. by eapply IH; [rewrite Hlen|exact Hlook|].
    - destruct Hpc as [-> [= ->]]. by eapply IH; [rewrite Hlen|exact Hlook|].
    - injection Hpc as ->. cbn. eexists. split; [exact Hlook|done]. }
  destruct (at_pc t) as [| |tk|tk|tk| |r| | | | |tk|] eqn:Hpc; try done; injection Hticket as ->.
  - destruct (Hgo 2%nat t ts Hi Ht) as (v & ? & ?); [by rewrite Hpc|]. exists 2%nat, v. split; [lia|done].
  - destruct (Hgo 4%nat t ts Hi Ht) as (v & ? & ?); [by rewrite Hpc|]. exists 4%nat, v. split; [lia|done].
  - destruct (Hgo 3%nat t ts Hi Ht) as (v & ? & ?); [by rewrite Hpc|]. exists 3%nat, v. split; [lia|done].
  - by destruct Halive.
Qed.
End system.

(** ** The theorems at work on three threads on three cores *)

Definition demo_cores (i : nat) : Z := Z.of_nat (i mod 3).
Definition no_interrupts (i : nat) : bool := false.

(** The threads run in the order of the list. *)
Definition schedule (order : list nat) (s : State) : State :=
  foldl (λ s i, run_thread demo_cores no_interrupts i s) s order.

Lemma schedule_reachable order : ∀ s,
  Forall (λ i, (i < length s.2)%nat) order →
  rtc (step demo_cores no_interrupts) s (schedule order s).
Proof.
  induction order as [|i order IH]; intros s; [done|]. intros [Hi His]%Forall_cons.
  assert (step demo_cores no_interrupts s (run_thread demo_cores no_interrupts i s)) as Hs by done.
  eapply rtc_l; [exact Hs|]. apply IH. by rewrite (step_length _ _ _ _ Hs).
Qed.

(** Thread 1 holds the lock, threads 0 and 2 wait. *)
Definition demo_state : State :=
  schedule [1; 1; 0; 0; 1; 1; 2; 2; 0; 0; 0]%nat (initial UnsafeTicketLock_new 3).

Lemma demo_reachable :
  rtc (step demo_cores no_interrupts) (initial UnsafeTicketLock_new 3) demo_state.
Proof. apply schedule_reachable. repeat constructor. Qed.

Lemma demo_cores_ok j : demo_cores j ≠ NO_OWNER.
Proof. unfold demo_cores, NO_OWNER. pose proof (Nat.mod_upper_bound j 3). lia. Qed.

Lemma ticket_lock_refines_queue_witness :
  ∃ q', rtc queue_step [] (1%nat :: q') ∧ represents demo_cores demo_state (1%nat :: q').
Proof.
  destruct (ticket_lock_refines_queue demo_cores no_interrupts UnsafeTicketLock_new 3 demo_state
    demo_cores_ok (or_introl eq_refl) eq_refl demo_reachable) as (q & Hq & Hrep & Hhead).
  destruct (Hhead 1%nat (mkThread (Held Acquired) 1) eq_refl eq_refl) as [q' ->].
  by exists q'.
Defined.

Lemma ticket_lock_mutual_exclusion_witness :
  demo_state.2 !! 1%nat = Some (mkThread (Held Acquired) 1) ∧ owner demo_state.1 = 1.
Proof.
  destruct (ticket_lock_mutual_exclusion demo_cores no_interrupts UnsafeTicketLock_new 3 demo_state
    demo_cores_ok (or_introl eq_refl) eq_refl demo_reachable) as (_ & Hown & _).
  split; [reflexivity|]. rewrite (Hown 1%nat (mkThread (Held Acquired) 1)); reflexivity.
Defined.

(** Thread 3 runs on the core of thread 0, which holds the lock. *)
Definition deadlock_state : State :=
  schedule [0; 0; 0; 0; 3; 3; 3]%nat (initial UnsafeTicketLock_new 4).

Lemma deadlock_detection_sound_witness :
  ∃ j u, j ≠ 3%nat ∧ deadlock_state.2 !! j = Some u ∧ owns (at_pc u) = true ∧
    demo_cores j = demo_cores 3.
Proof.
  apply (deadlock_detection_sound demo_cores no_interrupts UnsafeTicketLock_new 4 deadlock_state 3
    (mkThread (CheckOwner 1) 1) (mkThread (DeadlockDetected 1) 1) 1 demo_cores_ok
    (or_introl eq_refl) eq_refl); try reflexivity; [|discriminate].
  apply schedule_reachable. repeat constructor.
Defined.

(** Thread 0 holds the lock and unlocks it, thread 1 is next. *)
Definition handover_state : State :=
  schedule [0; 0; 1; 1; 1; 0; 0; 0; 0; 0]%nat (initial UnsafeTicketLock_new 2).

Lemma handover_represents : represents demo_cores handover_state [1%nat].
Proof.
  assert (rtc (step demo_cores no_interrupts) (initial UnsafeTicketLock_new 2) handover_state) as Hs
    by (apply schedule_reachable; repeat constructor).
  destruct (reachable_represents demo_cores no_interrupts UnsafeTicketLock_new 2 handover_state
    demo_cores_ok (or_introl eq_refl) eq_refl Hs) as (_ & q & Hrep & _).
  assert (handover_state = (mkTicketLock 1 2 false NO_OWNER true,
    [mkThread Idle 0; mkThread (CheckOwner 1) 1])) as Heq by (vm_compute; reflexivity).
  rewrite Heq in *. pose proof (rep_next _ _ _ Hrep) as Hn. cbn in Hn.
  pose proof (queue_length q 2 (rep_nodup _ _ _ Hrep) (rep_threads _ _ _ Hrep)) as Hlen.
  destruct (rep_elem _ _ _ _ 1%nat (mkThread (CheckOwner 1) 1) Hrep eq_refl) as [k Hk];
    [right; by eexists|].
  destruct q as [|j [|j' [|]]]; try done; [|cbn in Hlen; lia].
  destruct k as [|k]; [by injection Hk as ->|done].
Qed.

Lemma ticket_lock_progress_witness :
  ∃ n u, (n ≤ 4)%nat ∧
    (run_alone demo_cores no_interrupts 1 n handover_state).2 !! 1%nat = Some u ∧
    at_pc u = Held Acquired.
Proof.
  apply (ticket_lock_progress demo_cores no_interrupts handover_state [] 1 (mkThread (CheckOwner 1) 1) 1
    handover_represents); [reflexivity|reflexivity|discriminate].
Defined.

(** After the lock was shattered, [lock] returns at once without [s_enter_lock], but
    dropping the guard calls [s_exit_lock] and takes the lock's next ticket. *)
Lemma shattered_guard_exits_without_enter :
  schedule [0; 0; 0; 0; 0]%nat
    (initial (UnsafeTicketLock_shatter_permanent UnsafeTicketLock_new) 1) =
  (mkTicketLock 1 0 true NO_OWNER true, [mkThread Idle (-1)]).
Proof. vm_compute. reflexivity. Qed.
