(* ===== verification/RwCell.v ===== *)
(** * [libs/shared/src/sync/lockcell.rs]: the read-write cell

    [ReadWriteCell] as a program for any number of threads, one step per access to
    the atomic counter, and the [UnwrapLock] around it. The data behind the cell
    does not matter for the protocol and is left out. *)

From S2P Require Import Prelude.
Local Open Scope Z_scope.

Definition i64_max : Z := 9223372036854775807.

Record ReadWriteCell := mkCell { access_count : Z; rw_preemtable : bool }.

Definition ReadWriteCell_new : ReadWriteCell := mkCell 0 true.
Definition ReadWriteCell_new_non_preemtable : ReadWriteCell := mkCell 0 false.
Definition set_count (n : Z) (c : ReadWriteCell) : ReadWriteCell := mkCell n (rw_preemtable c).

Definition ReadWriteCell_open_to_read (c : ReadWriteCell) : bool := access_count c >=? 0.
Definition ReadWriteCell_is_unlocked (c : ReadWriteCell) : bool := access_count c =? 0.

(** [compare_exchange]: the new value of the cell, or the current count *)
Definition compare_exchange (current new : Z) (c : ReadWriteCell) : ReadWriteCell + Z :=
  if access_count c =? current then inl (set_count new c) else inr (access_count c).

Inductive rw_pc :=
  | RwIdle
  (** in [read], with the last count that was loaded *)
  | ReadLoop (cur_count : Z)
  (** [read] has returned a guard *)
  | Reading
  (** in [lock], before [compare_exchange(0, -1)] *)
  | WriteLoop
  (** [lock] has returned a guard *)
  | Writing
  | RwUsedInInterrupt
  (** a failed assertion or an overflow *)
  | RwPanicked.

Section thread.
Context (in_interrupt : bool).
(** The cell is inside of an [UnwrapLock], whose [release_read] calls
    [force_release_read], which it does not implement. *)
Context (unwrap : bool).

(** An idle thread starts to read or to write. *)
Definition rw_step (write : bool) (c : ReadWriteCell) (p : rw_pc) : rw_pc * ReadWriteCell :=
  match p with
  | RwIdle =>
      if write then
        if rw_preemtable c && in_interrupt then (RwUsedInInterrupt, c) else (WriteLoop, c)
      else (ReadLoop (access_count c), c)
  | ReadLoop cur_count =>
      if cur_count <? 0 then (ReadLoop (access_count c), c)
      else if cur_count >=? i64_max then (RwPanicked, c)
      else
        match compare_exchange cur_count (cur_count + 1) c with
        | inl c => (Reading, c)
        | inr new_current => (ReadLoop new_current, c)
        end
  | Reading =>
      if unwrap then (RwIdle, c)
      else
        let previous_count := access_count c in
        let c := set_count (previous_count - 1) c in
        (if previous_count >=? 1 then RwIdle else RwPanicked, c)
  | WriteLoop =>
      match compare_exchange 0 (-1) c with
      | inl c => (Writing, c)
      | inr _ => (WriteLoop, c)
      end
  | Writing =>
      let old_lock_value := access_count c in
      let c := set_count 0 c in
      (if old_lock_value =? -1 then RwIdle else RwPanicked, c)
  | RwUsedInInterrupt | RwPanicked => (p, c)
  end.
End thread.

Section system.
Context (in_interrupt : nat → bool) (unwrap : bool).

Definition RwState : Type := ReadWriteCell * list rw_pc.

Definition rw_run (i : nat) (write : bool) (s : RwState) : RwState :=
  match s.2 !! i with
  | Some p => let '(p, c) := rw_step (in_interrupt i) unwrap write s.1 p in (c, <[i:=p]> s.2)
  | None => s
  end.

Inductive rw_next : RwState → RwState → Prop :=
  | rw_thread s i write : (i < length s.2)%nat → rw_next s (rw_run i write s).

Definition rw_initial (c : ReadWriteCell) (n : nat) : RwState := (c, replicate n RwIdle).

Definition is_reading (p : rw_pc) : bool := match p with Reading => true | _ => false end.
Definition is_writing (p : rw_pc) : bool := match p with Writing => true | _ => false end.

Lemma rw_next_length s s' : rw_next s s' → length s'.2 = length s.2.
Proof.
  destruct 1 as [s i w _]. unfold rw_run. destruct (s.2 !! i); [|done].
  destruct (rw_step _ _ _ _ _). cbn. by rewrite length_insert.
Qed.
End system.

(** ** The protocol *)

(** The counter is the number of readers, or -1 while there is the one writer. *)
Record rw_ok (s : RwState) : Prop := {
  rwo_count : access_count s.1 =
    Z.of_nat (count is_reading s.2) - Z.of_nat (count is_writing s.2);
  rwo_writers : (count is_writing s.2 ≤ 1)%nat;
  rwo_exclusive : (1 ≤ count is_writing s.2)%nat → count is_reading s.2 = 0%nat;
  rwo_alive i p : s.2 !! i = Some p → p ≠ RwPanicked;
  rwo_cur i n : s.2 !! i = Some (ReadLoop n) → n ≤ Z.of_nat (length s.2);
}.

Section plain.
Context (in_interrupt : nat → bool).

Local Abbreviation rw_run := (rw_run in_interrupt false).
Local Abbreviation rw_next := (rw_next in_interrupt false).

(** Changing one thread, given the counts it is responsible for *)
Lemma rw_ok_update c c' ps i p p' :
  rw_ok (c, ps) → ps !! i = Some p → p' ≠ RwPanicked →
  (∀ n, p' = ReadLoop n → n ≤ Z.of_nat (length ps)) →
  let ds := ((if is_reading p' then 1 else 0) - (if is_reading p then 1 else 0) : Z) in
  let dw := ((if is_writing p' then 1 else 0) - (if is_writing p then 1 else 0) : Z) in
  access_count c' = access_count c + ds - dw →
  (0 < ds → 0 ≤ access_count c) → (0 < dw → access_count c = 0) →
  rw_ok (c', <[i:=p']> ps).
Proof.
  intros [Hc Hw Hx Ha Hcur] Hp Hp' Hn ds dw Hc' Hds Hdw. cbn [fst snd] in *.
  pose proof (count_insert is_reading ps i p p' Hp) as Hr.
  pose proof (count_insert is_writing ps i p p' Hp) as Hwr.
  unfold ds, dw in *. clear ds dw.
  destruct (is_reading p') eqn:H1, (is_reading p) eqn:H2, (is_writing p') eqn:H3,
    (is_writing p) eqn:H4; try (by destruct p); try (by destruct p');
    (split; cbn [fst snd]; rewrite ?length_insert;
     [lia|lia|lia
     |intros j q [(<- & <- & _)|[_ Hq]]%list_lookup_insert_Some; [done|by eapply Ha]
     |intros j n [(<- & -> & _)|[_ Hq]]%list_lookup_insert_Some; [by apply Hn|by eapply Hcur]]).
Qed.

Lemma rw_run_ok s i write :
  rw_ok s → Z.of_nat (length s.2) < i64_max → rw_ok (rw_run i write s).
Proof.
  destruct s as [c ps]. intros Hok Hlen. unfold RwCell.rw_run. cbn [fst snd] in *.
  destruct (ps !! i) as [p|] eqn:Hp; [|done].
  pose proof Hok as [Hc Hw Hx Ha Hcur]. cbn [fst snd] in *.
  pose proof (count_le is_reading ps) as Hle.
  assert (Hbound : access_count c ≤ Z.of_nat (length ps)) by lia.
  destruct p as [|n| | | | |]; cbn [rw_step].
  - destruct write; [destruct (_ && _)|]; (eapply rw_ok_update; [exact Hok|exact Hp|done| |cbn; lia..]);
      intros n' [=]; by subst.
  - pose proof (Hcur i n Hp). rewrite Z.geb_leb, (proj2 (Z.leb_gt i64_max n)) by lia.
    destruct (Z.ltb_spec n 0).
    + eapply rw_ok_update; [exact Hok|exact Hp|done| |cbn; lia..]. intros n' [=]; by subst.
    + unfold compare_exchange. destruct (Z.eqb_spec (access_count c) n).
      * eapply rw_ok_update; [exact Hok|exact Hp|done|done|cbn; lia..].
      * eapply rw_ok_update; [exact Hok|exact Hp|done| |cbn; lia..]. intros n' [=]; by subst.
  - pose proof (count_elem is_reading ps i Reading Hp eq_refl).
    assert (count is_writing ps = 0%nat) by (destruct (count is_writing ps); [done|lia]).
    rewrite Z.geb_leb, (proj2 (Z.leb_le 1 _)) by lia.
    eapply rw_ok_update; [exact Hok|exact Hp|done|done|cbn; lia..].
  - unfold compare_exchange. destruct (Z.eqb_spec (access_count c) 0).
    + eapply rw_ok_update; [exact Hok|exact Hp|done|done|cbn; lia..].
    + eapply rw_ok_update; [exact Hok|exact Hp|done|done|cbn; lia..].
  - pose proof (count_elem is_writing ps i Writing Hp eq_refl).
    rewrite (proj2 (Z.eqb_eq _ (-1))) by lia.
    eapply rw_ok_update; [exact Hok|exact Hp|done|done|cbn; lia..].
  - by rewrite list_insert_id.
  - by rewrite list_insert_id.
Qed.

Lemma rw_initial_ok c n : access_count c = 0 → rw_ok (rw_initial c n).
Proof.
  intros Hc. split; cbn [rw_initial fst snd]; rewrite ?Hc, ?count_replicate by done; try lia.
  - by intros i p [-> _]%lookup_replicate_1.
  - by intros i p [? _]%lookup_replicate_1.
Qed.

Lemma rw_reachable c n s :
  access_count c = 0 → Z.of_nat n < i64_max → rtc rw_next (rw_initial c n) s →
  length s.2 = n ∧ rw_ok s.
Proof.
  intros Hc Hn. revert s. apply rtc_ind_r; [|intros s s' _ Hs [Hlen Hok]].
  - split; [cbn; by rewrite length_replicate|by apply rw_initial_ok].
  - split; [rewrite <- Hlen; by eapply rw_next_length|].
    destruct Hs as [s i write Hi]. apply rw_run_ok; [done|]. by rewrite Hlen.
Qed.

End plain.

(** ** Reading through an [UnwrapLock] *)

Section unwrapped.
Context (in_interrupt : nat → bool).

(** A read guard of an [UnwrapLock] is never given back. Once a thread has read
    through the wrapper, no thread ever gets the write lock again, whatever the
    threads do and however many guards are dropped. *)
Theorem unwrap_read_blocks_writers (s s' : RwState) :
  1 ≤ access_count s.1 → count is_writing s.2 = 0%nat →
  rtc (rw_next in_interrupt true) s s' →
  1 ≤ access_count s'.1 ∧ ∀ i, s'.2 !! i ≠ Some Writing.
Proof.
  intros Hc Hw Hs.
  enough (1 ≤ access_count s'.1 ∧ count is_writing s'.2 = 0%nat) as [? Hw'].
  { split; [done|]. intros i Hi. by pose proof (count_zero _ _ _ _ Hw' Hi). }
  induction Hs as [s|s s1 s2 Hstep _ IH]; [done|]. apply IH; clear IH s2.
  - destruct Hstep as [[c ps] i write Hi]. unfold rw_run. cbn [fst snd] in *.
    destruct (ps !! i) as [p|] eqn:Hp; [|done]. pose proof (count_zero _ _ _ _ Hw Hp) as Hnw.
    destruct p as [|n| | | | |]; cbn [rw_step] in *; try done.
    + destruct write; [by destruct (_ && _)|done].
    + destruct (_ <? _); [done|]. destruct (_ >=? _); [done|]. unfold compare_exchange.
      destruct (Z.eqb_spec (access_count c) n); cbn; lia.
    + unfold compare_exchange. rewrite (proj2 (Z.eqb_neq _ _)) by lia. done.
  - destruct Hstep as [[c ps] i write Hi]. unfold rw_run. cbn [fst snd] in *.
    destruct (ps !! i) as [p|] eqn:Hp; [|done]. pose proof (count_zero _ _ _ _ Hw Hp) as Hnw.
    destruct (rw_step (in_interrupt i) true write c p) as [p' c'] eqn:Hstep. cbn [snd].
    pose proof (count_insert is_writing ps i p p' Hp) as Hcount.
    assert (is_writing p' = false) as Hp'; [|rewrite Hp', Hnw in Hcount; lia].
    destruct p as [|n| | | | |]; cbn [rw_step] in Hstep; try by simplify_eq/=.
    + destruct write; [destruct (_ && _)|]; by simplify_eq/=.
    + unfold compare_exchange in Hstep. repeat case_match; by simplify_eq/=.
    + unfold compare_exchange in Hstep. rewrite (proj2 (Z.eqb_neq _ _)) in Hstep by lia.
      by simplify_eq/=.
Qed.
End unwrapped.

(** ** The theorems at work *)

Definition rw_schedule (unwrap : bool) (order : list (nat * bool)) (s : RwState) : RwState :=
  foldl (λ s o, rw_run (λ _, false) unwrap o.1 o.2 s) s order.

Lemma rw_schedule_reachable unwrap order : ∀ s,
  Forall (λ o, (o.1 < length s.2)%nat) order →
  rtc (rw_next (λ _, false) unwrap) s (rw_schedule unwrap order s).
Proof.
  induction order as [|o order IH]; intros s; [done|]. intros [Hi His]%Forall_cons.
  assert (rw_next (λ _, false) unwrap s (rw_run (λ _, false) unwrap o.1 o.2 s)) as Hs by done.
  eapply rtc_l; [exact Hs|]. apply IH. by rewrite (rw_next_length _ _ _ _ Hs).
Qed.

(** Thread 0 reads and releases, thread 1 then writes. *)
Definition reader_then_writer : list (nat * bool) :=
  [(0, false); (0, false); (1, true); (1, true); (0, false); (1, true)]%nat.


(** The same program through the wrapper: the reader releases, the writer waits. *)
Lemma unwrap_read_blocks_writers_witness :
  let s := rw_schedule true [(0, false); (0, false); (0, false)]%nat (rw_initial ReadWriteCell_new 2) in
  s = (mkCell 1 true, [RwIdle; RwIdle]) ∧
  ∀ s', rtc (rw_next (λ _, false) true) s s' → ∀ i, s'.2 !! i ≠ Some Writing.
Proof.
  split; [reflexivity|]. intros s' Hs.
  apply (unwrap_read_blocks_writers (λ _, false) _ s') in Hs; [apply Hs|cbn; lia|reflexivity].
Defined.
