(* ===== verification/WrappingValue.v ===== *)
(** * [libs/shared/src/math/mod_group.rs]: numbers that wrap at a modulus

    [WrappingValue] over an unsigned type of any width, which is given by its
    largest value [T_MAX]. The fields of a value are public to the module only, so
    nothing but the callers ensures that the value is below the modulus. *)

From S2P Require Import Prelude.
Local Open Scope Z_scope.

Record WrappingValue := mkWrapping { wv_value : Z; wv_modulo : Z }.

#[export] Instance WrappingValue_eq_dec : EqDecision WrappingValue.
Proof. solve_decision. Defined.

Definition WrappingValue_zero (modulo : Z) : WrappingValue := mkWrapping 0 modulo.
Definition WrappingValue_new (value modulo : Z) : WrappingValue := mkWrapping value modulo.

Section width.
Context (T_MAX : Z).

(** [CheckedAdd], [CheckedSub] and [Rem] of an unsigned integer *)
Definition checked_add_w (a b : Z) : option Z := if a + b <=? T_MAX then Some (a + b) else None.
Definition checked_sub_w (a b : Z) : option Z := if b <=? a then Some (a - b) else None.
Definition rem_w {E} (a b : Z) : result E Z := if b =? 0 then Panic else Ok (a mod b).

Definition WrappingValue_max {E} (self : WrappingValue) : result E Z :=
  expect (checked_sub_w (wv_modulo self) 1).

(** [impl Add<T> for WrappingValue<T>] *)
Definition WrappingValue_add {E} (self : WrappingValue) (rhs : Z) : result E WrappingValue :=
  value ← match checked_add_w (wv_value self) rhs with
          | Some value => rem_w value (wv_modulo self)
          | None =>
              to_modulo ← expect (checked_sub_w (wv_modulo self) (wv_value self));
              d ← expect (checked_sub_w rhs to_modulo);
              rem_w d (wv_modulo self)
          end;
  mret (mkWrapping value (wv_modulo self)).

(** [impl Ord for WrappingValue<T>] *)
Definition WrappingValue_cmp (self other : WrappingValue) : comparison :=
  Z.compare (wv_value self) (wv_value other).

(** Adding to a [WrappingValue] is addition modulo the modulus, also when the
    sum does not fit into the type. It panics exactly when the modulus is 0, or
    when the sum does not fit and the value was above the modulus. *)
Theorem WrappingValue_add_spec {E} (self : WrappingValue) (rhs : Z) :
  0 ≤ wv_value self ≤ T_MAX → 0 ≤ wv_modulo self ≤ T_MAX → 0 ≤ rhs ≤ T_MAX →
  WrappingValue_add (E:=E) self rhs =
    if bool_decide (wv_modulo self = 0 ∨
                    wv_modulo self < wv_value self ∧ T_MAX < wv_value self + rhs)
    then Panic
    else Ok (mkWrapping ((wv_value self + rhs) mod wv_modulo self) (wv_modulo self)).
Proof.
  destruct self as [v m]. cbn. intros Hv Hm Hr.
  unfold WrappingValue_add, checked_add_w, rem_w. cbn [wv_value wv_modulo].
  case_bool_decide as Hpanic.
  - destruct (Z.leb_spec (v + rhs) T_MAX).
    + destruct (Z.eqb_spec m 0); [done|lia].
    + unfold checked_sub_w. destruct (Z.leb_spec v m); [|done]. lia.
  - assert (m ≠ 0) by lia.
    destruct (Z.leb_spec (v + rhs) T_MAX).
    + destruct (Z.eqb_spec m 0); [lia|done].
    + unfold checked_sub_w. destruct (Z.leb_spec v m); [|lia]. cbn.
      destruct (Z.leb_spec (m - v) rhs); [|lia]. cbn.
      destruct (Z.eqb_spec m 0); [lia|]. cbn. do 2 f_equal.
      replace (rhs - (m - v)) with (v + rhs + (-1) * m) by lia.
      by apply Z.mod_add.
Qed.
End width.

(** The sums of the module's unit tests that leave the range of [u8] *)
Lemma WrappingValue_add_spec_witness :
  WrappingValue_add (E:=unit) 255 (mkWrapping 4 5) 255 = Ok (mkWrapping 4 5) ∧
  WrappingValue_add (E:=unit) 255 (mkWrapping 4 5) 254 = Ok (mkWrapping 3 5).
Proof.
  split.
  - rewrite (WrappingValue_add_spec 255 (mkWrapping 4 5) 255); [reflexivity|cbn; lia..].
  - rewrite (WrappingValue_add_spec 255 (mkWrapping 4 5) 254); [reflexivity|cbn; lia..].
Defined.

(** The case the indices of a ring need *)
Lemma WrappingValue_add_one {E} T_MAX v m :
  0 ≤ v < m → m ≤ T_MAX →
  WrappingValue_add (E:=E) T_MAX (mkWrapping v m) 1 = Ok (mkWrapping ((v + 1) mod m) m).
Proof.
  intros Hv Hm. unfold WrappingValue_add, checked_add_w, rem_w. cbn [wv_value wv_modulo].
  destruct (Z.leb_spec (v + 1) T_MAX); [|lia]. by destruct (Z.eqb_spec m 0); [lia|].
Qed.
