(* ===== verification/Bits.v ===== *)
(** * Bits of a word and enums of bytes

    The bit ranges of a word are read and written with the crate [bit_field]; the class
    [BitField] states what its documentation says. The derive macro [U8Enum] is the
    class of that name. *)

From S2P Require Import Prelude.
Local Open Scope Z_scope.

(** ** Bits of a word *)

(** [get_bits(first..=last)], [set_bits(first..=last, value)], [get_bit(i)] and
    [set_bit(i, b)]; [set_bits] panics when the value does not fit into the range. *)
Class BitField := {
  get_bits : Z → Z → Z → Z;
  set_bits : ∀ {E}, Z → Z → Z → Z → result E Z;
  get_bit : Z → Z → bool;
  set_bit : Z → Z → bool → Z;
  get_bits_spec self first last : 0 ≤ first ≤ last →
    get_bits self first last = (self / 2 ^ first) mod 2 ^ (last - first + 1);
  set_bits_spec E self first last value : 0 ≤ first ≤ last → 0 ≤ self →
    0 ≤ value < 2 ^ (last - first + 1) →
    set_bits (E:=E) self first last value =
      Ok (self - get_bits self first last * 2 ^ first + value * 2 ^ first);
  get_bit_spec self i : 0 ≤ i → get_bit self i = Z.testbit self i;
  set_bit_spec self i b : 0 ≤ i → 0 ≤ self →
    set_bit self i b = self - get_bits self i i * 2 ^ i + Z.b2z b * 2 ^ i;
}.

(** [TryFrom<u8>] of a fieldless enum with the discriminant [disc] *)
Class U8Enum {A} (disc : A → Z) := {
  try_from : Z → option A;
  try_from_spec c a : try_from c = Some a ↔ disc a = c;
}.

(** [ilog2] of an unsigned integer *)
Definition ilog2 {E} (v : Z) : result E Z := if v <=? 0 then Panic else Ok (Z.log2 v).

(** ** Reading back what was written *)

Section bits_lemmas.
Context `{BF : BitField}.

Lemma get_bits_testbit x l h i : 0 ≤ l ≤ h → 0 ≤ i →
  Z.testbit (get_bits x l h) i = (i <=? h - l) && Z.testbit x (i + l).
Proof.
  intros Hlh Hi. rewrite get_bits_spec by done.
  destruct (Z.leb_spec i (h - l)); cbn.
  - rewrite Z.mod_pow2_bits_low by lia. by rewrite Z.div_pow2_bits by lia.
  - by rewrite Z.mod_pow2_bits_high by lia.
Qed.

Lemma set_bits_testbit {E} x l h v y i : 0 ≤ l ≤ h → 0 ≤ x → 0 ≤ v < 2 ^ (h - l + 1) → 0 ≤ i →
  set_bits (E:=E) x l h v = Ok y →
  Z.testbit y i = if (l <=? i) && (i <=? h) then Z.testbit v (i - l) else Z.testbit x i.
Proof.
  intros Hlh Hx Hv Hi Hset. rewrite set_bits_spec in Hset by done. injection Hset as <-.
  rewrite get_bits_spec by done. set (k := h - l + 1) in *.
  assert (0 < 2 ^ l) by (apply Z.pow_pos_nonneg; lia).
  assert (0 < 2 ^ k) by (apply Z.pow_pos_nonneg; lia).
  replace (x - (x / 2 ^ l) mod 2 ^ k * 2 ^ l + v * 2 ^ l)
    with (x + (v - (x / 2 ^ l) mod 2 ^ k) * 2 ^ l) by lia.
  destruct (Z.leb_spec l i) as [Hl|Hl]; cbn.
  - rewrite <- (Z.sub_add l i) at 1. rewrite <- (Z.sub_add l i) at 4.
    rewrite <- !Z.div_pow2_bits by lia. rewrite Z.div_add by lia. set (q := x / 2 ^ l).
    replace (q + (v - q mod 2 ^ k)) with (v + q / 2 ^ k * 2 ^ k)
      by (pose proof (Z.div_mod q (2 ^ k)); lia).
    destruct (Z.leb_spec i h) as [Hh|Hh].
    + rewrite <- (Z.mod_pow2_bits_low _ k) by lia. rewrite Z.mod_add, Z.mod_small by lia. done.
    + replace (i - l) with (i - l - k + k) by lia. rewrite <- !Z.div_pow2_bits by lia.
      rewrite Z.div_add, Z.div_small by lia. done.
  - rewrite <- (Z.mod_pow2_bits_low _ l) by lia. rewrite Z.mod_add by lia.
    by rewrite Z.mod_pow2_bits_low by lia.
Qed.

Lemma get_set_same {E} x l h v y : 0 ≤ l ≤ h → 0 ≤ x → 0 ≤ v < 2 ^ (h - l + 1) →
  set_bits (E:=E) x l h v = Ok y → get_bits y l h = v.
Proof.
  intros Hlh Hx Hv Hset. apply Z.bits_inj'. intros i Hi.
  rewrite get_bits_testbit, (set_bits_testbit x l h v y (i + l)) by (done || lia).
  destruct (Z.leb_spec i (h - l)); cbn.
  - destruct (Z.leb_spec l (i + l)); [|lia]. destruct (Z.leb_spec (i + l) h); [|lia]. cbn.
    f_equal. lia.
  - symmetry. destruct (decide (v = 0)) as [->|]; [apply Z.bits_0|].
    apply Z.bits_above_log2; [lia|]. apply Z.lt_le_trans with (h - l + 1); [|lia].
    apply Z.log2_lt_pow2; lia.
Qed.

Lemma get_set_other {E} x l h v y l' h' : 0 ≤ l ≤ h → 0 ≤ x → 0 ≤ v < 2 ^ (h - l + 1) →
  0 ≤ l' ≤ h' → h' < l ∨ h < l' →
  set_bits (E:=E) x l h v = Ok y → get_bits y l' h' = get_bits x l' h'.
Proof.
  intros Hlh Hx Hv Hlh' Hdisj Hset. apply Z.bits_inj'. intros i Hi.
  rewrite !get_bits_testbit, (set_bits_testbit x l h v y (i + l')) by (done || lia).
  destruct (Z.leb_spec i (h' - l')); [cbn|done].
  destruct (Z.leb_spec l (i + l')), (Z.leb_spec (i + l') h); done || lia.
Qed.

Lemma set_bits_Ok {E} x l h v : 0 ≤ l ≤ h → 0 ≤ x → 0 ≤ v < 2 ^ (h - l + 1) →
  ∃ y, set_bits (E:=E) x l h v = Ok y ∧ 0 ≤ y.
Proof.
  intros Hlh Hx Hv. rewrite set_bits_spec by done. eexists. split; [done|].
  rewrite get_bits_spec by done.
  assert (0 < 2 ^ l) by (apply Z.pow_pos_nonneg; lia).
  assert (0 < 2 ^ (h - l + 1)) by (apply Z.pow_pos_nonneg; lia).
  assert ((x / 2 ^ l) mod 2 ^ (h - l + 1) ≤ x / 2 ^ l)
    by (apply Z.mod_le; [apply Z.div_pos|]; lia).
  pose proof (Z.mul_div_le x (2 ^ l)). nia.
Qed.
End bits_lemmas.

(** ** Bytes, the least significant one first *)

Fixpoint le_bytes (n : nat) (v : Z) : list Z :=
  match n with O => [] | S n => v mod 256 :: le_bytes n (v / 256) end.
Fixpoint le_val (l : list Z) : Z := match l with [] => 0 | b :: l => b + 256 * le_val l end.
Definition slice (off len : nat) (l : list Z) : list Z := take len (drop off l).

Lemma le_bytes_length n v : length (le_bytes n v) = n.
Proof. revert v. induction n; intros v; cbn; auto. Qed.

Lemma le_roundtrip n v : 0 ≤ v < 256 ^ Z.of_nat n → le_val (le_bytes n v) = v.
Proof.
  revert v. induction n as [|n IH]; intros v Hv; cbn [le_bytes le_val]; [cbn in Hv; lia|].
  rewrite Nat2Z.inj_succ, Z.pow_succ_r in Hv by lia. rewrite IH.
  - pose proof (Z.div_mod v 256). lia.
  - split; [apply Z.div_pos; lia|]. apply Z.div_lt_upper_bound; lia.
Qed.

Lemma slice_head len a l : length a = len → slice 0 len (a ++ l) = a.
Proof. intros <-. unfold slice. rewrite drop_0. by apply take_app_length. Qed.
Lemma slice_skip off len a l : (length a ≤ off)%nat → slice off len (a ++ l) = slice (off - length a) len l.
Proof. intros Ho. unfold slice. by rewrite drop_app_ge. Qed.

(** Reads a field out of a list of fields of known lengths. *)
Ltac byte_len := rewrite ?le_bytes_length; first [eassumption | reflexivity | lia].
Ltac byte_fields :=
  repeat first
    [ rewrite slice_head by byte_len
    | rewrite slice_skip by byte_len;
      match goal with |- context [slice (?o - length ?a)%nat _ _] =>
        first [ rewrite (le_bytes_length _ _)
              | match goal with H : length a = _ |- _ => rewrite H end ]; cbn [Nat.sub] end ].

(** ** The documented bit operations *)

#[export] Instance bit_field : BitField.
Proof.
  refine {|
    get_bits self first last := (self / 2 ^ first) mod 2 ^ (last - first + 1);
    set_bits E self first last value :=
      if (value <? 2 ^ (last - first + 1)) then
        Ok (self - (self / 2 ^ first) mod 2 ^ (last - first + 1) * 2 ^ first + value * 2 ^ first)
      else Panic;
    get_bit self i := Z.testbit self i;
    set_bit self i b := self - (self / 2 ^ i) mod 2 ^ (i - i + 1) * 2 ^ i + Z.b2z b * 2 ^ i |}.
  - done.
  - intros E self first last value _ _ Hv. by destruct (Z.ltb_spec value (2 ^ (last - first + 1))); [|lia].
  - done.
  - done.
Defined.
