(* ===== verification/NvmePrp.v ===== *)
(** * [wasabi-kernel/src/pci/nvme/prp.rs]: physical region page entries and lists

    A [PrpEntry] is the address of a frame with an offset. [PrpList_new] writes a
    list of entries into freshly mapped pages that are chained through their last
    slot. The memory of the frames is a map from frames to 512 entries; the
    allocator of mappings is a parameter, as in the source. *)

From stdpp Require Import propset.
From S2P Require Import Prelude.
Local Open Scope Z_scope.

Definition PAGE_SIZE : Z := 4096.
Definition PAGE_ENTRY_COUNT : nat := 512.

(** A [PhysFrame] and a [Page] are their start addresses. *)
Abbreviation PhysFrame := Z (only parsing).
Abbreviation Page := Z (only parsing).

Abbreviation PrpEntry := Z (only parsing).

Inductive PrpEntryError := NotDwordAligned | OffsetToLarge.

Definition PrpEntry_new (frame : PhysFrame) : PrpEntry := frame.
Definition PrpEntry_zero : PrpEntry := PrpEntry_new 0.

Definition PrpEntry_with_offset (frame : PhysFrame) (offset : Z) : result PrpEntryError PrpEntry :=
  if offset >=? PAGE_SIZE then Err OffsetToLarge
  else if negb (Z.land offset 3 =? 0) then Err NotDwordAligned
  else Ok (Z.lor frame offset).

Definition PrpEntry_offset (self : PrpEntry) : Z := Z.land self (PAGE_SIZE - 1).

Section address.
(** [PhysFrame::containing_address] of the crate [x86_64] *)
Context (containing_address : Z → PhysFrame).

Definition PrpEntry_frame (self : PrpEntry) : PhysFrame := containing_address self.

Definition PrpEntry_try_from (value : Z) : result PrpEntryError PrpEntry :=
  let frame := containing_address value in
  PrpEntry_with_offset frame (value - frame).
End address.

(** ** Lists *)

Record PrpList := mkPrpList {
  first_entry : PrpEntry;
  prp_list_frame : PrpEntry;
  pl_mappings : list (Page * PhysFrame);
  entry_count : nat;
}.

Inductive Prp :=
  | Prp_List (l : PrpList)
  | Prp_Entry (e : PrpEntry)
  | Prp_DoubleEntry (e1 e2 : PrpEntry).

Definition Prp_entry_1 (self : Prp) : PrpEntry :=
  match self with
  | Prp_List l => first_entry l
  | Prp_Entry e => e
  | Prp_DoubleEntry e1 _ => e1
  end.
Definition Prp_entry_2 (self : Prp) : PrpEntry :=
  match self with
  | Prp_List l => prp_list_frame l
  | Prp_Entry _ => PrpEntry_zero
  | Prp_DoubleEntry _ e2 => e2
  end.
Definition Prp_mappings (self : Prp) : list (Page * PhysFrame) :=
  match self with
  | Prp_List l => pl_mappings l
  | Prp_Entry _ | Prp_DoubleEntry _ _ => []
  end.

Abbreviation Memory := (gmap PhysFrame (list PrpEntry)).

Section list.
Context {A MemError : Type}.
(** The closure [alloc_mapping] and [Vec::try_reserve] for one more mapping *)
Context (alloc_mapping : M A MemError (Page * PhysFrame)) (try_reserve : nat → result MemError unit).

Local Abbreviation S := (A * Memory)%type.

(** [prp_page[i]], a slot of a mapped page *)
Definition read_slot (f : PhysFrame) (i : nat) : M S MemError PrpEntry := λ s,
  (page ← expect (s.2 !! f); vec_get page i, s).
Definition write_slot (f : PhysFrame) (i : nat) (e : PrpEntry) : M S MemError unit := λ s,
  match page ← expect (s.2 !! f); vec_set i e page with
  | Ok page => (Ok tt, (s.1, <[f:=page]> s.2))
  | Err e => (Err e, s)
  | Panic => (Panic, s)
  | Hang => (Hang, s)
  end.

(** Another page for the list *)
Definition alloc_page (mappings : list (Page * PhysFrame))
    : M S MemError (PhysFrame * list (Page * PhysFrame)) :=
  '(page, frame) ← on_fst alloc_mapping;
  _ ← lift (try_reserve (length mappings));
  mret (frame, mappings ++ [(page, frame)]).

(** A full page: its last entry moves to the first slot of a new page, to which
    the last slot then points. *)
Definition next_page (prp_page : PhysFrame) (mappings : list (Page * PhysFrame))
    : M S MemError (PhysFrame * list (Page * PhysFrame)) :=
  '(frame, mappings) ← alloc_page mappings;
  last_entry ← read_slot prp_page (PAGE_ENTRY_COUNT - 1);
  _ ← write_slot prp_page (PAGE_ENTRY_COUNT - 1) (PrpEntry_new frame);
  _ ← write_slot frame 0 last_entry;
  mret (frame, mappings).

Fixpoint fill_pages (entries : list PrpEntry) (prp_page : PhysFrame) (entries_in_page : nat)
    (mappings : list (Page * PhysFrame)) : M S MemError (list (Page * PhysFrame)) :=
  match entries with
  | [] => mret mappings
  | entry :: entries =>
      _ ← lift (assert_ (PrpEntry_offset entry =? 0));
      '(prp_page, entries_in_page, mappings) ←
        (if bool_decide (entries_in_page = PAGE_ENTRY_COUNT) then
           '(frame, mappings) ← next_page prp_page mappings;
           mret (frame, 1%nat, mappings)
         else mret (prp_page, entries_in_page, mappings));
      _ ← write_slot prp_page entries_in_page entry;
      fill_pages entries prp_page (entries_in_page + 1) mappings
  end.

Definition PrpList_new (entries : list PrpEntry) : M S MemError PrpList :=
  _ ← lift (assert_ (bool_decide (3 ≤ length entries)%nat));
  '(frame, mappings) ← alloc_page [];
  match entries with
  | [] => lift Panic
  | first :: rest =>
      mappings ← fill_pages rest frame 0 mappings;
      mret (mkPrpList first (PrpEntry_new frame) mappings (length entries))
  end.
End list.

(** ** What the controller reads

    The controller knows the number of entries. When they do not fit into the
    page, its last slot points to the page that continues the list. *)
Fixpoint prp_read (fuel : nat) (mem : Memory) (frame : PhysFrame) (n : nat)
    : option (list PrpEntry) :=
  match fuel with
  | O => None
  | S fuel =>
      page ← mem !! frame;
      if bool_decide (n ≤ PAGE_ENTRY_COUNT)%nat then Some (take n page)
      else
        next ← page !! (PAGE_ENTRY_COUNT - 1)%nat;
        rest ← prp_read fuel mem next (n - (PAGE_ENTRY_COUNT - 1))%nat;
        Some (take (PAGE_ENTRY_COUNT - 1) page ++ rest)
  end.

(** ** Correctness of the lists *)

Section list_spec.
Context {A MemError : Type}.
Context (alloc_mapping : M A MemError (Page * PhysFrame)) (try_reserve : nat → result MemError unit).

(** The frames the allocator can still hand out, its invariant for the mappings it
    handed out, and when it panics. A call hands out a mapping to one of the frames, or
    reports an error. *)
Context (owned : A → propset PhysFrame) (inv : list (Page * PhysFrame) → A → Prop) (pan : Prop).
Hypothesis alloc_mapping_spec : ∀ held a, inv held a →
  runs alloc_mapping pan (λ _ a', inv held a' ∧ owned a' ⊆ owned a)
    (λ pf a', inv (held ++ [pf]) a' ∧ pf.2 ∈ owned a ∧ pf.2 ∉ owned a' ∧ owned a' ⊆ owned a) a.
Hypothesis try_reserve_spec : ∀ n, try_reserve n ≠ Panic ∧ try_reserve n ≠ Hang.

(** Every frame the allocator owns is mapped to a page. *)
Definition frames_mapped (fs : propset PhysFrame) (mem : Memory) : Prop :=
  ∀ f, f ∈ fs → ∃ page, mem !! f = Some page ∧ length page = PAGE_ENTRY_COUNT.

(** Pages of the memory that stay pages *)
Definition keeps_pages (mem mem' : Memory) : Prop :=
  ∀ g page, mem !! g = Some page → ∃ page', mem' !! g = Some page' ∧ length page' = length page.

#[export] Instance keeps_pages_preorder : PreOrder keeps_pages.
Proof.
  split.
  - intros mem g page Hg. by exists page.
  - intros m1 m2 m3 H12 H23 g page Hg. destruct (H12 g page Hg) as (pg & Hpg & <-). by apply H23.
Qed.

Lemma keeps_pages_write mem f i e page : mem !! f = Some page → keeps_pages mem (<[f:=<[i:=e]> page]> mem).
Proof.
  intros Hf g pg Hg. destruct (decide (g = f)) as [->|].
  - rewrite lookup_insert_eq. eexists. split; [done|]. rewrite length_insert. congruence.
  - rewrite lookup_insert_ne by done. by exists pg.
Qed.

Lemma frames_mapped_keeps fs mem mem' : keeps_pages mem mem' → frames_mapped fs mem → frames_mapped fs mem'.
Proof. intros Hk Hm f Hf. destruct (Hm f Hf) as (pg & Hpg & <-). by apply Hk. Qed.

Local Abbreviation SM := (M (A * Memory) MemError).
Local Abbreviation read_slot := (@read_slot A MemError).
Local Abbreviation write_slot := (@write_slot A MemError).

(** After an error the mappings of the call are lost. *)
Definition alloc_failed (held : list (Page * PhysFrame)) (s : A * Memory) (e : MemError) (s' : A * Memory) : Prop :=
  (∃ lost, inv (held ++ lost) s'.1 ∧ ∀ g, g ∈ lost.*2 → g ∈ owned s.1) ∧ owned s'.1 ⊆ owned s.1 ∧ keeps_pages s.2 s'.2.

Lemma alloc_failed_sub held pf a a' mem mem' e s :
  pf.2 ∈ owned a → owned a' ⊆ owned a → keeps_pages mem mem' →
  alloc_failed (held ++ [pf]) (a', mem') e s → alloc_failed held (a, mem) e s.
Proof.
  intros Hpf Hs Hk ((lost & Hi & Hl) & Ho & Hm). split; [|by split; etrans].
  exists (pf :: lost). rewrite <- app_assoc in Hi. split; [done|].
  intros g [->|Hg]%elem_of_cons; [done|]. by apply Hs, Hl.
Qed.

Lemma runs_read_slot f page i e err (post : PrpEntry → A * Memory → Prop) a mem :
  mem !! f = Some page → page !! i = Some e → post e (a, mem) →
  runs (read_slot f i) pan err post (a, mem).
Proof. intros Hf Hi Hp. unfold runs, NvmePrp.read_slot. cbn. rewrite Hf. cbn. unfold vec_get. by rewrite Hi. Qed.

Lemma runs_write_slot f page i e err (post : unit → A * Memory → Prop) a mem :
  mem !! f = Some page → (i < length page)%nat → post tt (a, <[f:=<[i:=e]> page]> mem) →
  runs (write_slot f i e) pan err post (a, mem).
Proof.
  intros Hf Hi Hp. unfold runs, NvmePrp.write_slot. cbn. rewrite Hf. cbn. unfold vec_set.
  by rewrite (proj2 (Nat.ltb_lt _ _) Hi).
Qed.

(** What a call that took the mappings [ms] did to the allocator and the memory;
    [f] is a frame of the list it wrote to. *)
Record took (held ms : list (Page * PhysFrame)) (f : PhysFrame) (s s' : A * Memory) : Prop := {
  took_inv : inv (held ++ ms) s'.1;
  took_owned : owned s'.1 ⊆ owned s.1;
  took_free g : g ∈ ms.*2 → g ∈ owned s.1 ∧ g ∉ owned s'.1;
  took_nodup : NoDup ms.*2;
  took_frame g : g ∉ ms.*2 → g ≠ f → s'.2 !! g = s.2 !! g;
  took_pages : keeps_pages s.2 s'.2;
}.

Lemma runs_alloc_page held ms (post : PhysFrame * list (Page * PhysFrame) → A * Memory → Prop) a mem :
  inv held a → frames_mapped (owned a) mem →
  (∀ p f a', inv (held ++ [(p, f)]) a' → f ∈ owned a → f ∉ owned a' → owned a' ⊆ owned a →
     post (f, ms ++ [(p, f)]) (a', mem)) →
  runs (alloc_page alloc_mapping try_reserve ms) pan (alloc_failed held (a, mem)) post (a, mem).
Proof.
  intros Hinv Hmap Hpost. unfold alloc_page. apply runs_bind, runs_on_fst.
  assert (∀ e lost a', inv (held ++ lost) a' → (∀ g, g ∈ lost.*2 → g ∈ owned a) → owned a' ⊆ owned a →
    alloc_failed held (a, mem) e (a', mem)) as Hfail by (intros e lost a' Hi Hl Hs; by split; [exists lost|]).
  eapply runs_mono; [by apply alloc_mapping_spec|done| |].
  { intros e a' [Hi Hs]. apply (Hfail _ []); [by rewrite app_nil_r|by intros g ?%not_elem_of_nil|done]. }
  intros [p f] a' (Hi & Hf & Hf' & Ha). cbn in *. apply runs_bind, runs_lift.
  destruct (try_reserve_spec (length ms)). destruct (try_reserve (length ms)); try done.
  - by apply runs_ret, Hpost.
  - eapply Hfail; [done| |done]. by intros g ->%list_elem_of_singleton.
Qed.

Lemma prp_read_page fuel mem f page n :
  mem !! f = Some page → (n ≤ PAGE_ENTRY_COUNT)%nat →
  prp_read (S fuel) mem f n = Some (take n page).
Proof. intros Hf Hn. cbn. rewrite Hf. cbn. by rewrite bool_decide_true. Qed.

Lemma prp_read_link fuel mem f page next n rest :
  mem !! f = Some page → (PAGE_ENTRY_COUNT < n)%nat →
  page !! (PAGE_ENTRY_COUNT - 1)%nat = Some next →
  prp_read fuel mem next (n - (PAGE_ENTRY_COUNT - 1)) = Some rest →
  prp_read (S fuel) mem f n = Some (take (PAGE_ENTRY_COUNT - 1) page ++ rest).
Proof.
  intros Hf Hn Hnext Hrest. cbn. rewrite Hf. cbn. rewrite bool_decide_false by lia.
  cbn in Hnext, Hrest. rewrite Hnext. cbn. by rewrite Hrest.
Qed.

Lemma runs_next_page held f ms a mem page last
    (post : PhysFrame * list (Page * PhysFrame) → A * Memory → Prop) :
  inv held a → frames_mapped (owned a) mem → f ∉ owned a →
  mem !! f = Some page → length page = PAGE_ENTRY_COUNT →
  page !! (PAGE_ENTRY_COUNT - 1)%nat = Some last →
  (∀ p f' a' page', inv (held ++ [(p, f')]) a' → f' ∈ owned a → f' ≠ f → f' ∉ owned a' → owned a' ⊆ owned a →
     length page' = PAGE_ENTRY_COUNT →
     post (f', ms ++ [(p, f')])
       (a', <[f':=<[0%nat:=last]> page']> (<[f:=<[(PAGE_ENTRY_COUNT - 1)%nat:=f']> page]> mem))) →
  runs (next_page alloc_mapping try_reserve f ms) pan (alloc_failed held (a, mem)) post (a, mem).
Proof.
  intros Hinv Hmap Hf Hpage Hlen Hlast Hpost. unfold next_page.
  apply runs_bind, (runs_alloc_page held); [done..|]. intros p f' a' Hinv' Hf' Hn Ha'.
  assert (f' ≠ f) as Hne by (intros ->; done).
  destruct (Hmap f' Hf') as (page' & Hpage' & Hlen').
  apply runs_bind. eapply runs_read_slot; [done|done|].
  apply runs_bind. eapply runs_write_slot; [done|rewrite Hlen; unfold PAGE_ENTRY_COUNT; lia|].
  apply runs_bind. eapply runs_write_slot;
    [rewrite lookup_insert_ne by done; exact Hpage'|rewrite Hlen'; unfold PAGE_ENTRY_COUNT; lia|].
  apply runs_ret. by apply Hpost.
Qed.

(** Another mapping in front of those a call took *)
Lemma took_cons held f p f' ms a a' mem mem1 s' :
  took (held ++ [(p, f')]) ms f' (a', mem1) s' → f' ∈ owned a → f' ∉ owned a' → owned a' ⊆ owned a →
  (∀ g, g ≠ f → g ≠ f' → mem1 !! g = mem !! g) → keeps_pages mem mem1 →
  took held ((p, f') :: ms) f (a, mem) s'.
Proof.
  intros [Hi Hown Hfree Hnd Hfr Hmp] Hf' Hn' Ha' Hmem Hk. cbn [fst snd] in *.
  split; cbn [fst snd fmap list_fmap]; [by rewrite <- app_assoc in Hi|by etrans| | | |by etrans].
  - intros g [->|Hg]%elem_of_cons; [split; [done|]; by intros H%Hown|].
    destruct (Hfree g Hg). split; [by apply Ha'|done].
  - constructor; [|done]. intros Hin. by apply Hfree in Hin as [? _].
  - intros g [Hg1 Hg2]%not_elem_of_cons Hgf. rewrite Hfr by done. by apply Hmem.
Qed.

(** A frame that was not free before a call and is not the one it wrote to *)
Lemma took_other held ms f' a' mem1 s' f :
  took held ms f' (a', mem1) s' → f ∉ owned a' → f ≠ f' → s'.2 !! f = mem1 !! f.
Proof.
  intros [Hi Hown Hfree Hnd Hfr Hmp] Hf Hne. apply Hfr; [|done]. intros Hin. by apply Hfree in Hin as [? _].
Qed.

(** The loop, for a page of which the first [k] entries are written *)
Lemma fill_pages_spec es : ∀ held f k ms a mem page,
  Forall (λ e, PrpEntry_offset e = 0) es →
  inv held a → frames_mapped (owned a) mem → f ∉ owned a →
  mem !! f = Some page → length page = PAGE_ENTRY_COUNT → (k ≤ PAGE_ENTRY_COUNT)%nat →
  runs (fill_pages alloc_mapping try_reserve es f k ms) pan (alloc_failed held (a, mem))
    (λ ms' s', ∃ new, ms' = ms ++ new ∧ took held new f (a, mem) s' ∧
       ∀ fuel mem', (k + length es < fuel)%nat → (∀ g, g ∈ f :: new.*2 → mem' !! g = s'.2 !! g) →
         prp_read fuel mem' f (k + length es) = Some (take k page ++ es))
    (a, mem).
Proof.
  induction es as [|e es IH]; intros held f k ms a mem page Hoff Hinv Hmap Hf Hpage Hlen Hk.
  { apply runs_ret. exists []. rewrite app_nil_r. split; [done|]. split.
    - split; cbn; [by rewrite app_nil_r|done|by intros g ?%not_elem_of_nil|constructor|done|done].
    - intros [|fuel] mem' Hfuel Hmem'; [lia|]. rewrite app_nil_r. cbn [length] in *. rewrite Nat.add_0_r.
      apply prp_read_page; [|done]. rewrite Hmem' by left. done. }
  inversion Hoff as [|?? He Hes]; subst. cbn [fill_pages].
  apply runs_bind, runs_assert; [intros _|by rewrite He]. apply runs_bind.
  case_bool_decide as Hfull.
  - subst k. destruct (lookup_lt_is_Some_2 page (PAGE_ENTRY_COUNT - 1)) as [last Hlast];
      [rewrite Hlen; unfold PAGE_ENTRY_COUNT; lia|].
    apply runs_bind. eapply (runs_next_page held); [done..|]. intros p f' a' page' Hinv' Hf' Hne Hn' Ha' Hlen'.
    apply runs_ret. apply runs_bind. eapply runs_write_slot;
      [apply lookup_insert_eq|rewrite length_insert, Hlen'; unfold PAGE_ENTRY_COUNT; lia|].
    assert (keeps_pages mem (<[f':=<[1%nat:=e]> (<[0%nat:=last]> page')]>
      (<[f':=<[0%nat:=last]> page']> (<[f:=<[(PAGE_ENTRY_COUNT - 1)%nat:=f']> page]> mem)))) as Hk1.
    { destruct (Hmap f' Hf') as (pg & Hpg & Hlpg). intros g pg' Hg.
      destruct (decide (g = f')) as [->|]; [rewrite lookup_insert_eq|].
      - eexists. split; [done|]. rewrite !length_insert. congruence.
      - do 2 rewrite (lookup_insert_ne _ f' g) by done. by eapply keeps_pages_write. }
    eapply runs_mono; [eapply (IH _ f' 2%nat);
      [done|done| |done|apply lookup_insert_eq|by rewrite !length_insert|]|done| |].
    + intros g Hg. destruct (Hmap g) as (pg & Hpg & Hlpg); [by apply Ha'|].
      rewrite !lookup_insert_ne; [by eauto|..]; intros ->; [by apply Hf, Ha'|done..].
    + unfold PAGE_ENTRY_COUNT. lia.
    + intros e' s'. apply alloc_failed_sub; [done|done|exact Hk1].
    + intros ms' s' (new & -> & Htook & Hread). exists ((p, f') :: new). rewrite <- app_assoc.
      split; [done|]. split.
      { eapply took_cons; [done..| |exact Hk1]. intros g Hg Hgf. by rewrite !lookup_insert_ne by done. }
      intros [|fuel] mem' Hfuel Hmem'; [lia|]. cbn [length] in *.
      erewrite prp_read_link with (page := <[(PAGE_ENTRY_COUNT - 1)%nat:=f']> page) (rest := last :: e :: es).
      * rewrite take_insert_ge by (unfold PAGE_ENTRY_COUNT in *; lia).
        rewrite (take_S_r page (PAGE_ENTRY_COUNT - 1) last Hlast : take PAGE_ENTRY_COUNT page = _).
        by rewrite <- app_assoc.
      * rewrite Hmem' by left. erewrite took_other by (done || (intros ?%Ha'; done)).
        rewrite !lookup_insert_ne by done. apply lookup_insert_eq.
      * lia.
      * apply list_lookup_insert_eq. rewrite Hlen. unfold PAGE_ENTRY_COUNT. lia.
      * replace (PAGE_ENTRY_COUNT + S (length es) - (PAGE_ENTRY_COUNT - 1))%nat
          with (2 + length es)%nat by (unfold PAGE_ENTRY_COUNT; lia).
        rewrite Hread by (unfold PAGE_ENTRY_COUNT in *; lia || (intros g Hg; apply Hmem'; by right)). f_equal.
        destruct page' as [|x [|y page']]; [discriminate Hlen'|discriminate Hlen'|done].
  - apply runs_ret. apply runs_bind. eapply runs_write_slot; [exact Hpage|unfold PAGE_ENTRY_COUNT in *; lia|].
    eapply runs_mono; [eapply (IH held f (k + 1)%nat);
      [done|done| |done|apply lookup_insert_eq|by rewrite length_insert|lia]|done| |].
    + intros g Hg. destruct (Hmap g Hg) as (pg & Hpg & Hlpg). rewrite lookup_insert_ne; [by eauto|by intros ->].
    + intros e' s' (Hl & Ho & Hk'). split; [done|]. split; [done|]. cbn [snd] in *.
      etrans; [by eapply keeps_pages_write|exact Hk'].
    + intros ms' s' (new & -> & [Hi Hown Hfree Hnd Hfr Hmp] & Hread). exists new. split; [done|]. split.
      * split; [done..| |]; cbn [snd] in *.
        -- intros g Hg Hgf. rewrite Hfr by done. by rewrite lookup_insert_ne.
        -- etrans; [by eapply keeps_pages_write|exact Hmp].
      * intros fuel mem' Hfuel Hmem'. cbn [length] in *.
        replace (k + S (length es))%nat with (k + 1 + length es)%nat by lia.
        rewrite Hread by (done || lia). f_equal. rewrite Nat.add_1_r.
        erewrite take_S_r by (apply list_lookup_insert_eq; lia).
        rewrite take_insert_ge by lia. by rewrite <- app_assoc.
Qed.

(** What a list that was built is: the controller reads its entries, and it records the
    mappings it took. *)
Record list_built (held : list (Page * PhysFrame)) (entries : list PrpEntry) (l : PrpList)
    (s s' : A * Memory) : Prop := {
  lb_count : entry_count l = length entries;
  lb_first : head entries = Some (first_entry l);
  (** as long as its pages stay as they are *)
  lb_read mem : (∀ g, g ∈ (pl_mappings l).*2 → mem !! g = s'.2 !! g) →
    prp_read (length entries) mem (prp_list_frame l) (length entries - 1) = Some (tail entries);
  lb_inv : inv (held ++ pl_mappings l) s'.1;
  lb_owned : owned s'.1 ⊆ owned s.1;
  lb_pages : keeps_pages s.2 s'.2;
  lb_frames f : f ∈ (pl_mappings l).*2 → f ∈ owned s.1 ∧ f ∉ owned s'.1;
  lb_nodup : NoDup (pl_mappings l).*2;
  lb_others f : f ∉ owned s.1 → s'.2 !! f = s.2 !! f;
}.

Lemma runs_PrpList_new held (entries : list PrpEntry) (a : A) (mem : Memory) :
  (3 ≤ length entries)%nat → Forall (λ e, PrpEntry_offset e = 0) (tail entries) →
  inv held a → frames_mapped (owned a) mem →
  runs (PrpList_new alloc_mapping try_reserve entries) pan (alloc_failed held (a, mem))
    (λ l, list_built held entries l (a, mem)) (a, mem).
Proof.
  intros Hlen Hoff Hinv Hmap. unfold PrpList_new.
  apply runs_bind, runs_assert; [intros _|by rewrite bool_decide_true].
  apply runs_bind, (runs_alloc_page held); [done..|]. intros p f a' Hinv' Hf Hn' Ha'.
  destruct entries as [|first rest]; [cbn in Hlen; lia|]. cbn [tail] in Hoff.
  destruct (Hmap f Hf) as (page & Hpage & Hplen).
  apply runs_bind. eapply runs_mono; [eapply (fill_pages_spec rest _ f 0)|done| |];
    [done|done| |done|done|done|lia| |].
  { intros g Hg. by apply Hmap, Ha'. }
  { intros e s'. by apply alloc_failed_sub. }
  intros ms' s' (new & -> & Htook & Hread). apply runs_ret.
  destruct (took_cons held f p f new a a' mem mem s' Htook Hf Hn' Ha' (λ _ _ _, eq_refl) (reflexivity _)) as [H1 H2 H3 H4 H5 H6].
  split; cbn -[prp_read Nat.sub]; try done.
  - intros mem' Hmem'. cbn [length Nat.sub] in *. rewrite Nat.sub_0_r. apply Hread; [lia|done].
  - intros g Hg. apply H5; [|by intros ->]. by intros [? _]%H3.
Qed.

(** C23: [PrpList::new] for at least three entries of which only the first has an
    offset does not run forever and panics only when the allocator does, and unless an
    allocation fails the controller that walks the list from its second pointer reads
    exactly the entries after the first. The list records every frame it took, each
    once, and no frame that was in use is changed. *)
Theorem PrpList_new_spec (held : list (Page * PhysFrame)) (entries : list PrpEntry) (a : A) (mem : Memory) :
  (3 ≤ length entries)%nat → Forall (λ e, PrpEntry_offset e = 0) (tail entries) →
  inv held a → frames_mapped (owned a) mem →
  runs (PrpList_new alloc_mapping try_reserve entries) pan (alloc_failed held (a, mem))
    (λ l s', entry_count l = length entries ∧ head entries = Some (first_entry l) ∧
       prp_read (length entries) s'.2 (prp_list_frame l) (length entries - 1) = Some (tail entries) ∧
       inv (held ++ pl_mappings l) s'.1 ∧
       (∀ f, f ∈ (pl_mappings l).*2 → f ∈ owned a ∧ f ∉ owned s'.1) ∧ NoDup (pl_mappings l).*2 ∧
       ∀ f, f ∉ owned a → s'.2 !! f = mem !! f)
    (a, mem).
Proof.
  intros. eapply runs_mono; [by apply runs_PrpList_new|done|done|]. intros l s' [].
  split_and!; try done. by apply lb_read0.
Qed.
End list_spec.

(** ** Entries *)

(** An entry for a frame and an offset into it. The offset must lie in the page
    and be a multiple of 4; the entry is the address, from which [offset] and
    [frame] get both back. *)
Theorem PrpEntry_with_offset_spec (containing_address : Z → PhysFrame) (frame offset : Z) :
  (∀ a, containing_address a = a - a mod PAGE_SIZE) →
  frame mod PAGE_SIZE = 0 → 0 ≤ offset →
  PrpEntry_with_offset frame offset =
    (if offset >=? PAGE_SIZE then Err OffsetToLarge
     else if negb (offset mod 4 =? 0) then Err NotDwordAligned else Ok (frame + offset)) ∧
  (∀ e, PrpEntry_with_offset frame offset = Ok e →
     PrpEntry_offset e = offset ∧ PrpEntry_frame containing_address e = frame ∧
     PrpEntry_try_from containing_address e = Ok e).
Proof.
  intros Hca Hframe Hoff.
  assert (∀ o, Z.land o 3 = o mod 4) as Hland3 by (intros o; apply (Z.land_ones o 2); lia).
  assert (∀ e, PrpEntry_offset e = e mod PAGE_SIZE) as Hland
    by (intros e; apply (Z.land_ones e 12); lia).
  assert (∀ o, 0 ≤ o < PAGE_SIZE → Z.lor frame o = frame + o) as Hlor.
  { intros o Ho. rewrite (Z.div_mod frame PAGE_SIZE) by done. rewrite Hframe, Z.add_0_r, Z.mul_comm.
    by apply (lor_low_bits _ 12). }
  unfold PrpEntry_with_offset. rewrite Hland3.
  destruct (Z.geb_spec offset PAGE_SIZE) as [|Hlt]; [by split|].
  rewrite Hlor by done. destruct (Z.eqb_spec (offset mod 4) 0) as [Hd|]; [|by split]. cbn [negb].
  split; [done|]. intros e [= <-].
  assert ((frame + offset) mod PAGE_SIZE = offset) as Hmod.
  { rewrite Z.add_mod, Hframe, Z.add_0_l, Z.mod_mod by done. by apply Z.mod_small. }
  unfold PrpEntry_frame, PrpEntry_try_from, PrpEntry_with_offset. rewrite Hland, Hca, Hmod.
  replace (frame + offset - offset) with frame by lia.
  replace (frame + offset - frame) with offset by lia.
  rewrite Hland3, Hd, Hlor by done. by destruct (Z.geb_spec offset PAGE_SIZE); [lia|].
Qed.

Lemma PrpEntry_with_offset_spec_witness :
  PrpEntry_with_offset 8192 24 = Ok 8216 ∧ PrpEntry_with_offset 8192 22 = Err NotDwordAligned ∧
  PrpEntry_with_offset 8192 4096 = Err OffsetToLarge ∧ PrpEntry_offset 8216 = 24.
Proof.
  pose proof (λ o, PrpEntry_with_offset_spec (λ a, a - a mod PAGE_SIZE) 8192 o (λ _, eq_refl) eq_refl) as H.
  split; [apply (H 24); lia|]. split; [apply (H 22); lia|]. split; [apply (H 4096); lia|].
  apply (H 24); [lia|reflexivity].
Defined.

(** ** An allocator of the frames 1 to [n] *)

Definition demo_alloc : M nat unit (Page * PhysFrame) := λ n,
  match n with
  | O => (Err tt, O)
  | S m => (Ok (Z.of_nat n * PAGE_SIZE, Z.of_nat n * PAGE_SIZE), m)
  end.

Definition demo_owned (n : nat) : propset PhysFrame :=
  {[ f | ∃ i, (1 ≤ i ≤ n)%nat ∧ f = Z.of_nat i * PAGE_SIZE ]}.

Fixpoint demo_memory (n : nat) : Memory :=
  match n with
  | O => ∅
  | S m => <[Z.of_nat n * PAGE_SIZE := replicate PAGE_ENTRY_COUNT 0]> (demo_memory m)
  end.

Lemma demo_alloc_spec (held : list (Page * PhysFrame)) n : True →
  runs demo_alloc False (λ _ n', True ∧ demo_owned n' ⊆ demo_owned n)
    (λ pf n', True ∧ pf.2 ∈ demo_owned n ∧ pf.2 ∉ demo_owned n' ∧ demo_owned n' ⊆ demo_owned n) n.
Proof.
  intros _. destruct n as [|n]; unfold runs, demo_alloc; cbn -[Z.mul]; [done|].
  split; [done|]. unfold demo_owned, PAGE_SIZE. split_and!.
  - apply elem_of_PropSet. exists (S n). split; [lia|done].
  - intros (i & Hi & Heq)%elem_of_PropSet. lia.
  - intros f (i & Hi & ->)%elem_of_PropSet. apply elem_of_PropSet. exists i. split; [lia|done].
Qed.

Lemma demo_memory_mapped n : frames_mapped (demo_owned n) (demo_memory n).
Proof.
  intros f (i & Hi & ->)%elem_of_PropSet. induction n as [|n IH]; [lia|]. cbn [demo_memory].
  destruct (decide (i = S n)) as [->|].
  - rewrite lookup_insert_eq. by eexists.
  - rewrite lookup_insert_ne by (unfold PAGE_SIZE; lia). apply IH. lia.
Qed.

(** A list of 600 entries needs two pages; its first entry has an offset. *)
Definition demo_entries : list PrpEntry := 8 :: ((λ i, Z.of_nat i * PAGE_SIZE) <$> seq 1 599).

Lemma PrpList_new_spec_witness :
  ∃ l s, PrpList_new demo_alloc (λ _, Ok tt) demo_entries (5%nat, demo_memory 5) = (Ok l, s) ∧
    length (pl_mappings l) = 2%nat ∧
    prp_read 600 s.2 (prp_list_frame l) 599 = Some (tail demo_entries).
Proof.
  pose proof (PrpList_new_spec demo_alloc (λ _, Ok tt) demo_owned (λ _ _, True) False demo_alloc_spec
    (λ _, conj (λ H : Ok tt = Panic, eq_ind (Ok tt) (λ r, match r with Ok _ => True | _ => False end) I Panic H)
               (λ H : Ok tt = Hang, eq_ind (Ok tt) (λ r, match r with Ok _ => True | _ => False end) I Hang H))
    [] demo_entries 5%nat (demo_memory 5)) as H.
  assert (match PrpList_new demo_alloc (λ _, Ok tt) demo_entries (5%nat, demo_memory 5) with
          | (Ok l, _) => length (pl_mappings l) = 2%nat | _ => False end) as Hok
    by (vm_compute; reflexivity).
  unfold runs in H.
  destruct (PrpList_new demo_alloc (λ _, Ok tt) demo_entries (5%nat, demo_memory 5)) as [[l| | |] s];
    [|exfalso; exact Hok..].
  exists l, s. split; [reflexivity|]. split; [exact Hok|].
  apply H.
  - apply leb_complete. vm_compute. reflexivity.
  - apply Forall_forall. intros e He. change (e ∈ (λ i, Z.of_nat i * PAGE_SIZE) <$> seq 1 599) in He.
    apply list_elem_of_fmap in He as (i & -> & _). unfold PrpEntry_offset.
    change (PAGE_SIZE - 1) with (Z.ones 12). rewrite Z.land_ones by lia. apply Z.mod_mul. lia.
  - exact I.
  - apply demo_memory_mapped.
Defined.
