(* ===== verification/NvmeCommand.v ===== *)
(** * [wasabi-kernel/src/pci/nvme]: commands and completion entries

    [generic_command.rs], [io_commands/mod.rs], [io_commands/read.rs] and
    [io_commands/write.rs]. *)

From S2P Require Import Prelude Bits BlockDevice NvmePrp.
Local Open Scope Z_scope.

Definition u16_max : Z := 65535.

(** ** Identifiers *)

(** [QueueIdentifier] and [CommandIdentifier] wrap a [u16]. *)
Abbreviation QueueIdentifier := Z (only parsing).
Abbreviation CommandIdentifier := Z (only parsing).

Definition QueueIdentifier_checked_add (self rhs : Z) : option QueueIdentifier :=
  if self + rhs <=? u16_max then Some (self + rhs) else None.
Definition QueueIdentifier_add {E} (self rhs : Z) : result E QueueIdentifier :=
  expect (QueueIdentifier_checked_add self rhs).

(** ** Commands *)

Record DataPtr := mkDataPtr { prp_entry_1 : PrpEntry; prp_entry_2 : PrpEntry }.

(** [Prp = 0], [SglMetaContiguBuffer = 1], [SglIncludingMeta = 2] *)
Inductive PrpOrSgl := PrpOrSgl_Prp | SglMetaContiguBuffer | SglIncludingMeta.
Definition PrpOrSgl_disc (p : PrpOrSgl) : Z :=
  match p with PrpOrSgl_Prp => 0 | SglMetaContiguBuffer => 1 | SglIncludingMeta => 2 end.

Record CommonCommand := mkCommand {
  dword0 : Z;
  namespace_ident : Z;
  dword2 : Z;
  dword3 : Z;
  metadata_ptr : Z;
  data_ptr : DataPtr;
  dword10 : Z;
  dword11 : Z;
  dword12 : Z;
  dword13 : Z;
  dword14 : Z;
  dword15 : Z;
}.

Definition CommonCommand_default : CommonCommand :=
  mkCommand 0 0 0 0 0 (mkDataPtr PrpEntry_zero PrpEntry_zero) 0 0 0 0 0 0.

Definition set_dword0 (d : Z) (c : CommonCommand) : CommonCommand :=
  mkCommand d (namespace_ident c) (dword2 c) (dword3 c) (metadata_ptr c) (data_ptr c)
    (dword10 c) (dword11 c) (dword12 c) (dword13 c) (dword14 c) (dword15 c).

(** [CommandOpcode] of the I/O command set *)
Inductive CommandOpcode :=
  | Flush | Write | Read | WriteUncorrectable | Compare | WriteZeroes | DatasetManagment
  | Verify | ReservationRegister | ReservationReport | ReservationAcquire
  | ReservationRelease | Copy.
Definition CommandOpcode_disc (o : CommandOpcode) : Z :=
  match o with
  | Flush => 0 | Write => 1 | Read => 2 | WriteUncorrectable => 4 | Compare => 5
  | WriteZeroes => 8 | DatasetManagment => 9 | Verify => 12 | ReservationRegister => 13
  | ReservationReport => 14 | ReservationAcquire => 17 | ReservationRelease => 21 | Copy => 25
  end.

Section bits.
Context `{BF : BitField}.

(** *** [CDW0] *)

Definition CDW0_opcode (self : Z) : Z := get_bits self 0 7.
Definition CDW0_set_opcode {E} (self value : Z) : result E Z := set_bits self 0 7 value.
Definition CDW0_fuse (self : Z) : Z := get_bits self 8 9.
Definition CDW0_set_fuse {E} (self value : Z) : result E Z := set_bits self 8 9 value.
Definition CDW0_prp_or_sgl {E} `{U : !U8Enum PrpOrSgl_disc} (self : Z) : result E PrpOrSgl :=
  expect (try_from (get_bits self 14 15)).
Definition CDW0_set_prp_or_sgl {E} (self : Z) (value : PrpOrSgl) : result E Z :=
  set_bits self 14 15 (PrpOrSgl_disc value).
Definition CDW0_command_identifier (self : Z) : CommandIdentifier := get_bits self 16 31.
Definition CDW0_set_command_identifier {E} (self : Z) (value : CommandIdentifier) : result E Z :=
  set_bits self 16 31 value.

(** *** [create_read_command] and [create_write_command] *)

(** Both functions set every field the same way, and both set the opcode [Read]. *)
Definition create_read_command {E} (prp : Prp) (slba : LBA) (block_count : Z)
    : result E CommonCommand :=
  cdw0 ← CDW0_set_opcode 0 (CommandOpcode_disc Read);
  cdw0 ← CDW0_set_prp_or_sgl cdw0 PrpOrSgl_Prp;
  _ ← assert_ (block_count >? 0);
  d12 ← set_bits 0 0 15 (block_count - 1);
  mret (mkCommand cdw0 1 0 0 (metadata_ptr CommonCommand_default)
    (mkDataPtr (Prp_entry_1 prp) (Prp_entry_2 prp))
    (Z.land slba 4294967295) (Z.shiftr slba 32 mod 2 ^ 32) d12 0
    (dword14 CommonCommand_default) (dword15 CommonCommand_default)).

Definition create_write_command {E} (prp : Prp) (slba : LBA) (block_count : Z)
    : result E CommonCommand :=
  cdw0 ← CDW0_set_opcode 0 (CommandOpcode_disc Read);
  cdw0 ← CDW0_set_prp_or_sgl cdw0 PrpOrSgl_Prp;
  _ ← assert_ (block_count >? 0);
  d12 ← set_bits 0 0 15 (block_count - 1);
  mret (mkCommand cdw0 1 0 0 (metadata_ptr CommonCommand_default)
    (mkDataPtr (Prp_entry_1 prp) (Prp_entry_2 prp))
    (Z.land slba 4294967295) (Z.shiftr slba 32 mod 2 ^ 32) d12 0
    (dword14 CommonCommand_default) (dword15 CommonCommand_default)).
End bits.

(** ** Completion entries *)

Record CommonCompletionEntry := mkCompletion {
  c_dword0 : Z;
  c_dword1 : Z;
  c_submission_queue_head : Z;
  submission_queue_ident : QueueIdentifier;
  command_ident : CommandIdentifier;
  status_and_phase : Z;
}.

(** The entry of memory that was filled with zeros *)
Definition zero_completion : CommonCompletionEntry := mkCompletion 0 0 0 0 0 0.

Inductive GenericCommandStatus :=
  | Success | InvalidCommandOpcode | InvalidFieldInCommand | CommandIdConflict
  | DataTransferError | CommandAbortedPowerLoss | InternalError | AbortRequested
  | AbortSQDeletion | AbortFailedFuse | AbortMissingFues | InvalidNamespaceFormat
  | SequenceError | InvalidSgl | InvalidSglCount | InvalidSglLength
  | InvalidMetadataSglLength | InvalidSglType | InvalidUseOfControllerMemBuf
  | InvaldPrpOffset | AtomicWriteExceeded | OperationDenied | InvalidSglOffset
  | HostIdInconsistentFormat | KeepAliveExpired | InvalidKeepAliveTimeout
  | AbortDueToPreemptAbort | SanitiizeFaild | SanitizeInProgress
  | InvalidSglBlockGranularity | NotSupportedForQueueInCMB | NamespaceWriteProtected
  | Interrupted | TransientTransportError | ProhibitedByLockdown
  | AdminCommandMediaNotReady | LbaOutOfRange | CapacityExceeded | NamespaceNotReady
  | ReservationConflict | FormatInProgress | InvalidValueSize | InvalidKeySize
  | KvKeyDoesNotExist | UnrecoveredError | KeyExists.

#[export] Instance GenericCommandStatus_eq_dec : EqDecision GenericCommandStatus.
Proof. solve_decision. Defined.

Definition GenericCommandStatus_disc (s : GenericCommandStatus) : Z :=
  match s with
  | Success => 0 | InvalidCommandOpcode => 1 | InvalidFieldInCommand => 2
  | CommandIdConflict => 3 | DataTransferError => 4 | CommandAbortedPowerLoss => 5
  | InternalError => 6 | AbortRequested => 7 | AbortSQDeletion => 8 | AbortFailedFuse => 9
  | AbortMissingFues => 10 | InvalidNamespaceFormat => 11 | SequenceError => 12
  | InvalidSgl => 13 | InvalidSglCount => 14 | InvalidSglLength => 15
  | InvalidMetadataSglLength => 16 | InvalidSglType => 17
  | InvalidUseOfControllerMemBuf => 18 | InvaldPrpOffset => 19 | AtomicWriteExceeded => 20
  | OperationDenied => 21 | InvalidSglOffset => 22 | HostIdInconsistentFormat => 24
  | KeepAliveExpired => 25 | InvalidKeepAliveTimeout => 26 | AbortDueToPreemptAbort => 27
  | SanitiizeFaild => 28 | SanitizeInProgress => 29 | InvalidSglBlockGranularity => 30
  | NotSupportedForQueueInCMB => 31 | NamespaceWriteProtected => 32 | Interrupted => 33
  | TransientTransportError => 34 | ProhibitedByLockdown => 35
  | AdminCommandMediaNotReady => 36 | LbaOutOfRange => 128 | CapacityExceeded => 129
  | NamespaceNotReady => 130 | ReservationConflict => 131 | FormatInProgress => 132
  | InvalidValueSize => 133 | InvalidKeySize => 134 | KvKeyDoesNotExist => 135
  | UnrecoveredError => 136 | KeyExists => 137
  end.

Inductive CommandStatusCode :=
  | GenericStatus (s : GenericCommandStatus)
  | UnknownGenericStatus (c : Z)
  | CommandSpecificStatus (c : Z)
  | MediaAndDataIntegrityError (c : Z)
  | PathRelatedStatus (c : Z)
  | StatusReserved (typ status : Z)
  | VendorSpecific (c : Z).

#[export] Instance CommandStatusCode_eq_dec : EqDecision CommandStatusCode.
Proof. solve_decision. Defined.

Section completion.
Context `{BF : BitField} `{U : !U8Enum GenericCommandStatus_disc}.

(** [get_bits(..).try_into().unwrap()] into a [u8] *)
Definition bits_u8 {E} (self first last : Z) : result E Z :=
  let v := get_bits self first last in if v <=? 255 then Ok v else Panic.

Definition phase (self : Z) : bool := get_bit self 0.
Definition status_code {E} (self : Z) : result E Z := bits_u8 self 1 8.
Definition status_code_type {E} (self : Z) : result E Z := bits_u8 self 9 11.
Definition common_retry_delay {E} (self : Z) : result E Z := bits_u8 self 12 13.
Definition more (self : Z) : bool := get_bit self 14.
Definition do_not_retry (self : Z) : bool := get_bit self 15.

Definition status {E} (self : CommonCompletionEntry) : result E CommandStatusCode :=
  let s := status_and_phase self in
  typ ← status_code_type s;
  code ← status_code s;
  if typ =? 0 then
    match try_from code with
    | Some st => mret (GenericStatus st)
    | None => mret (UnknownGenericStatus code)
    end
  else if typ =? 1 then mret (CommandSpecificStatus code)
  else if typ =? 2 then mret (MediaAndDataIntegrityError code)
  else if typ =? 3 then mret (PathRelatedStatus code)
  else if (4 <=? typ) && (typ <=? 6) then mret (StatusReserved typ code)
  else if typ =? 7 then mret (VendorSpecific code)
  else Panic.

Definition is_success (self : CommandStatusCode) : bool :=
  bool_decide (self = GenericStatus Success).
Definition is_err (self : CommandStatusCode) : bool := negb (is_success self).
Definition assert_success {E} (self : CommandStatusCode) : result E unit :=
  match self with GenericStatus Success => Ok tt | _ => Panic end.
End completion.

(** ** Reading back what was written *)

Section bits_lemmas.
Context `{BF : BitField}.

Lemma get_bits_bound x l h : 0 ≤ l ≤ h → 0 ≤ get_bits x l h < 2 ^ (h - l + 1).
Proof. intros Hlh. rewrite get_bits_spec by done. apply Z.mod_pos_bound. apply Z.pow_pos_nonneg; lia. Qed.

(** What the controller finds in a command for a transfer of [count] blocks from
    [slba] on, to or from the pages of [prp] *)
Record transfer_command (opcode : CommandOpcode) (prp : Prp) (slba : LBA) (count : Z)
    (c : CommonCommand) : Prop := {
  tc_opcode : CDW0_opcode (dword0 c) = CommandOpcode_disc opcode;
  tc_prp : get_bits (dword0 c) 14 15 = PrpOrSgl_disc PrpOrSgl_Prp;
  tc_namespace : namespace_ident c = 1;
  tc_data : data_ptr c = mkDataPtr (Prp_entry_1 prp) (Prp_entry_2 prp);
  tc_slba : dword10 c + dword11 c * 2 ^ 32 = slba;
  tc_count : get_bits (dword12 c) 0 15 + 1 = count;
  tc_identifier : CDW0_command_identifier (dword0 c) = 0;
  tc_dword0 : 0 ≤ dword0 c;
}.

Lemma create_read_command_ok {E} (prp : Prp) (slba : LBA) (count : Z) :
  is_u64 slba → 0 < count ≤ u16_max →
  ∃ c, create_read_command (E:=E) prp slba count = Ok c ∧ transfer_command Read prp slba count c.
Proof.
  intros Hslba Hcount. unfold create_read_command, CDW0_set_opcode, CDW0_set_prp_or_sgl.
  destruct (set_bits_Ok (E:=E) 0 0 7 2) as (w0 & Hw0 & Hp0); [lia..|]. cbn [CommandOpcode_disc]. rewrite Hw0.
  destruct (set_bits_Ok (E:=E) w0 14 15 0) as (w1 & Hw1 & Hp1); [lia..|]. cbn. rewrite Hw1. cbn.
  destruct (Z.gtb_spec count 0); [|lia]. cbn. unfold u16_max in Hcount.
  destruct (set_bits_Ok (E:=E) 0 0 15 (count - 1)) as (w2 & Hw2 & Hp2); [lia..|]. rewrite Hw2. cbn.
  eexists. split; [done|].
  pose proof (get_bits_bound 0 16 31). pose proof (get_bits_spec 0 16 31).
  split; cbn; unfold CDW0_opcode, CDW0_command_identifier; [| |done|done| | | |done].
  - rewrite (get_set_other (E:=E) w0 14 15 0 w1) by (done || lia).
    by apply (get_set_same (E:=E) 0 0 7 2).
  - by apply (get_set_same (E:=E) w0 14 15 0).
  - change 4294967295 with (Z.ones 32). rewrite Z.land_ones, Z.shiftr_div_pow2 by lia.
    assert (0 ≤ slba / 2 ^ 32 < 2 ^ 32) as Hd.
    { unfold is_u64, u64_max in Hslba. split; [apply Z.div_pos; lia|]. apply Z.div_lt_upper_bound; lia. }
    rewrite (Z.mod_small (slba / 2 ^ 32)) by done.
    rewrite (Z.div_mod slba (2 ^ 32)) at 3 by done. lia.
  - rewrite (get_set_same (E:=E) 0 0 15 (count - 1) w2) by (done || lia). lia.
  - rewrite (get_set_other (E:=E) w0 14 15 0 w1) by (done || lia).
    rewrite (get_set_other (E:=E) 0 0 7 2 w0) by (done || lia). by rewrite get_bits_spec by lia.
Qed.

(** For at least one block both functions build a command that names the
    namespace, the pages, the first block and the number of blocks, and for no
    block both panic. But both build a command with the opcode [Read]: a write
    would overwrite the memory with the blocks of the device. *)
Theorem transfer_commands_read (prp : Prp) (slba : LBA) (count : Z) :
  is_u64 slba → 0 ≤ count ≤ u16_max →
  create_write_command (E:=unit) prp slba count = create_read_command prp slba count ∧
  (count = 0 → create_write_command (E:=unit) prp slba count = Panic) ∧
  (0 < count → ∃ c, create_write_command (E:=unit) prp slba count = Ok c ∧
    transfer_command Read prp slba count c).
Proof.
  intros Hslba Hcount. split; [done|]. split.
  - intros ->. unfold create_write_command, CDW0_set_opcode, CDW0_set_prp_or_sgl.
    destruct (set_bits_Ok (E:=unit) 0 0 7 2) as (w0 & Hw0 & Hp0); [lia..|]. cbn [CommandOpcode_disc]. rewrite Hw0.
    destruct (set_bits_Ok (E:=unit) w0 14 15 0) as (w1 & Hw1 & Hp1); [lia..|]. cbn. by rewrite Hw1.
  - intros Hpos. apply create_read_command_ok; [done|lia].
Qed.

(** Giving a command its identifier changes no other field of the first word. *)
Lemma set_command_identifier_fields {E} d ident d' : 0 ≤ d → 0 ≤ ident ≤ u16_max →
  CDW0_set_command_identifier (E:=E) d ident = Ok d' →
  CDW0_command_identifier d' = ident ∧ CDW0_opcode d' = CDW0_opcode d ∧
  CDW0_fuse d' = CDW0_fuse d ∧ get_bits d' 14 15 = get_bits d 14 15.
Proof.
  intros Hd Hi Hset. unfold u16_max in Hi.
  unfold CDW0_set_command_identifier in Hset.
  split; [by eapply get_set_same in Hset; [|lia..]|].
  split; [|split]; eapply get_set_other in Hset; try done; lia.
Qed.

Lemma set_command_identifier_Ok {E} d ident : 0 ≤ d → 0 ≤ ident ≤ u16_max →
  ∃ d', CDW0_set_command_identifier (E:=E) d ident = Ok d' ∧ 0 ≤ d'.
Proof. intros. unfold u16_max in *. apply set_bits_Ok; lia. Qed.

Lemma status_decodes {E} `{U : !U8Enum GenericCommandStatus_disc} (self : CommonCompletionEntry) :
  ∃ st, status (E:=E) self = Ok st ∧
    (is_success st = true ↔ get_bits (status_and_phase self) 1 11 = 0).
Proof.
  set (w := status_and_phase self) in *.
  pose proof (get_bits_bound w 1 8 ltac:(lia)) as Hcode. pose proof (get_bits_bound w 9 11 ltac:(lia)) as Htyp.
  assert (get_bits w 1 11 = get_bits w 1 8 + get_bits w 9 11 * 2 ^ 8) as Hsum.
  { rewrite !get_bits_spec by lia. change (2 ^ (11 - 1 + 1)) with (2 ^ 8 * 2 ^ 3).
    rewrite Z.rem_mul_r by lia. rewrite Z.div_div by lia. change (2 ^ 1 * 2 ^ 8) with (2 ^ 9).
    change (8 - 1 + 1) with 8. change (11 - 9 + 1) with 3. lia. }
  unfold status, status_code_type, status_code, bits_u8. cbn zeta. fold w. rewrite Hsum.
  set (typ := get_bits w 9 11) in *. set (code := get_bits w 1 8) in *.
  destruct (Z.leb_spec typ 255); [|lia]. cbn [result_bind mbind]. destruct (Z.leb_spec code 255); [|lia]. cbn [result_bind mbind].
  destruct (Z.eqb_spec typ 0) as [Ht|Ht].
  { destruct (try_from code) as [st|] eqn:Htry.
    - apply try_from_spec in Htry. eexists. split; [done|]. unfold is_success. rewrite bool_decide_eq_true.
      split; [intros [= ->]; cbn in Htry; lia|]. intros Hz. f_equal. destruct st; cbn in Htry; try done; lia.
    - eexists. split; [done|]. unfold is_success. rewrite bool_decide_eq_true. split; [done|]. intros Hz.
      assert (try_from (disc:=GenericCommandStatus_disc) code = Some Success) as Hc
        by (apply try_from_spec; cbn; lia). congruence. }
  assert (∀ st, (∀ s, st ≠ GenericStatus s) →
            (is_success st = true ↔ code + typ * 2 ^ 8 = 0)) as Hno.
  { intros st Hst. unfold is_success. rewrite bool_decide_eq_true. split; [intros ->; by destruct (Hst Success)|lia]. }
  repeat match goal with
    | |- context [if ?b then _ else _] => destruct b eqn:?
    end; try (eexists; split; [done|]; by apply Hno).
  exfalso. assert (typ = 1 ∨ typ = 2 ∨ typ = 3 ∨ 4 ≤ typ ≤ 6 ∨ typ = 7) by lia. lia.
Qed.

(** The status of a completion entry can always be decoded, and it is a success
    exactly when the 11 bits of the status code and its type are zero. *)
Theorem status_spec `{U : !U8Enum GenericCommandStatus_disc} (self : CommonCompletionEntry) :
  0 ≤ status_and_phase self →
  ∃ st, status (E:=unit) self = Ok st ∧
    (is_success st = true ↔ get_bits (status_and_phase self) 1 11 = 0).
Proof. intros _. apply status_decodes. Qed.
End bits_lemmas.

(** ** The derived conversion *)

Definition all_statuses : list GenericCommandStatus :=
  [Success; InvalidCommandOpcode; InvalidFieldInCommand; CommandIdConflict; DataTransferError;
   CommandAbortedPowerLoss; InternalError; AbortRequested; AbortSQDeletion; AbortFailedFuse;
   AbortMissingFues; InvalidNamespaceFormat; SequenceError; InvalidSgl; InvalidSglCount;
   InvalidSglLength; InvalidMetadataSglLength; InvalidSglType; InvalidUseOfControllerMemBuf;
   InvaldPrpOffset; AtomicWriteExceeded; OperationDenied; InvalidSglOffset;
   HostIdInconsistentFormat; KeepAliveExpired; InvalidKeepAliveTimeout; AbortDueToPreemptAbort;
   SanitiizeFaild; SanitizeInProgress; InvalidSglBlockGranularity; NotSupportedForQueueInCMB;
   NamespaceWriteProtected; Interrupted; TransientTransportError; ProhibitedByLockdown;
   AdminCommandMediaNotReady; LbaOutOfRange; CapacityExceeded; NamespaceNotReady;
   ReservationConflict; FormatInProgress; InvalidValueSize; InvalidKeySize; KvKeyDoesNotExist;
   UnrecoveredError; KeyExists].

#[export] Instance status_enum : U8Enum GenericCommandStatus_disc.
Proof.
  refine {| try_from c := List.find (λ s, GenericCommandStatus_disc s =? c) all_statuses |}.
  intros c a. split.
  - intros H%List.find_some. by apply Z.eqb_eq, H.
  - intros <-. by destruct a.
Defined.

Lemma transfer_commands_read_witness :
  ∃ c, create_write_command (E:=unit) (Prp_Entry 4096) 5000000000 8 = Ok c ∧
    transfer_command Read (Prp_Entry 4096) 5000000000 8 c.
Proof.
  apply (transfer_commands_read (Prp_Entry 4096) 5000000000 8);
    unfold is_u64, u64_max, u16_max; lia.
Defined.

(** The status [LbaOutOfRange] with the phase bit set *)
Lemma status_spec_witness :
  ∃ st, status (E:=unit) (mkCompletion 0 0 0 0 0 257) = Ok st ∧
    (is_success st = true ↔ get_bits 257 1 11 = 0).
Proof. apply (status_spec (mkCompletion 0 0 0 0 0 257)). cbn. lia. Defined.
