(* ===== verification/NvmeQueue.v ===== *)
(** * [wasabi-kernel/src/pci/nvme/queue.rs]: the NVMe command queue

    A queue is a pair of rings in memory that the kernel shares with the
    controller. The kernel writes commands into the submission ring and tells the
    controller its tail; the controller writes completion entries, whose phase bit
    tells the kernel which of them are new.

    The controller runs while the kernel does: before every volatile access of the
    kernel it may do anything ([env]). The pointers and frames of the rings are
    left out, a ring is the list of its slots. *)

From S2P Require Import Prelude Bits NvmePrp NvmeCommand WrappingValue.
Local Open Scope Z_scope.

Inductive PollCompletionError := IdentifierStillInUse (ident : CommandIdentifier).

(** [NVMEControllerError], without the variants that wrap errors of other modules *)
Inductive NVMEControllerError :=
  | InvalidPciDevice
  | InvalidQueueSize (queue_size : Z)
  | AdminCommandFailed (st : CommandStatusCode)
  | QueueFull
  | IOQueueLimitReached (count limit : Z)
  | AdminQueuePollCompletions (e : PollCompletionError)
  | NoNamespace.

Definition SUBMISSION_COMMAND_ENTRY_SIZE : Z := 64.
Definition COMPLETION_COMMAND_ENTRY_SIZE : Z := 16.

Record CommandQueue := mkQueue {
  queue_id : QueueIdentifier;
  submission_queue_size : Z;
  (** the tail the controller knows *)
  submission_queue_tail : Z;
  (** the last head the controller reported *)
  submission_queue_head : Z;
  submission_queue_tail_local : WrappingValue;
  completion_queue_size : Z;
  completion_queue_head : WrappingValue;
  completion_expected_phase : bool;
  completions : list CommonCompletionEntry;
  next_command_identifier : Z;
}.

(** The rings and doorbells. The last two fields are what the controller did so
    far: the commands it fetched, and the entries it posted, each with the number
    of commands it had fetched by then. *)
Record Hardware := mkHardware {
  sq : list CommonCommand;
  sq_tail_doorbell : Z;
  cq : list CommonCompletionEntry;
  cq_head_doorbell : Z;
  fetched : list CommonCommand;
  posted : list (CommonCompletionEntry * nat);
}.

(** The [clock] counts the volatile accesses. *)
Record QState := mkQState { queue : CommandQueue; hw : Hardware; clock : nat }.

(** *** Updates of the queue *)
Definition set_sq_tail (tail : Z) (q : CommandQueue) : CommandQueue :=
  mkQueue (queue_id q) (submission_queue_size q) tail (submission_queue_head q)
    (submission_queue_tail_local q) (completion_queue_size q) (completion_queue_head q)
    (completion_expected_phase q) (completions q) (next_command_identifier q).
Definition set_sq_head (head : Z) (q : CommandQueue) : CommandQueue :=
  mkQueue (queue_id q) (submission_queue_size q) (submission_queue_tail q) head
    (submission_queue_tail_local q) (completion_queue_size q) (completion_queue_head q)
    (completion_expected_phase q) (completions q) (next_command_identifier q).
Definition set_tail_local (tail : WrappingValue) (q : CommandQueue) : CommandQueue :=
  mkQueue (queue_id q) (submission_queue_size q) (submission_queue_tail q) (submission_queue_head q)
    tail (completion_queue_size q) (completion_queue_head q)
    (completion_expected_phase q) (completions q) (next_command_identifier q).
Definition set_cq_head (head : WrappingValue) (ph : bool) (q : CommandQueue) : CommandQueue :=
  mkQueue (queue_id q) (submission_queue_size q) (submission_queue_tail q) (submission_queue_head q)
    (submission_queue_tail_local q) (completion_queue_size q) head ph (completions q)
    (next_command_identifier q).
Definition set_completions (cs : list CommonCompletionEntry) (q : CommandQueue) : CommandQueue :=
  mkQueue (queue_id q) (submission_queue_size q) (submission_queue_tail q) (submission_queue_head q)
    (submission_queue_tail_local q) (completion_queue_size q) (completion_queue_head q)
    (completion_expected_phase q) cs (next_command_identifier q).
Definition set_next_identifier (n : Z) (q : CommandQueue) : CommandQueue :=
  mkQueue (queue_id q) (submission_queue_size q) (submission_queue_tail q) (submission_queue_head q)
    (submission_queue_tail_local q) (completion_queue_size q) (completion_queue_head q)
    (completion_expected_phase q) (completions q) n.

Definition on_queue (f : CommandQueue → CommandQueue) (s : QState) : QState :=
  mkQState (f (queue s)) (hw s) (clock s).
Definition on_hw (f : Hardware → Hardware) (s : QState) : QState :=
  mkQState (queue s) (f (hw s)) (clock s).

Definition write_sq (slot : nat) (c : CommonCommand) (h : Hardware) : Hardware :=
  mkHardware (<[slot:=c]> (sq h)) (sq_tail_doorbell h) (cq h) (cq_head_doorbell h) (fetched h) (posted h).
Definition write_sq_doorbell (v : Z) (h : Hardware) : Hardware :=
  mkHardware (sq h) v (cq h) (cq_head_doorbell h) (fetched h) (posted h).
Definition write_cq_doorbell (v : Z) (h : Hardware) : Hardware :=
  mkHardware (sq h) (sq_tail_doorbell h) (cq h) v (fetched h) (posted h).

(** [binary_search_by_key] of a list that is sorted by the key: the index of the
    key, or the index at which it can be inserted *)
Definition binary_search (ident : CommandIdentifier) (l : list CommonCompletionEntry) : nat + nat :=
  match position (λ c, command_ident c =? ident) l with
  | Some i => inl i
  | None => inr (length (filter (λ c, command_ident c < ident) l))
  end.

(** ** The operations *)

Section queue.
Context `{BF : BitField}.
(** What the controller does before each volatile access of the kernel *)
Context (env : nat → Hardware → Hardware).

Local Abbreviation M := (M QState).

Definition tick {E} : M E unit :=
  modify (λ s, mkQState (queue s) (env (clock s) (hw s)) (S (clock s))).

(** A volatile read of the completion ring at the head *)
Definition read_completion {E} : M E CommonCompletionEntry :=
  _ ← tick;
  s ← gets id;
  lift (expect (cq (hw s) !! Z.to_nat (wv_value (completion_queue_head (queue s))))).

Definition is_full_for_submission {E} (q : CommandQueue) : result E bool :=
  next ← WrappingValue_add u16_max (submission_queue_tail_local q) 1;
  mret (submission_queue_head q =? wv_value next).
Definition is_submissions_empty (q : CommandQueue) : bool :=
  submission_queue_head q =? wv_value (submission_queue_tail_local q).
Definition has_submissions_pending_flush (q : CommandQueue) : bool :=
  negb (submission_queue_tail q =? wv_value (submission_queue_tail_local q)).

Definition poll_single_completion : M PollCompletionError bool :=
  possible_completion ← read_completion;
  q ← gets queue;
  if negb (bool_decide (phase (status_and_phase possible_completion) = completion_expected_phase q))
  then mret false
  else
    completion ← read_completion;
    _ ← lift (assert_ (bool_decide
           (phase (status_and_phase completion) = completion_expected_phase q)));
    _ ← lift (assert_ (queue_id q =? submission_queue_ident completion));
    _ ← modify (on_queue (set_sq_head (c_submission_queue_head completion)));
    match binary_search (command_ident completion) (completions q) with
    | inl _ => lift (Err (IdentifierStillInUse (command_ident completion)))
    | inr insert_at =>
        head ← lift (WrappingValue_add u16_max (completion_queue_head q) 1);
        _ ← modify (on_queue (set_cq_head head
               (if wv_value head =? 0 then negb (completion_expected_phase q)
                else completion_expected_phase q)));
        cs ← lift (vec_insert insert_at completion (completions q));
        _ ← modify (on_queue (set_completions cs));
        mret true
    end.

Record PollCompletionsResult := mkPollResult {
  some_new_entries : bool;
  error_on_any_entry : option PollCompletionError;
}.

Fixpoint poll_loop {E} (fuel : nat) (any_found : bool) : M E PollCompletionsResult :=
  match fuel with
  | O => lift Hang
  | S fuel =>
      r ← try poll_single_completion;
      match r with
      | inl true => poll_loop fuel true
      | inl false => mret (mkPollResult any_found None)
      | inr reason => mret (mkPollResult any_found (Some reason))
      end
  end.

Definition poll_completions {E} (fuel : nat) : M E PollCompletionsResult :=
  r ← poll_loop fuel false;
  q ← gets queue;
  _ ← (if some_new_entries r then
         _ ← tick;
         modify (on_hw (write_cq_doorbell (wv_value (completion_queue_head q))))
       else mret tt);
  mret r.

Definition make_room (fuel : nat) : M NVMEControllerError unit :=
  q ← gets queue;
  full ← lift (is_full_for_submission q);
  if full : bool then
    r ← poll_completions fuel;
    if negb (some_new_entries r) then lift (Err QueueFull)
    else
      q ← gets queue;
      full ← lift (is_full_for_submission q);
      if full : bool then lift (Err QueueFull) else mret tt
  else mret tt.

Definition submit (fuel : nat) (command : CommonCommand) : M NVMEControllerError CommandIdentifier :=
  _ ← make_room fuel;
  q ← gets queue;
  let identifier := next_command_identifier q in
  _ ← modify (on_queue (set_next_identifier ((identifier + 1) mod (u16_max + 1))));
  d ← lift (CDW0_set_command_identifier (dword0 command) identifier);
  let command := set_dword0 d command in
  let entry_slot_index := wv_value (submission_queue_tail_local q) in
  tail ← lift (WrappingValue_add u16_max (submission_queue_tail_local q) 1);
  _ ← modify (on_queue (set_tail_local tail));
  _ ← tick;
  _ ← modify (on_hw (write_sq (Z.to_nat entry_slot_index) command));
  mret identifier.

Definition cancel_submissions {E} : M E unit :=
  modify (on_queue (λ q,
    set_tail_local (WrappingValue_new (submission_queue_tail q) (submission_queue_size q)) q)).

Definition flush {E} : M E unit :=
  q ← gets queue;
  if negb (has_submissions_pending_flush q) then mret tt
  else
    _ ← tick;
    _ ← modify (on_hw (write_sq_doorbell (wv_value (submission_queue_tail_local q))));
    modify (on_queue (set_sq_tail (wv_value (submission_queue_tail_local q)))).

Definition drain_completions {E} : M E (list CommonCompletionEntry) :=
  q ← gets queue;
  _ ← modify (on_queue (set_completions []));
  mret (completions q).

Fixpoint clear_completions {E} (rounds fuel : nat) : M E unit :=
  match rounds with
  | O => lift Hang
  | S rounds =>
      _ ← drain_completions;
      r ← poll_completions fuel;
      _ ← lift (assert_ (match error_on_any_entry r with None => true | Some _ => false end));
      if some_new_entries r then clear_completions rounds fuel else mret tt
  end.

(** In the loops that wait, [rounds] bounds the rounds and [fuel] the loop of each
    [poll_completions]. *)

(** The closure [get_if_exists] *)
Definition get_if_exists {E} (ident : CommandIdentifier) : M E (option CommonCompletionEntry) :=
  q ← gets queue;
  match binary_search ident (completions q) with
  | inl index =>
      '(entry, cs) ← lift (vec_remove index (completions q));
      _ ← modify (on_queue (set_completions cs));
      mret (Some entry)
  | inr _ => mret None
  end.

Fixpoint wait_loop (rounds fuel : nat) (ident : CommandIdentifier)
    : M PollCompletionError CommonCompletionEntry :=
  match rounds with
  | O => lift Hang
  | S rounds =>
      r ← poll_completions fuel;
      if some_new_entries r then
        o ← get_if_exists ident;
        match o with
        | Some entry => mret entry
        | None => wait_loop rounds fuel ident
        end
      else
        match error_on_any_entry r with
        | Some err => lift (Err err)
        | None => wait_loop rounds fuel ident
        end
  end.

Definition wait_for (rounds fuel : nat) (ident : CommandIdentifier)
    : M PollCompletionError CommonCompletionEntry :=
  o ← get_if_exists ident;
  match o with
  | Some entry => mret entry
  | None => wait_loop rounds fuel ident
  end.

Fixpoint submit_all (fuel : nat) (commands : list CommonCommand)
    : M NVMEControllerError (list CommandIdentifier) :=
  match commands with
  | [] => mret []
  | command :: commands =>
      ident ← submit fuel command;
      idents ← submit_all fuel commands;
      mret (ident :: idents)
  end.

(** The entries that were completed before an error are part of the error. *)
Fixpoint wait_for_all (rounds fuel : nat) (idents : list CommandIdentifier)
    (completed : list CommonCompletionEntry)
    : M (list CommonCompletionEntry * PollCompletionError) (list CommonCompletionEntry) :=
  match idents with
  | [] => mret completed
  | ident :: idents =>
      r ← try (wait_for rounds fuel ident);
      match r with
      | inl entry => wait_for_all rounds fuel idents (completed ++ [entry])
      | inr err => lift (Err (completed, err))
      end
  end.
End queue.

(** ** Allocation *)

Definition allocated_queue (queue_id sub_size comp_size : Z) : CommandQueue :=
  mkQueue queue_id sub_size 0 0 (WrappingValue_zero sub_size) comp_size
    (WrappingValue_zero comp_size) true [] 0.

(** [get_doorbells]: the offsets of the doorbells of a queue from the first one *)
Definition get_doorbells {E} (stride queue_index : Z) : result E (Z * Z) :=
  _ ← assert_ (4 <=? stride);
  let submission := queue_index * stride * 2 in
  mret (submission, submission + stride).

(** [CommandQueue::allocate]; [map_rings] stands for the allocation and the mapping of the
    two pages, [invalid] for the error of the caller. *)
Definition CommandQueue_allocate {S E A} (invalid : NVMEControllerError → E) (map_rings : M S E A)
    (queue_id sub_size comp_size stride : Z) : M S E (CommandQueue * A) :=
  if sub_size <? 2 then lift (Err (invalid (InvalidQueueSize sub_size)))
  else if comp_size <? 2 then lift (Err (invalid (InvalidQueueSize comp_size)))
  else
    _ ← lift (get_doorbells stride queue_id);
    if sub_size * SUBMISSION_COMMAND_ENTRY_SIZE >? PAGE_SIZE
    then lift (Err (invalid (InvalidQueueSize sub_size)))
    else if comp_size * COMPLETION_COMMAND_ENTRY_SIZE >? PAGE_SIZE
    then lift (Err (invalid (InvalidQueueSize comp_size)))
    else
      rings ← map_rings;
      mret (allocated_queue queue_id sub_size comp_size, rings).

(** Two pages of zeros *)
Definition zero_hardware (sub_size comp_size : nat) : Hardware :=
  mkHardware (replicate sub_size CommonCommand_default) 0
    (replicate comp_size zero_completion) 0 [] [].
