(* ===== verification/NvmeQueueProofs.v ===== *)
(** * Correctness of the NVMe command queue

    The controller is any sequence of the actions its specification allows: it
    fetches the next command up to the tail doorbell, and posts a completion entry
    with the right phase bit while the ring is not full. Against every such
    controller the queue transfers the commands and the completion entries like two
    first-in first-out queues. *)

From Stdlib Require Import Sorted.
From S2P Require Import Prelude Bits NvmePrp NvmeCommand WrappingValue NvmeQueue.
Local Open Scope Z_scope.

(** ** Ring indices *)

Lemma mod_close (n a b : nat) : (a ≤ b)%nat → (b < a + n)%nat → (a mod n = b mod n)%nat → a = b.
Proof.
  intros Hab Hb Hmod. assert (n ≠ 0)%nat by lia.
  pose proof (Nat.div_mod_eq a n) as Ha. pose proof (Nat.div_mod_eq b n) as Hb'.
  assert (a / n ≤ b / n)%nat by (apply Nat.Div0.div_le_mono; lia).
  assert (b / n < a / n + 1)%nat by nia. nia.
Qed.

Lemma mod_next (n a : nat) : (0 < n)%nat →
  (Z.of_nat (a mod n) + 1) mod Z.of_nat n = Z.of_nat (S a mod n).
Proof.
  intros Hn. rewrite !Nat2Z.inj_mod, Z.add_mod_idemp_l by lia. f_equal. lia.
Qed.

(** The phase of the [j]-th entry of a ring of [n] entries: it flips whenever the
    index wraps around. *)
Definition phase_of (n j : nat) : bool := Nat.even (j / n).

Lemma phase_next (n a : nat) : (0 < n)%nat →
  phase_of n (S a) = if (S a mod n =? 0)%nat then negb (phase_of n a) else phase_of n a.
Proof.
  intros Hn. unfold phase_of. pose proof (Nat.div_mod_eq a n) as Ha.
  pose proof (Nat.mod_upper_bound a n ltac:(lia)) as Hm.
  destruct (decide (S (a mod n) = n)) as [Heq|Hne].
  - assert (S a = (a / n + 1) * n)%nat as -> by nia.
    rewrite Nat.Div0.mod_mul, Nat.div_mul by lia. cbn. by rewrite Nat.add_1_r, Nat.even_succ, <- Nat.negb_even.
  - assert (S a = S (a mod n) + (a / n) * n)%nat as -> by nia.
    rewrite Nat.Div0.mod_add, Nat.div_add by lia.
    rewrite (Nat.mod_small (S (a mod n))), (Nat.div_small (S (a mod n))) by lia. done.
Qed.

Lemma phase_last (n a : nat) : (n ≤ a)%nat → (0 < n)%nat → phase_of n (a - n) = negb (phase_of n a).
Proof.
  intros Ha Hn. unfold phase_of. replace a with (a - n + 1 * n)%nat at 2 by lia.
  rewrite Nat.div_add by lia. by rewrite Nat.add_1_r, Nat.even_succ, <- Nat.negb_even, negb_involutive.
Qed.

(** ** The controller *)

Section controller.
Context `{BF : BitField}.
Context (ident : QueueIdentifier) (ns nc : nat).

(** An entry posted as number [j] by a controller that has fetched [k] commands *)
Record entry_ok (j k : nat) (e : CommonCompletionEntry) : Prop := {
  eo_phase : phase (status_and_phase e) = phase_of nc j;
  eo_ident : submission_queue_ident e = ident;
  eo_head : c_submission_queue_head e = Z.of_nat (k mod ns);
}.

Inductive controller_step : Hardware → Hardware → Prop :=
  | ctl_fetch h c :
      sq_tail_doorbell h ≠ Z.of_nat (length (fetched h) mod ns) →
      sq h !! (length (fetched h) mod ns)%nat = Some c →
      controller_step h (mkHardware (sq h) (sq_tail_doorbell h) (cq h) (cq_head_doorbell h)
                           (fetched h ++ [c]) (posted h))
  | ctl_post h e :
      cq_head_doorbell h ≠ Z.of_nat (S (length (posted h)) mod nc) →
      entry_ok (length (posted h)) (length (fetched h)) e →
      controller_step h (mkHardware (sq h) (sq_tail_doorbell h)
                           (<[(length (posted h) mod nc)%nat:=e]> (cq h)) (cq_head_doorbell h)
                           (fetched h) (posted h ++ [(e, length (fetched h))])).

Definition controller (env : nat → Hardware → Hardware) : Prop :=
  ∀ t h, rtc controller_step h (env t h).

(** ** The invariant

    [sent] are the commands the controller knows about, [staged] those written
    since the last flush. The kernel has read [c] completion entries, the
    controller knows of [d] of them, and [hd] is the number of fetched commands
    the kernel knows of. *)
Record hw_inv (sent staged : list CommonCommand) (c d hd : nat) (h : Hardware) : Prop := {
  hi_ns : (2 ≤ ns)%nat;
  hi_nc : (2 ≤ nc)%nat;
  hi_sq_len : length (sq h) = ns;
  hi_cq_len : length (cq h) = nc;
  hi_sq_doorbell : sq_tail_doorbell h = Z.of_nat (length sent mod ns);
  hi_fetched : fetched h = take (length (fetched h)) sent;
  hi_head : (hd ≤ length (fetched h))%nat;
  hi_room : (length sent + length staged < hd + ns)%nat;
  hi_slots j : (length (fetched h) ≤ j)%nat → (j < length sent + length staged)%nat →
    sq h !! (j mod ns)%nat = (sent ++ staged) !! j;
  hi_cq_doorbell : cq_head_doorbell h = Z.of_nat (d mod nc);
  hi_read : (d ≤ c)%nat;
  hi_posted_le : (c ≤ length (posted h))%nat;
  hi_not_full : (length (posted h) < d + nc)%nat;
  hi_entries j e k : posted h !! j = Some (e, k) → (length (posted h) ≤ j + nc)%nat →
    cq h !! (j mod nc)%nat = Some e;
  hi_zero i : (length (posted h) ≤ i)%nat → (i < nc)%nat → cq h !! i = Some zero_completion;
  hi_ok j e k : posted h !! j = Some (e, k) → entry_ok j k e ∧ (k ≤ length (fetched h))%nat;
  hi_mono i j e k e' k' : posted h !! i = Some (e, k) → posted h !! j = Some (e', k') →
    (i ≤ j)%nat → (k ≤ k')%nat;
  hi_ahead j e k : posted h !! j = Some (e, k) → (c ≤ j)%nat → (hd ≤ k)%nat;
}.

Lemma hi_fetched_le sent staged c d hd h :
  hw_inv sent staged c d hd h → (length (fetched h) ≤ length sent)%nat.
Proof. intros Hi. rewrite (hi_fetched _ _ _ _ _ _ Hi), length_take. lia. Qed.

(** What the controller did is never undone. *)
Definition grows (h h' : Hardware) : Prop :=
  fetched h `prefix_of` fetched h' ∧ posted h `prefix_of` posted h'.

#[export] Instance grows_preorder : PreOrder grows.
Proof.
  split.
  - by split.
  - intros h1 h2 h3 [Ha1 Hb1] [Ha2 Hb2]. split; by etrans.
Qed.

Lemma controller_step_inv sent staged c d hd h h' :
  controller_step h h' → hw_inv sent staged c d hd h → hw_inv sent staged c d hd h'.
Proof.
  intros Hstep Hi. pose proof (hi_fetched_le _ _ _ _ _ _ Hi) as Hle.
  destruct Hi. destruct Hstep as [h cmd Hdb Hslot|h e Hdb He].
  - assert (length (fetched h) < length sent)%nat as Hlt.
    { destruct (decide (length (fetched h) = length sent)) as [Heq|]; [|lia].
      exfalso. apply Hdb. by rewrite hi_sq_doorbell0, Heq. }
    rewrite hi_slots0, lookup_app_l in Hslot by lia.
    split; cbn [sq sq_tail_doorbell cq cq_head_doorbell fetched posted]; try done.
    + rewrite length_app, Nat.add_1_r. erewrite take_S_r by done. by f_equal.
    + rewrite length_app. lia.
    + intros j Hj. rewrite length_app in Hj. apply hi_slots0. lia.
    + intros j e k Hj. rewrite length_app. destruct (hi_ok0 j e k Hj). split; [done|lia].
  - assert (length (posted h) + 1 < d + nc)%nat as Hlt.
    { destruct (decide (S (length (posted h)) = d + nc)%nat) as [Heq|]; [|lia].
      exfalso. apply Hdb. rewrite hi_cq_doorbell0, Heq. f_equal.
      replace (d + nc)%nat with (d + 1 * nc)%nat by lia. by rewrite Nat.Div0.mod_add. }
    split; cbn [sq sq_tail_doorbell cq cq_head_doorbell fetched posted]; try done.
    + by rewrite length_insert.
    + rewrite length_app. cbn. lia.
    + rewrite length_app. cbn. lia.
    + intros j e' k. rewrite length_app. cbn. intros Hj Hlast.
      apply lookup_snoc_Some in Hj as [[Hj Hold]|[<- [= <- <-]]].
      * rewrite list_lookup_insert_ne; [apply hi_entries0 with k; [done|lia]|].
        intros Hmod. symmetry in Hmod. apply mod_close in Hmod; lia.
      * apply list_lookup_insert_eq. rewrite hi_cq_len0. apply Nat.mod_upper_bound. lia.
    + intros i. rewrite length_app. cbn. intros Hge Hlt'. rewrite list_lookup_insert_ne.
      * apply hi_zero0; lia.
      * rewrite Nat.mod_small by lia. lia.
    + intros j e' k Hj. apply lookup_snoc_Some in Hj as [[Hj Hold]|[-> [= <- <-]]].
      * by apply hi_ok0.
      * by split.
    + intros i j e1 k1 e2 k2 H1 H2 Hij.
      apply lookup_snoc_Some in H1 as [[Hi Hold]|[-> [= <- <-]]],
        H2 as [[Hj Hold']|[-> [= <- <-]]]; [by eapply hi_mono0|by apply hi_ok0 in Hold as [_ ?]|lia|lia].
    + intros j e' k Hj Hc. apply lookup_snoc_Some in Hj as [[Hj Hold]|[-> [= <- <-]]];
        [by eapply hi_ahead0|done].
Qed.

Lemma controller_step_grows h h' : controller_step h h' → grows h h'.
Proof. destruct 1; split; cbn; try done; by apply prefix_app_r. Qed.

Lemma controller_rtc sent staged c d hd h h' :
  rtc controller_step h h' → hw_inv sent staged c d hd h →
  hw_inv sent staged c d hd h' ∧ grows h h'.
Proof.
  induction 1 as [h|h1 h2 h3 Hstep _ IH]; [by split|]. intros Hi.
  destruct IH as [Hi3 Hg]; [by eapply controller_step_inv|].
  split; [done|]. etrans; [by apply controller_step_grows|done].
Qed.
End controller.

(** ** The sorted list of completions *)

Definition ident_lt (a b : CommonCompletionEntry) : Prop := command_ident a < command_ident b.
Definition idents (l : list CommonCompletionEntry) : list CommandIdentifier := command_ident <$> l.

Lemma binary_search_found i l n :
  binary_search i l = inl n → ∃ e, l !! n = Some e ∧ command_ident e = i.
Proof.
  unfold binary_search. destruct (position _ l) as [m|] eqn:Hp; [|done]. intros [= <-].
  apply position_Some in Hp as (e & He & Hi & _). exists e. split; [done|]. by apply Z.eqb_eq.
Qed.

Lemma binary_search_missing i l n :
  binary_search i l = inr n → StronglySorted ident_lt l →
  (i ∉ idents l) ∧ ∃ pre post, l = pre ++ post ∧ length pre = n ∧
    Forall (λ e, command_ident e < i) pre ∧ Forall (λ e, i < command_ident e) post.
Proof.
  unfold binary_search. destruct (position _ l) as [|] eqn:Hp; [done|]. intros [= <-] Hs.
  rewrite position_None in Hp.
  assert (∀ e, e ∈ l → command_ident e ≠ i) as Hne.
  { intros e He. rewrite Forall_forall in Hp. specialize (Hp e He). cbn in Hp. lia. }
  split; [unfold idents; set_solver|]. clear Hp.
  induction l as [|e l IH]; [by exists [], []|].
  apply StronglySorted_inv in Hs as [Hs He].
  destruct (decide (command_ident e < i)) as [Hlt|Hge].
  - rewrite filter_cons_True by done.
    destruct IH as (pre & post & -> & Hlen & Hpre & Hpost); [done|set_solver|].
    exists (e :: pre), post. cbn. repeat split; [by f_equal|by constructor|done].
  - exists [], (e :: l). rewrite filter_cons_False by done.
    assert (Forall (λ e', i < command_ident e') (e :: l)) as Hall.
    { assert (command_ident e ≠ i) by (apply Hne; set_solver). constructor; [lia|].
      eapply Forall_impl; [exact He|]. intros e' Hlt. unfold ident_lt in Hlt. lia. }
    repeat split; [|constructor|done].
    assert (filter (λ c, command_ident c < i) l = []) as ->; [|done].
    inversion Hall as [|?? _ Hl]; subst. clear -Hl. induction Hl as [|x l Hx _ IH]; [done|].
    by rewrite filter_cons_False by lia.
Qed.

Lemma sorted_insert pre post e :
  StronglySorted ident_lt (pre ++ post) →
  Forall (λ e', command_ident e' < command_ident e) pre →
  Forall (λ e', command_ident e < command_ident e') post →
  StronglySorted ident_lt (pre ++ e :: post).
Proof.
  induction pre as [|x pre IH]; intros Hs Hpre Hpost; cbn in *.
  - by constructor.
  - apply StronglySorted_inv in Hs as [Hs Hx]. inversion Hpre as [|?? Hxe Hp]; subst.
    constructor; [by apply IH|]. rewrite Forall_app in Hx. destruct Hx as [H1 H2].
    apply Forall_app. split; [done|]. by constructor.
Qed.

Lemma sorted_remove pre post e :
  StronglySorted ident_lt (pre ++ e :: post) → StronglySorted ident_lt (pre ++ post).
Proof.
  induction pre as [|x pre IH]; intros Hs; cbn in *; apply StronglySorted_inv in Hs as [Hs Hx].
  - done.
  - constructor; [by apply IH|]. rewrite Forall_app in *. destruct Hx as [H1 H2]. by inversion H2.
Qed.

(** ** The queue *)

Section queue.
Context `{BF : BitField}.
Context (ident : QueueIdentifier) (ns nc : nat) (env : nat → Hardware → Hardware).
Hypothesis Henv : controller ident ns nc env.

Record queue_inv (sent staged : list CommonCommand) (c d hd : nat) (s : QState) : Prop := {
  qi_hw : hw_inv ident ns nc sent staged c d hd (hw s);
  qi_id : queue_id (queue s) = ident;
  qi_sizes : submission_queue_size (queue s) = Z.of_nat ns ∧
    completion_queue_size (queue s) = Z.of_nat nc;
  qi_u16 : Z.of_nat ns ≤ u16_max ∧ Z.of_nat nc ≤ u16_max;
  qi_tail : submission_queue_tail (queue s) = Z.of_nat (length sent mod ns);
  qi_head : submission_queue_head (queue s) = Z.of_nat (hd mod ns);
  qi_tail_local : submission_queue_tail_local (queue s) =
    mkWrapping (Z.of_nat ((length sent + length staged) mod ns)) (Z.of_nat ns);
  qi_cq_head : completion_queue_head (queue s) = mkWrapping (Z.of_nat (c mod nc)) (Z.of_nat nc);
  qi_phase : completion_expected_phase (queue s) = phase_of nc c;
  qi_sorted : StronglySorted ident_lt (completions (queue s));
  qi_next : 0 ≤ next_command_identifier (queue s) ≤ u16_max;
}.

(** The allocated queue and its zeroed rings *)
Lemma allocated_inv t : (2 ≤ ns)%nat → (2 ≤ nc)%nat → Z.of_nat ns ≤ u16_max → Z.of_nat nc ≤ u16_max →
  queue_inv [] [] 0 0 0
    (mkQState (allocated_queue ident (Z.of_nat ns) (Z.of_nat nc)) (zero_hardware ns nc) t).
Proof.
  intros Hns Hnc Hns' Hnc'.
  assert (phase_of nc 0 = true) as Hphase by (unfold phase_of; by rewrite Nat.div_small by lia).
  split; cbn; rewrite ?Nat.Div0.mod_0_l, ?Hphase; try done; [|by constructor].
  split; cbn; rewrite ?length_replicate, ?Nat.Div0.mod_0_l; try done; try lia.
  intros i _ Hi. by rewrite lookup_replicate_2.
Qed.

(** The slot at the head: the next posted entry, or an entry of the last round *)
Lemma head_slot sent staged c d hd h :
  hw_inv ident ns nc sent staged c d hd h →
  ∃ e, cq h !! (c mod nc)%nat = Some e ∧
    ((c = length (posted h) ∧ phase (status_and_phase e) = negb (phase_of nc c)) ∨
     (∃ k, posted h !! c = Some (e, k) ∧ entry_ok ident ns nc c k e ∧
        (hd ≤ k)%nat ∧ (k ≤ length (fetched h))%nat)).
Proof.
  intros Hi. destruct Hi. destruct (decide (c = length (posted h))) as [Hc|Hc].
  - destruct (decide (c < nc)%nat) as [Hlt|Hge].
    + exists zero_completion. rewrite Nat.mod_small by done. split; [apply hi_zero0; lia|]. left.
      split; [done|]. unfold phase, phase_of. rewrite Nat.div_small by done. cbn.
      rewrite get_bit_spec by done. done.
    + destruct (lookup_lt_is_Some_2 (posted h) (c - nc)) as [[e k] He]; [lia|].
      exists e. split.
      * rewrite <- (hi_entries0 (c - nc)%nat e k) by (done || lia). f_equal.
        replace c with (c - nc + 1 * nc)%nat at 1 by lia. by rewrite Nat.Div0.mod_add.
      * left. split; [done|]. destruct (hi_ok0 _ _ _ He) as [[Hp _ _] _]. rewrite Hp.
        apply phase_last; lia.
  - destruct (lookup_lt_is_Some_2 (posted h) c) as [[e k] He]; [lia|].
    exists e. split; [by apply hi_entries0 with k; [done|lia]|]. right. exists k.
    destruct (hi_ok0 _ _ _ He). split; [done|]. split; [done|]. split; [|done].
    by eapply hi_ahead0.
Qed.

Lemma wp_tick {E} err sent staged c d hd (post : unit → QState → Prop) s :
  queue_inv sent staged c d hd s →
  (∀ s', queue s' = queue s → queue_inv sent staged c d hd s' → grows (hw s) (hw s') →
     post tt s') →
  wp (tick (E:=E) env) err post s.
Proof.
  intros Hi Hpost. unfold tick. apply wp_modify. apply Hpost; cbn; [done| |].
  - destruct Hi. split; cbn; try done.
    by eapply (controller_rtc ident ns nc); [apply Henv|].
  - by eapply (controller_rtc ident ns nc); [apply Henv|apply (qi_hw _ _ _ _ _ _ Hi)].
Qed.

(** The same in the middle of an operation *)
Lemma wp_tick_hw {E} err sent staged c d hd (post : unit → QState → Prop) s :
  hw_inv ident ns nc sent staged c d hd (hw s) →
  (∀ s', queue s' = queue s → hw_inv ident ns nc sent staged c d hd (hw s') →
     grows (hw s) (hw s') → post tt s') →
  wp (tick (E:=E) env) err post s.
Proof.
  intros Hi Hpost. unfold tick. apply wp_modify.
  by apply Hpost; cbn; [|eapply (controller_rtc ident ns nc); [apply Henv|]..].
Qed.

(** Reading the slot at the head, at the state after the controller ran *)
Lemma wp_read_completion {E} err sent staged c d hd (post : CommonCompletionEntry → QState → Prop) s :
  queue_inv sent staged c d hd s →
  (∀ s' e, queue s' = queue s → queue_inv sent staged c d hd s' → grows (hw s) (hw s') →
     cq (hw s') !! (c mod nc)%nat = Some e → post e s') →
  wp (read_completion (E:=E) env) err post s.
Proof.
  intros Hi Hpost. unfold read_completion. apply wp_bind. eapply wp_tick; [done|].
  intros s' Hq Hi' Hg. apply wp_bind, wp_gets.
  destruct (head_slot _ _ _ _ _ _ (qi_hw _ _ _ _ _ _ Hi')) as (e & He & _).
  eapply wp_lift; [|by eapply Hpost]. unfold id. rewrite (qi_cq_head _ _ _ _ _ _ Hi'). cbn.
  by rewrite Nat2Z.id, He.
Qed.

(** Learning the head of the controller, and reading an entry *)
Lemma hw_inv_head sent staged c d hd hd' h :
  hw_inv ident ns nc sent staged c d hd h → (hd ≤ hd')%nat → (hd' ≤ length (fetched h))%nat →
  (∀ j e k, posted h !! j = Some (e, k) → (c ≤ j)%nat → (hd' ≤ k)%nat) →
  hw_inv ident ns nc sent staged c d hd' h.
Proof. intros [] H1 H2 H3. split; try done. lia. Qed.

Lemma hw_inv_read sent staged c d hd h :
  hw_inv ident ns nc sent staged c d hd h → (c < length (posted h))%nat →
  hw_inv ident ns nc sent staged (S c) d hd h.
Proof.
  intros [] Hc. split; try done; [lia|].
  intros j e k Hj Hle. eapply hi_ahead0; [done|lia].
Qed.

(** One round of polling: nothing new, an entry that cannot be stored yet, or the
    next entry in its place of the list *)
Inductive polled (c : nat) (s s' : QState) : bool + PollCompletionError → Prop :=
  | polled_none : length (posted (hw s')) = c → completions (queue s') = completions (queue s) →
      polled c s s' (inl false)
  | polled_conflict e k : posted (hw s') !! c = Some (e, k) →
      command_ident e ∈ idents (completions (queue s)) →
      completions (queue s') = completions (queue s) →
      polled c s s' (inr (IdentifierStillInUse (command_ident e)))
  | polled_entry e k pre post : posted (hw s') !! c = Some (e, k) →
      completions (queue s) = pre ++ post → completions (queue s') = pre ++ e :: post →
      polled c s s' (inl true).

Lemma wp_poll_single sent staged c d hd s :
  queue_inv sent staged c d hd s →
  wp (poll_single_completion env)
    (λ e s', grows (hw s) (hw s') ∧ polled c s s' (inr e) ∧
       ∃ hd', queue_inv sent staged c d hd' s')
    (λ b s', grows (hw s) (hw s') ∧ polled c s s' (inl b) ∧
       ∃ hd', queue_inv sent staged (if b then S c else c) d hd' s') s.
Proof.
  intros Hi. unfold poll_single_completion. apply wp_bind.
  eapply wp_read_completion; [done|]. intros s1 e1 Hq1 Hi1 Hg1 He1. apply wp_bind, wp_gets.
  destruct (head_slot _ _ _ _ _ _ (qi_hw _ _ _ _ _ _ Hi1)) as (e & He & Hcase).
  simplify_eq. rewrite (qi_phase _ _ _ _ _ _ Hi1).
  destruct Hcase as [[Hc Hph]|(k & Hpost & [Hph _ _] & _)]; rewrite Hph.
  { rewrite bool_decide_false by (by destruct (phase_of nc c)). apply wp_ret.
    split; [done|]. split; [|by eexists]. apply polled_none; [done|]. by rewrite Hq1. }
  rewrite bool_decide_true by done. cbn [negb]. apply wp_bind.
  eapply wp_read_completion; [done|]. intros s2 e2 Hq2 Hi2 Hg2 He2.
  assert (posted (hw s2) !! c = Some (e1, k)) as Hpost2 by (eapply prefix_lookup_Some; [done|apply Hg2]).
  pose proof (qi_hw _ _ _ _ _ _ Hi2) as Hhw.
  destruct (head_slot _ _ _ _ _ _ Hhw) as (e' & He' & [[Hc _]|(k' & Hpost' & [Hph' Hid Hhead] & Hk & Hk')]).
  { apply lookup_lt_Some in Hpost2. lia. }
  assert (e' = e2) as -> by congruence. assert (e1 = e2) as -> by congruence.
  assert (k' = k) as -> by congruence.
  apply wp_bind, wp_assert; [by rewrite Hph', bool_decide_true|].
  apply wp_bind, wp_assert; [by rewrite <- Hq2, (qi_id _ _ _ _ _ _ Hi2), Hid, Z.eqb_refl|].
  apply wp_bind, wp_modify.
  assert (hw_inv ident ns nc sent staged c d k (hw s2)) as Hhw'.
  { eapply hw_inv_head; [done|done|done|]. intros j e'' k'' Hj Hcj. by eapply (hi_mono _ _ _ _ _ _ _ _ _ Hhw). }
  assert (grows (hw s) (hw s2)) as Hg by by etrans.
  destruct Hi2. rewrite <- Hq2 in *. clear Hq2 Hi1 He1 Hph.
  destruct (binary_search _ _) as [n|n] eqn:Hbs.
  - unfold wp, lift. split; [done|]. apply binary_search_found in Hbs as (e0 & He0 & Hi0). split.
    + eapply polled_conflict; [done| |cbn; congruence].
      rewrite <- Hq1. apply list_elem_of_fmap. exists e0. split; [done|]. by eapply list_elem_of_lookup_2.
    + exists k. by split.
  - apply binary_search_missing in Hbs as (Hnew & pre & post & Hsplit & Hn & Hpre & Hpost0); [|done].
    apply wp_bind. eapply wp_lift; [rewrite qi_cq_head0; apply WrappingValue_add_one; [|lia]|].
    { destruct Hhw'. pose proof (Nat.mod_upper_bound c nc). lia. }
    assert (0 < nc)%nat as Hnc by (destruct Hhw'; lia).
    rewrite mod_next by done. apply wp_bind, wp_modify. cbn [wv_value]. apply wp_bind.
    assert (vec_insert (E:=PollCompletionError) n e2 (completions (queue s2)) = Ok (pre ++ e2 :: post)) as Hins.
    { unfold vec_insert. rewrite Hsplit, <- Hn.
      rewrite (proj2 (Nat.leb_le _ _)) by (rewrite length_app; lia).
      by rewrite take_app_length, drop_app_length. }
    eapply wp_lift; [exact Hins|]. apply wp_bind, wp_modify, wp_ret.
    split; [done|]. split; [eapply polled_entry; [done|by rewrite <- Hq1, Hsplit|done]|].
    exists k. split; cbn; try done.
    + apply hw_inv_read; [done|]. by eapply lookup_lt_Some.
    + rewrite phase_next by done. replace (Z.of_nat (S c mod nc) =? 0) with ((S c mod nc =? 0)%nat); [done|].
      destruct (Nat.eqb_spec (S c mod nc) 0), (Z.eqb_spec (Z.of_nat (S c mod nc)) 0); lia || done.
    + rewrite Hsplit in qi_sorted0. by apply sorted_insert.
Qed.

(** The entries posted as number [c] up to, but without, [c'] *)
Definition between (c c' : nat) (h : Hardware) : list CommonCompletionEntry :=
  (take (c' - c) (drop c (posted h))).*1.

Lemma between_grows c c' h h' :
  grows h h' → (c' ≤ length (posted h))%nat → between c c' h' = between c c' h.
Proof.
  intros [_ [k Hk]] Hle. unfold between. rewrite Hk. f_equal.
  destruct (decide (c ≤ c')%nat); [|by replace (c' - c)%nat with 0%nat by lia].
  rewrite drop_app_le, take_app_le by (rewrite ?length_drop; lia). done.
Qed.

Lemma between_cons c c' h e k :
  posted h !! c = Some (e, k) → (c < c')%nat → between c c' h = e :: between (S c) c' h.
Proof.
  intros He Hc. unfold between. rewrite (drop_S _ _ _ He).
  by replace (c' - c)%nat with (S (c' - S c)) by lia.
Qed.

Lemma between_nil c h : between c c h = [].
Proof. unfold between. by rewrite Nat.sub_diag. Qed.

(** What polling did: the entries from [c] to [c'] are now in the list. Without an
    error every entry that was posted before the call was read; the error names
    the identifier of the next entry, which is still in the list. *)
Record poll_result (c c' : nat) (s s' : QState) (error : option PollCompletionError) : Prop := {
  pr_le : (c ≤ c')%nat;
  pr_posted : (c' ≤ length (posted (hw s')))%nat;
  pr_entries : completions (queue s') ≡ₚ completions (queue s) ++ between c c' (hw s');
  pr_none : error = None → (length (posted (hw s)) ≤ c')%nat;
  pr_error i : error = Some (IdentifierStillInUse i) →
    ∃ e k, posted (hw s') !! c' = Some (e, k) ∧ command_ident e = i ∧
      i ∈ idents (completions (queue s'));
}.

Lemma poll_result_cons c c' s s1 s' error e k pre post :
  posted (hw s1) !! c = Some (e, k) →
  completions (queue s) = pre ++ post → completions (queue s1) = pre ++ e :: post →
  grows (hw s) (hw s1) → grows (hw s1) (hw s') →
  poll_result (S c) c' s1 s' error → poll_result c c' s s' error.
Proof.
  intros He Hs Hs1 Hg Hg' []. split; [lia|done| | |done].
  - rewrite pr_entries0, Hs, Hs1, (between_cons c c' _ e k); [|by eapply prefix_lookup_Some; [|apply Hg']|lia].
    rewrite <- !app_assoc. cbn. apply Permutation_app_head, Permutation_middle.
  - intros Hn. specialize (pr_none0 Hn). destruct Hg as [_ Hg%prefix_length]. lia.
Qed.

Lemma wp_poll_loop {E} err fuel : ∀ sent staged c d hd any s,
  queue_inv sent staged c d hd s → (d + nc ≤ c + fuel)%nat →
  wp (poll_loop (E:=E) env fuel any) err
    (λ r s', ∃ c' hd', queue_inv sent staged c' d hd' s' ∧ grows (hw s) (hw s') ∧
       some_new_entries r = any || (c <? c')%nat ∧
       poll_result c c' s s' (error_on_any_entry r)) s.
Proof.
  induction fuel as [|fuel IH]; intros sent staged c d hd any s Hi Hfuel.
  { pose proof (qi_hw _ _ _ _ _ _ Hi) as []. lia. }
  cbn [poll_loop]. apply wp_bind. unfold try.
  pose proof (wp_poll_single _ _ _ _ _ _ Hi) as Hsingle. unfold wp in Hsingle |- *.
  destruct (poll_single_completion env s) as [[b|e| |] s1]; [| |done..].
  - destruct Hsingle as (Hg & Hpoll & hd' & Hi'). inversion Hpoll as [Hlast Hcs| |e k pre post He Hs Hs1]; subst b.
    + exists c, hd'. split; [done|]. split; [done|]. split; [by rewrite Nat.ltb_irrefl, orb_false_r|].
      split; [done|lia| | |done]; [by rewrite between_nil, app_nil_r, Hcs|].
      intros _. destruct Hg as [_ Hg%prefix_length]. lia.
    + eapply wp_mono; [eapply (IH _ _ (S c) d hd' true s1 Hi'); lia| |done].
      intros r s' (c' & hd'' & Hi'' & Hg' & Hfound & Hr). exists c', hd''.
      split; [done|]. split; [by etrans|]. split.
      * rewrite Hfound. destruct Hr. destruct (Nat.ltb_spec c c'); [by rewrite orb_true_r|lia].
      * by eapply poll_result_cons.
  - destruct Hsingle as (Hg & Hpoll & hd' & Hi'). inversion Hpoll as [|e' k He Hin Hcs|]; subst e.
    exists c, hd'. split; [done|]. split; [done|]. split; [by rewrite Nat.ltb_irrefl, orb_false_r|].
    split; [done|by apply Nat.lt_le_incl; eapply lookup_lt_Some| |done|].
    + by rewrite between_nil, app_nil_r, Hcs.
    + intros i [= <-]. exists e', k. rewrite Hcs. done.
Qed.

(** Telling the controller what was read *)
Lemma hw_inv_doorbell sent staged c d hd h :
  hw_inv ident ns nc sent staged c d hd h →
  hw_inv ident ns nc sent staged c c hd (write_cq_doorbell (Z.of_nat (c mod nc)) h).
Proof. intros []. split; cbn; try done; lia. Qed.

Lemma wp_poll_completions {E} err fuel sent staged c d hd s :
  queue_inv sent staged c d hd s → (nc ≤ fuel)%nat →
  wp (poll_completions (E:=E) env fuel) err
    (λ r s', ∃ c' hd', queue_inv sent staged c' (if (c <? c')%nat then c' else d) hd' s' ∧
       grows (hw s) (hw s') ∧ some_new_entries r = (c <? c')%nat ∧
       poll_result c c' s s' (error_on_any_entry r)) s.
Proof.
  intros Hi Hfuel. unfold poll_completions. apply wp_bind.
  assert (d ≤ c)%nat by (pose proof (qi_hw _ _ _ _ _ _ Hi) as []; lia).
  eapply wp_mono; [eapply wp_poll_loop; [done|lia]| |done].
  intros r s1 (c' & hd' & Hi1 & Hg1 & Hfound & Hr). apply wp_bind, wp_gets, wp_bind. rewrite Hfound.
  cbn [orb]. destruct (Nat.ltb_spec c c') as [Hlt|Hge].
  - apply wp_bind. eapply wp_tick; [done|]. intros s2 Hq2 Hi2 Hg2. apply wp_modify, wp_ret.
    exists c', hd'. rewrite (proj2 (Nat.ltb_lt _ _) Hlt). split.
    + destruct Hi1, Hi2. split; try done. cbn. rewrite qi_cq_head0. cbn. by eapply hw_inv_doorbell.
    + split; [by etrans|]. split; [done|]. destruct Hr. split; try done; cbn.
      * destruct Hg2 as [_ Hg2%prefix_length]. lia.
      * rewrite Hq2, (between_grows _ _ (hw s1)); done.
      * intros i Hi'. destruct (pr_error0 i Hi') as (e & k & He & Hrest). rewrite Hq2. exists e, k.
        split; [|done]. by eapply prefix_lookup_Some; [|apply Hg2].
  - apply wp_ret, wp_ret. exists c', hd'. rewrite (proj2 (Nat.ltb_ge _ _) Hge).
    destruct Hr. replace c' with c in * by lia. done.
Qed.

(** *** Submitting *)

Lemma is_full_spec {E} sent staged c d hd s :
  queue_inv sent staged c d hd s →
  is_full_for_submission (E:=E) (queue s) =
    Ok (bool_decide (S (length sent + length staged) = hd + ns)%nat).
Proof.
  intros []. destruct qi_u17 as [Hns _]. pose proof (hi_fetched_le _ _ _ _ _ _ _ _ _ qi_hw0).
  destruct qi_hw0. unfold is_full_for_submission. rewrite qi_tail_local0, WrappingValue_add_one;
    [|pose proof (Nat.mod_upper_bound (length sent + length staged) ns); lia|done].
  cbn. rewrite mod_next, qi_head0 by lia. f_equal. case_bool_decide as Hfull.
  - rewrite Hfull. replace (hd + ns)%nat with (hd + 1 * ns)%nat by lia. rewrite Nat.Div0.mod_add.
    apply Z.eqb_refl.
  - apply Z.eqb_neq. intros Hmod%Nat2Z.inj. apply mod_close in Hmod; lia.
Qed.

(** The entries that a call moved to the list *)
Definition moved (c c' : nat) (s s' : QState) : Prop :=
  (c ≤ c')%nat ∧ (c' ≤ length (posted (hw s')))%nat ∧ grows (hw s) (hw s') ∧
  completions (queue s') ≡ₚ completions (queue s) ++ between c c' (hw s').

Lemma moved_refl sent staged c d hd s : queue_inv sent staged c d hd s → moved c c s s.
Proof.
  intros []. destruct qi_hw0. split; [done|]. split; [done|]. split; [done|].
  by rewrite between_nil, app_nil_r.
Qed.

Lemma moved_same c c' s s1 s2 :
  moved c c' s s1 → completions (queue s2) = completions (queue s1) → grows (hw s1) (hw s2) →
  moved c c' s s2.
Proof.
  intros (Hle & Hlen & Hg & Hcs) Hq Hg2. split; [done|]. split.
  { destruct Hg2 as [_ ?%prefix_length]. lia. }
  split; [by etrans|]. by rewrite Hq, (between_grows _ _ (hw s1)).
Qed.

Lemma queue_room sent staged c d hd s :
  queue_inv sent staged c d hd s → (length sent + length staged < hd + ns)%nat.
Proof. intros []. by destruct qi_hw0. Qed.

(** [QueueFull]: the ring was full, and no entry was read or it still is. *)
Definition no_room (n c c' hd hd' : nat) : Prop :=
  (S n = hd + ns)%nat ∧ (c' = c ∨ (S n = hd' + ns)%nat).

Lemma wp_make_room fuel sent staged c d hd s :
  queue_inv sent staged c d hd s → (nc ≤ fuel)%nat →
  wp (make_room env fuel)
    (λ e s', e = QueueFull ∧ ∃ c' d' hd', queue_inv sent staged c' d' hd' s' ∧ moved c c' s s' ∧
       no_room (length sent + length staged) c c' hd hd')
    (λ _ s', ∃ c' d' hd', queue_inv sent staged c' d' hd' s' ∧ moved c c' s s' ∧
       (S (length sent + length staged) < hd' + ns)%nat) s.
Proof.
  intros Hi Hfuel. unfold make_room. apply wp_bind, wp_gets, wp_bind.
  eapply wp_lift; [by eapply is_full_spec|]. case_bool_decide as Hfull.
  - apply wp_bind. eapply wp_mono; [by eapply (wp_poll_completions (λ _ _, False))| |done].
    intros r s1 (c' & hd' & Hi1 & Hg & Hfound & []). rewrite Hfound.
    assert (moved c c' s s1) as Hmoved by done.
    destruct (Nat.ltb_spec c c') as [Hlt|Hge]; cbn [negb].
    + apply wp_bind, wp_gets, wp_bind. eapply wp_lift; [by eapply is_full_spec|].
      pose proof (queue_room _ _ _ _ _ _ Hi1). case_bool_decide as Hfull'.
      * unfold wp, lift. split; [done|]. exists c', c', hd'. split; [done|]. split; [done|].
        split; [done|by right].
      * apply wp_ret. exists c', c', hd'. split; [done|]. split; [done|]. lia.
    + unfold wp, lift. split; [done|]. exists c', d, hd'. split; [done|]. split; [done|].
      split; [done|left; lia].
  - apply wp_ret. exists c, d, hd. split; [done|]. split; [by eapply moved_refl|].
    pose proof (queue_room _ _ _ _ _ _ Hi). lia.
Qed.

(** The command as it is written to the ring *)
Definition with_identifier (i : CommandIdentifier) (command : CommonCommand) : CommonCommand :=
  match CDW0_set_command_identifier (E:=unit) (dword0 command) i with
  | Ok d => set_dword0 d command
  | _ => command
  end.

Lemma set_identifier_Ok {E} command i :
  0 ≤ dword0 command → 0 ≤ i ≤ u16_max →
  ∃ d, CDW0_set_command_identifier (E:=E) (dword0 command) i = Ok d ∧
    set_dword0 d command = with_identifier i command.
Proof.
  intros Hd Hi. unfold with_identifier, CDW0_set_command_identifier. unfold u16_max in Hi.
  rewrite !set_bits_spec by lia. by eexists.
Qed.

(** Writing a command to the slot at the tail *)
Lemma hw_inv_write sent staged c d hd h command :
  hw_inv ident ns nc sent staged c d hd h → (S (length sent + length staged) < hd + ns)%nat →
  hw_inv ident ns nc sent (staged ++ [command]) c d hd
    (write_sq ((length sent + length staged) mod ns) command h).
Proof.
  intros Hi Hroom. pose proof (hi_fetched_le _ _ _ _ _ _ _ _ _ Hi). destruct Hi.
  split; cbn [write_sq sq sq_tail_doorbell cq cq_head_doorbell fetched posted]; try done.
  - by rewrite length_insert.
  - rewrite length_app. cbn. lia.
  - intros j Hj. rewrite length_app. cbn. intros Hj'. rewrite app_assoc.
    destruct (decide (j = length sent + length staged)%nat) as [->|Hne].
    + rewrite list_lookup_insert_eq by (rewrite hi_sq_len0; apply Nat.mod_upper_bound; lia).
      rewrite lookup_app_r by (rewrite length_app; lia). by rewrite length_app, Nat.sub_diag.
    + rewrite lookup_app_l by (rewrite length_app; lia). rewrite list_lookup_insert_ne.
      * apply hi_slots0; lia.
      * intros Hmod. symmetry in Hmod. apply mod_close in Hmod; lia.
Qed.

(** *** Identifiers *)

(** Calls that give out no identifier *)
Definition keeps_next {E A} (m : M QState E A) : Prop :=
  ∀ s, next_command_identifier (queue (m s).2) = next_command_identifier (queue s).

Lemma next_bind {E A B} (m : M QState E A) (f : A → M QState E B) :
  keeps_next m → (∀ a, keeps_next (f a)) → keeps_next (m ≫= f).
Proof.
  intros Hm Hf s. rewrite run_bind. specialize (Hm s). destruct (m s) as [[a| | |] s1]; try done.
  by rewrite (Hf a s1).
Qed.
Lemma next_try {E E' A} (m : M QState E A) : keeps_next m → keeps_next (try (E':=E') m).
Proof. intros Hm s. specialize (Hm s). unfold try. by destruct (m s) as [[| | |] ?]. Qed.
Lemma next_lift {E A} (r : result E A) : keeps_next (lift r).
Proof. done. Qed.
Lemma next_gets {E A} (f : QState → A) : keeps_next (E:=E) (gets f).
Proof. done. Qed.
Lemma next_ret {E A} (a : A) : keeps_next (E:=E) (mret a).
Proof. done. Qed.
Lemma next_modify {E} (f : QState → QState) :
  (∀ s, next_command_identifier (queue (f s)) = next_command_identifier (queue s)) → keeps_next (E:=E) (modify f).
Proof. intros Hf s. apply Hf. Qed.
Create HintDb next.
Hint Resolve next_try next_lift next_gets next_ret : next.
Ltac next_steps := repeat first [apply next_bind; [|intros ?] | apply next_modify; done | case_match; cbn [negb] | solve [auto with next]].

Lemma poll_single_next : keeps_next (poll_single_completion env).
Proof. unfold poll_single_completion, read_completion, tick. next_steps. Qed.
Hint Resolve poll_single_next : next.
Lemma poll_loop_next {E} fuel : ∀ b, keeps_next (poll_loop (E:=E) env fuel b).
Proof. induction fuel as [|fuel IH]; intros b; cbn [poll_loop]; next_steps. Qed.
Hint Resolve poll_loop_next : next.
Lemma poll_completions_next {E} fuel : keeps_next (poll_completions (E:=E) env fuel).
Proof. unfold poll_completions, tick. next_steps. Qed.
Hint Resolve poll_completions_next : next.
Lemma make_room_next fuel : keeps_next (make_room env fuel).
Proof. unfold make_room. next_steps. Qed.

Lemma wp_next {E A} (m : M QState E A) (err : E → QState → Prop) (post : A → QState → Prop) s :
  keeps_next m → wp m err post s →
  wp m (λ e s', err e s' ∧ next_command_identifier (queue s') = next_command_identifier (queue s))
    (λ a s', post a s' ∧ next_command_identifier (queue s') = next_command_identifier (queue s)) s.
Proof. intros Hn. specialize (Hn s). unfold wp. by destruct (m s) as [[| | |] ?]. Qed.

Lemma wp_submit fuel sent staged c d hd s command :
  queue_inv sent staged c d hd s → 0 ≤ dword0 command → (nc ≤ fuel)%nat →
  wp (submit env fuel command)
    (λ e s', e = QueueFull ∧ ∃ c' d' hd', queue_inv sent staged c' d' hd' s' ∧ moved c c' s s' ∧
       no_room (length sent + length staged) c c' hd hd' ∧
       next_command_identifier (queue s') = next_command_identifier (queue s))
    (λ i s', i = next_command_identifier (queue s) ∧ ∃ c' d' hd',
       queue_inv sent (staged ++ [with_identifier i command]) c' d' hd' s' ∧ moved c c' s s' ∧
       0 ≤ i ≤ u16_max ∧ next_command_identifier (queue s') = (i + 1) mod (u16_max + 1)) s.
Proof.
  intros Hi Hcmd Hfuel. unfold submit. apply wp_bind.
  eapply wp_mono; [apply wp_next; [apply make_room_next|by eapply wp_make_room]| |].
  2:{ intros e s1 [[-> (c' & d' & hd' & Hi1 & Hmoved & Hno)] Hn]. split; [done|]. by exists c', d', hd'. }
  intros _ s1 [(c' & d' & hd' & Hi1 & Hmoved & Hroom) Hn]. rewrite <- Hn. apply wp_bind, wp_gets, wp_bind, wp_modify.
  cbn zeta. destruct Hi1. destruct qi_u17 as [Hns Hnc].
  destruct (set_identifier_Ok (E:=NVMEControllerError) command (next_command_identifier (queue s1)))
    as (d0 & Hd0 & Heq); [done|done|]. apply wp_bind. eapply wp_lift; [exact Hd0|].
  rewrite Heq, qi_tail_local0. apply wp_bind. assert (0 < ns)%nat by (destruct qi_hw0; lia).
  eapply wp_lift.
  { apply WrappingValue_add_one; [|done]. pose proof (Nat.mod_upper_bound (length sent + length staged) ns). lia. }
  assert (0 ≤ (next_command_identifier (queue s1) + 1) mod (u16_max + 1) ≤ u16_max) as Hnext
    by (pose proof (Z.mod_pos_bound (next_command_identifier (queue s1) + 1) (u16_max + 1) eq_refl); lia).
  rewrite mod_next by done. apply wp_bind, wp_modify, wp_bind.
  eapply wp_tick_hw; [exact qi_hw0|]. cbn [on_queue queue hw wv_value]. intros s2 Hq2 Hhw2 Hg2.
  apply wp_bind, wp_modify, wp_ret. rewrite Nat2Z.id. split; [done|]. exists c', d', hd'. split; [|split; [|split; [done|]]].
  - split; unfold on_hw; cbn [queue hw]; rewrite ?Hq2; try done.
    + by apply hw_inv_write.
    + cbn. rewrite length_app. cbn. by replace (length sent + (length staged + 1))%nat
        with (S (length sent + length staged)) by lia.
  - eapply moved_same; [exact Hmoved|by cbn; rewrite Hq2|done].
  - cbn. by rewrite Hq2.
Qed.

(** *** The other operations *)

Lemma wp_flush {E} err sent staged c d hd s :
  queue_inv sent staged c d hd s →
  wp (flush (E:=E) env) err
    (λ _ s', queue_inv (sent ++ staged) [] c d hd s' ∧ moved c c s s') s.
Proof.
  intros Hi. unfold flush. apply wp_bind, wp_gets.
  pose proof (hi_fetched_le _ _ _ _ _ _ _ _ _ (qi_hw _ _ _ _ _ _ Hi)) as Hle.
  assert (∀ h, hw_inv ident ns nc sent staged c d hd h →
            hw_inv ident ns nc (sent ++ staged) [] c d hd
              (write_sq_doorbell (Z.of_nat ((length sent + length staged) mod ns)) h)) as Hdb.
  { intros h Hh. pose proof (hi_fetched_le _ _ _ _ _ _ _ _ _ Hh). destruct Hh.
    split; cbn; try done; rewrite ?length_app, ?Nat.add_0_r, ?app_nil_r; try done.
    by rewrite take_app_le by done. }
  unfold has_submissions_pending_flush.
  rewrite (qi_tail_local _ _ _ _ _ _ Hi), (qi_tail _ _ _ _ _ _ Hi). cbn [wv_value].
  destruct (Z.eqb_spec (Z.of_nat (length sent mod ns)) (Z.of_nat ((length sent + length staged) mod ns)))
    as [Hsame|Hne]; cbn [negb].
  - apply wp_ret. assert (length sent = length sent + length staged)%nat as Hlen.
    { apply Nat2Z.inj in Hsame. pose proof (qi_hw _ _ _ _ _ _ Hi) as []. apply mod_close in Hsame; lia. }
    destruct staged; [|cbn in Hlen; lia]. rewrite app_nil_r. split; [done|by eapply moved_refl].
  - apply wp_bind. eapply wp_tick; [done|]. intros s1 Hq1 Hi1 Hg1. apply wp_bind, wp_modify.
    unfold wp, modify. split.
    + destruct Hi1. split; cbn in *; rewrite ?length_app, ?Nat.add_0_r; try done. by apply Hdb.
    + eapply moved_same; [by eapply moved_refl|by cbn; rewrite Hq1|done].
Qed.

Lemma wp_cancel {E} err sent staged c d hd s :
  queue_inv sent staged c d hd s →
  wp (cancel_submissions (E:=E)) err
    (λ _ s', queue_inv sent [] c d hd s' ∧ moved c c s s') s.
Proof.
  intros Hi. unfold cancel_submissions. apply wp_modify. split.
  - destruct Hi. split; cbn; try done.
    + destruct qi_hw0. split; try done; cbn; [lia|]. intros j Hj Hj'.
      rewrite hi_slots0 by lia. by rewrite app_nil_r, lookup_app_l by lia.
    + destruct qi_sizes0 as [Hs _]. by rewrite qi_tail0, Hs, Nat.add_0_r.
  - eapply moved_same; [by eapply moved_refl|done|done].
Qed.

Lemma set_completions_inv sent staged c d hd s cs :
  queue_inv sent staged c d hd s → StronglySorted ident_lt cs →
  queue_inv sent staged c d hd (on_queue (set_completions cs) s).
Proof. intros [] Hs. by split. Qed.

Lemma wp_drain {E} err sent staged c d hd s :
  queue_inv sent staged c d hd s →
  wp (drain_completions (E:=E)) err
    (λ cs s', cs = completions (queue s) ∧ completions (queue s') = [] ∧ hw s' = hw s ∧
       queue_inv sent staged c d hd s') s.
Proof.
  intros Hi. unfold drain_completions. apply wp_bind, wp_gets, wp_bind, wp_modify, wp_ret.
  split; [done|]. split; [done|]. split; [done|]. apply set_completions_inv; [done|constructor].
Qed.

Lemma wp_get_if_exists {E} err i sent staged c d hd s :
  queue_inv sent staged c d hd s →
  wp (get_if_exists (E:=E) i) err
    (λ o s', queue_inv sent staged c d hd s' ∧ hw s' = hw s ∧
       match o with
       | Some e => command_ident e = i ∧
           completions (queue s) ≡ₚ e :: completions (queue s')
       | None => s' = s ∧ i ∉ idents (completions (queue s))
       end) s.
Proof.
  intros Hi. unfold get_if_exists. apply wp_bind, wp_gets.
  destruct (binary_search i _) as [n|n] eqn:Hbs.
  - apply binary_search_found in Hbs as (e & He & Hie).
    pose proof (list_elem_of_split_length _ _ _ He) as (pre & post & Hsplit & Hn).
    apply wp_bind. eapply wp_lift; [by rewrite Hsplit; apply vec_remove_middle|].
    apply wp_bind, wp_modify, wp_ret. split.
    + apply set_completions_inv; [done|]. pose proof (qi_sorted _ _ _ _ _ _ Hi) as Hs.
      rewrite Hsplit in Hs. by eapply sorted_remove.
    + split; [done|]. split; [done|]. cbn. rewrite Hsplit. by rewrite Permutation_middle.
  - apply wp_ret. split; [done|]. split; [done|]. split; [done|].
    by eapply binary_search_missing; [done|apply (qi_sorted _ _ _ _ _ _ Hi)].
Qed.
End queue.
