(* ===== verification/NvmeQueueSpec.v ===== *)
(** * What the NVMe command queue promises

    The theorems of the command queue, for every controller that follows its
    protocol: all operations together refine a pair of first-in first-out queues,
    and the contracts of [submit], [poll_completions] and [wait_for]. *)

From Stdlib Require Import Sorted.
From S2P Require Import Prelude Bits NvmePrp NvmeCommand WrappingValue NvmeQueue NvmeQueueProofs.
Local Open Scope Z_scope.

(** ** Lists of entries *)

Lemma between_app c c1 c2 h :
  (c ≤ c1)%nat → (c1 ≤ c2)%nat → between c c2 h = between c c1 h ++ between c1 c2 h.
Proof.
  intros H1 H2. unfold between. rewrite <- fmap_app. f_equal.
  replace (c2 - c)%nat with ((c1 - c) + (c2 - c1))%nat by lia.
  rewrite <- take_take_drop. by rewrite drop_drop, Nat.add_comm, Nat.sub_add.
Qed.

Lemma between_elem c c' j h e k :
  posted h !! j = Some (e, k) → (c ≤ j)%nat → (j < c')%nat → e ∈ between c c' h.
Proof.
  intros Hj H1 H2. unfold between. apply list_elem_of_fmap. exists (e, k). split; [done|].
  apply list_elem_of_lookup. exists (j - c)%nat. rewrite lookup_take_lt by lia.
  rewrite lookup_drop. by replace (c + (j - c))%nat with j by lia.
Qed.

Lemma sorted_ident_unique l e e' :
  StronglySorted ident_lt l → e ∈ l → e' ∈ l → command_ident e = command_ident e' → e = e'.
Proof.
  induction 1 as [|x l Hs IH Hx]; intros He He' Heq; [by apply not_elem_of_nil in He|].
  rewrite Forall_forall in Hx. unfold ident_lt in Hx.
  apply elem_of_cons in He as [->|He], He' as [->|He']; [done| | |by apply IH].
  - specialize (Hx _ He'). lia.
  - specialize (Hx _ He). lia.
Qed.

(** ** Runs *)

Inductive op :=
  | OpSubmit (command : CommonCommand)
  | OpFlush
  | OpCancel
  | OpPoll
  | OpDrain
  (** [wait_for], observed for some number of rounds *)
  | OpWait (rounds : nat) (i : CommandIdentifier).

(** The abstract state: the commands that were flushed, those that were submitted
    since, and the completion entries that were handed out. *)
Record Queues := mkQueues {
  sent : list CommonCommand;
  staged : list CommonCommand;
  claimed : list CommonCompletionEntry;
}.

Section runs.
Context `{BF : BitField}.
Context (env : nat → Hardware → Hardware) (fuel : nat).

(** One operation; [None] is a panic or a loop that does not end. *)
Definition run_op (o : op) (qs : Queues * QState) : option (Queues * QState) :=
  let '(l, s) := qs in
  match o with
  | OpSubmit command =>
      match submit env fuel command s with
      | (Ok i, s) =>
          Some (mkQueues (sent l) (staged l ++ [with_identifier i command]) (claimed l), s)
      | (Err _, s) => Some (l, s)
      | _ => None
      end
  | OpFlush =>
      match flush (E:=unit) env s with
      | (Ok _, s) => Some (mkQueues (sent l ++ staged l) [] (claimed l), s)
      | _ => None
      end
  | OpCancel =>
      match cancel_submissions (E:=unit) s with
      | (Ok _, s) => Some (mkQueues (sent l) [] (claimed l), s)
      | _ => None
      end
  | OpPoll =>
      match poll_completions (E:=unit) env fuel s with
      | (Ok _, s) => Some (l, s)
      | _ => None
      end
  | OpDrain =>
      match drain_completions (E:=unit) s with
      | (Ok cs, s) => Some (mkQueues (sent l) (staged l) (claimed l ++ cs), s)
      | _ => None
      end
  | OpWait rounds i =>
      match wait_for env rounds fuel i s with
      | (Ok e, s) => Some (mkQueues (sent l) (staged l) (claimed l ++ [e]), s)
      | (Err _, s) | (Hang, s) => Some (l, s)
      | (Panic, _) => None
      end
  end.

Fixpoint run_ops (ops : list op) (qs : Queues * QState) : option (Queues * QState) :=
  match ops with
  | [] => Some qs
  | o :: ops => run_op o qs ≫= run_ops ops
  end.
End runs.

(** A command whose first word is a number *)
Definition op_ok (o : op) : Prop := match o with OpSubmit c => 0 ≤ dword0 c | _ => True end.

Section spec.
Context `{BF : BitField}.
Context (ident : QueueIdentifier) (ns nc : nat) (env : nat → Hardware → Hardware) (fuel : nat).
Hypothesis Henv : controller ident ns nc env.
Hypothesis Hfuel : (nc ≤ fuel)%nat.

Local Abbreviation queue_inv := (queue_inv ident ns nc).

(** Every entry that was read is either handed out or in the list. *)
Definition accounted (cl : list CommonCompletionEntry) (c : nat) (s : QState) : Prop :=
  (c ≤ length (posted (hw s)))%nat ∧ cl ++ completions (queue s) ≡ₚ between 0 c (hw s).

Lemma accounted_moved cl c c' s s' : accounted cl c s → moved c c' s s' → accounted cl c' s'.
Proof.
  intros [Hle Hcl] (Hcc & Hlen & Hg & Hcs). split; [done|].
  rewrite Hcs, app_assoc, Hcl, (between_app 0 c c') by lia. by rewrite (between_grows 0 c (hw s) (hw s')).
Qed.

(** Waiting in the loop: the call hands out the entry, gives up, or goes on. *)
Definition waited (i : CommandIdentifier) (sent staged : list CommonCommand) (c : nat)
    (s s' : QState) (r : result PollCompletionError CommonCompletionEntry) : Prop :=
  ∃ c' d' hd' s1, queue_inv sent staged c' d' hd' s' ∧ moved c c' s s1 ∧ hw s' = hw s1 ∧
    match r with
    | Ok e => command_ident e = i ∧ completions (queue s1) ≡ₚ e :: completions (queue s')
    | Panic => False
    | _ => s' = s1
    end.

Lemma moved_trans c c1 c2 s s1 s2 : moved c c1 s s1 → moved c1 c2 s1 s2 → moved c c2 s s2.
Proof.
  intros (H1 & L1 & G1 & C1) (H2 & L2 & G2 & C2). split; [lia|]. split; [done|]. split; [by etrans|].
  rewrite C2, C1, (between_app c c1 c2) by lia. by rewrite <- app_assoc, (between_grows c c1 (hw s1) (hw s2)).
Qed.

Lemma wait_loop_spec rounds : ∀ i sent staged c d hd s,
  queue_inv sent staged c d hd s →
  let '(r, s') := wait_loop env rounds fuel i s in waited i sent staged c s s' r.
Proof.
  induction rounds as [|rounds IH]; intros i snt stg c d hd s Hi; cbn [wait_loop].
  { exists c, d, hd, s. split; [done|]. split; [by eapply moved_refl|done]. }
  rewrite run_bind.
  pose proof (wp_poll_completions ident ns nc env Henv (E:=PollCompletionError) (λ _ _, False)
                fuel _ _ _ _ _ _ Hi Hfuel) as Hpoll.
  unfold wp in Hpoll. destruct (poll_completions env fuel s) as [[r| | |] s1]; [|done..].
  destruct Hpoll as (c' & hd' & Hi1 & Hg & Hfound & []).
  assert (moved c c' s s1) as Hmoved by done.
  assert (∀ s2 r2, waited i snt stg c' s1 s2 r2 → waited i snt stg c s s2 r2) as Hgo.
  { intros s2 r2 (c2 & d2 & hd2 & s3 & H1 & H2 & H3). exists c2, d2, hd2, s3. split; [done|].
    split; [by eapply moved_trans|done]. }
  destruct (some_new_entries r).
  - rewrite run_bind.
    pose proof (wp_get_if_exists ident ns nc (E:=PollCompletionError) (λ _ _, False) i _ _ _ _ _ _ Hi1) as Hget.
    unfold wp in Hget. destruct (get_if_exists i s1) as [[[e|]| | |] s2]; [| |done..].
    + destruct Hget as (Hi2 & Hhw & He). eexists c', _, _, s1. split; [exact Hi2|]. done.
    + destruct Hget as (Hi2 & _ & -> & _). specialize (IH i _ _ _ _ _ _ Hi1).
      destruct (wait_loop env rounds fuel i s1). by apply Hgo.
  - destruct (error_on_any_entry r) as [err|].
    + eexists c', _, _, s1. split; [exact Hi1|]. done.
    + specialize (IH i _ _ _ _ _ _ Hi1). destruct (wait_loop env rounds fuel i s1). by apply Hgo.
Qed.

Lemma wait_for_outcome rounds i sent staged c d hd s :
  queue_inv sent staged c d hd s →
  let '(r, s') := wait_for env rounds fuel i s in waited i sent staged c s s' r.
Proof.
  intros Hi. unfold wait_for. rewrite run_bind.
  pose proof (wp_get_if_exists ident ns nc (E:=PollCompletionError) (λ _ _, False) i _ _ _ _ _ _ Hi) as Hget.
  unfold wp in Hget. destruct (get_if_exists i s) as [[[e|]| | |] s2]; [| |done..].
  - destruct Hget as (Hi2 & Hhw & He). eexists c, _, _, s. split; [exact Hi2|].
    split; [by eapply moved_refl|done].
  - destruct Hget as (_ & _ & -> & _). by eapply wait_loop_spec.
Qed.

(** A call that does not come back: the controller ran at least once in every round and
    posted no entry with the identifier that could be read. *)
Lemma poll_single_clock s : (clock s < clock (poll_single_completion env s).2)%nat.
Proof.
  unfold poll_single_completion, read_completion, tick, modify, gets, lift, mbind, M_bind, mret, M_ret.
  repeat (case_match; simplify_eq; cbn; try lia).
Qed.

Lemma poll_loop_clock {E} n : ∀ any s, (0 < n)%nat → (clock s < clock (poll_loop (E:=E) env n any s).2)%nat.
Proof.
  induction n as [|n IH]; intros any s Hn; [lia|]. cbn [poll_loop]. rewrite run_bind. unfold try.
  pose proof (poll_single_clock s) as Hc.
  destruct (poll_single_completion env s) as [[[|]| | |] s1]; cbn in Hc; try done.
  destruct n as [|n]; [done|]. specialize (IH true s1 ltac:(lia)). lia.
Qed.

Lemma poll_completions_clock {E} s : (0 < fuel)%nat → (clock s < clock (poll_completions (E:=E) env fuel s).2)%nat.
Proof.
  intros Hf. unfold poll_completions. rewrite run_bind. pose proof (poll_loop_clock (E:=E) fuel false s Hf) as Hc.
  destruct (poll_loop env fuel false s) as [[r| | |] s1]; cbn in Hc; try done.
  unfold gets, tick, modify, mbind, M_bind, mret, M_ret. destruct (some_new_entries r); cbn; lia.
Qed.

Lemma wait_loop_hang rounds : ∀ i sent staged c d hd s s',
  queue_inv sent staged c d hd s → i ∉ idents (completions (queue s)) →
  wait_loop env rounds fuel i s = (Hang, s') →
  i ∉ idents (completions (queue s')) ∧ (clock s + rounds ≤ clock s')%nat.
Proof.
  induction rounds as [|rounds IH]; intros i snt stg c d hd s s' Hi Hnot; cbn [wait_loop].
  { unfold lift. intros [= <-]. split; [done|lia]. }
  rewrite run_bind.
  pose proof (wp_poll_completions ident ns nc env Henv (E:=PollCompletionError) (λ _ _, False)
                fuel _ _ _ _ _ _ Hi Hfuel) as Hpoll.
  assert (0 < fuel)%nat as Hf by (pose proof (qi_hw _ _ _ _ _ _ _ _ _ Hi) as []; lia).
  pose proof (poll_completions_clock (E:=PollCompletionError) s Hf) as Hc.
  unfold wp in Hpoll. destruct (poll_completions env fuel s) as [[r| | |] s1]; [|done..]. cbn in Hc.
  destruct Hpoll as (c' & hd' & Hi1 & Hg & Hfound & []).
  assert (∀ s2, i ∉ idents (completions (queue s1)) → wait_loop env rounds fuel i s1 = (Hang, s2) →
    i ∉ idents (completions (queue s2)) ∧ (clock s + S rounds ≤ clock s2)%nat) as Hgo.
  { intros s2 Hn2 H2. destruct (IH _ _ _ _ _ _ _ _ Hi1 Hn2 H2). split; [done|lia]. }
  destruct (some_new_entries r).
  - rewrite run_bind.
    pose proof (wp_get_if_exists ident ns nc (E:=PollCompletionError) (λ _ _, False) i _ _ _ _ _ _ Hi1) as Hget.
    unfold wp in Hget. destruct (get_if_exists i s1) as [[[e|]| | |] s2]; [done| |done..].
    destruct Hget as (Hi2 & _ & -> & Hn). by apply Hgo.
  - destruct (error_on_any_entry r) as [err|]; [done|]. apply Hgo.
    symmetry in Hfound. apply Nat.ltb_ge in Hfound. assert (c' = c) as -> by lia.
    rewrite between_nil, app_nil_r in pr_entries. unfold idents. by rewrite pr_entries.
Qed.

Lemma wait_for_hang rounds i sent staged c d hd s s' :
  queue_inv sent staged c d hd s → wait_for env rounds fuel i s = (Hang, s') →
  i ∉ idents (completions (queue s')) ∧ (clock s + rounds ≤ clock s')%nat.
Proof.
  intros Hi. unfold wait_for. rewrite run_bind.
  pose proof (wp_get_if_exists ident ns nc (E:=PollCompletionError) (λ _ _, False) i _ _ _ _ _ _ Hi) as Hget.
  unfold wp in Hget. destruct (get_if_exists i s) as [[[e|]| | |] s2]; [done| |done..].
  destruct Hget as (_ & _ & -> & Hn). by eapply wait_loop_hang.
Qed.

(** The clock never goes back. *)
Definition ticks {E A} (m : M QState E A) : Prop := ∀ s, (clock s ≤ clock (m s).2)%nat.

Lemma ticks_bind {E A B} (m : M QState E A) (f : A → M QState E B) :
  ticks m → (∀ a, ticks (f a)) → ticks (m ≫= f).
Proof.
  intros Hm Hf s. rewrite run_bind. specialize (Hm s). destruct (m s) as [[a| | |] s1]; cbn in *; try done.
  specialize (Hf a s1). lia.
Qed.
Lemma ticks_pure {E A} (m : M QState E A) : (∀ s, clock (m s).2 = clock s) → ticks m.
Proof. intros Hm s. by rewrite Hm. Qed.
Lemma ticks_tick {E} : ticks (tick (E:=E) env).
Proof. intros s. cbn. lia. Qed.
Lemma ticks_poll {E} : ticks (poll_completions (E:=E) env fuel).
Proof.
  intros s. destruct (decide (fuel = 0)%nat) as [Hf|Hf].
  - unfold poll_completions. by rewrite Hf.
  - apply Nat.lt_le_incl, poll_completions_clock. lia.
Qed.
Lemma ticks_get_if_exists {E} i : ticks (get_if_exists (E:=E) i).
Proof.
  intros s. unfold get_if_exists. rewrite run_gets. destruct (binary_search _ _) as [n|n]; [|done].
  rewrite run_bind. unfold lift. destruct (vec_remove n _) as [[e cs]| | |]; done.
Qed.
Lemma ticks_wait_loop rounds i : ticks (wait_loop env rounds fuel i).
Proof.
  induction rounds as [|rounds IH]; [by intros s|]. cbn [wait_loop]. apply ticks_bind; [apply ticks_poll|].
  intros r. destruct (some_new_entries r).
  - apply ticks_bind; [apply ticks_get_if_exists|]. intros [e|]; [by intros s|done].
  - by destruct (error_on_any_entry r); [intros s|].
Qed.
Lemma ticks_wait_for rounds i : ticks (wait_for env rounds fuel i).
Proof.
  apply ticks_bind; [apply ticks_get_if_exists|]. intros [e|]; [by intros s|apply ticks_wait_loop].
Qed.
Lemma ticks_flush {E} : ticks (flush (E:=E) env).
Proof.
  apply ticks_bind; [by intros s|]. intros q. destruct (negb _); [by intros s|].
  apply ticks_bind; [apply ticks_tick|]. intros _. by apply ticks_pure.
Qed.
Lemma ticks_submit command : ticks (submit env fuel command).
Proof.
  apply ticks_bind.
  - apply ticks_bind; [by intros s|]. intros q. apply ticks_bind; [by intros s|]. intros [|]; [|by intros s].
    apply ticks_bind; [apply ticks_poll|]. intros r. destruct (negb _); [by intros s|].
    apply ticks_bind; [by intros s|]. intros q'. apply ticks_bind; [by intros s|]. by intros [|] s.
  - intros _. apply ticks_bind; [by intros s|]. intros q. apply ticks_bind; [by intros s|]. intros _.
    apply ticks_bind; [by intros s|]. intros d. apply ticks_bind; [by intros s|]. intros tail.
    apply ticks_bind; [by intros s|]. intros _. apply ticks_bind; [apply ticks_tick|]. intros _.
    by apply ticks_pure.
Qed.

(** The abstract state of a run and the concrete one *)
Definition refines (l : Queues) (s : QState) : Prop :=
  ∃ c d hd, queue_inv (sent l) (staged l) c d hd s ∧ accounted (claimed l) c s.

Lemma run_op_refines o l s :
  op_ok o → refines l s → ∃ l' s', run_op env fuel o (l, s) = Some (l', s') ∧ refines l' s'.
Proof.
  intros Hok (c & d & hd & Hi & Hacc). destruct o as [command| | | | |rounds i]; cbn [run_op].
  - pose proof (wp_submit ident ns nc env Henv fuel _ _ _ _ _ _ command Hi Hok Hfuel) as H.
    unfold wp in H. destruct (submit env fuel command s) as [[i|e| |] s']; [| |done..].
    + destruct H as (_ & c' & d' & hd' & Hi' & Hm & _). do 2 eexists. split; [done|].
      exists c', d', hd'. split; [done|by eapply accounted_moved].
    + destruct H as (_ & c' & d' & hd' & Hi' & Hm & _). do 2 eexists. split; [done|].
      exists c', d', hd'. split; [done|by eapply accounted_moved].
  - pose proof (wp_flush ident ns nc env Henv (E:=unit) (λ _ _, False) _ _ _ _ _ _ Hi) as H.
    unfold wp in H. destruct (flush env s) as [[[]| | |] s']; [|done..].
    destruct H as [Hi' Hm]. do 2 eexists. split; [done|]. exists c, d, hd.
    split; [done|by eapply accounted_moved].
  - pose proof (wp_cancel ident ns nc (E:=unit) (λ _ _, False) _ _ _ _ _ _ Hi) as H.
    unfold wp in H. destruct (cancel_submissions s) as [[[]| | |] s']; [|done..].
    destruct H as [Hi' Hm]. do 2 eexists. split; [done|]. exists c, d, hd.
    split; [done|by eapply accounted_moved].
  - pose proof (wp_poll_completions ident ns nc env Henv (E:=unit) (λ _ _, False) fuel _ _ _ _ _ _ Hi Hfuel) as H.
    unfold wp in H. destruct (poll_completions env fuel s) as [[r| | |] s']; [|done..].
    destruct H as (c' & hd' & Hi' & Hg & _ & []). do 2 eexists. split; [done|].
    eexists c', _, hd'. split; [exact Hi'|by eapply accounted_moved].
  - pose proof (wp_drain ident ns nc (E:=unit) (λ _ _, False) _ _ _ _ _ _ Hi) as H.
    unfold wp in H. destruct (drain_completions s) as [[cs| | |] s']; [|done..].
    destruct H as (-> & Hcs & Hhw & Hi'). do 2 eexists. split; [done|]. exists c, d, hd.
    split; [done|]. destruct Hacc as [Hle Hcl]. unfold accounted. cbn [claimed].
    by rewrite Hhw, Hcs, app_nil_r.
  - pose proof (wait_for_outcome rounds i _ _ _ _ _ _ Hi) as H.
    destruct (wait_for env rounds fuel i s) as [r s'].
    destruct H as (c' & d' & hd' & s1 & Hi' & Hm & Hhw & Hr).
    destruct (accounted_moved _ _ _ _ _ Hacc Hm) as [Hle Hcl].
    destruct r as [e|e| |]; [| | done|]; (do 2 eexists; split; [done|]; exists c', d', hd';
      split; [done|]; unfold accounted; cbn [claimed]; rewrite Hhw; split; [done|]).
    + destruct Hr as [_ Hcs]. by rewrite <- app_assoc, <- Hcl, Hcs.
    + by subst.
    + by subst.
Qed.

Lemma run_ops_refines ops : ∀ l s,
  Forall op_ok ops → refines l s →
  ∃ l' s', run_ops env fuel ops (l, s) = Some (l', s') ∧ refines l' s'.
Proof.
  induction ops as [|o ops IH]; intros l s Hok Hr; [by do 2 eexists|].
  inversion Hok as [|?? Ho Hops]; subst.
  destruct (run_op_refines o l s Ho Hr) as (l1 & s1 & H1 & Hr1). cbn [run_ops]. rewrite H1. cbn.
  by apply IH.
Qed.

(** C1: against every controller that follows the protocol, every sequence of
    operations on an allocated queue runs without a panic, and the two rings behave
    like first-in first-out queues. The controller has fetched a prefix of the
    commands that were flushed, each as it was submitted: none was overwritten,
    skipped or fetched before its flush or after it was cancelled. The entries
    handed out or kept in the list are exactly those the controller posted first. *)
Theorem nvme_queue_refines_fifos (ops : list op) (t : nat) :
  (2 ≤ ns)%nat → (2 ≤ nc)%nat → Z.of_nat ns ≤ u16_max → Z.of_nat nc ≤ u16_max →
  Forall op_ok ops →
  ∃ l s, run_ops env fuel ops (mkQueues [] [] [],
           mkQState (allocated_queue ident (Z.of_nat ns) (Z.of_nat nc)) (zero_hardware ns nc) t) =
         Some (l, s) ∧
    fetched (hw s) `prefix_of` sent l ∧
    ∃ c, (c ≤ length (posted (hw s)))%nat ∧
      claimed l ++ completions (queue s) ≡ₚ (take c (posted (hw s))).*1.
Proof.
  intros Hns Hnc Hns' Hnc' Hops.
  destruct (run_ops_refines ops (mkQueues [] [] [])
              (mkQState (allocated_queue ident (Z.of_nat ns) (Z.of_nat nc)) (zero_hardware ns nc) t))
    as (l & s & Hrun & c & d & hd & Hi & Hle & Hcl); [done| |].
  { exists 0%nat, 0%nat, 0%nat. split; [by apply allocated_inv|]. split; [done|]. by rewrite between_nil. }
  exists l, s. split; [done|]. split.
  - destruct (qi_hw _ _ _ _ _ _ _ _ _ Hi). rewrite hi_fetched. eexists. by rewrite take_drop.
  - exists c. split; [done|]. rewrite Hcl. unfold between. by rewrite Nat.sub_0_r.
Qed.

(** C21: [submit] on a queue in use. It gives the command the next identifier, after
    which the one behind it is the next, writes the command behind those that are
    staged and returns the identifier. It fails only with [QueueFull],
    which leaves the commands and the next identifier as they were, and only when all but one of the slots
    were taken by commands of which the controller had not reported the fetch; then
    either no completion entry could be read or the ring is still full. *)
Theorem submit_spec (sent staged : list CommonCommand) (c d hd : nat) (s : QState)
    (command : CommonCommand) :
  queue_inv sent staged c d hd s → 0 ≤ dword0 command →
  match submit env fuel command s with
  | (Ok i, s') => 0 ≤ i ≤ u16_max ∧
      i = next_command_identifier (queue s) ∧
      next_command_identifier (queue s') = (i + 1) mod (u16_max + 1) ∧
      CDW0_command_identifier (dword0 (with_identifier i command)) = i ∧
      ∃ c' d' hd', queue_inv sent (staged ++ [with_identifier i command]) c' d' hd' s'
  | (Err e, s') => e = QueueFull ∧ next_command_identifier (queue s') = next_command_identifier (queue s) ∧
      (S (length sent + length staged) = hd + ns)%nat ∧
      ∃ c' d' hd', queue_inv sent staged c' d' hd' s' ∧
        (c' = c ∨ (S (length sent + length staged) = hd' + ns)%nat)
  | _ => False
  end.
Proof.
  intros Hi Hcmd.
  pose proof (wp_submit ident ns nc env Henv fuel _ _ _ _ _ _ command Hi Hcmd Hfuel) as H.
  unfold wp in H. destruct (submit env fuel command s) as [[i|e| |] s']; [| |done..].
  - destruct H as (Hnext & c' & d' & hd' & Hi' & _ & Hid & Hnext'). split; [done|]. split; [done|]. split; [done|].
    split; [|by eexists _, _, _]. destruct (set_identifier_Ok (E:=unit) command i) as (w & Hw & <-); [done|done|].
    cbn. by apply (set_command_identifier_fields (E:=unit) (dword0 command)).
  - destruct H as (-> & c' & d' & hd' & Hi' & _ & (Hfull & Hwhy) & Hnext). do 3 (split; [done|]).
    by exists c', d', hd'.
Qed.

(** C22: [poll_completions] ends after at most as many rounds as the ring has slots,
    whatever the controller posts meanwhile, and never panics. It moves the next
    entries in order into the list, and says whether there were any. Without an
    error every entry that was posted before the call was read; an error names the
    identifier of the next entry, which the list still holds. *)
Theorem poll_completions_spec (sent staged : list CommonCommand) (c d hd : nat) (s : QState) :
  queue_inv sent staged c d hd s →
  match poll_completions (E:=unit) env fuel s with
  | (Ok r, s') => ∃ c' hd',
      queue_inv sent staged c' (if (c <? c')%nat then c' else d) hd' s' ∧
      some_new_entries r = (c <? c')%nat ∧
      poll_result c c' s s' (error_on_any_entry r)
  | _ => False
  end.
Proof.
  intros Hi.
  pose proof (wp_poll_completions ident ns nc env Henv (E:=unit) (λ _ _, False) fuel _ _ _ _ _ _ Hi Hfuel) as H.
  unfold wp in H. destruct (poll_completions env fuel s) as [[r| | |] s']; [|done..].
  destruct H as (c' & hd' & Hi' & _ & Hfound & Hr). by exists c', hd'.
Qed.

(** Waiting for a command whose completion entry is posted returns that entry
    in the first round, provided that the entries up to it and those in the list
    all have different identifiers. *)
Theorem wait_for_posted (sent staged : list CommonCommand) (c d hd j k rounds : nat) (s : QState)
    (e : CommonCompletionEntry) :
  queue_inv sent staged c d hd s → (c ≤ j)%nat → posted (hw s) !! j = Some (e, k) →
  NoDup (idents (completions (queue s) ++ between c (S j) (hw s))) →
  ∃ s', wait_for env (S rounds) fuel (command_ident e) s = (Ok e, s') ∧
    ∃ c' d' hd', (j < c')%nat ∧ queue_inv sent staged c' d' hd' s' ∧
      completions (queue s) ++ between c c' (hw s') ≡ₚ e :: completions (queue s').
Proof.
  intros Hi Hcj Hj Hnd. unfold wait_for. rewrite run_bind.
  pose proof (wp_get_if_exists ident ns nc (E:=PollCompletionError) (λ _ _, False) (command_ident e)
    _ _ _ _ _ _ Hi) as Hget.
  unfold wp in Hget. destruct (get_if_exists (command_ident e) s) as [[[e0|]| | |] s0]; [| |done..].
  { exfalso. destruct Hget as (_ & _ & He0 & Hcs). unfold idents in Hnd. rewrite fmap_app in Hnd.
    apply NoDup_app in Hnd as (_ & Hdisj & _). apply (Hdisj (command_ident e)).
    - rewrite Hcs. cbn. rewrite He0. left.
    - apply list_elem_of_fmap. exists e. split; [done|]. by apply (between_elem c (S j) j _ e k); [|lia..]. }
  destruct Hget as (_ & _ & -> & _). cbn [wait_loop]. rewrite run_bind.
  pose proof (wp_poll_completions ident ns nc env Henv (E:=PollCompletionError) (λ _ _, False)
                fuel _ _ _ _ _ _ Hi Hfuel) as Hpoll.
  unfold wp in Hpoll. destruct (poll_completions env fuel s) as [[r| | |] s1]; [|done..].
  destruct Hpoll as (c' & hd' & Hi1 & Hg & Hfound & []).
  assert (j < c')%nat as Hjc.
  { destruct (decide (j < c')%nat) as [|Hge]; [done|exfalso].
    destruct (error_on_any_entry r) as [[i]|] eqn:Herr.
    - destruct (pr_error i eq_refl) as (e1 & k1 & He1 & Hi' & Hin).
      assert (posted (hw s) !! c' = Some (e1, k1)) as Hs1.
      { destruct (lookup_lt_is_Some_2 (posted (hw s)) c') as [x Hx]; [apply lookup_lt_Some in Hj; lia|].
        destruct Hg as [_ Hg]. pose proof (prefix_lookup_Some _ _ _ _ Hx Hg). congruence. }
      rewrite (between_app c c' (S j)), app_assoc in Hnd by lia.
      unfold idents in Hnd, Hin. rewrite fmap_app in Hnd. apply NoDup_app in Hnd as (_ & Hdisj & _).
      apply (Hdisj i).
      + rewrite pr_entries, (between_grows c c' (hw s) (hw s1)) in Hin; [done|done|].
        apply lookup_lt_Some in Hs1. lia.
      + apply list_elem_of_fmap. exists e1. split; [done|].
        by apply (between_elem c' (S j) c' _ e1 k1); [|lia..].
    - specialize (pr_none eq_refl). apply lookup_lt_Some in Hj. lia. }
  rewrite Hfound, (proj2 (Nat.ltb_lt c c')) by lia. rewrite run_bind.
  assert (e ∈ completions (queue s1)) as Hin.
  { rewrite pr_entries. apply elem_of_app. right. apply (between_elem c c' j _ e k); [|done..].
    eapply prefix_lookup_Some; [exact Hj|apply Hg]. }
  pose proof (wp_get_if_exists ident ns nc (E:=PollCompletionError) (λ _ _, False) (command_ident e)
    _ _ _ _ _ _ Hi1) as Hget.
  unfold wp in Hget. destruct (get_if_exists (command_ident e) s1) as [[[e2|]| | |] s2]; [| |done..].
  - destruct Hget as (Hi2 & Hhw & He2 & Hcs). exists s2.
    assert (e2 = e) as ->.
    { eapply sorted_ident_unique; [apply (qi_sorted _ _ _ _ _ _ _ _ _ Hi1)| |exact Hin|done].
      rewrite Hcs. left. }
    split; [done|]. eexists c', _, hd'. split; [done|]. split; [exact Hi2|].
    by rewrite Hhw, <- pr_entries.
  - exfalso. apply Hget. apply list_elem_of_fmap. by exists e.
Qed.
End spec.

(** ** A controller for the examples

    It fetches one command and posts one entry at a time, when it is allowed to. *)

Definition demo_fetch (ns : nat) (h : Hardware) : Hardware :=
  match sq h !! (length (fetched h) mod ns)%nat with
  | Some c =>
      if sq_tail_doorbell h =? Z.of_nat (length (fetched h) mod ns) then h
      else mkHardware (sq h) (sq_tail_doorbell h) (cq h) (cq_head_doorbell h)
             (fetched h ++ [c]) (posted h)
  | None => h
  end.

Definition demo_post (ident : QueueIdentifier) (ns nc : nat) (h : Hardware) : Hardware :=
  match fetched h !! length (posted h) with
  | Some c =>
      let e := mkCompletion 0 0 (Z.of_nat (length (fetched h) mod ns)) ident
                 (CDW0_command_identifier (dword0 c))
                 (if phase_of nc (length (posted h)) then 1 else 0) in
      if cq_head_doorbell h =? Z.of_nat (S (length (posted h)) mod nc) then h
      else mkHardware (sq h) (sq_tail_doorbell h)
             (<[(length (posted h) mod nc)%nat:=e]> (cq h)) (cq_head_doorbell h)
             (fetched h) (posted h ++ [(e, length (fetched h))])
  | None => h
  end.

Definition demo_env (ident : QueueIdentifier) (ns nc : nat) (t : nat) (h : Hardware) : Hardware :=
  demo_post ident ns nc (demo_fetch ns h).

Lemma demo_controller ident ns nc : controller ident ns nc (demo_env ident ns nc).
Proof.
  intros t h. unfold demo_env. transitivity (demo_fetch ns h).
  - unfold demo_fetch. destruct (sq h !! _) eqn:Hs; [|done].
    destruct (Z.eqb_spec (sq_tail_doorbell h) (Z.of_nat (length (fetched h) mod ns))); [done|].
    apply rtc_once. by constructor.
  - generalize (demo_fetch ns h). intros h1. unfold demo_post.
    destruct (fetched h1 !! _) eqn:Hs; [|done].
    destruct (Z.eqb_spec (cq_head_doorbell h1) (Z.of_nat (S (length (posted h1)) mod nc))); [done|].
    apply rtc_once. constructor; [done|]. split; [|done|done]. cbn. by destruct (phase_of nc _).
Qed.

(** Seven commands through a ring of four slots: both rings wrap around. A
    submission that was cancelled is never fetched, and the ring is full once. *)
Definition demo_command (n : Z) : CommonCommand :=
  mkCommand 2 1 0 0 0 (mkDataPtr 0 0) n 0 0 0 0 0.

Definition demo_ops : list op :=
  [OpSubmit (demo_command 10); OpSubmit (demo_command 11); OpFlush; OpWait 9 1; OpWait 9 0;
   OpSubmit (demo_command 12); OpCancel;
   OpSubmit (demo_command 13); OpSubmit (demo_command 14); OpSubmit (demo_command 15);
   OpSubmit (demo_command 16); OpFlush; OpPoll; OpPoll; OpDrain;
   OpSubmit (demo_command 17); OpFlush; OpPoll; OpWait 9 6].

Definition demo_start : Queues * QState :=
  (mkQueues [] [] [], mkQState (allocated_queue 1 4 4) (zero_hardware 4 4) 0).

Lemma nvme_queue_refines_fifos_witness :
  ∃ l s, run_ops (demo_env 1 4 4) 4 demo_ops demo_start = Some (l, s) ∧
    fetched (hw s) `prefix_of` sent l ∧
    (dword10 <$> sent l) = [10; 11; 13; 14; 15; 17] ∧
    (command_ident <$> claimed l) = [1; 0; 3; 4; 5; 6].
Proof.
  assert (Forall op_ok demo_ops) as Hok
    by (repeat constructor; cbn; lia).
  destruct (nvme_queue_refines_fifos 1 4 4 (demo_env 1 4 4) 4 (demo_controller 1 4 4) (le_n 4)
              demo_ops 0 ltac:(lia) ltac:(lia) ltac:(unfold u16_max; lia) ltac:(unfold u16_max; lia) Hok)
    as (l & s & Hrun & Hfetched & _).
  exists l, s. split; [exact Hrun|]. split; [exact Hfetched|].
  assert ((λ p, (dword10 <$> sent p.1, command_ident <$> claimed p.1)) <$>
            run_ops (demo_env 1 4 4) 4 demo_ops demo_start =
          Some ([10; 11; 13; 14; 15; 17], [1; 0; 3; 4; 5; 6])) as Heval by (vm_compute; reflexivity).
  unfold demo_start in Heval.
  change (allocated_queue 1 4 4) with (allocated_queue 1 (Z.of_nat 4) (Z.of_nat 4)) in Heval.
  rewrite Hrun in Heval. injection Heval. auto.
Defined.

(** The witnesses of the other theorems: a freshly allocated queue, and one on
    which two commands are submitted and flushed and the first is completed. *)

Definition demo_fresh : QState := mkQState (allocated_queue 1 4 4) (zero_hardware 4 4) 0.

Lemma demo_fresh_inv : queue_inv 1 4 4 [] [] 0 0 0 demo_fresh.
Proof. apply (allocated_inv 1 4 4 0); unfold u16_max; lia. Qed.

Lemma submit_spec_witness :
  match submit (demo_env 1 4 4) 4 (demo_command 10) demo_fresh with
  | (Ok i, s') => i = 0 ∧ next_command_identifier (queue s') = 1 ∧
      CDW0_command_identifier (dword0 (with_identifier i (demo_command 10))) = 0
  | _ => False
  end.
Proof.
  pose proof (submit_spec 1 4 4 (demo_env 1 4 4) 4 (demo_controller 1 4 4) (le_n 4) [] [] 0 0 0
                demo_fresh (demo_command 10) demo_fresh_inv ltac:(cbn; lia)) as H.
  assert ((submit (demo_env 1 4 4) 4 (demo_command 10) demo_fresh).1 = Ok 0) as Hok
    by (vm_compute; reflexivity).
  destruct (submit (demo_env 1 4 4) 4 (demo_command 10) demo_fresh) as [[i| | |] s']; try discriminate Hok.
  injection Hok as ->. destruct H as (_ & _ & Hn & Hc & _). split; [reflexivity|]. split; [exact Hn|exact Hc].
Defined.

Lemma poll_completions_spec_witness :
  match poll_completions (E:=unit) (demo_env 1 4 4) 4 demo_fresh with
  | (Ok r, _) => some_new_entries r = false
  | _ => False
  end.
Proof.
  pose proof (poll_completions_spec 1 4 4 (demo_env 1 4 4) 4 (demo_controller 1 4 4) (le_n 4) [] [] 0 0 0
                demo_fresh demo_fresh_inv) as H.
  assert (match poll_completions (E:=unit) (demo_env 1 4 4) 4 demo_fresh with
          | (Ok r, s') => (length (posted (hw s')) =? 0)%nat | _ => false end = true) as Hnone
    by (vm_compute; reflexivity).
  destruct (poll_completions (demo_env 1 4 4) 4 demo_fresh) as [[r| | |] s']; [|discriminate Hnone..].
  destruct H as (c' & hd' & _ & Hfound & Hr). rewrite Hfound. apply Nat.ltb_ge.
  apply Nat.eqb_eq in Hnone. rewrite <- Hnone. apply (pr_posted _ _ _ _ _ Hr).
Defined.

(** A controller that does nothing, for the state in which it has posted an entry *)
Definition demo_posted : QState :=
  mkQState (set_sq_tail 1 (set_tail_local (mkWrapping 1 4) (allocated_queue 1 4 4)))
    (mkHardware (<[0%nat:=demo_command 10]> (replicate 4 CommonCommand_default)) 1
       (<[0%nat:=mkCompletion 0 0 1 1 0 1]> (replicate 4 zero_completion)) 0
       [demo_command 10] [(mkCompletion 0 0 1 1 0 1, 1%nat)]) 0.

Lemma demo_posted_inv : queue_inv 1 4 4 [demo_command 10] [] 0 0 0 demo_posted.
Proof.
  split; try done; [|constructor].
  split; cbn; try done; try lia.
  - intros i e k. destruct i as [|[|]]; [|done..]. by intros [= <- <-].
  - intros [|[|[|[|]]]]; cbn; lia || done.
  - intros [|[|]] e k; [|done..]. intros [= <- <-]. split; [|cbn; lia].
    split; [|done|done]. cbn. done.
  - intros [|[|]] [|[|]] e k e' k'; try done. by intros [= <- <-] [= <- <-].
Qed.

Lemma wait_for_posted_witness :
  ∃ s', wait_for (λ _ h, h) 1 4 0 demo_posted = (Ok (mkCompletion 0 0 1 1 0 1), s').
Proof.
  destruct (wait_for_posted 1 4 4 (λ _ h, h) 4 (λ _ _, rtc_refl _ _) (le_n 4)
              [demo_command 10] [] 0 0 0 0 1 0 demo_posted (mkCompletion 0 0 1 1 0 1)
              demo_posted_inv (le_n 0) eq_refl ltac:(cbn; constructor; [apply not_elem_of_nil|constructor]))
    as (s' & Hs' & _).
  exists s'. exact Hs'.
Defined.
