(* ===== verification/KernelMem.v ===== *)
(** * [wasabi-kernel/src/mem]: memory errors, layouts and allocators

    What the allocators of the kernel share: [MemError], [Layout], pointer
    alignment, and the trait [Allocator] as a class with the promise that an
    allocator keeps its live allocations apart. *)

From S2P Require Import Prelude.
Local Open Scope Z_scope.

(** [UntypedPtr], an address *)
Abbreviation UntypedPtr := Z (only parsing).

(** [PageTableMapError]; a frame is its start address. *)
Inductive PageTableMapError :=
  | FrameAllocationFailed
  | ParentEntryHugePage
  | PageAllreadyMapped4k (frame : Z)
  | PageAllreadyMapped2m (frame : Z)
  | PageAllreadyMapped1g (frame : Z)
  | InvalidFrameAddress (paddr : Z)
  | PageNotMapped
  | FlagUpdateNotMapped
  | FlagUpdateHuge.

(** [MemError], without the variants of the feature [freeze-heap] *)
Inductive MemError :=
  | NotInit
  | OutOfMemory
  | OutOfPages
  | NullAddress
  | PageInUse
  | InvalidAllocSize (size expected : Z)
  | InvalidAllocAlign (align expected : Z)
  | ZeroSizeAllocation
  | PtrNotAllocated (ptr : UntypedPtr)
  | FreeFailed (ptr : UntypedPtr)
  | PageTableMap (e : PageTableMapError)
  | AllocError.

Record Layout := mkLayout { l_size : Z; l_align : Z }.

Definition is_power_of_two (n : Z) : bool := (0 <? n) && (Z.land n (n - 1) =? 0).

(** [align_up] of the crate [x86_64] *)
Definition aligned_up (align : Z) (addr p : Z) : Prop :=
  p mod align = 0 ∧ addr ≤ p < addr + align.

Class AlignUp := {
  align_up : Z → Z → Z;
  align_up_spec addr align : 0 < align → aligned_up align addr (align_up addr align);
}.

Section align.
Context `{AlignUp}.

(** [UntypedPtr::is_aligned] *)
Definition is_aligned (ptr align : Z) : bool := align_up ptr align =? ptr.

Lemma aligned_up_unique align addr p q :
  0 < align → aligned_up align addr p → aligned_up align addr q → p = q.
Proof.
  intros Ha [Hp Hp'] [Hq Hq'].
  apply Z.mod_divide in Hp as [i ->], Hq as [j ->]; [|lia..]. assert (i = j) as -> by nia. done.
Qed.

Lemma is_aligned_spec ptr align : 0 < align → is_aligned ptr align = true ↔ ptr mod align = 0.
Proof.
  intros Ha. unfold is_aligned. rewrite Z.eqb_eq. split.
  - intros <-. by apply align_up_spec.
  - intros Hm. apply (aligned_up_unique align ptr); [done|by apply align_up_spec|]. split; [done|lia].
Qed.
End align.

#[export] Instance align_up_x86_64 : AlignUp.
Proof.
  refine {| align_up addr align := - ((- addr) / align * align) |}.
  intros addr align Ha. unfold aligned_up.
  pose proof (Z.div_mod (- addr) align ltac:(lia)). pose proof (Z.mod_pos_bound (- addr) align Ha).
  split; [|lia]. rewrite <- Z.mul_opp_l. apply Z.mod_mul. lia.
Defined.

(** ** [Allocator] *)

Class Allocator (A : Type) := {
  alloc : Layout → M A MemError UntypedPtr;
  free : UntypedPtr → Layout → M A MemError unit;
}.

(** Two ranges of bytes have nothing in common. *)
Definition disjoint_ranges (p n q m : Z) : Prop := p + n ≤ q ∨ q + m ≤ p.

(** The live allocations of an allocator: a new one lies apart from them, and one
    of them can be given back. *)
Class RegionAllocator (A : Type) `{Allocator A} := {
  regions : A → gmap UntypedPtr Z;
  regions_pos a p n : regions a !! p = Some n → 0 < n;
  regions_apart a p q n m : regions a !! p = Some n → regions a !! q = Some m → p ≠ q →
    disjoint_ranges p n q m;
  alloc_spec layout a : 0 < l_size layout →
    wp (alloc layout) (λ _ a', regions a' = regions a)
      (λ p a', 0 < p ∧ p mod l_align layout = 0 ∧ regions a !! p = None ∧
         (∀ q m, regions a !! q = Some m → disjoint_ranges p (l_size layout) q m) ∧
         regions a' = <[p:=l_size layout]> (regions a)) a;
  free_spec p layout a : regions a !! p = Some (l_size layout) →
    wp (free p layout) (λ _ _, False) (λ _ a', regions a' = delete p (regions a)) a;
}.
