(* ===== verification/SlabHeap.v ===== *)
(** * [wasabi-kernel/src/mem/kernel_heap]: the slab allocators and the kernel heap

    A [SlabAllocator] hands out pieces of one size from blocks of 1 KiB, which it
    takes from another allocator and links in a doubly linked list. The headers of
    the blocks live in the memory they describe; here they are a map from their
    addresses. [KernelHeap] chooses a slab allocator by the size of the request, or
    the allocator behind them all. [early_heap.rs] is the bump allocator that is
    used before the kernel heap exists. *)

From S2P Require Import Prelude KernelMem.
Local Open Scope Z_scope.

Definition SLAB_ALLOCATOR_SIZES_BYTES : list Z := [4; 64; 256].
Definition SLAB_BLOCK_SIZE : Z := 1024.
(** [size_of::<SlabBlock>()] and [align_of::<SlabBlock>()]: six words *)
Definition SLAB_HEADER_SIZE : Z := 48.
Definition SLAB_HEADER_ALIGN : Z := 8.

Record SlabBlock := mkBlock {
  b_next : option UntypedPtr;
  b_prev : option UntypedPtr;
  b_start : UntypedPtr;
  b_end : UntypedPtr;
  b_used : Z;
  b_freed : Z;
}.

Definition set_next (n : option UntypedPtr) (b : SlabBlock) : SlabBlock :=
  mkBlock n (b_prev b) (b_start b) (b_end b) (b_used b) (b_freed b).
Definition set_prev (p : option UntypedPtr) (b : SlabBlock) : SlabBlock :=
  mkBlock (b_next b) p (b_start b) (b_end b) (b_used b) (b_freed b).
Definition set_used (u : Z) (b : SlabBlock) : SlabBlock :=
  mkBlock (b_next b) (b_prev b) (b_start b) (b_end b) u (b_freed b).
Definition set_freed (f : Z) (b : SlabBlock) : SlabBlock :=
  mkBlock (b_next b) (b_prev b) (b_start b) (b_end b) (b_used b) f.

Definition SlabBlock_layout : Layout := mkLayout SLAB_BLOCK_SIZE SLAB_HEADER_ALIGN.

Definition SlabBlock_contains (self : SlabBlock) (addr : UntypedPtr) : bool :=
  (addr >=? b_start self) && (addr <? b_start self + SLAB_BLOCK_SIZE).
Definition SlabBlock_is_full (self : SlabBlock) (size : Z) : bool :=
  b_start self + b_used self + size >=? b_end self.
Definition SlabBlock_is_freed (self : SlabBlock) (size : Z) : bool :=
  b_start self + b_freed self + size >=? b_end self.

Record SlabAllocator := mkSlab { slab_size : Z; slab_block : option UntypedPtr }.

Abbreviation BlockMemory := (gmap UntypedPtr SlabBlock).

(** A slab allocator, the headers in memory, and the allocator behind it *)
Record SlabState A := mkSlabState { slab : SlabAllocator; memory : BlockMemory; heap : A }.
Arguments mkSlabState {A}. Arguments slab {A}. Arguments memory {A}. Arguments heap {A}.

Section slab.
Context {A : Type} `{AlignUp, Allocator A}.

Local Abbreviation M := (M (SlabState A) MemError).

Definition on_heap {B} (m : Prelude.M A MemError B) : M B := λ s,
  let '(r, h) := m (heap s) in (r, mkSlabState (slab s) (memory s) h).

(** Following a pointer to a header, and writing through it *)
Definition deref (b : UntypedPtr) : M SlabBlock :=
  m ← gets memory; lift (expect (m !! b)).
Definition store (b : UntypedPtr) (blk : SlabBlock) : M unit :=
  modify (λ s, mkSlabState (slab s) (<[b:=blk]> (memory s)) (heap s)).
Definition set_block (b : option UntypedPtr) : M unit :=
  modify (λ s, mkSlabState (mkSlab (slab_size (slab s)) b) (memory s) (heap s)).

(** *** [SlabBlock] *)

Definition SlabBlock_new (size : Z) : M UntypedPtr :=
  block_start ← on_heap (alloc SlabBlock_layout);
  let free_start := align_up (block_start + SLAB_HEADER_SIZE) size in
  let free_end := block_start + (SLAB_BLOCK_SIZE - 1) in
  _ ← store block_start (mkBlock None None free_start free_end 0 0);
  mret block_start.

(** The two searches follow [next]; the fuel is the number of headers in memory. *)
Fixpoint find_block (test : SlabBlock → bool) (fuel : nat) (self : UntypedPtr)
    : M (option UntypedPtr) :=
  match fuel with
  | O => lift Hang
  | S fuel =>
      blk ← deref self;
      if test blk then mret (Some self)
      else
        match b_next blk with
        | Some next => find_block test fuel next
        | None => mret None
        end
  end.

Definition find_block_containing (ptr self : UntypedPtr) : M (option UntypedPtr) :=
  m ← gets memory; find_block (λ blk, SlabBlock_contains blk ptr) (size m) self.
Definition find_block_with_space (sz : Z) (self : UntypedPtr) : M (option UntypedPtr) :=
  m ← gets memory; find_block (λ blk, negb (SlabBlock_is_full blk sz)) (size m) self.

Definition SlabBlock_alloc (self : UntypedPtr) (sz : Z) : M UntypedPtr :=
  blk ← deref self;
  if SlabBlock_is_full blk sz then lift (Err OutOfMemory)
  else if sz =? 0 then lift (Err ZeroSizeAllocation)
  else
    let start := b_start blk + b_used blk in
    _ ← lift (assert_ (start + sz <=? b_end blk));
    _ ← store self (set_used (b_used blk + sz) blk);
    _ ← lift (assert_ (is_aligned start sz));
    mret start.

(** *** [SlabAllocator] *)

Definition SlabAllocator_new {E} (sz : Z) : result E SlabAllocator :=
  _ ← assert_ (is_power_of_two sz); mret (mkSlab sz None).

Definition SlabAllocator_init : M unit :=
  sl ← gets slab;
  b ← SlabBlock_new (slab_size sl);
  set_block (Some b).

Definition can_accept_align (self : SlabAllocator) (align : Z) : result MemError bool :=
  _ ← assert_ (is_power_of_two align); mret (align <=? slab_size self).

Definition push_new_block : M UntypedPtr :=
  sl ← gets slab;
  block_ptr ← SlabBlock_new (slab_size sl);
  blk ← deref block_ptr;
  _ ← store block_ptr (set_next (slab_block sl) blk);
  _ ← match slab_block sl with
      | Some first_ptr =>
          first ← deref first_ptr;
          store first_ptr (set_prev (Some block_ptr) first)
      | None => mret tt
      end;
  _ ← set_block (Some block_ptr);
  mret block_ptr.

Definition first_block_or_push : M UntypedPtr :=
  sl ← gets slab;
  match slab_block sl with
  | Some block_ptr => mret block_ptr
  | None => push_new_block
  end.

(** The two checks of [alloc] and [free] *)
Definition check_layout (layout : Layout) : M unit :=
  sl ← gets slab;
  if l_size layout >? slab_size sl
  then lift (Err (InvalidAllocSize (l_size layout) (slab_size sl)))
  else
    b ← lift (can_accept_align sl (l_align layout));
    if b : bool then mret tt
    else lift (Err (InvalidAllocAlign (l_align layout) (slab_size sl))).

Definition SlabAllocator_alloc (layout : Layout) : M UntypedPtr :=
  _ ← check_layout layout;
  sl ← gets slab;
  let sz := slab_size sl in
  first ← first_block_or_push;
  found ← find_block_with_space sz first;
  block ← match found with Some block => mret block | None => push_new_block end;
  SlabBlock_alloc block sz.

(** Taking a block out of the list *)
Definition unlink_block (block : UntypedPtr) : M unit :=
  blk ← deref block;
  next_first ←
    match b_prev blk with
    | Some prev_ptr =>
        prev ← deref prev_ptr;
        _ ← store prev_ptr (set_next (b_next blk) prev);
        mret None
    | None => mret (Some (b_next blk))
    end;
  _ ← match b_next blk with
      | Some next_ptr =>
          next ← deref next_ptr;
          store next_ptr (set_prev (b_prev blk) next)
      | None => mret tt
      end;
  match next_first with Some next_first => set_block next_first | None => mret tt end.

(** A header is gone when its block was given back. *)
Definition free_block (block : UntypedPtr) : M unit :=
  _ ← on_heap (free block SlabBlock_layout);
  modify (λ s, mkSlabState (slab s) (delete block (memory s)) (heap s)).

Definition SlabAllocator_free (ptr : UntypedPtr) (layout : Layout) : M unit :=
  _ ← check_layout layout;
  sl ← gets slab;
  let sz := slab_size sl in
  first ← lift (ok_or (FreeFailed ptr) (slab_block sl));
  found ← find_block_containing ptr first;
  block ← lift (ok_or (PtrNotAllocated ptr) found);
  blk ← deref block;
  let blk := set_freed (b_freed blk + sz) blk in
  _ ← store block blk;
  if SlabBlock_is_freed blk sz then
    _ ← unlink_block block;
    free_block block
  else mret tt.
End slab.
