(* ===== verification/SlabProofs.v ===== *)
(** * Correctness of the slab allocators

    The blocks of a slab allocator form a doubly linked list, every live piece lies
    in one slot of one block, and the counters of a block are the number of slots
    it handed out and got back. *)

From S2P Require Import Prelude KernelMem SlabHeap.
Local Open Scope Z_scope.

(** ** Doubly linked lists of blocks *)

Definition first_of (l : list UntypedPtr) (qn : option UntypedPtr) : option UntypedPtr :=
  match l with b :: _ => Some b | [] => qn end.
Definition last_of (l : list UntypedPtr) (pp : option UntypedPtr) : option UntypedPtr :=
  match last l with Some b => Some b | None => pp end.

(** The segment of [l] between the pointers [pp] and [qn] *)
Fixpoint dseg (m : BlockMemory) (pp : option UntypedPtr) (l : list UntypedPtr)
    (qn : option UntypedPtr) : Prop :=
  match l with
  | [] => True
  | b :: l => ∃ blk, m !! b = Some blk ∧ b_prev blk = pp ∧ b_next blk = first_of l qn ∧
      dseg m (Some b) l qn
  end.

Lemma first_of_app l1 l2 qn : first_of (l1 ++ l2) qn = first_of l1 (first_of l2 qn).
Proof. by destruct l1. Qed.

Lemma last_of_cons b l pp : last_of (b :: l) pp = last_of l (Some b).
Proof. unfold last_of. rewrite last_cons. by destruct (last l). Qed.

Lemma dseg_app m l1 : ∀ pp l2 qn,
  dseg m pp (l1 ++ l2) qn ↔ dseg m pp l1 (first_of l2 qn) ∧ dseg m (last_of l1 pp) l2 qn.
Proof.
  induction l1 as [|b l1 IH]; intros pp l2 qn; cbn [app dseg]; [naive_solver|].
  setoid_rewrite IH. setoid_rewrite first_of_app. setoid_rewrite last_of_cons. naive_solver.
Qed.

(** The two pointers of a header *)
Definition links (blk : SlabBlock) : option UntypedPtr * option UntypedPtr := (b_prev blk, b_next blk).
(** The rest of it *)
Definition data (blk : SlabBlock) : Z * Z * Z * Z :=
  (b_start blk, b_end blk, b_used blk, b_freed blk).

Lemma dseg_ext m m' l : ∀ pp qn,
  (∀ b, b ∈ l → links <$> m' !! b = links <$> m !! b) → dseg m pp l qn → dseg m' pp l qn.
Proof.
  induction l as [|b l IH]; intros pp qn Hm; cbn; [done|]. intros (blk & Hb & Hp & Hn & Hl).
  specialize (Hm b ltac:(left)) as Hmb. rewrite Hb in Hmb. cbn in Hmb.
  destruct (m' !! b) as [blk'|] eqn:Hb'; [|done]. injection Hmb as Hp' Hn'.
  exists blk'. split; [done|]. split; [congruence|]. split; [congruence|].
  apply IH; [|done]. intros c Hc. apply Hm. by right.
Qed.

Lemma dseg_lookup m pp l qn b : dseg m pp l qn → b ∈ l → is_Some (m !! b).
Proof.
  revert pp. induction l as [|c l IH]; intros pp; cbn; [by intros _ ?%not_elem_of_nil|].
  intros (blk & Hb & _ & _ & Hl) [->|Hin]%elem_of_cons; [by rewrite Hb|by eapply IH].
Qed.

Lemma dseg_middle m l1 b l2 blk :
  dseg m None (l1 ++ b :: l2) None → m !! b = Some blk →
  b_prev blk = last_of l1 None ∧ b_next blk = first_of l2 None ∧
  dseg m None l1 (Some b) ∧ dseg m (Some b) l2 None.
Proof.
  rewrite dseg_app. cbn. intros [H1 (blk' & Hb & Hp & Hn & H2)] Hb'. by simplify_eq.
Qed.

(** Redirecting the pointers at the ends of a segment *)
Lemma dseg_set_next m l p qn qn' blk :
  dseg m None (l ++ [p]) qn → NoDup (l ++ [p]) → m !! p = Some blk →
  dseg (<[p:=set_next qn' blk]> m) None (l ++ [p]) qn'.
Proof.
  rewrite !dseg_app. cbn. intros [Hl (blk' & Hp & Hpp & _ & _)] Hnd Hb. simplify_eq. split.
  - eapply dseg_ext; [|exact Hl]. intros b Hin. rewrite lookup_insert_ne; [done|].
    intros ->. apply NoDup_app in Hnd as (_ & Hdisj & _). apply (Hdisj b Hin). left.
  - eexists. rewrite lookup_insert_eq. done.
Qed.

Lemma dseg_set_prev m n l pp pp' qn blk :
  dseg m pp (n :: l) qn → NoDup (n :: l) → m !! n = Some blk →
  dseg (<[n:=set_prev pp' blk]> m) pp' (n :: l) qn.
Proof.
  cbn. intros (blk' & Hn & _ & Hnn & Hl) Hnd Hb. simplify_eq. apply NoDup_cons in Hnd as [Hnin _].
  eexists. rewrite lookup_insert_eq. split; [done|]. split; [done|]. split; [done|].
  eapply dseg_ext; [|exact Hl]. intros b Hin. rewrite lookup_insert_ne; [done|]. by intros ->.
Qed.

Lemma dseg_insert_other m pp l qn c blk :
  c ∉ l → dseg m pp l qn → dseg (<[c:=blk]> m) pp l qn.
Proof. intros Hc. apply dseg_ext. intros b Hb. rewrite lookup_insert_ne; [done|]. by intros ->. Qed.

Lemma dseg_size (m : BlockMemory) pp l qn : dseg m pp l qn → NoDup l → (length l ≤ size m)%nat.
Proof.
  intros Hl Hnd. rewrite <- size_dom, <- (size_list_to_set (C:=gset UntypedPtr) l) by done.
  apply subseteq_size. intros b Hb%elem_of_list_to_set. apply elem_of_dom. by eapply dseg_lookup.
Qed.

(** ** The invariant *)

Section slab.
Context {A : Type} `{AU : AlignUp} `{RA : RegionAllocator A}.

Local Abbreviation S := (SlabState A).

(** The live pieces in a block *)
Definition live_in (blk : SlabBlock) (live : gset UntypedPtr) : gset UntypedPtr :=
  filter (λ p, b_start blk ≤ p < b_start blk + b_used blk) live.

(** The header of the block at [b] *)
Record block_ok (sz : Z) (live : gset UntypedPtr) (b : UntypedPtr) (blk : SlabBlock) : Prop := {
  bo_start : aligned_up sz (b + SLAB_HEADER_SIZE) (b_start blk);
  bo_end : b_end blk = b + (SLAB_BLOCK_SIZE - 1);
  bo_used : 0 ≤ b_used blk ∧ b_start blk + b_used blk < b_end blk;
  bo_slots : b_used blk mod sz = 0;
  bo_freed : b_freed blk = b_used blk - sz * Z.of_nat (size (live_in blk live));
}.

(** [p] is a slot of the block [b]. *)
Definition slot_of (sz : Z) (m : BlockMemory) (p b : UntypedPtr) : Prop :=
  ∃ blk, m !! b = Some blk ∧ b_start blk ≤ p < b_start blk + b_used blk ∧ p mod sz = 0.

Record slab_inv (l : list UntypedPtr) (live : gset UntypedPtr) (s : S) : Prop := {
  si_size : 0 < slab_size (slab s) ∧ 256 mod slab_size (slab s) = 0;
  si_first : slab_block (slab s) = first_of l None;
  si_list : dseg (memory s) None l None;
  si_nodup : NoDup l;
  si_blocks b blk : b ∈ l → memory s !! b = Some blk → block_ok (slab_size (slab s)) live b blk;
  si_live p : p ∈ live → ∃ b, b ∈ l ∧ slot_of (slab_size (slab s)) (memory s) p b;
  si_regions b : b ∈ l → regions (heap s) !! b = Some SLAB_BLOCK_SIZE;
  si_apart b b' : b ∈ l → b' ∈ l → b ≠ b' → disjoint_ranges b SLAB_BLOCK_SIZE b' SLAB_BLOCK_SIZE;
}.

(** What is not touched: the other headers and the other regions *)
Definition frame (l : list UntypedPtr) (s s' : S) : Prop :=
  slab_size (slab s') = slab_size (slab s) ∧
  ∀ q, q ∉ l → memory s' !! q = memory s !! q ∧ regions (heap s') !! q = regions (heap s) !! q.

(** The list of blocks grew, by blocks that were not allocated before. *)
Definition grown (l l' : list UntypedPtr) (s : S) : Prop :=
  l ⊆ l' ∧ ∀ b, b ∈ l' → b ∈ l ∨ regions (heap s) !! b = None.

Lemma frame_refl l s : frame l s s.
Proof. by split. Qed.
Lemma frame_trans l s1 s2 s3 : frame l s1 s2 → frame l s2 s3 → frame l s1 s3.
Proof.
  intros [Hz1 H1] [Hz2 H2]. split; [congruence|]. intros q Hq.
  destruct (H2 q Hq) as [-> ->]. by apply H1.
Qed.
Lemma frame_weaken l l' s s' : l ⊆ l' → frame l s s' → frame l' s s'.
Proof. intros Hl [Hz Hf]. split; [done|]. intros q Hq. apply Hf. set_solver. Qed.

Lemma sz_le sz : 0 < sz → 256 mod sz = 0 → sz ≤ 256.
Proof. intros Hs Hm. apply Z.mod_divide in Hm as [k Hk]; [|lia]. assert (0 < k) by nia. nia. Qed.

(** The slots of a block lie behind its header and before its end. *)
Lemma block_bounds sz live b blk :
  block_ok sz live b blk →
  b + SLAB_HEADER_SIZE ≤ b_start blk ∧ b_start blk < b + SLAB_HEADER_SIZE + sz ∧
  b_start blk + b_used blk < b + SLAB_BLOCK_SIZE - 1.
Proof. intros [[_ Hs] He [Hu Hue] _ _]. rewrite He in Hue. lia. Qed.

(** A slot of a block lies in no other block of the list. *)
Lemma slot_unique l live s p b b' blk' :
  slab_inv l live s → b ∈ l → b' ∈ l → slot_of (slab_size (slab s)) (memory s) p b →
  memory s !! b' = Some blk' → b ≤ p < b + SLAB_BLOCK_SIZE ∧
  (b_start blk' ≤ p < b_start blk' + b_used blk' → b' = b).
Proof.
  intros Hi Hb Hb' (blk & Hblk & Hp & _) Hblk'.
  pose proof (block_bounds _ _ _ _ (si_blocks _ _ _ Hi _ _ Hb Hblk)) as Hbb.
  pose proof (block_bounds _ _ _ _ (si_blocks _ _ _ Hi _ _ Hb' Hblk')) as Hbb'.
  unfold SLAB_HEADER_SIZE, SLAB_BLOCK_SIZE in *. split; [lia|].
  intros Hp'. destruct (decide (b' = b)) as [|Hne]; [done|].
  pose proof (si_apart _ _ _ Hi b' b Hb' Hb Hne) as Hd. unfold disjoint_ranges, SLAB_BLOCK_SIZE in Hd. lia.
Qed.

(** [contains] looks further than the end of the block, but not as far as the first
    slot of another block: the first slots are multiples of the size, and so far
    apart that they differ by a whole block. *)
Lemma contains_slot l live s p b b' blk' :
  slab_inv l live s → b ∈ l → b' ∈ l → slot_of (slab_size (slab s)) (memory s) p b →
  memory s !! b' = Some blk' → SlabBlock_contains blk' p = bool_decide (b' = b).
Proof.
  intros Hi Hb Hb' Hslot Hblk'. pose proof Hslot as (blk & Hblk & Hp & _).
  pose proof (si_blocks _ _ _ Hi _ _ Hb Hblk) as Hok. pose proof (si_blocks _ _ _ Hi _ _ Hb' Hblk') as Hok'.
  pose proof (block_bounds _ _ _ _ Hok) as Hbb. pose proof (block_bounds _ _ _ _ Hok') as Hbb'.
  destruct (si_size _ _ _ Hi) as [Hsz H256]. pose proof (sz_le _ Hsz H256).
  unfold SlabBlock_contains. unfold SLAB_HEADER_SIZE, SLAB_BLOCK_SIZE in *.
  case_bool_decide as Heq.
  - subst b'. assert (blk' = blk) as -> by congruence.
    destruct (Z.geb_spec p (b_start blk)); [|lia]. by destruct (Z.ltb_spec p (b_start blk + 1024)); [|lia].
  - pose proof (si_apart _ _ _ Hi b' b Hb' Hb Heq) as [Hd|Hd]; unfold SLAB_BLOCK_SIZE in Hd.
    + destruct Hok as [[Hm _] _ _ _ _], Hok' as [[Hm' _] _ _ _ _].
      set (sz := slab_size (slab s)) in *.
      apply Z.mod_divide in Hm as [i Hi'], Hm' as [j Hj], H256 as [k Hk]; [|lia..].
      assert (b_start blk - b_start blk' > 1024 - sz) by lia.
      assert (4 * k ≤ i - j) by nia.
      destruct (Z.ltb_spec p (b_start blk' + 1024)); [nia|]. by rewrite andb_false_r.
    + destruct (Z.geb_spec p (b_start blk')); [lia|]. done.
Qed.

(** *** Rules for the primitive calls *)

Lemma wp_deref b blk err (post : SlabBlock → S → Prop) s :
  memory s !! b = Some blk → post blk s → wp (deref b) err post s.
Proof. intros Hb Hp. unfold deref. apply wp_bind, wp_gets. eapply wp_lift; [by rewrite Hb|done]. Qed.

Lemma wp_store b blk err (post : unit → S → Prop) s :
  post tt (mkSlabState (slab s) (<[b:=blk]> (memory s)) (heap s)) → wp (store b blk) err post s.
Proof. intros Hp. exact Hp. Qed.

Lemma wp_set_block b err (post : unit → S → Prop) s :
  post tt (mkSlabState (mkSlab (slab_size (slab s)) b) (memory s) (heap s)) →
  wp (set_block b) err post s.
Proof. intros Hp. exact Hp. Qed.

Lemma wp_on_heap {B} (m : M A MemError B) (err : MemError → S → Prop) (post : B → S → Prop) s :
  wp m (λ e h, err e (mkSlabState (slab s) (memory s) h))
    (λ b h, post b (mkSlabState (slab s) (memory s) h)) (heap s) →
  wp (on_heap m) err post s.
Proof. unfold wp, on_heap. by destruct (m (heap s)) as [[| | |] ?]. Qed.

(** The search returns the first block that passes the test. *)
Lemma wp_find_block test fuel : ∀ l pp b err (post : option UntypedPtr → S → Prop) s,
  dseg (memory s) pp (b :: l) None → (length (b :: l) ≤ fuel)%nat →
  (∀ l1 c l2 blk, b :: l = l1 ++ c :: l2 → memory s !! c = Some blk → test blk = true →
     (∀ c' blk', c' ∈ l1 → memory s !! c' = Some blk' → test blk' = false) → post (Some c) s) →
  ((∀ c blk, c ∈ b :: l → memory s !! c = Some blk → test blk = false) → post None s) →
  wp (find_block test fuel b) err post s.
Proof.
  induction fuel as [|fuel IH]; intros l pp b err post s Hl Hfuel Hfound Hnone; [cbn in Hfuel; lia|].
  destruct Hl as (blk & Hb & Hp & Hn & Hl). cbn [find_block].
  apply wp_bind. eapply wp_deref; [done|]. destruct (test blk) eqn:Ht.
  - apply wp_ret. eapply (Hfound [] b l); [done..|]. intros c' blk' Hc'. by apply not_elem_of_nil in Hc'.
  - rewrite Hn. destruct l as [|c l]; cbn [first_of].
    + apply wp_ret, Hnone. intros c blk' Hc Hblk'. apply list_elem_of_singleton in Hc as ->. congruence.
    + eapply IH; [exact Hl|cbn in *; lia| |].
      * intros l1 d l2 blk' Heq Hd Ht' Hl1. eapply (Hfound (b :: l1)); [by cbn; rewrite Heq|done..|].
        intros c' blk'' [->|Hc']%elem_of_cons Hblk''; [congruence|by eapply Hl1].
      * intros Hall. apply Hnone. intros c' blk' [->|Hc']%elem_of_cons Hblk'; [congruence|by eapply Hall].
Qed.

(** *** Adding a block *)

(** A fresh block: none of the live pieces lies in it. *)
Lemma live_in_apart sz (l : list UntypedPtr) live (b : UntypedPtr) blk :
  (∀ p, p ∈ live → ∃ c, c ∈ l ∧ c ≤ p < c + SLAB_BLOCK_SIZE) →
  (∀ c, c ∈ l → disjoint_ranges b SLAB_BLOCK_SIZE c SLAB_BLOCK_SIZE) →
  block_ok sz ∅ b blk → live_in blk live = ∅.
Proof.
  intros Hlive Hapart Hok. pose proof (block_bounds _ _ _ _ Hok) as Hbb.
  apply elem_of_equiv_empty_L. intros p [Hp Hin]%elem_of_filter.
  destruct (Hlive p Hin) as (c & Hc & Hpc). specialize (Hapart c Hc).
  unfold disjoint_ranges, SLAB_BLOCK_SIZE, SLAB_HEADER_SIZE in *. lia.
Qed.

Lemma live_in_blocks l live s :
  slab_inv l live s → ∀ p, p ∈ live → ∃ c, c ∈ l ∧ c ≤ p < c + SLAB_BLOCK_SIZE.
Proof.
  intros Hi p Hp. destruct (si_live _ _ _ Hi p Hp) as (c & Hc & Hslot). exists c. split; [done|].
  pose proof Hslot as (blk & Hblk & _). by eapply (slot_unique l live s p c c blk).
Qed.

Lemma live_in_empty blk : live_in blk ∅ = ∅.
Proof. apply elem_of_equiv_empty_L. intros p [_ Hp]%elem_of_filter. by apply not_elem_of_empty in Hp. Qed.

Lemma block_ok_fresh sz b p n :
  0 < sz → sz ≤ 256 → block_ok sz ∅ b (mkBlock n p (align_up (b + SLAB_HEADER_SIZE) sz)
    (b + (SLAB_BLOCK_SIZE - 1)) 0 0).
Proof.
  intros Hsz H256. pose proof (align_up_spec (b + SLAB_HEADER_SIZE) sz Hsz) as Ha.
  pose proof Ha as [_ Ha']. split; cbn; [done|done| |apply Z.mod_0_l; lia|].
  - unfold SLAB_HEADER_SIZE, SLAB_BLOCK_SIZE in *. lia.
  - rewrite live_in_empty, size_empty. lia.
Qed.

Lemma live_in_data live blk blk' : data blk' = data blk → live_in blk' live = live_in blk live.
Proof.
  intros [= H1 _ H3 _]. apply set_eq. intros p. unfold live_in. by rewrite !elem_of_filter, H1, H3.
Qed.

Lemma block_ok_data sz live b blk blk' : data blk' = data blk → block_ok sz live b blk → block_ok sz live b blk'.
Proof.
  intros Hd [H1 H2 H3 H4 H5]. pose proof (live_in_data live _ _ Hd) as Hlive.
  injection Hd as E1 E2 E3 E4. split; rewrite ?Hlive, ?E1, ?E2, ?E3, ?E4; done.
Qed.

(** Headers that differ at most in their pointers *)
Definition same_data (l : list UntypedPtr) (m m' : BlockMemory) : Prop :=
  ∀ b, b ∈ l → data <$> m' !! b = data <$> m !! b.

Lemma same_data_lookup l m m' b blk' :
  same_data l m m' → b ∈ l → m' !! b = Some blk' → ∃ blk, m !! b = Some blk ∧ data blk' = data blk.
Proof.
  intros Hs Hb Hb'. specialize (Hs b Hb). rewrite Hb' in Hs. destruct (m !! b) as [blk|]; [|done].
  exists blk. split; [done|]. by apply (inj Some) in Hs.
Qed.

Lemma slot_of_data sz l m m' p b :
  same_data l m m' → b ∈ l → slot_of sz m p b → slot_of sz m' p b.
Proof.
  intros Hs Hb (blk & Hblk & Hp & Hmod). specialize (Hs b Hb). rewrite Hblk in Hs.
  destruct (m' !! b) as [blk'|] eqn:Hblk'; [|done]. injection Hs as H1 _ H3 _.
  exists blk'. rewrite H1, H3. done.
Qed.

(** The header of a new block in front of the list [l] *)
Definition new_header (sz b : Z) (n : option UntypedPtr) : SlabBlock :=
  mkBlock n None (align_up (b + SLAB_HEADER_SIZE) sz) (b + (SLAB_BLOCK_SIZE - 1)) 0 0.

Lemma new_header_not_full sz b n :
  0 < sz → sz ≤ 256 → SlabBlock_is_full (new_header sz b n) sz = false.
Proof.
  intros Hsz Hle. pose proof (block_ok_fresh sz b None n Hsz Hle) as [[_ Hst] _ _ _ _].
  unfold SlabBlock_is_full. cbn in *. unfold SLAB_HEADER_SIZE, SLAB_BLOCK_SIZE in *.
  match goal with |- (?x >=? ?y) = false => destruct (Z.geb_spec x y) end; [lia|done].
Qed.

Lemma slab_inv_push l live s b m' h :
  slab_inv l live s → regions (heap s) !! b = None →
  (∀ q m, regions (heap s) !! q = Some m → disjoint_ranges b SLAB_BLOCK_SIZE q m) →
  regions h = <[b:=SLAB_BLOCK_SIZE]> (regions (heap s)) →
  dseg m' None (b :: l) None → same_data l (memory s) m' →
  m' !! b = Some (new_header (slab_size (slab s)) b (first_of l None)) →
  slab_inv (b :: l) live (mkSlabState (mkSlab (slab_size (slab s)) (Some b)) m' h).
Proof.
  intros Hi Hnone Hapart Hr Hm' Hdata Hmb. destruct (si_size _ _ _ Hi) as [Hsz H256].
  pose proof (block_ok_fresh (slab_size (slab s)) b None (first_of l None) Hsz (sz_le _ Hsz H256)
    : block_ok _ _ _ (new_header (slab_size (slab s)) b (first_of l None))) as Hfresh.
  assert (b ∉ l) as Hb by (intros Hb; rewrite (si_regions _ _ _ Hi b Hb) in Hnone; done).
  assert (∀ c, c ∈ l → disjoint_ranges b SLAB_BLOCK_SIZE c SLAB_BLOCK_SIZE) as Hbc.
  { intros c Hc. apply (Hapart c), (si_regions _ _ _ Hi), Hc. }
  split; cbn; try done.
  - constructor; [done|apply (si_nodup _ _ _ Hi)].
  - intros c blk' [->|Hc]%elem_of_cons Hblk'.
    + simplify_eq. pose proof Hfresh as [H1 H2 H3 H4 H5]. split; try done.
      rewrite (live_in_apart (slab_size (slab s)) l live b _ (live_in_blocks _ _ _ Hi) Hbc Hfresh).
      cbn. rewrite size_empty. lia.
    + destruct (same_data_lookup _ _ _ _ _ Hdata Hc Hblk') as (blk0 & Hblk0 & Hd).
      apply (block_ok_data _ _ _ blk0); [done|]. by apply (si_blocks _ _ _ Hi).
  - intros p Hp. destruct (si_live _ _ _ Hi p Hp) as (c & Hc & Hslot). exists c.
    split; [by right|by eapply slot_of_data].
  - intros c Hc. rewrite Hr. apply elem_of_cons in Hc as [->|Hc]; [apply lookup_insert_eq|].
    rewrite lookup_insert_ne; [by apply (si_regions _ _ _ Hi)|]. by intros ->.
  - intros c c' [->|Hc]%elem_of_cons [->|Hc']%elem_of_cons Hne; [done|by apply Hbc| |].
    + specialize (Hbc c Hc). unfold disjoint_ranges in *. lia.
    + by apply (si_apart _ _ _ Hi).
Qed.

Definition pushed (l : list UntypedPtr) (live : gset UntypedPtr) (s : S) (b : UntypedPtr) (s' : S) : Prop :=
  slab_inv (b :: l) live s' ∧ frame (b :: l) s s' ∧ regions (heap s) !! b = None ∧
  ∃ blk, memory s' !! b = Some blk ∧ SlabBlock_is_full blk (slab_size (slab s)) = false.

(** Putting a block in front of the list *)
Lemma wp_push_new_block l live s :
  slab_inv l live s →
  wp push_new_block (λ _ s', slab_inv l live s' ∧ frame [] s s') (pushed l live s) s.
Proof.
  intros Hi. destruct (si_size _ _ _ Hi) as [Hsz H256]. pose proof (sz_le _ Hsz H256) as Hle.
  unfold push_new_block. apply wp_bind, wp_gets, wp_bind. unfold SlabBlock_new.
  apply wp_bind, wp_on_heap. eapply wp_mono; [by apply alloc_spec| |].
  2: { intros e h Hr. split; [|split; [done|]].
       - destruct Hi. split; cbn; try done. intros b Hb. rewrite Hr. by apply si_regions0.
       - intros q _. cbn. by rewrite Hr. }
  intros b h (_ & _ & Hnone & Hapart & Hr). cbn [l_size SlabBlock_layout] in *.
  assert (b ∉ l) as Hb by (intros Hb; rewrite (si_regions _ _ _ Hi b Hb) in Hnone; done).
  apply wp_bind, wp_store, wp_ret, wp_bind. eapply wp_deref; [apply lookup_insert_eq|].
  apply wp_bind, wp_store. cbn [slab memory heap]. rewrite insert_insert_eq, (si_first _ _ _ Hi).
  change (set_next _ _) with (new_header (slab_size (slab s)) b (first_of l None)). apply wp_bind.
  assert (∀ m', dseg m' None (b :: l) None → same_data l (memory s) m' →
            m' !! b = Some (new_header (slab_size (slab s)) b (first_of l None)) →
            (∀ q, q ∉ b :: l → m' !! q = memory s !! q) →
            pushed l live s b (mkSlabState (mkSlab (slab_size (slab s)) (Some b)) m' h)) as Hdone.
  { intros m' Hm' Hdata Hmb Hother. split; [by apply slab_inv_push|]. split; [split; [done|]|].
    - intros q Hq. cbn. split; [by apply Hother|]. rewrite Hr, lookup_insert_ne; [done|].
      intros ->. apply Hq. left.
    - split; [done|]. eexists. split; [done|]. by apply new_header_not_full. }
  pose proof (si_list _ _ _ Hi) as Hl. pose proof (si_nodup _ _ _ Hi) as Hnd.
  destruct l as [|c l]; cbn [first_of] in *.
  - apply wp_ret, wp_bind, wp_set_block, wp_ret. apply Hdone; cbn.
    + eexists. rewrite lookup_insert_eq. done.
    + intros ? Hin. by apply not_elem_of_nil in Hin.
    + by rewrite lookup_insert_eq.
    + intros q Hq. rewrite lookup_insert_ne; [done|]. intros ->. apply Hq. left.
  - destruct Hl as (first & Hc & Hcl). pose proof Hcl as (Hcp & Hcn & Hl).
    assert (c ≠ b) as Hne by (intros ->; apply Hb; left).
    apply wp_bind. eapply wp_deref; [cbn; by rewrite lookup_insert_ne|]. apply wp_store.
    apply wp_bind, wp_set_block, wp_ret. cbn [slab memory heap]. apply Hdone.
    + eexists. rewrite lookup_insert_ne, lookup_insert_eq by done.
      split; [done|]. split; [done|]. split; [done|].
      eapply (dseg_set_prev _ c l None (Some b) None first); [|done|by rewrite lookup_insert_ne].
      apply dseg_insert_other; [done|]. exists first. done.
    + intros d Hd. destruct (decide (d = c)) as [->|Hdc].
      * rewrite lookup_insert_eq, Hc. done.
      * rewrite lookup_insert_ne by done. rewrite lookup_insert_ne by (intros ->; done). done.
    + rewrite lookup_insert_ne, lookup_insert_eq by done. done.
    + intros q Hq. rewrite !lookup_insert_ne by set_solver. done.
Qed.

(** *** Handing out a slot *)

(** What [alloc] promises about the piece [p] it returns *)
Definition fresh_piece (sz : Z) (live : gset UntypedPtr) (p : UntypedPtr) : Prop :=
  (p ∉ live) ∧ p mod sz = 0 ∧ ∀ q, q ∈ live → disjoint_ranges p sz q sz.

Lemma slots_disjoint sz p q : 0 < sz → p mod sz = 0 → q mod sz = 0 → p ≠ q → disjoint_ranges p sz q sz.
Proof.
  intros Hs Hp Hq Hne. apply Z.mod_divide in Hp as [i ->], Hq as [j ->]; [|lia..].
  unfold disjoint_ranges. assert (i ≠ j) by naive_solver. nia.
Qed.

(** The live pieces in the range of a block are the pieces of this block. *)
Lemma live_in_range l live s b blk q :
  slab_inv l live s → b ∈ l → memory s !! b = Some blk → q ∈ live →
  b ≤ q < b + SLAB_BLOCK_SIZE → q ∈ live_in blk live.
Proof.
  intros Hi Hb Hblk Hq Hqb. destruct (si_live _ _ _ Hi q Hq) as (c & Hc & Hslot).
  pose proof Hslot as (blkc & Hblkc & Hqc & _).
  destruct (slot_unique l live s q c c blkc Hi Hc Hc Hslot Hblkc) as [Hqr _].
  apply elem_of_filter. split; [|done]. destruct (decide (c = b)) as [->|Hcb]; [by simplify_eq|].
  pose proof (si_apart _ _ _ Hi c b Hc Hb Hcb) as Hd. unfold disjoint_ranges in Hd. lia.
Qed.

(** The block after its next slot was handed out *)
Definition take_slot (sz : Z) (blk : SlabBlock) : SlabBlock := set_used (b_used blk + sz) blk.

Lemma live_in_take l live s b blk :
  slab_inv l live s → b ∈ l → memory s !! b = Some blk →
  b_start blk + b_used blk + slab_size (slab s) < b_end blk →
  live_in (take_slot (slab_size (slab s)) blk) ({[b_start blk + b_used blk]} ∪ live) =
    {[b_start blk + b_used blk]} ∪ live_in blk live.
Proof.
  intros Hi Hb Hblk Hroom. destruct (si_size _ _ _ Hi) as [Hsz _].
  pose proof (si_blocks _ _ _ Hi _ _ Hb Hblk) as Hok. pose proof (block_bounds _ _ _ _ Hok) as Hbb.
  destruct Hok as [_ Hend [Hu _] _ _]. apply set_eq. intros q. unfold live_in.
  rewrite elem_of_union, !elem_of_filter, elem_of_union, elem_of_singleton. cbn. split.
  - intros [Hq [->|Hql]]; [by left|right]. split; [|done].
    assert (q ∈ live_in blk live) as [Hqi _]%elem_of_filter; [|done].
    eapply live_in_range; [done..|]. unfold SLAB_HEADER_SIZE, SLAB_BLOCK_SIZE in *. lia.
  - intros [->|[Hq Hql]]; [split; [lia|by left]|]. split; [lia|by right].
Qed.

Lemma block_ok_take l live s b blk :
  slab_inv l live s → b ∈ l → memory s !! b = Some blk →
  b_start blk + b_used blk + slab_size (slab s) < b_end blk →
  block_ok (slab_size (slab s)) ({[b_start blk + b_used blk]} ∪ live) b
    (take_slot (slab_size (slab s)) blk).
Proof.
  intros Hi Hb Hblk Hroom. destruct (si_size _ _ _ Hi) as [Hsz _].
  pose proof (live_in_take _ _ _ _ _ Hi Hb Hblk Hroom) as Hlive.
  destruct (si_blocks _ _ _ Hi _ _ Hb Hblk) as [H1 H2 [H3 H3'] H4 H5].
  split; cbn; [done|done|lia| |].
  - rewrite Z.add_mod, H4, Z.mod_same by lia. apply Z.mod_0_l. lia.
  - rewrite Hlive, size_union, size_singleton; [lia|].
    apply disjoint_singleton_l. intros [Hp _]%elem_of_filter. lia.
Qed.

Lemma slab_inv_take l live s b blk :
  slab_inv l live s → b ∈ l → memory s !! b = Some blk →
  b_start blk + b_used blk + slab_size (slab s) < b_end blk →
  (b_start blk + b_used blk) mod slab_size (slab s) = 0 →
  slab_inv l ({[b_start blk + b_used blk]} ∪ live)
    (mkSlabState (slab s) (<[b:=take_slot (slab_size (slab s)) blk]> (memory s)) (heap s)).
Proof.
  intros Hi Hb Hblk Hroom Hpm. pose proof (block_ok_take _ _ _ _ _ Hi Hb Hblk Hroom) as Hnew.
  pose proof (block_bounds _ _ _ _ (si_blocks _ _ _ Hi _ _ Hb Hblk)) as Hbb.
  pose proof (bo_used _ _ _ _ (si_blocks _ _ _ Hi _ _ Hb Hblk)) as [Hu _].
  set (p := b_start blk + b_used blk) in *. pose proof Hi as []. pose proof (proj1 si_size0) as Hsz.
  split; cbn; try done.
  - eapply dseg_ext; [|exact si_list0]. intros c Hc. destruct (decide (c = b)) as [->|Hcb].
    + by rewrite lookup_insert_eq, Hblk.
    + by rewrite lookup_insert_ne.
  - intros c blkc Hc Hblkc. destruct (decide (c = b)) as [->|Hcb].
    + rewrite lookup_insert_eq in Hblkc. by injection Hblkc as <-.
    + rewrite lookup_insert_ne in Hblkc by done. pose proof (si_blocks0 c blkc Hc Hblkc) as Hokc.
      pose proof (block_bounds _ _ _ _ Hokc) as Hbc. pose proof (si_apart0 c b Hc Hb Hcb) as Hd.
      destruct Hokc as [H1 H2 H3 H4 H5]. split; try done.
      assert (live_in blkc ({[p]} ∪ live) = live_in blkc live) as ->; [|done].
      apply set_eq. intros q. unfold live_in. rewrite !elem_of_filter, elem_of_union, elem_of_singleton.
      unfold p, disjoint_ranges, SLAB_HEADER_SIZE, SLAB_BLOCK_SIZE in *. split; [|naive_solver].
      intros [Hq [->|Hql]]; [lia|done].
  - intros q [->%elem_of_singleton|Hq]%elem_of_union.
    + exists b. split; [done|]. eexists. rewrite lookup_insert_eq. split; [done|]. cbn.
      split; [unfold p; lia|done].
    + destruct (si_live0 q Hq) as (c & Hc & blkc & Hblkc & Hqc & Hqm). exists c. split; [done|].
      destruct (decide (c = b)) as [->|Hcb].
      * eexists. rewrite lookup_insert_eq. simplify_eq. split; [done|]. cbn. split; [lia|done].
      * exists blkc. by rewrite lookup_insert_ne.
Qed.

Lemma wp_block_alloc l live s b blk err :
  slab_inv l live s → b ∈ l → memory s !! b = Some blk →
  SlabBlock_is_full blk (slab_size (slab s)) = false →
  wp (SlabBlock_alloc b (slab_size (slab s))) err
    (λ p s', slab_inv l ({[p]} ∪ live) s' ∧ frame l s s' ∧
       fresh_piece (slab_size (slab s)) live p ∧ b ≤ p < b + SLAB_BLOCK_SIZE) s.
Proof.
  intros Hi Hb Hblk Hfull. pose proof Hfull as Hroom.
  destruct (si_size _ _ _ Hi) as [Hsz _]. pose proof (si_blocks _ _ _ Hi _ _ Hb Hblk) as Hok.
  pose proof (block_bounds _ _ _ _ Hok) as Hbb. destruct Hok as [[Hmod Hst] Hend [Hu Hue] Hslots _].
  unfold SlabBlock_is_full in Hroom.
  match type of Hroom with (?x >=? ?y) = _ => destruct (Z.geb_spec x y) as [|Hlt]; [done|] end.
  assert ((b_start blk + b_used blk) mod slab_size (slab s) = 0) as Hpm
    by (rewrite Z.add_mod, Hmod, Hslots by lia; apply Z.mod_0_l; lia).
  assert (b ≤ b_start blk + b_used blk < b + SLAB_BLOCK_SIZE) as Hpb by (unfold SLAB_HEADER_SIZE in *; lia).
  assert (b_start blk + b_used blk ∉ live) as Hpl.
  { intros Hp. pose proof (live_in_range _ _ _ _ _ _ Hi Hb Hblk Hp Hpb) as [Hr _]%elem_of_filter. lia. }
  unfold SlabBlock_alloc. apply wp_bind. eapply wp_deref; [done|]. rewrite Hfull.
  destruct (Z.eqb_spec (slab_size (slab s)) 0) as [|_]; [lia|].
  apply wp_bind, wp_assert; [by apply Z.leb_le; lia|]. apply wp_bind, wp_store.
  apply wp_bind, wp_assert; [by apply is_aligned_spec|]. apply wp_ret.
  split; [by apply slab_inv_take|]. split; [split; [done|]|split; [|done]].
  - intros q Hq. cbn. rewrite lookup_insert_ne by (intros ->; done). done.
  - split; [done|]. split; [done|]. intros q Hq.
    destruct (si_live _ _ _ Hi q Hq) as (c & Hc & blkc & Hblkc & Hqc & Hqm).
    apply slots_disjoint; [done|done|done|]. by intros <-.
Qed.

(** *** [alloc] *)

Definition layout_ok (sz : Z) (layout : Layout) : Prop :=
  l_size layout ≤ sz ∧ is_power_of_two (l_align layout) = true ∧ l_align layout ≤ sz.

Lemma wp_check_layout layout err (post : unit → S → Prop) s :
  layout_ok (slab_size (slab s)) layout → post tt s → wp (check_layout layout) err post s.
Proof.
  intros (H1 & H2 & H3) Hp. unfold check_layout. apply wp_bind, wp_gets.
  destruct (Z.gtb_spec (l_size layout) (slab_size (slab s))); [lia|]. apply wp_bind.
  unfold can_accept_align. eapply wp_lift; [by rewrite H2|].
  by rewrite (proj2 (Z.leb_le _ _) H3).
Qed.

Lemma wp_slab_alloc l live s layout :
  slab_inv l live s → layout_ok (slab_size (slab s)) layout →
  wp (SlabAllocator_alloc layout)
    (λ _ s', ∃ l', slab_inv l' live s' ∧ grown l l' s ∧ frame l' s s')
    (λ p s', ∃ l' b, slab_inv l' ({[p]} ∪ live) s' ∧ grown l l' s ∧ frame l' s s' ∧
       fresh_piece (slab_size (slab s)) live p ∧ b ∈ l' ∧ b ≤ p < b + SLAB_BLOCK_SIZE) s.
Proof.
  intros Hi Hlay. unfold SlabAllocator_alloc. apply wp_bind, wp_check_layout; [done|].
  apply wp_bind, wp_gets. cbn zeta. set (sz := slab_size (slab s)). apply wp_bind.
  assert (∀ l1 s1, slab_inv l1 live s1 → grown l l1 s → frame l1 s s1 → ∀ b l2, l1 = b :: l2 →
    wp (find_block_with_space sz b ≫= λ found,
          (match found with Some block => mret block | None => push_new_block end) ≫= λ block,
          SlabBlock_alloc block sz)
      (λ _ s', ∃ l', slab_inv l' live s' ∧ grown l l' s ∧ frame l' s s')
      (λ p s', ∃ l' b, slab_inv l' ({[p]} ∪ live) s' ∧ grown l l' s ∧ frame l' s s' ∧
         fresh_piece sz live p ∧ b ∈ l' ∧ b ≤ p < b + SLAB_BLOCK_SIZE) s1) as Hrest.
  { intros l1 s1 Hi1 Hl1 Hf1 b l2 ->. pose proof (proj1 Hf1) as Hsz. unfold find_block_with_space.
    pose proof (si_list _ _ _ Hi1) as Hl. pose proof (si_nodup _ _ _ Hi1) as Hnd.
    apply wp_bind, wp_bind, wp_gets. eapply wp_find_block; [exact Hl|by eapply dseg_size| |].
    - intros l3 c l4 blk Heq Hblk Hroom _. apply wp_bind, wp_ret.
      assert (c ∈ b :: l2) as Hc by (rewrite Heq; set_solver).
      unfold sz in *. rewrite <- Hsz in Hroom |- *. apply negb_true_iff in Hroom.
      eapply wp_mono; [eapply (wp_block_alloc _ _ _ c blk (λ _ _, False)); done| |done].
      intros p s2 (Hi2 & Hf2 & Hfresh & Hp). exists (b :: l2), c. split; [done|]. split; [done|].
      split; [by eapply frame_trans|]. rewrite Hsz in Hfresh |- *. done.
    - intros _. apply wp_bind. eapply wp_mono; [by apply wp_push_new_block| |].
      + intros c s2 (Hi2 & Hf2 & Hnew & blk & Hblk & Hroom).
        assert (grown l (c :: b :: l2) s) as Hgrown.
        { destruct Hl1 as [Hsub Hnew1]. split; [set_solver|]. intros d [->|Hd]%elem_of_cons; [|by apply Hnew1].
          destruct (decide (c ∈ b :: l2)) as [Hin|Hnin]; [by apply Hnew1|]. right.
          destruct Hf1 as [_ Hf1]. by rewrite <- (proj2 (Hf1 c Hnin)). }
        assert (slab_size (slab s2) = slab_size (slab s1)) as Hsz2 by apply Hf2.
        unfold sz in *. rewrite <- Hsz, <- Hsz2 in *.
        eapply wp_mono; [eapply (wp_block_alloc _ _ _ c blk (λ _ _, False)); [done|left|done|done]| |done].
        intros p s3 (Hi3 & Hf3 & Hfresh & Hp). exists (c :: b :: l2), c. split; [done|].
        split; [done|]. split; [|split; [done|split; [left|done]]].
        eapply frame_trans; [|exact Hf3]. eapply frame_trans; [|exact Hf2].
        eapply frame_weaken; [|exact Hf1]. set_solver.
      + intros e s2 [Hi2 Hf2]. exists (b :: l2). split; [done|]. split; [done|].
        eapply frame_trans; [exact Hf1|]. eapply frame_weaken; [|exact Hf2]. set_solver. }
  unfold first_block_or_push. apply wp_bind, wp_gets. rewrite (si_first _ _ _ Hi).
  destruct l as [|b l2]; cbn [first_of].
  - eapply wp_mono; [by apply wp_push_new_block| |].
    + intros b s1 (Hi1 & Hf1 & Hnew & _). eapply (Hrest [b] s1 Hi1); [|done|done].
      split; [set_solver|]. intros c ->%list_elem_of_singleton. by right.
    + intros e s1 [Hi1 Hf1]. exists []. split; [done|]. split; [|done]. by split; [|left].
  - apply wp_ret. eapply (Hrest (b :: l2) s Hi); [by split; [|left]|apply frame_refl|done].
Qed.

(** *** [free] *)

Lemma same_data_trans l m1 m2 m3 : same_data l m1 m2 → same_data l m2 m3 → same_data l m1 m3.
Proof. intros H1 H2 b Hb. by rewrite H2, H1. Qed.

Lemma same_data_insert l m b blk blk' : m !! b = Some blk → data blk' = data blk → same_data l m (<[b:=blk']> m).
Proof.
  intros Hb Hd c _. destruct (decide (c = b)) as [->|Hne].
  - rewrite lookup_insert_eq, Hb. cbn. by f_equal.
  - by rewrite lookup_insert_ne.
Qed.

(** Taking a block out of the middle of the list *)
Lemma wp_unlink_block l1 b l2 blk err (post : unit → S → Prop) s :
  slab_block (slab s) = first_of (l1 ++ b :: l2) None →
  dseg (memory s) None (l1 ++ b :: l2) None → NoDup (l1 ++ b :: l2) →
  memory s !! b = Some blk →
  (∀ m', dseg m' None (l1 ++ l2) None → same_data (l1 ++ l2) (memory s) m' →
     (∀ q, q ∉ l1 ++ l2 → m' !! q = memory s !! q) →
     post tt (mkSlabState (mkSlab (slab_size (slab s)) (first_of (l1 ++ l2) None)) m' (heap s))) →
  wp (unlink_block b) err post s.
Proof.
  intros Hfirst Hl Hnd Hb Hpost. destruct s as [sl m h]. cbn [slab memory heap] in *.
  destruct (dseg_middle _ _ _ _ _ Hl Hb) as (Hprev & Hnext & H1 & H2).
  apply NoDup_app in Hnd as (Hnd1 & Hdisj & [Hb2 Hnd2]%NoDup_cons).
  assert (b ∉ l1) as Hb1 by (intros Hin; apply (Hdisj b Hin); left).
  unfold unlink_block. apply wp_bind. eapply wp_deref; [done|]. rewrite Hprev, Hnext.
  (** the block before *)
  assert (∀ m1 sl1, dseg m1 None l1 (first_of l2 None) → dseg m1 (Some b) l2 None →
            same_data (l1 ++ l2) m m1 → (∀ q, q ∉ l1 ++ l2 → m1 !! q = m !! q) →
            ∀ k : unit → Prelude.M S MemError unit,
            (∀ m', dseg m' None (l1 ++ l2) None → same_data (l1 ++ l2) m m' →
               (∀ q, q ∉ l1 ++ l2 → m' !! q = m !! q) →
               wp (k tt) err post (mkSlabState sl1 m' h)) →
            wp ((match first_of l2 None with
                 | Some next_ptr => deref next_ptr ≫= λ next, store next_ptr (set_prev (last_of l1 None) next)
                 | None => mret tt
                 end) ≫= k) err post (mkSlabState sl1 m1 h)) as Hnext_step.
  { intros m1 sl1 Hm1 Hm1' Hd1 Ho1 k Hk. apply wp_bind. destruct l2 as [|n l2]; cbn [first_of] in *.
    - apply wp_ret. apply Hk; [|done..]. rewrite app_nil_r in *. done.
    - pose proof Hm1' as (blkn & Hn & _). apply wp_bind. eapply wp_deref; [exact Hn|].
      apply wp_store. cbn [slab memory heap]. apply Hk.
      + apply dseg_app. split; cbn [first_of].
        * apply dseg_insert_other; [|done]. intros Hin. apply (Hdisj n Hin). right. left.
        * by eapply dseg_set_prev.
      + eapply same_data_trans; [exact Hd1|]. by eapply same_data_insert.
      + intros q Hq. rewrite lookup_insert_ne; [by apply Ho1|]. intros ->. apply Hq. set_solver. }
  apply wp_bind. unfold last_of in *. destruct (last l1) as [p|] eqn:Hlast.
  - apply last_Some in Hlast as [l1' ->]. pose proof H1 as H1'. rewrite dseg_app in H1'.
    destruct H1' as [_ (blkp & Hp & _)]. apply wp_bind. eapply wp_deref; [exact Hp|].
    apply wp_bind, wp_store, wp_ret. cbn [slab memory heap].
    assert (∀ q, q ∉ (l1' ++ [p]) ++ l2 → <[p:=set_next (first_of l2 None) blkp]> m !! q = m !! q)
      as Hother by (intros q Hq; rewrite lookup_insert_ne; [done|]; intros ->; apply Hq; set_solver).
    apply Hnext_step; [by eapply dseg_set_next| |by eapply same_data_insert|done|].
    { apply dseg_insert_other; [|done]. intros Hin. apply (Hdisj p); [set_solver|by right]. }
    intros m' Hm' Hd' Ho'. apply wp_ret.
    replace sl with (mkSlab (slab_size sl) (first_of ((l1' ++ [p]) ++ l2) None)); [by apply Hpost|].
    destruct sl as [z fb]. cbn in *. rewrite Hfirst. f_equal. rewrite !first_of_app. by destruct l1'.
  - apply last_None in Hlast as ->. apply wp_ret. cbn [app first_of] in *.
    apply Hnext_step; [done|done|done|done|]. intros m' Hm' Hd' Ho'. apply wp_set_block. by apply Hpost.
Qed.

Lemma live_in_remove blk live p :
  live_in blk (live ∖ {[p]}) = live_in blk live ∖ {[p]}.
Proof. apply set_eq. intros q. unfold live_in. rewrite elem_of_difference, !elem_of_filter, elem_of_difference. naive_solver. Qed.

Lemma block_ok_freed sz live b blk p :
  block_ok sz live b blk → p ∈ live_in blk live →
  block_ok sz (live ∖ {[p]}) b (set_freed (b_freed blk + sz) blk).
Proof.
  intros [H1 H2 H3 H4 H5] Hp. split; try done. cbn.
  change (live_in (set_freed (b_freed blk + sz) blk)) with (live_in blk).
  rewrite live_in_remove, size_difference, size_singleton by (by apply singleton_subseteq_l).
  assert (size (live_in blk live) ≠ 0)%nat; [|rewrite Nat2Z.inj_sub by lia; lia].
  intros Hz%size_empty_inv. by apply (Hz p) in Hp.
Qed.

Lemma block_ok_other sz live b blk p :
  block_ok sz live b blk → p ∉ live_in blk live → block_ok sz (live ∖ {[p]}) b blk.
Proof.
  intros [H1 H2 H3 H4 H5] Hp. split; try done.
  by rewrite live_in_remove, difference_disjoint_L by (by apply disjoint_singleton_r).
Qed.

(** A block counts as freed only when none of its pieces is live. *)
Lemma is_freed_empty sz live b blk :
  0 < sz → block_ok sz live b blk → SlabBlock_is_freed blk sz = true → live_in blk live = ∅.
Proof.
  intros Hsz [H1 H2 [H3 H3'] H4 H5]. unfold SlabBlock_is_freed.
  match goal with |- (?x >=? ?y) = true → _ => destruct (Z.geb_spec x y) as [Hge|]; [|done] end.
  intros _. destruct (decide (size (live_in blk live) = 0)%nat) as [Hz|]; [|nia].
  by apply size_empty_inv, leibniz_equiv in Hz.
Qed.

(** Giving back one piece, before the block is looked at *)
Lemma slab_inv_freed l live s p b blk :
  slab_inv l live s → p ∈ live → b ∈ l → memory s !! b = Some blk → p ∈ live_in blk live →
  slab_inv l (live ∖ {[p]})
    (mkSlabState (slab s) (<[b:=set_freed (b_freed blk + slab_size (slab s)) blk]> (memory s)) (heap s)).
Proof.
  intros Hi Hp Hb Hblk Hpb. pose proof Hpb as [Hpr _]%elem_of_filter.
  pose proof (si_live _ _ _ Hi p Hp) as (b0 & Hb0 & Hslot).
  destruct (slot_unique l live s p b0 b blk Hi Hb0 Hb Hslot Hblk) as [_ Heq]. rewrite <- (Heq Hpr) in Hslot.
  pose proof Hi as []. split; cbn; try done.
  - eapply dseg_ext; [|exact si_list0]. intros c Hc. destruct (decide (c = b)) as [->|Hcb].
    + by rewrite lookup_insert_eq, Hblk.
    + by rewrite lookup_insert_ne.
  - intros c blkc Hc Hblkc. destruct (decide (c = b)) as [->|Hcb].
    + rewrite lookup_insert_eq in Hblkc. injection Hblkc as <-. apply block_ok_freed; [by apply si_blocks0|done].
    + rewrite lookup_insert_ne in Hblkc by done. apply block_ok_other; [by apply si_blocks0|].
      intros [Hpc _]%elem_of_filter. apply Hcb.
      by apply (slot_unique l live s p b c blkc Hi Hb Hc Hslot Hblkc).
  - intros q [Hq _]%elem_of_difference. destruct (si_live0 q Hq) as (c & Hc & blkc & Hblkc & Hqc & Hqm).
    exists c. split; [done|]. destruct (decide (c = b)) as [->|Hcb].
    + simplify_eq. eexists. rewrite lookup_insert_eq. done.
    + exists blkc. by rewrite lookup_insert_ne.
Qed.

(** Giving back a block without live pieces *)
Lemma slab_inv_remove l1 b l2 live s blk m' h :
  slab_inv (l1 ++ b :: l2) live s → memory s !! b = Some blk → live_in blk live = ∅ →
  dseg m' None (l1 ++ l2) None → same_data (l1 ++ l2) (memory s) m' →
  regions h = delete b (regions (heap s)) →
  slab_inv (l1 ++ l2) live
    (mkSlabState (mkSlab (slab_size (slab s)) (first_of (l1 ++ l2) None)) (delete b m') h).
Proof.
  intros Hi Hblk Hempty Hm' Hdata Hr. pose proof Hi as [].
  assert ((b ∉ l1 ++ l2) ∧ NoDup (l1 ++ l2)) as [Hb Hnd].
  { revert si_nodup0. rewrite (NoDup_app l1), NoDup_cons, NoDup_app, elem_of_app. set_solver. }
  assert (∀ c, c ∈ l1 ++ l2 → c ∈ l1 ++ b :: l2 ∧ c ≠ b) as Hin by set_solver.
  split; cbn; try done.
  - eapply dseg_ext; [|exact Hm']. intros c Hc. by rewrite lookup_delete_ne by (intros ->; done).
  - intros c blkc Hc Hblkc. rewrite lookup_delete_ne in Hblkc by (intros ->; done).
    destruct (same_data_lookup _ _ _ _ _ Hdata Hc Hblkc) as (blk0 & Hblk0 & Hd).
    apply (block_ok_data _ _ _ blk0); [done|]. apply si_blocks0; [by apply Hin|done].
  - intros p Hp. destruct (si_live0 p Hp) as (c & Hc & Hslot). exists c.
    assert (c ≠ b) as Hcb.
    { intros ->. destruct Hslot as (blk' & Hblk' & Hpr & _). assert (blk' = blk) as -> by congruence.
      assert (p ∈ live_in blk live) as Hpb by (apply elem_of_filter; done).
      rewrite Hempty in Hpb. by apply not_elem_of_empty in Hpb. }
    assert (c ∈ l1 ++ l2) as Hc' by set_solver. split; [done|].
    destruct (slot_of_data _ _ _ _ _ _ Hdata Hc' Hslot) as (blk' & Hblk' & Hrest).
    exists blk'. by rewrite lookup_delete_ne by done.
  - intros c Hc. destruct (Hin c Hc) as [Hc' Hne]. rewrite Hr, lookup_delete_ne by done. by apply si_regions0.
  - intros c c' Hc Hc'. apply si_apart0; by apply Hin.
Qed.

(** What [free] did to the list of blocks: nothing, or one block is gone, of which
    no piece is live any more. *)
Definition released (live : gset UntypedPtr) (l l' : list UntypedPtr) : Prop :=
  l' = l ∨ ∃ l1 b l2, l = l1 ++ b :: l2 ∧ l' = l1 ++ l2 ∧
    ∀ q, q ∈ live → ¬ b ≤ q < b + SLAB_BLOCK_SIZE.

Lemma wp_slab_free l live s p layout err :
  slab_inv l live s → layout_ok (slab_size (slab s)) layout → p ∈ live →
  wp (SlabAllocator_free p layout) err
    (λ _ s', ∃ l', slab_inv l' (live ∖ {[p]}) s' ∧ frame l s s' ∧ released (live ∖ {[p]}) l l' ∧
       ∀ c, c ∈ l → c ∉ l' → regions (heap s') !! c = None) s.
Proof.
  intros Hi Hlay Hp. pose proof (si_live _ _ _ Hi p Hp) as (b & Hb & Hslot).
  pose proof Hslot as (blk & Hblk & Hpr & _).
  unfold SlabAllocator_free. apply wp_bind, wp_check_layout; [done|].
  apply wp_bind, wp_gets. cbn zeta. set (sz := slab_size (slab s)). apply wp_bind.
  pose proof (si_list _ _ _ Hi) as Hl. pose proof (si_nodup _ _ _ Hi) as Hnd.
  destruct l as [|b0 l]; [by apply not_elem_of_nil in Hb|].
  eapply wp_lift; [by rewrite (si_first _ _ _ Hi)|]. unfold find_block_containing.
  apply wp_bind, wp_bind, wp_gets. eapply wp_find_block; [exact Hl|by eapply dseg_size| |].
  2: { intros Hall. specialize (Hall b blk Hb Hblk).
       by rewrite (contains_slot _ _ _ _ b b blk Hi), bool_decide_true in Hall. }
  intros l1 c l2 blk' Heq Hblk' Hcont _. apply wp_bind. eapply wp_lift; [done|].
  assert (c ∈ b0 :: l) as Hc by (rewrite Heq; set_solver).
  rewrite (contains_slot _ _ _ _ b c blk' Hi Hb Hc Hslot Hblk') in Hcont.
  apply bool_decide_eq_true in Hcont as ->. assert (blk' = blk) as -> by congruence.
  rewrite Heq in *. set (l0 := l1 ++ b :: l2) in *.
  assert (p ∈ live_in blk live) as Hpb by (apply elem_of_filter; done).
  apply wp_bind. eapply wp_deref; [exact Hblk|]. apply wp_bind, wp_store.
  pose proof (slab_inv_freed _ _ _ _ _ _ Hi Hp Hb Hblk Hpb) as Hi'. fold sz in Hi' |- *.
  set (s1 := mkSlabState (slab s) _ _) in *. set (blk1 := set_freed (b_freed blk + sz) blk) in *.
  assert (memory s1 !! b = Some blk1) as Hb1 by apply lookup_insert_eq.
  assert (frame l0 s s1) as Hf1.
  { split; [done|]. intros q Hq. cbn. rewrite lookup_insert_ne by (intros ->; done). done. }
  destruct (SlabBlock_is_freed blk1 sz) eqn:Hfreed.
  - pose proof (si_blocks _ _ _ Hi' _ _ Hb Hb1) as Hok1.
    apply (is_freed_empty _ _ _ _ (proj1 (si_size _ _ _ Hi')) Hok1) in Hfreed.
    apply wp_bind. eapply wp_unlink_block;
      [apply (si_first _ _ _ Hi')|apply (si_list _ _ _ Hi')|apply (si_nodup _ _ _ Hi')|exact Hb1|].
    intros m' Hm' Hd' Ho'. unfold free_block. apply wp_bind, wp_on_heap.
    eapply wp_mono; [apply free_spec; by apply (si_regions _ _ _ Hi')| |done].
    cbn [heap]. intros _ h Hr. apply wp_modify. cbn [slab memory heap]. exists (l1 ++ l2).
    assert (∀ q, q ∉ l0 → (q ∉ l1 ++ l2) ∧ q ≠ b) as Hq0.
    { intros q Hq. unfold l0 in Hq. rewrite elem_of_app, elem_of_cons in Hq. rewrite elem_of_app. tauto. }
    split; [by eapply slab_inv_remove|]. split; [split; [done|]|split].
    + intros q Hq. cbn. destruct (Hq0 q Hq) as [Hq1 Hqb].
      rewrite lookup_delete_ne, Hr, lookup_delete_ne by done. rewrite Ho' by done. by apply Hf1.
    + right. exists l1, b, l2. split; [done|]. split; [done|]. intros q Hq Hqb.
      destruct (si_live _ _ _ Hi' q Hq) as (c & Hc' & Hslotc).
      pose proof Hslotc as (blkc & Hblkc & Hqc & _).
      destruct (slot_unique _ _ _ q c c blkc Hi' Hc' Hc' Hslotc Hblkc) as [Hqr _].
      destruct (decide (c = b)) as [->|Hcb].
      * assert (blkc = blk1) as -> by congruence.
        assert (q ∈ live_in blk1 (live ∖ {[p]})) as Hin by (apply elem_of_filter; done).
        rewrite Hfreed in Hin. by apply not_elem_of_empty in Hin.
      * pose proof (si_apart _ _ _ Hi' c b Hc' Hb Hcb) as Hd. unfold disjoint_ranges in Hd. lia.
    + intros q Hq Hq'. cbn. rewrite Hr. assert (q = b) as ->; [|apply lookup_delete_eq].
      unfold l0 in Hq. set_solver.
  - apply wp_ret. exists l0. split; [done|]. split; [done|]. split; [by left|done].
Qed.
End slab.
