(* ===== verification/KernelHeap.v ===== *)
(** * [wasabi-kernel/src/mem/kernel_heap]: the kernel heap and the early heap

    [KernelHeap] with its slab allocators in front of a general allocator, the bump
    allocator of [early_heap.rs] and the global allocator that chooses between the
    two. The features [mem-stats] and [freeze-heap] are left out, and so are the
    locks around the allocators. *)

From S2P Require Import Prelude KernelMem SlabHeap.
Local Open Scope Z_scope.

(** ** [KernelHeap] *)

Record KernelHeap A := mkKernelHeap {
  kh_start : UntypedPtr;
  (** inclusive *)
  kh_end : UntypedPtr;
  slab_allocators : list SlabAllocator;
  kh_memory : BlockMemory;
  linked_heap : A;
}.
Arguments mkKernelHeap {A}. Arguments kh_start {A}. Arguments kh_end {A}.
Arguments slab_allocators {A}. Arguments kh_memory {A}. Arguments linked_heap {A}.

Section heap.
Context {A : Type} `{AlignUp, Allocator A}.

Local Abbreviation M := (M (KernelHeap A) MemError).

(** A call of the slab allocator with index [i] *)
Definition slab_view (sl : SlabAllocator) (s : KernelHeap A) : SlabState A :=
  mkSlabState sl (kh_memory s) (linked_heap s).
Definition with_slab {B} (i : nat) (m : Prelude.M (SlabState A) MemError B) : M B := λ s,
  match slab_allocators s !! i with
  | Some sl =>
      let '(r, s') := m (slab_view sl s) in
      (r, mkKernelHeap (kh_start s) (kh_end s) (<[i:=slab s']> (slab_allocators s))
            (memory s') (heap s'))
  | None => (Panic, s)
  end.

Definition on_linked_heap {B} (m : Prelude.M A MemError B) : M B := λ s,
  let '(r, h) := m (linked_heap s) in
  (r, mkKernelHeap (kh_start s) (kh_end s) (slab_allocators s) (kh_memory s) h).

(** [KernelHeap::new] for the pages from [start] on, and [KernelHeap::init] *)
Definition KernelHeap_new {E} (start sz : Z) (a : A) : result E (KernelHeap A) :=
  s4 ← SlabAllocator_new 4; s64 ← SlabAllocator_new 64; s256 ← SlabAllocator_new 256;
  mret (mkKernelHeap start (start + sz - 1) [s4; s64; s256] ∅ a).

Definition KernelHeap_init : M unit :=
  _ ← with_slab 0 SlabAllocator_init;
  _ ← with_slab 1 SlabAllocator_init;
  with_slab 2 SlabAllocator_init.

(** The first slab allocator whose pieces are large enough *)
Definition choose_slab (layout : Layout) (slabs : list SlabAllocator) : option nat :=
  position (λ sl, slab_size sl >=? l_size layout) slabs.

Definition KernelHeap_alloc (layout : Layout) : M UntypedPtr :=
  if l_size layout =? 0 then lift (Err ZeroSizeAllocation)
  else
    slabs ← gets slab_allocators;
    match choose_slab layout slabs with
    | Some i => with_slab i (SlabAllocator_alloc layout)
    | None => on_linked_heap (alloc layout)
    end.

Definition KernelHeap_free (ptr : UntypedPtr) (layout : Layout) : M unit :=
  s ← gets id;
  if (ptr <? kh_start s) || (ptr + l_size layout >? kh_end s)
  then lift (Err (PtrNotAllocated ptr))
  else
    match choose_slab layout (slab_allocators s) with
    | Some i => with_slab i (SlabAllocator_free ptr layout)
    | None => on_linked_heap (free ptr layout)
    end.
End heap.

(** ** The early heap *)

Definition EARLY_HEAP_SIZE : Z := 4096.

Record EarlyHeap := mkEarly {
  next_offset : Z;
  early_allocated : Z;
  early_freed : Z;
}.
Definition EarlyHeap_initial : EarlyHeap := mkEarly 0 0 0.

Section early.
Context `{AlignUp}.
(** The address of the static array, which is aligned to 4 KiB *)
Context (EARLY_HEAP : UntypedPtr).

Definition early_is_in_heap (ptr : UntypedPtr) : bool :=
  (EARLY_HEAP <=? ptr) && (ptr <=? EARLY_HEAP + (EARLY_HEAP_SIZE - 1)).

Definition early_alloc {E} (layout : Layout) : M EarlyHeap E UntypedPtr :=
  s ← gets id;
  let aligned_offset := align_up (next_offset s) (l_align layout) in
  last ← lift (sub_u64 (l_size layout) 1);
  _ ← lift (assert_ (aligned_offset + last <=? EARLY_HEAP_SIZE));
  _ ← put (mkEarly (aligned_offset + l_size layout) (early_allocated s + l_size layout) (early_freed s));
  mret (EARLY_HEAP + aligned_offset).

Definition early_free {E} (ptr : UntypedPtr) (layout : Layout) : M EarlyHeap E unit :=
  _ ← lift (assert_ (early_is_in_heap ptr));
  modify (λ s, mkEarly (next_offset s) (early_allocated s) (early_freed s + l_size layout)).

Definition early_used (s : EarlyHeap) : Z := next_offset s.
Definition early_unused {E} (s : EarlyHeap) : result E Z := sub_u64 EARLY_HEAP_SIZE (early_used s).
End early.

(** ** The global allocator *)

Section global.
Context {A : Type} `{AlignUp, Allocator A} (EARLY_HEAP : UntypedPtr).

(** [KERNEL_HEAP_INIT], both heaps, and the errors that were logged *)
Record GlobalHeap := mkGlobal {
  heap_init : bool;
  early : EarlyHeap;
  kernel : KernelHeap A;
  logged : list MemError;
}.

(** A null pointer is [None]. *)
Definition global_alloc (layout : Layout) : M GlobalHeap unit (option UntypedPtr) := λ s,
  if negb (heap_init s) then
    let '(r, e) := early_alloc EARLY_HEAP layout (early s) in
    (p ← r; mret (Some p), mkGlobal (heap_init s) e (kernel s) (logged s))
  else
    let '(r, k) := KernelHeap_alloc layout (kernel s) in
    match r with
    | Ok p => (Ok (Some p), mkGlobal (heap_init s) (early s) k (logged s))
    | Err e => (Ok None, mkGlobal (heap_init s) (early s) k (logged s ++ [e]))
    | Panic => (Panic, mkGlobal (heap_init s) (early s) k (logged s))
    | Hang => (Hang, mkGlobal (heap_init s) (early s) k (logged s))
    end.

(** A pointer into the early heap is freed there, and then in the kernel heap too. *)
Definition free_kernel (ptr : UntypedPtr) (layout : Layout) : M GlobalHeap unit unit := λ s,
  if ptr =? 0 then (Ok tt, s)
  else
    let '(r, k) := KernelHeap_free ptr layout (kernel s) in
    match r with
    | Ok _ => (Ok tt, mkGlobal (heap_init s) (early s) k (logged s))
    | Err e => (Ok tt, mkGlobal (heap_init s) (early s) k (logged s ++ [e]))
    | Panic => (Panic, mkGlobal (heap_init s) (early s) k (logged s))
    | Hang => (Hang, mkGlobal (heap_init s) (early s) k (logged s))
    end.

Definition free_early (ptr : UntypedPtr) (layout : Layout) : M GlobalHeap unit unit := λ s,
  let '(r, e) := early_free EARLY_HEAP ptr layout (early s) in
  (r, mkGlobal (heap_init s) e (kernel s) (logged s)).

Definition global_dealloc (ptr : UntypedPtr) (layout : Layout) : M GlobalHeap unit unit :=
  s ← gets id;
  if negb (heap_init s) then free_early ptr layout
  else
    _ ← (if early_is_in_heap EARLY_HEAP ptr then free_early ptr layout else mret tt);
    free_kernel ptr layout.
End global.
