(* ===== verification/KernelHeapProofs.v ===== *)
(** * Correctness of the kernel heap

    The slab allocators share the memory of the blocks and the allocator behind
    them. Each keeps its hands off the blocks of the others, so all allocations of
    the kernel heap, pieces of blocks and whole regions, lie apart. *)

From S2P Require Import Prelude KernelMem SlabHeap SlabProofs KernelHeap.
Local Open Scope Z_scope.

Lemma is_power_of_two_pow k : 0 ≤ k → is_power_of_two (2 ^ k) = true.
Proof.
  intros Hk. unfold is_power_of_two. assert (0 < 2 ^ k) by (apply Z.pow_pos_nonneg; lia).
  apply andb_true_intro. split; [by apply Z.ltb_lt|]. apply Z.eqb_eq.
  replace (2 ^ k - 1) with (Z.ones k) by (rewrite Z.ones_equiv; lia).
  rewrite Z.land_ones by done. apply Z.mod_same. lia.
Qed.

Lemma pow_divide j k : 0 ≤ j → 0 ≤ k → 2 ^ j ≤ 2 ^ k → (2 ^ j | 2 ^ k).
Proof.
  intros Hj Hk Hle. apply Z.pow_le_mono_r_iff in Hle; [|lia..].
  exists (2 ^ (k - j)). rewrite <- Z.pow_add_r by lia. f_equal. lia.
Qed.

(** What Rust guarantees of a [Layout] *)
Definition layout_wf (layout : Layout) : Prop := 0 ≤ l_size layout ∧ ∃ k, 0 ≤ k ∧ l_align layout = 2 ^ k.

Section heap.
Context {A : Type} `{AU : AlignUp} `{RA : RegionAllocator A}.

(** The blocks and the live pieces of each slab allocator *)
Abbreviation Ghost := (list (list UntypedPtr * gset UntypedPtr)).

Definition is_block (g : Ghost) (b : UntypedPtr) : Prop :=
  ∃ i l live, g !! i = Some (l, live) ∧ b ∈ l.

Record heap_inv (g : Ghost) (s : KernelHeap A) : Prop := {
  hv_sizes : slab_size <$> slab_allocators s = SLAB_ALLOCATOR_SIZES_BYTES;
  hv_len : length g = length (slab_allocators s);
  hv_slabs i sl l live : slab_allocators s !! i = Some sl → g !! i = Some (l, live) →
    slab_inv l live (slab_view sl s);
  hv_apart i j l live l' live' b : g !! i = Some (l, live) → g !! j = Some (l', live') →
    b ∈ l → b ∈ l' → i = j;
}.

(** The allocations: [q] with [m] bytes *)
Definition piece_of (g : Ghost) (slabs : list SlabAllocator) (q m : Z) : Prop :=
  ∃ i sl l live, slabs !! i = Some sl ∧ g !! i = Some (l, live) ∧ q ∈ live ∧ m = slab_size sl.
Definition allocated (g : Ghost) (s : KernelHeap A) (q m : Z) : Prop :=
  piece_of g (slab_allocators s) q m ∨ (regions (linked_heap s) !! q = Some m ∧ ¬ is_block g q).

(** A piece lies in a block of its slab allocator. *)
Lemma piece_in_block g s i sl l live p :
  heap_inv g s → slab_allocators s !! i = Some sl → g !! i = Some (l, live) → p ∈ live →
  ∃ b, b ∈ l ∧ regions (linked_heap s) !! b = Some SLAB_BLOCK_SIZE ∧
    b ≤ p ∧ p + slab_size sl ≤ b + SLAB_BLOCK_SIZE ∧ 0 < slab_size sl ∧ p mod slab_size sl = 0.
Proof.
  intros Hi Hsl Hg Hp. pose proof (hv_slabs _ _ Hi _ _ _ _ Hsl Hg) as Hs.
  destruct (si_live _ _ _ Hs p Hp) as (b & Hb & blk & Hblk & Hpr & Hpm).
  pose proof (si_blocks _ _ _ Hs _ _ Hb Hblk) as Hok. pose proof (block_bounds _ _ _ _ Hok) as Hbb.
  destruct Hok as [[Hst _] _ _ Hslots _]. destruct (si_size _ _ _ Hs) as [Hsz _].
  cbn [slab_view slab] in *. exists b. split; [done|].
  split; [by apply (si_regions _ _ _ Hs)|]. unfold SLAB_HEADER_SIZE in *. split; [lia|].
  split; [|done]. apply Z.mod_divide in Hpm as [x Hx], Hst as [y Hy], Hslots as [z Hz]; [|lia..].
  assert (x + 1 ≤ y + z) by nia. nia.
Qed.

(** Pieces of two slab allocators lie apart, *)
Lemma pieces_apart g s i j sl l live sl' l' live' p q :
  heap_inv g s → i ≠ j →
  slab_allocators s !! i = Some sl → g !! i = Some (l, live) → p ∈ live →
  slab_allocators s !! j = Some sl' → g !! j = Some (l', live') → q ∈ live' →
  disjoint_ranges p (slab_size sl) q (slab_size sl').
Proof.
  intros Hi Hij Hsl Hg Hp Hsl' Hg' Hq.
  destruct (piece_in_block _ _ _ _ _ _ _ Hi Hsl Hg Hp) as (b & Hb & Hrb & H1 & H2 & _).
  destruct (piece_in_block _ _ _ _ _ _ _ Hi Hsl' Hg' Hq) as (c & Hc & Hrc & H3 & H4 & _).
  assert (b ≠ c) as Hbc by (intros ->; apply Hij; by eapply (hv_apart _ _ Hi)).
  pose proof (regions_apart _ _ _ _ _ Hrb Hrc Hbc). unfold disjoint_ranges in *. lia.
Qed.

(** and so do a piece and a region that is not a block. *)
Lemma piece_region_apart g s i sl l live p q m :
  heap_inv g s → slab_allocators s !! i = Some sl → g !! i = Some (l, live) → p ∈ live →
  regions (linked_heap s) !! q = Some m → ¬ is_block g q → disjoint_ranges p (slab_size sl) q m.
Proof.
  intros Hi Hsl Hg Hp Hq Hnb.
  destruct (piece_in_block _ _ _ _ _ _ _ Hi Hsl Hg Hp) as (b & Hb & Hrb & H1 & H2 & _).
  assert (b ≠ q) as Hbq by (intros ->; apply Hnb; by exists i, l, live).
  pose proof (regions_apart _ _ _ _ _ Hrb Hq Hbq). unfold disjoint_ranges in *. lia.
Qed.

(** One slab allocator made a step and touched only its own blocks and new ones. *)
Record slab_step (l l' : list UntypedPtr) (live' : gset UntypedPtr) (s s' : SlabState A) : Prop := {
  st_inv : slab_inv l' live' s';
  st_blocks : ∃ L, frame L s s' ∧ l ⊆ L ∧ l' ⊆ L ∧
    (∀ b, b ∈ L → b ∈ l ∨ regions (heap s) !! b = None) ∧
    (∀ b, b ∈ L → b ∉ l' → regions (heap s') !! b = None);
}.

Lemma slab_inv_ext l live sl m h m' h' :
  slab_inv l live (mkSlabState sl m h) →
  (∀ b, b ∈ l → m' !! b = m !! b ∧ regions h' !! b = regions (A:=A) h !! b) →
  slab_inv l live (mkSlabState sl m' h').
Proof.
  intros [] Hext. cbn in *. split; cbn; try done.
  - eapply dseg_ext; [|done]. intros b Hb. by rewrite (proj1 (Hext b Hb)).
  - intros b blk Hb. rewrite (proj1 (Hext b Hb)). by apply si_blocks.
  - intros p Hp. destruct (si_live p Hp) as (b & Hb & blk & Hblk & Hr). exists b. split; [done|].
    exists blk. by rewrite (proj1 (Hext b Hb)).
  - intros b Hb. rewrite (proj2 (Hext b Hb)). by apply si_regions.
Qed.

(** The heap after the slab allocator [i] went to [s'] *)
Definition heap_with (i : nat) (s' : SlabState A) (s : KernelHeap A) : KernelHeap A :=
  mkKernelHeap (kh_start s) (kh_end s) (<[i:=slab s']> (slab_allocators s)) (memory s') (SlabHeap.heap s').

Lemma heap_inv_step g s i sl l live l' live' s' :
  heap_inv g s → slab_allocators s !! i = Some sl → g !! i = Some (l, live) →
  slab_step l l' live' (slab_view sl s) s' → heap_inv (<[i:=(l', live')]> g) (heap_with i s' s).
Proof.
  intros Hi Hsl Hg [Hinv (L & [Hsize Hframe] & Hl & Hl' & Hold & _)].
  assert (i < length g)%nat as Hlt by by eapply lookup_lt_Some.
  assert (∀ j lj livej b, j ≠ i → g !! j = Some (lj, livej) → b ∈ lj → b ∉ L) as Hout.
  { intros j lj livej b Hji Hgj Hb HbL. destruct (Hold b HbL) as [Hbl|Hnone].
    - apply Hji. by eapply (hv_apart _ _ Hi).
    - destruct (lookup_lt_is_Some_2 (slab_allocators s) j) as [slj Hslj].
      { rewrite <- (hv_len _ _ Hi). by eapply lookup_lt_Some. }
      pose proof (si_regions _ _ _ (hv_slabs _ _ Hi _ _ _ _ Hslj Hgj) b Hb) as Hr.
      cbn in *. congruence. }
  split; cbn [heap_with slab_allocators kh_memory linked_heap].
  - rewrite <- (hv_sizes _ _ Hi), list_fmap_insert, Hsize. apply list_insert_id.
    by rewrite list_lookup_fmap, Hsl.
  - rewrite !length_insert. apply (hv_len _ _ Hi).
  - intros j slj lj livej Hslj Hgj. destruct (decide (j = i)) as [->|Hji].
    + rewrite list_lookup_insert_eq in Hslj by (rewrite <- (hv_len _ _ Hi); done).
      rewrite list_lookup_insert_eq in Hgj by done. simplify_eq. by destruct s'.
    + rewrite list_lookup_insert_ne in Hslj by done. rewrite list_lookup_insert_ne in Hgj by done.
      eapply slab_inv_ext; [by eapply (hv_slabs _ _ Hi)|]. intros b Hb.
      apply (Hframe b). by eapply Hout.
  - intros j k lj livej lk livek b Hgj Hgk Hbj Hbk.
    destruct (decide (j = i)) as [->|Hji], (decide (k = i)) as [->|Hki]; [done| | |].
    + rewrite list_lookup_insert_eq in Hgj by done. rewrite list_lookup_insert_ne in Hgk by done.
      simplify_eq. exfalso. by apply (Hout k lk livek b Hki Hgk Hbk), Hl'.
    + rewrite list_lookup_insert_eq in Hgk by done. rewrite list_lookup_insert_ne in Hgj by done.
      simplify_eq. exfalso. by apply (Hout j lj livej b Hji Hgj Hbj), Hl'.
    + rewrite list_lookup_insert_ne in Hgj by done. rewrite list_lookup_insert_ne in Hgk by done. by eapply (hv_apart _ _ Hi).
Qed.

(** A step keeps the regions that are not blocks. *)
Lemma region_step g s i sl l live l' live' s' q m :
  heap_inv g s → slab_allocators s !! i = Some sl → g !! i = Some (l, live) →
  slab_step l l' live' (slab_view sl s) s' →
  (regions (linked_heap (heap_with i s' s)) !! q = Some m ∧ ¬ is_block (<[i:=(l', live')]> g) q) ↔
  (regions (linked_heap s) !! q = Some m ∧ ¬ is_block g q).
Proof.
  intros Hi Hsl Hg [Hinv (L & [Hsize Hframe] & Hl & Hl' & Hold & Hgone)].
  assert (i < length g)%nat as Hlt by by eapply lookup_lt_Some.
  cbn [heap_with linked_heap].
  assert (is_block (<[i:=(l', live')]> g) q ↔ q ∈ l' ∨ ∃ j lj livej, j ≠ i ∧ g !! j = Some (lj, livej) ∧ q ∈ lj)
    as Hblock'.
  { unfold is_block. split.
    - intros (j & lj & livej & Hgj & Hq). destruct (decide (j = i)) as [->|Hji].
      + rewrite list_lookup_insert_eq in Hgj by done. simplify_eq. by left.
      + rewrite list_lookup_insert_ne in Hgj by done. right. by exists j, lj, livej.
    - intros [Hq|(j & lj & livej & Hji & Hgj & Hq)].
      + exists i, l', live'. by rewrite list_lookup_insert_eq.
      + exists j, lj, livej. by rewrite list_lookup_insert_ne. }
  assert (is_block g q ↔ q ∈ l ∨ ∃ j lj livej, j ≠ i ∧ g !! j = Some (lj, livej) ∧ q ∈ lj) as Hblock.
  { unfold is_block. split.
    - intros (j & lj & livej & Hgj & Hq). destruct (decide (j = i)) as [->|Hji]; [simplify_eq; by left|].
      right. by exists j, lj, livej.
    - intros [Hq|(j & lj & livej & Hji & Hgj & Hq)]; [by exists i, l, live|by exists j, lj, livej]. }
  rewrite Hblock', Hblock. destruct (decide (q ∈ L)) as [HqL|HqL].
  - split.
    + intros [Hr Hnb]. exfalso. rewrite (Hgone q HqL) in Hr; [done|tauto].
    + intros [Hr Hnb]. exfalso. destruct (Hold q HqL) as [Hql|Hnone]; [tauto|].
      cbn in Hnone. congruence.
  - rewrite (proj2 (Hframe q HqL)). cbn. assert (q ∉ l') by (intros Hq; by apply HqL, Hl').
    assert (q ∉ l) by (intros Hq; by apply HqL, Hl). tauto.
Qed.

(** The allocations after such a step: only the pieces of the one slab allocator
    are others than before. *)
Lemma allocated_step g s i sl l live l' live' s' q m :
  heap_inv g s → slab_allocators s !! i = Some sl → g !! i = Some (l, live) →
  slab_step l l' live' (slab_view sl s) s' →
  allocated (<[i:=(l', live')]> g) (heap_with i s' s) q m ↔
    (q ∈ live' ∧ m = slab_size sl) ∨
    (∃ j slj lj livej, j ≠ i ∧ slab_allocators s !! j = Some slj ∧ g !! j = Some (lj, livej) ∧
       q ∈ livej ∧ m = slab_size slj) ∨
    (regions (linked_heap s) !! q = Some m ∧ ¬ is_block g q).
Proof.
  intros Hi Hsl Hg Hstep. unfold allocated. rewrite (region_step _ _ _ _ _ _ _ _ _ q m Hi Hsl Hg Hstep).
  destruct Hstep as [_ (_ & [Hsize _] & _)]. cbn in Hsize.
  assert (i < length g)%nat as Hlt by by eapply lookup_lt_Some.
  assert (i < length (slab_allocators s))%nat as Hlt' by by eapply lookup_lt_Some.
  cbn [heap_with slab_allocators]. unfold piece_of. split.
  - intros [(j & slj & lj & livej & Hslj & Hgj & Hq & ->)|Hr]; [|by right; right].
    destruct (decide (j = i)) as [->|Hji].
    + rewrite list_lookup_insert_eq in Hslj by done. rewrite list_lookup_insert_eq in Hgj by done.
      simplify_eq. left. by rewrite Hsize.
    + rewrite list_lookup_insert_ne in Hslj by done. rewrite list_lookup_insert_ne in Hgj by done.
      right. left. by exists j, slj, lj, livej.
  - intros [[Hq ->]|[(j & slj & lj & livej & Hji & Hslj & Hgj & Hq & ->)|Hr]]; [left|left|by right].
    + exists i, (slab s'), l', live'. rewrite !list_lookup_insert_eq by done. by rewrite Hsize.
    + exists j, slj, lj, livej. by rewrite !list_lookup_insert_ne by done.
Qed.

Lemma wp_with_slab {B} i sl (m : M (SlabState A) MemError B)
    (err : MemError → KernelHeap A → Prop) (post : B → KernelHeap A → Prop) s :
  slab_allocators s !! i = Some sl →
  wp m (λ e s', err e (heap_with i s' s)) (λ b s', post b (heap_with i s' s)) (slab_view sl s) →
  wp (with_slab i m) err post s.
Proof.
  intros Hsl. unfold wp, with_slab. rewrite Hsl. by destruct (m (slab_view sl s)) as [[| | |] ?].
Qed.

Lemma allocated_split g s i sl l live q m :
  heap_inv g s → slab_allocators s !! i = Some sl → g !! i = Some (l, live) →
  allocated g s q m ↔
    (q ∈ live ∧ m = slab_size sl) ∨
    (∃ j slj lj livej, j ≠ i ∧ slab_allocators s !! j = Some slj ∧ g !! j = Some (lj, livej) ∧
       q ∈ livej ∧ m = slab_size slj) ∨
    (regions (linked_heap s) !! q = Some m ∧ ¬ is_block g q).
Proof.
  intros Hi Hsl Hg. rewrite <- (allocated_step g s i sl l live l live (slab_view sl s) q m Hi Hsl Hg).
  - unfold heap_with. cbn. rewrite !list_insert_id by done. by destruct s.
  - split; [by eapply (hv_slabs _ _ Hi)|]. exists l. split; [apply frame_refl|].
    split; [done|]. split; [done|]. split; [by left|done].
Qed.

(** The slab allocator that is chosen for a layout *)
Lemma choose_slab_Some layout slabs i :
  choose_slab layout slabs = Some i → ∃ sl, slabs !! i = Some sl ∧ l_size layout ≤ slab_size sl.
Proof.
  unfold choose_slab. intros (sl & Hsl & Ht & _)%position_Some. exists sl. split; [done|].
  destruct (Z.geb_spec (slab_size sl) (l_size layout)); [lia|done].
Qed.

Lemma slab_size_pow g s i sl :
  heap_inv g s → slab_allocators s !! i = Some sl → ∃ k, 0 ≤ k ∧ slab_size sl = 2 ^ k.
Proof.
  intros Hi Hsl. pose proof (hv_sizes _ _ Hi) as Hsizes.
  assert ((slab_size <$> slab_allocators s) !! i = Some (slab_size sl)) as Hz by by rewrite list_lookup_fmap, Hsl.
  rewrite Hsizes in Hz. destruct i as [|[|[|]]]; [| | |done]; injection Hz as <-; [by exists 2|by exists 6|by exists 8].
Qed.

Lemma ghost_lookup g s i sl :
  heap_inv g s → slab_allocators s !! i = Some sl → ∃ l live, g !! i = Some (l, live).
Proof.
  intros Hi Hsl. destruct (lookup_lt_is_Some_2 g i) as [[l live] Hg]; [|by exists l, live].
  rewrite (hv_len _ _ Hi). by eapply lookup_lt_Some.
Qed.

(** Allocating in a slab allocator, whatever the alignment *)
Lemma wp_slab_alloc_any l live s layout :
  slab_inv l live s → layout_wf layout → l_size layout ≤ slab_size (slab s) →
  wp (SlabAllocator_alloc layout)
    (λ _ s', ∃ l', slab_step l l' live s s')
    (λ p s', ∃ l', slab_step l l' ({[p]} ∪ live) s s' ∧ (p ∉ live) ∧ p mod slab_size (slab s) = 0 ∧
       l_align layout ≤ slab_size (slab s)) s.
Proof.
  intros Hi [Hsz (k & Hk & Hal)] Hle. destruct (decide (l_align layout ≤ slab_size (slab s))) as [Hok|Hno].
  - eapply wp_mono; [apply (wp_slab_alloc l live s layout Hi)| |].
    + split; [done|]. split; [rewrite Hal; by apply is_power_of_two_pow|done].
    + intros p s' (l' & b & Hi' & [Hsub Hnew] & Hf & (Hfresh & Hmod & _) & _). exists l'.
      split; [|done]. split; [done|]. exists l'. split; [done|]. split; [done|]. split; [done|].
      split; [done|]. by intros c Hc Hnc.
    + intros e s' (l' & Hi' & [Hsub Hnew] & Hf). exists l'. split; [done|]. exists l'.
      split; [done|]. split; [done|]. split; [done|]. split; [done|]. by intros c Hc Hnc.
  - unfold SlabAllocator_alloc, check_layout. apply wp_bind, wp_bind, wp_gets.
    destruct (Z.gtb_spec (l_size layout) (slab_size (slab s))); [lia|]. apply wp_bind.
    unfold can_accept_align. eapply wp_lift; [by rewrite Hal, is_power_of_two_pow|].
    rewrite <- Hal. destruct (Z.leb_spec (l_align layout) (slab_size (slab s))); [lia|].
    unfold wp, lift. exists l. split; [done|]. exists l. split; [apply frame_refl|].
    split; [done|]. split; [done|]. split; [by left|done].
Qed.

(** The piece that a slab allocator added is a new allocation. *)
Lemma allocated_new_piece g s i sl l live l' s' p :
  heap_inv g s → slab_allocators s !! i = Some sl → g !! i = Some (l, live) →
  slab_step l l' ({[p]} ∪ live) (slab_view sl s) s' → p ∉ live →
  let g' := <[i:=(l', {[p]} ∪ live)]> g in
  (∀ q m, allocated g s q m → disjoint_ranges p (slab_size sl) q m) ∧
  (∀ q m, allocated g' (heap_with i s' s) q m ↔ allocated g s q m ∨ q = p ∧ m = slab_size sl).
Proof.
  intros Hi Hsl Hg Hstep Hp g'. pose proof (heap_inv_step _ _ _ _ _ _ _ _ _ Hi Hsl Hg Hstep) as Hi'.
  assert (i < length (slab_allocators s))%nat as Hlt by by eapply lookup_lt_Some.
  assert (i < length g)%nat as Hlt' by by eapply lookup_lt_Some.
  pose proof (st_blocks _ _ _ _ _ Hstep) as (L & [Hsz _] & _). cbn in Hsz.
  assert (slab_allocators (heap_with i s' s) !! i = Some (slab s')) as Hsl'
    by by apply list_lookup_insert_eq.
  assert (g' !! i = Some (l', {[p]} ∪ live)) as Hg' by by apply list_lookup_insert_eq.
  assert (p ∈ {[p]} ∪ live) as Hpin by set_solver.
  split.
  - intros q m Hq. rewrite <- Hsz. rewrite (allocated_split _ _ _ _ _ _ q m Hi Hsl Hg) in Hq.
    destruct Hq as [[Hq ->]|[(j & slj & lj & livej & Hji & Hslj & Hgj & Hq & ->)|Hq]].
    + destruct (piece_in_block _ _ _ _ _ _ _ Hi' Hsl' Hg' Hpin) as (_ & _ & _ & _ & _ & Hpos & Hpm).
      assert (q ∈ {[p]} ∪ live) as Hqin by set_solver.
      destruct (piece_in_block _ _ _ _ _ _ _ Hi' Hsl' Hg' Hqin) as (_ & _ & _ & _ & _ & _ & Hqm).
      rewrite <- Hsz. apply slots_disjoint; [done..|]. by intros ->.
    + eapply (pieces_apart g' _ i j); [exact Hi'|done|done|done|done| | |exact Hq].
      * cbn. by rewrite list_lookup_insert_ne.
      * unfold g'. by rewrite list_lookup_insert_ne.
    + apply (region_step _ _ _ _ _ _ _ _ _ q m Hi Hsl Hg Hstep) in Hq as [Hq Hnb].
      by eapply (piece_region_apart g' _ i).
  - intros q m. unfold g'. rewrite (allocated_step _ _ _ _ _ _ _ _ _ q m Hi Hsl Hg Hstep).
    rewrite (allocated_split _ _ _ _ _ _ q m Hi Hsl Hg), elem_of_union, elem_of_singleton. naive_solver.
Qed.

(** The general allocator took or gave back a region that is not a block. *)
Definition heap_on (h : A) (s : KernelHeap A) : KernelHeap A :=
  mkKernelHeap (kh_start s) (kh_end s) (slab_allocators s) (kh_memory s) h.

Lemma wp_on_linked_heap {B} (m : M A MemError B) (err : MemError → KernelHeap A → Prop)
    (post : B → KernelHeap A → Prop) s :
  wp m (λ e h, err e (heap_on h s)) (λ b h, post b (heap_on h s)) (linked_heap s) →
  wp (on_linked_heap m) err post s.
Proof. unfold wp, on_linked_heap, heap_on. by destruct (m (linked_heap s)) as [[| | |] ?]. Qed.

Lemma heap_inv_linked g s h :
  heap_inv g s → (∀ b, is_block g b → regions h !! b = regions (linked_heap s) !! b) →
  heap_inv g (heap_on h s).
Proof.
  intros Hi Hblocks. pose proof Hi as []. split; [done|done| |done].
  intros i sl l live Hsl Hg. eapply slab_inv_ext; [by eapply (hv_slabs _ _ Hi)|].
  intros b Hb. split; [done|]. apply Hblocks. by exists i, l, live.
Qed.

Lemma block_region g s b : heap_inv g s → is_block g b → regions (linked_heap s) !! b = Some SLAB_BLOCK_SIZE.
Proof.
  intros Hi (i & l & live & Hg & Hb).
  destruct (lookup_lt_is_Some_2 (slab_allocators s) i) as [sl Hsl].
  { rewrite <- (hv_len _ _ Hi). by eapply lookup_lt_Some. }
  by apply (si_regions _ _ _ (hv_slabs _ _ Hi _ _ _ _ Hsl Hg)).
Qed.

(** What [alloc] promises: the allocation at [p], of at least the size that was
    asked for, lies apart from those there were, and they stay. *)
Definition allocates (layout : Layout) (g : Ghost) (s : KernelHeap A) (p : UntypedPtr)
    (s' : KernelHeap A) : Prop :=
  p mod l_align layout = 0 ∧ ∃ g' n, heap_inv g' s' ∧ l_size layout ≤ n ∧
    (∀ q m, allocated g s q m → disjoint_ranges p n q m) ∧
    (∀ q m, allocated g' s' q m ↔ allocated g s q m ∨ q = p ∧ m = n).

Definition keeps (g : Ghost) (s s' : KernelHeap A) : Prop :=
  ∃ g', heap_inv g' s' ∧ ∀ q m, allocated g' s' q m ↔ allocated g s q m.

Lemma wp_alloc_slab g s i sl layout :
  heap_inv g s → layout_wf layout → slab_allocators s !! i = Some sl → l_size layout ≤ slab_size sl →
  wp (with_slab i (SlabAllocator_alloc layout)) (λ _, keeps g s) (allocates layout g s) s.
Proof.
  intros Hi Hwf Hsl Hle. destruct (ghost_lookup _ _ _ _ Hi Hsl) as (l & live & Hg).
  pose proof (hv_slabs _ _ Hi _ _ _ _ Hsl Hg) as Hs. eapply wp_with_slab; [exact Hsl|].
  eapply wp_mono; [by apply (wp_slab_alloc_any l live (slab_view sl s))| |].
  - intros p s' (l' & Hstep & Hp & Hmod & Hal). cbn in Hmod, Hal. split.
    + destruct Hwf as [_ (k & Hk & Hal')]. destruct (slab_size_pow _ _ _ _ Hi Hsl) as (j & Hj & Hsize).
      rewrite Hal', Hsize in *. apply Z.mod_divide in Hmod; [|lia]. apply Z.mod_divide; [lia|].
      etrans; [by apply pow_divide|done].
    + destruct (allocated_new_piece _ _ _ _ _ _ _ _ _ Hi Hsl Hg Hstep Hp) as [Hd Hall].
      exists (<[i:=(l', {[p]} ∪ live)]> g), (slab_size sl). split; [by eapply heap_inv_step|]. done.
  - intros e s' (l' & Hstep). exists (<[i:=(l', live)]> g). split; [by eapply heap_inv_step|].
    intros q m. rewrite (allocated_step _ _ _ _ _ _ _ _ _ q m Hi Hsl Hg Hstep).
    by rewrite (allocated_split _ _ _ _ _ _ q m Hi Hsl Hg).
Qed.

Lemma wp_alloc_linked g s layout :
  heap_inv g s → 0 < l_size layout →
  wp (on_linked_heap (alloc layout)) (λ _, keeps g s) (allocates layout g s) s.
Proof.
  intros Hi Hpos. apply wp_on_linked_heap. eapply wp_mono; [by apply alloc_spec| |].
  - intros p h (_ & Hmod & Hnone & Hapart & Hr). split; [done|]. exists g, (l_size layout).
    assert (∀ b, is_block g b → b ≠ p) as Hbp.
    { intros b Hb ->. rewrite (block_region _ _ _ Hi Hb) in Hnone. done. }
    split; [|split; [done|split]].
    + apply heap_inv_linked; [done|]. intros b Hb. rewrite Hr, lookup_insert_ne; [done|].
      intros ->. by apply (Hbp b).
    + intros q m [(i & sl & l & live & Hsl & Hg & Hq & ->)|[Hq _]]; [|by apply Hapart].
      destruct (piece_in_block _ _ _ _ _ _ _ Hi Hsl Hg Hq) as (b & Hb & Hrb & H1 & H2 & _).
      specialize (Hapart b _ Hrb). unfold disjoint_ranges in *. lia.
    + intros q m. unfold allocated. cbn. rewrite Hr. destruct (decide (q = p)) as [->|Hne].
      * rewrite lookup_insert_eq, Hnone. split.
        -- intros [Hq|[[= <-] _]]; [by left; left|by right].
        -- intros [[Hq|[[=] _]]|[_ ->]]; [by left|right]. split; [done|]. intros Hb. by apply (Hbp p).
      * rewrite lookup_insert_ne by done. naive_solver.
  - intros e h Hr. exists g. split; [apply heap_inv_linked; [done|by rewrite Hr]|].
    intros q m. unfold allocated. cbn. by rewrite Hr.
Qed.

(** C8: [alloc] of the kernel heap, for a layout of at least one byte. The memory it
    returns is aligned as asked for, at least as large, and apart from every
    allocation that is live, in whichever slab allocator or region that is; no
    other allocation changes, and none at all when it reports an error. *)
Theorem KernelHeap_alloc_spec (g : Ghost) (s : KernelHeap A) (layout : Layout) :
  heap_inv g s → layout_wf layout → 0 < l_size layout →
  wp (KernelHeap_alloc layout) (λ _, keeps g s) (allocates layout g s) s.
Proof.
  intros Hi Hwf Hpos. unfold KernelHeap_alloc.
  destruct (Z.eqb_spec (l_size layout) 0); [lia|]. apply wp_bind, wp_gets.
  destruct (choose_slab layout (slab_allocators s)) as [i|] eqn:Hc.
  - apply choose_slab_Some in Hc as (sl & Hsl & Hle). by eapply wp_alloc_slab.
  - by apply wp_alloc_linked.
Qed.

(** [p] was allocated with this layout: it is a piece of the slab allocator that is
    chosen for it, or a region. *)
Definition allocated_as (g : Ghost) (s : KernelHeap A) (p : UntypedPtr) (layout : Layout) : Prop :=
  match choose_slab layout (slab_allocators s) with
  | Some i => ∃ l live, g !! i = Some (l, live) ∧ p ∈ live ∧
      ∃ sl, slab_allocators s !! i = Some sl ∧ l_align layout ≤ slab_size sl
  | None => regions (linked_heap s) !! p = Some (l_size layout) ∧ ¬ is_block g p
  end.

Lemma wp_free_slab g s i sl l live p layout err :
  heap_inv g s → layout_wf layout → slab_allocators s !! i = Some sl → l_size layout ≤ slab_size sl →
  g !! i = Some (l, live) → p ∈ live → l_align layout ≤ slab_size sl →
  wp (with_slab i (SlabAllocator_free p layout)) err
    (λ _ s', ∃ g', heap_inv g' s' ∧ ∀ q m, allocated g' s' q m ↔ allocated g s q m ∧ q ≠ p) s.
Proof.
  intros Hi [Hsz (k & Hk & Hal)] Hsl Hle Hg Hp Hal'. pose proof (hv_slabs _ _ Hi _ _ _ _ Hsl Hg) as Hs.
  eapply wp_with_slab; [exact Hsl|].
  eapply wp_mono; [eapply (wp_slab_free l live (slab_view sl s) p layout (λ _ _, False) Hs)| |done].
  - split; [done|]. split; [rewrite Hal; by apply is_power_of_two_pow|done].
  - done.
  - intros _ s' (l' & Hi' & Hframe & Hrel & Hgone).
    assert (l' ⊆ l) as Hsub.
    { destruct Hrel as [->|(l1 & b & l2 & -> & -> & _)]; [done|]. set_solver. }
    assert (slab_step l l' (live ∖ {[p]}) (slab_view sl s) s') as Hstep.
    { split; [done|]. exists l. split; [done|]. split; [done|]. split; [done|]. split; [by left|done]. }
    exists (<[i:=(l', live ∖ {[p]})]> g). split; [by eapply heap_inv_step|]. intros q m.
    rewrite (allocated_step _ _ _ _ _ _ _ _ _ q m Hi Hsl Hg Hstep).
    rewrite (allocated_split _ _ _ _ _ _ q m Hi Hsl Hg), elem_of_difference, elem_of_singleton.
    split.
    + intros [Hq|Hq]; [tauto|]. split; [tauto|]. intros ->. destruct Hq as [Hq|Hq].
      * destruct Hq as (j & slj & lj & livej & Hji & Hslj & Hgj & Hq & ->).
        pose proof (pieces_apart _ _ i j _ _ _ _ _ _ _ _ Hi (not_eq_sym Hji) Hsl Hg Hp Hslj Hgj Hq) as Hd.
        destruct (piece_in_block _ _ _ _ _ _ _ Hi Hsl Hg Hp) as (_ & _ & _ & _ & _ & Hpos & _).
        destruct (piece_in_block _ _ _ _ _ _ _ Hi Hslj Hgj Hq) as (_ & _ & _ & _ & _ & Hpos' & _).
        unfold disjoint_ranges in Hd. lia.
      * pose proof (piece_region_apart _ _ _ _ _ _ _ _ _ Hi Hsl Hg Hp (proj1 Hq) (proj2 Hq)) as Hd.
        destruct (piece_in_block _ _ _ _ _ _ _ Hi Hsl Hg Hp) as (_ & _ & _ & _ & _ & Hpos & _).
        pose proof (regions_pos _ _ _ (proj1 Hq)). unfold disjoint_ranges in Hd. lia.
    + tauto.
Qed.

(** C16: [free] of an allocation with the layout it was allocated with. When the
    memory ends before the last byte of the heap it never fails and ends exactly
    this allocation. The memory at the very end of the heap cannot be given back:
    the comparison with the inclusive end takes it for foreign memory. *)
Theorem KernelHeap_free_spec (g : Ghost) (s : KernelHeap A) (p : UntypedPtr) (layout : Layout) :
  heap_inv g s → layout_wf layout → allocated_as g s p layout → kh_start s ≤ p →
  (p + l_size layout ≤ kh_end s →
     wp (KernelHeap_free p layout) (λ _ _, False)
       (λ _ s', ∃ g', heap_inv g' s' ∧ ∀ q m, allocated g' s' q m ↔ allocated g s q m ∧ q ≠ p) s) ∧
  (p + l_size layout = kh_end s + 1 → KernelHeap_free p layout s = (Err (PtrNotAllocated p), s)).
Proof.
  intros Hi Hwf Has Hstart. unfold KernelHeap_free. split; intros Hend.
  2: { rewrite run_bind. cbn. destruct (Z.ltb_spec p (kh_start s)); [lia|].
       by destruct (Z.gtb_spec (p + l_size layout) (kh_end s)); [|lia]. }
  apply wp_bind, wp_gets. unfold id. destruct (Z.ltb_spec p (kh_start s)); [lia|].
  destruct (Z.gtb_spec (p + l_size layout) (kh_end s)); [lia|]. cbn [orb]. unfold allocated_as in Has.
  destruct (choose_slab layout (slab_allocators s)) as [i|] eqn:Hc.
  - apply choose_slab_Some in Hc as (sl & Hsl & Hle).
    destruct Has as (l & live & Hg & Hp & sl' & Hsl' & Hal). simplify_eq. by eapply wp_free_slab.
  - destruct Has as [Hr Hnb]. apply wp_on_linked_heap. eapply wp_mono; [by apply free_spec| |done].
    intros [] h Hh. assert (∀ b, is_block g b → b ≠ p) as Hbp by (intros b Hb Hbp'; subst b; done).
    exists g. split.
    + apply heap_inv_linked; [done|]. intros b Hb. rewrite Hh, lookup_delete_ne; [done|].
      intros Hpb. by apply (Hbp b).
    + intros q m. unfold allocated. cbn. rewrite Hh. destruct (decide (q = p)) as [Hqp|Hne].
      * rewrite Hqp, lookup_delete_eq. split; [|naive_solver]. intros [Hq|[[=] _]].
        destruct Hq as (i & sl & l & live & Hsl & Hg & Hq & Hm). exfalso.
        destruct (piece_in_block _ _ _ _ _ _ _ Hi Hsl Hg Hq) as (b & Hb & Hrb & Hb1 & Hb2 & Hpos & _).
        assert (b ≠ p) as Hbp2 by (apply Hbp; by exists i, l, live).
        pose proof (regions_apart _ _ _ _ _ Hrb Hr Hbp2) as Hd. pose proof (regions_pos _ _ _ Hr).
        unfold disjoint_ranges in Hd. lia.
      * rewrite lookup_delete_ne by done. naive_solver.
Qed.

(** *** Initialisation *)

(** On an empty slab allocator, [init] does what [push_new_block] does. *)
Lemma wp_slab_init (err : MemError → SlabState A → Prop) (post : unit → SlabState A → Prop) s :
  slab_block (slab s) = None →
  wp push_new_block err (λ _, post tt) s → wp SlabAllocator_init err post s.
Proof.
  intros Hn. unfold wp, push_new_block, SlabAllocator_init, SlabBlock_new.
  rewrite !run_bind. cbn [gets]. rewrite !run_bind. unfold on_heap.
  destruct (alloc SlabBlock_layout (heap s)) as [[b|e| |] h]; [|done..].
  unfold deref, store, set_block. rewrite !run_bind. cbn. rewrite !run_bind. cbn.
  rewrite lookup_insert_eq, Hn. cbn. rewrite !run_bind. cbn. by rewrite insert_insert_eq.
Qed.

Definition fresh_slab (g : Ghost) (s : KernelHeap A) (i : nat) : Prop :=
  g !! i = Some ([], ∅) ∧ slab_block <$> slab_allocators s !! i = Some None.

(** Initialising one slab allocator touches no other. *)
Lemma wp_init_slab g s i :
  heap_inv g s → fresh_slab g s i →
  wp (with_slab i SlabAllocator_init) (λ _ s', ∃ g', heap_inv g' s')
    (λ _ s', ∃ g', heap_inv g' s' ∧ ∀ j, j ≠ i → fresh_slab g s j → fresh_slab g' s' j) s.
Proof.
  intros Hi [Hg Hsl]. destruct (slab_allocators s !! i) as [sl|] eqn:Hi'; [|done].
  cbn in Hsl. injection Hsl as Hsl. eapply wp_with_slab; [exact Hi'|]. apply wp_slab_init; [done|].
  eapply wp_mono; [apply (wp_push_new_block [] ∅ (slab_view sl s)), (hv_slabs _ _ Hi _ _ _ _ Hi' Hg)| |].
  - intros b s' (Hinv & Hframe & Hrest). exists (<[i:=([b], ∅)]> g). split.
    + eapply heap_inv_step; [done..|]. split; [done|]. exists [b]. split; [done|].
      split; [set_solver|]. split; [done|]. split; [|by intros c Hc Hnc].
      intros c ->%list_elem_of_singleton. right. apply Hrest.
    + intros j Hj [Hgj Hslj]. split; cbn; by rewrite list_lookup_insert_ne.
  - intros e s' [Hinv Hframe]. exists (<[i:=([], ∅)]> g). eapply heap_inv_step; [done..|].
    split; [done|]. exists []. split; [done|]. split; [done|]. split; [done|].
    split; [|by intros c Hc]. intros c Hc. by apply not_elem_of_nil in Hc.
Qed.

Lemma slab_inv_empty sz (m : BlockMemory) (a : A) : 0 < sz → 256 mod sz = 0 → slab_inv [] ∅ (mkSlabState (mkSlab sz None) m a).
Proof.
  intros Hsz H256. split; cbn; [done|done|done|constructor|..]; intros; set_solver.
Qed.

Lemma heap_inv_new {E} start sz a s :
  KernelHeap_new (E:=E) start sz a = Ok s → heap_inv (replicate 3 ([], ∅)) s ∧
    ∀ i, (i < 3)%nat → fresh_slab (replicate 3 ([], ∅)) s i.
Proof.
  intros [= <-]. split.
  - split; [done|done| |].
    + intros i sl l live Hsl Hg. apply lookup_replicate in Hg as [[= -> ->] _].
      destruct i as [|[|[|]]]; [| | |done]; injection Hsl as <-; by apply slab_inv_empty.
    + intros i j l live l' live' b Hg _ Hb. apply lookup_replicate in Hg as [[= -> ->] _]. set_solver.
  - intros i Hi. destruct i as [|[|[|]]]; [done..|lia].
Qed.

(** A new heap that is initialised keeps the invariant, whether or not there is memory
    for the first blocks. *)
Lemma KernelHeap_init_inv {E} start sz a s :
  KernelHeap_new (E:=E) start sz a = Ok s →
  wp KernelHeap_init (λ _ s', ∃ g, heap_inv g s') (λ _ s', ∃ g, heap_inv g s') s.
Proof.
  intros Hnew. destruct (heap_inv_new _ _ _ _ Hnew) as [Hi Hf]. unfold KernelHeap_init. apply wp_bind.
  eapply wp_mono; [by apply (wp_init_slab _ _ 0 Hi), Hf; lia| |done].
  intros _ s1 (g1 & Hi1 & Hf1). apply wp_bind.
  eapply wp_mono; [by apply (wp_init_slab _ _ 1 Hi1), Hf1, Hf; lia| |done].
  intros _ s2 (g2 & Hi2 & Hf2).
  eapply wp_mono; [by apply (wp_init_slab _ _ 2 Hi2), Hf2, Hf1, Hf; lia| |done].
  intros _ s3 (g3 & Hi3 & _). by exists g3.
Qed.
End heap.

(** ** A concrete allocator

    Sixteen cells of 4 KiB; it gives out the first free one. *)

Module Cells.
Definition addresses : list UntypedPtr := (λ i, 4096 * (Z.of_nat i + 1)) <$> seq 0 16.
Abbreviation cell := (λ '(p, n), p ∈ addresses ∧ 0 < n ≤ 4096).

#[export] Instance cells : Allocator (gmap UntypedPtr Z) := {|
  alloc layout := λ a,
    match list_find (λ p, a !! p = None) addresses with
    | Some (_, p) =>
        if (l_size layout <=? 4096) && (p mod l_align layout =? 0)
        then (Ok p, <[p:=l_size layout]> a) else (Err AllocError, a)
    | None => (Err AllocError, a)
    end;
  free p layout := λ a, (Ok tt, delete p a);
|}.

Lemma address p : p ∈ addresses → 0 < p ∧ p mod 4096 = 0.
Proof.
  unfold addresses. intros (i & -> & _)%list_elem_of_fmap. split; [lia|].
  rewrite Z.mul_comm. apply Z.mod_mul. lia.
Qed.

#[export] Instance cells_regions : RegionAllocator (gmap UntypedPtr Z).
Proof.
  refine {| regions a := filter cell a |}.
  - intros a p n [_ [_ Hn]]%map_lookup_filter_Some. lia.
  - intros a p q n m [_ [Hp Hn]]%map_lookup_filter_Some [_ [Hq Hm]]%map_lookup_filter_Some Hne.
    apply address in Hp as [_ Hp], Hq as [_ Hq].
    apply Z.mod_divide in Hp as [x ->], Hq as [y ->]; [|lia..]. unfold disjoint_ranges.
    assert (x < y ∨ y < x) by (destruct (decide (x = y)) as [->|]; [done|lia]). lia.
  - intros layout a Hpos. unfold wp, alloc, cells.
    destruct (list_find _ addresses) as [[i p]|] eqn:Hf; [|done].
    apply list_find_Some in Hf as (Hp & Hnone & _). apply list_elem_of_lookup_2 in Hp.
    destruct (Z.leb_spec (l_size layout) 4096), (Z.eqb_spec (p mod l_align layout) 0); cbn [andb]; [|done..].
    destruct (address p Hp) as [Hp0 Hpm]. split; [done|]. split; [done|].
    split; [by apply map_lookup_filter_None; left|]. split.
    + intros q m [Hq [Hq' Hm]]%map_lookup_filter_Some.
      assert (p ≠ q) as Hne by (intros ->; congruence). apply address in Hq' as [_ Hq'].
      apply Z.mod_divide in Hpm as [x ->], Hq' as [y ->]; [|lia..]. unfold disjoint_ranges.
      assert (x < y ∨ y < x) by (destruct (decide (x = y)) as [->|]; [done|lia]). lia.
    + apply map_filter_insert_True. split; [done|lia].
  - intros p layout a _. unfold wp, free, cells. apply map_filter_delete.
Defined.

(** A new heap, and one with a region of 1000 bytes *)
Definition heap0 (a : gmap UntypedPtr Z) : KernelHeap (gmap UntypedPtr Z) :=
  mkKernelHeap 4096 69631 [mkSlab 4 None; mkSlab 64 None; mkSlab 256 None] ∅ a.
Definition region : gmap UntypedPtr Z := {[8192 := 1000]}.
End Cells.
Import (hints) Cells.

Lemma KernelHeap_alloc_spec_witness :
  let layout := mkLayout 8 8 in
  heap_inv (replicate 3 ([], ∅)) (Cells.heap0 ∅) ∧
  wp (KernelHeap_alloc layout) (λ _, keeps (replicate 3 ([], ∅)) (Cells.heap0 ∅))
    (allocates layout (replicate 3 ([], ∅)) (Cells.heap0 ∅)) (Cells.heap0 ∅) ∧
  fst (KernelHeap_alloc layout (Cells.heap0 ∅)) = Ok 4160.
Proof.
  intros layout.
  assert (heap_inv (replicate 3 ([], ∅)) (Cells.heap0 ∅)) as Hi
    by by eapply proj1, (heap_inv_new (E:=unit) 4096 65536).
  split; [exact Hi|]. split; [|vm_compute; reflexivity].
  apply (KernelHeap_alloc_spec (replicate 3 ([], ∅)) (Cells.heap0 ∅) layout Hi); [|reflexivity].
  split; [discriminate|]. exists 3. split; [discriminate|reflexivity].
Defined.

Lemma KernelHeap_free_spec_witness :
  let layout := mkLayout 1000 8 in
  let g := replicate 3 ([], ∅) in
  let s := Cells.heap0 Cells.region in
  wp (KernelHeap_free 8192 layout) (λ _ _, False)
    (λ _ s', ∃ g', heap_inv g' s' ∧ ∀ q m, allocated g' s' q m ↔ allocated g s q m ∧ q ≠ 8192) s.
Proof.
  intros layout g s.
  assert (heap_inv g s) as Hi by by eapply proj1, (heap_inv_new (E:=unit) 4096 65536).
  apply (KernelHeap_free_spec g s 8192 layout Hi); [| | |discriminate].
  - split; [discriminate|]. exists 3. split; [discriminate|reflexivity].
  - split; [vm_compute; reflexivity|]. intros (i & l & live & Hg & Hb).
    apply lookup_replicate in Hg as [Hg _]. injection Hg as -> ->. by apply not_elem_of_nil in Hb.
  - discriminate.
Defined.

(** ** The early heap *)

Section early.
Context `{AU : AlignUp} (EARLY_HEAP : UntypedPtr).

Definition early_allocs {E} (layouts : list Layout) : M EarlyHeap E (list UntypedPtr) :=
  mapM (early_alloc EARLY_HEAP) layouts.

(** What an allocation of the early heap may ask for *)
Definition early_ok (layout : Layout) : Prop :=
  0 < l_size layout ∧ ∃ k, 0 ≤ k ≤ 12 ∧ l_align layout = 2 ^ k.

(** The allocations follow each other from [off] on and end at [off']. *)
Fixpoint stacked (off off' : Z) (layouts : list Layout) (ps : list UntypedPtr) : Prop :=
  match layouts, ps with
  | [], [] => off = off'
  | layout :: layouts, p :: ps =>
      EARLY_HEAP + off ≤ p ∧ p mod l_align layout = 0 ∧
      stacked (p - EARLY_HEAP + l_size layout) off' layouts ps
  | _, _ => False
  end.

Definition total (layouts : list Layout) : Z := foldr (λ l n, l_size l + n) 0 layouts.

Lemma run_early_alloc {E} layout s :
  0 < l_size layout →
  early_alloc (E:=E) EARLY_HEAP layout s =
    (let o := align_up (next_offset s) (l_align layout) in
     if o + (l_size layout - 1) <=? EARLY_HEAP_SIZE
     then (Ok (EARLY_HEAP + o),
           mkEarly (o + l_size layout) (early_allocated s + l_size layout) (early_freed s))
     else (Panic, s)).
Proof.
  intros Hpos. unfold early_alloc. rewrite run_bind. cbn.
  rewrite run_bind, sub_u64_ok by lia. cbn.
  rewrite run_bind. by destruct (_ <=? EARLY_HEAP_SIZE).
Qed.

Lemma early_align layout o : EARLY_HEAP mod 4096 = 0 → early_ok layout → o mod l_align layout = 0 →
  (EARLY_HEAP + o) mod l_align layout = 0.
Proof.
  intros Hh (_ & k & Hk & Hal) Ho. rewrite Hal in *. assert (0 < 2 ^ k) by (apply Z.pow_pos_nonneg; lia).
  apply Z.mod_divide in Ho, Hh; [|lia..]. apply Z.mod_divide; [lia|]. apply Z.divide_add_r; [|done].
  etrans; [|done]. apply (pow_divide k 12); [lia..|]. apply Z.pow_le_mono_r; lia.
Qed.

(** Any sequence of allocations in the early heap. They are aligned, follow each
    other without overlap and are counted. Each ends at most one byte behind the
    heap, not inside it: the assertion compares the last byte with the size of the
    heap, so the first byte behind it can be given out. *)
Theorem early_allocs_spec {E} (layouts : list Layout) (s s' : EarlyHeap) (ps : list UntypedPtr) :
  EARLY_HEAP mod 4096 = 0 → Forall early_ok layouts →
  early_allocs (E:=E) layouts s = (Ok ps, s') →
  stacked (next_offset s) (next_offset s') layouts ps ∧
  (layouts ≠ [] → next_offset s' ≤ EARLY_HEAP_SIZE + 1) ∧
  early_allocated s' = early_allocated s + total layouts ∧ early_freed s' = early_freed s.
Proof.
  intros Hh Hok. revert s s' ps. induction Hok as [|layout layouts Hl _ IH]; intros s s' ps Hrun.
  { injection Hrun as <- <-. cbn. split; [done|]. split; [done|]. split; [lia|done]. }
  destruct Hl as (Hpos & k & Hk & Hal).
  apply run_bind_Ok in Hrun as (p & s1 & Hrun & Hrest).
  apply run_bind_Ok in Hrest as (ps1 & s2 & Hrest & [= <- <-]).
  rewrite run_early_alloc in Hrun by done. cbn zeta in Hrun.
  assert (0 < l_align layout) as Hap by (rewrite Hal; apply Z.pow_pos_nonneg; lia).
  destruct (align_up_spec (next_offset s) (l_align layout) Hap) as [Hm Hb].
  destruct (Z.leb_spec (align_up (next_offset s) (l_align layout) + (l_size layout - 1)) EARLY_HEAP_SIZE);
    [|done].
  injection Hrun as <- <-. destruct (IH _ _ _ Hrest) as (Hst & Hend & Hall & Hfr). cbn in *.
  split; [|split; [|split; [unfold total in *; lia|done]]].
  - split; [lia|]. split; [apply early_align; [done|by split; [|exists k]|done]|]. by replace (_ - _ + _) with
      (align_up (next_offset s) (l_align layout) + l_size layout) by lia.
  - intros _. destruct layouts; [|by apply Hend]. injection Hrest as <- <-. cbn in *. lia.
Qed.

(** A pointer into the early heap that is freed when the kernel heap is in use is
    freed there, and then handed to the kernel heap all the same, which reports it
    as foreign memory; the error is logged. *)
Theorem global_dealloc_early {A} `{Allocator A} (p : UntypedPtr) (layout : Layout) (s : GlobalHeap (A:=A)) :
  heap_init s = true → early_is_in_heap EARLY_HEAP p = true → 0 < EARLY_HEAP →
  EARLY_HEAP + EARLY_HEAP_SIZE ≤ kh_start (kernel s) →
  global_dealloc EARLY_HEAP p layout s =
    (Ok tt, mkGlobal true
       (mkEarly (next_offset (early s)) (early_allocated (early s)) (early_freed (early s) + l_size layout))
       (kernel s) (logged s ++ [PtrNotAllocated p])).
Proof.
  intros Hinit Hin Hpos Hstart. pose proof Hin as [H1 H2]%andb_prop.
  apply Z.leb_le in H1, H2. unfold global_dealloc. rewrite run_bind. cbn. rewrite Hinit, Hin. cbn.
  rewrite run_bind. unfold free_early, early_free. rewrite run_bind. cbn. rewrite Hin. cbn.
  unfold free_kernel. destruct (Z.eqb_spec p 0); [lia|]. unfold KernelHeap_free. rewrite run_bind. cbn.
  destruct (Z.ltb_spec p (kh_start (kernel s))); [by rewrite Hinit|lia].
Qed.
End early.

(** The second allocation takes the last byte of the heap and the one behind it. *)
Lemma early_allocs_spec_witness :
  let s := mkEarly 4097 4097 0 in
  early_allocs (E:=unit) 8192 [mkLayout 8 8; mkLayout 4089 1] EarlyHeap_initial = (Ok [8192; 8200], s) ∧
  stacked 8192 0 4097 [mkLayout 8 8; mkLayout 4089 1] [8192; 8200].
Proof.
  intros s. assert (early_allocs (E:=unit) 8192 [mkLayout 8 8; mkLayout 4089 1] EarlyHeap_initial
    = (Ok [8192; 8200], s)) as Hrun by (vm_compute; reflexivity).
  split; [exact Hrun|].
  apply (early_allocs_spec (E:=unit) 8192 _ EarlyHeap_initial s [8192; 8200]); [reflexivity| |exact Hrun].
  repeat constructor.
  - exists 3. split; [split; discriminate|reflexivity].
  - exists 0. split; [split; discriminate|reflexivity].
Defined.

Lemma global_dealloc_early_witness :
  snd (global_dealloc 0x1000 0x1000 (mkLayout 8 8)
         (mkGlobal true (mkEarly 8 8 0) (mkKernelHeap 0x2000 0xffff [] ∅ (∅ : gmap UntypedPtr Z)) [])) =
    mkGlobal true (mkEarly 8 8 8) (mkKernelHeap 0x2000 0xffff [] ∅ ∅) [PtrNotAllocated 0x1000].
Proof.
  rewrite (global_dealloc_early 0x1000); [reflexivity|reflexivity|reflexivity|reflexivity|discriminate].
Defined.
