(* ===== verification/PageAlloc.v ===== *)
(** * [wasabi-kernel/src/mem]: the frame and page allocators

    [frame_allocator.rs], [page_allocator.rs], [Pages] and [GuardedPages] of
    [structs.rs] and the reservations of [cpu/apic/ap_startup.rs]. Both allocators
    are range sets of free addresses. The statistics (feature [mem-stats]), the
    locks and the log are left out. *)

From S2P Require Import Prelude KernelMem RangeSet.
Local Open Scope Z_scope.

(** ** Addresses of the crate [x86_64] *)

Inductive PageSize := Size4KiB | Size2MiB | Size1GiB.
Definition SIZE (S : PageSize) : Z :=
  match S with Size4KiB => 4096 | Size2MiB => 2097152 | Size1GiB => 1073741824 end.

#[export] Instance PageSize_eq_dec : EqDecision PageSize.
Proof. solve_decision. Defined.

(** A physical address has 52 bits, and a virtual one has to be canonical; other
    numbers may panic. *)
Class Addresses := {
  PhysAddr_new {E} : Z → result E Z;
  PhysAddr_new_ok {E} a : 0 ≤ a < 2 ^ 52 → PhysAddr_new (E:=E) a = Ok a;
  PhysAddr_new_cases {E} a : PhysAddr_new (E:=E) a = Ok a ∨ PhysAddr_new (E:=E) a = Panic;
  VirtAddr_new {E} : Z → result E Z;
  VirtAddr_new_ok {E} a : 0 ≤ a < 2 ^ 47 → VirtAddr_new (E:=E) a = Ok a;
  VirtAddr_new_cases {E} a : VirtAddr_new (E:=E) a = Ok a ∨ VirtAddr_new (E:=E) a = Panic;
}.

(** [from_start_address] of pages and frames *)
Definition from_start_address (S : PageSize) (a : Z) : option Z :=
  if a mod SIZE S =? 0 then Some a else None.

(** Pages and frames are their start addresses. *)
Abbreviation Page := Z (only parsing).
Abbreviation PhysFrame := Z (only parsing).

(** ** [structs.rs] *)

Record Pages := mkPages { page_size : PageSize; first_page : Page; page_count : Z }.

Record GuardedPages := mkGuarded {
  head_guard : option Page;
  tail_guard : option Page;
  pages : Pages;
}.

Record PagesIter := mkPagesIter { pi_pages : Pages; index : Z }.

Section pages.
Context `{Addresses} {E : Type}.

(** [Page + u64] and [VirtAddr + u64] *)
Definition VirtAddr_add (a n : Z) : result E Z := s ← add_u64 a n; VirtAddr_new s.
Definition Page_add (S : PageSize) (p : Page) (n : Z) : result E Page :=
  o ← mul_u64 n (SIZE S); VirtAddr_add p o.

Definition Pages_start_addr (self : Pages) : Z := first_page self.
Definition Pages_size (self : Pages) : result E Z := mul_u64 (SIZE (page_size self)) (page_count self).
Definition Pages_end_addr (self : Pages) : result E Z :=
  p ← Page_add (page_size self) (first_page self) (page_count self);
  o ← mul_u64 1 (SIZE (page_size self));
  p ← sub_u64 p o;
  p ← VirtAddr_new p;
  VirtAddr_add p (SIZE (page_size self) - 1).
Definition Pages_contains (self : Pages) (vaddr : Z) : result E bool :=
  e ← Pages_end_addr self;
  mret ((Pages_start_addr self <=? vaddr) && (vaddr <=? e)).

Definition Pages_iter (self : Pages) : PagesIter := mkPagesIter self 0.
Definition PagesIter_next (self : PagesIter) : result E (option Page * PagesIter) :=
  let p := pi_pages self in
  if index self >=? page_count p then mret (None, self)
  else
    res ← Page_add (page_size p) (first_page p) (index self);
    i ← add_u64 (index self) 1;
    mret (Some res, mkPagesIter p i).
Definition PagesIter_size_hint (self : PagesIter) : result E Z :=
  sub_u64 (page_count (pi_pages self)) (index self).

(** [pages_required_for!] and [Pages::from_ref] of a value of [length] bytes *)
Definition pages_required_for (S : PageSize) (length : Z) : Z := counts_required_for (SIZE S) length.
Definition Pages_from_ref (S : PageSize) (start_ptr length : Z) : result E (Pages * Z) :=
  let aligned_page_count := pages_required_for S length in
  let start_page := start_ptr - start_ptr mod SIZE S in
  offset ← sub_u64 start_ptr start_page;
  count ← (if offset =? 0 then mret aligned_page_count else add_u64 aligned_page_count 1);
  mret (mkPages S start_page count, offset).
End pages.

(** ** Range sets as state *)

(** A call of a method of the range set *)
Definition on_ranges {E A} (f : RangeSet → result E (A * RangeSet)) : M RangeSet E A := λ s,
  match f s with
  | Ok (a, s) => (Ok a, s)
  | Err e => (Err e, s)
  | Panic => (Panic, s)
  | Hang => (Hang, s)
  end.
Definition insert {E} (r : Range) : M RangeSet E unit :=
  on_ranges (λ s, s ← RangeSet_insert s r; mret (tt, s)).
Definition remove {E} (r : Range) : M RangeSet E unit :=
  on_ranges (λ s, s ← RangeSet_remove s r; mret (tt, s)).

Section allocators.
Context `{Addresses} {E : Type}.

(** ** [PhysAllocator] *)

Definition PhysAllocator_N : nat := 256.

Definition frame_of (S : PageSize) (alloc_start : option Z) : result E (option PhysFrame) :=
  match alloc_start with
  | None => mret None
  | Some s =>
      s ← PhysAddr_new s;
      f ← expect (from_start_address S s);
      mret (Some f)
  end.

Definition PhysAllocator_alloc (S : PageSize) : M RangeSet E (option PhysFrame) :=
  let size := SIZE S in
  let align := SIZE S in
  alloc_start ← on_ranges (λ s, RangeSet_allocate s size align);
  lift (frame_of S alloc_start).

Definition PhysAllocator_alloc_in_range (S : PageSize) (range : RegionRequest)
    : M RangeSet E (option PhysFrame) :=
  let size := SIZE S in
  let align := SIZE S in
  alloc_start ← on_ranges (λ s, RangeSet_allocate_prefer s size align range);
  lift (frame_of S alloc_start).

(** The range from the first frame to the last *)
Definition PhysAllocator_alloc_range (S : PageSize) (count : Z)
    : M RangeSet E (option (PhysFrame * PhysFrame)) :=
  _ ← lift (assert_ (negb (count =? 0)));
  size ← lift (mul_u64 (SIZE S) count);
  let align := SIZE S in
  alloc_start ← on_ranges (λ s, RangeSet_allocate s size align);
  start_frame ← lift (frame_of S alloc_start);
  match start_frame with
  | None => mret None
  | Some start_frame =>
      o ← lift (mul_u64 (count - 1) (SIZE S));
      e ← lift (a ← add_u64 start_frame o; PhysAddr_new a);
      mret (Some (start_frame, e))
  end.

Definition PhysAllocator_free (S : PageSize) (frame : PhysFrame) : M RangeSet E unit :=
  e ← lift (e ← add_u64 frame (SIZE S); sub_u64 e 1);
  insert (mkRange frame e).

Fixpoint PhysAllocator_free_all (S : PageSize) (frames : list PhysFrame) : M RangeSet E unit :=
  match frames with
  | [] => mret tt
  | frame :: frames => _ ← PhysAllocator_free S frame; PhysAllocator_free_all S frames
  end.
End allocators.

(** ** [FrameAllocator] *)

Section frames.
Context `{Addresses}.
Local Abbreviation M := (M RangeSet MemError).

Definition FrameAllocator_alloc (S : PageSize) : M PhysFrame :=
  o ← PhysAllocator_alloc S; lift (ok_or OutOfMemory o).
Definition FrameAllocator_alloc_range (S : PageSize) (count : Z) : M (PhysFrame * PhysFrame) :=
  o ← PhysAllocator_alloc_range S count; lift (ok_or OutOfMemory o).
Definition FrameAllocator_free (S : PageSize) (frame : PhysFrame) : M unit :=
  PhysAllocator_free S frame.
(** without the feature [mem-backed-guard-page] *)
Definition FrameAllocator_guard_frame : M PhysFrame := mret 0.

(** [frame_allocator::init]: the usable regions, with exclusive ends *)
Record MemoryRegion := mkRegion { usable : bool; region_start : Z; region_end : Z }.

Fixpoint insert_usable (regions : list MemoryRegion) : M unit :=
  match regions with
  | [] => mret tt
  | region :: regions =>
      _ ← (if usable region
           then e ← lift (sub_u64 (region_end region) 1); insert (mkRange (region_start region) e)
           else mret tt);
      insert_usable regions
  end.

(** [ap_startup::reserve_phys_frames], with the flag that it was called before *)
Definition TRAMPOLINE_ADDR : Z := 0x8000.
Definition reserve_phys_frames (reserved : bool) : M PhysFrame :=
  _ ← lift (assert_ (negb reserved));
  boot_range ← lift (RangeSet_new 256);
  boot_range ← lift (RangeSet_insert boot_range
    (mkRange TRAMPOLINE_ADDR (TRAMPOLINE_ADDR + SIZE Size4KiB)));
  o ← PhysAllocator_alloc_in_range Size4KiB (Forced boot_range);
  lift (expect o).

Definition frame_allocator_init (regions : list MemoryRegion) : M unit :=
  rs ← lift (RangeSet_new PhysAllocator_N);
  _ ← put rs;
  _ ← insert_usable regions;
  ranges ← gets id;
  _ ← reserve_phys_frames false;
  total ← lift (RangeSet_sum ranges);
  _ ← lift (expect total);
  mret tt.

(** ** [PageAllocator] *)

Definition page_range (S : PageSize) (page : Page) : result MemError Range :=
  e ← add_u64 page (SIZE S - 1); mret (mkRange page e).

Definition try_allocate_page (S : PageSize) (page : Page) : M unit :=
  if page =? 0 then lift (Err NullAddress)
  else
    r ← lift (page_range S page);
    b ← on_ranges (λ s, RangeSet_remove_if_exist s r);
    if b : bool then mret tt else lift (Err PageInUse).

(** The page at an address that was allocated *)
Definition page_of (S : PageSize) (start : option Z) : result MemError Page :=
  match start with
  | None => Err OutOfPages
  | Some s => s ← VirtAddr_new s; expect (from_start_address S s)
  end.

Definition allocate_page (S : PageSize) : M Page :=
  let size := SIZE S in
  let align := SIZE S in
  start ← on_ranges (λ s, RangeSet_allocate s size align);
  lift (page_of S start).

Definition allocate_pages (S : PageSize) (count : Z) : M Pages :=
  size ← lift (mul_u64 (SIZE S) count);
  let align := SIZE S in
  start ← on_ranges (λ s, RangeSet_allocate s size align);
  p ← lift (page_of S start);
  mret (mkPages S p count).

(** The alignment that is asked for when there is a head guard *)
Definition guarded_align (S : PageSize) (head : bool) : Z :=
  if head then
    match S with
    | Size4KiB => SIZE S
    | Size2MiB | Size1GiB => SIZE S - SIZE Size4KiB
    end
  else SIZE S.

Definition guarded_size (S : PageSize) (count : Z) (head tail : bool) : result MemError Z :=
  size ← mul_u64 (SIZE S) count;
  size ← (if head then add_u64 size (SIZE Size4KiB) else mret size);
  if tail then add_u64 size (SIZE Size4KiB) else mret size.

(** Cutting the allocated addresses into guards and pages *)
Definition split_guarded (S : PageSize) (count start : Z) (head tail : bool) : result MemError GuardedPages :=
  '(h, start) ← (if head then
                   g ← expect (from_start_address Size4KiB start);
                   start ← VirtAddr_add start (SIZE Size4KiB);
                   mret (Some g, start)
                 else mret (None, start));
  first_page ← expect (from_start_address S start);
  size ← mul_u64 (SIZE S) count;
  start ← VirtAddr_add start size;
  t ← (if tail then g ← expect (from_start_address Size4KiB start); mret (Some g) else mret None);
  mret (mkGuarded h t (mkPages S first_page count)).

Definition allocate_guarded_pages (S : PageSize) (count : Z) (head tail : bool) : M GuardedPages :=
  if negb head && negb tail then
    pages ← allocate_pages S count;
    mret (mkGuarded None None pages)
  else
    size ← lift (guarded_size S count head tail);
    let align := guarded_align S head in
    start ← on_ranges (λ s, RangeSet_allocate s size align);
    start ← lift (match start with None => mret None | Some s => s ← VirtAddr_new s; mret (Some s) end);
    start ← lift (ok_or OutOfPages start);
    lift (split_guarded S count start head tail).

Definition free_page (S : PageSize) (page : Page) : M unit :=
  r ← lift (page_range S page); insert r.

(** The loop over the iterator runs at most [n] rounds. *)
Fixpoint free_pages_loop (n : nat) (it : PagesIter) : M unit :=
  match n with
  | O => mret tt
  | S n =>
      '(p, it) ← lift (PagesIter_next it);
      match p with
      | None => mret tt
      | Some p => _ ← free_page (page_size (pi_pages it)) p; free_pages_loop n it
      end
  end.
Definition free_pages (ps : Pages) : M unit :=
  free_pages_loop (S (Z.to_nat (page_count ps))) (Pages_iter ps).

Definition free_guarded_pages (ps : GuardedPages) : M unit :=
  _ ← free_pages (pages ps);
  _ ← match head_guard ps with Some guard => free_page Size4KiB guard | None => mret tt end;
  match tail_guard ps with Some guard => free_page Size4KiB guard | None => mret tt end.

(** [match .. { Ok(_) => .., Err(err) => panic!(..) }] *)
Definition or_panic {A} (m : M A) : M A := λ s,
  match m s with
  | (Err _, s) => (Panic, s)
  | r => r
  end.

(** [ap_startup::reserve_pages] *)
Definition reserve_pages (reserved : bool) : M unit :=
  _ ← lift (assert_ (negb reserved));
  vaddr ← lift (VirtAddr_new TRAMPOLINE_ADDR);
  page ← lift (expect (from_start_address Size4KiB vaddr));
  or_panic (try_allocate_page Size4KiB page).
End frames.
