(* ===== verification/PageAllocProofs.v ===== *)
(** * Correctness of the frame and page allocators

    Seen through its free 4 KiB pages, an allocation takes pages that were free and a
    free gives exactly its pages back. So however the operations follow each other,
    two allocations that are held never share a page. *)

From S2P Require Import Prelude KernelMem RangeSet RangeSetProofs PageAlloc.
Local Open Scope Z_scope.

(** ** Free pages *)

Definition page_aligned (q : Z) : Prop := q mod 4096 = 0.

Definition page_free (rs : RangeSet) (q : Z) : Prop :=
  page_aligned q ∧ ∀ x, q ≤ x < q + 4096 → covers (RangeSet_entries rs) x.

(** The pages of a list of areas [(start, length)] *)
Definition area : Type := Z * Z.
Definition area_ok (a : area) : Prop := page_aligned a.1 ∧ page_aligned a.2 ∧ 0 ≤ a.1 ∧ 0 ≤ a.2 ∧ a.1 + a.2 ≤ u64_max + 1.
Definition in_area (q : Z) (a : area) : Prop := a.1 ≤ q < a.1 + a.2.
Definition in_areas (q : Z) (l : list area) : Prop := Exists (in_area q) l.

(** The set gave away these areas, or got them back. *)
Record takes (l : list area) (rs rs' : RangeSet) : Prop := {
  tk_ok : RangeSet_ok rs';
  tk_areas : Forall area_ok l;
  tk_free q : page_aligned q → in_areas q l → page_free rs q ∧ ¬ page_free rs' q;
  tk_rest q : page_free rs' q → page_free rs q;
}.
Record gives (l : list area) (rs rs' : RangeSet) : Prop := {
  gv_ok : RangeSet_ok rs';
  gv_free q : page_free rs' q ↔ page_free rs q ∨ page_aligned q ∧ in_areas q l;
}.

Lemma aligned_lt p q : page_aligned p → page_aligned q → p < q → p + 4096 ≤ q.
Proof. unfold page_aligned. intros. Z.to_euclidean_division_equations. lia. Qed.
Lemma aligned_add p n : page_aligned p → page_aligned n → page_aligned (p + n).
Proof. unfold page_aligned. intros. rewrite Z.add_mod, H, H0 by lia. done. Qed.
Lemma aligned_mul p n : page_aligned p → page_aligned (n * p).
Proof. unfold page_aligned. intros H. rewrite Z.mul_mod, H, Z.mul_0_r by lia. done. Qed.
Lemma SIZE_aligned S : page_aligned (SIZE S).
Proof. by destruct S. Qed.
Lemma SIZE_bounds S : 4096 ≤ SIZE S ≤ 1073741824.
Proof. destruct S; cbn; lia. Qed.
Lemma SIZE_mod S p : p mod SIZE S = 0 → page_aligned p.
Proof. unfold page_aligned. destruct S; cbn; intros; Z.to_euclidean_division_equations; lia. Qed.

(** A page lies inside an area or apart from it. *)
Lemma page_in_area q a x :
  page_aligned q → area_ok a → q ≤ x < q + 4096 → a.1 ≤ x < a.1 + a.2 → in_area q a.
Proof.
  intros Hq (H1 & H2 & _) Hx Ha. unfold in_area. pose proof (aligned_add _ _ H1 H2) as He.
  destruct (decide (q < a.1)) as [Hlt|]; [pose proof (aligned_lt _ _ Hq H1 Hlt); lia|].
  destruct (decide (a.1 + a.2 ≤ q)) as [Hle|]; lia.
Qed.

Lemma area_page q a : page_aligned q → area_ok a → in_area q a → q + 4096 ≤ a.1 + a.2.
Proof.
  intros Hq (H1 & H2 & _) [? ?]. apply aligned_lt; [done|by apply aligned_add|done].
Qed.

Lemma gives_nil rs : RangeSet_ok rs → gives [] rs rs.
Proof.
  intros Hok. split; [done|]. intros q. split; [by left|]. intros [?|[_ Hn]]; [done|]. by apply Exists_nil in Hn.
Qed.
Lemma gives_app l1 l2 rs rs1 rs2 : gives l1 rs rs1 → gives l2 rs1 rs2 → gives (l1 ++ l2) rs rs2.
Proof.
  intros [_ H1] [Hok H2]. split; [done|]. intros q. rewrite H2, H1. unfold in_areas. rewrite Exists_app. tauto.
Qed.

(** ** The range set under the allocators *)

Section ranges.
Context {E : Type}.

Lemma runs_on_ranges {A} (f : RangeSet → result E (A * RangeSet)) (pan : Prop) (err : E → RangeSet → Prop)
    (post : A → RangeSet → Prop) rs :
  match f rs with Ok (a, rs') => post a rs' | Err e => err e rs | Panic => pan | Hang => False end →
  runs (on_ranges f) pan err post rs.
Proof. unfold runs, on_ranges. by destruct (f rs) as [[? ?]| | |]. Qed.

(** [area_ok] areas as ranges *)
Lemma runs_insert p n err (post : unit → RangeSet → Prop) rs :
  RangeSet_ok rs → area_ok (p, n) → 0 < n →
  (∀ rs', gives [(p, n)] rs rs' → (∀ x, covers (RangeSet_entries rs') x ↔ covers (RangeSet_entries rs) x ∨ p ≤ x < p + n) →
     post tt rs') →
  runs (E:=E) (insert (mkRange p (p + n - 1))) (room rs = 0%nat) err post rs.
Proof.
  intros Hok Ha Hn Hpost. pose proof Ha as (H1 & H2 & H3 & H4 & H5). cbn in *. apply runs_on_ranges.
  destruct (insert_cases (E:=E) rs (mkRange p (p + n - 1)) Hok) as [[-> Hroom]|(rs' & -> & Hok' & _ & Hc)];
    [unfold range_ok; cbn; lia|done|]. cbn.
  assert (∀ x, covers (RangeSet_entries rs') x ↔ covers (RangeSet_entries rs) x ∨ p ≤ x < p + n) as Hc'.
  { intros x. rewrite Hc. unfold elem_of, in_range_elem_of, in_range. cbn.
    assert (p ≤ x ≤ p + n - 1 ↔ p ≤ x < p + n) as -> by lia. done. }
  apply Hpost; [|done]. split; [done|]. intros q. unfold in_areas. rewrite Exists_cons, Exists_nil. split.
  - intros [Hq Hf]. destruct (decide (in_area q (p, n))) as [Hin|Hout]; [tauto|]. left. split; [done|].
    intros x Hx. specialize (Hf x Hx). apply Hc' in Hf as [?|Hxp]; [done|].
    exfalso. apply Hout. by eapply (page_in_area q (p, n) x).
  - intros [[Hq Hf]|[Hq [Hin|[]]]]; (split; [done|]); intros x Hx; apply Hc'; [left; auto|right].
    pose proof (area_page q (p, n) Hq Ha Hin) as He. destruct Hin. cbn in *. lia.
Qed.

(** [allocate] takes the pages of its block. *)
Lemma runs_allocate size align (err : E → RangeSet → Prop) (post : option Z → RangeSet → Prop) rs :
  RangeSet_ok rs → is_u64 size → is_u64 align → page_aligned size →
  post None rs →
  (∀ ptr rs', allocated_from rs rs' size align Any ptr → RangeSet_ok rs' → 0 < size →
     (page_aligned ptr → takes [(ptr, size)] rs rs') → post (Some ptr) rs') →
  runs (on_ranges (λ s, RangeSet_allocate s size align)) (room rs = 0%nat) err post rs.
Proof.
  intros Hok Hs Ha Hsa Hnone Hsome. apply runs_on_ranges. unfold RangeSet_allocate.
  destruct (allocate_cases (E:=E) rs size align Any Hok Hs Ha I) as [[-> Hroom]|(o & rs' & Heq & Hok' & _ & Ho)];
    [done|]. rewrite Heq. destruct o as [ptr|]; [|by rewrite Ho].
  assert (size ≠ 0) as Hnz by (intros ->; by unfold RangeSet_allocate_prefer in Heq).
  destruct Hs as [Hs1 Hs2]. apply Hsome; [done|done|lia|]. intros Hp.
  destruct Ho as (Hmod & Hblock & Hrest & _). split; [done| | |].
  - constructor; [|done]. destruct Hok as (_ & Hranges & _). rewrite Forall_forall in Hranges.
    destruct (Hblock ptr ltac:(lia)) as [(e1 & He1 & Hin1)%Exists_exists _].
    destruct (Hblock (ptr + size - 1) ltac:(lia)) as [(e2 & He2 & Hin2)%Exists_exists _].
    destruct (Hranges e1 He1) as (?&?&?), (Hranges e2 He2) as (?&?&?).
    unfold in_range in *. unfold area_ok. cbn. split_and!; try done; lia.
  - intros q Hq [Hin|Hn]%Exists_cons; [|by apply Exists_nil in Hn].
    assert (q + 4096 ≤ ptr + size) as He.
    { apply aligned_lt; [done|by apply aligned_add|]. apply Hin. }
    destruct Hin as [Hq1 Hq2]. cbn in *. split.
    + split; [done|]. intros x Hx. apply Hblock. lia.
    + intros [_ Hf]. apply (Hblock q ltac:(lia)). apply Hf. lia.
  - intros q [Hq Hf]. split; [done|]. intros x Hx. by apply Hrest, Hf.
Qed.
End ranges.

(** ** The page allocator *)

Section pages.
Context `{AD : Addresses}.

(** An allocation near or above the end of the lower half may panic, as addresses there
    are not canonical; so may a split of an entry when the array is full. *)
Definition may_panic (limit : Z) (rs : RangeSet) : Prop :=
  room rs = 0%nat ∨ ∃ x, covers (RangeSet_entries rs) x ∧ limit ≤ x + 1.

Definition wf_pages (ps : Pages) : Prop :=
  first_page ps mod SIZE (page_size ps) = 0 ∧ 0 ≤ page_count ps.
Definition pages_area (ps : Pages) : area := (first_page ps, SIZE (page_size ps) * page_count ps).
Definition guard_area (g : option Page) : list area :=
  match g with Some p => [(p, SIZE Size4KiB)] | None => [] end.
Definition guarded_areas (g : GuardedPages) : list area :=
  guard_area (head_guard g) ++ [pages_area (pages g)] ++ guard_area (tail_guard g).

Lemma SIZE_u64 S : is_u64 (SIZE S).
Proof. pose proof (SIZE_bounds S). unfold is_u64, u64_max. lia. Qed.

Lemma last_covered rs rs' size align ptr :
  allocated_from rs rs' size align Any ptr → 0 < size → covers (RangeSet_entries rs) (ptr + size - 1).
Proof. intros (_ & Hb & _) Hs. apply Hb. lia. Qed.

Lemma covered_bounds rs x : RangeSet_ok rs → covers (RangeSet_entries rs) x → is_u64 x.
Proof.
  intros (_ & Hr & _) (e & He & Hx)%Exists_exists. rewrite Forall_forall in Hr.
  destruct (Hr e He) as (?&?&?). unfold in_range, is_u64 in *. lia.
Qed.

Lemma allocated_bounds rs rs' size align ptr :
  RangeSet_ok rs → allocated_from rs rs' size align Any ptr → 0 < size → 0 ≤ ptr ∧ ptr + size - 1 ≤ u64_max.
Proof.
  intros Hok Hal Hs. pose proof Hal as (_ & Hb & _).
  destruct (covered_bounds rs ptr Hok) as [? _]; [apply Hb; lia|].
  destruct (covered_bounds rs (ptr + size - 1) Hok) as [_ ?]; [apply Hb; lia|]. done.
Qed.

(** A virtual address up to the end of an allocated block *)
Lemma block_address {E} rs rs' size align ptr a :
  RangeSet_ok rs → allocated_from rs rs' size align Any ptr → 0 < size → ptr ≤ a ≤ ptr + size →
  VirtAddr_new (E:=E) a = Ok a ∨ (VirtAddr_new (E:=E) a = Panic ∧ may_panic (2 ^ 47) rs).
Proof.
  intros Hok Hal Hs Ha. destruct (allocated_bounds _ _ _ _ _ Hok Hal Hs).
  destruct (VirtAddr_new_cases (E:=E) a) as [?|Hp]; [by left|right]. split; [done|]. right.
  exists (ptr + size - 1). split; [by eapply last_covered|].
  destruct (decide (a < 2 ^ 47)) as [Hlt|]; [|lia].
  rewrite (VirtAddr_new_ok a) in Hp by lia. done.
Qed.

Definition no_change (e : MemError) (rs rs' : RangeSet) : Prop := e = OutOfPages ∧ rs' = rs.

(** The start of a block *)
Lemma runs_page_of S rs rs' size ptr err (post : Page → RangeSet → Prop) :
  RangeSet_ok rs → allocated_from rs rs' size (SIZE S) Any ptr → 0 < size → post ptr rs' →
  runs (lift (page_of S (Some ptr))) (may_panic (2 ^ 47) rs) err post rs'.
Proof.
  intros Hok Hal Hs Hpost. apply runs_lift. cbn.
  destruct (block_address (E:=MemError) _ _ _ _ _ ptr Hok Hal Hs) as [->|[-> Hp]]; [lia| |done].
  cbn. unfold from_start_address. destruct Hal as (Hmod & _). by rewrite Hmod.
Qed.

Lemma runs_allocate_page S rs :
  RangeSet_ok rs →
  runs (allocate_page S) (may_panic (2 ^ 47) rs) (λ e, no_change e rs)
    (λ p rs', p mod SIZE S = 0 ∧ takes [(p, SIZE S)] rs rs') rs.
Proof.
  intros Hok. unfold allocate_page. apply runs_bind.
  eapply runs_mono; [apply (runs_allocate (SIZE S) (SIZE S) (λ _ _, False)
    (λ o rs', runs (lift (page_of S o)) (may_panic (2 ^ 47) rs) (λ e, no_change e rs)
       (λ p rs', p mod SIZE S = 0 ∧ takes [(p, SIZE S)] rs rs') rs'))|by left|done|done].
  1-3: first [done|apply SIZE_u64]. 1: apply SIZE_aligned.
  - done.
  - intros ptr rs' Hal Hok' Hpos Ht. eapply runs_page_of; [done..|]. destruct Hal as (Hmod & _).
    split; [done|]. by apply Ht, (SIZE_mod S).
Qed.

Lemma runs_mul_u64 {S A} a b (f : Z → M S MemError A) (pan : Prop) err (post : A → S → Prop) s :
  (a * b ≤ u64_max → runs (f (a * b)) pan err post s) → (u64_max < a * b → pan) →
  runs (lift (mul_u64 a b) ≫= f) pan err post s.
Proof.
  intros Hok Hpan. apply runs_bind, runs_lift. unfold mul_u64.
  destruct (Z.leb_spec (a * b) u64_max); auto.
Qed.

Lemma runs_allocate_pages S count rs :
  RangeSet_ok rs → 0 ≤ count →
  runs (allocate_pages S count) (may_panic (2 ^ 47) rs ∨ u64_max < SIZE S * count) (λ e, no_change e rs)
    (λ ps rs', page_size ps = S ∧ page_count ps = count ∧ wf_pages ps ∧ takes [pages_area ps] rs rs') rs.
Proof.
  intros Hok Hc. pose proof (SIZE_bounds S). unfold allocate_pages. apply runs_mul_u64; [|by right].
  intros Hfit. apply runs_bind.
  eapply runs_mono; [apply (runs_allocate (SIZE S * count) (SIZE S) (λ _ _, False)
    (λ o rs', runs (p ← lift (page_of S o); mret (mkPages S p count))
       (may_panic (2 ^ 47) rs ∨ u64_max < SIZE S * count) (λ e, no_change e rs)
       (λ ps rs', page_size ps = S ∧ page_count ps = count ∧ wf_pages ps ∧ takes [pages_area ps] rs rs') rs'))
    |by left; left|done|done].
  1-3: first [done|apply SIZE_u64|unfold is_u64; nia].
  - rewrite Z.mul_comm. apply aligned_mul, SIZE_aligned.
  - done.
  - intros ptr rs' Hal Hok' Hpos Ht. apply runs_bind.
    eapply runs_mono; [eapply (runs_page_of S rs rs' _ ptr (λ _ _, False)
      (λ p rs2, p = ptr ∧ rs2 = rs')); done|by left|done|]. intros p rs2 [-> ->]. apply runs_ret.
    destruct Hal as (Hmod & _). split_and!; [done|done|split; [done|by cbn]|].
    by apply Ht, (SIZE_mod S).
Qed.

Lemma takes_weaken l l' rs rs' :
  takes l rs rs' → Forall area_ok l' → (∀ q, in_areas q l' → in_areas q l) → takes l' rs rs'.
Proof. intros [H1 _ H2 H3] Hl Hsub. split; [done|done| |done]. intros q Hq Hin. by apply H2, Hsub. Qed.

Lemma block_add {E} rs rs' size align ptr a n :
  RangeSet_ok rs → allocated_from rs rs' size align Any ptr → 0 < size →
  ptr ≤ a → 0 ≤ n → a + n ≤ ptr + size →
  VirtAddr_add (E:=E) a n = Ok (a + n) ∨ (VirtAddr_add (E:=E) a n = Panic ∧ may_panic (2 ^ 47) rs).
Proof.
  intros Hok Hal Hs Ha Hn Hle. unfold VirtAddr_add. destruct (Z.leb_spec (a + n) u64_max) as [Hu|Hu].
  - rewrite add_u64_ok by done. cbn. eapply block_address; [done..|lia].
  - right. split; [unfold add_u64; by rewrite (proj2 (Z.leb_gt _ _))|]. right.
    exists (ptr + size - 1). split; [by eapply last_covered|]. unfold u64_max in *. lia.
Qed.

(** A huge page behind a guard page is asked for with an alignment that is not a power
    of two, which the range set refuses. *)
Lemma guarded_align_ones S head :
  count_ones (guarded_align S head) = 1 ↔ (head = true → S = Size4KiB).
Proof. destruct S, head; vm_compute; naive_solver. Qed.

Lemma allocate_bad_align {E} rs size align :
  count_ones align ≠ 1 → RangeSet_allocate (E:=E) rs size align = Ok (None, rs).
Proof.
  intros Ha. unfold RangeSet_allocate, RangeSet_allocate_prefer. destruct (size =? 0); [done|].
  by rewrite (proj2 (Z.eqb_neq _ _)).
Qed.

Definition guards_of (head tail : bool) : Z := (if head then 4096 else 0) + (if tail then 4096 else 0).

Lemma guarded_size_spec S count head tail : 0 ≤ count →
  guarded_size S count head tail =
    (if SIZE S * count + guards_of head tail <=? u64_max
     then Ok (SIZE S * count + guards_of head tail) else Panic).
Proof.
  intros Hc. pose proof (SIZE_bounds S). assert (0 ≤ SIZE S * count) by nia.
  unfold guarded_size, guards_of, mul_u64, add_u64. cbn [SIZE].
  destruct head, tail, (Z.leb_spec (SIZE S * count) u64_max); cbn;
    repeat (case_match; cbn in *; [|]); try done; rewrite ?Z.leb_gt, ?Z.leb_le in *; try (f_equal; lia); lia.
Qed.

(** Where the parts of a block lie *)
Definition guarded_at (S : PageSize) (count ptr : Z) (head tail : bool) : GuardedPages :=
  let first := ptr + guards_of head false in
  mkGuarded (if head then Some ptr else None)
    (if tail then Some (first + SIZE S * count) else None) (mkPages S first count).

Lemma split_guarded_spec S count rs rs' ptr head tail :
  let size := SIZE S * count + guards_of head tail in
  RangeSet_ok rs → allocated_from rs rs' size (guarded_align S head) Any ptr → 0 ≤ count → 0 < size →
  (head = true → S = Size4KiB) → SIZE S * count ≤ u64_max →
  split_guarded S count ptr head tail = Ok (guarded_at S count ptr head tail) ∨
  (split_guarded S count ptr head tail = Panic ∧ may_panic (2 ^ 47) rs).
Proof.
  intros size Hok Hal Hc Hs Hhead Hfit. pose proof (SIZE_bounds S). assert (0 ≤ SIZE S * count) by nia.
  assert (∀ a n, ptr ≤ a → 0 ≤ n → a + n ≤ ptr + size → VirtAddr_add (E:=MemError) a n = Ok (a + n) ∨
    (VirtAddr_add (E:=MemError) a n = Panic ∧ may_panic (2 ^ 47) rs)) as Hadd
    by by intros; eapply block_add.
  pose proof Hal as (Hmod & _). subst size.
  assert (page_aligned (SIZE S * count)) as Hsa by (rewrite Z.mul_comm; apply aligned_mul, SIZE_aligned).
  assert (mul_u64 (E:=MemError) (SIZE S) count = Ok (SIZE S * count)) as Hmul
    by by unfold mul_u64; rewrite (proj2 (Z.leb_le _ _)).
  assert (∀ p, page_aligned p → (p mod SIZE Size4KiB =? 0) = true) as Hpage by by cbn [SIZE]; intros p ->.
  unfold split_guarded, guarded_at, from_start_address, guards_of in *. destruct head.
  - specialize (Hhead eq_refl). subst S. unfold guarded_align in Hmod. cbn [SIZE] in Hmod.
    rewrite Hpage by done. cbn -[SIZE].
    destruct (Hadd ptr (SIZE Size4KiB)) as [->|[-> Hp]]; cbn [SIZE] in *; [lia|lia|destruct tail; lia| |by right].
    assert (page_aligned (ptr + 4096)) as Hfirst by by apply aligned_add.
    cbn. rewrite Hfirst. cbn. cbn in Hmul. rewrite Hmul. cbn.
    destruct (Hadd (ptr + 4096) (4096 * count)) as [->|[-> Hp]]; [lia|lia|destruct tail; lia| |by right].
    cbn. rewrite Z.add_0_r. destruct tail; [|by left]. rewrite (aligned_add _ _ Hfirst Hsa). by left.
  - unfold guarded_align in Hmod. cbn. rewrite Hmod. cbn. rewrite Hmul. cbn. rewrite !Z.add_0_r.
    destruct (Hadd ptr (SIZE S * count)) as [->|[-> Hp]]; [lia|lia|destruct tail; lia| |by right].
    cbn. destruct tail; [|by left].
    assert (page_aligned (ptr + SIZE S * count)) as -> by by apply aligned_add; [eapply SIZE_mod|].
    by left.
Qed.

(** The parts make up the block. *)
Lemma guarded_at_areas S count ptr head tail q :
  0 ≤ count → in_areas q (guarded_areas (guarded_at S count ptr head tail)) ↔
    in_area q (ptr, SIZE S * count + guards_of head tail).
Proof.
  intros Hc. pose proof (SIZE_bounds S). assert (0 ≤ SIZE S * count) by nia.
  unfold in_areas, guarded_areas, guarded_at, guard_area, pages_area, in_area, guards_of.
  destruct head, tail; cbn -[Z.mul SIZE]; rewrite ?Exists_cons, ?Exists_nil; cbn; lia.
Qed.

Lemma guarded_at_ok S count ptr head tail :
  0 ≤ count → area_ok (ptr, SIZE S * count + guards_of head tail) →
  Forall area_ok (guarded_areas (guarded_at S count ptr head tail)).
Proof.
  intros Hc (H1 & _ & H3 & _ & H5). cbn [fst snd] in *. pose proof (SIZE_bounds S).
  assert (0 ≤ SIZE S * count) by nia.
  assert (page_aligned (SIZE S * count)) as Hsa by (rewrite Z.mul_comm; apply aligned_mul, SIZE_aligned).
  assert (page_aligned (ptr + 4096)) as H6 by by apply aligned_add.
  pose proof (aligned_add _ _ H1 Hsa) as H7. pose proof (aligned_add _ _ H6 Hsa) as H8.
  unfold guarded_areas, guarded_at, guard_area, pages_area, area_ok, guards_of in *.
  destruct head, tail; cbn -[Z.mul SIZE]; rewrite ?Z.add_0_r; repeat (apply Forall_cons; split); cbn in *;
    try apply Forall_nil; try done; split_and!; try done; try lia.
Qed.

Lemma runs_allocate_guarded S count head tail rs :
  RangeSet_ok rs → 0 ≤ count →
  runs (allocate_guarded_pages S count head tail)
    (may_panic (2 ^ 47) rs ∨ u64_max < SIZE S * count + guards_of head tail) (λ e, no_change e rs)
    (λ g rs', (head = true → S = Size4KiB) ∧ (is_Some (head_guard g) ↔ head = true) ∧
       (is_Some (tail_guard g) ↔ tail = true) ∧ page_size (pages g) = S ∧ page_count (pages g) = count ∧
       wf_pages (pages g) ∧ takes (guarded_areas g) rs rs') rs.
Proof.
  intros Hok Hc. pose proof (SIZE_bounds S). assert (0 ≤ SIZE S * count) by nia.
  unfold allocate_guarded_pages. destruct (negb head && negb tail) eqn:Hnone.
  { destruct head, tail; try done. apply runs_bind.
    eapply runs_mono; [by apply runs_allocate_pages| |done|].
    - unfold guards_of. rewrite Z.add_0_r. tauto.
    - intros ps rs' (? & ? & ? & ?). apply runs_ret. cbn. split_and!; try done; by rewrite is_Some_alt. }
  apply runs_bind, runs_lift. rewrite guarded_size_spec by done.
  destruct (Z.leb_spec (SIZE S * count + guards_of head tail) u64_max) as [Hfit|]; [|by right].
  set (size := SIZE S * count + guards_of head tail) in *.
  assert (0 < size) as Hpos by (unfold size, guards_of; destruct head, tail; try done; lia).
  assert (page_aligned size) as Hsa.
  { apply aligned_add; [rewrite Z.mul_comm; apply aligned_mul, SIZE_aligned|by destruct head, tail]. }
  apply runs_bind. destruct (decide (head = true → S = Size4KiB)) as [Hh|Hh].
  2: { apply runs_on_ranges. rewrite allocate_bad_align by by rewrite guarded_align_ones. done. }
  eapply runs_mono; [apply (runs_allocate size (guarded_align S head) (λ _ _, False)
    (λ o rs', runs (start ← lift (match o with None => mret None | Some s => s ← VirtAddr_new s; mret (Some s) end);
          start ← lift (ok_or OutOfPages start); lift (split_guarded S count start head tail))
       (may_panic (2 ^ 47) rs ∨ u64_max < size) (λ e, no_change e rs)
       (λ g rs', (head = true → S = Size4KiB) ∧ (is_Some (head_guard g) ↔ head = true) ∧
         (is_Some (tail_guard g) ↔ tail = true) ∧ page_size (pages g) = S ∧ page_count (pages g) = count ∧
         wf_pages (pages g) ∧ takes (guarded_areas g) rs rs') rs'))|by left; left|done|done].
  all: try done.
  - unfold is_u64. lia.
  - destruct S, head; unfold guarded_align, is_u64, u64_max; cbn; lia.
  - intros ptr rs' Hal Hok' _ Ht. apply runs_bind, runs_lift.
    destruct (block_address (E:=MemError) _ _ _ _ _ ptr Hok Hal Hpos) as [->|[-> Hp]]; [lia| |by left].
    cbn [mbind result_bind mret result_ret]. apply runs_bind, runs_lift. cbn [ok_or]. apply runs_lift.
    destruct (split_guarded_spec S count rs rs' ptr head tail) as [->|[-> ?]]; try done;
      [unfold size, guards_of in Hfit; destruct head, tail; lia| |by left].
    destruct Hal as (Hmod & _).
    assert (page_aligned ptr) as Hpa.
    { destruct head; [|by apply (SIZE_mod S)]. rewrite (Hh eq_refl) in Hmod. done. }
    specialize (Ht Hpa). split_and!; try done.
    + destruct head; cbn; rewrite is_Some_alt; naive_solver.
    + destruct tail; cbn; rewrite is_Some_alt; naive_solver.
    + split; [|done]. cbn. destruct head; cbn; [|by rewrite Z.add_0_r].
      rewrite (Hh eq_refl) in *. by apply aligned_add.
    + pose proof (tk_areas _ _ _ Ht) as [Hao _]%Forall_cons. eapply takes_weaken; [done| |].
      * by apply guarded_at_ok.
      * intros q Hq. apply guarded_at_areas in Hq; [|done]. by left.
Qed.

(** *** Taking a given page, and giving pages back *)

Lemma page_range_ok S p : 0 ≤ p → p + SIZE S ≤ u64_max + 1 → page_range S p = Ok (mkRange p (p + SIZE S - 1)).
Proof.
  intros Hp He. pose proof (SIZE_bounds S). unfold page_range. rewrite add_u64_ok by lia. cbn.
  by replace (p + (SIZE S - 1)) with (p + SIZE S - 1) by lia.
Qed.

Lemma page_area_ok S p : p mod SIZE S = 0 → 0 ≤ p → p + SIZE S ≤ u64_max + 1 → area_ok (p, SIZE S).
Proof.
  intros Hm Hp He. pose proof (SIZE_bounds S). unfold area_ok. cbn.
  split_and!; try done; [by eapply SIZE_mod|apply SIZE_aligned|lia].
Qed.

(** An entry contains the whole page. *)
Definition page_in_entry (S : PageSize) (p : Page) (rs : RangeSet) : Prop :=
  Exists (sub_range (mkRange p (p + SIZE S - 1))) (RangeSet_entries rs).

Lemma runs_try_allocate_page S p rs :
  RangeSet_ok rs → p mod SIZE S = 0 → 0 ≤ p → p + SIZE S ≤ u64_max + 1 →
  runs (try_allocate_page S p) (room rs = 0%nat)
    (λ e rs', rs' = rs ∧ ((p = 0 ∧ e = NullAddress) ∨ (p ≠ 0 ∧ ¬ page_in_entry S p rs ∧ e = PageInUse)))
    (λ _ rs', p ≠ 0 ∧ page_in_entry S p rs ∧ takes [(p, SIZE S)] rs rs' ∧
       ∀ q, page_free rs' q ↔ page_free rs q ∧ ¬ in_area q (p, SIZE S)) rs.
Proof.
  intros Hok Hm Hp He. pose proof (SIZE_bounds S). pose proof (page_area_ok S p Hm Hp He) as Ha.
  unfold try_allocate_page.
  destruct (Z.eqb_spec p 0) as [->|Hnz]; [split; [done|by left]|].
  apply runs_bind. eapply runs_lift_Ok; [by apply page_range_ok|]. apply runs_bind, runs_on_ranges.
  destruct (remove_if_exist_cases (E:=MemError) rs (mkRange p (p + SIZE S - 1)) Hok)
    as [[-> Hroom]|(b & rs' & -> & Hok' & Hfalse & Hex & Htrue)];
    [unfold range_ok; cbn; lia|cbn; lia|done|].
  destruct b; [|split; [by apply Hfalse|right; split; [done|split; [|done]]]].
  2: { intros Hin. by apply Hex in Hin. }
  destruct (Htrue eq_refl) as [Hsub Hcov]. cbn in Hcov. clear Htrue Hfalse.
  assert (page_in_entry S p rs) as Hin by by apply Hex.
  assert (∀ q, page_free rs' q ↔ page_free rs q ∧ ¬ in_area q (p, SIZE S)) as Hfree.
  { intros q. unfold page_free. split.
    - intros [Hq Hf]. split; [split; [done|]; intros x Hx; by apply Hsub, Hf|].
      intros Hqin. pose proof (area_page _ _ Hq Ha Hqin) as Hqe. destruct Hqin as [Hq1 Hq2]. cbn in *.
      assert (covers (RangeSet_entries rs') (q + 1)) as Hcq by (apply Hf; lia).
      apply Hcov in Hcq as [_ Hn]; [|lia].
      apply Hn. unfold elem_of, in_range_elem_of, in_range. cbn. lia.
    - intros [[Hq Hf] Hnin]. split; [done|]. intros x Hx.
      assert (¬ (p ≤ x < p + SIZE S)) as Hxout.
      { intros Hxin. apply Hnin. by eapply (page_in_area q (p, SIZE S) x). }
      apply Hcov; [lia|]. split; [by apply Hf|]. unfold elem_of, in_range_elem_of, in_range. cbn. lia. }
  unfold runs. cbn. split; [done|]. split; [done|]. split; [|done]. split; [done|by constructor| |].
  - intros q Hq [Hqin|Hn]%Exists_cons; [|by apply Exists_nil in Hn].
    split; [|intros [_ Hn]%Hfree; done]. split; [done|]. intros x Hx.
    pose proof (area_page _ _ Hq Ha Hqin). destruct Hqin as [Hq1 Hq2]. cbn in *.
    apply Exists_exists in Hin as (e & Hein & Hs1 & Hs2). apply Exists_exists. exists e. split; [done|].
    unfold in_range. cbn in *. lia.
  - intros q [Hq _]%Hfree. done.
Qed.

Lemma runs_free_page S p err rs :
  RangeSet_ok rs → p mod SIZE S = 0 → 0 ≤ p → p + SIZE S ≤ u64_max + 1 →
  runs (free_page S p) (room rs = 0%nat) err (λ _ rs', gives [(p, SIZE S)] rs rs') rs.
Proof.
  intros Hok Hm Hp He. pose proof (SIZE_bounds S). unfold free_page. apply runs_bind.
  eapply runs_lift_Ok; [by apply page_range_ok|]. apply runs_insert; [done|by apply page_area_ok|lia|done].
Qed.

(** The pages that the iterator still has to give *)
Definition rest_areas (it : PagesIter) : list area :=
  let ps := pi_pages it in
  [(first_page ps + index it * SIZE (page_size ps), (page_count ps - index it) * SIZE (page_size ps))].

Definition pages_fit (ps : Pages) : Prop :=
  wf_pages ps ∧ 0 ≤ first_page ps ∧ first_page ps + SIZE (page_size ps) * page_count ps ≤ u64_max + 1.

Lemma runs_free_pages_loop ps err n : ∀ i rs,
  RangeSet_ok rs → pages_fit ps → 0 ≤ i ≤ page_count ps → (Z.to_nat (page_count ps - i) < n)%nat →
  runs (free_pages_loop n (mkPagesIter ps i)) True err
    (λ _ rs', gives (rest_areas (mkPagesIter ps i)) rs rs') rs.
Proof.
  induction n as [|n IH]; intros i rs Hok Hfit Hi Hn; [lia|].
  pose proof Hfit as ([Hm Hc] & Hp & He). pose proof (SIZE_bounds (page_size ps)) as Hsz.
  cbn [free_pages_loop]. apply runs_bind, runs_lift. unfold PagesIter_next. cbn [pi_pages index].
  destruct (Z.geb_spec i (page_count ps)) as [Hge|Hlt].
  - cbn. split; [done|]. intros q. unfold in_areas, rest_areas, in_area. cbn.
    rewrite Exists_cons, Exists_nil. cbn. split; [by left|]. intros [?|[_ [Hin|[]]]]; [done|].
    exfalso. nia.
  - assert (i * SIZE (page_size ps) ≤ SIZE (page_size ps) * page_count ps - SIZE (page_size ps)) as Hb by nia.
    assert (0 ≤ i * SIZE (page_size ps)) by nia.
    unfold Page_add, mul_u64. rewrite (proj2 (Z.leb_le _ _)) by lia. cbn [mbind result_bind].
    unfold VirtAddr_add. rewrite (add_u64_ok (first_page ps)) by lia. cbn [mbind result_bind].
    destruct (VirtAddr_new_cases (E:=MemError) (first_page ps + i * SIZE (page_size ps))) as [->| ->]; [|done].
    cbn [mbind result_bind]. rewrite add_u64_ok.
    2: { unfold u64_max in *. nia. }
    cbn [mbind result_bind mret result_ret pi_pages]. apply runs_bind.
    set (p := first_page ps + i * SIZE (page_size ps)) in *.
    assert (p mod SIZE (page_size ps) = 0) as Hpm.
    { unfold p. rewrite Z.mod_add by lia. done. }
    eapply runs_mono; [apply (runs_free_page (page_size ps) p err rs Hok Hpm); unfold p; lia|done|done|].
    intros [] rs1 Hg1. eapply runs_mono; [apply (IH (i + 1) rs1)|done|done|].
    + by apply (gv_ok _ _ _ Hg1).
    + done.
    + lia.
    + lia.
    + intros [] rs2 Hg2. pose proof (gives_app _ _ _ _ _ Hg1 Hg2) as [Hok2 Hg]. split; [done|].
      intros q. rewrite Hg. unfold in_areas, rest_areas, in_area. cbn. rewrite !Exists_cons, !Exists_nil. cbn.
      assert (p ≤ q < p + SIZE (page_size ps) ∨
        (first_page ps + (i + 1) * SIZE (page_size ps) ≤ q < first_page ps + (i + 1) * SIZE (page_size ps) +
          (page_count ps - (i + 1)) * SIZE (page_size ps)) ↔
        p ≤ q < p + (page_count ps - i) * SIZE (page_size ps)) as Hpq by (unfold p; nia).
      tauto.
Qed.

Lemma runs_free_pages ps err rs :
  RangeSet_ok rs → pages_fit ps →
  runs (free_pages ps) True err (λ _ rs', gives [pages_area ps] rs rs') rs.
Proof.
  intros Hok Hfit. pose proof Hfit as ([Hm Hc] & Hp & He). unfold free_pages, Pages_iter.
  eapply runs_mono; [apply (runs_free_pages_loop ps err); [done|done|lia|lia]|done|done|].
  intros [] rs' Hg. unfold rest_areas in Hg. cbn in Hg. rewrite Z.add_0_r, Z.sub_0_r, Z.mul_comm in Hg. done.
Qed.

Lemma runs_free_guard g err rs :
  RangeSet_ok rs → Forall area_ok (guard_area g) →
  runs (match g with Some guard => free_page Size4KiB guard | None => mret tt end) True err
    (λ _ rs', gives (guard_area g) rs rs') rs.
Proof.
  intros Hok Hg. destruct g as [p|]; [|by apply gives_nil].
  apply Forall_cons in Hg as [(H1 & _ & H3 & _ & H5) _]. cbn in *.
  eapply runs_mono; [by apply (runs_free_page Size4KiB p)|done|done|done].
Qed.

Lemma runs_free_guarded g err rs :
  RangeSet_ok rs → pages_fit (pages g) → Forall area_ok (guarded_areas g) →
  runs (free_guarded_pages g) True err (λ _ rs', gives (guarded_areas g) rs rs') rs.
Proof.
  intros Hok Hfit Ha. unfold guarded_areas in *. apply Forall_app in Ha as [Hh [_ Ht]%Forall_app].
  unfold free_guarded_pages. apply runs_bind. eapply runs_mono; [by apply runs_free_pages|done|done|].
  intros [] rs1 Hg1. apply runs_bind. pose proof (gv_ok _ _ _ Hg1).
  eapply runs_mono; [by apply runs_free_guard|done|done|]. intros [] rs2 Hg2. pose proof (gv_ok _ _ _ Hg2).
  eapply runs_mono; [by apply runs_free_guard|done|done|]. intros [] rs3 Hg3.
  pose proof (gives_app _ _ _ _ _ (gives_app _ _ _ _ _ Hg1 Hg2) Hg3) as [Hok3 Hg]. split; [done|].
  intros q. rewrite Hg. unfold in_areas. rewrite !Exists_app. tauto.
Qed.
End pages.

(** ** The frame allocator *)

Section frames.
Context `{AD : Addresses}.

Lemma runs_frame_of {E} S o (err : E → RangeSet → Prop) (post : option PhysFrame → RangeSet → Prop) rs :
  match o with Some p => p mod SIZE S = 0 | None => True end → post o rs →
  runs (lift (frame_of S o)) True err post rs.
Proof.
  intros Ho Hpost. apply runs_lift. destruct o as [p|]; [|done]. cbn.
  destruct (PhysAddr_new_cases (E:=E) p) as [->| ->]; [|done]. cbn.
  unfold from_start_address. by rewrite Ho.
Qed.

Lemma runs_frame_alloc S rs :
  RangeSet_ok rs →
  runs (FrameAllocator_alloc S) True (λ e rs', e = OutOfMemory ∧ rs' = rs)
    (λ f rs', f mod SIZE S = 0 ∧ takes [(f, SIZE S)] rs rs') rs.
Proof.
  intros Hok. unfold FrameAllocator_alloc, PhysAllocator_alloc. apply runs_bind, runs_bind.
  eapply runs_mono; [apply (runs_allocate (SIZE S) (SIZE S) (λ _ _, False)
    (λ o rs', (o = None → rs' = rs) ∧ ∀ p, o = Some p → p mod SIZE S = 0 ∧ takes [(p, SIZE S)] rs rs'))|done|done|].
  1-3: first [done|apply SIZE_u64]. 1: apply SIZE_aligned.
  - done.
  - intros ptr rs' (Hmod & _) _ _ Ht. split; [done|]. intros p [= <-]. split; [done|]. by apply Ht, (SIZE_mod S).
  - intros o rs' [Hn Hs]. apply runs_frame_of; [destruct o; [by apply Hs|done]|].
    apply runs_lift. destruct o; cbn; [by apply Hs|]. split; [done|by apply Hn].
Qed.

Lemma runs_frame_alloc_range S count rs :
  RangeSet_ok rs → 0 < count →
  runs (FrameAllocator_alloc_range S count) True (λ e rs', e = OutOfMemory ∧ rs' = rs)
    (λ fs rs', fs.1 mod SIZE S = 0 ∧ fs.2 = fs.1 + (count - 1) * SIZE S ∧
       takes [(fs.1, SIZE S * count)] rs rs') rs.
Proof.
  intros Hok Hc. pose proof (SIZE_bounds S). unfold FrameAllocator_alloc_range, PhysAllocator_alloc_range.
  apply runs_bind, runs_bind, runs_assert; [|done]. intros _. apply runs_bind, runs_lift.
  unfold mul_u64 at 1. destruct (Z.leb_spec (SIZE S * count) u64_max) as [Hfit|]; [|done]. apply runs_bind.
  eapply runs_mono; [apply (runs_allocate (SIZE S * count) (SIZE S) (λ _ _, False)
    (λ o rs', (o = None → rs' = rs) ∧
       ∀ p, o = Some p → p mod SIZE S = 0 ∧ takes [(p, SIZE S * count)] rs rs'))|done|done|].
  1-4: first [done|apply SIZE_u64|unfold is_u64; nia|rewrite Z.mul_comm; apply aligned_mul, SIZE_aligned].
  - done.
  - intros ptr rs' (Hmod & _) _ _ Ht. split; [done|]. intros p [= <-]. split; [done|]. by apply Ht, (SIZE_mod S).
  - intros o rs' [Hn Hs]. apply runs_bind, runs_frame_of; [destruct o; [by apply Hs|done]|].
    destruct o as [p|].
    2: { apply runs_ret, runs_lift. cbn. split; [done|by apply Hn]. }
    destruct (Hs p eq_refl) as [Hm Ht]. pose proof (tk_areas _ _ _ Ht) as [(_ & _ & Hp & _ & He) _]%Forall_cons.
    cbn in Hp, He. apply runs_bind, runs_lift. unfold mul_u64.
    assert (0 ≤ (count - 1) * SIZE S ∧ (count - 1) * SIZE S + SIZE S = SIZE S * count) as [Ho1 Ho2] by nia.
    rewrite (proj2 (Z.leb_le _ _)) by lia. apply runs_bind, runs_lift. rewrite add_u64_ok by lia. cbn.
    destruct (PhysAddr_new_cases (E:=MemError) (p + (count - 1) * SIZE S)) as [->| ->]; [|done].
    unfold runs. cbn. by split_and!.
Qed.

Lemma runs_frame_free S f err rs :
  RangeSet_ok rs → f mod SIZE S = 0 → 0 ≤ f → f + SIZE S ≤ u64_max + 1 →
  runs (FrameAllocator_free S f) True err (λ _ rs', gives [(f, SIZE S)] rs rs') rs.
Proof.
  intros Hok Hm Hp He. pose proof (SIZE_bounds S). unfold FrameAllocator_free, PhysAllocator_free.
  apply runs_bind, runs_lift. unfold add_u64. destruct (Z.leb_spec (f + SIZE S) u64_max); [|done]. cbn.
  rewrite sub_u64_ok by lia.
  eapply runs_mono; [apply (runs_insert f (SIZE S) err (λ _ rs', gives [(f, SIZE S)] rs rs'));
    [done|by apply page_area_ok|lia|done]|done|done|done].
Qed.
End frames.

(** ** Holding allocations *)

Inductive allocator := Frames | VirtualPages.

Inductive held :=
  | HeldPage (S : PageSize) (p : Page)
  | HeldPages (ps : Pages)
  | HeldGuarded (g : GuardedPages).

Definition areas (h : held) : list area :=
  match h with
  | HeldPage sz p => [(p, SIZE sz)]
  | HeldPages ps => [pages_area ps]
  | HeldGuarded g => guarded_areas g
  end.
Definition owns (h : held) (q : Page) : Prop := page_aligned q ∧ in_areas q (areas h).

Section clients.
Context `{AD : Addresses}.
Local Abbreviation M := (M RangeSet MemError).

(** The calls that take memory, *)
Inductive taking : allocator → M held → Prop :=
  | take_frame S : taking Frames (f ← FrameAllocator_alloc S; mret (HeldPage S f))
  | take_frames S count : 0 < count →
      taking Frames (fs ← FrameAllocator_alloc_range S count; mret (HeldPages (mkPages S fs.1 count)))
  | take_page S : taking VirtualPages (p ← allocate_page S; mret (HeldPage S p))
  | take_given S p : p mod SIZE S = 0 → 0 ≤ p → p + SIZE S ≤ u64_max + 1 →
      taking VirtualPages (_ ← try_allocate_page S p; mret (HeldPage S p))
  | take_pages S count : 0 ≤ count →
      taking VirtualPages (ps ← allocate_pages S count; mret (HeldPages ps))
  | take_guarded S count head tail : 0 ≤ count →
      taking VirtualPages (g ← allocate_guarded_pages S count head tail; mret (HeldGuarded g)).

(** and those that give it back *)
Inductive giving : allocator → held → M unit → Prop :=
  | give_frame S f : giving Frames (HeldPage S f) (FrameAllocator_free S f)
  | give_page S p : giving VirtualPages (HeldPage S p) (free_page S p)
  | give_pages ps : giving VirtualPages (HeldPages ps) (free_pages ps)
  | give_guarded g : giving VirtualPages (HeldGuarded g) (free_guarded_pages g).

(** Any order of calls, where only what is held is given back *)
Inductive step (k : allocator) : RangeSet * list held → RangeSet * list held → Prop :=
  | step_take m rs rs' h l : taking k m → m rs = (Ok h, rs') → step k (rs, l) (rs', h :: l)
  | step_fail m rs rs' e l : taking k m → m rs = (Err e, rs') → step k (rs, l) (rs', l)
  | step_give h m rs rs' l1 l2 : giving k h m → m rs = (Ok tt, rs') →
      step k (rs, l1 ++ h :: l2) (rs', l1 ++ l2).

Definition held_ok (h : held) : Prop :=
  Forall area_ok (areas h) ∧
  match h with
  | HeldPage sz p => p mod SIZE sz = 0
  | HeldPages ps => wf_pages ps
  | HeldGuarded g => wf_pages (pages g)
  end.

Lemma taking_spec k m rs :
  taking k m → RangeSet_ok rs →
  runs m True (λ _ rs', rs' = rs) (λ h rs', held_ok h ∧ takes (areas h) rs rs') rs.
Proof.
  intros Hm Hok. destruct Hm; apply runs_bind.
  - eapply runs_mono; [by apply runs_frame_alloc|done|by intros ? ? []|]. intros f rs' [Hmod Ht].
    apply runs_ret. split; [split; [apply (tk_areas _ _ _ Ht)|done]|done].
  - eapply runs_mono; [by apply runs_frame_alloc_range|done|by intros ? ? []|]. intros fs rs' (Hmod & _ & Ht).
    apply runs_ret. split; [split; [apply (tk_areas _ _ _ Ht)|split; [done|cbn; lia]]|done].
  - eapply runs_mono; [by apply runs_allocate_page|done|by intros ? ? []|]. intros p rs' [Hmod Ht].
    apply runs_ret. split; [split; [apply (tk_areas _ _ _ Ht)|done]|done].
  - eapply runs_mono; [by apply runs_try_allocate_page|done|by intros ? ? []|]. intros [] rs' (_ & _ & Ht & _).
    apply runs_ret. split; [split; [apply (tk_areas _ _ _ Ht)|done]|done].
  - eapply runs_mono; [by apply runs_allocate_pages|done|by intros ? ? []|]. intros ps rs' (_ & _ & Hwf & Ht).
    apply runs_ret. split; [split; [apply (tk_areas _ _ _ Ht)|done]|done].
  - eapply runs_mono; [by apply runs_allocate_guarded|done|by intros ? ? []|].
    intros g rs' (_ & _ & _ & _ & _ & Hwf & Ht).
    apply runs_ret. split; [split; [apply (tk_areas _ _ _ Ht)|done]|done].
Qed.

Lemma pages_fit_area ps l : wf_pages ps → pages_area ps ∈ l → Forall area_ok l → pages_fit ps.
Proof.
  intros Hwf Hin Hl. rewrite Forall_forall in Hl. destruct (Hl _ Hin) as (_ & _ & ? & _ & ?).
  split; [done|]. done.
Qed.

Lemma giving_spec k h m rs :
  giving k h m → held_ok h → RangeSet_ok rs →
  runs m True (λ _ _, True) (λ _ rs', gives (areas h) rs rs') rs.
Proof.
  intros Hm [Ha Hwf] Hok. destruct Hm.
  - apply Forall_cons in Ha as [(_ & _ & H3 & _ & H5) _]. by apply runs_frame_free.
  - apply Forall_cons in Ha as [(_ & _ & H3 & _ & H5) _]. eapply runs_mono; [by apply (runs_free_page _ _ (λ _ _, True))|done..].
  - apply runs_free_pages; [done|]. eapply pages_fit_area; [done| |done]. left.
  - apply runs_free_guarded; [done| |done]. eapply pages_fit_area; [done| |done].
    unfold guarded_areas. set_solver.
Qed.

(** What is held was free at the start, is not free now, and is held once. *)
Record exclusive (rs0 : RangeSet) (s : RangeSet * list held) : Prop := {
  ex_ok : RangeSet_ok s.1;
  ex_held : Forall held_ok s.2;
  ex_free q : page_free s.1 q → page_free rs0 q;
  ex_owned h q : h ∈ s.2 → owns h q → page_free rs0 q ∧ ¬ page_free s.1 q;
  ex_once i j h h' q : s.2 !! i = Some h → s.2 !! j = Some h' → owns h q → owns h' q → i = j;
}.

Lemma step_exclusive k rs0 s s' : step k s s' → exclusive rs0 s → exclusive rs0 s'.
Proof.
  intros Hstep [Hok Hheld Hfree Howned Honce].
  destruct Hstep as [m rs rs' h l Hm Hrun|m rs rs' e l Hm Hrun|h m rs rs' l1 l2 Hm Hrun]; cbn [fst snd] in *.
  - pose proof (taking_spec _ _ _ Hm Hok) as Hs. unfold runs in Hs. rewrite Hrun in Hs.
    destruct Hs as [Hh [Hok' _ Htake Hrest]]. split; cbn; [done|by constructor|by intros q ?%Hrest%Hfree| |].
    + intros h' q Hin Hown. apply elem_of_cons in Hin as [->|Hin].
      * destruct Hown as [Hq Ha]. destruct (Htake q Hq Ha) as [Hf Hn]. split; [by apply Hfree|done].
      * destruct (Howned h' q Hin Hown) as [Hf Hn]. split; [done|]. intros Hq. by apply Hn, Hrest.
    + assert (∀ j h' q, l !! j = Some h' → owns h q → ¬ owns h' q) as Hnew.
      { intros j h' q Hj [Hq Ha] Hown'. apply list_elem_of_lookup_2 in Hj.
        apply (Howned h' q Hj Hown'), (Htake q Hq Ha). }
      intros [|i] [|j] h1 h2 q Hi Hj H1 H2; cbn in *; simplify_eq; [done| | |f_equal; by eapply Honce].
      * by destruct (Hnew _ _ _ Hj H1).
      * by destruct (Hnew _ _ _ Hi H2).
  - pose proof (taking_spec _ _ _ Hm Hok) as Hs. unfold runs in Hs. rewrite Hrun in Hs. by subst rs'.
  - assert (∀ h', h' ∈ l1 ++ l2 → h' ∈ l1 ++ h :: l2) as Hin by set_solver.
    assert (held_ok h) as Hh by (rewrite Forall_forall in Hheld; apply Hheld; set_solver).
    pose proof (giving_spec _ _ _ _ Hm Hh Hok) as Hs. unfold runs in Hs. rewrite Hrun in Hs.
    destruct Hs as [Hok' Hgive].
    assert (∀ i h', (l1 ++ l2) !! i = Some h' → ∃ j, (l1 ++ h :: l2) !! j = Some h' ∧
      j = if decide (i < length l1)%nat then i else S i) as Hmove.
    { intros i h' Hi. eexists. split; [|done]. case_decide as Hlt.
      - rewrite lookup_app_l in Hi by done. by rewrite lookup_app_l.
      - rewrite lookup_app_r in Hi by lia. rewrite lookup_app_r by lia.
        by replace (S i - length l1)%nat with (S (i - length l1)) by lia. }
    split; cbn; [done| | | |].
    + rewrite Forall_app, Forall_cons in *. tauto.
    + intros q [Hq|Hq]%Hgive; [by apply Hfree|]. eapply proj1, Howned; [|exact Hq]. set_solver.
    + intros h' q Hh' Hown. destruct (Howned h' q (Hin _ Hh') Hown) as [Hf Hn]. split; [done|].
      intros [Hq|Hq]%Hgive; [done|]. apply list_elem_of_lookup in Hh' as [i Hi].
      destruct (Hmove _ _ Hi) as (j & Hj & Hji).
      assert (j = length l1) as Hjl.
      { eapply Honce; [exact Hj| |exact Hown|exact Hq]. by rewrite list_lookup_middle. }
      case_decide; lia.
    + intros i j h1 h2 q Hi Hj H1 H2. destruct (Hmove _ _ Hi) as (i' & Hi' & ->), (Hmove _ _ Hj) as (j' & Hj' & ->).
      specialize (Honce _ _ _ _ _ Hi' Hj' H1 H2). repeat case_decide; lia.
Qed.

(** C27: However the calls of an allocator follow each other, with every size and with
    guard pages, no page is in two allocations at a time, no page that is in an
    allocation is free, and only pages that were free at the start are handed out. *)
Theorem allocators_exclusive (k : allocator) (rs0 : RangeSet) (s : RangeSet * list held) :
  RangeSet_ok rs0 → rtc (step k) (rs0, []) s → exclusive rs0 s.
Proof.
  intros Hok Hrun. assert (exclusive rs0 (rs0, [])) as Hinit.
  { split; cbn; [done|done|done|intros; set_solver|done]. }
  clear Hok. induction Hrun as [s|s1 s2 s3 Hstep _ IH]; [done|]. apply IH. by eapply step_exclusive.
Qed.

(** [allocate_guarded_pages] on every branch. The guards lie directly before and
    behind the pages; it fails only with [OutOfPages] and then changes nothing. For
    huge pages with a guard in front it always fails, as it asks for an alignment
    that is not a power of two. *)
Theorem allocate_guarded_pages_spec (S : PageSize) (count : Z) (head tail : bool) (rs : RangeSet) :
  RangeSet_ok rs → 0 ≤ count → SIZE S * count + guards_of head tail ≤ u64_max →
  runs (allocate_guarded_pages S count head tail) (may_panic (2 ^ 47) rs) (λ e, no_change e rs)
    (λ g rs', (is_Some (head_guard g) ↔ head = true) ∧ (is_Some (tail_guard g) ↔ tail = true) ∧
       page_size (pages g) = S ∧ page_count (pages g) = count ∧ wf_pages (pages g) ∧
       takes (guarded_areas g) rs rs') rs ∧
  (head = true → S ≠ Size4KiB → allocate_guarded_pages S count head tail rs = (Err OutOfPages, rs)).
Proof.
  intros Hok Hc Hfit. pose proof (runs_allocate_guarded S count head tail rs Hok Hc) as Hr. split.
  - eapply runs_mono; [exact Hr|intros [?|?]; [done|lia]|done|]. intros g rs' (_ & ?). done.
  - intros -> HS. unfold allocate_guarded_pages. cbn [negb andb]. rewrite run_bind. unfold lift.
    rewrite guarded_size_spec by done. rewrite (proj2 (Z.leb_le _ _)) by done. rewrite run_bind.
    unfold on_ranges. rewrite allocate_bad_align; [done|]. rewrite guarded_align_ones. naive_solver.
Qed.

(** [try_allocate_page] succeeds exactly for a page other than the first that lies
    in one free range, and takes this page and no other; otherwise nothing changes
    and the error says why. *)
Theorem try_allocate_page_spec (S : PageSize) (p : Page) (rs : RangeSet) :
  RangeSet_ok rs → p mod SIZE S = 0 → 0 ≤ p → p + SIZE S ≤ u64_max + 1 →
  runs (try_allocate_page S p) (room rs = 0%nat)
    (λ e rs', rs' = rs ∧ ((p = 0 ∧ e = NullAddress) ∨ (p ≠ 0 ∧ ¬ page_in_entry S p rs ∧ e = PageInUse)))
    (λ _ rs', p ≠ 0 ∧ page_in_entry S p rs ∧ RangeSet_ok rs' ∧
       ∀ q, page_free rs' q ↔ page_free rs q ∧ ¬ in_area q (p, SIZE S)) rs.
Proof.
  intros Hok Hm Hp He. eapply runs_mono; [by apply runs_try_allocate_page|done|done|].
  intros [] rs' (? & ? & Ht & ?). split_and!; try done. apply (tk_ok _ _ _ Ht).
Qed.

(** *** Initialisation of the frame allocator *)

Definition region_ok (r : MemoryRegion) : Prop := is_u64 (region_start r) ∧ is_u64 (region_end r).
Definition usable_at (regions : list MemoryRegion) (x : Z) : Prop :=
  Exists (λ r, usable r = true ∧ region_start r ≤ x < region_end r) regions.

Lemma runs_insert_usable regions err : ∀ rs,
  RangeSet_ok rs → Forall region_ok regions →
  runs (insert_usable regions) True err
    (λ _ rs', RangeSet_ok rs' ∧
       ∀ x, covers (RangeSet_entries rs') x ↔ covers (RangeSet_entries rs) x ∨ usable_at regions x) rs.
Proof.
  induction regions as [|r regions IH]; intros rs Hok Hr; cbn [insert_usable].
  { apply runs_ret. split; [done|]. intros x. unfold usable_at. rewrite Exists_nil. tauto. }
  apply Forall_cons in Hr as [[[? ?] [? ?]] Hr]. apply runs_bind. destruct (usable r) eqn:Hu.
  - apply runs_bind, runs_lift. unfold sub_u64. destruct (Z.leb_spec 1 (region_end r)); [|done].
    apply runs_on_ranges. destruct (Z.leb_spec (region_start r) (region_end r - 1)) as [Hle|Hgt].
    2: { unfold RangeSet_insert, assert_. cbn [start end_]. by rewrite (proj2 (Z.leb_gt _ _)). }
    destruct (insert_cases (E:=MemError) rs (mkRange (region_start r) (region_end r - 1)) Hok)
      as [[-> _]|(rs' & -> & Hok' & _ & Hc)]; [unfold range_ok; cbn; lia|done|]. cbn.
    eapply runs_mono; [by apply IH|done|done|]. intros [] rs2 [Hok2 Hc2]. split; [done|].
    intros x. rewrite Hc2, Hc. unfold usable_at. rewrite Exists_cons, Hu.
    unfold elem_of, in_range_elem_of, in_range. cbn.
    assert (region_start r ≤ x ≤ region_end r - 1 ↔ region_start r ≤ x < region_end r) as -> by lia. tauto.
  - apply runs_ret. eapply runs_mono; [by apply IH|done|done|]. intros [] rs2 [Hok2 Hc2]. split; [done|].
    intros x. rewrite Hc2. unfold usable_at. rewrite Exists_cons, Hu. naive_solver.
Qed.

Lemma RangeSet_new_ok {E} N : (N ≤ 256)%nat →
  ∃ rs, RangeSet_new (E:=E) N = Ok rs ∧ RangeSet_ok rs ∧ ∀ x, ¬ covers (RangeSet_entries rs) x.
Proof.
  intros HN. eexists. unfold RangeSet_new, assert_, u32_max. rewrite (proj2 (Z.leb_le _ _)) by lia.
  split; [done|]. unfold RangeSet_ok, RangeSet_entries. cbn. split; [split; [lia|done]|].
  intros x Hx. by apply Exists_nil in Hx.
Qed.

(** The trampoline: the only frame in the range that is asked for *)
Lemma runs_reserve_phys_frames err rs :
  RangeSet_ok rs →
  runs (reserve_phys_frames false) True err
    (λ f rs', f = TRAMPOLINE_ADDR ∧ page_free rs f ∧ RangeSet_ok rs' ∧
       ∀ x, covers (RangeSet_entries rs') x ↔ covers (RangeSet_entries rs) x ∧ ¬ (f ≤ x < f + 4096)) rs.
Proof.
  intros Hok. unfold reserve_phys_frames. apply runs_bind, runs_ret, runs_bind.
  destruct (RangeSet_new_ok (E:=MemError) 256) as (b0 & Hb0 & Hok0 & Hc0); [lia|].
  eapply runs_lift_Ok; [exact Hb0|]. apply runs_bind, runs_lift.
  destruct (insert_cases (E:=MemError) b0 (mkRange TRAMPOLINE_ADDR (TRAMPOLINE_ADDR + SIZE Size4KiB)) Hok0)
    as [[-> _]|(b & -> & Hokb & _ & Hcb)]; [unfold range_ok, u64_max, TRAMPOLINE_ADDR; cbn; lia|done|].
  apply runs_bind. unfold PhysAllocator_alloc_in_range. apply runs_bind, runs_on_ranges.
  destruct (allocate_cases (E:=MemError) rs 4096 4096 (Forced b) Hok) as [[Hp _]|(o & rs' & Heq & Hok' & _ & Ho)];
    [unfold is_u64, u64_max; lia|unfold is_u64, u64_max; lia|done| |]; cbn [SIZE]; [by rewrite Hp|].
  rewrite Heq. destruct o as [f|]; [|by subst rs'].
  destruct Ho as (Hmod & Hblock & Hsub & (g & Hg & Hg1 & Hg2) & Hexact).
  assert (∀ x, start g ≤ x ≤ end_ g → TRAMPOLINE_ADDR ≤ x ≤ TRAMPOLINE_ADDR + 4096) as Hin.
  { intros x Hx. assert (covers (RangeSet_entries b) x) as Hcx by (apply Exists_exists; by exists g).
    apply Hcb in Hcx as [Hcx|Hcx]; [by apply Hc0 in Hcx|done]. }
  assert (f = TRAMPOLINE_ADDR) as Hf.
  { pose proof (Hin f ltac:(lia)). pose proof (Hin (f + 4096 - 1) ltac:(lia)). unfold TRAMPOLINE_ADDR in *.
    Z.to_euclidean_division_equations. lia. }
  apply runs_frame_of; [done|]. apply runs_ret. split; [done|]. split; [|split; [done|]].
  - split; [done|]. intros x Hx. by apply Hblock.
  - intros x. split.
    + intros Hx. split; [by apply Hsub|]. intros Hxf. by apply (Hblock x Hxf).
    + intros [Hx Hnx]. destruct (Hexact x Hx); [done|]. tauto.
Qed.

(** [init] of the frame allocator. Whatever the boot loader reports, when [init]
    returns the frame of the trampoline was usable, and the free addresses are the
    usable ones without it. *)
Theorem frame_allocator_init_spec (regions : list MemoryRegion) (rs : RangeSet) :
  Forall region_ok regions →
  runs (frame_allocator_init regions) True (λ _ _, False)
    (λ _ rs', RangeSet_ok rs' ∧
       (∀ x, TRAMPOLINE_ADDR ≤ x < TRAMPOLINE_ADDR + 4096 → usable_at regions x) ∧
       ∀ x, covers (RangeSet_entries rs') x ↔
         usable_at regions x ∧ ¬ (TRAMPOLINE_ADDR ≤ x < TRAMPOLINE_ADDR + 4096)) rs.
Proof.
  intros Hr. unfold frame_allocator_init. apply runs_bind.
  destruct (RangeSet_new_ok (E:=MemError) PhysAllocator_N) as (rs0 & Hrs0 & Hok0 & Hc0); [done|].
  eapply runs_lift_Ok; [exact Hrs0|]. apply runs_bind. unfold runs at 1. cbn. apply runs_bind.
  eapply runs_mono; [by apply (runs_insert_usable regions (λ _ _, False))|done|done|].
  intros [] rs1 [Hok1 Hc1]. apply runs_bind. unfold runs at 1. cbn. unfold id. apply runs_bind.
  eapply runs_mono; [by apply (runs_reserve_phys_frames (λ _ _, False))|done|done|].
  intros f rs2 (-> & [_ Hf] & Hok2 & Hc2).
  assert (∀ x, covers (RangeSet_entries rs1) x ↔ usable_at regions x) as Hu.
  { intros x. rewrite Hc1. pose proof (Hc0 x). tauto. }
  apply runs_bind. eapply (runs_mono _ True True (λ _ _, False) (λ _ _, False)
    (λ _ rs', rs' = rs2)); [|done|done|].
  - apply runs_lift. unfold RangeSet_sum. destruct Hok1 as (_ & Hrs & _). clear -Hrs. generalize 0.
    induction (RangeSet_entries rs1) as [|e l IH]; intros acc; [done|].
    apply Forall_cons in Hrs as [(? & ? & ?) Hrs]. cbn [sum_fold]. rewrite sub_u64_ok by done. cbn.
    destruct (checked_add _ 1); [|done]. cbn. unfold add_u64. destruct (_ <=? _); [|done]. by apply IH.
  - intros total rs' ->. apply runs_bind, runs_lift. destruct total; [|done]. apply runs_ret.
    split; [done|]. split; [intros x Hx; by apply Hu, Hf|]. intros x. by rewrite Hc2, Hu.
Qed.
End clients.

(** ** Concrete addresses *)

#[export] Instance addresses_x86_64 : Addresses.
Proof.
  refine {|
    PhysAddr_new _ a := if (0 <=? a) && (a <? 2 ^ 52) then Ok a else Panic;
    VirtAddr_new _ a := if (0 <=? a) && (a <? 2 ^ 47) then Ok a else Panic;
  |}.
  - intros E a [H1 H2]. by rewrite (proj2 (Z.leb_le _ _) H1), (proj2 (Z.ltb_lt _ _) H2).
  - intros E a. destruct (_ && _); auto.
  - intros E a [H1 H2]. by rewrite (proj2 (Z.leb_le _ _) H1), (proj2 (Z.ltb_lt _ _) H2).
  - intros E a. destruct (_ && _); auto.
Defined.

Definition demo_free : RangeSet :=
  mkRangeSet (mkRange 0x2000 0xffffff :: replicate 7 (mkRange 0 0)) 1.

Lemma demo_free_ok : RangeSet_ok demo_free.
Proof.
  split; [cbn; lia|]. unfold RangeSet_entries, demo_free. cbn [take in_use ranges].
  split; [|by constructor]. constructor; [|done]. unfold range_ok, u64_max. cbn. lia.
Qed.

(** Two pages with guards, a huge page, and the two pages given back *)
Definition demo_pages : GuardedPages := mkGuarded (Some 0x2000) (Some 0x5000) (mkPages Size4KiB 0x3000 2).

Lemma allocators_exclusive_witness :
  ∃ rs, rtc (step VirtualPages) (demo_free, []) (rs, [HeldPage Size2MiB 0x200000]) ∧
    exclusive demo_free (rs, [HeldPage Size2MiB 0x200000]).
Proof.
  assert (∃ rs, rtc (step VirtualPages) (demo_free, []) (rs, [HeldPage Size2MiB 0x200000])) as [rs Hrun].
  { eexists. eapply rtc_l.
    { eapply (step_take VirtualPages _ _ _ (HeldGuarded demo_pages)).
      - by apply (take_guarded Size4KiB 2 true true).
      - vm_compute. reflexivity. }
    eapply rtc_l.
    { eapply (step_take VirtualPages _ _ _ (HeldPage Size2MiB 0x200000)).
      - by apply (take_page Size2MiB).
      - vm_compute. reflexivity. }
    eapply rtc_l.
    { eapply (step_give VirtualPages (HeldGuarded demo_pages) _ _ _ [HeldPage Size2MiB 0x200000] []).
      - by apply give_guarded.
      - vm_compute. reflexivity. }
    apply rtc_refl. }
  exists rs. split; [exact Hrun|].
  apply (allocators_exclusive VirtualPages demo_free _ demo_free_ok Hrun).
Defined.

Lemma allocate_guarded_pages_spec_witness :
  allocate_guarded_pages Size2MiB 1 true false demo_free = (Err OutOfPages, demo_free).
Proof.
  apply (allocate_guarded_pages_spec Size2MiB 1 true false demo_free demo_free_ok); [lia| |reflexivity|discriminate].
  vm_compute. discriminate.
Defined.

Lemma try_allocate_page_spec_witness :
  runs (try_allocate_page Size4KiB 0x8000) (room demo_free = 0%nat)
    (λ e rs', rs' = demo_free ∧ ((0x8000 = 0 ∧ e = NullAddress) ∨
       (0x8000 ≠ 0 ∧ ¬ page_in_entry Size4KiB 0x8000 demo_free ∧ e = PageInUse)))
    (λ _ rs', 0x8000 ≠ 0 ∧ page_in_entry Size4KiB 0x8000 demo_free ∧ RangeSet_ok rs' ∧
       ∀ q, page_free rs' q ↔ page_free demo_free q ∧ ¬ in_area q (0x8000, SIZE Size4KiB)) demo_free.
Proof.
  apply (try_allocate_page_spec Size4KiB 0x8000 demo_free demo_free_ok); [reflexivity|lia|].
  vm_compute. discriminate.
Defined.

Definition demo_regions : list MemoryRegion :=
  [mkRegion true 0x1000 0x9fc00; mkRegion false 0x9fc00 0x100000; mkRegion true 0x100000 0x8000000].

Lemma frame_allocator_init_spec_witness :
  fst (frame_allocator_init demo_regions demo_free) = Ok tt ∧
  runs (frame_allocator_init demo_regions) True (λ _ _, False)
    (λ _ rs', RangeSet_ok rs' ∧
       (∀ x, TRAMPOLINE_ADDR ≤ x < TRAMPOLINE_ADDR + 4096 → usable_at demo_regions x) ∧
       ∀ x, covers (RangeSet_entries rs') x ↔
         usable_at demo_regions x ∧ ¬ (TRAMPOLINE_ADDR ≤ x < TRAMPOLINE_ADDR + 4096)) demo_free.
Proof.
  split; [vm_compute; reflexivity|]. apply (frame_allocator_init_spec demo_regions demo_free).
  repeat constructor; vm_compute; discriminate.
Defined.
