(* ===== verification/PageInit.v ===== *)
(** * [page_allocator.rs]: finding the unmapped virtual memory

    [page_allocator::init] walks the page tables through their recursive mapping and
    removes what the boot loader has mapped from the free addresses. Here the memory
    of the tables is a function from virtual addresses, and the walk is compared with
    the translation that the processor does. *)

From S2P Require Import Prelude KernelMem RangeSet RangeSetProofs PageAlloc PageAllocProofs.
Local Open Scope Z_scope.

(** A page table entry: the flags that are looked at, and the address *)
Record PageTableEntry := mkEntry {
  pte_present : bool;
  pte_huge : bool;
  pte_addr : Z;
}.
Abbreviation PageTable := (list PageTableEntry).

(** [FrameError] of the crate [x86_64] *)
Inductive FrameError := FrameNotPresent | HugeFrame.

Definition MAX_VIRT_ADDR : Z := 0x0000ffffffffffff.
Definition MIN_ALLOCATED_PAGE : Z := 2.

(** The address with these table indices *)
Definition vaddr4 (l4 l3 l2 l1 : Z) : Z :=
  Z.lor (Z.lor (Z.lor (Z.shiftl l4 39) (Z.shiftl l3 30)) (Z.shiftl l2 21)) (Z.shiftl l1 12).

Section init.
Context `{Addresses}.
(** The page table at a virtual address, and [entry.frame()] *)
Context (table_at : Z → PageTable) (entry_frame : PageTableEntry → result FrameError Z).
Local Abbreviation M := (M RangeSet MemError).

Definition remove_page (S : PageSize) (virt_addr : Z) : M unit :=
  e ← lift (add_u64 virt_addr (SIZE S - 1)); remove (mkRange virt_addr e).

(** The four indices of the current path, the last one first in the table *)
Record Indices := mkIndices { i0 : Z; i1 : Z; i2 : Z; i3 : Z }.
Definition rotated (ix : Indices) (i : Z) : Indices := mkIndices (i1 ix) (i2 ix) (i3 ix) i.
Definition vaddr_of (ix : Indices) : Z := vaddr4 (i0 ix) (i1 ix) (i2 ix) (i3 ix).

(** The match on the level of an entry with [HUGE_PAGE]; [false] is [continue]. *)
Definition visit_huge (level : nat) (ix : Indices) : M bool :=
  match level with
  | 3%nat =>
      let l4 := i2 ix in let l3 := i3 ix in
      _ ← remove_page Size1GiB (Z.lor (Z.shiftl l4 39) (Z.shiftl l3 30)); mret true
  | 2%nat =>
      let l4 := i1 ix in let l3 := i2 ix in let l2 := i3 ix in
      _ ← remove_page Size2MiB (Z.lor (Z.lor (Z.shiftl l4 39) (Z.shiftl l3 30)) (Z.shiftl l2 21));
      mret true
  | _ => mret false
  end.

Definition visit_page (entry : PageTableEntry) (ix : Indices) : M unit :=
  match entry_frame entry with
  | Err FrameNotPresent => mret tt
  | Ok _ | Err HugeFrame => remove_page Size4KiB (vaddr_of ix)
  | Panic => lift Panic
  | Hang => lift Hang
  end.

(** One round of the loop, with the call for the next level *)
Definition visit_entry (next : PageTable → Indices → M unit) (level : nat) (ix : Indices)
    (i : nat) (entry : PageTableEntry) : M unit :=
  if negb (pte_present entry) then mret tt
  else
    let ix := rotated ix (Z.of_nat i) in
    go ← (if pte_huge entry then visit_huge level ix else mret true);
    if negb go then mret tt
    else if (level =? 1)%nat then visit_page entry ix
    else next (table_at (vaddr_of ix)) ix.

Fixpoint visit_entries (visit : nat → PageTableEntry → M unit) (i : nat) (table : PageTable) : M unit :=
  match table with
  | [] => mret tt
  | entry :: table => _ ← visit i entry; visit_entries visit (S i) table
  end.

Fixpoint recurse_page_tables_remove_mapped (level : nat) (table : PageTable) (ix : Indices) : M unit :=
  match level with
  | O => mret tt
  | S next => visit_entries (visit_entry (recurse_page_tables_remove_mapped next) level ix) 0 table
  end.

Definition vaddr_from_index (l4 l3 l2 l1 offset : Z) : result MemError Z :=
  VirtAddr_new (Z.lor (vaddr4 l4 l3 l2 l1) (Z.land offset 0xfff)).

Definition page_allocator_init (level_4_table : PageTable) (recursive_index : Z) : M unit :=
  vaddrs ← lift (RangeSet_new 256);
  _ ← put vaddrs;
  _ ← insert (mkRange (MIN_ALLOCATED_PAGE * SIZE Size4KiB) MAX_VIRT_ADDR);
  let r := recursive_index in
  _ ← recurse_page_tables_remove_mapped 4 level_4_table (mkIndices r r r r);
  page_table_start ← lift (vaddr_from_index r 0 0 0 0);
  page_table_end_inclusive ← lift (vaddr_from_index r 511 511 511 0);
  _ ← remove (mkRange page_table_start page_table_end_inclusive);
  reserve_pages false.
End init.

(** ** The translation of the processor *)

(** The index of an address in a table of the level *)
Definition shift (level : nat) : Z := 12 + 9 * (Z.of_nat level - 1).
Definition table_index (level : nat) (x : Z) : nat := Z.to_nat (x / 2 ^ shift level mod 512).

(** The processor maps [x] by the tables below this one. Bit 7 of an entry, which the
    crate calls [HUGE_PAGE], makes a page of an entry of level 2 or 3, must not be set in
    level 4, and is a bit of the memory type (PAT) in level 1. *)
Fixpoint maps (phys : Z → PageTable) (level : nat) (table : PageTable) (x : Z) : bool :=
  match level with
  | O => true
  | S next =>
      match table !! table_index level x with
      | None => false
      | Some entry =>
          pte_present entry &&
          if pte_huge entry && negb (level =? 1)%nat then (level =? 3)%nat || (level =? 2)%nat
          else maps phys next (phys (pte_addr entry)) x
      end
  end.

(** The entry of level 1 that maps [x] has bit 7. *)
Fixpoint pat_page (phys : Z → PageTable) (level : nat) (table : PageTable) (x : Z) : bool :=
  match level with
  | O => false
  | S next =>
      match table !! table_index level x with
      | None => false
      | Some entry =>
          pte_present entry &&
          if pte_huge entry then (level =? 1)%nat else pat_page phys next (phys (pte_addr entry)) x
      end
  end.

(** What the code takes for mapped *)
Definition seen (phys : Z → PageTable) (level : nat) (table : PageTable) (x : Z) : bool :=
  maps phys level table x && negb (pat_page phys level table x).
Lemma seen_S phys next table x :
  seen phys (S next) table x =
    match table !! table_index (S next) x with
    | None => false
    | Some entry =>
        pte_present entry &&
        if pte_huge entry then (S next =? 3)%nat || (S next =? 2)%nat
        else seen phys next (phys (pte_addr entry)) x
    end.
Proof.
  unfold seen. cbn [maps pat_page]. destruct (table !! _) as [[[] [] a]|]; cbn [pte_present pte_huge pte_addr andb]; try done.
  by destruct next as [|[|[|]]].
Qed.

(** ** Blocks of addresses *)

(** The bytes that one entry at the level above spans *)
Definition span (level : nat) : Z := 2 ^ (12 + 9 * Z.of_nat level).

Definition base (level : nat) (ix : Indices) : Z :=
  match level with
  | 4%nat => 0
  | 3%nat => i3 ix * 2 ^ 39
  | 2%nat => i2 ix * 2 ^ 39 + i3 ix * 2 ^ 30
  | 1%nat => i1 ix * 2 ^ 39 + i2 ix * 2 ^ 30 + i3 ix * 2 ^ 21
  | _ => i0 ix * 2 ^ 39 + i1 ix * 2 ^ 30 + i2 ix * 2 ^ 21 + i3 ix * 2 ^ 12
  end.

Definition in_block (level : nat) (ix : Indices) (x : Z) : Prop :=
  base level ix ≤ x < base level ix + span level.

Definition indices_ok (ix : Indices) : Prop :=
  0 ≤ i0 ix < 512 ∧ 0 ≤ i1 ix < 512 ∧ 0 ≤ i2 ix < 512 ∧ 0 ≤ i3 ix < 512.

Lemma rotated_ok ix i : indices_ok ix → 0 ≤ i < 512 → indices_ok (rotated ix i).
Proof. unfold indices_ok, rotated. cbn. lia. Qed.

Ltac spans := unfold in_block, span, base, rotated, shift in *; cbn in *.

Lemma child_base level ix i : (level < 4)%nat →
  base level (rotated ix i) = base (S level) ix + i * span level.
Proof. intros Hl. destruct level as [|[|[|[|]]]]; [..|lia]; spans; lia. Qed.

Lemma base_span level ix : (level ≤ 4)%nat → indices_ok ix →
  0 ≤ base level ix ∧ base level ix + span level ≤ 2 ^ 48 ∧ (span level | base level ix).
Proof.
  intros Hl Hix. unfold indices_ok in Hix. split; [|split].
  - destruct level as [|[|[|[|[|]]]]]; [..|lia]; spans; lia.
  - destruct level as [|[|[|[|[|]]]]]; [..|lia]; spans; lia.
  - destruct level as [|[|[|[|[|]]]]]; [..|lia]; spans; apply Z.mod_divide; try lia;
      Z.to_euclidean_division_equations; lia.
Qed.

Lemma span_child level : span (S level) = 512 * span level.
Proof. unfold span. rewrite <- (Z.pow_add_r 2 9) by lia. f_equal. lia. Qed.
Lemma span_pos level : 0 < span level.
Proof. apply Z.pow_pos_nonneg; lia. Qed.

(** The block of an entry: the addresses with its index *)
Lemma in_child level ix i x : (level < 4)%nat → indices_ok ix → 0 ≤ i < 512 →
  in_block level (rotated ix i) x ↔ in_block (S level) ix x ∧ Z.of_nat (table_index (S level) x) = i.
Proof.
  intros Hl Hix Hi. destruct (base_span (S level) ix) as (Hb & _ & [k Hk]); [lia|done|].
  pose proof (span_pos level) as Hp. unfold in_block. rewrite child_base, Hk, span_child by lia.
  assert (2 ^ shift (S level) = span level) as Hsh by (unfold shift, span; f_equal; lia).
  unfold table_index. rewrite Hsh, Z2Nat.id by (apply Z.mod_pos_bound; lia).
  replace (k * (512 * span level)) with (k * 512 * span level) by ring.
  assert (∀ a, a * span level ≤ x < a * span level + span level ↔ x / span level = a) as Hdiv.
  { intros a. split.
    - intros Hx. symmetry. apply (Z.div_unique x (span level) a (x - a * span level)); lia.
    - intros <-. pose proof (Z.mul_div_le x (span level) Hp). pose proof (Z.mul_succ_div_gt x (span level) Hp). lia. }
  replace (k * 512 * span level + i * span level) with ((k * 512 + i) * span level) by ring. rewrite Hdiv.
  assert (k * 512 * span level ≤ x < k * 512 * span level + 512 * span level ↔
    k * 512 ≤ x / span level < k * 512 + 512) as ->.
  { pose proof (Z.mul_div_le x (span level) Hp). pose proof (Z.mul_succ_div_gt x (span level) Hp). nia. }
  Z.to_euclidean_division_equations. lia.
Qed.

(** The addresses that the code computes *)
Lemma shiftl_mul a n : 0 ≤ n → Z.shiftl a n = a * 2 ^ n.
Proof. apply Z.shiftl_mul_pow2. Qed.

Lemma lor_add a n m k o : 0 ≤ m → n = m + k → 0 ≤ k → 0 ≤ o < 2 ^ k →
  Z.lor (a * 2 ^ n) (o * 2 ^ m) = a * 2 ^ n + o * 2 ^ m.
Proof.
  intros Hm -> Hk Ho. apply lor_low_bits; [lia|]. rewrite Z.pow_add_r by lia.
  pose proof (Z.pow_pos_nonneg 2 m ltac:(lia) Hm). nia.
Qed.

Lemma huge_1g ix : indices_ok ix → Z.lor (Z.shiftl (i2 ix) 39) (Z.shiftl (i3 ix) 30) = base 2 ix.
Proof.
  intros (? & ? & ? & ?). rewrite !shiftl_mul by lia. by rewrite (lor_add _ 39 30 9) by lia.
Qed.
Lemma huge_2m ix : indices_ok ix →
  Z.lor (Z.lor (Z.shiftl (i1 ix) 39) (Z.shiftl (i2 ix) 30)) (Z.shiftl (i3 ix) 21) = base 1 ix.
Proof.
  intros (? & ? & ? & ?). rewrite !shiftl_mul by lia. rewrite (lor_add _ 39 30 9) by lia.
  replace (i1 ix * 2 ^ 39 + i2 ix * 2 ^ 30) with ((i1 ix * 2 ^ 9 + i2 ix) * 2 ^ 30) by lia.
  rewrite (lor_add _ 30 21 9) by lia. unfold base. lia.
Qed.
Lemma vaddr4_sum l4 l3 l2 l1 : 0 ≤ l3 < 512 → 0 ≤ l2 < 512 → 0 ≤ l1 < 512 →
  vaddr4 l4 l3 l2 l1 = l4 * 2 ^ 39 + l3 * 2 ^ 30 + l2 * 2 ^ 21 + l1 * 2 ^ 12.
Proof.
  intros. unfold vaddr4. rewrite !shiftl_mul by lia. rewrite (lor_add _ 39 30 9) by lia.
  replace (l4 * 2 ^ 39 + l3 * 2 ^ 30) with ((l4 * 2 ^ 9 + l3) * 2 ^ 30) by lia.
  rewrite (lor_add _ 30 21 9) by lia.
  replace ((l4 * 2 ^ 9 + l3) * 2 ^ 30 + l2 * 2 ^ 21) with ((l4 * 2 ^ 18 + l3 * 2 ^ 9 + l2) * 2 ^ 21) by lia.
  rewrite (lor_add _ 21 12 9) by lia. lia.
Qed.

(** ** What the walk removes *)

Section walk.
Context `{AD : Addresses}.
Context (table_at : Z → PageTable) (entry_frame : PageTableEntry → result FrameError Z).
Hypothesis table_size : ∀ v, (length (table_at v) ≤ 512)%nat.
(** [frame()] of an entry that is present and not huge is its frame. *)
Hypothesis entry_frame_ok : ∀ e, pte_present e = true → pte_huge e = false →
  entry_frame e = Ok (pte_addr e).

Abbreviation recurse := (recurse_page_tables_remove_mapped table_at entry_frame).

(** [m] takes the addresses [P] out of the set, or panics. *)
Definition removes (m : M RangeSet MemError unit) (P : Z → Prop) : Prop := ∀ rs,
  RangeSet_ok rs →
  runs m True (λ _ _, False) (λ _ rs', RangeSet_ok rs' ∧
    ∀ x, covers (RangeSet_entries rs') x ↔ covers (RangeSet_entries rs) x ∧ ¬ P x) rs.

Lemma removes_none : removes (mret tt) (λ _, False).
Proof. intros rs Hok. apply runs_ret. split; [done|]. intros x. tauto. Qed.
Lemma removes_iff m (P Q : Z → Prop) : removes m P → (∀ x, P x ↔ Q x) → removes m Q.
Proof.
  intros Hm HPQ rs Hok. eapply runs_mono; [by apply Hm|done|done|]. intros [] rs' [Hok' Hc].
  split; [done|]. intros x. by rewrite Hc, HPQ.
Qed.
Lemma removes_bind m1 m2 (P1 P2 : Z → Prop) :
  removes m1 P1 → removes m2 P2 → removes (m1 ≫= λ _, m2) (λ x, P1 x ∨ P2 x).
Proof.
  intros H1 H2 rs Hok. apply runs_bind. eapply runs_mono; [by apply H1|done|done|]. intros [] rs1 [Hok1 Hc1].
  eapply runs_mono; [by apply H2|done|done|]. intros [] rs2 [Hok2 Hc2]. split; [done|].
  intros x. rewrite Hc2, Hc1. tauto.
Qed.

Lemma removes_then (m1 m2 : M RangeSet MemError unit) (P1 P2 : Z → Prop) :
  removes m1 P1 → removes m2 P2 →
  removes (go ← (_ ← m1; mret true); if negb go then mret tt else m2) (λ x, P1 x ∨ P2 x).
Proof.
  intros H1 H2 rs Hok. pose proof (removes_bind _ _ _ _ H1 H2 rs Hok) as Hr. unfold runs in *.
  rewrite !run_bind in *. by destruct (m1 rs) as [[| | |] ?].
Qed.

Lemma removes_page level S v ix :
  (level ≤ 4)%nat → indices_ok ix → SIZE S = span level → v = base level ix →
  removes (remove_page S v) (in_block level ix).
Proof.
  intros Hl Hix HS -> rs Hok. destruct (base_span level ix Hl Hix) as (Hb & He & _).
  pose proof (span_pos level). unfold remove_page. rewrite HS. apply runs_bind, runs_lift.
  rewrite add_u64_ok by (unfold u64_max; lia). apply runs_on_ranges.
  destruct (remove_cases (E:=MemError) rs (mkRange (base level ix) (base level ix + (span level - 1))) Hok)
    as [[-> _]|(rs' & -> & Hok' & _ & Hc)]; [unfold range_ok, u64_max; cbn; lia|done|].
  cbn. split; [done|]. intros x. rewrite Hc. unfold elem_of, in_range_elem_of, in_range, in_block. cbn.
  assert (base level ix ≤ x ≤ base level ix + (span level - 1) ↔ base level ix ≤ x < base level ix + span level)
    as -> by lia. done.
Qed.

Fixpoint removed (level : nat) (table : PageTable) (ix : Indices) (x : Z) : Prop :=
  match level with
  | O => in_block 0 ix x
  | S next => ∃ i entry, table !! i = Some entry ∧ pte_present entry = true ∧
      let ix := rotated ix (Z.of_nat i) in
      if pte_huge entry
      then (level = 3%nat ∨ level = 2%nat) ∧ (in_block next ix x ∨ removed next (table_at (vaddr_of ix)) ix x)
      else removed next (table_at (vaddr_of ix)) ix x
  end.

(** One entry *)
Definition entry_removed (next : nat) (ix : Indices) (i : nat) (entry : PageTableEntry) (x : Z) : Prop :=
  pte_present entry = true ∧
  let ix := rotated ix (Z.of_nat i) in
  if pte_huge entry
  then (S next = 3%nat ∨ S next = 2%nat) ∧ (in_block next ix x ∨ removed next (table_at (vaddr_of ix)) ix x)
  else removed next (table_at (vaddr_of ix)) ix x.

Lemma removes_entries (visit : nat → PageTableEntry → M RangeSet MemError unit)
    (P : nat → PageTableEntry → Z → Prop) table : ∀ i,
  (∀ j entry, table !! j = Some entry → removes (visit (i + j)%nat entry) (P (i + j)%nat entry)) →
  removes (visit_entries visit i table)
    (λ x, ∃ j entry, table !! j = Some entry ∧ P (i + j)%nat entry x).
Proof.
  induction table as [|e table IH]; intros i Hv; cbn [visit_entries].
  { eapply removes_iff; [apply removes_none|]. intros x. split; [done|]. intros (j & e & Hj & _).
    by rewrite lookup_nil in Hj. }
  eapply removes_iff.
  - apply removes_bind; [specialize (Hv 0%nat e eq_refl); rewrite Nat.add_0_r in Hv; exact Hv|]. apply (IH (S i)). intros j e' Hj.
    specialize (Hv (S j) e' Hj). by rewrite Nat.add_succ_r in Hv.
  - intros x. cbn beta. split.
    + intros [Hp|(j & e' & Hj & Hp)]; [exists 0%nat, e; by rewrite Nat.add_0_r|].
      exists (S j), e'. by rewrite Nat.add_succ_r.
    + intros ([|j] & e' & Hj & Hp); cbn in Hj; [left; simplify_eq; by rewrite Nat.add_0_r in Hp|].
      right. exists j, e'. by rewrite Nat.add_succ_r in Hp.
Qed.

(** One entry of a table: what is removed does not depend on how the walk goes on. *)
Lemma removes_entry next ix i entry (rec : PageTable → Indices → M RangeSet MemError unit) :
  (next < 4)%nat → indices_ok ix → (i < 512)%nat →
  (next ≠ 0%nat → ∀ v ix, indices_ok ix → removes (rec (table_at v) ix) (removed next (table_at v) ix)) →
  removes (visit_entry table_at entry_frame rec (S next) ix i entry) (entry_removed next ix i entry).
Proof.
  intros Hn Hix Hi Hrec. unfold visit_entry, entry_removed.
  assert (indices_ok (rotated ix (Z.of_nat i))) as Hix' by (apply rotated_ok; [done|lia]).
  destruct (pte_present entry) eqn:Hp; cbn [negb].
  2: { eapply removes_iff; [apply removes_none|]. intros x. split; [done|]. by intros [? _]. }
  set (ix' := rotated ix (Z.of_nat i)) in *. cbn zeta.
  destruct (pte_huge entry) eqn:Hh.
  - destruct next as [|[|[|[|]]]]; [| | | |lia]; cbn [visit_huge Nat.eqb].
    + eapply removes_iff; [apply removes_none|]. intros x. split; [done|]. intros (_ & [?|?] & _); lia.
    + eapply removes_iff; [apply (removes_then (remove_page Size2MiB _) (rec (table_at (vaddr_of ix')) ix'));
        [by apply (removes_page 1); [lia|..|apply huge_2m]|by apply Hrec]|].
      intros x. split; [|tauto]. intros Hx. split; [done|]. split; [by right|done].
    + eapply removes_iff; [apply (removes_then (remove_page Size1GiB _) (rec (table_at (vaddr_of ix')) ix'));
        [by apply (removes_page 2); [lia|..|apply huge_1g]|by apply Hrec]|].
      intros x. split; [|tauto]. intros Hx. split; [done|]. split; [by left|done].
    + eapply removes_iff; [apply removes_none|]. intros x. split; [done|]. intros (_ & [?|?] & _); lia.
  - destruct next as [|next]; cbn [Nat.eqb].
    + unfold visit_page. rewrite entry_frame_ok by done.
      eapply removes_iff; [apply (removes_page 0 Size4KiB _ ix'); [lia|done|done|]|].
      * unfold vaddr_of. destruct Hix' as (? & ? & ? & ?). by rewrite vaddr4_sum.
      * intros x. cbn. tauto.
    + eapply removes_iff; [by apply Hrec|]. intros x. tauto.
Qed.

Lemma recurse_removes level : ∀ table ix,
  (level ≤ 4)%nat → level ≠ 0%nat → (length table ≤ 512)%nat → indices_ok ix →
  removes (recurse level table ix) (removed level table ix).
Proof.
  induction level as [|next IH]; intros table ix Hl Hnz Ht Hix; [done|].
  cbn [recurse_page_tables_remove_mapped]. eapply removes_iff.
  - apply (removes_entries _ (entry_removed next ix)). intros j entry Hj. cbn [Nat.add].
    apply removes_entry; [lia|done|apply lookup_lt_Some in Hj; lia|].
    intros Hn v ix' Hix'. apply IH; [lia|done|apply table_size|done].
  - intros x. cbn [removed Nat.add]. unfold entry_removed. done.
Qed.

(** Only addresses of the block *)
Lemma removed_in_block level : ∀ table ix x,
  (level ≤ 4)%nat → (length table ≤ 512)%nat → indices_ok ix →
  removed level table ix x → in_block level ix x.
Proof.
  induction level as [|next IH]; intros table ix x Hl Ht Hix Hr; [done|].
  destruct Hr as (i & entry & Hi & _ & Hr). apply lookup_lt_Some in Hi.
  assert (indices_ok (rotated ix (Z.of_nat i))) as Hix' by (apply rotated_ok; [done|lia]).
  assert (in_block next (rotated ix (Z.of_nat i)) x) as Hb.
  { cbn zeta in Hr. destruct (pte_huge entry); [destruct Hr as [_ [?|Hr]]; [done|]|];
      (eapply IH; [..|exact Hr]; [lia|apply table_size|done]). }
  apply in_child in Hb as [? _]; [done|lia|done|lia].
Qed.

(** *** Against the translation of the processor *)

Context (phys : Z → PageTable).

(** The tables below [root], with the indices that the walk has there *)
Inductive reached (root : PageTable) (r : Z) : nat → PageTable → Indices → Prop :=
  | reached_root : reached root r 4 root (mkIndices r r r r)
  | reached_next level table ix i entry :
      reached root r (S (S level)) table ix → table !! i = Some entry →
      pte_present entry = true → pte_huge entry = false →
      reached root r (S level) (phys (pte_addr entry)) (rotated ix (Z.of_nat i)).

(** The recursive mapping: a table appears at the address that is made of the
    recursive index and the indices of the path to it. *)
Definition recursive_mapping (root : PageTable) (r : Z) : Prop :=
  ∀ level table ix i entry, reached root r (S (S level)) table ix → table !! i = Some entry →
    pte_present entry = true → pte_huge entry = false →
    table_at (vaddr_of (rotated ix (Z.of_nat i))) = phys (pte_addr entry).

Lemma removed_seen root r level : ∀ table ix x,
  recursive_mapping root r → (level ≤ 4)%nat → (length table ≤ 512)%nat → indices_ok ix →
  (level ≠ 0%nat → reached root r level table ix) →
  removed level table ix x ↔ in_block level ix x ∧ seen phys level table x = true.
Proof.
  induction level as [|next IH]; intros table ix x Hrm Hl Ht Hix Hre.
  { cbn. tauto. }
  specialize (Hre ltac:(done)).
  assert (∀ i entry, table !! i = Some entry → indices_ok (rotated ix (Z.of_nat i)) ∧ (i < 512)%nat) as Hrot.
  { intros i entry Hi%lookup_lt_Some. split; [apply rotated_ok; [done|lia]|lia]. }
  assert (∀ i entry, table !! i = Some entry → pte_present entry = true → pte_huge entry = false →
    removed next (table_at (vaddr_of (rotated ix (Z.of_nat i)))) (rotated ix (Z.of_nat i)) x ↔
    in_block next (rotated ix (Z.of_nat i)) x ∧ seen phys next (phys (pte_addr entry)) x = true) as Hnext.
  { intros i entry Hi Hp Hh. destruct (Hrot i entry Hi) as [Hix' _]. destruct next as [|next]; [cbn; tauto|].
    pose proof (Hrm next table ix i entry Hre Hi Hp Hh) as Heq. pose proof (table_size (vaddr_of (rotated ix (Z.of_nat i)))) as Hts.
    rewrite Heq in *. apply IH; [done|lia|done|done|]. intros _. by eapply reached_next. }
  cbn [removed]. rewrite seen_S. split.
  - intros (i & entry & Hi & Hp & Hr). destruct (Hrot i entry Hi) as [Hix' Hi'].
    assert (in_block next (rotated ix (Z.of_nat i)) x) as Hb.
    { cbn zeta in Hr. destruct (pte_huge entry); [destruct Hr as [_ [?|Hr]]; [done|]|];
        (eapply removed_in_block; [..|exact Hr]; [lia|apply table_size|done]). }
    apply in_child in Hb as [Hb Hidx]; [|lia|done|lia]. apply Nat2Z.inj in Hidx.
    split; [done|]. rewrite Hidx, Hi, Hp. cbn zeta in Hr. destruct (pte_huge entry) eqn:Hh.
    + destruct Hr as [[->| ->] _]; done.
    + by apply (Hnext i entry Hi Hp Hh) in Hr as [_ Hr].
  - intros [Hb Hm]. destruct (table !! table_index (S next) x) as [entry|] eqn:Hi; [|done].
    apply andb_prop in Hm as [Hp Hm]. destruct (Hrot _ _ Hi) as [Hix' Hi'].
    assert (in_block next (rotated ix (Z.of_nat (table_index (S next) x))) x) as Hb'
      by (apply in_child; [lia|done|lia|done]).
    exists (table_index (S next) x), entry. split; [done|]. split; [done|]. cbn zeta.
    destruct (pte_huge entry) eqn:Hh.
    + split; [|by left]. apply orb_prop in Hm as [Hm|Hm]; apply Nat.eqb_eq in Hm; [by left|by right].
    + by apply (Hnext _ entry Hi Hp Hh).
Qed.

(** The pages that the allocator may have at all: not the first two, and not the area of
    the page tables, whose index is [r] *)
Definition allocatable (r q : Z) : Prop :=
  page_aligned q ∧ MIN_ALLOCATED_PAGE * 4096 ≤ q ∧ q + 4096 ≤ 2 ^ 48 ∧ ¬ (r * 2 ^ 39 ≤ q < (r + 1) * 2 ^ 39).
(** The processor maps no byte of the page, or all of them, by an entry of level 1 with
    bit 7. *)
Definition unmapped (root : PageTable) (q : Z) : Prop := ∀ x, q ≤ x < q + 4096 → maps phys 4 root x = false.
Definition pat_mapped (root : PageTable) (q : Z) : Prop :=
  ∀ x, q ≤ x < q + 4096 → maps phys 4 root x = true ∧ pat_page phys 4 root x = true.
Definition found_free (root : PageTable) (r q : Z) : Prop :=
  allocatable r q ∧ (unmapped root q ∨ pat_mapped root q).

(** The bytes of a page share their entries. *)
Lemma table_index_page level q x : page_aligned q → q ≤ x < q + 4096 → (1 ≤ level)%nat →
  table_index level x = table_index level q.
Proof.
  intros Hq Hx Hl. unfold table_index. do 2 f_equal. unfold shift.
  assert (2 ^ (12 + 9 * (Z.of_nat level - 1)) = 4096 * 2 ^ (9 * (Z.of_nat level - 1))) as -> by (rewrite Z.pow_add_r by lia; done).
  rewrite <- !Z.div_div by lia. f_equal. unfold page_aligned in Hq. Z.to_euclidean_division_equations. lia.
Qed.
Lemma page_shares level : ∀ table q x, page_aligned q → q ≤ x < q + 4096 →
  maps phys level table x = maps phys level table q ∧ pat_page phys level table x = pat_page phys level table q.
Proof.
  induction level as [|next IH]; intros table q x Hq Hx; [done|]. cbn [maps pat_page].
  rewrite (table_index_page (S next) q x) by (done || lia). destruct (table !! _) as [e|]; [|done].
  destruct (IH (phys (pte_addr e)) q x Hq Hx) as [-> ->]. done.
Qed.
Lemma pat_maps level : ∀ table x, pat_page phys level table x = true → maps phys level table x = true.
Proof.
  induction level as [|next IH]; intros table x; [done|]. cbn [maps pat_page]. destruct (table !! _) as [[[] [] a]|]; cbn; try done.
  - by destruct next as [|[|]].
  - apply IH.
Qed.
Lemma seen_page root q : page_aligned q →
  (∀ x, q ≤ x < q + 4096 → seen phys 4 root x = false) ↔ unmapped root q ∨ pat_mapped root q.
Proof.
  intros Hq. unfold seen. split.
  - intros Hs. specialize (Hs q ltac:(lia)). destruct (maps phys 4 root q) eqn:Hm; cbn in Hs; [right|left]; intros x Hx;
      destruct (page_shares 4 root q x Hq Hx) as [Hxm Hxp]; rewrite Hxm, ?Hxp; [|done]. by apply negb_false_iff in Hs.
  - intros [Hu|Hp] x Hx; [by rewrite Hu|]. destruct (Hp x Hx) as [-> ->]. done.
Qed.

Lemma table_area_page r q : 0 ≤ r → page_aligned q →
  (∀ x, q ≤ x < q + 4096 → ¬ (r * 2 ^ 39 ≤ x ≤ r * 2 ^ 39 + (2 ^ 39 - 4096))) ↔
  ¬ (r * 2 ^ 39 ≤ q < (r + 1) * 2 ^ 39).
Proof.
  intros Hr Hq. split.
  - intros Hx Hin. apply (Hx q); [lia|]. split; [lia|].
    assert (page_aligned ((r + 1) * 2 ^ 39)) as Hend by (apply aligned_mul; done).
    pose proof (aligned_lt _ _ Hq Hend ltac:(lia)). lia.
  - intros Hq' y Hy Hin. apply Hq'. split; [|lia].
    destruct (decide (q < r * 2 ^ 39)) as [Hlt|]; [|lia].
    assert (page_aligned (r * 2 ^ 39)) as Hs by (apply aligned_mul; done).
    pose proof (aligned_lt _ _ Hq Hs Hlt). lia.
Qed.

Lemma vaddr_from_index_sum l4 l3 l2 l1 :
  0 ≤ l3 < 512 → 0 ≤ l2 < 512 → 0 ≤ l1 < 512 →
  vaddr_from_index l4 l3 l2 l1 0 = VirtAddr_new (l4 * 2 ^ 39 + l3 * 2 ^ 30 + l2 * 2 ^ 21 + l1 * 2 ^ 12).
Proof. intros. unfold vaddr_from_index. by rewrite Z.land_0_l, Z.lor_0_r, vaddr4_sum. Qed.

(** The removal of the page tables *)
Lemma removes_tables r : 0 ≤ r < 512 →
  removes (s ← lift (vaddr_from_index r 0 0 0 0); e ← lift (vaddr_from_index r 511 511 511 0);
           remove (mkRange s e)) (λ x, r * 2 ^ 39 ≤ x ≤ r * 2 ^ 39 + (2 ^ 39 - 4096)).
Proof.
  intros Hr rs Hok. rewrite !vaddr_from_index_sum by lia.
  replace (r * 2 ^ 39 + 0 * 2 ^ 30 + 0 * 2 ^ 21 + 0 * 2 ^ 12) with (r * 2 ^ 39) by lia.
  replace (r * 2 ^ 39 + 511 * 2 ^ 30 + 511 * 2 ^ 21 + 511 * 2 ^ 12) with (r * 2 ^ 39 + (2 ^ 39 - 4096)) by lia.
  apply runs_bind, runs_lift. destruct (VirtAddr_new_cases (E:=MemError) (r * 2 ^ 39)) as [->| ->]; [|done].
  apply runs_bind, runs_lift.
  destruct (VirtAddr_new_cases (E:=MemError) (r * 2 ^ 39 + (2 ^ 39 - 4096))) as [->| ->]; [|done].
  apply runs_on_ranges.
  destruct (remove_cases (E:=MemError) rs (mkRange (r * 2 ^ 39) (r * 2 ^ 39 + (2 ^ 39 - 4096))) Hok)
    as [[-> _]|(rs' & -> & Hok' & _ & Hc)]; [unfold range_ok, u64_max; cbn; lia|done|].
  cbn. split; [done|]. intros x. by rewrite Hc.
Qed.

(** C29: [init] of the page allocator, for page tables that appear at the recursive
    index [r]. When it returns, the free pages are exactly those that the processor does
    not map, whatever huge pages the tables contain, and in addition those it maps by
    an entry of level 1 with bit 7 (PAT), which the code takes for huge pages and skips;
    the first two pages, the area of the page tables and the page of the trampoline
    are never free. *)
Theorem page_allocator_init_spec (root : PageTable) (r : Z) (rs : RangeSet) :
  recursive_mapping root r → (length root ≤ 512)%nat → 0 ≤ r < 512 →
  runs (page_allocator_init table_at entry_frame root r) True (λ _ _, False)
    (λ _ rs', RangeSet_ok rs' ∧ found_free root r TRAMPOLINE_ADDR ∧
       ∀ q, page_free rs' q ↔ found_free root r q ∧ q ≠ TRAMPOLINE_ADDR) rs.
Proof.
  intros Hrm Hroot Hr. unfold page_allocator_init. apply runs_bind.
  destruct (RangeSet_new_ok (E:=MemError) 256) as (rs0 & Hrs0 & Hok0 & Hc0); [lia|].
  eapply runs_lift_Ok; [exact Hrs0|]. apply runs_bind. unfold runs at 1. cbn [put]. apply runs_bind, runs_on_ranges.
  destruct (insert_cases (E:=MemError) rs0 (mkRange (MIN_ALLOCATED_PAGE * SIZE Size4KiB) MAX_VIRT_ADDR) Hok0)
    as [[-> _]|(rs1 & -> & Hok1 & _ & Hc1)]; [unfold range_ok, MAX_VIRT_ADDR, MIN_ALLOCATED_PAGE, u64_max; cbn; lia|done|].
  cbn [mbind result_bind mret result_ret].
  assert (indices_ok (mkIndices r r r r)) as Hix by by unfold indices_ok.
  assert (∀ x, covers (RangeSet_entries rs1) x ↔ MIN_ALLOCATED_PAGE * 4096 ≤ x < 2 ^ 48) as Hin1.
  { intros x. rewrite Hc1. pose proof (Hc0 x). unfold elem_of, in_range_elem_of, in_range, MAX_VIRT_ADDR. cbn.
    split; [intros [?|?]; [done|lia]|intros ?; right; lia]. }
  apply runs_bind. eapply runs_mono; [apply (recurse_removes 4 root (mkIndices r r r r)); [lia|done..]|done|done|].
  intros [] rs2 [Hok2 Hc2].
  set (finish := λ s e, remove (E:=MemError) (mkRange s e)).
  pose proof (removes_tables r Hr rs2 Hok2) as Ht. unfold runs in Ht at 1. unfold runs. rewrite !run_bind in *.
  destruct (lift (vaddr_from_index r 0 0 0 0) rs2) as [[s| | |] rs3]; [|done..].
  rewrite !run_bind in *. destruct (lift (vaddr_from_index r 511 511 511 0) rs3) as [[e| | |] rs4]; [|done..].
  rewrite !run_bind. destruct (remove (mkRange s e) rs4) as [[[]| | |] rs5]; [|done..].
  destruct Ht as [Hok5 Hc5]. clear rs3 rs4 s e finish.
  assert (∀ q, page_free rs5 q ↔ found_free root r q) as Hfree.
  { intros q. unfold page_free, found_free, allocatable. 
    assert (∀ x, covers (RangeSet_entries rs5) x ↔ MIN_ALLOCATED_PAGE * 4096 ≤ x < 2 ^ 48 ∧
      seen phys 4 root x = false ∧ ¬ (r * 2 ^ 39 ≤ x ≤ r * 2 ^ 39 + (2 ^ 39 - 4096))) as Hall.
    { intros x. rewrite Hc5, Hc2, Hin1, (removed_seen root r) by (done || (intros; apply reached_root)).
      assert (MIN_ALLOCATED_PAGE * 4096 ≤ x < 2 ^ 48 → in_block 4 (mkIndices r r r r) x) as Hblock
        by (unfold in_block, MIN_ALLOCATED_PAGE, span; cbn; lia).
      destruct (seen phys 4 root x); naive_solver. }
    split.
    - intros [Hq Hf]. pose proof (proj1 (Hall _) (Hf q ltac:(lia))) as [[? ?] _].
      pose proof (proj1 (Hall _) (Hf (q + 4095) ltac:(lia))) as [[_ ?] _].
      split.
      + split; [done|]. split; [done|]. split; [lia|].
        apply table_area_page; [lia|done|]. intros x Hx. apply (Hall x), Hf, Hx.
      + apply seen_page; [done|]. intros x Hx. apply (Hall x), Hf, Hx.
    - intros ((Hq & Hmin & Hmax & Ht) & Hm). split; [done|]. intros x Hx. apply Hall. split; [lia|].
      split; [by apply (proj2 (seen_page root q Hq) Hm)|]. by apply (proj2 (table_area_page r q ltac:(lia) Hq) Ht x Hx). }
  unfold reserve_pages. rewrite run_bind. cbn [negb assert_ lift]. rewrite run_bind.
  rewrite VirtAddr_new_ok by (unfold TRAMPOLINE_ADDR; lia). cbn [lift]. rewrite run_bind.
  change (expect (from_start_address Size4KiB TRAMPOLINE_ADDR)) with (Ok (E:=MemError) TRAMPOLINE_ADDR).
  unfold lift at 1. cbv beta iota. unfold or_panic.
  pose proof (runs_try_allocate_page Size4KiB TRAMPOLINE_ADDR rs5 Hok5) as Htry.
  specialize (Htry ltac:(done) ltac:(done) ltac:(done)). unfold runs in Htry.
  destruct (try_allocate_page Size4KiB TRAMPOLINE_ADDR rs5) as [[[]| | |] rs6]; [|done..].
  destruct Htry as (_ & _ & Htk & Hq6). split; [apply (tk_ok _ _ _ Htk)|]. split.
  - apply Hfree. apply (tk_free _ _ _ Htk); [done|]. left. split; cbn; unfold TRAMPOLINE_ADDR; lia.
  - intros q. rewrite Hq6, Hfree. split.
    + intros [Hu Hn]. split; [done|]. intros ->. apply Hn. split; cbn; unfold TRAMPOLINE_ADDR; lia.
    + intros [Hu Hne]. split; [done|]. intros Hq. apply Hne. destruct Hu as [[Ha _] _]. unfold in_area in Hq. cbn in Hq.
      unfold page_aligned, TRAMPOLINE_ADDR in *. Z.to_euclidean_division_equations. lia.
Qed.
End walk.

(** ** Tables in physical memory *)

Section recursive.
Context (phys : Z → PageTable) (cr3 r : Z).
Hypothesis phys_size : ∀ f, (length (phys f) ≤ 512)%nat.
(** The entry with the recursive index points to the root table. *)
Hypothesis recursive_entry : pte_addr <$> phys cr3 !! Z.to_nat r = Some cr3.
Hypothesis index_ok : 0 ≤ r < 512.

(** Following the four indices of a virtual address *)
Definition follow (f : Z) (i : Z) : Z :=
  match phys f !! Z.to_nat i with Some e => pte_addr e | None => 0 end.
Definition walk4 (l4 l3 l2 l1 : Z) : Z := follow (follow (follow (follow cr3 l4) l3) l2) l1.
Definition virtual_table (v : Z) : PageTable :=
  phys (walk4 (v / 2 ^ 39 mod 512) (v / 2 ^ 30 mod 512) (v / 2 ^ 21 mod 512) (v / 2 ^ 12 mod 512)).

Lemma virtual_table_vaddr4 l4 l3 l2 l1 :
  0 ≤ l4 < 512 → 0 ≤ l3 < 512 → 0 ≤ l2 < 512 → 0 ≤ l1 < 512 →
  virtual_table (vaddr4 l4 l3 l2 l1) = phys (walk4 l4 l3 l2 l1).
Proof.
  intros. unfold virtual_table. rewrite vaddr4_sum by done.
  f_equal. f_equal; Z.to_euclidean_division_equations; lia.
Qed.

Lemma follow_recursive : follow cr3 r = cr3.
Proof. unfold follow. destruct (phys cr3 !! Z.to_nat r); cbn in recursive_entry; congruence. Qed.

Lemma reached_path level table ix : reached phys (phys cr3) r level table ix → indices_ok ix ∧
  match level with
  | 4%nat => table = phys cr3 ∧ ix = mkIndices r r r r
  | 3%nat => ∃ i, table = phys (follow cr3 i) ∧ ix = mkIndices r r r i
  | 2%nat => ∃ i j, table = phys (follow (follow cr3 i) j) ∧ ix = mkIndices r r i j
  | 1%nat => ∃ i j k, table = phys (follow (follow (follow cr3 i) j) k) ∧ ix = mkIndices r i j k
  | _ => False
  end.
Proof.
  induction 1 as [|level table ix i entry Hre [Hok IH] Hi Hp Hh]; [done|].
  assert (∀ f, table = phys f → phys (pte_addr entry) = phys (follow f (Z.of_nat i))) as Hf.
  { intros f ->. unfold follow. by rewrite Nat2Z.id, Hi. }
  assert ((i < 512)%nat ∨ False) as [Hlt|[]].
  { left. apply lookup_lt_Some in Hi. destruct level as [|[|[|]]]; [| | |done].
    - destruct IH as (a & b & -> & _). pose proof (phys_size (follow (follow cr3 a) b)). lia.
    - destruct IH as (a & -> & _). pose proof (phys_size (follow cr3 a)). lia.
    - destruct IH as (-> & _). pose proof (phys_size cr3). lia. }
  split; [apply rotated_ok; [done|lia]|]. destruct level as [|[|[|]]]; [| | |done].
  - destruct IH as (a & b & -> & ->). exists a, b, (Z.of_nat i). split; [by apply Hf|done].
  - destruct IH as (a & -> & ->). exists a, (Z.of_nat i). split; [by apply Hf|done].
  - destruct IH as (-> & ->). exists (Z.of_nat i). split; [by apply Hf|done].
Qed.

(** Through the recursive entry, the tables appear where the walk reads them. *)
Lemma virtual_table_recursive : recursive_mapping virtual_table phys (phys cr3) r.
Proof.
  intros level table ix i entry Hre Hi Hp Hh.
  pose proof (reached_path _ _ _ (reached_next _ _ _ _ _ _ _ _ Hre Hi Hp Hh)) as [(? & ? & ? & ?) _].
  destruct (reached_path _ _ _ Hre) as [_ Hpath]. unfold vaddr_of.
  rewrite virtual_table_vaddr4 by done.
  assert (∀ f, table = phys f → phys (follow f (Z.of_nat i)) = phys (pte_addr entry)) as Hf.
  { intros f ->. unfold follow. by rewrite Nat2Z.id, Hi. }
  unfold walk4, rotated. cbn. destruct level as [|[|[|]]]; [| | |done].
  - destruct Hpath as (a & b & -> & ->). cbn. rewrite follow_recursive. by apply Hf.
  - destruct Hpath as (a & -> & ->). cbn. rewrite !follow_recursive. by apply Hf.
  - destruct Hpath as (-> & ->). cbn. rewrite !follow_recursive. by apply Hf.
Qed.
End recursive.

(** *** A concrete address space *)

Definition no_entry : PageTableEntry := mkEntry false false 0.
Definition table_with (l : list (nat * PageTableEntry)) : PageTable :=
  foldr (λ '(i, e) t, <[i:=e]> t) (replicate 512 no_entry) l.

(** Page tables at index 200, a huge page of each size and a few pages, one of them with
    the bit PAT *)
Definition demo_phys (f : Z) : PageTable :=
  match f with
  | 0x1000 => table_with [(0%nat, mkEntry true false 0x2000); (200%nat, mkEntry true false 0x1000)]
  | 0x2000 => table_with [(0%nat, mkEntry true false 0x3000); (1%nat, mkEntry true true 0x40000000)]
  | 0x3000 => table_with [(0%nat, mkEntry true false 0x4000); (5%nat, mkEntry true true 0x600000)]
  | 0x4000 => table_with [(256%nat, mkEntry true false 0x100000); (257%nat, mkEntry true false 0x101000); (258%nat, mkEntry true true 0x102000)]
  | _ => []
  end.
Definition demo_frame (e : PageTableEntry) : result FrameError Z :=
  if negb (pte_present e) then Err FrameNotPresent
  else if pte_huge e then Err HugeFrame else Ok (pte_addr e).

Lemma demo_phys_size f : (length (demo_phys f) ≤ 512)%nat.
Proof.
  assert (∀ l, length (table_with l) = 512%nat) as Hlen.
  { intros l. unfold table_with. induction l as [|[i e] l IH]; [done|]. cbn. by rewrite length_insert. }
  unfold demo_phys. repeat (case_match; try (rewrite Hlen; lia); try (cbn; lia)).
Qed.

Lemma page_allocator_init_spec_witness :
  let table_at := virtual_table demo_phys 0x1000 in
  runs (page_allocator_init table_at demo_frame (demo_phys 0x1000) 200) True (λ _ _, False)
    (λ _ rs', RangeSet_ok rs' ∧ found_free demo_phys (demo_phys 0x1000) 200 TRAMPOLINE_ADDR ∧
       ∀ q, page_free rs' q ↔ found_free demo_phys (demo_phys 0x1000) 200 q ∧ q ≠ TRAMPOLINE_ADDR) demo_free ∧
  fst (page_allocator_init table_at demo_frame (demo_phys 0x1000) 200 demo_free) = Ok tt.
Proof.
  intros table_at. split; [|vm_compute; reflexivity].
  apply (page_allocator_init_spec table_at demo_frame).
  - intros v. apply demo_phys_size.
  - intros e Hp Hh. unfold demo_frame. rewrite Hp, Hh. reflexivity.
  - apply virtual_table_recursive; [exact demo_phys_size|vm_compute; reflexivity|lia].
  - apply demo_phys_size.
  - lia.
Defined.

(** The page 258 is mapped, and free for the allocator. *)
Lemma pat_page_is_free :
  let '(r, rs) := page_allocator_init (virtual_table demo_phys 0x1000) demo_frame (demo_phys 0x1000) 200 demo_free in
  r = Ok tt ∧ maps demo_phys 4 (demo_phys 0x1000) 0x102000 = true ∧
  existsb (λ e, (start e <=? 0x102000) && (0x102fff <=? end_ e)) (RangeSet_entries rs) = true.
Proof. vm_compute. done. Qed.
