(* ===== verification/PageMapping.v ===== *)
(** * [page_table.rs] and [structs.rs]: mapping pages

    The kernel's [PageTable] around a [Mapper] of the crate [x86_64], and
    [GuardedPages::map] and [unmap]. The class [Mapper] states what the documentation of
    the crate says; the statistics and the flush of the TLB are left out. *)

From S2P Require Import Prelude KernelMem RangeSet RangeSetProofs PageAlloc PageAllocProofs.
Local Open Scope Z_scope.

(** ** The crate [x86_64] *)

(** [PageTableFlags] *)
Definition PRESENT : Z := 1.
Definition WRITABLE : Z := 2.
Definition BIT_9 : Z := 512.
Definition NO_EXECUTE : Z := 2 ^ 63.
Definition is_present (flags : Z) : bool := Z.testbit flags 0.

Inductive MapToError :=
  | MapTo_FrameAllocationFailed
  | MapTo_ParentEntryHugePage
  | MapTo_PageAlreadyMapped (frame : PhysFrame).
Inductive UnmapError :=
  | Unmap_ParentEntryHugePage
  | Unmap_PageNotMapped
  | Unmap_InvalidFrameAddress (paddr : Z).
Inductive FlagUpdateError := Flags_PageNotMapped | Flags_ParentEntryHugePage.

Inductive UnmappedFrame :=
  | UnmappedPresent (frame : PhysFrame) (flags : Z)
  | UnmappedNotPresent (frame : PhysFrame) (flags : Z).

(** What is mapped: the frame and the flags of a page of a size. The bit [HUGE_PAGE], which
    the crate sets on its own in the entry of a larger page, is not among the flags: no
    caller looks at it. *)
Definition mappings : Type := PageSize → Page → option (PhysFrame * Z).
Definition map_page (sz : PageSize) (p : Page) (e : option (PhysFrame * Z)) (m : mappings) : mappings :=
  λ sz' p', if decide ((sz', p') = (sz, p)) then e else m sz' p'.

(** A mapper asks for the frames of new tables with [allocate_frame] and changes the
    allocator in no other way. *)
Class Mapper (PT : Type) := {
  mapping : PT → mappings;
  map_to_with_table_flags {F E} (allocate_frame : M F E (option PhysFrame)) (sz : PageSize)
    (page : Page) (frame : PhysFrame) (flags table_flags : Z) : M (PT * F) MapToError unit;
  unmap (sz : PageSize) (page : Page) : M PT UnmapError (PhysFrame * Z);
  clear (sz : PageSize) (page : Page) : M PT UnmapError UnmappedFrame;
  update_flags (sz : PageSize) (page : Page) (flags : Z) : M PT FlagUpdateError unit;

  map_to_spec {F E} (allocate_frame : M F E (option PhysFrame)) sz page frame flags table_flags
      pt f (I : F → Prop) (pan : Prop) :
    (∀ f, I f → runs allocate_frame pan (λ _ _, False) (λ _, I) f) → I f →
    mapping pt sz page = None →
    runs (map_to_with_table_flags allocate_frame sz page frame flags table_flags) pan
      (λ e s, (e = MapTo_FrameAllocationFailed ∨ e = MapTo_ParentEntryHugePage) ∧
              (∀ sz p, mapping s.1 sz p = mapping pt sz p) ∧ I s.2)
      (λ _ s, (∀ sz' p', mapping s.1 sz' p' = map_page sz page (Some (frame, flags)) (mapping pt) sz' p')
              ∧ I s.2) (pt, f);
  map_to_mapped {F E} (allocate_frame : M F E (option PhysFrame)) sz page frame flags table_flags
      pt f old old_flags :
    mapping pt sz page = Some (old, old_flags) →
    map_to_with_table_flags allocate_frame sz page frame flags table_flags (pt, f)
      = (Err (MapTo_PageAlreadyMapped old), (pt, f));
  unmap_spec sz page pt frame flags :
    mapping pt sz page = Some (frame, flags) → is_present flags = true →
    ∃ pt', unmap sz page pt = (Ok (frame, flags), pt') ∧
      ∀ sz' p', mapping pt' sz' p' = map_page sz page None (mapping pt) sz' p';
  unmap_not_mapped sz page pt :
    mapping pt sz page = None →
    ∃ e, unmap sz page pt = (Err e, pt) ∧ (e = Unmap_PageNotMapped ∨ e = Unmap_ParentEntryHugePage);
  clear_spec sz page pt frame flags :
    mapping pt sz page = Some (frame, flags) →
    ∃ pt', clear sz page pt =
      (Ok (if is_present flags then UnmappedPresent frame flags else UnmappedNotPresent frame flags), pt') ∧
      ∀ sz' p', mapping pt' sz' p' = map_page sz page None (mapping pt) sz' p';
  update_flags_spec sz page flags pt frame old :
    mapping pt sz page = Some (frame, old) →
    ∃ pt', update_flags sz page flags pt = (Ok tt, pt') ∧
      ∀ sz' p', mapping pt' sz' p' = map_page sz page (Some (frame, flags)) (mapping pt) sz' p';
}.

(** ** [page_table.rs] *)

Definition GUARD : Z := BIT_9.
Definition PRESENT_OR_USED : Z := Z.lor PRESENT GUARD.
Definition KERNEL_TABLE_FLAGS : Z := Z.lor PRESENT WRITABLE.

(** The conversions of errors *)
Definition from_map_to (sz : PageSize) (e : MapToError) : PageTableMapError :=
  match e with
  | MapTo_FrameAllocationFailed => FrameAllocationFailed
  | MapTo_ParentEntryHugePage => ParentEntryHugePage
  | MapTo_PageAlreadyMapped f =>
      match sz with
      | Size4KiB => PageAllreadyMapped4k f
      | Size2MiB => PageAllreadyMapped2m f
      | Size1GiB => PageAllreadyMapped1g f
      end
  end.
Definition from_unmap (e : UnmapError) : PageTableMapError :=
  match e with
  | Unmap_ParentEntryHugePage => ParentEntryHugePage
  | Unmap_PageNotMapped => PageNotMapped
  | Unmap_InvalidFrameAddress paddr => InvalidFrameAddress paddr
  end.
Definition from_flag_update (e : FlagUpdateError) : PageTableMapError :=
  match e with
  | Flags_PageNotMapped => FlagUpdateNotMapped
  | Flags_ParentEntryHugePage => FlagUpdateHuge
  end.

Section page_table.
Context `{Addresses} {PT : Type} `{Mapper PT}.

(** [allocate_frame] of [FrameAllocator] *)
Definition allocate_frame {E} (sz : PageSize) : M RangeSet E (option PhysFrame) := λ fr,
  match FrameAllocator_alloc sz fr with
  | (Ok f, fr) => (Ok (Some f), fr)
  | (Err _, fr) => (Ok None, fr)
  | (Panic, fr) => (Panic, fr)
  | (Hang, fr) => (Hang, fr)
  end.

Definition map_kernel (sz : PageSize) (page : Page) (frame : PhysFrame) (flags : Z)
    : M (PT * RangeSet) PageTableMapError unit :=
  mapM_err (from_map_to sz)
    (map_to_with_table_flags (allocate_frame (E:=MemError) Size4KiB) sz page frame flags KERNEL_TABLE_FLAGS).
Definition PageTable_unmap (sz : PageSize) (page : Page) : M PT PageTableMapError (PhysFrame * Z) :=
  mapM_err from_unmap (unmap sz page).
Definition PageTable_update_flags (sz : PageSize) (page : Page) (flags : Z) : M PT PageTableMapError unit :=
  mapM_err from_flag_update (update_flags sz page flags).
Definition PageTable_clear (sz : PageSize) (page : Page) : M PT PageTableMapError UnmappedFrame :=
  mapM_err from_unmap (clear sz page).

(** ** [structs.rs]: [GuardedPages::map] and [unmap] *)

Definition STACK_FLAGS : Z := Z.lor (Z.lor WRITABLE PRESENT) NO_EXECUTE.

(** The loops run at most [n] rounds. *)
Fixpoint map_loop (n : nat) (it : PagesIter) : M (PT * RangeSet) MemError unit :=
  match n with
  | O => mret tt
  | S n =>
      '(page, it) ← lift (PagesIter_next it);
      match page with
      | None => mret tt
      | Some page =>
          let sz := page_size (pi_pages it) in
          frame ← on_snd (FrameAllocator_alloc sz);
          _ ← mapM_err PageTableMap (map_kernel sz page frame STACK_FLAGS);
          map_loop n it
      end
  end.

Definition map_guard (guard : option Page) (guard_frame : PhysFrame) : M (PT * RangeSet) MemError unit :=
  match guard with
  | None => mret tt
  | Some guard => mapM_err PageTableMap (map_kernel Size4KiB guard guard_frame GUARD)
  end.

Definition GuardedPages_map (self : GuardedPages) : M (PT * RangeSet) MemError GuardedPages :=
  _ ← map_loop (S (Z.to_nat (page_count (pages self)))) (Pages_iter (pages self));
  match head_guard self, tail_guard self with
  | None, None => mret self
  | _, _ =>
      guard_frame ← on_snd FrameAllocator_guard_frame;
      _ ← map_guard (head_guard self) guard_frame;
      _ ← map_guard (tail_guard self) guard_frame;
      mret self
  end.

Fixpoint unmap_loop (n : nat) (it : PagesIter) : M (PT * RangeSet) PageTableMapError unit :=
  match n with
  | O => mret tt
  | S n =>
      '(page, it) ← lift (PagesIter_next it);
      match page with
      | None => mret tt
      | Some page =>
          let sz := page_size (pi_pages it) in
          '(frame, _) ← on_fst (PageTable_unmap sz page);
          _ ← on_snd (PhysAllocator_free sz frame);
          unmap_loop n it
      end
  end.

Definition clear_guard (guard : option Page) : M (PT * RangeSet) PageTableMapError unit :=
  match guard with
  | None => mret tt
  | Some guard =>
      u ← on_fst (PageTable_clear Size4KiB guard);
      lift (assert_ (match u with UnmappedNotPresent _ _ => true | _ => false end))
  end.

Definition GuardedPages_unmap (self : GuardedPages) : M (PT * RangeSet) PageTableMapError GuardedPages :=
  _ ← unmap_loop (S (Z.to_nat (page_count (pages self)))) (Pages_iter (pages self));
  _ ← clear_guard (head_guard self);
  _ ← clear_guard (tail_guard self);
  mret self.
End page_table.
