(* ===== verification/PageMappingProofs.v ===== *)
(** * Correctness of [GuardedPages::map] and [unmap]

    A mapping that succeeded gives every page a frame of its own that was free, and its
    guards entries that are not present; unmapping restores the mappings and gives the
    frames back. A mapping that fails keeps the pages it mapped so far. *)

From S2P Require Import Prelude KernelMem RangeSet RangeSetProofs PageAlloc PageAllocProofs PageMapping.
Local Open Scope Z_scope.

(** ** Pages of a list *)

Definition page_at (ps : Pages) (i : Z) : Page := first_page ps + i * SIZE (page_size ps).

(** The mappings after the pages from the [i]th on got these frames *)
Fixpoint map_all (ps : Pages) (i : Z) (fs : list PhysFrame) (m : mappings) : mappings :=
  match fs with
  | [] => m
  | f :: fs => map_all ps (i + 1) fs (map_page (page_size ps) (page_at ps i) (Some (f, STACK_FLAGS)) m)
  end.
Definition map_guards (g : GuardedPages) (m : mappings) : mappings :=
  let m := match head_guard g with Some h => map_page Size4KiB h (Some (0, GUARD)) m | None => m end in
  match tail_guard g with Some t => map_page Size4KiB t (Some (0, GUARD)) m | None => m end.

(** Equality of mappings *)
Definition same_mappings (m m' : mappings) : Prop := ∀ sz p, m sz p = m' sz p.
#[export] Instance same_mappings_equiv : Equivalence same_mappings.
Proof.
  split; [done|by intros m m' Hm sz p|]. intros m1 m2 m3 H1 H2 sz p. by rewrite H1.
Qed.
#[export] Instance map_page_proper sz p e : Proper (same_mappings ==> same_mappings) (map_page sz p e).
Proof. intros m m' Hm sz' p'. unfold map_page. by destruct (decide _). Qed.
#[export] Instance map_all_proper ps i fs : Proper (same_mappings ==> same_mappings) (map_all ps i fs).
Proof.
  revert i. induction fs as [|f fs IH]; intros i m m' Hm; [done|]. cbn. apply IH. by rewrite Hm.
Qed.

Lemma map_page_eq sz p e m : map_page sz p e m sz p = e.
Proof. unfold map_page. by rewrite decide_True. Qed.
Lemma map_page_ne sz p e m sz' p' : (sz', p') ≠ (sz, p) → map_page sz p e m sz' p' = m sz' p'.
Proof. intros. unfold map_page. by rewrite decide_False. Qed.
Lemma map_page_twice sz p e e' m : same_mappings (map_page sz p e (map_page sz p e' m)) (map_page sz p e m).
Proof. intros sz' p'. unfold map_page. by repeat destruct (decide _). Qed.
Lemma map_page_none sz p m : m sz p = None → same_mappings (map_page sz p None m) m.
Proof. intros Hm sz' p'. unfold map_page. destruct (decide _); congruence. Qed.
Lemma map_page_comm sz p e sz' p' e' m : (sz, p) ≠ (sz', p') →
  same_mappings (map_page sz p e (map_page sz' p' e' m)) (map_page sz' p' e' (map_page sz p e m)).
Proof. intros Hne sz2 p2. unfold map_page. repeat destruct (decide _); congruence. Qed.

Lemma map_all_comm ps fs sz p e : ∀ i m,
  (∀ j, i ≤ j < i + Z.of_nat (length fs) → (sz, p) ≠ (page_size ps, page_at ps j)) →
  same_mappings (map_all ps i fs (map_page sz p e m)) (map_page sz p e (map_all ps i fs m)).
Proof.
  induction fs as [|f fs IH]; intros i m Hne; [done|]. cbn [map_all length] in *.
  rewrite map_page_comm by (intros Heq; apply (Hne i); [lia|done]).
  rewrite IH by (intros j Hj; apply Hne; lia). done.
Qed.

Lemma map_all_other ps fs sz p : ∀ i m,
  (∀ j, i ≤ j < i + Z.of_nat (length fs) → (sz, p) ≠ (page_size ps, page_at ps j)) →
  map_all ps i fs m sz p = m sz p.
Proof.
  induction fs as [|f fs IH]; intros i m Hne; [done|]. cbn [map_all length] in *.
  rewrite IH by (intros j Hj; apply Hne; lia). apply map_page_ne, Hne. lia.
Qed.

Lemma page_at_inj ps i j : page_at ps i = page_at ps j → i = j.
Proof. unfold page_at. pose proof (SIZE_bounds (page_size ps)). nia. Qed.

(** ** Frames *)

(** Only free frames were taken. *)
Definition frames_left (fr fr' : RangeSet) : Prop :=
  RangeSet_ok fr' ∧ ∀ q, page_free fr' q → page_free fr q.

Definition frame_areas (sz : PageSize) (fs : list PhysFrame) : list area := (λ f, (f, SIZE sz)) <$> fs.

(** No page lies in two of the areas. *)
Fixpoint apart (l : list area) : Prop :=
  match l with
  | [] => True
  | a :: l => (∀ q, page_aligned q → in_area q a → ¬ in_areas q l) ∧ apart l
  end.

Lemma frames_left_refl fr : RangeSet_ok fr → frames_left fr fr.
Proof. by split. Qed.
Lemma frames_left_trans fr1 fr2 fr3 : frames_left fr1 fr2 → frames_left fr2 fr3 → frames_left fr1 fr3.
Proof. intros [_ H1] [H2 H3]. split; eauto. Qed.
Lemma takes_left l fr fr' : takes l fr fr' → frames_left fr fr'.
Proof. intros []. by split. Qed.

Lemma takes_cons a l fr fr1 fr2 fr3 : takes [a] fr fr1 → frames_left fr1 fr2 → takes l fr2 fr3 →
  takes (a :: l) fr fr3 ∧ ∀ q, page_aligned q → in_area q a → ¬ in_areas q l.
Proof.
  intros [_ Ha Hf Hr] [_ Hl] [Hok Has Hfs Hrs]. unfold in_areas in *.
  assert (∀ q, page_aligned q → in_area q a → page_free fr q ∧ ¬ page_free fr1 q) as Ha'.
  { intros q Hq Hin. apply Hf; [done|]. by apply Exists_cons; left. }
  split; [split; [done|..]|].
  - apply Forall_cons in Ha as [? _]. by constructor.
  - intros q Hq [Hin|Hin]%Exists_cons.
    + destruct (Ha' q Hq Hin) as [? Hn]. split; [done|]. eauto.
    + destruct (Hfs q Hq Hin). split; eauto.
  - eauto.
  - intros q Hq Hin Hin'. destruct (Ha' q Hq Hin) as [_ Hn]. destruct (Hfs q Hq Hin'). eauto.
Qed.

Lemma frames_taken_nil fr fr' : frames_left fr fr' → takes [] fr fr'.
Proof. intros [Hok Hl]. split; [done|constructor| |done]. intros q _ Hin. by apply Exists_nil in Hin. Qed.

Section frames.
Context `{AD : Addresses}.

(** When an allocation of frames may panic: at some point the set of free frames has no
    slot left or reaches to the end of the physical addresses. *)
Definition frames_panic (fr : RangeSet) : Prop :=
  ∃ fr', frames_left fr fr' ∧ may_panic (2 ^ 52) fr'.

Lemma frames_panic_left fr fr' : frames_left fr fr' → frames_panic fr' → frames_panic fr.
Proof. intros Hl (fr2 & Hl2 & Hp). exists fr2. split; [by eapply frames_left_trans|done]. Qed.

Lemma runs_frame_alloc_pan S fr :
  RangeSet_ok fr →
  runs (FrameAllocator_alloc S) (frames_panic fr) (λ e fr', e = OutOfMemory ∧ fr' = fr)
    (λ f fr', f mod SIZE S = 0 ∧ takes [(f, SIZE S)] fr fr') fr.
Proof.
  intros Hok. pose proof (SIZE_bounds S). unfold FrameAllocator_alloc, PhysAllocator_alloc.
  apply runs_bind, runs_bind.
  assert (may_panic (2 ^ 52) fr → frames_panic fr) as Hpan.
  { intros Hm. exists fr. split; [by apply frames_left_refl|done]. }
  eapply runs_mono; [apply (runs_allocate (SIZE S) (SIZE S) (λ _ _, False)
    (λ o fr', (o = None → fr' = fr) ∧ ∀ p, o = Some p →
       p mod SIZE S = 0 ∧ takes [(p, SIZE S)] fr fr' ∧ covers (RangeSet_entries fr) (p + SIZE S - 1)
       ∧ 0 ≤ p))|by intros; apply Hpan; left|done|].
  1-3: first [done|apply SIZE_u64]. 1: apply SIZE_aligned.
  - done.
  - intros ptr fr' Hal _ _ Ht. split; [done|]. intros p [= <-].
    pose proof (last_covered _ _ _ _ _ Hal). pose proof (allocated_bounds _ _ _ _ _ Hok Hal).
    destruct Hal as (Hmod & _). split_and!; [done|by apply Ht, (SIZE_mod S)|auto with lia|lia].
  - intros o fr' [Hn Hs]. apply runs_lift. destruct o as [p|].
    2: { cbn. unfold runs. cbn. split; [done|by apply Hn]. }
    destruct (Hs p eq_refl) as (Hm & Ht & Hc & Hp). cbn.
    destruct (PhysAddr_new_cases (E:=MemError) p) as [->|Hnew].
    + cbn. unfold from_start_address. rewrite Hm. cbn. by unfold runs.
    + rewrite Hnew. cbn. apply Hpan. right. exists (p + SIZE S - 1). split; [done|].
      destruct (decide (p < 2 ^ 52)) as [Hlt|]; [|lia]. by rewrite PhysAddr_new_ok in Hnew by lia.
Qed.

Lemma runs_allocate_frame {E} sz fr0 fr :
  frames_left fr0 fr →
  runs (allocate_frame (E:=E) sz) (frames_panic fr0) (λ _ _, False) (λ _ fr', frames_left fr0 fr') fr.
Proof.
  intros Hl. pose proof (runs_frame_alloc_pan sz fr (proj1 Hl)) as Hr. unfold runs, allocate_frame in *.
  destruct (FrameAllocator_alloc sz fr) as [[f|e| |] fr']; [..|done].
  - eapply frames_left_trans; [done|]. by eapply takes_left, Hr.
  - by destruct Hr as [_ ->].
  - by eapply frames_panic_left.
Qed.
End frames.

(** ** Runs on parts of the state *)

(** ** Mapping *)

Section mapping.
Context `{AD : Addresses} {PT : Type} `{MP : Mapper PT}.
Implicit Types (pt : PT) (fr : RangeSet) (ps : Pages) (g : GuardedPages).

Lemma runs_map_kernel sz page frame flags pt fr0 fr :
  frames_left fr0 fr → mapping pt sz page = None →
  runs (map_kernel sz page frame flags) (frames_panic fr0)
    (λ e s, (e = FrameAllocationFailed ∨ e = ParentEntryHugePage) ∧
            same_mappings (mapping s.1) (mapping pt) ∧ frames_left fr0 s.2)
    (λ _ s, same_mappings (mapping s.1) (map_page sz page (Some (frame, flags)) (mapping pt))
            ∧ frames_left fr0 s.2) (pt, fr).
Proof.
  intros Hl Hm. unfold map_kernel. apply runs_mapM_err.
  eapply runs_mono; [apply (map_to_spec _ sz page frame flags KERNEL_TABLE_FLAGS pt fr
    (frames_left fr0) (frames_panic fr0)); [|done|done]|done| |done].
  - intros fr' Hl'. by apply runs_allocate_frame.
  - intros e s' (He & Hs). split; [|done]. destruct He as [-> | ->]; [by left|by right].
Qed.

(** The pages have addresses in the lower half. *)
Definition pages_low ps : Prop :=
  wf_pages ps ∧ 0 ≤ first_page ps ∧ first_page ps + SIZE (page_size ps) * page_count ps ≤ 2 ^ 47.

Lemma PagesIter_next_low {E} ps i : pages_low ps → 0 ≤ i ≤ page_count ps →
  PagesIter_next (E:=E) (mkPagesIter ps i) =
    Ok (if decide (i < page_count ps) then (Some (page_at ps i), mkPagesIter ps (i + 1))
        else (None, mkPagesIter ps i)).
Proof.
  intros ([Hm Hc] & Hp & He) Hi. pose proof (SIZE_bounds (page_size ps)).
  unfold PagesIter_next. cbn [pi_pages index]. destruct (Z.geb_spec i (page_count ps)), (decide _); try lia; [done|].
  assert (0 ≤ i * SIZE (page_size ps) ≤ SIZE (page_size ps) * page_count ps - SIZE (page_size ps)) as Hb by nia.
  unfold Page_add, mul_u64. rewrite (proj2 (Z.leb_le _ _)) by (unfold u64_max; lia). cbn [mbind result_bind].
  unfold VirtAddr_add. rewrite (add_u64_ok (first_page ps)) by (unfold u64_max; lia). cbn [mbind result_bind].
  rewrite VirtAddr_new_ok by lia. cbn [mbind result_bind]. rewrite add_u64_ok by (unfold u64_max; nia). done.
Qed.

(** What a failed mapping has done: some of the pages are mapped. *)
Definition partly_mapped ps (i : Z) (e : MemError) pt fr (s : PT * RangeSet) : Prop :=
  (e = OutOfMemory ∨ e = PageTableMap FrameAllocationFailed ∨ e = PageTableMap ParentEntryHugePage) ∧
  ∃ fs, Z.of_nat (length fs) < page_count ps - i ∧
    same_mappings (mapping s.1) (map_all ps i fs (mapping pt)) ∧
    takes (frame_areas (page_size ps) fs) fr s.2 ∧ apart (frame_areas (page_size ps) fs).
Definition all_mapped ps (i : Z) pt fr (s : PT * RangeSet) : Prop :=
  ∃ fs, Z.of_nat (length fs) = page_count ps - i ∧
    same_mappings (mapping s.1) (map_all ps i fs (mapping pt)) ∧
    takes (frame_areas (page_size ps) fs) fr s.2 ∧ apart (frame_areas (page_size ps) fs) ∧
    Forall (λ f, f mod SIZE (page_size ps) = 0) fs.

Lemma runs_map_loop ps n : ∀ i pt fr,
  RangeSet_ok fr → pages_low ps → 0 ≤ i ≤ page_count ps → (Z.to_nat (page_count ps - i) < n)%nat →
  (∀ j, i ≤ j < page_count ps → mapping pt (page_size ps) (page_at ps j) = None) →
  runs (map_loop n (mkPagesIter ps i)) (frames_panic fr) (λ e, partly_mapped ps i e pt fr)
    (λ _, all_mapped ps i pt fr) (pt, fr).
Proof.
  induction n as [|n IH]; intros i pt fr Hok Hlow Hi Hn Hnone; [lia|].
  cbn [map_loop]. apply runs_bind, runs_lift. rewrite PagesIter_next_low by done.
  destruct (decide (i < page_count ps)) as [Hlt|Hge].
  2: { apply runs_ret. exists []. cbn. split_and!; [lia|done|by apply frames_taken_nil, frames_left_refl|done|done]. }
  apply runs_bind, runs_on_snd. cbn [pi_pages].
  eapply runs_mono; [by apply runs_frame_alloc_pan|done|cbn|].
  { intros e fr' [-> ->]. split; [by left|]. exists []. cbn.
    split_and!; [lia|done|by apply frames_taken_nil, frames_left_refl|done]. }
  intros f fr1 [Hf Ht]. cbn beta. apply runs_bind, runs_mapM_err.
  pose proof (tk_ok _ _ _ Ht) as Hok1. pose proof (takes_left _ _ _ Ht) as Hl1.
  eapply runs_mono; [apply (runs_map_kernel _ _ _ _ pt fr1 fr1); [by apply frames_left_refl|by apply Hnone; lia]|..].
  { by apply frames_panic_left. }
  { intros e [pt' fr'] (He & Hsame & Hl). split; [destruct He as [-> | ->]; auto|]. exists [].
    split_and!; [cbn; lia|done|by apply frames_taken_nil; eapply frames_left_trans|done]. }
  intros [] [pt2 fr2] [Hsame Hl2]. cbn [fst snd] in *.
  assert (∀ fs, same_mappings (map_all ps (i + 1) fs (mapping pt2)) (map_all ps i (f :: fs) (mapping pt))) as Hall.
  { intros fs. cbn [map_all]. by rewrite Hsame. }
  eapply runs_mono; [apply (IH (i + 1) pt2 fr2)|..].
  - apply Hl2.
  - done.
  - lia.
  - lia.
  - intros j Hj. rewrite Hsame, map_page_ne; [apply Hnone; lia|]. intros [= Heq%page_at_inj]. lia.
  - apply frames_panic_left. by eapply frames_left_trans.
  - intros e s (He & fs & Hlen & Hm & Hts & Hap). split; [done|]. exists (f :: fs).
    destruct (takes_cons _ _ _ _ _ _ Ht Hl2 Hts) as [Hts' Hap'].
    split_and!; [cbn [length]; lia|by rewrite Hm|done|by split].
  - intros [] s (fs & Hlen & Hm & Hts & Hap & Hmod). exists (f :: fs).
    destruct (takes_cons _ _ _ _ _ _ Ht Hl2 Hts) as [Hts' Hap'].
    split_and!; [cbn [length]; lia|by rewrite Hm|done|by split|by constructor].
Qed.

(** Guards lie outside of the pages, as the page allocator places them. *)
Definition guards_apart g : Prop :=
  (∀ h, head_guard g = Some h → h < first_page (pages g)) ∧
  (∀ t, tail_guard g = Some t → page_at (pages g) (page_count (pages g)) ≤ t).

Definition unmapped_pages g pt : Prop :=
  (∀ j, 0 ≤ j < page_count (pages g) → mapping pt (page_size (pages g)) (page_at (pages g) j) = None) ∧
  (∀ h, head_guard g = Some h → mapping pt Size4KiB h = None) ∧
  (∀ t, tail_guard g = Some t → mapping pt Size4KiB t = None).

Lemma guard_not_page g p j : guards_apart g → head_guard g = Some p ∨ tail_guard g = Some p →
  0 ≤ j < page_count (pages g) → p ≠ page_at (pages g) j.
Proof.
  intros [Hh Ht] Hp Hj ->. pose proof (SIZE_bounds (page_size (pages g))). unfold page_at in *.
  destruct Hp as [Hp|Hp]; [apply Hh in Hp|apply Ht in Hp]; nia.
Qed.
Lemma guards_differ g h t : guards_apart g → 0 ≤ page_count (pages g) →
  head_guard g = Some h → tail_guard g = Some t → h ≠ t.
Proof.
  intros [Hh Ht] Hc Hph Hpt. apply Hh in Hph. apply Ht in Hpt. unfold page_at in *.
  pose proof (SIZE_bounds (page_size (pages g))). nia.
Qed.

Lemma takes_then l fr fr1 fr2 : takes l fr fr1 → frames_left fr1 fr2 → takes l fr fr2.
Proof.
  intros [_ Ha Hf Hr] [Hok Hl]. split; [done|done| |eauto].
  intros q Hq Hin. destruct (Hf q Hq Hin). split; eauto.
Qed.

Lemma runs_map_guard guard pt fr0 fr :
  frames_left fr0 fr → (∀ p, guard = Some p → mapping pt Size4KiB p = None) →
  runs (map_guard guard 0) (frames_panic fr0)
    (λ e s, (e = PageTableMap FrameAllocationFailed ∨ e = PageTableMap ParentEntryHugePage) ∧
            same_mappings (mapping s.1) (mapping pt) ∧ frames_left fr0 s.2)
    (λ _ s, same_mappings (mapping s.1)
              (match guard with
               | Some p => map_page Size4KiB p (Some (0, GUARD)) (mapping pt)
               | None => mapping pt
               end) ∧ frames_left fr0 s.2) (pt, fr).
Proof.
  intros Hl Hn. destruct guard as [p|]; [|done]. cbn [map_guard]. apply runs_mapM_err.
  eapply runs_mono; [apply (runs_map_kernel _ _ _ _ pt fr0 fr); auto|done| |done].
  intros e s (He & Hs). split; [|done]. destruct He as [-> | ->]; auto.
Qed.

Lemma map_all_at ps fs f : ∀ i j m, fs !! j = Some f →
  map_all ps i fs m (page_size ps) (page_at ps (i + Z.of_nat j)) = Some (f, STACK_FLAGS).
Proof.
  induction fs as [|f' fs IH]; intros i j m Hj; [done|]. cbn [map_all]. destruct j as [|j]; cbn in Hj.
  - injection Hj as ->. rewrite Z.add_0_r, map_all_other; [apply map_page_eq|].
    intros j Hj [= Heq%page_at_inj]. lia.
  - rewrite <- (IH (i + 1) j (map_page (page_size ps) (page_at ps i) (Some (f', STACK_FLAGS)) m) Hj).
    do 2 f_equal. lia.
Qed.

(** The pages have these frames. *)
Definition has_frames ps (fs : list PhysFrame) pt : Prop :=
  ∀ j f, fs !! j = Some f → mapping pt (page_size ps) (page_at ps (Z.of_nat j)) = Some (f, STACK_FLAGS).

Lemma map_all_has_frames ps fs m pt : same_mappings (mapping pt) (map_all ps 0 fs m) → has_frames ps fs pt.
Proof. intros Hs j f Hj. by rewrite Hs, <- (map_all_at ps fs f 0 j m Hj). Qed.

(** A failure keeps the frames of the pages that were mapped. *)
Definition map_failed g (e : MemError) fr (s : PT * RangeSet) : Prop :=
  (e = OutOfMemory ∨ e = PageTableMap FrameAllocationFailed ∨ e = PageTableMap ParentEntryHugePage) ∧
  ∃ fs, Z.of_nat (length fs) ≤ page_count (pages g) ∧ has_frames (pages g) fs s.1 ∧
    takes (frame_areas (page_size (pages g)) fs) fr s.2.
Definition map_done g pt fr (fs : list PhysFrame) (s : PT * RangeSet) : Prop :=
  Z.of_nat (length fs) = page_count (pages g) ∧
  same_mappings (mapping s.1) (map_guards g (map_all (pages g) 0 fs (mapping pt))) ∧
  takes (frame_areas (page_size (pages g)) fs) fr s.2 ∧ apart (frame_areas (page_size (pages g)) fs) ∧
  Forall (λ f, f mod SIZE (page_size (pages g)) = 0) fs.

Lemma has_frames_same ps fs pt pt' :
  (∀ j, 0 ≤ j < Z.of_nat (length fs) →
     mapping pt' (page_size ps) (page_at ps j) = mapping pt (page_size ps) (page_at ps j)) →
  has_frames ps fs pt → has_frames ps fs pt'.
Proof. intros Hs Hf j f Hj. rewrite Hs; [by apply Hf|]. apply lookup_lt_Some in Hj. lia. Qed.

Lemma guard_keeps_page g p e m j : guards_apart g → head_guard g = Some p ∨ tail_guard g = Some p →
  0 ≤ j < page_count (pages g) →
  map_page Size4KiB p e m (page_size (pages g)) (page_at (pages g) j)
  = m (page_size (pages g)) (page_at (pages g) j).
Proof. intros Hg Hp Hj. apply map_page_ne. intros [= _ Heq]. by eapply guard_not_page. Qed.

Lemma runs_map g pt fr :
  RangeSet_ok fr → pages_low (pages g) → guards_apart g → unmapped_pages g pt →
  runs (GuardedPages_map g) (frames_panic fr) (λ e, map_failed g e fr)
    (λ g' s, g' = g ∧ ∃ fs, map_done g pt fr fs s) (pt, fr).
Proof.
  intros Hok Hlow Hap (Hn & Hh & Ht). unfold GuardedPages_map. apply runs_bind.
  pose proof Hlow as ([_ Hc] & _).
  eapply runs_mono; [apply (runs_map_loop (pages g) _ 0 pt fr); [done|done|lia|lia|done]|done|..].
  { intros e [pt' fr'] (He & fs & Hlen & Hm & Hts & _). split; [done|]. exists fs.
    split_and!; [lia|by eapply map_all_has_frames|done]. }
  intros [] [pt1 fr1] (fs & Hlen & Hm & Hts & Hapt & Hmod). cbn [fst snd] in *. rewrite Z.sub_0_r in Hlen.
  assert (has_frames (pages g) fs pt1) as Hf1 by by eapply map_all_has_frames.
  assert (frames_left fr1 fr1) as Hl1 by apply frames_left_refl, Hts.
  assert (∀ sz p, (sz = Size4KiB ∧ (head_guard g = Some p ∨ tail_guard g = Some p)) →
    map_all (pages g) 0 fs (mapping pt) sz p = mapping pt sz p) as Hother.
  { intros sz p [-> Hp]. apply map_all_other. intros j Hj [= _ Heq]. eapply guard_not_page; [done|done| |done]. lia. }
  destruct (decide (head_guard g = None ∧ tail_guard g = None)) as [[Hh0 Ht0]|Hsome].
  { rewrite Hh0, Ht0. apply runs_ret. split; [done|]. exists fs.
    split_and!; try done. unfold map_guards. by rewrite Hh0, Ht0. }
  assert (runs (guard_frame ← on_snd FrameAllocator_guard_frame;
    _ ← map_guard (head_guard g) guard_frame; _ ← map_guard (tail_guard g) guard_frame; mret g)
    (frames_panic fr) (λ e, map_failed g e fr) (λ g' s, g' = g ∧ ∃ fs, map_done g pt fr fs s) (pt1, fr1)) as Hrest;
    [|by destruct (head_guard g), (tail_guard g); [..|tauto]].
  apply runs_bind, runs_on_snd. unfold FrameAllocator_guard_frame, mret, M_ret, runs at 1. apply runs_bind.
  pose proof (takes_left _ _ _ Hts) as Hl0.
  eapply runs_mono; [apply (runs_map_guard _ pt1 fr1 fr1 Hl1)|by apply frames_panic_left|..].
  { intros p Hp. rewrite Hm, Hother by auto. auto. }
  { intros e [pt' fr'] (He & Hs & Hl). split; [tauto|]. exists fs.
    split_and!; [lia|by eapply has_frames_same; [|exact Hf1]; intros; apply Hs|by eapply takes_then]. }
  intros [] [pt2 fr2] [Hm2 Hl2]. cbn [fst snd] in *. apply runs_bind.
  eapply runs_mono; [apply (runs_map_guard _ pt2 fr1 fr2 Hl2)|by apply frames_panic_left|..].
  { intros p Hp. rewrite Hm2. destruct (head_guard g) as [h|] eqn:Hhg.
    - rewrite map_page_ne by (intros [= Heq]; by eapply (guards_differ g h p)).
      rewrite Hm, Hother by auto. auto.
    - rewrite Hm, Hother by auto. auto. }
  { intros e [pt' fr'] (He & Hs & Hl). split; [tauto|]. exists fs. split_and!; [lia| |by eapply takes_then].
    eapply has_frames_same; [|exact Hf1]. intros j Hj. cbn [fst]. rewrite Hs, Hm2.
    destruct (head_guard g) eqn:Hhg; [|done]. apply guard_keeps_page; [done|by left|lia]. }
  intros [] [pt3 fr3] [Hm3 Hl3]. apply runs_ret. split; [done|]. exists fs.
  split_and!; try done; [|by eapply takes_then]. cbn [fst] in *. rewrite Hm3. unfold map_guards.
  destruct (tail_guard g); rewrite Hm2; destruct (head_guard g); by rewrite Hm.
Qed.

(** ** Unmapping *)

(** Freeing frames may panic when the array of the free ranges gets full. *)
Definition frees_panic fr : Prop := ∃ l fr', gives l fr fr' ∧ room fr' = 0%nat.

Lemma runs_phys_free {E} sz f (err : E → RangeSet → Prop) fr :
  RangeSet_ok fr → f mod SIZE sz = 0 → 0 ≤ f → f + SIZE sz ≤ u64_max →
  runs (PhysAllocator_free sz f) (room fr = 0%nat) err (λ _ fr', gives [(f, SIZE sz)] fr fr') fr.
Proof.
  intros Hok Hm Hp He. pose proof (SIZE_bounds sz). unfold PhysAllocator_free.
  apply runs_bind, runs_lift. rewrite add_u64_ok by lia. cbn. rewrite sub_u64_ok by lia.
  apply runs_insert; [done|apply page_area_ok; (done || lia)|lia|done].
Qed.

Lemma runs_unmap_loop ps n : ∀ i fs pt fr m,
  RangeSet_ok fr → pages_low ps → 0 ≤ i ≤ page_count ps → (Z.to_nat (page_count ps - i) < n)%nat →
  Z.of_nat (length fs) = page_count ps - i →
  Forall (λ f, f mod SIZE (page_size ps) = 0 ∧ 0 ≤ f ∧ f + SIZE (page_size ps) ≤ u64_max) fs →
  (∀ j, i ≤ j < page_count ps → m (page_size ps) (page_at ps j) = None) →
  same_mappings (mapping pt) (map_all ps i fs m) →
  runs (unmap_loop n (mkPagesIter ps i)) (frees_panic fr) (λ _ _, False)
    (λ _ s, same_mappings (mapping s.1) m ∧ gives (frame_areas (page_size ps) fs) fr s.2) (pt, fr).
Proof.
  induction n as [|n IH]; intros i fs pt fr m Hok Hlow Hi Hn Hlen Hfs Hnone Hsame; [lia|].
  cbn [unmap_loop]. apply runs_bind, runs_lift. rewrite PagesIter_next_low by done.
  destruct (decide (i < page_count ps)) as [Hlt|Hge].
  2: { destruct fs; [|cbn in Hlen; lia]. apply runs_ret. split; [done|by apply gives_nil]. }
  destruct fs as [|f fs]; [cbn in Hlen; lia|]. apply Forall_cons in Hfs as [(Hf1 & Hf2 & Hf3) Hfs].
  cbn [length pi_pages] in *. apply runs_bind, runs_on_fst. unfold PageTable_unmap. apply runs_mapM_err.
  destruct (unmap_spec (page_size ps) (page_at ps i) pt f STACK_FLAGS) as (pt1 & Heq & Hm1).
  { rewrite Hsame. pose proof (map_all_at ps (f :: fs) f i 0 m eq_refl) as Hat. by rewrite Z.add_0_r in Hat. }
  { done. }
  unfold runs at 1. rewrite Heq. cbn beta iota. apply runs_bind, runs_on_snd.
  eapply runs_mono; [by apply (runs_phys_free _ f (λ _ _, False))|by exists [], fr; split; [apply gives_nil|]|done|].
  intros [] fr1 Hg1. cbn beta.
  eapply runs_mono; [apply (IH (i + 1) fs pt1 fr1 m); [apply Hg1|done|lia|lia|lia|done|by intros; apply Hnone; lia|]|..].
  - intros sz p. rewrite Hm1. revert sz p. change (same_mappings (map_page (page_size ps) (page_at ps i) None (mapping pt))
      (map_all ps (i + 1) fs m)). rewrite Hsame. cbn [map_all].
    assert (∀ j, i + 1 ≤ j < i + 1 + Z.of_nat (length fs) →
      (page_size ps, page_at ps i) ≠ (page_size ps, page_at ps j)) as Hne.
    { intros j Hj [= Heqp%page_at_inj]. lia. }
    rewrite map_all_comm, map_page_twice, <- map_all_comm by done.
    by rewrite map_page_none by (apply Hnone; lia).
  - intros (l & fr' & Hg & Hr). exists ([(f, SIZE (page_size ps))] ++ l), fr'. split; [by eapply gives_app|done].
  - done.
  - intros [] s [Hm2 Hg2]. split; [done|]. apply (gives_app _ _ _ _ _ Hg1 Hg2).
Qed.

Lemma runs_clear_guard guard pt (fr : RangeSet) m (pan : Prop) (err : PageTableMapError → PT * RangeSet → Prop) :
  (∀ p, guard = Some p → m Size4KiB p = None) →
  same_mappings (mapping pt)
    (match guard with Some p => map_page Size4KiB p (Some (0, GUARD)) m | None => m end) →
  runs (clear_guard guard) pan err (λ _ s, same_mappings (mapping s.1) m ∧ s.2 = fr) (pt, fr).
Proof.
  intros Hn Hs. destruct guard as [p|]; [|by apply runs_ret]. cbn [clear_guard]. apply runs_bind, runs_on_fst.
  unfold PageTable_clear. apply runs_mapM_err.
  destruct (clear_spec Size4KiB p pt 0 GUARD) as (pt1 & Heq & Hm1); [by rewrite Hs, map_page_eq|].
  unfold runs at 1. rewrite Heq. apply runs_lift. cbn. split; [|done].
  intros sz p'. rewrite Hm1. revert sz p'.
  change (same_mappings (map_page Size4KiB p None (mapping pt)) m). rewrite Hs, map_page_twice.
  apply map_page_none. auto.
Qed.

(** [map_guards] and [map_all] commute. *)
Lemma map_guards_all g fs m : guards_apart g → Z.of_nat (length fs) = page_count (pages g) →
  same_mappings (map_guards g (map_all (pages g) 0 fs m)) (map_all (pages g) 0 fs (map_guards g m)).
Proof.
  intros Hap Hlen. assert (∀ p e m, head_guard g = Some p ∨ tail_guard g = Some p →
    same_mappings (map_page Size4KiB p e (map_all (pages g) 0 fs m)) (map_all (pages g) 0 fs (map_page Size4KiB p e m))) as Hc.
  { intros p e m' Hp. symmetry. apply map_all_comm. intros j Hj [= _ Heq]. eapply guard_not_page; [done|done| |done]. lia. }
  unfold map_guards. destruct (head_guard g) as [h|], (tail_guard g) as [t|]; try done;
    rewrite ?(Hc h) by (by left); by rewrite ?(Hc t) by (by right).
Qed.

Lemma runs_unmap g fs pt0 pt fr :
  RangeSet_ok fr → pages_low (pages g) → guards_apart g → unmapped_pages g pt0 →
  Z.of_nat (length fs) = page_count (pages g) →
  Forall (λ f, f mod SIZE (page_size (pages g)) = 0 ∧ 0 ≤ f ∧ f + SIZE (page_size (pages g)) ≤ u64_max) fs →
  same_mappings (mapping pt) (map_guards g (map_all (pages g) 0 fs (mapping pt0))) →
  runs (GuardedPages_unmap g) (frees_panic fr) (λ _ _, False)
    (λ g' s, g' = g ∧ same_mappings (mapping s.1) (mapping pt0) ∧
             gives (frame_areas (page_size (pages g)) fs) fr s.2) (pt, fr).
Proof.
  intros Hok Hlow Hap (Hn & Hh & Ht) Hlen Hfs Hm. unfold GuardedPages_unmap. apply runs_bind.
  pose proof Hlow as ([_ Hc] & _).
  eapply runs_mono; [apply (runs_unmap_loop (pages g) _ 0 fs pt fr (map_guards g (mapping pt0)));
    [done|done|lia|lia|lia|done| |]|done|done|].
  - intros j Hj. unfold map_guards. destruct (head_guard g) eqn:Hhg, (tail_guard g) eqn:Htg;
      rewrite ?guard_keeps_page by (done || auto); auto.
  - by rewrite Hm, map_guards_all.
  - intros [] [pt1 fr1] [Hm1 Hg1]. cbn [fst snd] in *. apply runs_bind.
    eapply runs_mono; [apply (runs_clear_guard (head_guard g) pt1 fr1
      (match tail_guard g with Some t => map_page Size4KiB t (Some (0, GUARD)) (mapping pt0) | None => mapping pt0 end)
      (frees_panic fr) (λ _ _, False))|done|done|].
    + intros p Hp. destruct (tail_guard g) as [t|] eqn:Htg; [|auto].
      rewrite map_page_ne by (intros [= Heq]; by eapply (guards_differ g p t)). auto.
    + rewrite Hm1. unfold map_guards. destruct (head_guard g) as [h|] eqn:Hhg, (tail_guard g) as [t|] eqn:Htg; try done.
      apply map_page_comm. intros [= Heq]. by eapply (guards_differ g h t).
    + intros [] [pt2 fr2] [Hm2 Hf2]. cbn [fst snd] in *. subst fr2. apply runs_bind.
      eapply runs_mono; [apply (runs_clear_guard (tail_guard g) pt2 fr1 (mapping pt0)
        (frees_panic fr) (λ _ _, False)); [auto|done]|done|done|].
      intros [] [pt3 fr3] [Hm3 Hf3]. cbn [fst snd] in *. subst fr3. by apply runs_ret.
Qed.

(** ** The two together *)

Lemma taken_bounds sz f fr fr' l : takes l fr fr' → (f, SIZE sz) ∈ l →
  (∀ x, covers (RangeSet_entries fr) x → x + 1 < 2 ^ 52) → 0 ≤ f ∧ f + SIZE sz ≤ u64_max.
Proof.
  intros [_ Ha Hf _] Hin Hlow. rewrite Forall_forall in Ha. destruct (Ha _ Hin) as (H1 & H2 & H3 & H4 & H5).
  cbn in *. split; [done|]. pose proof (SIZE_bounds sz). assert (page_aligned (f + SIZE sz - 4096)) as Hal.
  { unfold page_aligned in *. Z.to_euclidean_division_equations. lia. }
  destruct (Hf (f + SIZE sz - 4096) Hal) as [[_ Hc] _].
  { apply Exists_exists. exists (f, SIZE sz). split; [done|]. unfold in_area. cbn. lia. }
  specialize (Hlow (f + SIZE sz - 1) ltac:(apply Hc; lia)). unfold u64_max. lia.
Qed.

(** C33: mapping guarded pages that are not mapped either fails, keeping the frames of the
    pages that were mapped before the failure, or gives every page a frame of its own
    that was free, writable and not executable, the guards entries that are not
    present, and changes no other mapping. After that unmapping succeeds: all
    mappings are as they were before the two calls, and exactly the frames of the
    pages are free again. Only when the arrays of the free ranges get full the calls
    may panic. *)
Theorem map_unmap_roundtrip (g : GuardedPages) (pt : PT) (fr : RangeSet) :
  RangeSet_ok fr → (∀ x, covers (RangeSet_entries fr) x → x + 1 < 2 ^ 52) →
  pages_low (pages g) → guards_apart g → unmapped_pages g pt →
  runs (GuardedPages_map g) (frames_panic fr) (λ e, map_failed g e fr)
    (λ g' s, g' = g ∧ ∃ fs, map_done g pt fr fs s ∧
       runs (GuardedPages_unmap g') (frees_panic s.2) (λ _ _, False)
         (λ _ s', same_mappings (mapping s'.1) (mapping pt) ∧
                  gives (frame_areas (page_size (pages g)) fs) s.2 s'.2) s) (pt, fr).
Proof.
  intros Hok Hphys Hlow Hap Hun.
  eapply runs_mono; [by apply (runs_map g pt fr)|done|done|].
  intros g' [pt' fr'] (-> & fs & Hdone). split; [done|]. exists fs. split; [done|].
  destruct Hdone as (Hlen & Hm & Ht & _ & Hmod). cbn [fst snd] in *.
  eapply runs_mono; [apply (runs_unmap g fs pt pt' fr'); try done|done|done|by intros ? ? (_ & ? & ?)].
  - apply Ht.
  - rewrite Forall_forall in Hmod |- *. intros f Hf. split; [by apply Hmod|].
    eapply taken_bounds; [done| |done]. apply list_elem_of_fmap. by exists f.
Qed.
End mapping.

(** ** A concrete mapper: the mappings themselves, with one table for every page *)

#[export] Instance plain_mapper : Mapper mappings.
Proof.
  refine {|
    mapping m := m;
    map_to_with_table_flags F E allocate_frame sz page frame flags table_flags := λ '(m, f),
      match m sz page with
      | Some (old, _) => (Err (MapTo_PageAlreadyMapped old), (m, f))
      | None =>
          match allocate_frame f with
          | (Ok (Some _), f) => (Ok tt, (map_page sz page (Some (frame, flags)) m, f))
          | (Ok None, f) | (Err _, f) => (Err MapTo_FrameAllocationFailed, (m, f))
          | (Panic, f) => (Panic, (m, f))
          | (Hang, f) => (Hang, (m, f))
          end
      end;
    unmap sz page := λ m,
      match m sz page with
      | Some e => (Ok e, map_page sz page None m)
      | None => (Err Unmap_PageNotMapped, m)
      end;
    clear sz page := λ m,
      match m sz page with
      | Some (f, fl) =>
          (Ok (if is_present fl then UnmappedPresent f fl else UnmappedNotPresent f fl), map_page sz page None m)
      | None => (Err Unmap_PageNotMapped, m)
      end;
    update_flags sz page flags := λ m,
      match m sz page with
      | Some (f, _) => (Ok tt, map_page sz page (Some (f, flags)) m)
      | None => (Err Flags_PageNotMapped, m)
      end |}.
  - intros F E alloc sz page frame flags tf m f I pan Ha Hf Hm. unfold runs. rewrite Hm.
    specialize (Ha f Hf). unfold runs in Ha. destruct (alloc f) as [[[]|e| |] f']; cbn in *; naive_solver.
  - intros F E alloc sz page frame flags tf m f old fl ->. done.
  - intros sz page m f fl -> _. eauto.
  - intros sz page m ->. eauto.
  - intros sz page m f fl ->. eauto.
  - intros sz page flags m f old ->. eauto.
Defined.

Definition demo_table : mappings := λ _ _, None.

Lemma map_unmap_roundtrip_witness :
  (GuardedPages_map demo_pages (demo_table, demo_free)).1 = Ok demo_pages ∧
  runs (GuardedPages_map demo_pages) (frames_panic demo_free) (λ e, map_failed demo_pages e demo_free)
    (λ g' s, g' = demo_pages ∧ ∃ fs, map_done demo_pages demo_table demo_free fs s ∧
       runs (GuardedPages_unmap g') (frees_panic s.2) (λ _ _, False)
         (λ _ s', same_mappings (mapping s'.1) (mapping demo_table) ∧
                  gives (frame_areas (page_size (pages demo_pages)) fs) s.2 s'.2) s) (demo_table, demo_free).
Proof.
  split; [vm_compute; reflexivity|].
  assert (∀ x, covers (RangeSet_entries demo_free) x → x + 1 < 2 ^ 52) as Hphys.
  { intros x (e & He & Hx)%Exists_exists. unfold RangeSet_entries, demo_free in He. cbn in He.
    apply list_elem_of_singleton in He. subst e. unfold in_range in Hx. cbn in Hx. lia. }
  assert (pages_low (pages demo_pages)) as Hlow.
  { split; [split; [reflexivity|cbn; lia]|]. cbn. lia. }
  assert (guards_apart demo_pages) as Hap.
  { split; intros p [= <-]; cbn; unfold page_at; cbn; lia. }
  assert (unmapped_pages demo_pages demo_table) as Hun by (split; [reflexivity|split; reflexivity]).
  exact (map_unmap_roundtrip demo_pages demo_table demo_free demo_free_ok Hphys Hlow Hap Hun).
Defined.
