(* ===== verification/NvmeProperties.v ===== *)
(** * [wasabi-kernel/src/pci/nvme/properties.rs]: the registers of an NVMe controller

    The structures behind the properties of the controller, their conversions from and
    into words, and the accesses of [nvme/mod.rs] to them. The controller runs while the
    kernel does: before every access it may change its properties ([env]). *)

From S2P Require Import Prelude Bits NvmePrp NvmeCommand PageAlloc.
Local Open Scope Z_scope.

(** [try_into().unwrap()] into an unsigned type with the greatest value [max] *)
Definition fits {E} (max v : Z) : result E Z := if v <=? max then Ok v else Panic.
(** [<<] on [u32] and [u64]: bits that are shifted out are lost *)
Definition shl32 (v n : Z) : Z := Z.shiftl v n mod 2 ^ 32.
Definition shl64 (v n : Z) : Z := Z.shiftl v n mod 2 ^ 64.

Infix ".|" := Z.lor (at level 50, left associativity) : Z_scope.

Definition u8_max : Z := 255.

(** ** The structures *)

Inductive ArbitrationMechanism :=
  | RoundRobbin | WeightedRoundRobbin | Reserved1 | Reserved2 | ArbitrationVendorSpecific.
Definition ArbitrationMechanism_disc (a : ArbitrationMechanism) : Z :=
  match a with
  | RoundRobbin => 0 | WeightedRoundRobbin => 1 | Reserved1 => 2 | Reserved2 => 6
  | ArbitrationVendorSpecific => 7
  end.

Inductive ShutdownStatus := NormalOperation | Occuring | Complete | ShutdownReserved.
Definition ShutdownStatus_disc (s : ShutdownStatus) : Z :=
  match s with NormalOperation => 0 | Occuring => 1 | Complete => 2 | ShutdownReserved => 3 end.

(** [TryFrom<u32>] of both enums *)
Definition try_from_u32 {A} {disc : A → Z} `{!U8Enum disc} (value : Z) : option A :=
  if value <=? u8_max then try_from value else None.

Record Capabilities := mkCapabilities {
  cap_maximum_queue_entries : Z;
  contiguous_queues_required : bool;
  arbitrations_supported : Z;
  cap_reserved_1 : Z;
  timeout : Z;
  cap_doorbell_stride : Z;
  subsystem_reset_supported : bool;
  command_sets_supported : Z;
  boot_partition_support : bool;
  power_scope : Z;
  mem_min_page_size : Z;
  mem_max_page_size : Z;
  persistent_memory_region_support : bool;
  memory_buffer_support : bool;
  subsystem_shutdown_support : bool;
  ready_modes_support : Z;
  cap_reserved_2 : Z;
}.

Record ControllerConfiguration := mkConfiguration {
  enable : bool;
  cc_reserved_1 : Z;
  command_set_selected : Z;
  cc_memory_page_size : Z;
  arbitration_mechanism : ArbitrationMechanism;
  shutdown_notification : Z;
  io_submission_queue_entry_size : Z;
  io_completion_queue_entry_size : Z;
  controller_ready_independent_of_media_enable : bool;
  cc_reserved_2 : Z;
}.

Record ControllerStatus := mkStatus {
  ready : bool;
  fatal_error : bool;
  shutdown_status : ShutdownStatus;
  subsystem_reset_occured : bool;
  processing_paused : bool;
  shutdown_type : bool;
  cs_reserved : Z;
}.

Record AdminQueueAttributes := mkAqa {
  aqa_submission_queue_size : Z;
  aqa_completion_queue_size : Z;
  aqa_reserved_1 : Z;
  aqa_reserved_2 : Z;
}.

Record QueueBaseAddress := mkBase { base_paddr : Z; base_reserved : Z }.
(** [!0xfff] *)
Definition QUEUE_BASE_ADDR_MAKS : Z := u64_max - 4095.

(** ** The conversions *)

Section conversions.
Context `{BF : BitField} `{Addresses} `{!U8Enum ArbitrationMechanism_disc} `{!U8Enum ShutdownStatus_disc}.
Context {E : Type}.
Local Abbreviation result := (result E).

Definition Capabilities_from (value : Z) : result Capabilities :=
  maximum_queue_entries ← fits u16_max (get_bits value 0 15);
  arbitrations_supported ← fits u8_max (get_bits value 17 18);
  reserved_1 ← fits u8_max (get_bits value 19 23);
  timeout ← fits u8_max (get_bits value 24 31);
  doorbell_stride ← fits u32_max (Z.shiftl 1 (2 + get_bits value 32 35));
  command_sets_supported ← fits u8_max (get_bits value 37 44);
  power_scope ← fits u8_max (get_bits value 46 47);
  mem_min_page_size ← fits u32_max (get_bits value 48 51);
  mem_max_page_size ← fits u32_max (get_bits value 52 55);
  ready_modes_support ← fits u8_max (get_bits value 59 60);
  reserved_2 ← fits u8_max (get_bits value 61 63);
  mret (mkCapabilities maximum_queue_entries (get_bit value 16) arbitrations_supported reserved_1
          timeout doorbell_stride (get_bit value 36) command_sets_supported (get_bit value 45)
          power_scope mem_min_page_size mem_max_page_size (get_bit value 56) (get_bit value 57)
          (get_bit value 58) ready_modes_support reserved_2).

(** [ilog2() - n] *)
Definition ilog2_sub (v n : Z) : result Z :=
  l ← ilog2 v; if n <=? l then Ok (l - n) else Panic.

Definition Capabilities_into (self : Capabilities) : result Z :=
  doorbell_stride ← ilog2_sub (cap_doorbell_stride self) 2;
  _ ← assert_ (cap_doorbell_stride self =? Z.shiftl 1 (doorbell_stride + 12));
  mret (cap_maximum_queue_entries self
    .| shl64 (Z.b2z (contiguous_queues_required self)) 16
    .| shl64 (arbitrations_supported self) 17
    .| shl64 (cap_reserved_1 self) 19
    .| shl64 (timeout self) 24
    .| shl64 (cap_doorbell_stride self) 32
    .| shl64 (Z.b2z (subsystem_reset_supported self)) 36
    .| shl64 (command_sets_supported self) 37
    .| shl64 (Z.b2z (boot_partition_support self)) 45
    .| shl64 (power_scope self) 46
    .| shl64 (mem_min_page_size self) 48
    .| shl64 (mem_max_page_size self) 52
    .| shl64 (Z.b2z (persistent_memory_region_support self)) 56
    .| shl64 (Z.b2z (memory_buffer_support self)) 57
    .| shl64 (Z.b2z (subsystem_shutdown_support self)) 58
    .| shl64 (ready_modes_support self) 59
    .| shl64 (cap_reserved_2 self) 61).

(** The size of a completion entry is read from the exclusive range [20..23]. *)
Definition ControllerConfiguration_from (value : Z) : result ControllerConfiguration :=
  reserved_1 ← fits u8_max (get_bits value 1 3);
  command_set_selected ← fits u8_max (get_bits value 4 6);
  memory_page_size ← fits u32_max (Z.shiftl 1 (12 + get_bits value 7 10));
  arbitration_mechanism ← expect (try_from_u32 (get_bits value 11 13));
  shutdown_notification ← fits u8_max (get_bits value 14 15);
  io_submission_queue_entry_size ← fits u16_max (Z.shiftl 1 (get_bits value 16 19));
  io_completion_queue_entry_size ← fits u16_max (Z.shiftl 1 (get_bits value 20 22));
  reserved_2 ← fits u8_max (get_bits value 25 31);
  mret (mkConfiguration (get_bit value 0) reserved_1 command_set_selected memory_page_size
          arbitration_mechanism shutdown_notification io_submission_queue_entry_size
          io_completion_queue_entry_size (get_bit value 24) reserved_2).

Definition ControllerConfiguration_into (self : ControllerConfiguration) : result Z :=
  memory_page_size ← ilog2_sub (cc_memory_page_size self) 12;
  _ ← assert_ (cc_memory_page_size self =? Z.shiftl 1 (memory_page_size + 12));
  sub_queue_size ← ilog2 (io_submission_queue_entry_size self);
  _ ← assert_ (io_submission_queue_entry_size self =? Z.shiftl 1 sub_queue_size);
  comp_queue_size ← ilog2 (io_completion_queue_entry_size self);
  _ ← assert_ (io_completion_queue_entry_size self =? Z.shiftl 1 comp_queue_size);
  mret (Z.b2z (enable self)
    .| shl32 (cc_reserved_1 self) 1
    .| shl32 (command_set_selected self) 4
    .| shl32 memory_page_size 7
    .| shl32 (ArbitrationMechanism_disc (arbitration_mechanism self)) 11
    .| shl32 (shutdown_notification self) 14
    .| shl32 sub_queue_size 16
    .| shl32 comp_queue_size 20
    .| shl32 (Z.b2z (controller_ready_independent_of_media_enable self)) 24
    .| shl32 (cc_reserved_2 self) 25).

Definition ControllerStatus_into (self : ControllerStatus) : Z :=
  shl32 (cs_reserved self) 7
    .| shl32 (Z.b2z (shutdown_type self)) 6
    .| shl32 (Z.b2z (processing_paused self)) 5
    .| shl32 (Z.b2z (subsystem_reset_occured self)) 4
    .| shl32 (ShutdownStatus_disc (shutdown_status self)) 2
    .| shl32 (Z.b2z (fatal_error self)) 1
    .| Z.b2z (ready self).

Definition ControllerStatus_from (value : Z) : result ControllerStatus :=
  shutdown_status ← expect (try_from_u32 (get_bits value 2 3));
  mret (mkStatus (get_bit value 0) (get_bit value 1) shutdown_status (get_bit value 4)
          (get_bit value 5) (get_bit value 6) (get_bits value 7 31)).

Definition AdminQueueAttributes_from (value : Z) : result AdminQueueAttributes :=
  let submission_queue_size := get_bits value 0 11 + 1 in
  _ ← assert_ (submission_queue_size <=? 4096);
  let completion_queue_size := get_bits value 16 27 + 1 in
  _ ← assert_ (completion_queue_size <=? 4096);
  reserved_1 ← fits u8_max (get_bits value 12 15);
  reserved_2 ← fits u8_max (get_bits value 28 31);
  mret (mkAqa submission_queue_size completion_queue_size reserved_1 reserved_2).

Definition AdminQueueAttributes_into (self : AdminQueueAttributes) : result Z :=
  _ ← assert_ (1 <=? aqa_submission_queue_size self);
  _ ← assert_ (1 <=? aqa_completion_queue_size self);
  mret (aqa_submission_queue_size self - 1
    .| shl32 (aqa_completion_queue_size self - 1) 16
    .| shl32 (aqa_reserved_1 self) 12
    .| shl32 (aqa_reserved_2 self) 28).

Definition QueueBaseAddress_from (value : Z) : result QueueBaseAddress :=
  paddr ← PhysAddr_new (Z.land value QUEUE_BASE_ADDR_MAKS);
  mret (mkBase paddr (get_bits value 0 11)).
Definition QueueBaseAddress_into (self : QueueBaseAddress) : result Z :=
  _ ← assert_ (Z.land (base_paddr self) 4095 =? 0);
  mret (Z.land (base_paddr self) QUEUE_BASE_ADDR_MAKS .| base_reserved self).

(** [get_controller_properties_address], for the values of the two base address
    registers. [!] binds more tightly than [==]: it is the complement of the bits. *)
Definition get_controller_properties_address (mlbar mubar : Z) : result Z :=
  if (u32_max - get_bits mlbar 1 2) =? 2 then PhysAddr_new (Z.land mlbar (u64_max - 15))
  else PhysAddr_new (shl64 mubar 32 .| Z.land mlbar (u64_max - 15)).
End conversions.

(** ** Access to the properties *)

(** The words at their offsets, and the number of accesses so far *)
Record Properties := mkProperties { words : Z → Z; accesses : nat }.

Section access.
Context `{BF : BitField} `{Addresses} `{!U8Enum ArbitrationMechanism_disc} `{!U8Enum ShutdownStatus_disc}.
Context (env : nat → (Z → Z) → Z → Z).
Context {E : Type}.
Local Abbreviation M := (M Properties E).

Definition step_controller : M unit :=
  modify (λ s, mkProperties (env (accesses s) (words s)) (S (accesses s))).

Definition read_property (size offset : Z) : M Z :=
  _ ← lift (assert_ (offset + size <? PAGE_SIZE));
  _ ← step_controller;
  gets (λ s, words s offset).
Definition write_property (size offset value : Z) : M unit :=
  _ ← lift (assert_ (offset + size <? PAGE_SIZE));
  _ ← step_controller;
  modify (λ s, mkProperties (λ o, if o =? offset then value else words s o) (accesses s)).
Definition read_property_32 := read_property 4.
Definition write_property_32 := write_property 4.
Definition read_property_64 := read_property 8.
Definition write_property_64 := write_property 8.

Definition read_capabilities : M Capabilities :=
  w ← read_property_64 0; lift (Capabilities_from w).
Definition read_controller_status : M ControllerStatus :=
  w ← read_property_32 28; lift (ControllerStatus_from w).
Definition read_configuration : M ControllerConfiguration :=
  w ← read_property_32 20; lift (ControllerConfiguration_from w).
Definition write_configuration (configuration : ControllerConfiguration) : M unit :=
  w ← lift (ControllerConfiguration_into configuration); write_property_32 20 w.
Definition read_aqa : M AdminQueueAttributes :=
  w ← read_property_32 36; lift (AdminQueueAttributes_from w).
Definition write_aqa (aqa : AdminQueueAttributes) : M unit :=
  w ← lift (AdminQueueAttributes_into aqa); write_property_32 36 w.
Definition read_asq : M QueueBaseAddress :=
  w ← read_property_64 40; lift (QueueBaseAddress_from w).
Definition write_asq (asq : QueueBaseAddress) : M unit :=
  w ← lift (QueueBaseAddress_into asq); write_property_64 40 w.
Definition read_acq : M QueueBaseAddress :=
  w ← read_property_64 48; lift (QueueBaseAddress_from w).
Definition write_acq (acq : QueueBaseAddress) : M unit :=
  w ← lift (QueueBaseAddress_into acq); write_property_64 48 w.

Definition set_enable (b : bool) (c : ControllerConfiguration) : ControllerConfiguration :=
  mkConfiguration b (cc_reserved_1 c) (command_set_selected c) (cc_memory_page_size c)
    (arbitration_mechanism c) (shutdown_notification c) (io_submission_queue_entry_size c)
    (io_completion_queue_entry_size c) (controller_ready_independent_of_media_enable c)
    (cc_reserved_2 c).

(** The wait for the bit [RDY], for as many rounds as there is fuel *)
Fixpoint wait_ready (fuel : nat) (b : bool) : M unit :=
  match fuel with
  | O => lift Hang
  | S fuel =>
      status ← read_controller_status;
      if negb (eqb (ready status) b) then wait_ready fuel b else mret tt
  end.

Definition ensure_disabled (fuel : nat) : M unit :=
  config ← read_configuration;
  if negb (enable config) then mret tt
  else
    _ ← write_configuration (set_enable false config);
    wait_ready fuel false.
Definition ensure_enabled (fuel : nat) : M unit :=
  config ← read_configuration;
  if enable config then mret tt
  else
    _ ← write_configuration (set_enable true config);
    wait_ready fuel true.
End access.
