(* ===== verification/NvmePropertiesProofs.v ===== *)
(** * The registers of an NVMe controller: conversions and enabling

    What is written to a register is read back, reading and writing a register keeps what
    was not changed, and enabling and disabling the controller; and the conversions that
    do not do this. *)

From S2P Require Import Prelude Bits NvmePrp NvmeCommand PageAlloc PageAllocProofs NvmeProperties.
Local Open Scope Z_scope.

(** ** Fields of a word *)

Section fields.
Context `{BF : BitField}.

Lemma shl32_testbit v n i : 0 ≤ n → 0 ≤ i →
  Z.testbit (shl32 v n) i = (n <=? i) && (i <? 32) && Z.testbit v (i - n).
Proof.
  intros Hn Hi. unfold shl32. destruct (Z.ltb_spec i 32).
  - rewrite Z.mod_pow2_bits_low by done. rewrite Z.shiftl_spec by done.
    destruct (Z.leb_spec n i); cbn; [done|]. apply Z.testbit_neg_r. lia.
  - rewrite Z.mod_pow2_bits_high by lia. by rewrite andb_false_r.
Qed.

Lemma testbit_small v n i : 0 ≤ v < 2 ^ n → 0 ≤ n ≤ i → Z.testbit v i = false.
Proof. intros Hv Hi. rewrite <- (Z.mod_small v (2 ^ n)) by done. apply Z.mod_pow2_bits_high. lia. Qed.

Lemma get_bits_lor a b l h : 0 ≤ l ≤ h → get_bits (a .| b) l h = get_bits a l h .| get_bits b l h.
Proof.
  intros Hlh. apply Z.bits_inj'. intros i Hi. rewrite Z.lor_spec, !get_bits_testbit, Z.lor_spec by done.
  by destruct (i <=? h - l).
Qed.
Lemma get_bits_shl v s h : 0 ≤ s ≤ h → h < 32 → 0 ≤ v < 2 ^ (h - s + 1) → get_bits (shl32 v s) s h = v.
Proof.
  intros Hs Hh Hv. apply Z.bits_inj'. intros i Hi. rewrite get_bits_testbit, shl32_testbit by lia.
  replace (i + s - s) with i by lia. destruct (Z.leb_spec i (h - s)); cbn.
  - destruct (Z.leb_spec s (i + s)); [|lia]. destruct (Z.ltb_spec (i + s) 32); [done|lia].
  - symmetry. apply (testbit_small v (h - s + 1)); lia.
Qed.
Lemma get_bits_shl_other v s l h :
  0 ≤ l ≤ h → 0 ≤ s → (h < s ∨ s ≤ l ∧ 0 ≤ v < 2 ^ (l - s)) → get_bits (shl32 v s) l h = 0.
Proof.
  intros Hl Hs Ho. apply Z.bits_inj'. intros i Hi. rewrite get_bits_testbit, shl32_testbit, Z.bits_0 by lia.
  destruct (Z.leb_spec i (h - l)); [|done]. destruct (Z.leb_spec s (i + l)); [|done].
  destruct Ho as [?|[? ?]]; [lia|]. rewrite (testbit_small v (l - s)) by lia. by rewrite andb_false_r.
Qed.
Lemma get_bits_low v h : 0 ≤ h → 0 ≤ v < 2 ^ (h + 1) → get_bits v 0 h = v.
Proof. intros Hh Hv. rewrite get_bits_spec by lia. rewrite Z.div_1_r, Z.sub_0_r. by apply Z.mod_small. Qed.
Lemma get_bits_high v l h : 0 ≤ l ≤ h → 0 ≤ v < 2 ^ l → get_bits v l h = 0.
Proof. intros Hl Hv. rewrite get_bits_spec by lia. by rewrite Z.div_small by lia. Qed.

Lemma get_bit_bits x i : 0 ≤ i → get_bit x i = negb (get_bits x i i =? 0).
Proof.
  intros Hi. rewrite get_bit_spec, get_bits_spec, Z.testbit_eqb by lia.
  replace (i - i + 1) with 1 by lia. change (2 ^ 1) with 2.
  pose proof (Z.mod_pos_bound (x / 2 ^ i) 2 ltac:(lia)).
  destruct (Z.eqb_spec ((x / 2 ^ i) mod 2) 1), (Z.eqb_spec ((x / 2 ^ i) mod 2) 0); done || lia.
Qed.
Lemma get_bits_one x i : 0 ≤ i → get_bits x i i = Z.b2z (get_bit x i).
Proof.
  intros Hi. rewrite get_bit_spec, get_bits_spec, Z.testbit_spec' by lia.
  by replace (i - i + 1) with 1 by lia.
Qed.

(** The bits of a field that was read from a word *)
Lemma field_testbit w l h i : 0 ≤ l ≤ h → h < 32 → 0 ≤ i →
  Z.testbit (shl32 (get_bits w l h) l) i = (l <=? i) && (i <=? h) && Z.testbit w i.
Proof.
  intros Hl Hh Hi. rewrite shl32_testbit by lia.
  destruct (Z.leb_spec l i), (Z.leb_spec i h), (Z.ltb_spec i 32); cbn; try done; try lia.
  - rewrite get_bits_testbit by lia. destruct (Z.leb_spec (i - l) (h - l)); [|lia].
    cbn. f_equal. lia.
  - rewrite get_bits_testbit by lia. by destruct (Z.leb_spec (i - l) (h - l)); [lia|].
Qed.
Lemma low_testbit w h i : 0 ≤ h → 0 ≤ i → Z.testbit (get_bits w 0 h) i = (i <=? h) && Z.testbit w i.
Proof. intros. rewrite get_bits_testbit by lia. by rewrite Z.sub_0_r, Z.add_0_r. Qed.

Lemma b2z_bound b : 0 ≤ Z.b2z b < 2.
Proof. destruct b; cbn; lia. Qed.
End fields.

Lemma fits_ok {E} max v : v ≤ max → fits (E:=E) max v = Ok v.
Proof. intros. unfold fits. by destruct (Z.leb_spec v max); [|lia]. Qed.
Lemma ilog2_pow {E} k : 0 ≤ k → ilog2 (E:=E) (2 ^ k) = Ok k.
Proof.
  intros Hk. unfold ilog2. pose proof (Z.pow_pos_nonneg 2 k).
  destruct (Z.leb_spec (2 ^ k) 0); [lia|]. by rewrite Z.log2_pow2.
Qed.
Lemma shiftl_one k : 0 ≤ k → Z.shiftl 1 k = 2 ^ k.
Proof. intros. by rewrite Z.shiftl_mul_pow2, Z.mul_1_l. Qed.

(** [field] reads the field of a word that is made of fields that do not overlap. *)
Ltac side := first [done | cbn; lia].
Ltac field :=
  rewrite ?get_bits_lor by lia;
  repeat first
    [ rewrite get_bits_shl by side
    | rewrite get_bits_shl_other by (side || (left; side) || (right; split; side))
    | rewrite get_bits_low by side
    | rewrite get_bits_high by side ];
  rewrite ?Z.lor_0_l, ?Z.lor_0_r.
Ltac bit := rewrite get_bit_bits by lia; field.

Section roundtrips.
Context `{BF : BitField} `{Addresses} `{!U8Enum ArbitrationMechanism_disc} `{!U8Enum ShutdownStatus_disc}.
Context {E : Type}.

Lemma b2z_nonzero b : negb (Z.b2z b =? 0) = b.
Proof. by destruct b. Qed.

(** A configuration whose fields fit into their bits; [k], [a] and [b] are the
    exponents of the three sizes. *)
Record configuration_valid (c : ControllerConfiguration) (k a b : Z) : Prop := {
  cv_reserved_1 : 0 ≤ cc_reserved_1 c < 8;
  cv_command_set : 0 ≤ command_set_selected c < 8;
  cv_page_size : cc_memory_page_size c = 2 ^ (12 + k); cv_k : 0 ≤ k < 16;
  cv_shutdown : 0 ≤ shutdown_notification c < 4;
  cv_submission : io_submission_queue_entry_size c = 2 ^ a; cv_a : 0 ≤ a < 16;
  cv_completion : io_completion_queue_entry_size c = 2 ^ b; cv_b : 0 ≤ b < 8;
  cv_reserved_2 : 0 ≤ cc_reserved_2 c < 128;
}.

Lemma arbitration_bound a : 0 ≤ ArbitrationMechanism_disc a < 8.
Proof. destruct a; cbn; lia. Qed.

Lemma try_from_disc {A} {disc : A → Z} `{!U8Enum disc} a : disc a ≤ u8_max → try_from_u32 (disc a) = Some a.
Proof. intros Ha. unfold try_from_u32. destruct (Z.leb_spec (disc a) u8_max); [|lia]. by apply try_from_spec. Qed.
Lemma try_from_u32_Some {A} {disc : A → Z} `{!U8Enum disc} v a : try_from_u32 v = Some a → disc a = v.
Proof. unfold try_from_u32. destruct (v <=? u8_max); [|done]. apply try_from_spec. Qed.

Lemma pow_le a b : 0 ≤ a ≤ b → 2 ^ a ≤ 2 ^ b.
Proof. intros. apply Z.pow_le_mono_r; lia. Qed.

Lemma ilog2_sub_pow k n : 0 ≤ k → 0 ≤ n → ilog2_sub (E:=E) (2 ^ (n + k)) n = Ok k.
Proof.
  intros Hk Hn. unfold ilog2_sub. rewrite ilog2_pow by lia. cbn. destruct (Z.leb_spec n (n + k)); [|lia].
  f_equal. lia.
Qed.

(** The word of a valid configuration *)
Lemma configuration_word c k a b : configuration_valid c k a b →
  ControllerConfiguration_into (E:=E) c = Ok (Z.b2z (enable c)
    .| shl32 (cc_reserved_1 c) 1 .| shl32 (command_set_selected c) 4 .| shl32 k 7
    .| shl32 (ArbitrationMechanism_disc (arbitration_mechanism c)) 11
    .| shl32 (shutdown_notification c) 14 .| shl32 a 16 .| shl32 b 20
    .| shl32 (Z.b2z (controller_ready_independent_of_media_enable c)) 24 .| shl32 (cc_reserved_2 c) 25).
Proof.
  intros []. unfold ControllerConfiguration_into. rewrite cv_page_size0, ilog2_sub_pow by lia. cbn.
  rewrite shiftl_one by lia. replace (k + 12) with (12 + k) by lia. rewrite Z.eqb_refl. cbn.
  rewrite cv_submission0, ilog2_pow by lia. cbn. rewrite shiftl_one, Z.eqb_refl by lia. cbn.
  rewrite cv_completion0, ilog2_pow by lia. cbn. by rewrite shiftl_one, Z.eqb_refl by lia.
Qed.

(** What [write_configuration] wrote is what [read_configuration] reads. *)
Lemma configuration_roundtrip c k a b : configuration_valid c k a b →
  ∃ w, ControllerConfiguration_into (E:=E) c = Ok w ∧ ControllerConfiguration_from (E:=E) w = Ok c.
Proof.
  intros Hv. rewrite (configuration_word c k a b Hv). eexists. split; [done|]. destruct Hv.
  pose proof (arbitration_bound (arbitration_mechanism c)) as Harb.
  pose proof (b2z_bound (enable c)) as Hen.
  pose proof (b2z_bound (controller_ready_independent_of_media_enable c)) as Hcr.
  unfold ControllerConfiguration_from.
  match goal with |- context [get_bits ?w 1 3] => set (word := w) end.
  assert (get_bits word 1 3 = cc_reserved_1 c) as -> by (unfold word; field; done).
  assert (get_bits word 4 6 = command_set_selected c) as -> by (unfold word; field; done).
  assert (get_bits word 7 10 = k) as -> by (unfold word; field; done).
  assert (get_bits word 11 13 = ArbitrationMechanism_disc (arbitration_mechanism c)) as ->
    by (unfold word; field; done).
  assert (get_bits word 14 15 = shutdown_notification c) as -> by (unfold word; field; done).
  assert (get_bits word 16 19 = a) as -> by (unfold word; field; done).
  assert (get_bits word 20 22 = b) as -> by (unfold word; field; done).
  assert (get_bits word 25 31 = cc_reserved_2 c) as -> by (unfold word; field; done).
  assert (get_bit word 0 = enable c) as -> by (unfold word; bit; apply b2z_nonzero).
  assert (get_bit word 24 = controller_ready_independent_of_media_enable c) as ->
    by (unfold word; bit; apply b2z_nonzero).
  clearbody word. unfold u8_max. rewrite !shiftl_one by lia.
  pose proof (pow_le (12 + k) 27 ltac:(lia)). pose proof (pow_le a 15 ltac:(lia)).
  pose proof (pow_le b 7 ltac:(lia)).
  rewrite !fits_ok by (unfold u32_max, u16_max, u8_max; lia).
  rewrite try_from_disc by (unfold u8_max; lia). cbn [mbind result_bind expect mret result_ret].
  rewrite <- cv_page_size0, <- cv_submission0, <- cv_completion0. by destruct c.
Qed.

Lemma attributes_roundtrip aqa :
  1 ≤ aqa_submission_queue_size aqa ≤ 4096 → 1 ≤ aqa_completion_queue_size aqa ≤ 4096 →
  0 ≤ aqa_reserved_1 aqa < 16 → 0 ≤ aqa_reserved_2 aqa < 16 →
  ∃ w, AdminQueueAttributes_into (E:=E) aqa = Ok w ∧ AdminQueueAttributes_from (E:=E) w = Ok aqa.
Proof.
  destruct aqa as [sub comp r1 r2]. cbn. intros Hs Hc Hr1 Hr2.
  unfold AdminQueueAttributes_into. cbn. destruct (Z.leb_spec 1 sub), (Z.leb_spec 1 comp); try lia. cbn.
  eexists. split; [done|]. unfold AdminQueueAttributes_from.
  match goal with |- context [get_bits ?w 0 11] => set (word := w) end.
  assert (get_bits word 0 11 = sub - 1) as -> by (unfold word; field; done).
  assert (get_bits word 16 27 = comp - 1) as -> by (unfold word; field; done).
  assert (get_bits word 12 15 = r1) as -> by (unfold word; field; done).
  assert (get_bits word 28 31 = r2) as -> by (unfold word; field; done).
  destruct (Z.leb_spec (sub - 1 + 1) 4096), (Z.leb_spec (comp - 1 + 1) 4096); try lia. cbn.
  rewrite !fits_ok by (unfold u8_max; lia). cbn. do 2 f_equal; lia.
Qed.

Lemma status_roundtrip s : 0 ≤ cs_reserved s < 2 ^ 25 →
  ControllerStatus_from (E:=E) (ControllerStatus_into s) = Ok s.
Proof.
  destruct s as [rdy fatal shst nssro pp shty res]. cbn. intros Hr. unfold ControllerStatus_from, ControllerStatus_into. cbn.
  assert (0 ≤ ShutdownStatus_disc shst < 4) as Hsh by (destruct shst; cbn; lia).
  pose proof (b2z_bound rdy). pose proof (b2z_bound fatal). pose proof (b2z_bound nssro).
  pose proof (b2z_bound pp). pose proof (b2z_bound shty).
  match goal with |- context [get_bits ?w 2 3] => set (word := w) end.
  assert (get_bits word 2 3 = ShutdownStatus_disc shst) as -> by (unfold word; field; done).
  assert (get_bits word 7 31 = res) as -> by (unfold word; field; done).
  assert (get_bit word 0 = rdy) as -> by (unfold word; bit; apply b2z_nonzero).
  assert (get_bit word 1 = fatal) as -> by (unfold word; bit; apply b2z_nonzero).
  assert (get_bit word 4 = nssro) as -> by (unfold word; bit; apply b2z_nonzero).
  assert (get_bit word 5 = pp) as -> by (unfold word; bit; apply b2z_nonzero).
  assert (get_bit word 6 = shty) as -> by (unfold word; bit; apply b2z_nonzero).
  by rewrite try_from_disc by (unfold u8_max; lia).
Qed.

Lemma fits_Ok max v a : fits (E:=E) max v = Ok a → a = v ∧ v ≤ max.
Proof. unfold fits. destruct (Z.leb_spec v max); naive_solver. Qed.

(** A number for each bit that is equal to another one bit for bit *)
Lemma bits_below_32 (x y : Z) :
  (∀ i, 32 ≤ i → Z.testbit x i = false ∧ Z.testbit y i = false) →
  Forall (λ i, Z.testbit x i = Z.testbit y i) (seqZ 0 32) → x = y.
Proof.
  intros Hhigh Hlow. apply Z.bits_inj'. intros i Hi. destruct (Z.lt_ge_cases i 32).
  - rewrite Forall_forall in Hlow. apply Hlow. apply elem_of_seqZ. lia.
  - by destruct (Hhigh i) as [-> ->].
Qed.

(** The configuration that was read can be written, with another bit [EN]: every other bit
    of the word is kept, except for the bit 23. *)
Lemma set_enable_word w c en : 0 ≤ w < 2 ^ 32 → ControllerConfiguration_from (E:=E) w = Ok c →
  ControllerConfiguration_into (E:=E) (set_enable en c) =
    Ok (let w := Z.clearbit w 23 in if en then Z.setbit w 0 else Z.clearbit w 0).
Proof.
  intros Hw Hc. unfold ControllerConfiguration_from in Hc. inv_ok Hc.
  repeat match goal with H : fits _ _ = Ok _ |- _ => apply fits_Ok in H as [-> _] end.
  match goal with H : try_from_u32 _ = Some ?x |- _ => apply try_from_u32_Some in H as Harb; rename x into arb end.
  injection Hc as <-.
  rewrite (configuration_word _ (get_bits w 7 10) (get_bits w 16 19) (get_bits w 20 22)).
  2: { pose proof (get_bits_bound w 1 3). pose proof (get_bits_bound w 4 6). pose proof (get_bits_bound w 7 10).
       pose proof (get_bits_bound w 14 15). pose proof (get_bits_bound w 16 19).
       pose proof (get_bits_bound w 20 22). pose proof (get_bits_bound w 25 31).
       split; cbn; rewrite ?shiftl_one; done || lia. }
  f_equal. cbn [enable cc_reserved_1 command_set_selected arbitration_mechanism shutdown_notification
    controller_ready_independent_of_media_enable cc_reserved_2 set_enable].
  rewrite Harb, <- get_bits_one by lia. apply bits_below_32.
  - intros i Hi. pose proof (testbit_small w 32 i Hw ltac:(lia)) as Hwi. split.
    + rewrite !Z.lor_spec, !field_testbit, Hwi, !andb_false_r by lia.
      destruct en; cbn; [|by rewrite Z.bits_0]. rewrite orb_false_r.
      rewrite (testbit_small 1 1); [done|lia|lia].
    + destruct en; rewrite ?Z.setbit_eqb, ?Z.clearbit_eqb, Hwi by lia; [|done].
      by destruct (Z.eqb_spec 0 i); [lia|].
  - assert (Hen : ∀ i, 0 ≤ i → Z.testbit (Z.b2z en) i = (i =? 0) && en).
    { intros i Hi. destruct (Z.eqb_spec i 0) as [->|]; [apply Z.b2z_bit0|].
      destruct en; [|apply Z.bits_0]. apply (testbit_small 1 1); lia. }
    apply Forall_forall. intros i Hi. apply elem_of_seqZ in Hi.
    rewrite !Z.lor_spec, !field_testbit, Hen by lia.
    transitivity (if i =? 0 then en else if i =? 23 then false else Z.testbit w i).
    + clear -Hi. generalize (Z.testbit w i). intros t.
      assert (∀ t en : bool, Forall (λ i, ((i =? 0) && en
        || (1 <=? i) && (i <=? 3) && t || (4 <=? i) && (i <=? 6) && t
        || (7 <=? i) && (i <=? 10) && t || (11 <=? i) && (i <=? 13) && t || (14 <=? i) && (i <=? 15) && t
        || (16 <=? i) && (i <=? 19) && t || (20 <=? i) && (i <=? 22) && t || (24 <=? i) && (i <=? 24) && t
        || (25 <=? i) && (i <=? 31) && t) = (if i =? 0 then en else if i =? 23 then false else t)) (seqZ 0 32)) as Hall.
      { intros [] []; repeat constructor. }
      specialize (Hall t en). rewrite Forall_forall in Hall. apply Hall. apply elem_of_seqZ. lia.
    + destruct en; rewrite ?Z.setbit_eqb, ?Z.clearbit_eqb by lia;
        destruct (Z.eqb_spec i 0), (Z.eqb_spec 0 i), (Z.eqb_spec i 23), (Z.eqb_spec 23 i);
        try (exfalso; lia); by rewrite ?andb_true_r, ?andb_false_r, ?orb_false_r.
Qed.

(** The word that a value was read from is only written back by [Capabilities] when the
    conversion does not panic, which it always does. *)
Lemma Capabilities_into_panics self : Capabilities_into (E:=E) self = Panic.
Proof.
  unfold Capabilities_into, ilog2_sub, ilog2. destruct (Z.leb_spec (cap_doorbell_stride self) 0) as [|Hpos]; [done|].
  cbn. destruct (Z.leb_spec 2 (Z.log2 (cap_doorbell_stride self))) as [Hl|]; [|done]. cbn.
  rewrite shiftl_one by lia. destruct (Z.eqb_spec (cap_doorbell_stride self)
    (2 ^ (Z.log2 (cap_doorbell_stride self) - 2 + 12))) as [Heq|]; [|done].
  pose proof (Z.log2_spec _ Hpos) as [_ Hlt].
  pose proof (pow_le (Z.succ (Z.log2 (cap_doorbell_stride self)))
    (Z.log2 (cap_doorbell_stride self) - 2 + 12) ltac:(lia)). lia.
Qed.

(** The upper half of the address is taken from the next register, also when the
    register says that the address has 32 bits. *)
Lemma properties_address_64 mlbar mubar :
  get_controller_properties_address (E:=E) mlbar mubar =
    PhysAddr_new (shl64 mubar 32 .| Z.land mlbar (u64_max - 15)).
Proof.
  unfold get_controller_properties_address. pose proof (get_bits_bound mlbar 1 2 ltac:(lia)).
  by destruct (Z.eqb_spec (u32_max - get_bits mlbar 1 2) 2); [unfold u32_max in *; lia|].
Qed.
End roundtrips.

(** ** Enabling and disabling *)

(** The controller leaves its configuration alone, and from the access [N] on its bit
    [RDY] follows the bit [EN]. *)
Record follows (env : nat → (Z → Z) → Z → Z) (N : nat) : Prop := {
  f_configuration n ws : env n ws 20 = ws 20;
  f_status n ws : 0 ≤ env n ws 28 < 2 ^ 32;
  f_ready n ws : (N ≤ n)%nat → Z.testbit (env n ws 28) 0 = Z.testbit (ws 20) 0;
}.

Section enabling.
Context `{BF : BitField} `{Addresses} `{!U8Enum ArbitrationMechanism_disc} `{!U8Enum ShutdownStatus_disc}.
Context (env : nat → (Z → Z) → Z → Z) (N : nat).
Hypothesis Henv : follows env N.
Context {E : Type}.

Lemma run_read_register size offset s : offset + size < PAGE_SIZE →
  read_property env (E:=E) size offset s =
    (Ok (env (accesses s) (words s) offset), mkProperties (env (accesses s) (words s)) (S (accesses s))).
Proof. intros Ho. unfold read_property. rewrite run_bind. cbn. by destruct (Z.ltb_spec (offset + size) PAGE_SIZE); [|lia]. Qed.
Lemma run_write_register size offset v s : offset + size < PAGE_SIZE →
  write_property env (E:=E) size offset v s =
    (Ok tt, mkProperties (λ o, if o =? offset then v else env (accesses s) (words s) o) (S (accesses s))).
Proof. intros Ho. unfold write_property. rewrite run_bind. cbn. by destruct (Z.ltb_spec (offset + size) PAGE_SIZE); [|lia]. Qed.

Lemma status_total w : ∃ st, ControllerStatus_from (E:=E) w = Ok st ∧ ready st = Z.testbit w 0.
Proof.
  unfold ControllerStatus_from. pose proof (get_bits_bound w 2 3 ltac:(lia)) as Hb. cbn in Hb.
  assert (∃ s, ShutdownStatus_disc s = get_bits w 2 3) as [sh Hsh].
  { assert (get_bits w 2 3 = 0 ∨ get_bits w 2 3 = 1 ∨ get_bits w 2 3 = 2 ∨ get_bits w 2 3 = 3)
      as [->|[->|[->| ->]]] by lia; [by exists NormalOperation|by exists Occuring|by exists Complete|by exists ShutdownReserved]. }
  rewrite <- Hsh, try_from_disc by (unfold u8_max; lia). eexists. split; [done|]. cbn. by apply get_bit_spec.
Qed.

Definition after_access (s : Properties) : Properties :=
  mkProperties (env (accesses s) (words s)) (S (accesses s)).

Lemma run_status s : ∃ st, read_controller_status env (E:=E) s = (Ok st, after_access s) ∧
  ready st = Z.testbit (words (after_access s) 28) 0.
Proof.
  unfold read_controller_status, read_property_32. rewrite run_bind, run_read_register by (unfold PAGE_SIZE; lia).
  destruct (status_total (env (accesses s) (words s) 28)) as (st & Hst & Hready). cbn.
  exists st. unfold lift. by rewrite Hst.
Qed.

Lemma wait_ready_ok fuel b s : (0 < fuel)%nat → (N < accesses s + fuel)%nat → Z.testbit (words s 20) 0 = b →
  ∃ s', wait_ready env (E:=E) fuel b s = (Ok tt, s') ∧ words s' 20 = words s 20 ∧
    Z.testbit (words s' 28) 0 = b.
Proof.
  revert s. induction fuel as [|fuel IH]; intros s Hpos Hf Hb; [lia|]. cbn [wait_ready].
  destruct (run_status s) as (st & Hst & Hready). rewrite run_bind, Hst, Hready.
  set (s1 := after_access s) in *.
  assert (words s1 20 = words s 20) as H20 by apply (f_configuration _ _ Henv).
  destruct (eqb_spec (Z.testbit (words s1 28) 0) b) as [Hr|Hr]; cbn [negb]; [by exists s1|].
  assert (accesses s < N)%nat.
  { destruct (Nat.lt_ge_cases (accesses s) N); [done|]. destruct Hr. rewrite <- Hb. by apply (f_ready _ _ Henv). }
  destruct (IH s1) as (s' & Hw & H20' & Hrdy); [lia|cbn; lia|by rewrite H20|].
  exists s'. split; [done|]. split; [by rewrite H20'|done].
Qed.

Lemma set_enable_bit w (en : bool) : Z.testbit (if en then Z.setbit w 0 else Z.clearbit w 0) 0 = en.
Proof. destruct en; rewrite ?Z.setbit_eqb, ?Z.clearbit_eqb, Z.eqb_refl by lia; cbn; by rewrite ?andb_false_r. Qed.

(** The word that enabling or disabling writes *)
Definition enabled_word (en : bool) (w : Z) : Z :=
  if eqb (Z.testbit w 0) en then w
  else let w := Z.clearbit w 23 in if en then Z.setbit w 0 else Z.clearbit w 0.

Lemma set_enable_run c en s w : ControllerConfiguration_from (E:=E) w = Ok c → 0 ≤ w < 2 ^ 32 →
  ∃ s', write_configuration env (E:=E) (set_enable en c) s = (Ok tt, s') ∧ accesses s' = S (accesses s) ∧
    words s' 20 = (let w := Z.clearbit w 23 in if en : bool then Z.setbit w 0 else Z.clearbit w 0).
Proof.
  intros Hc Hw. unfold write_configuration. rewrite run_bind. unfold lift.
  rewrite (set_enable_word w c en) by done. unfold write_property_32. rewrite run_write_register by (unfold PAGE_SIZE; lia).
  by eexists.
Qed.

(** Disabling and enabling: the calls return as soon as the controller has followed; they
    change the bit [EN], and the bit 23 is lost when it has to be changed. A controller
    that was changed is ready exactly when it is enabled. *)
Theorem ensure_enabled_follows (en : bool) w c fuel s : words s 20 = w → 0 ≤ w < 2 ^ 32 →
  ControllerConfiguration_from (E:=E) w = Ok c → (N < fuel + accesses s)%nat → (0 < fuel)%nat →
  ∃ s', (if en then ensure_enabled env (E:=E) fuel else ensure_disabled env fuel) s = (Ok tt, s') ∧
    words s' 20 = enabled_word en w ∧
    (Z.testbit w 0 ≠ en → Z.testbit (words s' 28) 0 = en).
Proof.
  intros Hs Hw Hc Hf Hpos.
  assert (enable c = Z.testbit w 0) as Hen.
  { unfold ControllerConfiguration_from in Hc. inv_ok Hc. injection Hc as <-. cbn. by apply get_bit_spec. }
  assert (read_configuration env (E:=E) s = (Ok c, after_access s)) as Hr.
  { unfold read_configuration, read_property_32. rewrite run_bind, run_read_register by (unfold PAGE_SIZE; lia).
    unfold lift. by rewrite (f_configuration _ _ Henv), Hs, Hc. }
  assert (words (after_access s) 20 = w) as Hw1 by (rewrite <- Hs; apply (f_configuration _ _ Henv)).
  unfold enabled_word. destruct (eqb_spec (Z.testbit w 0) en) as [Heq|Hne].
  - exists (after_access s). split; [|done].
    destruct en; unfold ensure_enabled, ensure_disabled; by rewrite run_bind, Hr, Hen, Heq.
  - destruct (set_enable_run c en (after_access s) w Hc Hw) as (s2 & Hwr & Hacc & Hw2).
    destruct (wait_ready_ok fuel en s2) as (s' & Hwait & H20 & Hrdy); [done|rewrite Hacc; cbn; lia| |].
    { rewrite Hw2. apply set_enable_bit. }
    exists s'. split; [|split; [by rewrite H20|done]].
    destruct en; unfold ensure_enabled, ensure_disabled; rewrite run_bind, Hr, Hen;
      destruct (Z.testbit w 0); try done; cbn [negb]; by rewrite run_bind, Hwr.
Qed.
End enabling.
