(* ===== verification/NvmeAdmin.v ===== *)
(** * [wasabi-kernel/src/pci/nvme/admin_commands]: the admin command set

    The commands that create and delete queues, set features and identify the
    controller; and what the kernel reads from the page that an identify command fills.
    The structures are [repr(C)]: every field is aligned to its size. *)

From S2P Require Import Prelude Bits NvmePrp NvmeCommand NvmeProperties.
Local Open Scope Z_scope.

(** The opcodes of [admin_commands/mod.rs] *)
Inductive AdminOpcode :=
  | DeleteIOSubmissionQueue | CreateIOSubmissionQueue | GetLogPage | DeleteIOCompletionQueue
  | CreateIOCompletionQueue | Identify | AdminAbort | SetFeatures | GetFeatures
  | AsynchronousEventRequest | NamespaceManagment | FirmwareCommit | FirmwareImageDownload
  | DeviceSelfTest | NamespaceAttachemt | KeepAlive | DirectiveSend | DirectiveReceive
  | VirtualizationManagement | NVMeMiSend | NVMeMIReceive | CapacityManagement | Lockdown
  | DoorbellBufferConfig | FabricsCommands | FormatNVM | SecuritySend | SecurityReceive
  | Sanitize | GetLBAStatus.
Definition AdminOpcode_disc (o : AdminOpcode) : Z :=
  match o with
  | DeleteIOSubmissionQueue => 0 | CreateIOSubmissionQueue => 1 | GetLogPage => 2
  | DeleteIOCompletionQueue => 4 | CreateIOCompletionQueue => 5 | Identify => 6
  | AdminAbort => 8 | SetFeatures => 9 | GetFeatures => 10 | AsynchronousEventRequest => 12
  | NamespaceManagment => 13 | FirmwareCommit => 16 | FirmwareImageDownload => 17
  | DeviceSelfTest => 20 | NamespaceAttachemt => 21 | KeepAlive => 24 | DirectiveSend => 25
  | DirectiveReceive => 26 | VirtualizationManagement => 28 | NVMeMiSend => 29
  | NVMeMIReceive => 30 | CapacityManagement => 32 | Lockdown => 36
  | DoorbellBufferConfig => 124 | FabricsCommands => 127 | FormatNVM => 128
  | SecuritySend => 129 | SecurityReceive => 130 | Sanitize => 132 | GetLBAStatus => 134
  end.

(** ** Commands *)

Inductive FeatureIdentifier := FeatureNumberOfQueues | FeatureIOCommandSet.
Definition FeatureIdentifier_disc (f : FeatureIdentifier) : Z :=
  match f with FeatureNumberOfQueues => 7 | FeatureIOCommandSet => 25 end.
Inductive SetFeatureData :=
  | NumberOfQueues (sub_count comp_count : Z)
  | IOCommandSet (index : Z).
Definition SetFeatureData_identifier (self : SetFeatureData) : FeatureIdentifier :=
  match self with NumberOfQueues _ _ => FeatureNumberOfQueues | IOCommandSet _ => FeatureIOCommandSet end.

Abbreviation ControllerId := Z (only parsing).
Inductive ControllerOrNamespace :=
  | Namespace (nsid : Z)
  | Controller
  | ActiveNamespaces (starting_nsid : Z)
  | IdentifyIOCommandSet (controller_id : ControllerId).
Definition cns (self : ControllerOrNamespace) : Z :=
  match self with Namespace _ => 0 | Controller => 1 | ActiveNamespaces _ => 2 | IdentifyIOCommandSet _ => 28 end.

Section commands.
Context `{BF : BitField} {E : Type}.
Local Abbreviation result := (result E).

(** A command with these words; the others are those of [CommonCommand::default()]. *)
Definition admin_command (dword0 namespace : Z) (entry : PrpEntry) (dword10 dword11 : Z) : CommonCommand :=
  mkCommand dword0 namespace 0 0 0 (mkDataPtr entry PrpEntry_zero) dword10 dword11 0 0 0 0.

Definition admin_dword0 (opcode : AdminOpcode) : result Z :=
  dword0 ← CDW0_set_opcode 0 (AdminOpcode_disc opcode);
  CDW0_set_prp_or_sgl dword0 PrpOrSgl_Prp.

Definition create_io_completion_queue (queue_ident : QueueIdentifier) (queue_size : Z) (queue_frame : PhysFrame)
    : result CommonCommand :=
  dword0 ← admin_dword0 CreateIOCompletionQueue;
  dword10 ← set_bits 0 0 15 queue_ident;
  _ ← assert_ (queue_size >? 0);
  dword10 ← set_bits dword10 16 31 (queue_size - 1);
  let dword11 := set_bit (set_bit 0 1 false) 0 true in
  mret (admin_command dword0 0 (PrpEntry_new queue_frame) dword10 dword11).

Definition create_io_submission_queue (queue_ident : QueueIdentifier) (queue_size : Z) (queue_frame : PhysFrame)
    : result CommonCommand :=
  dword0 ← admin_dword0 CreateIOSubmissionQueue;
  dword10 ← set_bits 0 0 15 queue_ident;
  _ ← assert_ (queue_size >? 0);
  dword10 ← set_bits dword10 16 31 (queue_size - 1);
  dword11 ← set_bits 0 16 31 queue_ident;
  dword11 ← set_bits dword11 1 2 2;
  mret (admin_command dword0 0 (PrpEntry_new queue_frame) dword10 (set_bit dword11 0 true)).

Definition delete_io_completion_queue (queue_ident : QueueIdentifier) : result CommonCommand :=
  dword0 ← admin_dword0 DeleteIOCompletionQueue;
  dword10 ← set_bits 0 0 15 queue_ident;
  mret (admin_command dword0 0 PrpEntry_zero dword10 0).
Definition delete_io_submission_queue (queue_ident : QueueIdentifier) : result CommonCommand :=
  dword0 ← admin_dword0 DeleteIOSubmissionQueue;
  dword10 ← set_bits 0 0 15 queue_ident;
  mret (admin_command dword0 0 PrpEntry_zero dword10 0).

Definition create_set_features_command (feature : SetFeatureData) (data_frame : option PhysFrame)
    : result CommonCommand :=
  cdw0 ← admin_dword0 SetFeatures;
  dword10 ← set_bits 0 0 7 (FeatureIdentifier_disc (SetFeatureData_identifier feature));
  dword11 ← match feature with
    | NumberOfQueues sub_count comp_count =>
        dword11 ← set_bits 0 0 15 sub_count; set_bits dword11 16 31 comp_count
    | IOCommandSet index => set_bits 0 0 8 index
    end;
  mret (admin_command cdw0 0 (match data_frame with Some f => PrpEntry_new f | None => PrpEntry_zero end)
          dword10 dword11).

Definition create_identify_command (c : ControllerOrNamespace) (data_frame : PhysFrame) : result CommonCommand :=
  cdw0 ← admin_dword0 Identify;
  dword10 ← set_bits 0 0 8 (cns c);
  '(namespace_ident, dword10) ← match c with
    | Namespace nsid | ActiveNamespaces nsid => mret (nsid, dword10)
    | IdentifyIOCommandSet controller_id => d ← set_bits dword10 16 31 controller_id; mret (0, d)
    | Controller => mret (0, dword10)
    end;
  mret (admin_command cdw0 namespace_ident (PrpEntry_new data_frame) dword10 0).
End commands.

(** ** Structures in memory *)

(** Reads a value at an offset into the bytes; returns the offset behind it. *)
Definition Repr (A : Type) : Type := list Z → nat → A * nat.
#[export] Instance repr_ret : MRet Repr := λ A a bytes o, (a, o).
#[export] Instance repr_bind : MBind Repr := λ A B f m bytes o, let '(a, o) := m bytes o in f a bytes o.

Definition align_to (align o : nat) : nat := ((o + align - 1) / align) * align.
(** [u8] to [u128], a [repr(C)] structure, and an array *)
Definition uint (bytes : nat) : Repr Z := λ page o,
  let o := align_to bytes o in (le_val (slice o bytes page), (o + bytes)%nat).
Definition structure {A} (align : nat) (fields : Repr A) : Repr A := λ page o,
  let '(a, o) := fields page (align_to align o) in (a, align_to align o).
Fixpoint array {A} (n : nat) (elem : Repr A) : Repr (list A) :=
  match n with O => mret [] | S n => x ← elem; l ← array n elem; mret (x :: l) end.

Record IdentifyControllerData := mkIdentifyController {
  pci_vendor_id : Z; pci_subsystem_vendor_id : Z; serial_number : list Z; model_number : list Z;
  firmware_revison : list Z; recommended_arbitration_burst : Z; ieee_oui_identifier : list Z;
  cmic : Z; maximum_data_transfer_size : Z; controller_id : ControllerId; version : Z;
  rtd3_resume_latency : Z; rtd3_entry_latency : Z; optional_async_events_supported : Z;
  controller_attributes : Z; read_recovery_levels_supported : Z; controller_type : Z;
  fru_guid : list Z; command_retry_delay_time1 : Z; command_retry_delay_time2 : Z;
  command_retry_delay_time3 : Z; nvm_subsystem_report : Z; vpd_write_cycle_info : Z;
  management_endpoint_caps : Z; optional_admin_command_support : Z; fuses : Z;
  format_nvm_attr : Z; volatile_write_cache : Z; atomic_write_unit_normal : Z;
  atomic_write_unit_power_fail : Z;
}.

Definition IdentifyControllerData_repr : Repr IdentifyControllerData := structure 4 (
  pci_vendor_id ← uint 2; pci_subsystem_vendor_id ← uint 2;
  serial_number ← array 20 (uint 1); model_number ← array 40 (uint 1);
  firmware_revison ← array 8 (uint 1); recommended_arbitration_burst ← uint 1;
  ieee_oui_identifier ← array 3 (uint 1); cmic ← uint 1; maximum_data_transfer_size ← uint 1;
  controller_id ← uint 2; version ← uint 4; rtd3_resume_latency ← uint 4; rtd3_entry_latency ← uint 4;
  optional_async_events_supported ← uint 4; controller_attributes ← uint 4;
  read_recovery_levels_supported ← uint 2; _ ← array 9 (uint 1); controller_type ← uint 1;
  fru_guid ← array 16 (uint 1); command_retry_delay_time1 ← uint 2; command_retry_delay_time2 ← uint 2;
  command_retry_delay_time3 ← uint 2; _ ← array 106 (uint 1); _ ← array 13 (uint 1);
  nvm_subsystem_report ← uint 1; vpd_write_cycle_info ← uint 1; management_endpoint_caps ← uint 1;
  optional_admin_command_support ← uint 2; _ ← array 264 (uint 1); fuses ← uint 2;
  format_nvm_attr ← uint 1; volatile_write_cache ← uint 1; atomic_write_unit_normal ← uint 2;
  atomic_write_unit_power_fail ← uint 2;
  mret (mkIdentifyController pci_vendor_id pci_subsystem_vendor_id serial_number model_number
    firmware_revison recommended_arbitration_burst ieee_oui_identifier cmic maximum_data_transfer_size
    controller_id version rtd3_resume_latency rtd3_entry_latency optional_async_events_supported
    controller_attributes read_recovery_levels_supported controller_type fru_guid
    command_retry_delay_time1 command_retry_delay_time2 command_retry_delay_time3 nvm_subsystem_report
    vpd_write_cycle_info management_endpoint_caps optional_admin_command_support fuses format_nvm_attr
    volatile_write_cache atomic_write_unit_normal atomic_write_unit_power_fail)).

Record LBAFormatData := mkLBAFormat { metadata_size : Z; lba_data_size_raw : Z; lba_flags : Z; lba_reserved : Z }.
Definition LBAFormatData_repr : Repr LBAFormatData := structure 2 (
  metadata_size ← uint 2; lba_data_size_raw ← uint 1; flags ← uint 1; reserved ← uint 1;
  mret (mkLBAFormat metadata_size lba_data_size_raw flags reserved)).

Record IdentifyNamespaceData := mkIdentifyNamespace {
  namespace_size : Z; namespace_capacity : Z; namespace_utilization : Z; features : Z;
  num_lba_formats : Z; formatted_lba_size : Z; metadata_caps : Z; e2e_data_prot_caps : Z;
  e2e_data_prot_type_settings : Z; multipath_io_sharing_caps : Z; reservation_caps : Z;
  format_progress_indicator : Z; deallocate_block_features : Z; atomic_write_normal : Z;
  atomic_write_power_fail : Z; atomic_write_compare_write_unit : Z; atomic_boundary_size_normal : Z;
  atomic_boundary_offset : Z; atomic_boundary_size_power_fail : Z; optimal_io_boundary : Z;
  nvm_capacity : Z; prefered_write_granularity : Z; prefered_write_alignment : Z;
  prefered_deallocate_granularity : Z; prefered_deallocate_alignment : Z; optimal_write_size : Z;
  maximum_single_source_range_length : Z; maximum_copy_length : Z; maximum_source_range_count : Z;
  ana_group_id : Z; attribues : Z; nvm_set_id : Z; endurance_group_id : Z;
  namespace_guid : list Z; ieee_uid : list Z; all_lba_formats : list LBAFormatData;
}.

Definition IdentifyNamespaceData_repr : Repr IdentifyNamespaceData := structure 16 (
  namespace_size ← uint 8; namespace_capacity ← uint 8; namespace_utilization ← uint 8; features ← uint 1;
  num_lba_formats ← uint 1; formatted_lba_size ← uint 1; metadata_caps ← uint 1; e2e_data_prot_caps ← uint 1;
  e2e_data_prot_type_settings ← uint 1; multipath_io_sharing_caps ← uint 1; reservation_caps ← uint 1;
  format_progress_indicator ← uint 1; deallocate_block_features ← uint 1; atomic_write_normal ← uint 2;
  atomic_write_power_fail ← uint 2; atomic_write_compare_write_unit ← uint 2; atomic_boundary_size_normal ← uint 2;
  atomic_boundary_offset ← uint 2; atomic_boundary_size_power_fail ← uint 2; optimal_io_boundary ← uint 2;
  nvm_capacity ← uint 16; prefered_write_granularity ← uint 2; prefered_write_alignment ← uint 2;
  prefered_deallocate_granularity ← uint 2; prefered_deallocate_alignment ← uint 2; optimal_write_size ← uint 2;
  maximum_single_source_range_length ← uint 2; maximum_copy_length ← uint 4; maximum_source_range_count ← uint 1;
  _ ← array 10 (uint 1); ana_group_id ← uint 4; _ ← array 3 (uint 1); attribues ← uint 1; nvm_set_id ← uint 2;
  endurance_group_id ← uint 2; namespace_guid ← array 16 (uint 1); ieee_uid ← array 8 (uint 1);
  lba_formats ← array 64 LBAFormatData_repr;
  mret (mkIdentifyNamespace namespace_size namespace_capacity namespace_utilization features num_lba_formats
    formatted_lba_size metadata_caps e2e_data_prot_caps e2e_data_prot_type_settings multipath_io_sharing_caps
    reservation_caps format_progress_indicator deallocate_block_features atomic_write_normal
    atomic_write_power_fail atomic_write_compare_write_unit atomic_boundary_size_normal atomic_boundary_offset
    atomic_boundary_size_power_fail optimal_io_boundary nvm_capacity prefered_write_granularity
    prefered_write_alignment prefered_deallocate_granularity prefered_deallocate_alignment optimal_write_size
    maximum_single_source_range_length maximum_copy_length maximum_source_range_count ana_group_id attribues
    nvm_set_id endurance_group_id namespace_guid ieee_uid lba_formats)).

(** [size_of::<IdentifyNamespaceData>()] *)
Definition IdentifyNamespaceData_SIZE : nat := 512.

Definition IdentifyControllerData_from (page : list Z) : IdentifyControllerData :=
  (IdentifyControllerData_repr page 0%nat).1.
Definition IdentifyNamespaceData_from_vaddr (page : list Z) : option IdentifyNamespaceData :=
  if forallb (λ b, b =? 0) (take IdentifyNamespaceData_SIZE page) then None
  else Some (IdentifyNamespaceData_repr page 0%nat).1.

Section identify.
Context `{BF : BitField} {E : Type}.

(** [FormattedLBASize] *)
Definition active_format_index (self : Z) : nat := Z.to_nat (Z.land self 15).
Definition extended_logical_block (self : Z) : bool := get_bit self 4.
Definition lba_formats (self : IdentifyNamespaceData) : result E (list LBAFormatData) :=
  if num_lba_formats self <=? Z.of_nat (length (all_lba_formats self))
  then Ok (take (Z.to_nat (num_lba_formats self)) (all_lba_formats self)) else Panic.
Definition get_lba_format (self : IdentifyNamespaceData) (id : nat) : result E LBAFormatData :=
  formats ← lba_formats self; expect (formats !! id).
Definition active_lba_format (self : IdentifyNamespaceData) : result E LBAFormatData :=
  get_lba_format self (active_format_index (formatted_lba_size self)).

Definition is_active (self : LBAFormatData) : bool := negb (lba_data_size_raw self =? 0).
Definition LBAFormatData_is_valid (self : LBAFormatData) : bool :=
  negb (lba_data_size_raw self =? 0) && (9 <=? lba_data_size_raw self).
(** [strict_pow] panics when the power does not fit. *)
Definition lba_data_size (self : LBAFormatData) : result E Z :=
  if lba_data_size_raw self <? 64 then Ok (2 ^ lba_data_size_raw self) else Panic.

Inductive LBAFormatRelativePerf := Best | Better | Good | Degraded.
Definition LBAFormatRelativePerf_disc (p : LBAFormatRelativePerf) : Z :=
  match p with Best => 0 | Better => 1 | Good => 2 | Degraded => 3 end.
Definition relative_perf `{!U8Enum LBAFormatRelativePerf_disc} (self : LBAFormatData)
    : result E LBAFormatRelativePerf := expect (try_from (Z.land (lba_flags self) 3)).

(** *** [IOCommandSetVectorIterator]; an access behind the page is a [Panic]. *)
Record IOCommandSetVectorIterator := mkVectors { next_index : Z; done : bool }.
Definition IOCommandSetVector_valid (self : Z) : bool := negb (self =? 0).
Definition IOCommandSetVectorIterator_from_vaddr (start_offset : Z) : IOCommandSetVectorIterator :=
  mkVectors (start_offset / 8) false.
Definition IOCommandSetVectorIterator_next (page : list Z) (self : IOCommandSetVectorIterator)
    : result E (option (Z * Z) * IOCommandSetVectorIterator) :=
  if done self then mret (None, self)
  else
    let o := Z.to_nat (8 * next_index self) in
    _ ← assert_ (Nat.leb (o + 8) (length page));
    let vec := le_val (slice o 8 page) in
    if IOCommandSetVector_valid vec then
      let idx := next_index self in
      mret (Some (idx, vec),
        if idx + 1 <=? u32_max then mkVectors (idx + 1) false else mkVectors idx true)
    else mret (None, mkVectors (next_index self) true).
Fixpoint collect_vectors (fuel : nat) (page : list Z) (self : IOCommandSetVectorIterator)
    : result E (list (Z * Z)) :=
  match fuel with
  | O => Hang
  | S fuel =>
      '(o, self) ← IOCommandSetVectorIterator_next page self;
      match o with
      | None => mret []
      | Some x => l ← collect_vectors fuel page self; mret (x :: l)
      end
  end.
End identify.

(** [rate_set] and the choice of [initialize]; [max_by_key] takes the last of equal elements. *)
Definition contains_flag (self flag : Z) : bool := Z.land self flag =? flag.
Definition rate_set (set : Z) : Z :=
  (if contains_flag set 1 then 3 else 0) + (if contains_flag set 2 then 2 else 0)
    + (if contains_flag set 4 then 1 else 0).
Definition best_command_set (sets : list (Z * Z)) : option (Z * Z) :=
  foldl (λ best x,
    match best with
    | None => Some x
    | Some b => if rate_set x.2 <? rate_set b.2 then Some b else Some x
    end) None sets.
