(* ===== verification/NvmeAdminProofs.v ===== *)
(** * Admin commands and identify data

    The commands carry what they are given, as the specification of the controller lays
    it out; the identify structures are read at the offsets of the specification, but for
    the formats of a namespace. *)

From S2P Require Import Prelude Bits NvmePrp NvmeCommand NvmeProperties NvmePropertiesProofs NvmeAdmin.
Local Open Scope Z_scope.

(** ** Commands *)

Section commands.
Context `{BF : BitField} {E : Type}.

(** What the controller finds in an admin command *)
Record admin_ok (c : CommonCommand) (opcode : AdminOpcode) (namespace : Z) (entry : PrpEntry) : Prop := {
  ad_opcode : CDW0_opcode (dword0 c) = AdminOpcode_disc opcode;
  ad_prp : get_bits (dword0 c) 14 15 = PrpOrSgl_disc PrpOrSgl_Prp;
  ad_identifier : CDW0_command_identifier (dword0 c) = 0;
  ad_dword0 : 0 ≤ dword0 c;
  ad_namespace : namespace_ident c = namespace;
  ad_data : data_ptr c = mkDataPtr entry PrpEntry_zero;
}.

Lemma admin_dword0_ok opcode : ∃ d, admin_dword0 (E:=E) opcode = Ok d ∧ 0 ≤ d ∧
  CDW0_opcode d = AdminOpcode_disc opcode ∧ get_bits d 14 15 = PrpOrSgl_disc PrpOrSgl_Prp ∧
  CDW0_command_identifier d = 0.
Proof.
  assert (0 ≤ AdminOpcode_disc opcode < 2 ^ (7 - 0 + 1)) as Ho by (destruct opcode; cbn; lia).
  unfold admin_dword0, CDW0_set_opcode, CDW0_set_prp_or_sgl.
  destruct (set_bits_Ok (E:=E) 0 0 7 (AdminOpcode_disc opcode)) as (w0 & Hw0 & Hp0); [lia..|].
  destruct (set_bits_Ok (E:=E) w0 14 15 0) as (w1 & Hw1 & Hp1); [lia..|].
  rewrite Hw0. cbn. exists w1. split; [done|]. split; [done|].
  unfold CDW0_opcode, CDW0_command_identifier. split; [|split].
  - rewrite (get_set_other (E:=E) w0 14 15 0 w1) by (done || lia). by apply (get_set_same (E:=E) 0 0 7 (AdminOpcode_disc opcode)).
  - by apply (get_set_same (E:=E) w0 14 15 0).
  - rewrite (get_set_other (E:=E) w0 14 15 0 w1) by (done || lia).
    rewrite (get_set_other (E:=E) 0 0 7 (AdminOpcode_disc opcode) w0) by (done || lia).
    by rewrite get_bits_spec by lia.
Qed.

(** Two halves of a word that is zero otherwise *)
Lemma set_halves low high : 0 ≤ low ≤ u16_max → 0 ≤ high ≤ u16_max →
  ∃ w w', set_bits (E:=E) 0 0 15 low = Ok w ∧ set_bits (E:=E) w 16 31 high = Ok w' ∧
    get_bits w' 0 15 = low ∧ get_bits w' 16 31 = high ∧ get_bits w 0 15 = low.
Proof.
  unfold u16_max. intros Hl Hh.
  destruct (set_bits_Ok (E:=E) 0 0 15 low) as (w & Hw & Hp); [lia..|].
  destruct (set_bits_Ok (E:=E) w 16 31 high) as (w' & Hw' & Hp'); [lia..|].
  assert (get_bits w 0 15 = low) by (apply (get_set_same (E:=E) 0 0 15 low); [lia..|done]).
  exists w, w'. do 2 (split; [done|]). split; [|split; [|done]].
  - by rewrite (get_set_other (E:=E) w 16 31 high w') by (done || lia).
  - apply (get_set_same (E:=E) w 16 31 high); [lia..|done].
Qed.

Lemma create_io_completion_queue_ok ident size frame : 0 ≤ ident ≤ u16_max → 1 ≤ size ≤ u16_max →
  ∃ c, create_io_completion_queue (E:=E) ident size frame = Ok c ∧
    admin_ok c CreateIOCompletionQueue 0 frame ∧
    get_bits (dword10 c) 0 15 = ident ∧ get_bits (dword10 c) 16 31 = size - 1 ∧
    get_bit (dword11 c) 0 = true ∧ get_bit (dword11 c) 1 = false.
Proof.
  intros Hi Hs. unfold create_io_completion_queue.
  destruct (admin_dword0_ok CreateIOCompletionQueue) as (d & -> & Hd & Hop & Hprp & Hid). cbn [mbind result_bind].
  destruct (set_halves ident (size - 1)) as (w & w' & -> & Hw' & H10 & H16 & _); [done|lia|]. cbn [mbind result_bind].
  destruct (Z.gtb_spec size 0); [|lia]. cbn [assert_]. rewrite Hw'.
  eexists. split; [done|]. split; [by split|]. split; [done|]. split; [done|]. cbn.
  assert (set_bit 0 1 false = 0) as -> by (rewrite set_bit_spec, get_bits_spec by lia; done).
  assert (set_bit 0 0 true = 1) as -> by (rewrite set_bit_spec, get_bits_spec by lia; done).
  by rewrite !get_bit_spec by lia.
Qed.

Lemma create_io_submission_queue_ok ident size frame : 0 ≤ ident ≤ u16_max → 1 ≤ size ≤ u16_max →
  ∃ c, create_io_submission_queue (E:=E) ident size frame = Ok c ∧
    admin_ok c CreateIOSubmissionQueue 0 frame ∧
    get_bits (dword10 c) 0 15 = ident ∧ get_bits (dword10 c) 16 31 = size - 1 ∧
    get_bits (dword11 c) 16 31 = ident ∧ get_bit (dword11 c) 0 = true.
Proof.
  intros Hi Hs. unfold create_io_submission_queue. unfold u16_max in Hi.
  destruct (admin_dword0_ok CreateIOSubmissionQueue) as (d & -> & Hd & Hop & Hprp & Hid). cbn [mbind result_bind].
  destruct (set_halves ident (size - 1)) as (w & w' & -> & Hw' & H10 & H16 & _); [done|lia|]. cbn [mbind result_bind].
  destruct (Z.gtb_spec size 0); [|lia]. cbn [assert_]. rewrite Hw'. cbn [mbind result_bind].
  destruct (set_bits_Ok (E:=E) 0 16 31 ident) as (v & Hv & Hpv); [lia..|]. rewrite Hv. cbn [mbind result_bind].
  destruct (set_bits_Ok (E:=E) v 1 2 2) as (v' & Hv' & Hpv'); [lia..|]. rewrite Hv'. cbn [mbind result_bind].
  eexists. split; [done|]. split; [by split|]. split; [done|]. split; [done|]. cbn.
  assert (get_bits v' 16 31 = ident) as Hident.
  { rewrite (get_set_other (E:=E) v 1 2 2 v') by (done || lia). by apply (get_set_same (E:=E) 0 16 31 ident); [lia..|]. }
  assert (get_bits v' 0 0 = 0) as H0.
  { rewrite (get_set_other (E:=E) v 1 2 2 v') by (done || lia).
    rewrite (get_set_other (E:=E) 0 16 31 ident v) by (done || lia). by rewrite get_bits_spec by lia. }
  rewrite set_bit_spec, H0 by lia. change (Z.b2z true * 2 ^ 0) with 1. rewrite Z.mul_0_l, Z.sub_0_r.
  assert (v' mod 2 = 0) as Hmod.
  { rewrite get_bits_spec in H0 by lia. by rewrite Z.div_1_r in H0. }
  split.
  - rewrite get_bits_spec in Hident |- * by lia. rewrite <- Hident. change (2 ^ 16) with (2 * 2 ^ 15).
    rewrite <- !Z.div_div by lia.
    assert ((v' + 1) / 2 = v' / 2) as -> by (Z.div_mod_to_equations; lia). done.
  - rewrite get_bit_spec, Z.bit0_eqb by lia. apply Z.eqb_eq. Z.div_mod_to_equations; lia.
Qed.

Lemma delete_io_queue_ok ident : 0 ≤ ident ≤ u16_max →
  (∃ c, delete_io_completion_queue (E:=E) ident = Ok c ∧ admin_ok c DeleteIOCompletionQueue 0 PrpEntry_zero ∧
    get_bits (dword10 c) 0 15 = ident) ∧
  (∃ c, delete_io_submission_queue (E:=E) ident = Ok c ∧ admin_ok c DeleteIOSubmissionQueue 0 PrpEntry_zero ∧
    get_bits (dword10 c) 0 15 = ident).
Proof.
  intros Hi. unfold delete_io_completion_queue, delete_io_submission_queue.
  destruct (set_halves ident 0) as (w & w' & -> & _ & _ & _ & Hw); [done|unfold u16_max; lia|].
  split; [destruct (admin_dword0_ok DeleteIOCompletionQueue) as (d & -> & ?)
         |destruct (admin_dword0_ok DeleteIOSubmissionQueue) as (d & -> & ?)];
    destruct_and!; cbn; (eexists; split; [done|]; split; [by split|done]).
Qed.
End commands.

(** ** Identify data *)

(** The fields that the kernel uses, at the offsets of the specification *)
Lemma identify_controller_offsets page :
  let d := IdentifyControllerData_from page in
  controller_id d = le_val (slice 78 2 page) ∧ version d = le_val (slice 80 4 page) ∧
  optional_admin_command_support d = le_val (slice 256 2 page) ∧ fuses d = le_val (slice 522 2 page) ∧
  atomic_write_unit_normal d = le_val (slice 526 2 page) ∧ atomic_write_unit_power_fail d = le_val (slice 528 2 page).
Proof. cbv -[slice le_val]. by split_and!. Qed.

Lemma identify_namespace_offsets page d :
  IdentifyNamespaceData_from_vaddr page = Some d →
  namespace_size d = le_val (slice 0 8 page) ∧ namespace_capacity d = le_val (slice 8 8 page) ∧
  features d = le_val (slice 24 1 page) ∧ num_lba_formats d = le_val (slice 25 1 page) ∧
  formatted_lba_size d = le_val (slice 26 1 page) ∧ nvm_capacity d = le_val (slice 48 16 page).
Proof.
  unfold IdentifyNamespaceData_from_vaddr. destruct (forallb _ _); [done|]. intros <-%(inj Some).
  cbv -[slice le_val]. by split_and!.
Qed.

(** The specification has the format [i] in the four bytes from [128 + 4 * i] on. *)
Definition spec_lba_format (page : list Z) (i : nat) : LBAFormatData :=
  mkLBAFormat (le_val (slice (128 + 4 * i) 2 page)) (le_val (slice (130 + 4 * i) 1 page))
    (le_val (slice (131 + 4 * i) 1 page)) 0.

(** The structure of the code takes six bytes. *)
Lemma lba_format_stride page :
  (λ d, (metadata_size d, lba_data_size_raw d)) <$> all_lba_formats (IdentifyNamespaceData_repr page 0%nat).1 =
  (λ i, (le_val (slice (128 + 6 * i) 2 page), le_val (slice (130 + 6 * i) 1 page))) <$> seq 0 64.
Proof. cbv -[slice le_val]. done. Qed.

Section formats.
Context {E : Type}.

(** The number of formats is zero based on the device, but the code takes it for the
    length: it panics when the last format is active, for example the only one. *)
Lemma active_lba_format_cases d : 0 ≤ num_lba_formats d ≤ 64 → length (all_lba_formats d) = 64%nat →
  (Z.of_nat (active_format_index (formatted_lba_size d)) < num_lba_formats d →
    ∃ f, active_lba_format (E:=E) d = Ok f ∧ all_lba_formats d !! active_format_index (formatted_lba_size d) = Some f) ∧
  (num_lba_formats d ≤ Z.of_nat (active_format_index (formatted_lba_size d)) → active_lba_format (E:=E) d = Panic).
Proof.
  intros Hn Hl. unfold active_lba_format, get_lba_format, lba_formats. rewrite Hl.
  destruct (Z.leb_spec (num_lba_formats d) (Z.of_nat 64)); [|lia]. cbn [mbind result_bind].
  set (i := active_format_index _). split; intros Hi.
  - destruct (lookup_lt_is_Some_2 (all_lba_formats d) i) as [f Hf]; [lia|].
    exists f. split; [|done]. rewrite lookup_take_lt by lia. by rewrite Hf.
  - by rewrite lookup_take_ge by lia.
Qed.
End formats.

(** ** Examples: pages as a controller fills them *)

Definition bytes_at (o : nat) (bs page : list Z) : list Z := take o page ++ bs ++ drop (o + length bs) page.
(** 1000 blocks; the zero based number of formats and the active format; the formats *)
Definition namespace_page (count active : Z) (formats : list Z) : list Z :=
  bytes_at 0 (le_bytes 8 1000 ++ le_bytes 8 1000) (bytes_at 25 [count; active] (bytes_at 128 formats (replicate 4096 0))).

Definition active_format (page : list Z) : result unit (Z * Z) :=
  match IdentifyNamespaceData_from_vaddr page with
  | Some d => f ← active_lba_format d; size ← lba_data_size f; mret (metadata_size f, size)
  | None => Err tt
  end.

(** Eight formats with the first one active, as QEMU reports them: blocks of 512 bytes *)
Example first_format : active_format (namespace_page 7 0 [0;0;9;0; 8;0;9;0; 16;0;9;0]) = Ok (0, 512).
Proof. vm_compute. done. Qed.
(** The only format *)
Example only_format_panics : active_format (namespace_page 0 0 [0;0;9;0]) = Panic.
Proof. vm_compute. done. Qed.
(** Of three formats the second one is active, blocks of 4096 bytes without metadata; the
    code reads blocks of 256 bytes with 12 bytes of metadata. *)
Example second_format_misread :
  let page := namespace_page 2 1 [0;0;9;0; 0;0;12;0; 8;0;9;0] in
  active_format page = Ok (12, 256) ∧
  spec_lba_format page 1 = mkLBAFormat 0 12 0 0.
Proof. vm_compute. done. Qed.
