(* ===== verification/NvmeController.v ===== *)
(** * [wasabi-kernel/src/pci/nvme/mod.rs]: the queues of an NVMe controller

    [NVMEController] keeps a pool of command queues. A queue is allocated in kernel
    memory, created on the device by two commands of the admin queue, and handed out as a
    [Strong] handle; the controller keeps the [Weak] one ([SingleArc]), from which a handle
    that was dropped is recovered. Handles are indices into the list of all queues; the
    boolean says whether a [Strong] handle exists.

    The kernel's allocators and page table are behind three locks, which are always taken
    together; [km_locked] says whether this core holds them, and taking them again is
    the panic of [TicketLock]. *)

From S2P Require Import Prelude Bits NvmePrp NvmeCommand WrappingValue NvmeQueue KernelMem RangeSet PageAlloc PageMapping NvmeProperties NvmeAdmin.
Local Open Scope Z_scope.

(** The variants of [NVMEControllerError]: those of the queues, and the others *)
Inductive ControllerError :=
  | Nvme (e : NVMEControllerError)
  | Mem (e : MemError)
  | DeviceNotSupported.

Definition NO_CACHE : Z := 16.

(** ** Rings in kernel memory *)

Record KernelMemory (PT : Type) := mkKernelMemory {
  km_pages : RangeSet;
  km_table : PT;
  km_frames : RangeSet;
  km_locked : bool;
}.
Arguments mkKernelMemory {PT}.
Arguments km_pages {PT}.
Arguments km_table {PT}.
Arguments km_frames {PT}.
Arguments km_locked {PT}.

Record Rings := mkRings {
  submission_queue_frame : PhysFrame; sub_page : Page;
  completion_queue_frame : PhysFrame; comp_page : Page;
}.
Record IoQueue := mkIoQueue { io_ring : CommandQueue; io_rings : Rings }.

Section rings.
Context `{Addresses} {PT : Type} `{Mapper PT}.
Local Abbreviation M := (M (KernelMemory PT)).

Definition km_on_pages {E A} (m : Prelude.M RangeSet E A) : M E A := λ s,
  let '(r, p) := m (km_pages s) in (r, mkKernelMemory p (km_table s) (km_frames s) (km_locked s)).
Definition km_on_table {E A} (m : Prelude.M (PT * RangeSet) E A) : M E A := λ s,
  let '(r, (t, f)) := m (km_table s, km_frames s) in (r, mkKernelMemory (km_pages s) t f (km_locked s)).
Definition lock_kernel {E} : M E unit := λ s,
  if km_locked s then (Panic, s) else (Ok tt, mkKernelMemory (km_pages s) (km_table s) (km_frames s) true).
Definition unlock_kernel {E} : M E unit :=
  modify (λ s, mkKernelMemory (km_pages s) (km_table s) (km_frames s) false).

(** [expect] on a stateful call *)
Definition expect_ok {S E A} (m : Prelude.M S MemError A) : Prelude.M S E A :=
  r ← try m; match r with inl a => mret a | inr _ => lift Panic end.

Definition QUEUE_PT_FLAGS : Z := Z.lor (Z.lor (Z.lor PRESENT WRITABLE) NO_CACHE) NO_EXECUTE.

(** The allocations of [CommandQueue::allocate]; they are not undone when one fails. *)
Definition map_rings : M ControllerError Rings :=
  submission_queue_frame ← mapM_err Mem (km_on_table (on_snd (FrameAllocator_alloc Size4KiB)));
  sub_page ← mapM_err Mem (km_on_pages (allocate_page Size4KiB));
  completion_queue_frame ← mapM_err Mem (km_on_table (on_snd (FrameAllocator_alloc Size4KiB)));
  comp_page ← mapM_err Mem (km_on_pages (allocate_page Size4KiB));
  _ ← mapM_err (Mem ∘ PageTableMap) (km_on_table (map_kernel Size4KiB sub_page submission_queue_frame QUEUE_PT_FLAGS));
  _ ← mapM_err (Mem ∘ PageTableMap) (km_on_table (map_kernel Size4KiB comp_page completion_queue_frame QUEUE_PT_FLAGS));
  _ ← lift (assert_ (negb (sub_page =? 0)));
  _ ← lift (assert_ (negb (comp_page =? 0)));
  mret (mkRings submission_queue_frame sub_page completion_queue_frame comp_page).

Definition IoQueue_allocate (queue_id sub_size comp_size stride : Z) : M ControllerError IoQueue :=
  '(q, rings) ← CommandQueue_allocate Nvme map_rings queue_id sub_size comp_size stride;
  mret (mkIoQueue q rings).

(** [Drop] of a queue *)
Definition CommandQueue_drop {E} (self : IoQueue) : M E unit :=
  let q := io_ring self in
  let r := io_rings self in
  _ ← lift (assert_ (submission_queue_size q * SUBMISSION_COMMAND_ENTRY_SIZE <=? PAGE_SIZE));
  _ ← lift (assert_ (completion_queue_size q * COMPLETION_COMMAND_ENTRY_SIZE <=? PAGE_SIZE));
  _ ← lock_kernel;
  _ ← expect_ok (km_on_table (on_fst (mapM_err PageTableMap (PageTable_unmap Size4KiB (sub_page r)))));
  _ ← expect_ok (km_on_table (on_fst (mapM_err PageTableMap (PageTable_unmap Size4KiB (comp_page r)))));
  _ ← expect_ok (km_on_table (on_snd (FrameAllocator_free Size4KiB (submission_queue_frame r))));
  _ ← expect_ok (km_on_table (on_snd (FrameAllocator_free Size4KiB (completion_queue_frame r))));
  _ ← expect_ok (km_on_pages (free_page Size4KiB (sub_page r)));
  _ ← expect_ok (km_on_pages (free_page Size4KiB (comp_page r)));
  unlock_kernel.

Fixpoint drop_queues {E} (queues : list IoQueue) : M E unit :=
  match queues with
  | [] => mret tt
  | q :: queues => _ ← CommandQueue_drop q; drop_queues queues
  end.

(** The iterator that allocates: an error does not end it, the first one is kept. *)
Fixpoint allocate_rings (n : nat) (next ident_offset sub_size comp_size stride : Z)
    : M ControllerError (list IoQueue * option ControllerError) :=
  match n with
  | O => mret ([], None)
  | S n =>
      ident ← lift (QueueIdentifier_add next ident_offset);
      queue_or_err ← try (IoQueue_allocate ident sub_size comp_size stride);
      '(queues, error) ← allocate_rings n next (ident_offset + 1) sub_size comp_size stride;
      match queue_or_err with
      | inl queue => mret (queue :: queues, error)
      | inr err => mret (queues, Some err)
      end
  end.
End rings.

(** ** The controller *)

Record ControllerInfo := mkInfo {
  controller_page : Page;
  doorbell_page : Page;
  doorbell_stride : Z;
  max_number_completions_queues : Z;
  max_number_submission_queues : Z;
  maximum_queue_entries : Z;
}.

Record NVMEController (PT : Type) := mkController {
  info : ControllerInfo;
  admin_queue : QState;
  kernel : KernelMemory PT;
  all_queues : list (IoQueue * bool);
  available_io_queues : list nat;
  used_io_queues : list nat;
  next_unused_io_queue_ident : QueueIdentifier;
}.
Arguments mkController {PT}.
Arguments info {PT}.
Arguments admin_queue {PT}.
Arguments kernel {PT}.
Arguments all_queues {PT}.
Arguments available_io_queues {PT}.
Arguments used_io_queues {PT}.
Arguments next_unused_io_queue_ident {PT}.

(** [Vec::swap_remove] *)
Definition vec_swap_remove {E A} (i : nat) (l : list A) : result E (A * list A) :=
  match l !! i, last l with
  | Some x, Some y => Ok (x, if Nat.eqb i (length l - 1) then removelast l else <[i:=y]> (removelast l))
  | _, _ => Panic
  end.

Section controller.
Context `{BF : BitField} `{!U8Enum GenericCommandStatus_disc} `{Addresses} {PT : Type} `{Mapper PT}.
Context (env : nat → Hardware → Hardware) (rounds fuel : nat).
Local Abbreviation M := (M (NVMEController PT)).
Local Abbreviation Ctl := (NVMEController PT).

Definition set_pool (queues : list (IoQueue * bool)) (available used : list nat) (s : Ctl) : Ctl :=
  mkController (info s) (admin_queue s) (kernel s) queues available used (next_unused_io_queue_ident s).
Definition set_next_ident (n : QueueIdentifier) (s : Ctl) : Ctl :=
  mkController (info s) (admin_queue s) (kernel s) (all_queues s) (available_io_queues s) (used_io_queues s) n.
Definition on_admin {E A} (m : Prelude.M QState E A) : M E A := λ s,
  let '(r, q) := m (admin_queue s) in
  (r, mkController (info s) q (kernel s) (all_queues s) (available_io_queues s) (used_io_queues s)
        (next_unused_io_queue_ident s)).
Definition on_kernel {E A} (m : Prelude.M (KernelMemory PT) E A) : M E A := λ s,
  let '(r, k) := m (kernel s) in
  (r, mkController (info s) (admin_queue s) k (all_queues s) (available_io_queues s) (used_io_queues s)
        (next_unused_io_queue_ident s)).

(** [try_upgrade] of a [Weak], and the drop of a [Strong] *)
Definition set_strong (w : nat) (b : bool) (s : Ctl) : Ctl :=
  set_pool (alter (λ q, (q.1, b)) w (all_queues s)) (available_io_queues s) (used_io_queues s) s.
Definition try_upgrade {E} (w : nat) : M E (option nat) :=
  qs ← gets all_queues;
  '(_, strong) ← lift (vec_get qs w);
  if strong : bool then mret None
  else
    _ ← modify (set_strong w true);
    mret (Some w).
Definition drop_strong {E} (w : nat) : M E unit := modify (set_strong w false).

Definition pop_available {E} : M E (option nat) :=
  l ← gets available_io_queues;
  match last l with
  | None => mret None
  | Some w =>
      _ ← modify (λ s, set_pool (all_queues s) (removelast l) (used_io_queues s) s);
      mret (Some w)
  end.

(** [while index < used_io_queues.len()]; every round advances or shortens the list. *)
Fixpoint reclaim_loop {E} (fuel : nat) (index : nat) (reclaimed : Z) : M E Z :=
  used ← gets used_io_queues;
  if Nat.ltb index (length used) then
    match fuel with
    | O => lift Hang
    | S fuel =>
        w ← lift (vec_get used index);
        o ← try_upgrade w;
        match o with
        | Some strong =>
            '(weak, rest) ← lift (vec_swap_remove index used);
            _ ← modify (λ s, set_pool (all_queues s) (available_io_queues s ++ [weak]) rest s);
            r ← lift (if reclaimed + 1 <=? u16_max then Ok (reclaimed + 1) else Panic);
            _ ← drop_strong strong;
            reclaim_loop fuel index r
        | None => reclaim_loop fuel (S index) reclaimed
        end
    end
  else mret reclaimed.
Definition reclaim_io_queues {E} : M E Z :=
  used ← gets used_io_queues;
  reclaim_loop (length used) 0 0.

Definition get_io_queue {E} : M E (option nat) :=
  popped ← pop_available;
  popped ← (match popped with
    | Some w => mret (Some w)
    | None => _ ← reclaim_io_queues; pop_available
    end);
  match popped with
  | None => mret None
  | Some weak =>
      o ← try_upgrade weak;
      strong ← lift (expect o);
      _ ← modify (λ s, set_pool (all_queues s) (available_io_queues s) (used_io_queues s ++ [weak]) s);
      mret (Some strong)
  end.

Definition max_io_queue_count (s : Ctl) : Z :=
  Z.min (max_number_submission_queues (info s)) (max_number_completions_queues (info s)).

(** *** Creating queues on the device *)

(** The error of the last command that failed *)
Definition check_created (results : list CommonCompletionEntry) : M ControllerError unit :=
  statuses ← lift (mapM status results);
  if existsb is_err statuses then
    err ← lift (expect (last (filter (λ st, is_err st = true) statuses)));
    lift (Err (Nvme (AdminCommandFailed err)))
  else mret tt.

(** One of the two halves of [allocate_io_queues_with_sizes]: submit a command for every
    queue, wait for all of them and look at their status *)
Definition create_on_device (create : IoQueue → result ControllerError CommonCommand) (queues : list IoQueue)
    : M ControllerError unit :=
  commands ← lift (mapM create queues);
  r ← try (on_admin (submit_all env fuel commands));
  match r with
  | inr err =>
      _ ← on_admin cancel_submissions;
      lift (Err (Nvme err))
  | inl idents =>
      _ ← on_admin (NvmeQueue.flush env);
      r ← try (on_admin (wait_for_all env rounds fuel idents []));
      match r with
      | inr (_, err) => lift (Err (Nvme (AdminQueuePollCompletions err)))
      | inl results => check_created results
      end
  end.

(** A call whose error drops the new queues *)
Definition or_drop_queues (queues : list IoQueue) (m : M ControllerError unit) : M ControllerError unit :=
  r ← try m;
  match r with
  | inl _ => mret tt
  | inr err => _ ← on_kernel (drop_queues queues); lift (Err err)
  end.

Definition create_comp (q : IoQueue) : result ControllerError CommonCommand :=
  create_io_completion_queue (queue_id (io_ring q)) (completion_queue_size (io_ring q))
    (completion_queue_frame (io_rings q)).
Definition create_sub (q : IoQueue) : result ControllerError CommonCommand :=
  create_io_submission_queue (queue_id (io_ring q)) (submission_queue_size (io_ring q))
    (submission_queue_frame (io_rings q)).

(** [Weak::new] of every queue *)
Definition push_queues (queues : list IoQueue) (s : Ctl) : Ctl :=
  set_pool (all_queues s ++ ((λ q, (q, false)) <$> queues))
    (available_io_queues s ++ seq (length (all_queues s)) (length queues)) (used_io_queues s) s.

Definition queue_limit_reached (s : Ctl) (count : Z) : bool :=
  match QueueIdentifier_checked_add (next_unused_io_queue_ident s) count with
  | Some requested_size => requested_size >? max_io_queue_count s
  | None => false
  end.

(** The queues of the local [queues] are dropped before the guards of the locks. *)
Definition allocate_io_queues_with_sizes (count completion_queue_size submission_queue_size : Z)
    : M ControllerError unit :=
  s ← gets id;
  _ ← lift (assert_ (completion_queue_size <=? maximum_queue_entries (info s)));
  _ ← lift (assert_ (submission_queue_size <=? maximum_queue_entries (info s)));
  if queue_limit_reached s count then lift (Err (Nvme (IOQueueLimitReached count (max_io_queue_count s))))
  else
    _ ← on_kernel lock_kernel;
    '(queues, error) ← on_kernel (allocate_rings (Z.to_nat count) (next_unused_io_queue_ident s) 0
         submission_queue_size completion_queue_size (doorbell_stride (info s)));
    match error with
    | Some err =>
        _ ← on_kernel (drop_queues queues);
        _ ← on_kernel unlock_kernel;
        lift (Err err)
    | None =>
        _ ← on_kernel unlock_kernel;
        _ ← or_drop_queues queues (create_on_device create_comp queues);
        _ ← or_drop_queues queues (create_on_device create_sub queues);
        _ ← modify (push_queues queues);
        next ← lift (QueueIdentifier_add (next_unused_io_queue_ident s) count);
        modify (set_next_ident next)
    end.

Definition COMP_SIZE : Z := PAGE_SIZE / COMPLETION_COMMAND_ENTRY_SIZE.
Definition SUB_SIZE : Z := PAGE_SIZE / SUBMISSION_COMMAND_ENTRY_SIZE.
Definition QUEUE_SIZE : Z := if COMP_SIZE <? SUB_SIZE then COMP_SIZE else SUB_SIZE.

Definition allocate_io_queues (count : Z) : M ControllerError unit :=
  m ← gets (λ s, maximum_queue_entries (info s));
  allocate_io_queues_with_sizes count (Z.min QUEUE_SIZE m) (Z.min QUEUE_SIZE m).

Definition get_or_alloc_io_queue : M ControllerError nat :=
  o ← get_io_queue;
  match o with
  | Some queue => mret queue
  | None =>
      _ ← allocate_io_queues 1;
      o ← get_io_queue;
      lift (expect o)
  end.

Definition available_count (s : Ctl) : Z := Z.of_nat (length (available_io_queues s)).
Definition ensure_available_io_queues (count : Z) : M ControllerError unit :=
  n ← gets available_count;
  if count <=? n then mret tt
  else
    _ ← reclaim_io_queues;
    n ← gets available_count;
    if count <=? n then mret tt
    else
      let to_alloc := count - n mod (u16_max + 1) in
      _ ← lift (assert_ (to_alloc >? 0));
      allocate_io_queues to_alloc.

(** *** Dropping the controller *)

Definition is_safe_to_drop {E} : M E bool :=
  _ ← reclaim_io_queues;
  used ← gets used_io_queues;
  mret (Nat.eqb (length used) 0).

(** A command that is submitted with [expect] *)
Definition submit_or_panic {E} (command : CommonCommand) : M E CommandIdentifier :=
  r ← try (on_admin (submit env fuel command));
  match r with inl ident => mret ident | inr _ => lift Panic end.

Fixpoint delete_queues {E} (weaks : list nat) : M E (list CommandIdentifier) :=
  match weaks with
  | [] => mret []
  | weak :: weaks =>
      o ← try_upgrade weak;
      strong ← lift (expect o);
      qs ← gets all_queues;
      '(q, _) ← lift (vec_get qs strong);
      delete_sub ← lift (delete_io_submission_queue (queue_id (io_ring q)));
      delete_comp ← lift (delete_io_completion_queue (queue_id (io_ring q)));
      i ← submit_or_panic delete_sub;
      j ← submit_or_panic delete_comp;
      _ ← drop_strong strong;
      idents ← delete_queues weaks;
      mret (i :: j :: idents)
  end.

Fixpoint forget_completed {E} (completions : list CommonCompletionEntry) (idents : list CommandIdentifier)
    : result E (list CommandIdentifier) :=
  match completions with
  | [] => mret idents
  | completion :: completions =>
      idents ← match position (λ ci, ci =? command_ident completion) idents with
        | Some pos => '(_, rest) ← vec_swap_remove pos idents; mret rest
        | None => mret idents
        end;
      forget_completed completions idents
  end.

Fixpoint wait_deleted {E} (rounds : nat) (idents : list CommandIdentifier) : M E unit :=
  match rounds with
  | O => lift Hang
  | S rounds =>
      r ← on_admin (poll_completions env fuel);
      _ ← lift (assert_ (match error_on_any_entry r with None => true | Some _ => false end));
      completions ← on_admin drain_completions;
      idents ← lift (forget_completed completions idents);
      if Nat.eqb (length idents) 0 then mret tt else wait_deleted rounds idents
  end.

(** An error to unmap is logged and the page stays allocated. *)
Definition unmap_and_free {E} (page : Page) : Prelude.M (KernelMemory PT) E unit :=
  r ← try (km_on_table (on_fst (mapM_err PageTableMap (PageTable_unmap Size4KiB page))));
  match r with
  | inl _ => expect_ok (km_on_pages (free_page Size4KiB page))
  | inr _ => mret tt
  end.

(** [Drop]: the queues are deleted on the device; the memory of the queues is freed when the
    fields are dropped, the admin queue first. *)
Definition NVMEController_drop {E} (admin : IoQueue) : M E unit :=
  safe ← is_safe_to_drop;
  _ ← lift (assert_ safe);
  _ ← on_admin (clear_completions env rounds fuel);
  available ← gets available_io_queues;
  command_idents ← delete_queues available;
  _ ← (if Nat.eqb (length available) 0 then mret tt else on_admin (NvmeQueue.flush env));
  _ ← wait_deleted rounds command_idents;
  _ ← on_kernel lock_kernel;
  i ← gets info;
  _ ← on_kernel (unmap_and_free (controller_page i));
  _ ← on_kernel (unmap_and_free (doorbell_page i));
  _ ← on_kernel unlock_kernel;
  _ ← on_kernel (CommandQueue_drop admin);
  qs ← gets all_queues;
  queues ← lift (mapM (λ w, vec_get qs w) available);
  on_kernel (drop_queues (fst <$> queues)).

(** [try_drop]; [false] gives the controller back. *)
Definition try_drop {E} (admin : IoQueue) : M E bool :=
  safe ← is_safe_to_drop;
  if negb safe then mret false
  else
    _ ← NVMEController_drop admin;
    mret true.
End controller.
