(* ===== verification/NvmeControllerProofs.v ===== *)
(** * The queue pool of the NVMe controller

    Handles are handed out exclusively and recovered when they are dropped; allocating
    queues on every branch; and the admin queue under a device that follows its protocol. *)

From S2P Require Import Prelude Bits NvmePrp NvmeCommand WrappingValue NvmeQueue NvmeQueueProofs NvmeQueueSpec KernelMem RangeSet PageAlloc PageMapping NvmeProperties NvmeAdmin NvmeAdminProofs NvmeController.
Local Open Scope Z_scope.

(** ** [swap_remove] *)

Lemma removelast_last {A} (l : list A) y : last l = Some y → l = removelast l ++ [y].
Proof.
  intros Hl. destruct l as [|x l _] using rev_ind; [done|]. rewrite last_snoc in Hl.
  injection Hl as ->. by rewrite removelast_app, app_nil_r by done.
Qed.

Lemma vec_swap_remove_spec {E A} i (l : list A) x : l !! i = Some x →
  ∃ rest, vec_swap_remove (E:=E) i l = Ok (x, rest) ∧ l ≡ₚ x :: rest ∧
    length rest = pred (length l) ∧ (∀ j, (j < i)%nat → rest !! j = l !! j).
Proof.
  intros Hx. unfold vec_swap_remove. rewrite Hx.
  destruct (last l) as [y|] eqn:Hy; [|apply last_None in Hy; by subst].
  pose proof (removelast_last l y Hy) as Hl. set (r := removelast l) in *. clearbody r. subst l.
  rewrite length_app. cbn [length]. replace (length r + 1 - 1)%nat with (length r) by lia.
  destruct (Nat.eqb_spec i (length r)) as [->|Hi].
  - exists r. rewrite lookup_app_r, Nat.sub_diag in Hx by done. injection Hx as ->.
    split; [done|]. split; [by rewrite Permutation_app_comm|]. split; [lia|].
    intros j Hj. by rewrite lookup_app_l by lia.
  - pose proof (lookup_lt_Some _ _ _ Hx) as Hlt. rewrite length_app in Hlt. cbn in Hlt.
    rewrite lookup_app_l in Hx by lia.
    exists (<[i:=y]> r). split; [done|]. split; [|split].
    + rewrite (insert_take_drop r i y) by lia. rewrite <- (take_drop_middle r i x Hx) at 1.
      solve_Permutation.
    + rewrite length_insert. lia.
    + intros j Hj. by rewrite list_lookup_insert_ne, lookup_app_l by lia.
Qed.

(** ** The pool *)

Section pool.
Context {PT : Type}.
Local Abbreviation Ctl := (NVMEController PT).
Local Abbreviation M := (M Ctl).

(** Which queues are handed out *)
Definition handles (s : Ctl) : list bool := snd <$> all_queues s.

(** Everything but the lists of handles *)
Definition same_rest (s s' : Ctl) : Prop :=
  info s' = info s ∧ admin_queue s' = admin_queue s ∧ kernel s' = kernel s ∧
  (fst <$> all_queues s') = (fst <$> all_queues s) ∧
  next_unused_io_queue_ident s' = next_unused_io_queue_ident s.

#[export] Instance same_rest_preorder : PreOrder same_rest.
Proof.
  split; [by intros s; split_and!|]. intros s1 s2 s3 (?&?&?&?&?) (?&?&?&?&?). split_and!; congruence.
Qed.

(** Every queue is in one of the two lists, those that are available are not handed out,
    and the identifiers count from one. *)
Record pool_ok (s : Ctl) : Prop := {
  po_lists : available_io_queues s ++ used_io_queues s ≡ₚ seq 0 (length (all_queues s));
  po_available w : w ∈ available_io_queues s → handles s !! w = Some false;
  po_idents : (λ q, queue_id (io_ring q.1)) <$> all_queues s = seqZ 1 (Z.of_nat (length (all_queues s)));
  po_next : next_unused_io_queue_ident s = 1 + Z.of_nat (length (all_queues s));
  po_bound : next_unused_io_queue_ident s ≤ u16_max;
}.

Lemma handles_length s : length (handles s) = length (all_queues s).
Proof. apply length_fmap. Qed.

Lemma listed s w : pool_ok s → w ∈ available_io_queues s ++ used_io_queues s ↔ (w < length (all_queues s))%nat.
Proof. intros Hp. rewrite (po_lists _ Hp), elem_of_seq. lia. Qed.

Lemma lists_length s : pool_ok s → (length (available_io_queues s) + length (used_io_queues s))%nat = length (all_queues s).
Proof. intros Hp. by rewrite <- length_app, (po_lists _ Hp), length_seq. Qed.

Lemma handles_set_strong w b s : handles (set_strong w b s) = alter (λ _, b) w (handles s).
Proof. unfold handles, set_strong, set_pool. cbn. apply list_fmap_alter. by apply Forall_true. Qed.

Lemma same_rest_set_strong w b s : same_rest s (set_strong w b s).
Proof.
  split_and!; try done. cbn. apply list_eq. intros i. rewrite !list_lookup_fmap.
  destruct (decide (i = w)) as [->|].
  - rewrite list_lookup_alter_eq. by destruct (all_queues s !! w).
  - by rewrite list_lookup_alter_ne.
Qed.

Lemma pool_ok_change s s' : pool_ok s → same_rest s s' →
  available_io_queues s' ++ used_io_queues s' ≡ₚ available_io_queues s ++ used_io_queues s →
  (∀ w, w ∈ available_io_queues s' → handles s' !! w = Some false) → pool_ok s'.
Proof.
  intros [Hl Ha Hid Hn Hb] (_ & _ & _ & Hq & Hnext) Hperm Hav.
  assert (length (all_queues s') = length (all_queues s)) as Hlen.
  { by rewrite <- (length_fmap fst), Hq, length_fmap. }
  split; rewrite ?Hlen, ?Hnext; try done; [by rewrite Hperm|].
  assert (∀ l : list (IoQueue * bool), (λ q : IoQueue * bool, queue_id (io_ring q.1)) <$> l =
    (λ q : IoQueue, queue_id (io_ring q)) <$> (fst <$> l)) as Hc by (intros l; by rewrite <- list_fmap_compose).
  by rewrite Hc, Hq, <- Hc.
Qed.

(** A handle is taken when nobody has it. *)
Lemma try_upgrade_spec {E} w (b : bool) s : handles s !! w = Some b →
  try_upgrade (E:=E) w s = if b then (Ok None, s) else (Ok (Some w), set_strong w true s).
Proof.
  intros Hw. unfold handles in Hw. rewrite list_lookup_fmap in Hw.
  apply fmap_Some in Hw as ([q b'] & Hq & ->). unfold try_upgrade. rewrite run_gets, run_bind.
  unfold lift, vec_get. rewrite Hq. cbn. by destruct b'.
Qed.

Lemma set_strong_twice w s : handles s !! w = Some false → all_queues (set_strong w false (set_strong w true s)) = all_queues s.
Proof.
  intros Hw. unfold handles in Hw. rewrite list_lookup_fmap in Hw. apply fmap_Some in Hw as ([q b] & Hq & ->).
  cbn. apply list_eq. intros i. destruct (decide (i = w)) as [->|].
  - by rewrite !list_lookup_alter_eq, Hq.
  - by rewrite !list_lookup_alter_ne.
Qed.

(** *** [reclaim_io_queues] *)

(** Everything is kept but the order of the handles and the list they are in; those in
    [used] are handed out. *)
Record reclaimed (s s' : Ctl) : Prop := {
  rc_ok : pool_ok s';
  rc_rest : same_rest s s';
  rc_queues : all_queues s' = all_queues s;
  rc_used w : w ∈ used_io_queues s' → handles s' !! w = Some true;
}.

Lemma reclaim_loop_ok {E} n : ∀ index r s, pool_ok s →
  (length (used_io_queues s) - index ≤ n)%nat →
  0 ≤ r → r + Z.of_nat (length (used_io_queues s)) ≤ u16_max + Z.of_nat index →
  (∀ i w, (i < index)%nat → used_io_queues s !! i = Some w → handles s !! w = Some true) →
  ∃ r' s', reclaim_loop (E:=E) n index r s = (Ok r', s') ∧ reclaimed s s' ∧
    r' = r + Z.of_nat (length (available_io_queues s')) - Z.of_nat (length (available_io_queues s)).
Proof.
  induction n as [|n IH]; intros index r s Hp Hn Hr Hmax Hheld.
  all: cbn [reclaim_loop]; rewrite run_gets; destruct (Nat.ltb_spec index (length (used_io_queues s))) as [Hlt|Hge];
    [|exists r, s; split; [done|]; split; [|lia]; split; [done|done|done|];
      intros w [i Hi]%list_elem_of_lookup; apply (Hheld i w); [|done]; apply lookup_lt_Some in Hi; lia].
  { lia. }
  destruct (lookup_lt_is_Some_2 _ _ Hlt) as [w Hw].
  assert (w < length (all_queues s))%nat as Hwl.
  { apply (listed s w Hp). apply elem_of_app. right. by eapply list_elem_of_lookup_2. }
  destruct (lookup_lt_is_Some_2 (handles s) w) as [b Hb]; [by rewrite handles_length|].
  rewrite run_lift with (a := w) by (unfold vec_get; by rewrite Hw).
  rewrite run_bind, (try_upgrade_spec w b) by done. destruct b.
  - destruct (IH (S index) r s) as (r' & s' & Hrun & Hrec & Hr'); [done|lia|lia|lia| |by exists r', s'].
    intros i w' Hi Hw'. destruct (decide (i = index)) as [->|]; [naive_solver|].
    apply (Hheld i); [lia|done].
  - destruct (vec_swap_remove_spec (E:=E) index (used_io_queues s) w Hw) as (rest & Hsr & Hperm & Hlen & Hpre).
    rewrite run_lift with (a := (w, rest)) by done. rewrite run_modify.
    rewrite run_lift with (a := r + 1)
      by (destruct (Z.leb_spec (r + 1) u16_max); [done|lia]).
    unfold drop_strong at 1. rewrite run_modify.
    set (s1 := set_strong w false _).
    assert (all_queues s1 = all_queues s) as Hall by (rewrite <- (set_strong_twice w s Hb); done).
    assert (handles s1 = handles s) as Hh by (unfold handles; by rewrite Hall).
    assert (used_io_queues s1 = rest) as Hu by done.
    assert (available_io_queues s1 = available_io_queues s ++ [w]) as Ha by done.
    assert (same_rest s s1) as Hsame by (split_and!; try done; by rewrite Hall).
    assert (pool_ok s1) as Hp1.
    { apply (pool_ok_change s); [done|done| |].
      - rewrite Hu, Ha, Hperm. solve_Permutation.
      - intros w'. rewrite Ha, elem_of_app, list_elem_of_singleton, Hh. intros [?| ->]; [by apply po_available|done]. }
    destruct (IH index (r + 1) s1) as (r' & s' & Hrun & Hrec & Hr'); [done|rewrite Hu; lia|lia|rewrite Hu; lia| |].
    { intros i w' Hi. rewrite Hu, Hh, Hpre by done. by apply Hheld. }
    exists r', s'. split; [done|]. split; [|rewrite Ha, length_app in Hr'; cbn in Hr'; lia].
    destruct Hrec. split; [done|by etrans|by rewrite rc_queues0|done].
Qed.

Lemma reclaim_ok {E} s : pool_ok s →
  ∃ r' s', reclaim_io_queues (E:=E) s = (Ok r', s') ∧ reclaimed s s' ∧
    r' = Z.of_nat (length (available_io_queues s')) - Z.of_nat (length (available_io_queues s)).
Proof.
  intros Hp. unfold reclaim_io_queues. rewrite run_gets.
  pose proof (lists_length s Hp). pose proof (po_next s Hp). pose proof (po_bound s Hp).
  destruct (reclaim_loop_ok (E:=E) (length (used_io_queues s)) 0 0 s) as (r' & s' & Hrun & Hrec & Hr');
    [done|lia|lia|lia|by intros; lia|].
  exists r', s'. split; [done|]. split; [done|lia].
Qed.

(** *** [get_io_queue] *)

Lemma pop_available_spec {E} s : pool_ok s →
  (pop_available (E:=E) s = (Ok None, s) ∧ available_io_queues s = []) ∨
  ∃ w l, available_io_queues s = l ++ [w] ∧
    pop_available (E:=E) s = (Ok (Some w), set_pool (all_queues s) l (used_io_queues s) s).
Proof.
  intros Hp. unfold pop_available. rewrite run_gets. destruct (last (available_io_queues s)) as [w|] eqn:Hl.
  - right. pose proof (removelast_last _ _ Hl) as Hav. exists w, (removelast (available_io_queues s)). by split.
  - left. split; [done|]. by apply last_None.
Qed.

(** The popped handle is upgraded and put into the other list. *)
Lemma hand_out {E} s l w : pool_ok s → available_io_queues s = l ++ [w] →
  ∃ s', (o ← try_upgrade (E:=E) w; strong ← lift (expect o);
         _ ← modify (λ s, set_pool (all_queues s) (available_io_queues s) (used_io_queues s ++ [w]) s);
         mret (Some strong)) (set_pool (all_queues s) l (used_io_queues s) s) = (Ok (Some w), s') ∧
    pool_ok s' ∧ same_rest s s' ∧ handles s !! w = Some false ∧ handles s' = <[w:=true]> (handles s).
Proof.
  intros Hp Hav. assert (handles s !! w = Some false) as Hw.
  { apply po_available; [done|]. rewrite Hav. set_solver. }
  rewrite run_bind, (try_upgrade_spec w false) by done.
  rewrite run_lift with (a := w) by done. rewrite run_modify. eexists. split; [done|].
  set (s' := set_pool _ _ _ _).
  assert (handles s' = <[w:=true]> (handles s)) as Hh.
  { transitivity (handles (set_strong w true s)); [done|]. rewrite handles_set_strong.
    apply list_eq. intros i. destruct (decide (i = w)) as [->|].
    - rewrite list_lookup_alter_eq, list_lookup_insert_eq, Hw; [done|]. by eapply lookup_lt_Some.
    - by rewrite list_lookup_alter_ne, list_lookup_insert_ne. }
  assert (same_rest s s') as Hsame.
  { destruct (same_rest_set_strong w true s) as (?&?&?&?&?). by split_and!. }
  split; [|done]. apply (pool_ok_change s); [done|done| |].
  - cbn. rewrite Hav. solve_Permutation.
  - intros w' Hw'. cbn in Hw'. rewrite Hh. rewrite list_lookup_insert_ne; [apply po_available; [done|]; rewrite Hav; set_solver|].
    intros ->. pose proof (po_lists s Hp) as Hperm. rewrite Hav in Hperm.
    assert (NoDup ((l ++ [w']) ++ used_io_queues s)) as Hnd by (rewrite Hperm; apply NoDup_seq).
    apply NoDup_app in Hnd as [Hnd _]. apply NoDup_app in Hnd as (_ & Hd & _). apply (Hd w' Hw'). set_solver.
Qed.

(** A queue that nobody has is handed out, if there is one. *)
Lemma get_io_queue_ok {E} s : pool_ok s →
  ∃ o s', get_io_queue (E:=E) s = (Ok o, s') ∧ pool_ok s' ∧ same_rest s s' ∧
    match o with
    | Some w => handles s !! w = Some false ∧ handles s' = <[w:=true]> (handles s)
    | None => handles s' = handles s ∧ Forall (λ b, b = true) (handles s)
    end.
Proof.
  intros Hp. unfold get_io_queue. rewrite run_bind.
  destruct (pop_available_spec (E:=E) s Hp) as [[-> Hav]|(w & l & Hav & ->)].
  - rewrite run_bind, run_bind. destruct (reclaim_ok (E:=E) s Hp) as (r & s1 & -> & [Hp1 Hs1 Hq Hused] & _).
    assert (handles s1 = handles s) as Hh by (unfold handles; by rewrite Hq).
    destruct (pop_available_spec (E:=E) s1 Hp1) as [[-> Hav1]|(w & l & Hav1 & ->)].
    + exists None, s1. split; [done|]. split; [done|]. split; [done|]. split; [done|].
      apply Forall_lookup. intros w b Hw. apply lookup_lt_Some in Hw as Hlt. rewrite handles_length in Hlt.
      rewrite <- Hq in Hlt. apply (listed s1 w Hp1) in Hlt. rewrite Hav1 in Hlt.
      apply Hused in Hlt. rewrite Hh in Hlt. naive_solver.
    + destruct (hand_out (E:=E) s1 l w Hp1 Hav1) as (s' & Hrun & Hp' & Hs' & Hw & Hh').
      exists (Some w), s'. split; [exact Hrun|]. split; [done|]. split; [by etrans|]. by rewrite <- Hh.
  - rewrite run_ret. destruct (hand_out (E:=E) s l w Hp Hav) as (s' & Hrun & Hp' & Hs' & Hw & Hh').
    exists (Some w), s'. by split.
Qed.

(** Dropping a handle that was handed out *)
Lemma drop_strong_ok {E} s w : pool_ok s → handles s !! w = Some true →
  drop_strong (E:=E) w s = (Ok tt, set_strong w false s) ∧ pool_ok (set_strong w false s) ∧
  same_rest s (set_strong w false s) ∧ handles (set_strong w false s) = <[w:=false]> (handles s).
Proof.
  intros Hp Hw. split; [done|].
  assert (handles (set_strong w false s) = <[w:=false]> (handles s)) as Hh.
  { rewrite handles_set_strong. apply list_eq. intros i. destruct (decide (i = w)) as [->|].
    - rewrite list_lookup_alter_eq, list_lookup_insert_eq, Hw; [done|]. by eapply lookup_lt_Some.
    - by rewrite list_lookup_alter_ne, list_lookup_insert_ne. }
  pose proof (same_rest_set_strong w false s) as Hsame. split; [|done].
  apply (pool_ok_change s); [done|done|done|]. intros w' Hw'. rewrite Hh.
  destruct (decide (w' = w)) as [->|]; [|by rewrite list_lookup_insert_ne; [apply po_available|]].
  apply list_lookup_insert_eq. by eapply lookup_lt_Some.
Qed.

Lemma is_safe_ok {E} s : pool_ok s →
  ∃ b s', is_safe_to_drop (E:=E) s = (Ok b, s') ∧ pool_ok s' ∧ same_rest s s' ∧ handles s' = handles s ∧
    (b = true ↔ Forall (λ b, b = false) (handles s)).
Proof.
  intros Hp. unfold is_safe_to_drop. rewrite run_bind.
  destruct (reclaim_ok (E:=E) s Hp) as (r & s1 & -> & [Hp1 Hs1 Hq Hused] & _). rewrite run_gets.
  assert (handles s1 = handles s) as Hh by (unfold handles; by rewrite Hq).
  eexists _, s1. split; [done|]. split; [done|]. split; [done|]. split; [done|].
  rewrite Nat.eqb_eq, length_zero_iff_nil, <- Hh. split.
  - intros Hnil. apply Forall_lookup. intros w b Hw. apply lookup_lt_Some in Hw as Hlt. rewrite handles_length in Hlt.
    apply (listed s1 w Hp1) in Hlt. rewrite Hnil, app_nil_r in Hlt. apply (po_available s1 Hp1) in Hlt. naive_solver.
  - intros Hall. destruct (used_io_queues s1) as [|w l] eqn:Hu; [done|exfalso].
    pose proof (Hused w ltac:(left)) as Hw. rewrite Forall_lookup in Hall. by apply Hall in Hw.
Qed.
End pool.

(** ** The admin queue *)

Lemma mapM_total {E A B} (f : A → result E B) (P : B → Prop) l :
  Forall (λ x, ∃ y, f x = Ok y ∧ P y) l → ∃ ys, mapM f l = Ok ys ∧ Forall P ys.
Proof.
  induction 1 as [|x l (y & Hy & HP) _ (ys & Hys & HPs)]; [by exists []|].
  exists (y :: ys). split; [|by constructor].
  change (mapM f (x :: l)) with (y ← f x; k ← mapM f l; mret (M:=result E) (y :: k)).
  by rewrite Hy, Hys.
Qed.

Section admin.
Context `{BF : BitField} `{!U8Enum GenericCommandStatus_disc} `{Addresses} {PT : Type} `{Mapper PT}.
Context (ns nc : nat) (env : nat → Hardware → Hardware) (rounds fuel : nat).
Hypothesis Henv : controller 0 ns nc env.
Hypothesis Hfuel : (nc ≤ fuel)%nat.
Local Abbreviation Ctl := (NVMEController PT).

Definition queue_ok (q : QState) : Prop := ∃ sent staged c d hd, queue_inv 0 ns nc sent staged c d hd q.
(** The call changes the admin queue, and nothing else. *)
Definition only_admin (s s' : Ctl) : Prop :=
  queue_ok (admin_queue s') ∧ ∃ q, s' = mkController (info s) q (kernel s) (all_queues s)
    (available_io_queues s) (used_io_queues s) (next_unused_io_queue_ident s).

Lemma submit_all_ok commands : ∀ q, queue_ok q → Forall (λ c, 0 ≤ dword0 c) commands →
  match submit_all env fuel commands q with
  | (Ok _, q') | (Err _, q') => queue_ok q'
  | _ => False
  end.
Proof.
  induction commands as [|command commands IH]; intros q Hq Hall; [done|]. cbn [submit_all].
  inversion Hall as [|?? Hc Hcs]; subst. destruct Hq as (sent & staged & c & d & hd & Hi).
  pose proof (wp_submit 0 ns nc env Henv fuel _ _ _ _ _ _ command Hi Hc Hfuel) as Hs. unfold wp in Hs. rewrite run_bind.
  destruct (submit env fuel command q) as [[i|e| |] q']; [| |done..].
  - destruct Hs as (_ & c' & d' & hd' & Hi' & _). rewrite run_bind.
    specialize (IH q' ltac:(by do 5 eexists) Hcs).
    by destruct (submit_all env fuel commands q') as [[| | |] ?].
  - destruct Hs as (_ & c' & d' & hd' & Hi' & _). by do 5 eexists.
Qed.

Lemma wait_for_all_ok idents : ∀ q completed, queue_ok q →
  match wait_for_all env rounds fuel idents completed q with
  | (Panic, _) => False
  | (_, q') => queue_ok q'
  end.
Proof.
  induction idents as [|ident idents IH]; intros q completed Hq; [done|]. cbn [wait_for_all].
  destruct Hq as (sent & staged & c & d & hd & Hi). rewrite run_bind. unfold try.
  pose proof (wait_for_outcome 0 ns nc env fuel Henv Hfuel rounds ident _ _ _ _ _ _ Hi) as Hw.
  destruct (wait_for env rounds fuel ident q) as [r q'].
  destruct Hw as (c' & d' & hd' & s1 & Hi' & _ & _ & Hr).
  assert (queue_ok q') as Hq' by (by do 5 eexists).
  destruct r as [entry|err| |]; [by apply IH|done|done|done].
Qed.

Lemma check_created_ok results (s : Ctl) :
  match check_created results s with
  | (Ok _, s') | (Err _, s') => s' = s
  | _ => False
  end.
Proof.
  destruct (mapM_total (status (E:=ControllerError)) (λ _, True) results) as (sts & Hsts & _).
  { apply Forall_forall. intros e _. destruct (status_decodes (E:=ControllerError) e) as (st & Hst & _). by exists st. }
  unfold check_created. rewrite run_lift with (a := sts) by done.
  destruct (existsb is_err sts) eqn:Hex; [|done].
  destruct (last (filter (λ st, is_err st = true) sts)) as [err|] eqn:Hlast; [done|exfalso].
  apply last_None in Hlast. apply existsb_exists in Hex as (st & Hin & Herr).
  assert (st ∈ filter (λ st, is_err st = true) sts) as Hf by (apply list_elem_of_filter; split; [done|by apply list_elem_of_In]).
  rewrite Hlast in Hf. by apply not_elem_of_nil in Hf.
Qed.

(** Creating the queues on the device never panics, whatever the device answers. *)
Lemma create_on_device_ok create queues (s : Ctl) : queue_ok (admin_queue s) →
  Forall (λ q, ∃ c, create q = Ok c ∧ 0 ≤ dword0 c) queues →
  match create_on_device env rounds fuel create queues s with
  | (Panic, _) => False
  | (_, s') => only_admin s s'
  end.
Proof.
  intros Hq Hall.
  destruct (mapM_total create (λ c, 0 ≤ dword0 c) queues Hall) as (cs & Hcs & Hd).
  unfold create_on_device. rewrite run_lift with (a := cs) by done. rewrite run_bind. unfold try at 1, on_admin at 1.
  pose proof (submit_all_ok cs (admin_queue s) Hq Hd) as Hs.
  destruct (submit_all env fuel cs (admin_queue s)) as [[idents|err| |] q1]; [| |done..].
  - rewrite run_bind. unfold on_admin at 1. cbn [admin_queue]. destruct Hs as (sent & staged & c & d & hd & Hi).
    pose proof (wp_flush 0 ns nc env Henv (E:=ControllerError) (λ _ _, False) _ _ _ _ _ _ Hi) as Hf.
    unfold wp in Hf. destruct (flush env q1) as [[[]| | |] q2]; [|done..]. destruct Hf as [Hi2 _].
    rewrite run_bind. unfold try, on_admin. cbn [admin_queue].
    pose proof (wait_for_all_ok idents q2 [] ltac:(by do 5 eexists)) as Hw.
    destruct (wait_for_all env rounds fuel idents [] q2) as [[results|[done err]| |] q3]; cbn.
    + set (s3 := mkController _ _ _ _ _ _ _).
      pose proof (check_created_ok results s3) as Hc.
      destruct (check_created results s3) as [[[]|e| |] s4]; [subst s4..|done|done]; (split; [done|by eexists]).
    + split; [done|by eexists].
    + done.
    + split; [done|by eexists].
  - rewrite run_bind. unfold on_admin. cbn [admin_queue]. destruct Hs as (sent & staged & c & d & hd & Hi).
    pose proof (wp_cancel 0 ns nc (E:=ControllerError) (λ _ _, False) _ _ _ _ _ _ Hi) as Hf.
    unfold wp in Hf. destruct (cancel_submissions q1) as [[[]| | |] q2]; [|done..]. destruct Hf as [Hi2 _].
    split; [by do 5 eexists|by eexists].
Qed.
End admin.

(** ** Allocating queues *)

Section allocate.
Context `{BF : BitField} `{!U8Enum GenericCommandStatus_disc} `{Addresses} {PT : Type} `{Mapper PT}.
Local Abbreviation Ctl := (NVMEController PT).

(** Calls that neither take nor release the locks *)
Definition keeps_lock {E A} (m : M (KernelMemory PT) E A) : Prop := ∀ k, km_locked (m k).2 = km_locked k.

Lemma keeps_lock_bind {E A B} (m : M (KernelMemory PT) E A) (f : A → M (KernelMemory PT) E B) :
  keeps_lock m → (∀ a, keeps_lock (f a)) → keeps_lock (m ≫= f).
Proof.
  intros Hm Hf k. rewrite run_bind. specialize (Hm k). destruct (m k) as [[a| | |] k1]; cbn in *; try done.
  by rewrite Hf.
Qed.
Lemma keeps_lock_mapM_err {E E' A} (f : E → E') (m : M (KernelMemory PT) E A) : keeps_lock m → keeps_lock (mapM_err f m).
Proof. intros Hm k. unfold mapM_err. specialize (Hm k). by destruct (m k). Qed.
Lemma keeps_lock_try {E E' A} (m : M (KernelMemory PT) E A) : keeps_lock m → keeps_lock (try (E':=E') m).
Proof. intros Hm k. unfold try. specialize (Hm k). by destruct (m k) as [[| | |] ?]. Qed.
Lemma keeps_lock_lift {E A} (r : result E A) : keeps_lock (lift r).
Proof. done. Qed.
Lemma keeps_lock_pages {E A} (m : M RangeSet E A) : keeps_lock (km_on_pages m).
Proof. intros k. unfold km_on_pages. by destruct (m (km_pages k)). Qed.
Lemma keeps_lock_table {E A} (m : M (PT * RangeSet) E A) : keeps_lock (km_on_table m).
Proof. intros k. unfold km_on_table. by destruct (m (km_table k, km_frames k)) as [? [? ?]]. Qed.

Create HintDb keeps_lock.
#[local] Hint Resolve keeps_lock_mapM_err keeps_lock_try keeps_lock_lift keeps_lock_pages keeps_lock_table : keeps_lock.
Ltac keeps_lock := repeat (apply keeps_lock_bind; [|intros ?]); auto with keeps_lock.

Lemma IoQueue_allocate_lock id sub comp stride : keeps_lock (IoQueue_allocate (PT:=PT) id sub comp stride).
Proof.
  unfold IoQueue_allocate, CommandQueue_allocate. apply keeps_lock_bind; [|by intros []].
  destruct (sub <? 2); [done|]. destruct (comp <? 2); [done|]. apply keeps_lock_bind; [done|intros _].
  destruct (sub * SUBMISSION_COMMAND_ENTRY_SIZE >? PAGE_SIZE); [done|].
  destruct (comp * COMPLETION_COMMAND_ENTRY_SIZE >? PAGE_SIZE); [done|].
  apply keeps_lock_bind; [|done]. unfold map_rings. by keeps_lock.
Qed.
Lemma allocate_rings_lock n next sub comp stride : ∀ o, keeps_lock (allocate_rings (PT:=PT) n next o sub comp stride).
Proof.
  induction n as [|n IH]; intros o; [done|]. cbn [allocate_rings]. apply keeps_lock_bind; [done|intros i].
  apply keeps_lock_bind; [apply keeps_lock_try, IoQueue_allocate_lock|intros r].
  apply keeps_lock_bind; [done|intros [? ?]]. by destruct r.
Qed.

(** Dropping queues panics where it fails. *)
Definition no_err {E A} (m : M (KernelMemory PT) E A) : Prop := ∀ k e, (m k).1 ≠ Err e.
Lemma no_err_bind {E A B} (m : M (KernelMemory PT) E A) (f : A → M (KernelMemory PT) E B) :
  no_err m → (∀ a, no_err (f a)) → no_err (m ≫= f).
Proof.
  intros Hm Hf k e. rewrite run_bind. specialize (Hm k). destruct (m k) as [[a|e'| |] k1]; cbn in *; try done.
  - apply Hf.
  - by destruct (Hm e').
Qed.
Lemma no_err_expect {E A} (m : M (KernelMemory PT) MemError A) : no_err (expect_ok (E:=E) m).
Proof. intros k e. unfold expect_ok. rewrite run_bind. unfold try. by destruct (m k) as [[| | |] ?]. Qed.
Lemma no_err_assert {E} b : no_err (lift (assert_ (E:=E) b)).
Proof. by destruct b. Qed.
Lemma drop_queues_no_err {E} queues : no_err (drop_queues (E:=E) (PT:=PT) queues).
Proof.
  induction queues as [|q queues IH]; [done|]. cbn [drop_queues]. apply no_err_bind; [|done].
  unfold CommandQueue_drop. do 2 (apply no_err_bind; [apply no_err_assert|intros _]).
  apply no_err_bind; [intros k e; unfold lock_kernel; by destruct (km_locked k)|intros _].
  do 6 (apply no_err_bind; [apply no_err_expect|intros _]). done.
Qed.

(** What an allocated queue looks like *)
Definition ring_ok (sub comp : Z) (id : QueueIdentifier) (q : IoQueue) : Prop :=
  io_ring q = allocated_queue id sub comp ∧ 0 ≤ id ≤ u16_max ∧ 2 ≤ sub ≤ 64 ∧ 2 ≤ comp ≤ 256.

Lemma IoQueue_allocate_Ok id sub comp stride k q k' : 0 ≤ id ≤ u16_max →
  IoQueue_allocate (PT:=PT) id sub comp stride k = (Ok q, k') → ring_ok sub comp id q.
Proof.
  intros Hid Hrun. unfold IoQueue_allocate, CommandQueue_allocate in Hrun.
  apply run_bind_Ok in Hrun as ([r rings] & k1 & Hrun & Hq). injection Hq as <- _.
  destruct (Z.ltb_spec sub 2); [done|]. destruct (Z.ltb_spec comp 2); [done|].
  apply run_lift_Ok in Hrun as ([d1 d2] & _ & Hrun). cbn beta in Hrun.
  unfold SUBMISSION_COMMAND_ENTRY_SIZE, COMPLETION_COMMAND_ENTRY_SIZE, PAGE_SIZE in Hrun.
  destruct (Z.gtb_spec (sub * 64) 4096); [done|]. destruct (Z.gtb_spec (comp * 16) 4096); [done|].
  apply run_bind_Ok in Hrun as (rings' & k2 & _ & Hr). injection Hr as <- <- _.
  split; [done|]. lia.
Qed.

Lemma allocate_rings_Ok n next sub comp stride : 0 ≤ next → ∀ o k qs k', 0 ≤ o →
  allocate_rings (PT:=PT) n next o sub comp stride k = (Ok (qs, None), k') →
  Forall2 (ring_ok sub comp) (seqZ (next + o) (Z.of_nat n)) qs.
Proof.
  intros Hnext. induction n as [|n IH]; intros o k qs k' Ho Hrun; cbn [allocate_rings] in Hrun.
  { injection Hrun as <- _. constructor. }
  apply run_lift_Ok in Hrun as (id & Hid & Hrun). apply expect_Ok in Hid.
  unfold QueueIdentifier_checked_add in Hid. destruct (Z.leb_spec (next + o) u16_max); [|done]. injection Hid as <-.
  apply run_bind_Ok in Hrun as (r & k1 & Htry & Hrun).
  apply run_bind_Ok in Hrun as ([qs' e] & k2 & Hrest & Hrun).
  destruct r as [q|err]; [|done]. injection Hrun as <- -> _.
  rewrite seqZ_cons by lia. replace (Z.pred (Z.of_nat (S n))) with (Z.of_nat n) by lia.
  replace (Z.succ (next + o)) with (next + (o + 1)) by lia.
  constructor; [|eapply IH; [|exact Hrest]; lia].
  unfold try in Htry. destruct (IoQueue_allocate (next + o) sub comp stride k) as [[q'| | |] k3] eqn:Hq; [|done..].
  injection Htry as -> _. eapply IoQueue_allocate_Ok; [|done]. lia.
Qed.

Lemma ring_ok_create sub comp id q : ring_ok sub comp id q →
  (∃ c, create_comp q = Ok c ∧ 0 ≤ dword0 c) ∧ (∃ c, create_sub q = Ok c ∧ 0 ≤ dword0 c).
Proof.
  intros (Hr & Hid & Hs & Hc). unfold create_comp, create_sub. rewrite Hr. cbn.
  destruct (create_io_completion_queue_ok (E:=ControllerError) id comp (completion_queue_frame (io_rings q)))
    as (c1 & -> & Hok1 & _); [done|unfold u16_max; lia|].
  destruct (create_io_submission_queue_ok (E:=ControllerError) id sub (submission_queue_frame (io_rings q)))
    as (c2 & -> & Hok2 & _); [done|unfold u16_max; lia|].
  split; [exists c1|exists c2]; (split; [done|]); [apply Hok1|apply Hok2].
Qed.

Context (ns nc : nat) (env : nat → Hardware → Hardware) (rounds fuel : nat).
Hypothesis Henv : controller 0 ns nc env.
Hypothesis Hfuel : (nc ≤ fuel)%nat.

(** A half of the creation: what the caller sees when it fails *)
Lemma or_drop_ok create queues (s : Ctl) : queue_ok ns nc (admin_queue s) →
  Forall (λ q, ∃ c, create q = Ok c ∧ 0 ≤ dword0 c) queues →
  match or_drop_queues queues (create_on_device env rounds fuel create queues) s with
  | (Ok _, s') => only_admin ns nc s s'
  | (Err _, s') => ∃ s1, only_admin ns nc s s1 ∧ kernel s1 = kernel s ∧
      drop_queues (E:=ControllerError) queues (kernel s) = (Ok tt, kernel s') ∧
      s' = mkController (info s1) (admin_queue s1) (kernel s') (all_queues s1) (available_io_queues s1)
             (used_io_queues s1) (next_unused_io_queue_ident s1)
  | (Panic, _) => (drop_queues (E:=ControllerError) queues (kernel s)).1 = Panic
  | (Hang, _) => True
  end.
Proof.
  intros Hq Hall. unfold or_drop_queues. rewrite run_bind. unfold try.
  pose proof (create_on_device_ok ns nc env rounds fuel Henv Hfuel create queues s Hq Hall) as Hc.
  destruct (create_on_device env rounds fuel create queues s) as [[[]|e| |] s1]; [done| |done|done].
  destruct Hc as [Hq1 [q ->]]. set (s1 := mkController _ _ _ _ _ _ _).
  rewrite run_bind. unfold on_kernel. cbn [kernel s1].
  pose proof (drop_queues_no_err (E:=ControllerError) queues (kernel s)) as Hno.
  destruct (drop_queues queues (kernel s)) as [[[]|e'| |] k'] eqn:Hdrop; cbn in *; [|by destruct (Hno e')|done..].
  exists s1. split; [split; [done|by eexists]|]. done.
Qed.

(** The result and the state of a run that has ended *)
Ltac ran :=
  let Hr := fresh "Hr" in
  intros Hr; unfold mbind, M_bind, on_kernel, lift, mret, M_ret, modify, unlock_kernel in Hr; cbv beta iota in Hr; injection Hr as <- <-.

Lemma pool_ok_ext (s s' : Ctl) : pool_ok s → all_queues s' = all_queues s →
  available_io_queues s' = available_io_queues s → used_io_queues s' = used_io_queues s →
  next_unused_io_queue_ident s' = next_unused_io_queue_ident s → pool_ok s'.
Proof. intros [Hl Ha Hid Hn Hb] Eq Ea Eu En. split; unfold handles in *; by rewrite ?Eq, ?Ea, ?Eu, ?En. Qed.

(** New queues are available, behind the others. *)
Lemma push_queues_ok (s : Ctl) sub comp (n : nat) queues :
  pool_ok s → Forall2 (ring_ok sub comp) (seqZ (next_unused_io_queue_ident s) (Z.of_nat n)) queues →
  next_unused_io_queue_ident s + Z.of_nat n ≤ u16_max →
  let s' := set_next_ident (next_unused_io_queue_ident s + Z.of_nat n) (push_queues queues s) in
  pool_ok s' ∧ handles s' = handles s ++ replicate n false.
Proof.
  intros [Hl Ha Hid Hn Hb] Hq Hbound s'.
  assert (length queues = n) as Hlen by (apply Forall2_length in Hq; rewrite length_seqZ in Hq; lia).
  assert (handles s' = handles s ++ replicate n false) as Hh.
  { unfold handles. cbn. rewrite fmap_app, <- list_fmap_compose. f_equal. rewrite <- Hlen.
    clear. induction queues; cbn; [done|]. by f_equal. }
  split; [|done].
  assert (length (all_queues s') = length (all_queues s) + n)%nat as Hall
    by (cbn; rewrite length_app, length_fmap; lia).
  split.
  - rewrite Hall, seq_app. cbn. rewrite Hlen, <- Hl. solve_Permutation.
  - intros w Hw. cbn in Hw. rewrite Hlen in Hw. apply elem_of_app in Hw as [Hw|Hw]; rewrite Hh.
    + apply lookup_app_l_Some. by apply Ha.
    + apply elem_of_seq in Hw. rewrite lookup_app_r by (rewrite handles_length; lia).
      apply lookup_replicate_2. rewrite handles_length. lia.
  - rewrite Hall. cbn. rewrite fmap_app, Hid, <- list_fmap_compose, Nat2Z.inj_add, seqZ_app by lia. f_equal.
    rewrite Hn in Hq. clear -Hq. revert Hq. generalize (1 + Z.of_nat (length (all_queues s))). intros m Hq.
    induction Hq as [|id q ids qs (Hr & _) _ IH]; [done|]. cbn. rewrite Hr. cbn. by f_equal.
  - rewrite Hall. cbn. lia.
  - cbn. lia.
Qed.

(** C24: allocating [count] queues from a pool in order, on every branch, under a device that
    follows its protocol on the admin queue. At the limit nothing happens. If no ring
    could be allocated the first error is returned; but if some could and some not, the
    call panics, since it drops the rings while it holds the locks that this takes.
    Otherwise the commands are submitted: when the device has created all queues they
    are available, with the next [count] identifiers; an error leaves the pool as it was,
    with the rings dropped, and the only panic is one in dropping the rings. *)
Theorem allocate_io_queues_spec (s s' : Ctl) (r : result ControllerError unit) (count comp_size sub_size : Z)
    (queues : list IoQueue) (error : option ControllerError) (k1 : KernelMemory PT) :
  pool_ok s → queue_ok ns nc (admin_queue s) → km_locked (kernel s) = false →
  0 ≤ count → next_unused_io_queue_ident s + count ≤ u16_max →
  comp_size ≤ maximum_queue_entries (info s) → sub_size ≤ maximum_queue_entries (info s) →
  let locked := mkKernelMemory (km_pages (kernel s)) (km_table (kernel s)) (km_frames (kernel s)) true in
  let unlocked := mkKernelMemory (km_pages k1) (km_table k1) (km_frames k1) false in
  allocate_rings (Z.to_nat count) (next_unused_io_queue_ident s) 0 sub_size comp_size
    (doorbell_stride (info s)) locked = (Ok (queues, error), k1) →
  allocate_io_queues_with_sizes env rounds fuel count comp_size sub_size s = (r, s') →
  if next_unused_io_queue_ident s + count >? max_io_queue_count s
  then r = Err (Nvme (IOQueueLimitReached count (max_io_queue_count s))) ∧ s' = s
  else
    match error with
    | Some e =>
        if bool_decide (queues = []) then r = Err e ∧ pool_ok s' ∧ handles s' = handles s ∧ kernel s' = unlocked
        else r = Panic
    | None =>
        match r with
        | Ok _ => pool_ok s' ∧ queue_ok ns nc (admin_queue s') ∧ kernel s' = unlocked ∧
            handles s' = handles s ++ replicate (Z.to_nat count) false ∧
            next_unused_io_queue_ident s' = next_unused_io_queue_ident s + count
        | Err _ => pool_ok s' ∧ queue_ok ns nc (admin_queue s') ∧ handles s' = handles s ∧
            next_unused_io_queue_ident s' = next_unused_io_queue_ident s ∧
            drop_queues (E:=ControllerError) queues unlocked = (Ok tt, kernel s')
        | Panic => (drop_queues (E:=ControllerError) queues unlocked).1 = Panic
        | Hang => True
        end
    end.
Proof.
  intros Hp Hq Hlock Hcount Hnext Hc Hs locked unlocked Hrings.
  unfold allocate_io_queues_with_sizes. rewrite run_gets. unfold id.
  rewrite run_lift with (a := tt) by (by rewrite (proj2 (Z.leb_le _ _) Hc)).
  rewrite run_lift with (a := tt) by (by rewrite (proj2 (Z.leb_le _ _) Hs)).
  unfold queue_limit_reached, QueueIdentifier_checked_add. rewrite (proj2 (Z.leb_le _ _) Hnext).
  destruct (next_unused_io_queue_ident s + count >? max_io_queue_count s); [by ran|].
  rewrite run_bind. unfold on_kernel at 1, lock_kernel. rewrite Hlock. fold locked.
  rewrite run_bind. unfold on_kernel at 1. cbn [kernel]. rewrite Hrings.
  assert (km_locked k1 = true) as Hk1.
  { pose proof (allocate_rings_lock (Z.to_nat count) (next_unused_io_queue_ident s) sub_size comp_size
      (doorbell_stride (info s)) 0 locked) as Hk. by rewrite Hrings in Hk. }
  destruct error as [e|].
  - rewrite run_bind. unfold on_kernel at 1. cbn [kernel]. case_bool_decide as Hnil.
    + subst queues. cbn [drop_queues]. ran. split; [done|]. split; [by apply (pool_ok_ext s)|]. done.
    + destruct queues as [|q queues]; [done|]. cbn [drop_queues]. rewrite run_bind.
      assert ((CommandQueue_drop (E:=ControllerError) q k1).1 = Panic) as Hdrop.
      { unfold CommandQueue_drop. rewrite run_bind. unfold lift at 1. destruct (_ <=? PAGE_SIZE); [|done].
        cbn [assert_]. rewrite run_bind. unfold lift at 1. destruct (_ <=? PAGE_SIZE); [|done].
        cbn [assert_]. rewrite run_bind. unfold lock_kernel at 1. by rewrite Hk1. }
      destruct (CommandQueue_drop q k1) as [r0 k2]. cbn in Hdrop. subst r0. by ran.
  - pose proof (po_next s Hp) as Hn1.
    assert (Forall2 (ring_ok sub_size comp_size) (seqZ (next_unused_io_queue_ident s) (Z.of_nat (Z.to_nat count))) queues) as Hring.
    { rewrite <- (Z.add_0_r (next_unused_io_queue_ident s)). eapply allocate_rings_Ok; [lia| |exact Hrings]. done. }
    assert (Forall (λ q, ∃ c, create_comp q = Ok c ∧ 0 ≤ dword0 c) queues ∧
            Forall (λ q, ∃ c, create_sub q = Ok c ∧ 0 ≤ dword0 c) queues) as [Hcomp Hsub].
    { split; apply Forall_forall; intros q Hq'; apply list_elem_of_lookup in Hq' as [i Hi];
        destruct (Forall2_lookup_r _ _ _ _ _ Hring Hi) as (id & _ & Hr); by apply (ring_ok_create _ _ _ _ Hr). }
    rewrite run_bind. unfold on_kernel at 1, unlock_kernel, modify at 1. cbn [kernel]. fold unlocked.
    set (s0 := mkController _ _ _ _ _ _ _).
    rewrite run_bind.
    pose proof (or_drop_ok create_comp queues s0 Hq Hcomp) as H1.
    destruct (or_drop_queues queues (create_on_device env rounds fuel create_comp queues) s0) as [[[]|e| |] s1]; [| |ran; exact H1|by ran].
    2: { ran. destruct H1 as (s1' & [Hq1 [q1 ->]] & _ & Hdrop & ->). cbn in *. split; [by apply (pool_ok_ext s)|]. done. }
    destruct H1 as [Hq1 [q1 ->]]. rewrite run_bind.
    pose proof (or_drop_ok create_sub queues _ Hq1 Hsub) as H2.
    destruct (or_drop_queues queues (create_on_device env rounds fuel create_sub queues) _) as [[[]|e| |] s2]; [| |ran; exact H2|by ran].
    2: { ran. destruct H2 as (s2' & [Hq2 [q2 ->]] & _ & Hdrop & ->). cbn in *. split; [by apply (pool_ok_ext s)|]. done. }
    destruct H2 as [Hq2 Hs2].
    assert (pool_ok s2 ∧ next_unused_io_queue_ident s2 = next_unused_io_queue_ident s ∧ handles s2 = handles s ∧
            kernel s2 = unlocked) as (Hp2 & Hn2 & Hh2 & Hk2).
    { destruct Hs2 as [q2 ->]. split; [by apply (pool_ok_ext s)|done]. }
    rewrite run_modify. rewrite run_lift with (a := next_unused_io_queue_ident s + count)
      by (unfold QueueIdentifier_add, QueueIdentifier_checked_add; by rewrite (proj2 (Z.leb_le _ _) Hnext)).
    destruct (push_queues_ok s2 sub_size comp_size (Z.to_nat count) queues Hp2) as [Hp' Hh']; [by rewrite Hn2|lia|].
    rewrite Hn2, Z2Nat.id in Hp', Hh' by done. rewrite Hh2 in Hh'.
    ran. split_and!; done.
Qed.
End allocate.

(** ** Users of the pool *)

Section users.
Context {PT : Type}.
Local Abbreviation Ctl := (NVMEController PT).

(** A user takes a queue, or drops the handle [w] if it has that; the controller reclaims
    queues, or is asked whether it can be dropped. *)
Inductive pool_op := GetQueue | DropHandle (w : nat) | Reclaim | IsSafe.
Inductive pool_out := Got (o : option nat) | Dropped | Reclaimed (n : Z) | Safe (b : bool).

Definition run_pool_op {E} (o : pool_op) : M Ctl E pool_out :=
  match o with
  | GetQueue => w ← get_io_queue; mret (Got w)
  | DropHandle w =>
      hs ← gets handles;
      _ ← (if bool_decide (hs !! w = Some true) then drop_strong w else mret tt);
      mret Dropped
  | Reclaim => n ← reclaim_io_queues; mret (Reclaimed n)
  | IsSafe => b ← is_safe_to_drop; mret (Safe b)
  end.
Fixpoint run_pool {E} (ops : list pool_op) : M Ctl E (list pool_out) :=
  match ops with
  | [] => mret []
  | o :: ops => out ← run_pool_op o; outs ← run_pool ops; mret (out :: outs)
  end.

(** What a call does to the handles: the boolean of a queue says whether someone has it. *)
Inductive pool_step : list bool → pool_op → pool_out → list bool → Prop :=
  | step_got hs w : hs !! w = Some false → pool_step hs GetQueue (Got (Some w)) (<[w:=true]> hs)
  | step_none hs : Forall (λ b, b = true) hs → pool_step hs GetQueue (Got None) hs
  | step_drop hs w : hs !! w = Some true → pool_step hs (DropHandle w) Dropped (<[w:=false]> hs)
  | step_no_handle hs w : hs !! w ≠ Some true → pool_step hs (DropHandle w) Dropped hs
  | step_reclaim hs n : pool_step hs Reclaim (Reclaimed n) hs
  | step_safe hs b : b = true ↔ Forall (λ b, b = false) hs → pool_step hs IsSafe (Safe b) hs.
Inductive pool_steps : list bool → list pool_op → list pool_out → list bool → Prop :=
  | steps_nil hs : pool_steps hs [] [] hs
  | steps_cons hs hs1 hs2 o ops out outs :
      pool_step hs o out hs1 → pool_steps hs1 ops outs hs2 → pool_steps hs (o :: ops) (out :: outs) hs2.

Lemma run_pool_op_ok {E} o (s : Ctl) : pool_ok s →
  ∃ out s', run_pool_op (E:=E) o s = (Ok out, s') ∧ pool_ok s' ∧ same_rest s s' ∧
    pool_step (handles s) o out (handles s').
Proof.
  intros Hp. destruct o as [|w| |]; cbn [run_pool_op].
  - rewrite run_bind. destruct (get_io_queue_ok (E:=E) s Hp) as (o & s' & -> & Hp' & Hs' & Ho). exists (Got o), s'.
    do 3 (split; [done|]). destruct o as [w|]; destruct Ho as [H1 H2]; [rewrite H2|rewrite H1]; by constructor.
  - rewrite run_gets. case_bool_decide as Hw.
    + destruct (drop_strong_ok (E:=E) s w Hp Hw) as (Hrun & Hp' & Hs' & Hh).
      rewrite run_bind, Hrun. exists Dropped. eexists. do 3 (split; [done|]). rewrite Hh. by constructor.
    + exists Dropped, s. do 3 (split; [done|]). by constructor.
  - rewrite run_bind. destruct (reclaim_ok (E:=E) s Hp) as (n & s' & -> & [Hp' Hs' Hq _] & _). exists (Reclaimed n), s'.
    do 3 (split; [done|]). unfold handles. rewrite Hq. constructor.
  - rewrite run_bind. destruct (is_safe_ok (E:=E) s Hp) as (b & s' & -> & Hp' & Hs' & Hh & Hb). exists (Safe b), s'.
    do 3 (split; [done|]). rewrite Hh. by constructor.
Qed.

(** C25: however users take and drop queues, the pool neither panics nor loses a queue: a
    queue is given to one user at a time, a user gets none only when all are taken, and
    [is_safe_to_drop] answers yes exactly when no user has one. *)
Theorem controller_pool_exclusive (ops : list pool_op) (s : Ctl) : pool_ok s →
  ∃ outs s', run_pool (E:=unit) ops s = (Ok outs, s') ∧ pool_ok s' ∧ same_rest s s' ∧
    pool_steps (handles s) ops outs (handles s').
Proof.
  revert s. induction ops as [|o ops IH]; intros s Hp; cbn [run_pool].
  - exists [], s. split; [done|]. split; [done|]. split; [done|]. constructor.
  - destruct (run_pool_op_ok (E:=unit) o s Hp) as (out & s1 & Hrun & Hp1 & Hs1 & Hstep). rewrite run_bind, Hrun.
    destruct (IH s1 Hp1) as (outs & s2 & Hrun2 & Hp2 & Hs2 & Hsteps). rewrite run_bind, Hrun2.
    exists (out :: outs), s2. split; [done|]. split; [done|]. split; [by etrans|]. by econstructor.
Qed.
End users.
