(* ===== verification/NvmeInit.v ===== *)
(** * [NVMEController::initialize] of [wasabi-kernel/src/pci/nvme/mod.rs]

    The start of a controller: its registers and doorbells are mapped, the admin queue is
    allocated, the device is reset and enabled, and asked for its identity, its command
    sets, its number of queues and its first namespace. The device is its registers
    ([penv]), its queue ([env]) and what it writes to memory: [dma t h f] are the bytes
    of the frame [f] at the time [t] of the admin queue, after the history [h].

    The guards of the kernel's locks are held until the function returns, and the local
    [this] is dropped before them. *)

From S2P Require Import Prelude Bits NvmePrp NvmeCommand WrappingValue NvmeQueue KernelMem RangeSet PageAlloc PageMapping NvmeProperties NvmeAdmin NvmeController.
Local Open Scope Z_scope.

(** [ControllerCapabilities] of [capabilities.rs] *)
Record AllCapabilities := mkAllCapabilities {
  cap_fuses : Z;
  cap_memory_page_size : Z;
  optional_admin_commands : Z;
  cap_lba_block_size : Z;
  namespace_size_in_blocks : Z;
  namespace_capacity_blocks : Z;
  namespace_features : Z;
  cap_atomic_write_unit_normal : Z;
  cap_atomic_write_unit_power_fail : Z;
}.
Definition AllCapabilities_default : AllCapabilities := mkAllCapabilities 0 0 0 0 0 0 0 0 0.

(** [from_bits_truncate] of [Fuses] and [OptionalAdminCommands] *)
Definition Fuses_from (bits : Z) : Z := Z.land bits 1.
Definition OptionalAdminCommands_from (bits : Z) : Z := Z.land bits 8.

(** The local [this] and the device's registers *)
Record Init (PT : Type) := mkInit {
  this : NVMEController PT;
  admin_rings : IoQueue;
  registers : Properties;
  capabilities : AllCapabilities;
  this_controller_id : option ControllerId;
  io_command_sets : Z;
}.
Arguments mkInit {PT}.
Arguments this {PT}.
Arguments admin_rings {PT}.
Arguments registers {PT}.
Arguments capabilities {PT}.
Arguments this_controller_id {PT}.
Arguments io_command_sets {PT}.

(** What the PCI bus says: the class of the device and its first two base addresses *)
Record PciDevice := mkPci { is_nvm_storage : bool; mlbar : Z; mubar : Z }.

Definition ADMIN_QUEUE_SIZE : Z := PAGE_SIZE / SUBMISSION_COMMAND_ENTRY_SIZE.
Definition DOORBELL_PHYS_OFFSET : Z := 4096.
Definition NO_CACHE_PAGE_FLAGS : Z := Z.lor (Z.lor (Z.lor WRITABLE PRESENT) NO_CACHE) NO_EXECUTE.
Definition IDENTIFY_PT_FLAGS : Z := Z.lor (Z.lor PRESENT NO_CACHE) NO_EXECUTE.

Section initialize.
Context `{BF : BitField} `{!U8Enum GenericCommandStatus_disc} `{!U8Enum ArbitrationMechanism_disc}.
Context `{!U8Enum ShutdownStatus_disc} `{Addresses} {PT : Type} `{Mapper PT}.
Context (env : nat → Hardware → Hardware) (penv : nat → (Z → Z) → Z → Z) (dma : nat → Hardware → PhysFrame → list Z).
Context (rounds fuel : nat).

(** *** Before [this] exists *)
Local Abbreviation MK := (M (KernelMemory PT) ControllerError).

Definition map_frame (frame : PhysFrame) (flags : Z) : MK Page :=
  page ← mapM_err Mem (km_on_pages (allocate_page Size4KiB));
  _ ← mapM_err (Mem ∘ PageTableMap) (km_on_table (map_kernel Size4KiB page frame flags));
  mret page.

(** A page that can be turned into a pointer *)
Definition not_null (page : Page) : MK unit := lift (assert_ (negb (page =? 0))).

Definition map_controller (pci_dev : PciDevice) : MK (Page * Page * IoQueue) :=
  properties_base_paddr ← lift (get_controller_properties_address (mlbar pci_dev) (mubar pci_dev));
  _ ← lift (assert_ (properties_base_paddr mod PAGE_SIZE =? 0));
  properties_page ← map_frame properties_base_paddr NO_CACHE_PAGE_FLAGS;
  _ ← not_null properties_page;
  doorbell_frame ← lift (PhysAddr_new (properties_base_paddr + DOORBELL_PHYS_OFFSET));
  doorbell_page ← map_frame doorbell_frame NO_CACHE_PAGE_FLAGS;
  _ ← not_null doorbell_page;
  admin_queue ← IoQueue_allocate 0 ADMIN_QUEUE_SIZE ADMIN_QUEUE_SIZE 4;
  mret (properties_page, doorbell_page, admin_queue).

(** *** With [this] *)
Local Abbreviation MI := (M (Init PT) ControllerError).

Definition on_ctl {E A} (m : M (NVMEController PT) E A) : M (Init PT) E A := λ s,
  let '(r, c) := m (this s) in
  (r, mkInit c (admin_rings s) (registers s) (capabilities s) (this_controller_id s) (io_command_sets s)).
Definition on_registers {E A} (m : M Properties E A) : M (Init PT) E A := λ s,
  let '(r, p) := m (registers s) in
  (r, mkInit (this s) (admin_rings s) p (capabilities s) (this_controller_id s) (io_command_sets s)).
Definition set_info (f : ControllerInfo → ControllerInfo) (s : Init PT) : Init PT :=
  let c := this s in
  mkInit (mkController (f (info c)) (admin_queue c) (kernel c) (all_queues c) (available_io_queues c)
            (used_io_queues c) (next_unused_io_queue_ident c))
    (admin_rings s) (registers s) (capabilities s) (this_controller_id s) (io_command_sets s).
Definition set_capabilities (f : AllCapabilities → AllCapabilities) (s : Init PT) : Init PT :=
  mkInit (this s) (admin_rings s) (registers s) (f (capabilities s)) (this_controller_id s) (io_command_sets s).
Definition set_controller_id (id : ControllerId) (s : Init PT) : Init PT :=
  mkInit (this s) (admin_rings s) (registers s) (capabilities s) (Some id) (io_command_sets s).
Definition set_command_sets (sets : Z) (s : Init PT) : Init PT :=
  mkInit (this s) (admin_rings s) (registers s) (capabilities s) (this_controller_id s) sets.
Definition set_stride (stride : Z) (i : ControllerInfo) : ControllerInfo :=
  mkInfo (controller_page i) (doorbell_page i) stride (max_number_completions_queues i)
    (max_number_submission_queues i) (maximum_queue_entries i).
Definition set_max_entries (n : Z) (i : ControllerInfo) : ControllerInfo :=
  mkInfo (controller_page i) (doorbell_page i) (doorbell_stride i) (max_number_completions_queues i)
    (max_number_submission_queues i) n.
Definition set_max_queues (sub comp : Z) (i : ControllerInfo) : ControllerInfo :=
  mkInfo (controller_page i) (doorbell_page i) (doorbell_stride i) comp sub (maximum_queue_entries i).

(** Submit a command, and wait for it *)
Definition admin_call (command : CommonCommand) : MI CommonCompletionEntry :=
  ident ← on_ctl (on_admin (mapM_err Nvme (submit env fuel command)));
  _ ← on_ctl (on_admin (NvmeQueue.flush env));
  r ← try (on_ctl (on_admin (wait_for env rounds fuel ident)));
  match r with inl completion => mret completion | inr _ => lift Panic end.
Definition check_status (completion : CommonCompletionEntry) : MI unit :=
  st ← lift (status completion);
  if is_err st then lift (Err (Nvme (AdminCommandFailed st))) else mret tt.

(** A page for identify data, and its end *)
Definition alloc_identify_page : MI (Page * PhysFrame) :=
  page ← on_ctl (on_kernel (mapM_err Mem (km_on_pages (allocate_page Size4KiB))));
  frame ← on_ctl (on_kernel (mapM_err Mem (km_on_table (on_snd (FrameAllocator_alloc Size4KiB)))));
  _ ← on_ctl (on_kernel (mapM_err (Mem ∘ PageTableMap) (km_on_table (map_kernel Size4KiB page frame IDENTIFY_PT_FLAGS))));
  mret (page, frame).
Definition free_identify_page (page : Page) : MI unit :=
  '(frame, _) ← on_ctl (on_kernel (mapM_err (Mem ∘ PageTableMap) (km_on_table (on_fst (PageTable_unmap Size4KiB page)))));
  _ ← on_ctl (on_kernel (expect_ok (km_on_pages (free_page Size4KiB page))));
  on_ctl (on_kernel (expect_ok (km_on_table (on_snd (FrameAllocator_free Size4KiB frame))))).
Definition read_page (frame : PhysFrame) : MI (list Z) :=
  gets (λ s, let q := admin_queue (this s) in dma (clock q) (hw q) frame).
Definition identify (cns : ControllerOrNamespace) (frame : PhysFrame) : MI (list Z) :=
  command ← lift (create_identify_command cns frame);
  completion ← admin_call command;
  _ ← check_status completion;
  read_page frame.

(** Steps 1 and 2: reset the device and give it the admin queue *)
Definition reset_device : MI Capabilities :=
  cap ← on_registers (read_capabilities penv);
  _ ← (if cap_doorbell_stride cap =? 4 then mret tt
       else
         _ ← lift (get_doorbells (cap_doorbell_stride cap) 0);
         modify (set_info (set_stride (cap_doorbell_stride cap))));
  _ ← on_registers (ensure_disabled penv rounds);
  cap ← on_registers (read_capabilities penv);
  _ ← modify (set_info (set_max_entries (cap_maximum_queue_entries cap)));
  admin ← gets admin_rings;
  aqa ← on_registers (read_aqa penv);
  _ ← on_registers (write_aqa penv (mkAqa (submission_queue_size (io_ring admin))
         (completion_queue_size (io_ring admin)) (aqa_reserved_1 aqa) (aqa_reserved_2 aqa)));
  asq ← on_registers (read_asq penv);
  _ ← on_registers (write_asq penv (mkBase (submission_queue_frame (io_rings admin)) (base_reserved asq)));
  acq ← on_registers (read_acq penv);
  _ ← on_registers (write_acq penv (mkBase (completion_queue_frame (io_rings admin)) (base_reserved acq)));
  mret cap.

(** Steps 3 to 6: select a command set and enable the device *)
Definition selected_command_set (supported : Z) : option Z :=
  if get_bit supported 7 then Some 0
  else if get_bit supported 6 then Some 6
  else if get_bit supported 0 then Some 0
  else None.
Definition configure_device (cap : Capabilities) : MI unit :=
  cc ← on_registers (read_configuration penv);
  match selected_command_set (command_sets_supported cap) with
  | None => lift (Err DeviceNotSupported)
  | Some set =>
      _ ← modify (set_capabilities (λ c, mkAllCapabilities (cap_fuses c) PAGE_SIZE (optional_admin_commands c)
             (cap_lba_block_size c) (namespace_size_in_blocks c) (namespace_capacity_blocks c)
             (namespace_features c) (cap_atomic_write_unit_normal c) (cap_atomic_write_unit_power_fail c)));
      _ ← on_registers (write_configuration penv (mkConfiguration (enable cc) (cc_reserved_1 cc) set PAGE_SIZE
             RoundRobbin (shutdown_notification cc) (io_submission_queue_entry_size cc)
             (io_completion_queue_entry_size cc) (controller_ready_independent_of_media_enable cc) (cc_reserved_2 cc)));
      on_registers (ensure_enabled penv rounds)
  end.

(** Step 7: identify the controller *)
Definition identify_controller : MI ControllerId :=
  '(page, frame) ← alloc_identify_page;
  bytes ← identify Controller frame;
  let identify_data := IdentifyControllerData_from bytes in
  _ ← modify (set_capabilities (λ c, mkAllCapabilities (Fuses_from (fuses identify_data)) (cap_memory_page_size c)
         (OptionalAdminCommands_from (optional_admin_command_support identify_data))
         (cap_lba_block_size c) (namespace_size_in_blocks c) (namespace_capacity_blocks c) (namespace_features c)
         (atomic_write_unit_normal identify_data) (atomic_write_unit_power_fail identify_data)));
  _ ← free_identify_page page;
  let controller_id := controller_id identify_data in
  _ ← modify (set_controller_id controller_id);
  mret controller_id.

(** Step 8: select the I/O command sets; the status that is looked at after the last
    command is the one of the command before *)
Definition select_command_sets (cap : Capabilities) (controller_id : ControllerId) : MI unit :=
  if get_bit (command_sets_supported cap) 6 then
    '(page, frame) ← alloc_identify_page;
    command ← lift (create_identify_command (IdentifyIOCommandSet controller_id) frame);
    completion ← admin_call command;
    _ ← check_status completion;
    bytes ← read_page frame;
    sets ← lift (collect_vectors (S (length bytes)) bytes (IOCommandSetVectorIterator_from_vaddr 0));
    match best_command_set sets with
    | None => lift (Err DeviceNotSupported)
    | Some (set_index, best_set) =>
        _ ← modify (set_command_sets best_set);
        _ ← free_identify_page page;
        command ← lift (create_set_features_command (IOCommandSet set_index) None);
        _ ← admin_call command;
        check_status completion
    end
  else if get_bit (command_sets_supported cap) 0 then
    modify (λ s, set_command_sets (Z.lor (io_command_sets s) 1) s)
  else lift (Err DeviceNotSupported).

Definition configure_entry_sizes : MI unit :=
  cc ← on_registers (read_configuration penv);
  on_registers (write_configuration penv (mkConfiguration (enable cc) (cc_reserved_1 cc) (command_set_selected cc)
    (cc_memory_page_size cc) (arbitration_mechanism cc) (shutdown_notification cc)
    SUBMISSION_COMMAND_ENTRY_SIZE COMPLETION_COMMAND_ENTRY_SIZE
    (controller_ready_independent_of_media_enable cc) (cc_reserved_2 cc))).

(** Step 9: ask for a number of queues *)
Definition request_queues (io_queue_count_request : Z) : MI unit :=
  let request_count := Z.max 0 (io_queue_count_request - 1) in
  command ← lift (create_set_features_command (NumberOfQueues request_count request_count) None);
  completion ← admin_call command;
  _ ← check_status completion;
  sub ← lift (fits u16_max (get_bits (c_dword0 completion) 0 15 + 1));
  comp ← lift (fits u16_max (get_bits (c_dword0 completion) 16 31 + 1));
  modify (set_info (set_max_queues sub comp)).

(** The first namespace *)
Definition identify_namespace : MI unit :=
  '(page, frame) ← alloc_identify_page;
  bytes ← identify (Namespace 1) frame;
  match IdentifyNamespaceData_from_vaddr bytes with
  | None => lift (Err (Nvme NoNamespace))
  | Some identify_data =>
      format ← lift (active_lba_format identify_data);
      size ← lift (lba_data_size format);
      _ ← modify (set_capabilities (λ c, mkAllCapabilities (cap_fuses c) (cap_memory_page_size c)
             (optional_admin_commands c) size (namespace_size identify_data) (namespace_capacity identify_data)
             (features identify_data) (cap_atomic_write_unit_normal c) (cap_atomic_write_unit_power_fail c)));
      _ ← identify (Namespace 2) frame;
      active_namespaces ← identify (ActiveNamespaces 0) frame;
      if negb (le_val (slice 0 4 active_namespaces) =? 1) then lift (Err (Nvme NoNamespace))
      else free_identify_page page
  end.

Definition initialize_this (io_queue_count_request : Z) : MI unit :=
  cap ← reset_device;
  _ ← configure_device cap;
  controller_id ← identify_controller;
  _ ← select_command_sets cap controller_id;
  _ ← configure_entry_sizes;
  _ ← request_queues io_queue_count_request;
  identify_namespace.

(** The whole function, from the kernel's memory and the registers of the device. An error
    drops [this], if there is one, and then the guards. *)
Definition initialize (pci_dev : PciDevice) (io_queue_count_request : Z) (k : KernelMemory PT) (regs : Properties)
    : result ControllerError (Init PT) :=
  if negb (is_nvm_storage pci_dev) then Err (Nvme InvalidPciDevice)
  else
    match (_ ← lock_kernel; map_controller pci_dev) k with
    | (Err e, _) => Err e
    | (Panic, _) => Panic
    | (Hang, _) => Hang
    | (Ok (properties_page, doorbell_page, admin), k) =>
        let q := mkQState (io_ring admin) (zero_hardware (Z.to_nat ADMIN_QUEUE_SIZE) (Z.to_nat ADMIN_QUEUE_SIZE)) 0 in
        let ctl := mkController (mkInfo properties_page doorbell_page 4 0 0 0) q k [] [] [] 1 in
        match initialize_this io_queue_count_request (mkInit ctl admin regs AllCapabilities_default None 0) with
        | (Ok _, s) => match on_ctl (on_kernel (unlock_kernel (E:=ControllerError))) s with (_, s) => Ok s end
        | (Err e, s) =>
            match NVMEController_drop (E:=ControllerError) env rounds fuel (admin_rings s) (this s) with
            | (Ok _, _) => Err e
            | (Err e, _) => Err e
            | (Panic, _) => Panic
            | (Hang, _) => Hang
            end
        | (Panic, _) => Panic
        | (Hang, _) => Hang
        end
    end.
End initialize.
