(* ===== verification/NvmeControllerExamples.v ===== *)
(** * Runs of the NVMe controller

    Witnesses of the theorems on a device that creates every queue, and runs that show
    what the code does not handle. *)

From S2P Require Import Prelude Bits NvmePrp NvmeCommand WrappingValue NvmeQueue NvmeQueueProofs NvmeQueueSpec KernelMem RangeSet PageAlloc PageAllocProofs PageMapping PageMappingProofs NvmeProperties NvmePropertiesProofs NvmeAdmin NvmeController NvmeControllerProofs.
Local Open Scope Z_scope.

(** ** Enums of the registers *)

#[export] Instance arbitration_enum : U8Enum ArbitrationMechanism_disc.
Proof.
  refine {| try_from c := List.find (λ a, ArbitrationMechanism_disc a =? c)
    [RoundRobbin; WeightedRoundRobbin; Reserved1; Reserved2; ArbitrationVendorSpecific] |}.
  intros c a. split.
  - intros H%List.find_some. by apply Z.eqb_eq, H.
  - intros <-. by destruct a.
Defined.
#[export] Instance shutdown_enum : U8Enum ShutdownStatus_disc.
Proof.
  refine {| try_from c := List.find (λ a, ShutdownStatus_disc a =? c)
    [NormalOperation; Occuring; Complete; ShutdownReserved] |}.
  intros c a. split.
  - intros H%List.find_some. by apply Z.eqb_eq, H.
  - intros <-. by destruct a.
Defined.

(** ** Registers *)

(** A device that becomes ready at the third access *)
Definition ready_env (n : nat) (ws : Z → Z) : Z → Z := λ o,
  if o =? 28 then (if Nat.leb 3 n then Z.b2z (Z.testbit (ws 20) 0) else 0) else ws o.
(** The configuration of a device after its reset: entries of 64 and 16 bytes *)
Definition reset_properties : Properties := mkProperties (λ o, if o =? 20 then 4587520 else 0) 0.

Lemma ready_env_follows : follows ready_env 3.
Proof.
  split; intros n ws; unfold ready_env; change (28 =? 28) with true; change (20 =? 28) with false; cbv iota; [done| |].
  - destruct (Nat.leb 3 n); [|lia]. destruct (Z.testbit (ws 20) 0); cbn; lia.
  - intros Hn. rewrite (proj2 (Nat.leb_le _ _) Hn). by destruct (Z.testbit (ws 20) 0).
Qed.

Lemma ensure_enabled_follows_witness :
  ∃ s', ensure_enabled ready_env (E:=unit) 5 reset_properties = (Ok tt, s') ∧
    words s' 20 = 4587521 ∧ Z.testbit (words s' 28) 0 = true.
Proof.
  destruct (ensure_enabled_follows ready_env 3 ready_env_follows (E:=unit) true 4587520
    (mkConfiguration false 0 0 4096 RoundRobbin 0 64 16 false 0) 5 reset_properties)
    as (s' & Hrun & Hw & Hr); [done|lia|vm_compute; done|cbn; lia|lia|].
  exists s'. split; [exact Hrun|]. split; [by rewrite Hw|]. apply Hr. done.
Defined.

(** Pages of 256 MiB pass the check of the conversion, which says that it allows at most
    128 MiB, and select another arbitration mechanism. *)
Lemma page_size_overflows :
  ControllerConfiguration_into (E:=unit) (mkConfiguration false 0 0 (2 ^ 28) RoundRobbin 0 64 16 false 0)
    ≫= ControllerConfiguration_from =
  Ok (mkConfiguration false 0 0 4096 WeightedRoundRobbin 0 64 16 false 0).
Proof. vm_compute. done. Qed.

(** Completion entries of 256 bytes are written, and read as entries of one byte: the
    exponent is read from three of its four bits. *)
Lemma entry_size_truncated :
  ControllerConfiguration_into (E:=unit) (mkConfiguration false 0 0 4096 RoundRobbin 0 64 256 false 0)
    ≫= ControllerConfiguration_from =
  Ok (mkConfiguration false 0 0 4096 RoundRobbin 0 64 1 false 0).
Proof. vm_compute. done. Qed.

(** ** A controller with an admin queue of eight entries *)

Definition demo_admin (n : nat) : QState :=
  mkQState (allocated_queue 0 (Z.of_nat n) (Z.of_nat n)) (zero_hardware n n) 0.
Definition demo_kernel (frames : RangeSet) : KernelMemory mappings :=
  mkKernelMemory demo_free (λ _ _, None) frames false.
Definition frames_from (a b : Z) : RangeSet := mkRangeSet (mkRange a b :: replicate 7 (mkRange 0 0)) 1.
Definition demo_info (queues : Z) : ControllerInfo := mkInfo 0x100000 0x101000 4 queues queues 64.
Definition demo_ctrl (queues : Z) (frames : RangeSet) : NVMEController mappings :=
  mkController (demo_info queues) (demo_admin 8) (demo_kernel frames) [] [] [] 1.

Definition many_frames : RangeSet := frames_from 0x10000 0x1ffff.

Lemma demo_ctrl_ok queues frames : pool_ok (demo_ctrl queues frames).
Proof.
  split; cbn; [done| |done|done|unfold u16_max; lia]. by intros w ?%not_elem_of_nil.
Qed.

Definition demo_allocate (env : nat → Hardware → Hardware) (count : Z) (s : NVMEController mappings) :=
  allocate_io_queues_with_sizes env 20 8 count 64 64 s.

Lemma demo_admin_ok : queue_ok 8 8 (demo_admin 8).
Proof. exists [], [], 0%nat, 0%nat, 0%nat. apply (allocated_inv 0 8 8); [lia..| |]; unfold u16_max; lia. Qed.
Lemma demo_rings : ∃ qs k, allocate_rings (Z.to_nat 2) 1 0 64 64 4
  (mkKernelMemory demo_free (λ _ _, None) many_frames true) = (Ok (qs, None), k).
Proof. do 2 eexists. vm_compute. reflexivity. Qed.
Lemma demo_two_Ok : ∃ s',
  allocate_io_queues_with_sizes (demo_env 0 8 8) 20 8 2 64 64 (demo_ctrl 8 many_frames) = (Ok tt, s').
Proof. eexists. vm_compute. reflexivity. Qed.

Lemma allocate_io_queues_spec_witness : ∃ s',
  allocate_io_queues_with_sizes (demo_env 0 8 8) 20 8 2 64 64 (demo_ctrl 8 many_frames) = (Ok tt, s') ∧
  pool_ok s' ∧ handles s' = [false; false].
Proof.
  destruct demo_rings as (qs & k & Hrings). destruct demo_two_Ok as [s' Hrun]. exists s'. split; [exact Hrun|].
  pose proof (allocate_io_queues_spec 8 8 (demo_env 0 8 8) 20 8 (demo_controller 0 8 8) ltac:(lia)
    (demo_ctrl 8 many_frames) s' (Ok tt) 2 64 64 qs None k (demo_ctrl_ok 8 many_frames) demo_admin_ok eq_refl ltac:(lia)
    ltac:(vm_compute; discriminate) ltac:(vm_compute; discriminate) ltac:(vm_compute; discriminate) Hrings Hrun) as Hspec.
  cbn in Hspec. destruct Hspec as (Hp & _ & _ & Hh & _). by split.
Defined.

(** A controller with [n] queues that nobody uses *)
Definition demo_queue (i : nat) : IoQueue := mkIoQueue (allocated_queue (Z.of_nat i + 1) 64 64) (mkRings 0 0 0 0).
Definition demo_pool (n : nat) (admin : QState) : NVMEController mappings :=
  mkController (demo_info 100) admin (demo_kernel many_frames) ((λ i, (demo_queue i, false)) <$> seq 0 n)
    (seq 0 n) [] (Z.of_nat n + 1).

Definition demo_ops_pool : list pool_op :=
  [GetQueue; GetQueue; GetQueue; DropHandle 1; IsSafe; GetQueue; DropHandle 0; DropHandle 1; IsSafe].

Lemma demo_pool_ok : pool_ok (demo_pool 2 (demo_admin 8)).
Proof.
  split; [done| |done|done|done].
  intros w Hw. apply elem_of_cons in Hw as [->|Hw]; [done|]. by apply list_elem_of_singleton in Hw as ->.
Qed.

Lemma controller_pool_exclusive_witness :
  ∃ s', run_pool (E:=unit) demo_ops_pool (demo_pool 2 (demo_admin 8)) =
    (Ok [Got (Some 1%nat); Got (Some 0%nat); Got None; Dropped; Safe false; Got (Some 1%nat); Dropped; Dropped; Safe true], s') ∧
    pool_ok s' ∧ handles s' = [false; false].
Proof.
  destruct (controller_pool_exclusive demo_ops_pool (demo_pool 2 (demo_admin 8)) demo_pool_ok) as (outs & s' & Hrun & Hp' & _ & _).
  assert ((run_pool (E:=unit) demo_ops_pool (demo_pool 2 (demo_admin 8))).1 =
    Ok [Got (Some 1%nat); Got (Some 0%nat); Got None; Dropped; Safe false; Got (Some 1%nat); Dropped; Dropped; Safe true])
    as Houts by (vm_compute; reflexivity).
  assert (handles (run_pool (E:=unit) demo_ops_pool (demo_pool 2 (demo_admin 8))).2 = [false; false])
    as Hh by (vm_compute; reflexivity).
  rewrite Hrun in Houts, Hh. cbn in Houts, Hh. injection Houts as ->. by exists s'.
Defined.

(** The admin queue with its rings, mapped before the queues *)
Definition demo_admin_rings : IoQueue := mkIoQueue (allocated_queue 0 8 8) (mkRings 0x8000 0x102000 0x9000 0x103000).
Definition booted (queues : Z) (frames : RangeSet) : NVMEController mappings :=
  mkController (demo_info queues) (demo_admin 8)
    (mkKernelMemory (frames_from 0x200000 0xffffff) (λ sz p,
       match sz with
       | Size4KiB => if (0x100000 <=? p) && (p <? 0x104000) then Some (p - 0xfa000, 3) else None
       | _ => None
       end) frames false) [] [] [] 1.

(** Two queues are allocated and used, and deleted with the controller. *)
Definition controller_life : M (NVMEController mappings) ControllerError (nat * nat * bool * bool) :=
  v ← get_or_alloc_io_queue (demo_env 0 8 8) 20 8;
  w ← get_or_alloc_io_queue (demo_env 0 8 8) 20 8;
  _ ← drop_strong v;
  b ← is_safe_to_drop;
  _ ← drop_strong w;
  c ← try_drop (demo_env 0 8 8) 20 8 demo_admin_rings;
  mret (v, w, b, c).

Example controller_life_run :
  let '(r, s) := controller_life (booted 8 many_frames) in
  r = Ok (0%nat, 1%nat, false, true) ∧
  CDW0_opcode ∘ dword0 <$> fetched (hw (admin_queue s)) =
    (AdminOpcode_disc <$> [CreateIOCompletionQueue; CreateIOSubmissionQueue; CreateIOCompletionQueue; CreateIOSubmissionQueue;
       DeleteIOSubmissionQueue; DeleteIOCompletionQueue; DeleteIOSubmissionQueue; DeleteIOCompletionQueue]) ∧
  km_table (kernel s) Size4KiB 0x100000 = None ∧ km_locked (kernel s) = false.
Proof. vm_compute. auto. Qed.

(** ** What the code does not handle *)

(** The device allows four queues, and the code refuses the fourth. *)
Lemma last_queue_refused :
  (demo_allocate (demo_env 0 8 8) 4 (demo_ctrl 4 many_frames)).1 = Err (Nvme (IOQueueLimitReached 4 4)).
Proof. vm_compute. done. Qed.

(** A count that overflows the identifiers passes the check of the limit. *)
Lemma limit_overflows {PT} (s : NVMEController PT) count :
  u16_max < next_unused_io_queue_ident s + count → queue_limit_reached s count = false.
Proof.
  intros Ho. unfold queue_limit_reached, QueueIdentifier_checked_add.
  by destruct (Z.leb_spec (next_unused_io_queue_ident s + count) u16_max); [lia|].
Qed.

(** There are four frames, for the rings and the page tables of one queue, and two queues are asked for: the rings of the
    first are dropped while the locks are held. *)
Lemma partial_allocation_panics :
  (demo_allocate (demo_env 0 8 8) 2 (demo_ctrl 8 (frames_from 0x10000 0x13fff))).1 = Panic.
Proof. vm_compute. done. Qed.

(** There is one frame: the call fails, and the frame and the page that it took are lost. *)
Lemma failed_allocation_leaks :
  let '(r, s) := demo_allocate (demo_env 0 8 8) 1 (demo_ctrl 8 (frames_from 0x10000 0x10fff)) in
  r = Err (Mem OutOfMemory) ∧ in_use (km_frames (kernel s)) = 0%nat ∧
  start (nth 0 (ranges (km_pages (kernel s))) (mkRange 0 0)) = 0x3000.
Proof. vm_compute. auto. Qed.

(** A device that fails every command that creates a submission queue, and refuses to create
    a completion queue that it already has *)
Definition is_create_comp (c : CommonCommand) : bool := CDW0_opcode (dword0 c) =? AdminOpcode_disc CreateIOCompletionQueue.
Definition refusing_env (t : nat) (h : Hardware) : Hardware :=
  let h := demo_fetch 8 h in
  match fetched h !! length (posted h) with
  | Some c =>
      let before := take (length (posted h)) (fetched h) in
      let ok := is_create_comp c &&
        negb (existsb (λ c', is_create_comp c' && (get_bits (dword10 c') 0 15 =? get_bits (dword10 c) 0 15)) before) in
      let e := mkCompletion 0 0 (Z.of_nat (length (fetched h) mod 8)) 0 (CDW0_command_identifier (dword0 c))
                 ((if phase_of 8 (length (posted h)) then 1 else 0) + if ok then 0 else 514) in
      mkHardware (sq h) (sq_tail_doorbell h) (<[(length (posted h) mod 8)%nat:=e]> (cq h)) (cq_head_doorbell h)
        (fetched h) (posted h ++ [(e, length (fetched h))])
  | None => h
  end.

(** The first call fails. Its rings are given back, although the device has the completion
    queue and may write to its ring; the second call uses the same identifier, which the
    device refuses, and so does every call after it. *)
Lemma failed_creation_frees_ring :
  let '(r, s) := demo_allocate refusing_env 1 (booted 8 many_frames) in
  let '(r', s') := demo_allocate refusing_env 1 s in
  r = Err (Nvme (AdminCommandFailed (CommandSpecificStatus 1))) ∧
  r' = Err (Nvme (AdminCommandFailed (CommandSpecificStatus 1))) ∧
  (λ c, (CDW0_opcode (dword0 c), get_bits (dword10 c) 0 15, prp_entry_1 (data_ptr c))) <$> fetched (hw (admin_queue s')) =
    [(AdminOpcode_disc CreateIOCompletionQueue, 1, 0x11000); (AdminOpcode_disc CreateIOSubmissionQueue, 1, 0x10000);
     (AdminOpcode_disc CreateIOCompletionQueue, 1, 0x15000)] ∧
  forallb (λ f, existsb (λ e, (start e <=? f) && (f <=? end_ e)) (RangeSet_entries (km_frames (kernel s)))) [0x10000; 0x11000] = true.
Proof. vm_compute. auto. Qed.

(** The admin queue of 64 entries holds 63 commands: with 32 queues, dropping the
    controller panics before it has told the device about any command. *)
Lemma many_queues_panic :
  (NVMEController_drop (E:=unit) (demo_env 0 64 64) 100 64 demo_admin_rings (demo_pool 31 (demo_admin 64))).1 ≠ Hang ∧
  (delete_queues (E:=unit) (demo_env 0 64 64) 64 (seq 0 31) (demo_pool 31 (demo_admin 64))).1 ≠ Panic ∧
  (delete_queues (E:=unit) (demo_env 0 64 64) 64 (seq 0 32) (demo_pool 32 (demo_admin 64))).1 = Panic ∧
  (NVMEController_drop (E:=unit) (demo_env 0 64 64) 100 64 demo_admin_rings (demo_pool 32 (demo_admin 64))).1 = Panic.
Proof. vm_compute. done. Qed.

(** One page of doorbells is mapped: with a stride of four bytes the doorbells of the queue 512
    lie behind it. *)
Lemma doorbells_behind_page : get_doorbells (E:=unit) 4 512 = Ok (PAGE_SIZE, PAGE_SIZE + 4).
Proof. done. Qed.
