(* ===== verification/NvmeInitProofs.v ===== *)
(** * Starting an NVMe controller

    A start on a device with four queues and one namespace; and what happens to the
    errors of [initialize]. *)

From S2P Require Import Prelude Bits NvmePrp NvmeCommand WrappingValue NvmeQueue NvmeQueueProofs NvmeQueueSpec KernelMem RangeSet PageAlloc PageAllocProofs PageMapping PageMappingProofs NvmeProperties NvmeAdmin NvmeAdminProofs NvmeController NvmeControllerProofs NvmeInit NvmeControllerExamples.
Local Open Scope Z_scope.

(** ** Calls that do not return an error *)

Definition never_err {S E A} (m : M S E A) : Prop := ∀ s e, (m s).1 ≠ Err e.

Section never.
Context {S E A B : Type}.
Lemma never_bind (m : M S E A) (f : A → M S E B) : never_err m → (∀ a, never_err (f a)) → never_err (m ≫= f).
Proof.
  intros Hm Hf s e. rewrite run_bind. specialize (Hm s). destruct (m s) as [[a|e'| |] s1]; cbn in *; try done.
  - apply Hf.
  - by destruct (Hm e').
Qed.
Lemma never_try {E'} (m : M S E' A) : never_err (try (E':=E) m).
Proof. intros s e. unfold try. by destruct (m s) as [[| | |] ?]. Qed.
Lemma never_lift (r : result E A) : (∀ e, r ≠ Err e) → never_err (lift (S:=S) r).
Proof. intros Hr s e. apply Hr. Qed.
Lemma never_modify (f : S → S) : never_err (E:=E) (modify f).
Proof. done. Qed.
Lemma never_gets (f : S → A) : never_err (E:=E) (gets f).
Proof. done. Qed.
Lemma never_ret (a : A) : never_err (S:=S) (E:=E) (mret a).
Proof. done. Qed.
End never.

Lemma assert_no_err {E} b (e : E) : assert_ b ≠ Err e.
Proof. by destruct b. Qed.

Create HintDb never_err.
#[export] Hint Resolve never_try never_modify never_gets never_ret : never_err.
Ltac never := repeat (apply never_bind; [|intros ?]); auto with never_err.

Section queue.
Context `{BF : BitField} (env : nat → Hardware → Hardware) {E : Type}.

Lemma poll_loop_never n : ∀ b, never_err (poll_loop (E:=E) env n b).
Proof.
  induction n as [|n IH]; intros b; cbn [poll_loop]; [done|]. never. by destruct a as [[|]|].
Qed.
Lemma poll_never fuel : never_err (poll_completions (E:=E) env fuel).
Proof.
  unfold poll_completions. apply never_bind; [apply poll_loop_never|intros r]. never.
  destruct (some_new_entries r); [|done]. unfold tick. never.
Qed.
Lemma drain_never : never_err (drain_completions (E:=E)).
Proof. unfold drain_completions. never. Qed.
Lemma clear_never rounds fuel : never_err (clear_completions (E:=E) env rounds fuel).
Proof.
  induction rounds as [|rounds IH]; cbn [clear_completions]; [done|].
  apply never_bind; [apply drain_never|intros _]. apply never_bind; [apply poll_never|intros r].
  apply never_bind; [apply never_lift, assert_no_err|intros _]. by destruct (some_new_entries r).
Qed.
End queue.

Lemma swap_remove_no_err {E A} i (l : list A) (e : E) : vec_swap_remove i l ≠ Err e.
Proof. unfold vec_swap_remove. by destruct (l !! i), (last l). Qed.
Lemma forget_no_err {E} cs : ∀ ids (e : E), forget_completed cs ids ≠ Err e.
Proof.
  induction cs as [|c cs IH]; intros ids e; cbn [forget_completed]; [done|].
  destruct (position _ ids) as [pos|]; [|apply IH].
  pose proof (swap_remove_no_err (E:=E) pos ids). destruct (vec_swap_remove pos ids) as [[? rest]|e'| |]; try done.
  - apply IH.
  - by destruct (H e').
Qed.

(** ** Errors of [initialize] *)

Section errors.
Context `{BF : BitField} `{!U8Enum GenericCommandStatus_disc} `{!U8Enum ArbitrationMechanism_disc}.
Context `{!U8Enum ShutdownStatus_disc} `{Addresses} {PT : Type} `{Mapper PT}.
Context (env : nat → Hardware → Hardware) (penv : nat → (Z → Z) → Z → Z) (dma : nat → Hardware → PhysFrame → list Z).
Context (rounds fuel : nat).
Local Abbreviation Ctl := (NVMEController PT).

Lemma on_admin_never {E A} (m : M QState E A) : never_err m → never_err (on_admin (PT:=PT) m).
Proof. intros Hm s e. unfold on_admin. specialize (Hm (admin_queue s) e). by destruct (m (admin_queue s)). Qed.
Lemma on_admin_kernel {E A} (m : M QState E A) (s : Ctl) : kernel (on_admin m s).2 = kernel s.
Proof. unfold on_admin. by destruct (m (admin_queue s)). Qed.

(** A controller without queues whose locks are held *)
Definition starting (s : Ctl) : Prop :=
  km_locked (kernel s) = true ∧ available_io_queues s = [] ∧ used_io_queues s = [].

Lemma wait_deleted_never {E} n : ∀ ids, never_err (wait_deleted (E:=E) (PT:=PT) env fuel n ids).
Proof.
  induction n as [|n IH]; intros ids; cbn [wait_deleted]; [done|].
  apply never_bind; [apply on_admin_never, poll_never|intros r].
  apply never_bind; [apply never_lift, assert_no_err|intros _].
  apply never_bind; [apply on_admin_never, drain_never|intros cs].
  apply never_bind; [apply never_lift, forget_no_err|intros ids'].
  destruct (Nat.eqb _ _); [apply never_ret|apply IH].
Qed.
Lemma wait_deleted_kernel {E} n : ∀ ids (s : Ctl), kernel (wait_deleted (E:=E) env fuel n ids s).2 = kernel s.
Proof.
  induction n as [|n IH]; intros ids s; cbn [wait_deleted]; [done|].
  rewrite run_bind. pose proof (on_admin_kernel (poll_completions (E:=E) env fuel) s) as H1.
  destruct (on_admin (poll_completions (E:=E) env fuel) s) as [[r| | |] s1]; cbn in H1; try done.
  rewrite run_bind. unfold lift at 1. destruct (assert_ _); try done.
  rewrite run_bind. pose proof (on_admin_kernel (drain_completions (E:=E)) s1) as H2.
  destruct (on_admin (drain_completions (E:=E)) s1) as [[cs| | |] s2]; cbn in H2; try (cbn; congruence).
  rewrite run_bind. unfold lift at 1. destruct (forget_completed cs ids); try (cbn; congruence).
  destruct (Nat.eqb _ _); [cbn; congruence|]. rewrite IH. congruence.
Qed.

(** The drop waits for nothing, and then takes locks that this core holds. *)
Lemma drop_while_locked admin (s : Ctl) : starting s →
  match (NVMEController_drop (E:=ControllerError) env rounds fuel admin s).1 with Panic | Hang => True | _ => False end.
Proof.
  intros (Hlock & Ha & Hu). unfold NVMEController_drop.
  assert (is_safe_to_drop (E:=ControllerError) s = (Ok true, s)) as Hsafe.
  { unfold is_safe_to_drop, reclaim_io_queues. rewrite run_bind, run_gets, Hu. cbn [length reclaim_loop].
    rewrite run_gets, Hu. cbn. by rewrite run_gets, Hu. }
  rewrite run_bind, Hsafe. rewrite run_lift with (a := tt) by done.
  rewrite run_bind. pose proof (on_admin_never _ (clear_never env (E:=ControllerError) rounds fuel) s) as Hn.
  destruct (on_admin (clear_completions env rounds fuel) s) as [[[]|e| |] s1] eqn:Hc; [|by destruct (Hn e)|done|done].
  assert (kernel s1 = kernel s ∧ available_io_queues s1 = []) as [Hk1 Ha1].
  { unfold on_admin in Hc. destruct (clear_completions env rounds fuel (admin_queue s)) as [r q]. by injection Hc as _ <-. }
  rewrite run_gets, Ha1. cbn [delete_queues]. rewrite run_ret. cbn [length Nat.eqb]. rewrite run_ret.
  rewrite run_bind. pose proof (wait_deleted_never (E:=ControllerError) rounds [] s1) as Hnw.
  pose proof (wait_deleted_kernel (E:=ControllerError) rounds [] s1) as Hk2.
  destruct (wait_deleted env fuel rounds [] s1) as [[[]|e| |] s2]; [|by destruct (Hnw e)|done|done].
  rewrite run_bind. unfold on_kernel at 1, lock_kernel. cbn in Hk2. by rewrite Hk2, Hk1, Hlock.
Qed.

(** Steps of [initialize] after [this] was created *)
Definition keeps_start {E A} (m : M (Init PT) E A) : Prop := ∀ s, starting (this s) → starting (this (m s).2).

Lemma start_bind {E A B} (m : M (Init PT) E A) (f : A → M (Init PT) E B) :
  keeps_start m → (∀ a, keeps_start (f a)) → keeps_start (m ≫= f).
Proof.
  intros Hm Hf s Hs. rewrite run_bind. specialize (Hm s Hs). destruct (m s) as [[a| | |] s1]; cbn in *; try done.
  by apply Hf.
Qed.
Lemma start_try {E E' A} (m : M (Init PT) E A) : keeps_start m → keeps_start (try (E':=E') m).
Proof. intros Hm s Hs. specialize (Hm s Hs). unfold try. by destruct (m s) as [[| | |] ?]. Qed.
Lemma start_lift {E A} (r : result E A) : keeps_start (lift r).
Proof. by intros s. Qed.
Lemma start_registers {E A} (m : M Properties E A) : keeps_start (on_registers m).
Proof. intros s Hs. unfold on_registers. by destruct (m (registers s)). Qed.
Lemma start_admin {E A} (m : M QState E A) : keeps_start (on_ctl (on_admin m)).
Proof. intros s Hs. unfold on_ctl, on_admin. by destruct (m (admin_queue (this s))). Qed.
Lemma start_kernel {E A} (m : M (KernelMemory PT) E A) : keeps_lock m → keeps_start (on_ctl (on_kernel m)).
Proof.
  intros Hm s (Hl & Ha & Hu). unfold on_ctl, on_kernel. specialize (Hm (kernel (this s))).
  destruct (m (kernel (this s))). cbn in Hm. unfold starting. cbn. by rewrite Hm.
Qed.
Lemma start_info {E} f : keeps_start (E:=E) (modify (set_info f)).
Proof. by intros s. Qed.
Lemma start_caps {E} f : keeps_start (E:=E) (modify (set_capabilities f)).
Proof. by intros s. Qed.
Lemma start_id {E} i : keeps_start (E:=E) (modify (set_controller_id i)).
Proof. by intros s. Qed.
Lemma start_sets {E} f : keeps_start (E:=E) (modify (λ s, set_command_sets (f s) s)).
Proof. by intros s. Qed.
Lemma start_gets {E A} (f : Init PT → A) : keeps_start (E:=E) (gets f).
Proof. by intros s. Qed.
Lemma start_ret {E A} (a : A) : keeps_start (E:=E) (mret a).
Proof. by intros s. Qed.
Lemma lock_expect {E A} (m : M (KernelMemory PT) MemError A) : keeps_lock m → keeps_lock (expect_ok (E:=E) m).
Proof.
  intros Hm. unfold expect_ok. apply keeps_lock_bind; [by apply keeps_lock_try|]. by intros [|].
Qed.

Create HintDb start.
#[local] Hint Resolve start_try start_lift start_registers start_admin start_kernel start_info start_caps start_id
  start_sets start_gets start_ret lock_expect keeps_lock_mapM_err keeps_lock_pages keeps_lock_table : start.
Ltac start := repeat first [apply start_bind; [|intros ?] | case_match | progress auto with start].

Lemma admin_call_start c : keeps_start (admin_call (PT:=PT) env rounds fuel c).
Proof. unfold admin_call. start. Qed.
Lemma check_status_start c : keeps_start (check_status (PT:=PT) c).
Proof. unfold check_status. start. Qed.
Lemma alloc_page_start : keeps_start (alloc_identify_page (PT:=PT)).
Proof. unfold alloc_identify_page. start. Qed.
Lemma free_page_start p : keeps_start (free_identify_page (PT:=PT) p).
Proof. unfold free_identify_page. start. Qed.
Lemma read_page_start f : keeps_start (read_page (PT:=PT) dma f).
Proof. unfold read_page. start. Qed.
#[local] Hint Resolve admin_call_start check_status_start alloc_page_start free_page_start read_page_start : start.
Lemma identify_start c f : keeps_start (identify (PT:=PT) env dma rounds fuel c f).
Proof. unfold identify. start. Qed.
#[local] Hint Resolve identify_start : start.

Lemma initialize_this_start n : keeps_start (initialize_this (PT:=PT) env penv dma rounds fuel n).
Proof.
  unfold initialize_this. apply start_bind; [unfold reset_device; start|intros cap].
  apply start_bind; [unfold configure_device; start|intros _].
  apply start_bind; [unfold identify_controller; start|intros id].
  apply start_bind; [unfold select_command_sets; start|intros _].
  apply start_bind; [unfold configure_entry_sizes; start|intros _].
  apply start_bind; [unfold request_queues; start|intros _]. unfold identify_namespace. start.
Qed.

(** C26: once the controller is mapped and the admin queue allocated, no error of [initialize]
    reaches the caller: the error drops the controller, which takes the locks that are
    still held, and panics (or waits for the device forever). *)
Theorem initialize_errors_panic pci_dev n (k k' : KernelMemory PT) regs page doorbell admin :
  is_nvm_storage pci_dev = true → km_locked k = false →
  (_ ← lock_kernel; map_controller pci_dev) k = (Ok (page, doorbell, admin), k') →
  ∀ e, initialize env penv dma rounds fuel pci_dev n k regs ≠ Err e.
Proof.
  intros Hnvm Hlock Hmap e. unfold initialize. rewrite Hnvm. cbn [negb]. rewrite Hmap.
  assert (km_locked k' = true) as Hk'.
  { rewrite run_bind in Hmap. unfold lock_kernel in Hmap. rewrite Hlock in Hmap.
    set (k0 := mkKernelMemory _ _ _ _) in Hmap.
    assert (keeps_lock (map_controller (PT:=PT) pci_dev)) as Hkl.
    { unfold map_controller, map_frame, not_null.
      repeat first [apply IoQueue_allocate_lock | apply keeps_lock_bind; [|intros ?]]; auto with start; done. }
    specialize (Hkl k0). by rewrite Hmap in Hkl. }
  set (init := mkInit _ _ _ _ _ _).
  assert (starting (this init)) as Hs by (by split).
  pose proof (initialize_this_start n init Hs) as Hs'.
  destruct (initialize_this env penv dma rounds fuel n init) as [[[]|e'| |] s']; [|clear Hs|done..].
  - by destruct (on_ctl _ s').
  - pose proof (drop_while_locked (admin_rings s') (this s') Hs') as Hd.
    destruct (NVMEController_drop env rounds fuel (admin_rings s') (this s')) as [[| | |] ?]; by cbn in Hd.
Qed.
End errors.

(** ** A device *)

(** The last identify command for a frame: its kind and the namespace *)
Definition last_identify (h : Hardware) (f : PhysFrame) : option (Z * Z) :=
  (λ c, (get_bits (dword10 c) 0 7, namespace_ident c)) <$>
    last (filter (λ c, CDW0_opcode (dword0 c) = AdminOpcode_disc Identify ∧ prp_entry_1 (data_ptr c) = f) (fetched h)).

Definition zero_page : list Z := replicate 4096 0.
(** A controller with the identifier 7, the command sets [sets], and one namespace of 1000
    blocks, whose list of active namespaces starts with [active] *)
Definition demo_dma (sets : list Z) (active : Z) (t : nat) (h : Hardware) (f : PhysFrame) : list Z :=
  match last_identify h f with
  | Some (1, _) => bytes_at 78 [7; 0] (bytes_at 256 [10; 0] (bytes_at 522 [1; 0] (bytes_at 526 [3; 0] zero_page)))
  | Some (0, 1) => namespace_page 7 0 [0;0;9;0; 8;0;9;0]
  | Some (2, _) => bytes_at 0 [active] zero_page
  | Some (28, _) => bytes_at 0 (mjoin (le_bytes 8 <$> sets)) zero_page
  | _ => zero_page
  end.

(** Four queues of each kind; the commands are answered one at a time. *)
Definition answering_env (t : nat) (h : Hardware) : Hardware :=
  let h := demo_fetch 64 h in
  match fetched h !! length (posted h) with
  | Some c =>
      let e := mkCompletion (3 + 3 * 65536) 0 (Z.of_nat (length (fetched h) mod 64)) 0
                 (CDW0_command_identifier (dword0 c)) (if phase_of 64 (length (posted h)) then 1 else 0) in
      mkHardware (sq h) (sq_tail_doorbell h) (<[(length (posted h) mod 64)%nat:=e]> (cq h)) (cq_head_doorbell h)
        (fetched h) (posted h ++ [(e, length (fetched h))])
  | None => h
  end.

(** Rings of at most 1023 entries; [css] are the supported command sets. *)
Definition demo_registers (css : Z) : Properties := mkProperties (λ o, if o =? 0 then 1023 + css * 2 ^ 37 else 0) 0.
Definition demo_pci : PciDevice := mkPci true 0xfe000004 0.
Definition start_device (css : Z) (sets : list Z) (active : Z) : result ControllerError (Init mappings) :=
  initialize answering_env ready_env (demo_dma sets active) 20 64 demo_pci 4
    (demo_kernel many_frames) (demo_registers css).

Definition started (s : Init mappings) :=
  (capabilities s, this_controller_id s, io_command_sets s, info (this s), km_locked (kernel (this s)),
   CDW0_opcode ∘ dword0 <$> fetched (hw (admin_queue (this s))), words (registers s) <$> [20; 36; 40; 48]).

(** The NVM command set only: identify the controller, set the number of queues, identify both
    namespaces and the active ones *)
Example initialize_run :
  (s ← start_device 1 [] 1; mret (started s)) =
  Ok (mkAllCapabilities 1 4096 8 512 1000 1000 0 3 0, Some 7, 1, mkInfo 0x2000 0x3000 4 4 4 1023, false,
      [6; 9; 6; 6; 6], [4587521; 63 + 63 * 65536; 0x12000; 0x13000]).
Proof. vm_compute. done. Qed.
(** Several command sets: the best one is selected with another command. *)
Example initialize_sets_run :
  (s ← start_device 64 [1; 7; 3] 1; mret (started s)) =
  Ok (mkAllCapabilities 1 4096 8 512 1000 1000 0 3 0, Some 7, 7, mkInfo 0x2000 0x3000 4 4 4 1023, false,
      [6; 6; 9; 9; 6; 6; 6], [4587617; 63 + 63 * 65536; 0x12000; 0x13000]).
Proof. vm_compute. done. Qed.

Lemma demo_map_controller : ∃ page doorbell admin k',
  (_ ← lock_kernel; map_controller demo_pci) (demo_kernel many_frames) = (Ok (page, doorbell, admin), k').
Proof. do 4 eexists. vm_compute. reflexivity. Qed.
Lemma inactive_namespace_panics : start_device 1 [] 0 = Panic.
Proof. vm_compute. reflexivity. Qed.

(** The first namespace is not active: the error [NoNamespace] never arrives. *)
Lemma initialize_errors_panic_witness :
  (∀ e, initialize answering_env ready_env (demo_dma [] 0) 20 64 demo_pci 4 (demo_kernel many_frames) (demo_registers 1) ≠ Err e) ∧
  start_device 1 [] 0 = Panic.
Proof.
  split; [|apply inactive_namespace_panics].
  destruct demo_map_controller as (page & doorbell & admin & k' & Hmap).
  by apply (initialize_errors_panic answering_env ready_env (demo_dma [] 0) 20 64 demo_pci 4
    (demo_kernel many_frames) k' (demo_registers 1) page doorbell admin).
Defined.
