(* ===== verification/CoreLocals.v ===== *)
(** * [wasabi-kernel/src/core_local], [cpu/interrupts], [cpu/apic]: interrupts of one core

    The counters of [CoreStatics] that say whether interrupts may be on, the table of
    interrupt handlers, the timer of the APIC and inter processor interrupts. The
    registers of the APIC are a function of their offset; [calibrate], which computes
    the rate of the timer with floating point numbers, and the log are left out. *)

From S2P Require Import Prelude Bits.
From stdpp Require Import functions.
Local Open Scope Z_scope.

(** ** [core_local]: the counters *)

(** [fetch_add] and [fetch_sub] of an [AtomicU64] *)
Definition fetch_add_u64 (a n : Z) : Z := (a + n) mod (u64_max + 1).
Definition fetch_sub_u64 (a n : Z) : Z := (a - n) mod (u64_max + 1).

(** [interrupt_flag] is the flag of the processor. *)
Record CoreStatics := mkStatics {
  interrupt_count : Z;
  exception_count : Z;
  interrupts_disable_count : Z;
  interrupt_flag : bool;
}.

Definition set_interrupt_count (n : Z) (s : CoreStatics) : CoreStatics :=
  mkStatics n (exception_count s) (interrupts_disable_count s) (interrupt_flag s).
Definition set_disable_count (n : Z) (s : CoreStatics) : CoreStatics :=
  mkStatics (interrupt_count s) (exception_count s) n (interrupt_flag s).
Definition set_interrupt_flag (b : bool) (s : CoreStatics) : CoreStatics :=
  mkStatics (interrupt_count s) (exception_count s) (interrupts_disable_count s) b.

Definition CoreStatics_empty : CoreStatics := mkStatics 0 0 1 false.

(** [AutoRefCounter::increment] and the drop of its guard, on [interrupt_count] *)
Definition inc_interrupt (s : CoreStatics) : CoreStatics :=
  set_interrupt_count (fetch_add_u64 (interrupt_count s) 1) s.
Definition drop_interrupt (s : CoreStatics) : CoreStatics :=
  set_interrupt_count (fetch_sub_u64 (interrupt_count s) 1) s.
Definition in_interrupt (s : CoreStatics) : bool := 0 <? interrupt_count s.

Definition enable_interrupts (s : CoreStatics) : CoreStatics :=
  let old_disable_count := interrupts_disable_count s in
  let s := set_disable_count (fetch_sub_u64 old_disable_count 1) s in
  if (old_disable_count =? 1) && negb (in_interrupt s) then set_interrupt_flag true s else s.
Definition decrement_interrupt_disable_count (s : CoreStatics) : CoreStatics :=
  set_disable_count (fetch_sub_u64 (interrupts_disable_count s) 1) s.
Definition disable_interrupts_guardless (s : CoreStatics) : CoreStatics :=
  set_interrupt_flag false (set_disable_count (fetch_add_u64 (interrupts_disable_count s) 1) s).
Definition interrupts_enabled (s : CoreStatics) : bool := interrupts_disable_count s =? 0.

(** [CoreInterruptState::enter_lock] and [exit_lock] *)
Definition enter_lock (disable : bool) (s : CoreStatics) : CoreStatics :=
  if disable then disable_interrupts_guardless s else s.
Definition exit_lock (enable : bool) (s : CoreStatics) : CoreStatics :=
  if enable then enable_interrupts s else s.

(** [interrupts::init], the end *)
Definition interrupts_init {E} : M CoreStatics E unit :=
  _ ← modify enable_interrupts;
  b ← gets interrupts_enabled;
  lift (assert_ b).

(** ** [interrupts]: the handlers *)

Inductive InterruptVector := ContextSwitch | Spurious | Nop | Test.
#[export] Instance InterruptVector_eq_dec : EqDecision InterruptVector.
Proof. solve_decision. Defined.

Definition vector_u8 (v : InterruptVector) : Z :=
  match v with ContextSwitch => 32 | Spurious => 63 | Nop => 254 | Test => 255 end.
(** the derived [TryFrom<u8>] *)
Definition vector_try_from (n : Z) : option InterruptVector :=
  if n =? 32 then Some ContextSwitch else if n =? 63 then Some Spurious
  else if n =? 254 then Some Nop else if n =? 255 then Some Test else None.

Inductive InterruptRegistrationError :=
  | InterruptVectorInUse (vector : InterruptVector)
  | InterruptVectorNotRegistered (vector : InterruptVector)
  | NoRegisteredVector.

Definition MAX_INTERRUPT_HANDLER_COUNT : nat := 256 - 32.

Section handlers.
(** The functions that handle interrupts *)
Context {InterruptFn : Type}.
Abbreviation Handlers := (list (option InterruptFn)).

Definition handlers_new : Handlers := replicate MAX_INTERRUPT_HANDLER_COUNT None.

Definition check_interrupt_vector {E} (vector : InterruptVector) : result E unit :=
  assert_ (vector_u8 vector >=? 32).
Definition handler_index (vector : InterruptVector) : nat := Z.to_nat (vector_u8 vector - 32).

Definition register_interrupt_handler (vector : InterruptVector) (handler : InterruptFn)
    : M Handlers InterruptRegistrationError unit :=
  _ ← lift (check_interrupt_vector vector);
  let index := handler_index vector in
  handlers ← gets id;
  old ← lift (vec_get handlers index);
  match old with
  | Some _ => lift (Err (InterruptVectorInUse vector))
  | None => handlers ← lift (vec_set index (Some handler) handlers); put handlers
  end.

Definition change_interrupt_handler {E} (vector : InterruptVector) (handler : InterruptFn)
    : M Handlers E (option InterruptFn) :=
  _ ← lift (check_interrupt_vector vector);
  let index := handler_index vector in
  handlers ← gets id;
  old ← lift (vec_get handlers index);
  handlers ← lift (vec_set index (Some handler) handlers);
  _ ← put handlers;
  mret old.

Definition unregister_interrupt_handler (vector : InterruptVector)
    : M Handlers InterruptRegistrationError InterruptFn :=
  _ ← lift (check_interrupt_vector vector);
  let index := handler_index vector in
  handlers ← gets id;
  old ← lift (vec_get handlers index);
  lift (match old with
        | Some handler => Ok handler
        | None => Err (InterruptVectorNotRegistered vector)
        end).

Definition get_interrupt_handler {E} (vector : InterruptVector) : M Handlers E (option InterruptFn) :=
  _ ← lift (check_interrupt_vector vector);
  let index := handler_index vector in
  handlers ← gets id;
  lift (vec_get handlers index).

(** ** [apic::timer] *)

Inductive Offset := EndOfInterrupt | InterruptCommandLow | InterruptCommandHigh
  | TimerLocalVectorTableEntry | TimerInitialCount | TimerCurrentCount | TimerDivideConfiguration.
#[export] Instance Offset_eq_dec : EqDecision Offset.
Proof. solve_decision. Defined.

Inductive TimerDivider := DivBy1 | DivBy2 | DivBy4 | DivBy8 | DivBy16 | DivBy32 | DivBy64 | DivBy128.
Definition divider_u32 (d : TimerDivider) : Z :=
  match d with
  | DivBy1 => 11 | DivBy2 => 0 | DivBy4 => 1 | DivBy8 => 2
  | DivBy16 => 3 | DivBy32 => 8 | DivBy64 => 9 | DivBy128 => 10
  end.

Record TimerConfig := mkTimerConfig { divider : TimerDivider; duration : Z }.

Inductive TimerMode :=
  | Stopped
  | OneShot (config : TimerConfig)
  | Periodic (config : TimerConfig)
  | TscDeadline.

Definition vector_table_entry_bits {E} (mode : TimerMode) : result E Z :=
  match mode with
  | Stopped => Panic
  | OneShot _ => Ok 0
  | Periodic _ => Ok 1
  | TscDeadline => Ok 2
  end.

Record TimerData := mkTimerData {
  mhz : Z;
  interrupt_vector : option InterruptVector;
  mode : TimerMode;
  supports_tsc_deadline : bool;
  is_running : bool;
  one_shot_inner_handler : option InterruptFn;
}.

Inductive TimerError :=
  | MissingInterruptVector
  | TimerRunning
  | InterruptRegistration (e : InterruptRegistrationError).

(** The APIC of a core and its table of handlers; [one_shot] stands for the function
    [one_shot_interrupt_handler]. *)
Record Apic := mkApic {
  registers : Offset → Z;
  timer : TimerData;
  handlers : Handlers;
}.

Definition set_timer (t : TimerData) (a : Apic) : Apic := mkApic (registers a) t (handlers a).
Definition write (o : Offset) (v : Z) (a : Apic) : Apic :=
  mkApic (<[o := v]> (registers a)) (timer a) (handlers a).
Definition set_vector (v : option InterruptVector) (t : TimerData) : TimerData :=
  mkTimerData (mhz t) v (mode t) (supports_tsc_deadline t) (is_running t) (one_shot_inner_handler t).
Definition set_mode (m : TimerMode) (t : TimerData) : TimerData :=
  mkTimerData (mhz t) (interrupt_vector t) m (supports_tsc_deadline t) (is_running t)
    (one_shot_inner_handler t).
Definition set_running (b : bool) (t : TimerData) : TimerData :=
  mkTimerData (mhz t) (interrupt_vector t) (mode t) (supports_tsc_deadline t) b
    (one_shot_inner_handler t).
Definition set_inner (h : option InterruptFn) (t : TimerData) : TimerData :=
  mkTimerData (mhz t) (interrupt_vector t) (mode t) (supports_tsc_deadline t) (is_running t) h.

Section timer.
Context `{BitField} (one_shot : InterruptFn).
Local Abbreviation M := (M Apic TimerError).

(** A call on the table of handlers *)
Definition on_handlers {E A} (f : E → TimerError) (m : Prelude.M Handlers E A) : M A := λ a,
  let '(r, h) := m (handlers a) in (map_err f r, mkApic (registers a) (timer a) h).

(** [offset_mut(..).update(..)] *)
Definition update (o : Offset) (f : Z → result TimerError Z) : M unit :=
  v ← gets (λ a, registers a o);
  v ← lift (f v);
  modify (write o v).

Definition MASK_BIT : Z := 16.

Definition not_running : M unit :=
  a ← gets timer; lift (if is_running a then Err TimerRunning else Ok tt).

Definition enable_interrupt_hander (vector : InterruptVector) : M (option InterruptVector) :=
  _ ← not_running;
  t ← gets timer;
  let old_vector := interrupt_vector t in
  _ ← modify (set_timer (set_vector (Some vector) t));
  _ ← update TimerLocalVectorTableEntry (λ vte,
        let vte := set_bit vte MASK_BIT false in
        set_bits vte 0 7 (vector_u8 vector));
  mret old_vector.

Definition disable_interrupt_handler : M (option InterruptVector) :=
  _ ← not_running;
  _ ← update TimerLocalVectorTableEntry (λ vte,
        let vte := set_bit vte MASK_BIT true in
        set_bits vte 0 7 0);
  t ← gets timer;
  _ ← modify (set_timer (set_vector None t));
  mret (interrupt_vector t).

Definition timer_register_interrupt_handler (vector : InterruptVector) (handler : InterruptFn)
    : M (option InterruptVector) :=
  _ ← not_running;
  _ ← on_handlers InterruptRegistration (register_interrupt_handler vector handler);
  enable_interrupt_hander vector.

Definition timer_unregister_interrupt_handler : M (option InterruptVector) :=
  _ ← not_running;
  old_vector ← disable_interrupt_handler;
  t ← gets timer;
  vector ← lift (ok_or (InterruptRegistration NoRegisteredVector) (interrupt_vector t));
  _ ← on_handlers InterruptRegistration (unregister_interrupt_handler vector);
  mret old_vector.

Definition timer_stop : M unit :=
  _ ← modify (write TimerInitialCount 0);
  t ← gets timer;
  modify (set_timer (set_running false (set_mode Stopped t))).

(** [start] in the modes [OneShot] and [Periodic] *)
Definition start_counting (m : TimerMode) (config : TimerConfig) (one : bool) : M unit :=
  t ← gets timer;
  int_vector ← lift (ok_or MissingInterruptVector (interrupt_vector t));
  _ ← (if one then
         old ← on_handlers id (change_interrupt_handler int_vector one_shot);
         t ← gets timer;
         modify (set_timer (set_inner old t))
       else mret tt);
  _ ← update TimerDivideConfiguration (λ div, set_bits div 0 4 (divider_u32 (divider config)));
  _ ← update TimerLocalVectorTableEntry (λ tlvte,
        let tlvte := set_bit tlvte MASK_BIT false in
        bits ← vector_table_entry_bits m;
        set_bits tlvte 17 18 bits);
  _ ← modify (write TimerInitialCount (duration config));
  t ← gets timer;
  modify (set_timer (set_mode m t)).

Definition timer_start (m : TimerMode) : M unit :=
  _ ← not_running;
  _ ← match m with
      | Stopped => timer_stop
      | OneShot config => start_counting m config true
      | Periodic config => start_counting m config false
      | TscDeadline => lift Panic
      end;
  t ← gets timer;
  modify (set_timer (set_running (match m with Stopped => false | _ => true end) t)).

Definition timer_restart (reset : Z) : M unit :=
  t ← gets timer;
  match mode t with
  | OneShot _ | Periodic _ => modify (write TimerInitialCount reset)
  | _ => lift Panic
  end.

(** [if let Err(e) = .. { error!(..) }] *)
Definition ignore_err {A} (m : M A) : M unit := λ a,
  match m a with
  | (Ok _, a) | (Err _, a) => (Ok tt, a)
  | (Panic, a) => (Panic, a)
  | (Hang, a) => (Hang, a)
  end.

(** [one_shot_interrupt_handler]: the handler that it calls, if there is one *)
Definition one_shot_interrupt_handler (int_vec : InterruptVector) : M (option InterruptFn) :=
  t ← gets timer;
  _ ← lift (assert_ (bool_decide (Some int_vec = interrupt_vector t)));
  let inner_handler := one_shot_inner_handler t in
  _ ← modify (set_timer (set_inner None (set_running false t)));
  match inner_handler with
  | Some inner_handler =>
      _ ← on_handlers id (change_interrupt_handler int_vec inner_handler);
      mret (Some inner_handler)
  | None =>
      _ ← ignore_err (on_handlers InterruptRegistration (unregister_interrupt_handler int_vec));
      mret None
  end.
End timer.
End handlers.
Arguments Apic : clear implicits.
Arguments TimerData : clear implicits.

(** ** [apic::ipi] *)

Inductive DeliveryMode :=
  | Fixed (v : InterruptVector)
  | LowestPriority (v : InterruptVector)
  | SMI
  | NMI
  | INIT
  | SIPI (v : Z).

Inductive Destination := Target (dest : Z) | SelfOnly | AllIncludingSelf | AllExcludingSelf.

Record Ipi := mkIpi { ipi_mode : DeliveryMode; ipi_destination : Destination }.

Definition IPI_DELIVERY_MODE_BITS : Z := 8.
Definition IPI_STATUS_BIT : Z := 12.
Definition IPI_ASSERT_BIT : Z := 14.
Definition IPI_DEST_SHORT_BITS : Z := 18.
Definition IPI_DEST_BITS : Z := 56 - 32.

(** the vector and the bits of the mode *)
Definition mode_bits (m : DeliveryMode) : Z * Z :=
  match m with
  | Fixed v => (vector_u8 v, 0)
  | LowestPriority v => (vector_u8 v, 1)
  | SMI => (0, 2)
  | NMI => (0, 4)
  | INIT => (0, 5)
  | SIPI v => (v, 6)
  end.

Definition destination_bits (d : Destination) : Z * Z :=
  match d with
  | Target dest => (Z.shiftl dest IPI_DEST_BITS, 0)
  | SelfOnly => (0, 1)
  | AllIncludingSelf => (0, 2)
  | AllExcludingSelf => (0, 3)
  end.

Definition Ipi_encode (self : Ipi) : Z * Z :=
  let low := 0 in
  let low := Z.lor low (Z.shiftl 1 IPI_ASSERT_BIT) in
  let '(v, m) := mode_bits (ipi_mode self) in
  let low := Z.lor low v in
  let low := Z.lor low (Z.shiftl m IPI_DELIVERY_MODE_BITS) in
  let '(high, dest_short) := destination_bits (ipi_destination self) in
  let low := Z.lor low (Z.shiftl dest_short IPI_DEST_SHORT_BITS) in
  (low, high).

(** [Ipi::send]: [status] are the values that the register has when the loop reads it;
    the result are the writes to the two registers, in their order. *)
Fixpoint send_wait `{BitField} {E} (status : list Z) : result E unit :=
  match status with
  | [] => Hang
  | low :: status => if get_bit low IPI_STATUS_BIT then send_wait status else Ok tt
  end.
Definition Ipi_send `{BitField} {E} (self : Ipi) (status : list Z) : result E (list (Offset * Z)) :=
  _ ← send_wait status;
  let '(low, high) := Ipi_encode self in
  mret (match ipi_destination self with
        | Target _ => [(InterruptCommandHigh, high); (InterruptCommandLow, low)]
        | _ => [(InterruptCommandLow, low)]
        end).
