(* ===== verification/CoreLocalsProofs.v ===== *)
(** * Interrupts of one core: proofs

    Properly nested critical sections, locks and interrupts leave the state of the
    interrupts as it was and keep interrupts out of critical sections; the operations
    of the handler table and of the timer, with the registers they leave; inter
    processor interrupts and the register they are encoded in. *)

From S2P Require Import Prelude Bits CoreLocals.
From stdpp Require Import functions.
Local Open Scope Z_scope.

(** ** Nested sections *)

(** Code between [disable_interrupts] and the drop of its guard, code that holds a
    lock (of the preemptable kind or not), and a moment at which the hardware asks for
    the interrupt [n], whose handler runs the code of its own. *)
Inductive section :=
  | Disabled (body : list section)
  | Locked (preemptable : bool) (body : list section)
  | Interrupt (n : nat) (body : list section).

(** The processor takes an interrupt when its flag is on: it turns it off, the handler
    counts itself, and the return restores the flag. The trace are the interrupts that
    were taken, the latest first. *)
Fixpoint run_section (x : section) (st : CoreStatics * list nat) : CoreStatics * list nat :=
  let run_body := fix run_body (xs : list section) (st : CoreStatics * list nat) :=
    match xs with [] => st | x :: xs => run_body xs (run_section x st) end in
  match x with
  | Disabled body =>
      let '(s, t) := run_body body (disable_interrupts_guardless st.1, st.2) in
      (enable_interrupts s, t)
  | Locked preemptable body =>
      let '(s, t) := run_body body (enter_lock (negb preemptable) st.1, st.2) in
      (exit_lock (negb preemptable) s, t)
  | Interrupt n body =>
      if interrupt_flag st.1 then
        let '(s, t) := run_body body (inc_interrupt (set_interrupt_flag false st.1), n :: st.2) in
        (set_interrupt_flag true (drop_interrupt s), t)
      else st
  end.
Definition run_sections (xs : list section) (st : CoreStatics * list nat) : CoreStatics * list nat :=
  foldl (λ st x, run_section x st) st xs.

(** The interrupts outside of critical sections *)
Fixpoint open_interrupts (x : section) : list nat :=
  match x with
  | Interrupt n _ => [n]
  | Locked true body => concat (map open_interrupts body)
  | Disabled _ | Locked false _ => []
  end.

Fixpoint depth (x : section) : nat :=
  match x with
  | Disabled body | Locked _ body | Interrupt _ body => S (foldr Nat.max 0%nat (map depth body))
  end.
Definition depths (xs : list section) : nat := foldr Nat.max 0%nat (map depth xs).

Lemma run_section_eq x st : run_section x st =
  match x with
  | Disabled body =>
      let '(s, t) := run_sections body (disable_interrupts_guardless st.1, st.2) in
      (enable_interrupts s, t)
  | Locked preemptable body =>
      let '(s, t) := run_sections body (enter_lock (negb preemptable) st.1, st.2) in
      (exit_lock (negb preemptable) s, t)
  | Interrupt n body =>
      if interrupt_flag st.1 then
        let '(s, t) := run_sections body (inc_interrupt (set_interrupt_flag false st.1), n :: st.2) in
        (set_interrupt_flag true (drop_interrupt s), t)
      else st
  end.
Proof.
  assert (∀ xs st, (fix run_body (xs : list section) (st : CoreStatics * list nat) :=
    match xs with [] => st | x :: xs => run_body xs (run_section x st) end) xs st
    = run_sections xs st) as Hrun.
  { clear. induction xs as [|x xs IH]; intros st; [done|]. by cbn. }
  destruct x; cbn [run_section]; by rewrite Hrun.
Qed.

(** The flag is on exactly when nothing forbids it. *)
Record consistent (s : CoreStatics) (d : nat) : Prop := {
  co_flag : interrupt_flag s = (interrupts_disable_count s =? 0) && (interrupt_count s =? 0);
  co_disable : 0 ≤ interrupts_disable_count s ≤ u64_max - Z.of_nat d;
  co_interrupt : 0 ≤ interrupt_count s ≤ u64_max - Z.of_nat d;
}.

Lemma fetch_add_u64_ok a n : 0 ≤ a → 0 ≤ n → a + n ≤ u64_max → fetch_add_u64 a n = a + n.
Proof. intros. unfold fetch_add_u64. apply Z.mod_small. lia. Qed.
Lemma fetch_sub_u64_ok a n : 0 ≤ n ≤ a → a ≤ u64_max → fetch_sub_u64 a n = a - n.
Proof. intros. unfold fetch_sub_u64. apply Z.mod_small. lia. Qed.

Lemma depths_cons x xs : depths (x :: xs) = Nat.max (depth x) (depths xs).
Proof. done. Qed.
Lemma consistent_le s d d' : consistent s d → (d' ≤ d)%nat → consistent s d'.
Proof. intros []. split; [done|lia..]. Qed.

(** Entering and leaving a critical section *)
Lemma disable_consistent s d : consistent s (S d) →
  consistent (disable_interrupts_guardless s) d ∧ enable_interrupts (disable_interrupts_guardless s) = s
  ∧ interrupt_flag (disable_interrupts_guardless s) = false.
Proof.
  intros [Hf Hd Hi]. destruct s as [i e dc fl]; cbn in *.
  unfold disable_interrupts_guardless; cbn. rewrite fetch_add_u64_ok by lia. split_and!; [|cbn|done].
  - split; cbn; [|lia..]. destruct (Z.eqb_spec (dc + 1) 0); [lia|done].
  - unfold enable_interrupts, in_interrupt; cbn. rewrite fetch_sub_u64_ok by lia.
    replace (dc + 1 - 1) with dc by lia. subst fl.
    destruct (Z.eqb_spec (dc + 1) 1), (Z.ltb_spec 0 i), (Z.eqb_spec dc 0), (Z.eqb_spec i 0);
      cbn; (done || lia).
Qed.

Lemma interrupt_consistent s d : consistent s (S d) → interrupt_flag s = true →
  consistent (inc_interrupt (set_interrupt_flag false s)) d
  ∧ set_interrupt_flag true (drop_interrupt (inc_interrupt (set_interrupt_flag false s))) = s
  ∧ interrupt_flag (inc_interrupt (set_interrupt_flag false s)) = false.
Proof.
  intros [_ Hd Hi] Hon. destruct s as [i e dc fl]; cbn in *. subst fl.
  unfold inc_interrupt, drop_interrupt; cbn. rewrite fetch_add_u64_ok, fetch_sub_u64_ok by lia.
  split_and!; [|unfold set_interrupt_flag, set_interrupt_count; cbn; f_equal; (lia || done)|done].
  split; cbn; [|lia..]. destruct (Z.eqb_spec (i + 1) 0); [lia|]. by rewrite andb_false_r.
Qed.

Definition taken (s : CoreStatics) (ns : list nat) : list nat :=
  if interrupt_flag s then ns else [].

Lemma taken_app s ns ms : taken s (ns ++ ms) = taken s ns ++ taken s ms.
Proof. unfold taken. by destruct (interrupt_flag s). Qed.
Lemma taken_off s ns : interrupt_flag s = false → taken s ns = [].
Proof. unfold taken. by intros ->. Qed.

Lemma run_section_spec n : ∀ x s t, (depth x ≤ n)%nat → consistent s n →
  run_section x (s, t) = (s, rev (taken s (open_interrupts x)) ++ t).
Proof.
  induction n as [|n IH]; intros x s t Hd Hc; [destruct x; cbn in Hd; lia|].
  assert (∀ xs s t, (depths xs ≤ n)%nat → consistent s n →
    run_sections xs (s, t) = (s, rev (taken s (concat (map open_interrupts xs))) ++ t)) as IHs.
  { clear - IH. induction xs as [|x xs IHx]; intros s t Hd Hc.
    { cbn. unfold taken. by destruct (interrupt_flag s). }
    rewrite depths_cons in Hd. unfold run_sections in *. cbn. rewrite IH, IHx by (done || lia).
    by rewrite taken_app, rev_app_distr, app_assoc. }
  rewrite run_section_eq. destruct x as [body|[|] body|k body]; cbn [depth fst snd] in *.
  - apply disable_consistent in Hc as (Hc & He & Hf).
    rewrite IHs by (unfold depths; done || lia).
    rewrite (taken_off (disable_interrupts_guardless s)), He by done. unfold taken. by destruct (interrupt_flag s).
  - cbn. rewrite IHs; [done|unfold depths; lia|eapply consistent_le; [done|lia]].
  - cbn. apply disable_consistent in Hc as (Hc & He & Hf).
    rewrite IHs by (unfold depths; done || lia).
    rewrite (taken_off (disable_interrupts_guardless s)), He by done. unfold taken. by destruct (interrupt_flag s).
  - destruct (interrupt_flag s) eqn:Hon; [|unfold taken; by rewrite Hon].
    apply interrupt_consistent in Hc as (Hc & He & Hf); [|done].
    rewrite IHs by (unfold depths; done || lia).
    rewrite (taken_off (inc_interrupt _)) by done. cbn [rev app].
    rewrite He. unfold taken. by rewrite Hon.
Qed.

(** C32: whatever critical sections, locks and interrupt handlers are nested in each
    other, and whenever interrupts arrive, after the code the counters and the flag of
    the processor are as before, and the interrupts that were taken are exactly those
    that arrived outside of all critical sections. The nesting is at most as deep as
    the counters can count. *)
Theorem interrupt_sections (xs : list section) (s : CoreStatics) (trace : list nat) :
  consistent s (depths xs) →
  run_sections xs (s, trace)
  = (s, rev (if interrupt_flag s then concat (map open_interrupts xs) else []) ++ trace).
Proof.
  revert s trace. induction xs as [|x xs IH]; intros s t Hc.
  - cbn. by destruct (interrupt_flag s).
  - rewrite depths_cons in Hc. unfold run_sections in *. cbn [foldl].
    rewrite (run_section_spec (depth x)) by (done || (eapply consistent_le; [done|lia])).
    rewrite IH by (eapply consistent_le; [done|lia]).
    cbn. unfold taken. destruct (interrupt_flag s); [|done].
    by rewrite rev_app_distr, app_assoc.
Qed.

Lemma interrupt_sections_witness :
  run_sections [Interrupt 1 [Locked false [Interrupt 2 []]]; Disabled [Locked false [Interrupt 3 []]];
                Locked true [Interrupt 4 [Disabled []]]] (mkStatics 0 0 0 true, [])
  = (mkStatics 0 0 0 true, [4; 1]%nat).
Proof.
  rewrite (interrupt_sections _ (mkStatics 0 0 0 true) []); [reflexivity|].
  split; vm_compute; [reflexivity|split; discriminate..].
Defined.

(** ** The table of handlers *)

Section handlers.
Context {InterruptFn : Type}.
Implicit Types (table : list (option InterruptFn)) (v : InterruptVector) (h : InterruptFn).

Definition table_ok table : Prop := length table = MAX_INTERRUPT_HANDLER_COUNT.
Definition handler_at table v : option InterruptFn := mjoin (table !! handler_index v).

Lemma handler_index_lt v : (handler_index v < MAX_INTERRUPT_HANDLER_COUNT)%nat.
Proof. destruct v; apply Nat.ltb_lt; reflexivity. Qed.
Lemma check_vector_ok {E} v : check_interrupt_vector (E:=E) v = Ok tt.
Proof. by destruct v. Qed.

Lemma vec_get_handler {E} table v : table_ok table →
  vec_get (E:=E) table (handler_index v) = Ok (handler_at table v).
Proof.
  intros Ht. unfold vec_get, handler_at.
  destruct (table !! handler_index v) as [o|] eqn:Ho; [done|].
  apply lookup_ge_None in Ho. rewrite Ht in Ho. pose proof (handler_index_lt v). lia.
Qed.
Lemma vec_set_handler {E} table v o : table_ok table →
  vec_set (E:=E) (handler_index v) o table = Ok (<[handler_index v := o]> table).
Proof.
  intros Ht. unfold vec_set. rewrite Ht.
  destruct (Nat.ltb_spec (handler_index v) MAX_INTERRUPT_HANDLER_COUNT) as [|Hge]; [done|].
  pose proof (handler_index_lt v). lia.
Qed.

Lemma handler_at_insert table v h : table_ok table →
  handler_at (<[handler_index v := Some h]> table) v = Some h.
Proof.
  intros Ht. unfold handler_at. rewrite list_lookup_insert_eq; [done|].
  rewrite Ht. apply handler_index_lt.
Qed.

Lemma change_handler_eq {E} v h table : table_ok table →
  change_interrupt_handler (E:=E) v h table
  = (Ok (handler_at table v), <[handler_index v := Some h]> table).
Proof.
  intros Ht. unfold change_interrupt_handler. rewrite check_vector_ok. run.
  rewrite run_lift with (a := handler_at table v) by by apply vec_get_handler.
  by rewrite run_lift with (a := <[handler_index v := Some h]> table) by by apply vec_set_handler.
Qed.

Lemma register_handler_eq v h table : table_ok table →
  register_interrupt_handler v h table =
    match handler_at table v with
    | Some _ => (Err (InterruptVectorInUse v), table)
    | None => (Ok tt, <[handler_index v := Some h]> table)
    end.
Proof.
  intros Ht. unfold register_interrupt_handler. rewrite check_vector_ok. run.
  rewrite run_lift with (a := handler_at table v) by by apply vec_get_handler.
  destruct (handler_at table v); [done|].
  by rewrite run_lift with (a := <[handler_index v := Some h]> table) by by apply vec_set_handler.
Qed.

Lemma unregister_handler_eq v table : table_ok table →
  unregister_interrupt_handler v table =
    (match handler_at table v with
     | Some h => Ok h
     | None => Err (InterruptVectorNotRegistered v)
     end, table).
Proof.
  intros Ht. unfold unregister_interrupt_handler. rewrite check_vector_ok. run.
  by rewrite run_lift with (a := handler_at table v) by by apply vec_get_handler.
Qed.

(** [unregister_interrupt_handler] returns the handler of the vector but leaves it
    in the table, so that the vector cannot be registered again and the next interrupt
    still runs the handler that was unregistered. *)
Theorem unregister_keeps_handler (table : list (option InterruptFn)) (v : InterruptVector)
    (h : InterruptFn) :
  table_ok table →
  (register_interrupt_handler v h table).1 = Ok tt →
  let table' := (register_interrupt_handler v h table).2 in
  unregister_interrupt_handler v table' = (Ok h, table') ∧
  (∀ h', register_interrupt_handler v h' table' = (Err (InterruptVectorInUse v), table')) ∧
  get_interrupt_handler (E:=Empty_set) v table' = (Ok (Some h), table').
Proof.
  intros Ht Hreg table'. unfold table'. rewrite (register_handler_eq v h) in * by done.
  destruct (handler_at table v); [done|]. cbn [snd].
  set (t' := <[_ := _]> table).
  assert (table_ok t') as Ht' by (unfold table_ok, t'; by rewrite length_insert).
  assert (handler_at t' v = Some h) as Hat by by apply handler_at_insert.
  split_and!.
  - by rewrite unregister_handler_eq, Hat.
  - intros h'. by rewrite register_handler_eq, Hat.
  - unfold get_interrupt_handler. rewrite check_vector_ok. run. unfold lift.
    by rewrite vec_get_handler, Hat.
Qed.
End handlers.

Lemma unregister_keeps_handler_witness :
  unregister_interrupt_handler Test (<[223%nat := Some 7]> (handlers_new (InterruptFn:=Z)))
  = (Ok 7, <[223%nat := Some 7]> handlers_new).
Proof. apply (unregister_keeps_handler handlers_new Test 7); reflexivity. Defined.

(** ** The timer and its registers *)

Section timer.
Context `{BF : BitField} {InterruptFn : Type} (one_shot : InterruptFn).
Implicit Types (a : Apic InterruptFn) (t : TimerData InterruptFn).

Lemma set_bit_set_bits {E} x i b : 0 ≤ i → 0 ≤ x →
  set_bits (E:=E) x i i (Z.b2z b) = Ok (set_bit x i b).
Proof.
  intros Hi Hx. rewrite set_bits_spec, set_bit_spec; [done..|].
  rewrite Z.sub_diag. destruct b; cbn; lia.
Qed.

Lemma set_bits_facts {E} x l h v : 0 ≤ l ≤ h → 0 ≤ x → 0 ≤ v < 2 ^ (h - l + 1) →
  ∃ y, set_bits (E:=E) x l h v = Ok y ∧ 0 ≤ y ∧ get_bits y l h = v ∧
    ∀ l' h', 0 ≤ l' ≤ h' → h' < l ∨ h < l' → get_bits y l' h' = get_bits x l' h'.
Proof.
  intros Hl Hx Hv. destruct (set_bits_Ok (E:=E) x l h v) as (y & Hy & Hy0); [done..|].
  exists y. split_and!; [done..| |].
  - by apply (get_set_same (E:=E) x l h v y).
  - intros l' h' Hl' Hd. by apply (get_set_other (E:=E) x l h v y).
Qed.

Lemma set_bit_facts x i b : 0 ≤ i → 0 ≤ x →
  0 ≤ set_bit x i b ∧ get_bits (set_bit x i b) i i = Z.b2z b ∧
  ∀ l' h', 0 ≤ l' ≤ h' → h' < i ∨ i < l' → get_bits (set_bit x i b) l' h' = get_bits x l' h'.
Proof.
  intros Hi Hx. destruct (set_bits_facts (E:=Empty_set) x i i (Z.b2z b)) as (y & Hy & Hs);
    [lia|done|rewrite Z.sub_diag; destruct b; cbn; lia|].
  rewrite set_bit_set_bits in Hy by done. injection Hy as <-. done.
Qed.

(** The two writes to the vector table entry *)
Lemma vector_bits {E} x b v : 0 ≤ x → 0 ≤ v < 256 →
  ∃ y, set_bits (E:=E) (set_bit x MASK_BIT b) 0 7 v = Ok y ∧ 0 ≤ y ∧ get_bits y 0 7 = v ∧
    get_bits y 16 16 = Z.b2z b ∧ get_bits y 17 18 = get_bits x 17 18.
Proof.
  intros Hx Hv. unfold MASK_BIT. destruct (set_bit_facts x 16 b) as (H0 & Hb & Ho); [done..|].
  destruct (set_bits_facts (E:=E) (set_bit x 16 b) 0 7 v) as (y & Hy & Hy0 & Hg & Ho'); [lia..|].
  exists y. by rewrite (Ho' 16 16), (Ho' 17 18), (Ho 17 18) by lia.
Qed.
Lemma mode_bits_ok {E} x m : 0 ≤ x → 0 ≤ m < 4 →
  ∃ y, set_bits (E:=E) (set_bit x MASK_BIT false) 17 18 m = Ok y ∧ 0 ≤ y ∧ get_bits y 17 18 = m ∧
    get_bits y 16 16 = 0 ∧ get_bits y 0 7 = get_bits x 0 7.
Proof.
  intros Hx Hv. unfold MASK_BIT. destruct (set_bit_facts x 16 false) as (H0 & Hb & Ho); [done..|].
  destruct (set_bits_facts (E:=E) (set_bit x 16 false) 17 18 m) as (y & Hy & Hy0 & Hg & Ho'); [lia..|].
  exists y. by rewrite (Ho' 16 16), (Ho' 0 7), (Ho 0 7) by lia.
Qed.

(** What the counting hardware does: the interrupt that it raises, whether it starts
    again after that, and the rate *)
Record counts_as (regs : Offset → Z) (v : InterruptVector) (periodic : bool) (d : TimerDivider) : Prop := {
  ca_vector : get_bits (regs TimerLocalVectorTableEntry) 0 7 = vector_u8 v;
  ca_mask : get_bits (regs TimerLocalVectorTableEntry) 16 16 = 0;
  ca_mode : get_bits (regs TimerLocalVectorTableEntry) 17 18 = Z.b2z periodic;
  ca_divider : get_bits (regs TimerDivideConfiguration) 0 4 = divider_u32 d;
}.

(** The registers are in the state that the fields of the timer say. *)
Record described a : Prop := {
  de_regs o : 0 ≤ registers a o;
  de_table : table_ok (handlers a);
  de_vector v : interrupt_vector (timer a) = Some v →
    get_bits (registers a TimerLocalVectorTableEntry) 0 7 = vector_u8 v ∧
    get_bits (registers a TimerLocalVectorTableEntry) 16 16 = 0;
  de_running : is_running (timer a) = true → ∃ v c,
    interrupt_vector (timer a) = Some v ∧
    ((mode (timer a) = OneShot c ∧ counts_as (registers a) v false (divider c)) ∨
     (mode (timer a) = Periodic c ∧ counts_as (registers a) v true (divider c)));
  de_stopped : mode (timer a) = Stopped → registers a TimerInitialCount = 0 ∧ is_running (timer a) = false;
}.

Implicit Types (err : TimerError → Apic InterruptFn → Prop) (post : unit → Apic InterruptFn → Prop).

Lemma wp_not_running err post a :
  (is_running (timer a) = true → err TimerRunning a) → (is_running (timer a) = false → post tt a) →
  wp not_running err post a.
Proof.
  intros He Hp. unfold not_running. apply wp_bind, wp_gets. unfold wp, lift.
  destruct (is_running (timer a)); auto.
Qed.
Lemma wp_update o f y err post a :
  f (registers a o) = Ok y → post tt (write o y a) → wp (update o f) err post a.
Proof.
  intros Hf Hp. unfold update. apply wp_bind, wp_gets, wp_bind. by apply wp_lift with y.
Qed.

Lemma vector_u8_bound v : 0 ≤ vector_u8 v < 256.
Proof. destruct v; cbn; lia. Qed.
Lemma divider_bound d : 0 ≤ divider_u32 d < 2 ^ (4 - 0 + 1).
Proof. destruct d; cbn; lia. Qed.

Ltac regs := cbn in *;
  repeat (rewrite ?fn_lookup_insert_ne, ?fn_lookup_insert by done; cbn in * ).

Lemma regs_write o y a : (∀ o, 0 ≤ registers a o) → 0 ≤ y → ∀ o', 0 ≤ registers (write o y a) o'.
Proof.
  intros Ha Hy o'. cbn. destruct (decide (o = o')) as [->|]; [by rewrite fn_lookup_insert|].
  by rewrite fn_lookup_insert_ne.
Qed.

Lemma wp_enable v a : described a →
  wp (enable_interrupt_hander v) (λ _ a', is_running (timer a) = true ∧ a' = a) (λ _ a', described a' ∧
    interrupt_vector (timer a') = Some v ∧ is_running (timer a') = false ∧
    mhz (timer a') = mhz (timer a)) a.
Proof.
  intros D. unfold enable_interrupt_hander. apply wp_bind, wp_not_running; [done|]. intros Hr.
  apply wp_bind, wp_gets, wp_bind, wp_modify, wp_bind.
  destruct (vector_bits (E:=TimerError) (registers a TimerLocalVectorTableEntry) false (vector_u8 v))
    as (y & Hy & Hy0 & Hv & Hm & _); [apply D|apply vector_u8_bound|].
  eapply wp_update; [exact Hy|]. apply wp_ret. destruct D as [D1 D2 D3 D4 D5].
  split_and!; [|done..]. split; [by apply regs_write|done|..]; intros; regs; [..|by apply D5].
  - naive_solver.
  - by rewrite Hr in *.
Qed.

Lemma wp_disable a : described a →
  wp disable_interrupt_handler (λ _ a', is_running (timer a) = true ∧ a' = a) (λ _ a', described a' ∧
    interrupt_vector (timer a') = None ∧ is_running (timer a') = false) a.
Proof.
  intros D. unfold disable_interrupt_handler. apply wp_bind, wp_not_running; [done|]. intros Hr.
  apply wp_bind. destruct (vector_bits (E:=TimerError) (registers a TimerLocalVectorTableEntry) true 0)
    as (y & Hy & Hy0 & _); [apply D|done|].
  eapply wp_update; [exact Hy|]. apply wp_bind, wp_gets, wp_bind, wp_modify, wp_ret.
  destruct D as [D1 D2 D3 D4 D5].
  split_and!; [|done|done]. split; [by apply regs_write|done|..]; intros; regs; [done| |by apply D5].
  by rewrite Hr in *.
Qed.

(** Calls on the table of handlers *)
Lemma described_handlers a h : described a → table_ok h → described (mkApic (registers a) (timer a) h).
Proof. intros [] Hh. by split. Qed.
Lemma described_inner a h : described a → described (set_timer (set_inner h (timer a)) a).
Proof. intros []. by split. Qed.

Lemma table_ok_insert (table : list (option InterruptFn)) i o : table_ok table → table_ok (<[i := o]> table).
Proof. unfold table_ok. by rewrite length_insert. Qed.
Hint Resolve table_ok_insert described_handlers : core.

Lemma wp_stop a err : described a →
  wp timer_stop err (λ _ a', described a' ∧ mode (timer a') = Stopped) a.
Proof.
  intros [D1 D2 D3 D4 D5]. unfold timer_stop. apply wp_bind, wp_modify, wp_bind, wp_gets, wp_modify.
  split; [|done]. split; [by apply regs_write|done|..]; intros; regs; [by apply D3|done|done].
Qed.

(** The registers after [start_counting] *)
Lemma wp_start_counting (m : TimerMode) (c : TimerConfig) (one : bool) a :
  described a → is_running (timer a) = false → 0 ≤ duration c →
  m = (if one then OneShot c else Periodic c) →
  wp (start_counting one_shot m c one) (λ _ a', interrupt_vector (timer a) = None ∧ a' = a) (λ _ a',
    (∀ o, 0 ≤ registers a' o) ∧ table_ok (handlers a') ∧ mode (timer a') = m ∧
    registers a' TimerInitialCount = duration c ∧ mhz (timer a') = mhz (timer a) ∧
    ∃ v, interrupt_vector (timer a) = Some v ∧ interrupt_vector (timer a') = Some v ∧
      counts_as (registers a') v (negb one) (divider c)) a.
Proof.
  intros D Hr Hc ->. unfold start_counting. apply wp_bind, wp_gets, wp_bind.
  destruct (interrupt_vector (timer a)) as [v|] eqn:Hv; [|done]. apply wp_lift with v; [done|].
  apply wp_bind. assert (∃ h, table_ok h.2 ∧ (if one then
      old ← on_handlers id (change_interrupt_handler v one_shot);
      t ← gets timer; modify (set_timer (set_inner old t))
    else mret ()) a = (Ok tt, mkApic (registers a) (set_inner h.1 (timer a)) h.2)) as ([h1 h2] & Hh & Heq).
  { destruct one.
    - eexists (_, _). rewrite run_bind. unfold on_handlers. rewrite change_handler_eq by apply D. cbn.
      split; [|done]. apply table_ok_insert, D.
    - exists (one_shot_inner_handler (timer a), handlers a). split; [apply D|]. by destruct a as [r [] h]. }
  unfold wp at 1. rewrite Heq. clear Heq. apply wp_bind.
  destruct (set_bits_facts (E:=TimerError) (registers a TimerDivideConfiguration) 0 4 (divider_u32 (divider c)))
    as (dv & Hdv & Hdv0 & Hdg & _); [lia|apply D|apply divider_bound|].
  eapply wp_update; [exact Hdv|]. apply wp_bind.
  destruct (mode_bits_ok (E:=TimerError) (registers a TimerLocalVectorTableEntry) (Z.b2z (negb one)))
    as (y & Hy & Hy0 & Hm & Hk & Hb); [apply D|destruct one; cbn; lia|].
  eapply wp_update with y; [destruct one; exact Hy|].
  apply wp_bind, wp_modify, wp_bind, wp_gets, wp_modify. destruct D as [D1 D2 D3 _ _].
  split_and!; [|done..|regs; done|done|].
  - intros o. cbn. destruct (decide (o = TimerInitialCount)) as [->|];
      [by rewrite fn_lookup_insert|rewrite fn_lookup_insert_ne by done].
    destruct (decide (o = TimerLocalVectorTableEntry)) as [->|];
      [by rewrite fn_lookup_insert|rewrite fn_lookup_insert_ne by done].
    destruct (decide (o = TimerDivideConfiguration)) as [->|];
      [by rewrite fn_lookup_insert|by rewrite fn_lookup_insert_ne].
  - exists v. split_and!; [done..|]. destruct (D3 v Hv) as [Hv1 _].
    split; cbn; rewrite ?fn_lookup_insert_ne, ?fn_lookup_insert by done; congruence.
Qed.

(** The calls on a timer; [OpFire] is the interrupt of a timer in the mode [OneShot]. *)
Inductive timer_op :=
  | OpEnable (v : InterruptVector)
  | OpDisable
  | OpRegister (v : InterruptVector) (h : InterruptFn)
  | OpUnregister
  | OpStart (m : TimerMode)
  | OpStop
  | OpRestart (reset : Z)
  | OpFire (v : InterruptVector).

Definition run_timer_op (op : timer_op) : M (Apic InterruptFn) TimerError unit :=
  match op with
  | OpEnable v => _ ← enable_interrupt_hander v; mret tt
  | OpDisable => _ ← disable_interrupt_handler; mret tt
  | OpRegister v h => _ ← timer_register_interrupt_handler v h; mret tt
  | OpUnregister => _ ← timer_unregister_interrupt_handler; mret tt
  | OpStart m => timer_start one_shot m
  | OpStop => timer_stop
  | OpRestart r => timer_restart r
  | OpFire v => _ ← one_shot_interrupt_handler v; mret tt
  end.

(** The times are [u32]. *)
Definition op_valid (op : timer_op) : Prop :=
  match op with
  | OpStart (OneShot c) | OpStart (Periodic c) => 0 ≤ duration c ≤ u32_max
  | OpRestart r => 0 ≤ r ≤ u32_max
  | _ => True
  end.

(** The calls that panic *)
Definition op_panics (a : Apic InterruptFn) (op : timer_op) : bool :=
  match op with
  | OpStart TscDeadline => negb (is_running (timer a))
  | OpRestart _ => match mode (timer a) with OneShot _ | Periodic _ => false | _ => true end
  | OpFire v => negb (bool_decide (Some v = interrupt_vector (timer a)))
  | _ => false
  end.

Definition keeps_described (m : M (Apic InterruptFn) TimerError unit) (a : Apic InterruptFn) : Prop :=
  wp m (λ _, described) (λ _, described) a.

Lemma wp_drop {A} (m : M (Apic InterruptFn) TimerError A) (post : A → Apic InterruptFn → Prop) a :
  (∀ x a', post x a' → described a') →
  wp m (λ _, described) post a → keeps_described (_ ← m; mret tt) a.
Proof.
  intros Hp Hm. unfold keeps_described. apply wp_bind. eapply wp_mono; [exact Hm| |done].
  intros x a' Hx. apply wp_ret. eauto.
Qed.

Lemma wp_unregister a : described a → is_running (timer a) = false →
  wp timer_unregister_interrupt_handler
    (λ e a', e = InterruptRegistration NoRegisteredVector ∧ described a') (λ _ _, False) a.
Proof.
  intros D Hr. unfold timer_unregister_interrupt_handler.
  apply wp_bind, wp_not_running; [by rewrite Hr|]. intros _. apply wp_bind.
  eapply wp_mono; [by apply wp_disable|cbn|cbn; intros e a' []; congruence].
  intros o a' (D' & Hv & _). apply wp_bind, wp_gets. rewrite Hv. by apply wp_bind.
Qed.

Lemma described_started a v c b :
  (∀ o, 0 ≤ registers a o) → table_ok (handlers a) → interrupt_vector (timer a) = Some v →
  mode (timer a) = (if b : bool then Periodic c else OneShot c) → counts_as (registers a) v b (divider c) →
  described (set_timer (set_running true (timer a)) a).
Proof.
  intros H1 H2 Hv Hm [C1 C2 C3 C4]. split; [done|done|..]; cbn.
  - intros v' Hv'. rewrite Hv in Hv'. by injection Hv' as <-.
  - intros _. exists v, c. split; [done|]. destruct b; [right|left]; by rewrite Hm.
  - rewrite Hm. by destruct b.
Qed.

Lemma wp_start (m : TimerMode) a : described a → op_valid (OpStart m) → op_panics a (OpStart m) = false →
  wp (timer_start one_shot m)
    (λ _ a', (is_running (timer a) = true ∨ interrupt_vector (timer a) = None) ∧ a' = a)
    (λ _ a', described a' ∧
    match m with
    | OneShot c | Periodic c =>
        registers a' TimerInitialCount = duration c ∧ is_running (timer a') = true ∧
        interrupt_vector (timer a') = interrupt_vector (timer a) ∧ mhz (timer a') = mhz (timer a) ∧
        mode (timer a') = m
    | _ => is_running (timer a') = false
    end) a.
Proof.
  intros D Hv Hp. unfold timer_start. apply wp_bind, wp_not_running; [by auto|]. intros Hr.
  apply wp_bind. destruct m as [|c|c|]; cbn in Hv, Hp; [..|by rewrite Hr in Hp].
  - eapply wp_mono; [by apply (wp_stop a (λ _ _, False))|cbn|done]. intros [] a' [D' Hm].
    apply wp_bind, wp_gets, wp_modify. split; [|done].
    destruct D' as [D1 D2 D3 D4 D5]. split; cbn; [exact D1|exact D2|exact D3|done|]. intros _. split; [by apply D5|done].
  - eapply wp_mono; [by apply wp_start_counting; (done || lia)|cbn|by intros e a' [? ->]; auto].
    intros [] a' (H1 & H2 & H3 & H4 & H5 & v & Hv0 & Hv' & Hc). apply wp_bind, wp_gets, wp_modify.
    split; [by apply (described_started a' v c false)|]. by split_and!; [| |cbn; congruence| |].
  - eapply wp_mono; [by apply wp_start_counting; (done || lia)|cbn|by intros e a' [? ->]; auto].
    intros [] a' (H1 & H2 & H3 & H4 & H5 & v & Hv0 & Hv' & Hc). apply wp_bind, wp_gets, wp_modify.
    split; [by apply (described_started a' v c true)|]. by split_and!; [| |cbn; congruence| |].
Qed.

Lemma described_fire a : described a → described (set_timer (set_inner None (set_running false (timer a))) a).
Proof.
  intros [D1 D2 D3 D4 D5]. split; cbn; [exact D1|exact D2|exact D3|done|].
  intros Hm. split; [by apply D5|done].
Qed.

Lemma timer_op_described op a : described a → op_valid op →
  op_panics a op = true ∧ (run_timer_op op a).1 = Panic ∨ keeps_described (run_timer_op op) a.
Proof.
  intros D Hv. destruct op as [v| |v h| |m| |r|v]; cbn [run_timer_op].
  - right. apply (wp_drop _ (λ _, described)); [done|].
    eapply wp_mono; [by apply wp_enable|by intros ?? []|]. by intros e a' [_ ->].
  - right. apply (wp_drop _ (λ _, described)); [done|].
    eapply wp_mono; [by apply wp_disable|by intros ?? []|]. by intros e a' [_ ->].
  - right. apply (wp_drop _ (λ _, described)); [done|]. unfold timer_register_interrupt_handler.
    apply wp_bind, wp_not_running; [done|]. intros _. apply wp_bind. unfold wp at 1, on_handlers.
    rewrite register_handler_eq by apply D. destruct (handler_at (handlers a) v); cbn.
    { apply described_handlers; [done|]. apply D. }
    assert (described (mkApic (registers a) (timer a) (<[handler_index v := Some h]> (handlers a)))) as D'
      by (apply described_handlers; [done|]; apply table_ok_insert, D).
    eapply wp_mono; [by apply wp_enable|by intros ?? []|]. by intros e a' [_ ->].
  - right. apply (wp_drop _ (λ _, described)); [done|]. destruct (is_running (timer a)) eqn:Hr.
    + unfold timer_unregister_interrupt_handler. apply wp_bind, wp_not_running; [done|congruence].
    + eapply wp_mono; [by apply wp_unregister|done|]. by intros e a' [].
  - destruct (op_panics a (OpStart m)) eqn:Hp; [left|right].
    + split; [done|]. destruct m; try done. cbn in Hp. apply negb_true_iff in Hp.
      unfold timer_start, not_running, mbind, M_bind, gets, lift. by rewrite Hp.
    + unfold keeps_described. eapply wp_mono; [by apply wp_start|by intros [] a' []|]. by intros e a' [_ ->].
  - right. unfold keeps_described. eapply wp_mono; [by apply (wp_stop a (λ _, described))| |done]. by intros [] a' [].
  - unfold keeps_described, timer_restart, wp. rewrite run_gets. cbn.
    destruct (mode (timer a)) as [|c|c|] eqn:Hm; [by left| | |by left]; right; cbn.
    all: destruct D as [D1 D2 D3 D4 D5]; split; [apply regs_write; (done || (cbn in Hv; lia))|done|..];
      intros; regs; [by apply D3| |congruence].
    all: destruct D4 as (v & c' & Hv' & Hc); [done|]; exists v, c'; split; [done|];
      destruct Hc as [[Hc [C1 C2 C3 C4]]|[Hc [C1 C2 C3 C4]]]; [left|right];
      (split; [done|]); split; regs; done.
  - cbn [op_panics]. destruct (bool_decide (Some v = interrupt_vector (timer a))) eqn:Hb; [right|left].
    + apply (wp_drop _ (λ _, described)); [done|]. unfold one_shot_interrupt_handler.
      apply wp_bind, wp_gets, wp_bind, wp_assert; [done|]. apply wp_bind, wp_modify.
      pose proof (described_fire a D) as D'. destruct (one_shot_inner_handler (timer a)) as [h|].
      * apply wp_bind. unfold wp, on_handlers. rewrite change_handler_eq by apply D'. cbn.
        apply (described_handlers _ _ D'). apply table_ok_insert, D'.
      * apply wp_bind. unfold wp, ignore_err, on_handlers. rewrite unregister_handler_eq by apply D'.
        destruct (handler_at _ v); cbn; apply (described_handlers _ _ D'), D'.
    + split; [done|]. unfold one_shot_interrupt_handler. rewrite !run_bind. cbn. by rewrite Hb.
Qed.

(** The duration of a timer that runs is the number of ticks that it was given. *)
Definition counted (a : Apic InterruptFn) : Prop :=
  ∀ c, is_running (timer a) = true → mode (timer a) = OneShot c ∨ mode (timer a) = Periodic c →
  registers a TimerInitialCount = duration c.
Definition is_restart (op : timer_op) : bool := match op with OpRestart _ => true | _ => false end.

Lemma counted_idle a : is_running (timer a) = false → counted a.
Proof. intros Hr c. by rewrite Hr. Qed.

Lemma wp_drop_counted {A} (m : M (Apic InterruptFn) TimerError A) (post : A → Apic InterruptFn → Prop) a :
  wp m (λ _, counted) post a → (∀ x a', post x a' → counted a') →
  wp (_ ← m; mret tt) (λ _, counted) (λ _, counted) a.
Proof. intros Hm Hp. apply wp_bind. eapply wp_mono; [exact Hm| |done]. intros x a' Hx. apply wp_ret. eauto. Qed.

Lemma timer_op_counted op a : described a → counted a → op_valid op → is_restart op = false → op_panics a op = false →
  wp (run_timer_op op) (λ _, counted) (λ _, counted) a.
Proof.
  intros D C Hv Hre Hp. destruct op as [v| |v h| |m| |r|v]; cbn [run_timer_op]; [..|done|].
  - eapply wp_drop_counted; [eapply wp_mono; [by apply wp_enable|done|]|]; [by intros e a' [_ ->]|].
    intros x a' (_ & _ & Hr & _). by apply counted_idle.
  - eapply wp_drop_counted; [eapply wp_mono; [by apply wp_disable|done|]|]; [by intros e a' [_ ->]|].
    intros x a' (_ & _ & Hr). by apply counted_idle.
  - eapply (wp_drop_counted _ (λ _, counted)); [|done]. unfold timer_register_interrupt_handler.
    apply wp_bind, wp_not_running; [done|]. intros Hr. apply wp_bind. unfold wp at 1, on_handlers.
    rewrite register_handler_eq by apply D. destruct (handler_at (handlers a) v); cbn; [done|].
    assert (described (mkApic (registers a) (timer a) (<[handler_index v := Some h]> (handlers a)))) as D'
      by (apply described_handlers; [done|]; apply table_ok_insert, D).
    eapply wp_mono; [by apply wp_enable| |by intros e a' [_ ->]]. intros x a' (_ & _ & Hr' & _). by apply counted_idle.
  - eapply (wp_drop_counted _ (λ _, counted)); [|done]. destruct (is_running (timer a)) eqn:Hr.
    + unfold timer_unregister_interrupt_handler. apply wp_bind, wp_not_running; [done|congruence].
    + unfold timer_unregister_interrupt_handler.
      apply wp_bind, wp_not_running; [by rewrite Hr|]. intros _. apply wp_bind.
      eapply wp_mono; [by apply wp_disable|cbn|cbn; intros e a' [_ ->]; done].
      intros o a' (D' & Hvec & Hr'). apply wp_bind, wp_gets. rewrite Hvec. by apply wp_bind, counted_idle.
  - eapply wp_mono; [by apply wp_start| |by intros e a' [_ ->]]. intros [] a' [_ Hm].
    destruct m as [|c|c|]; [by apply counted_idle| | |by apply counted_idle].
    all: destruct Hm as (Hc & _ & _ & _ & Hmode); intros c' _ Hc'; rewrite Hmode in Hc'; by destruct Hc' as [[= <-]|[= <-]].
  - eapply wp_mono; [by apply (wp_stop a (λ _, counted))| |done]. intros [] a' [D' Hm].
    by apply counted_idle, (de_stopped _ D').
  - eapply (wp_drop_counted _ (λ _, counted)); [|done]. unfold one_shot_interrupt_handler.
    apply wp_bind, wp_gets, wp_bind, wp_assert; [cbn in Hp; by apply negb_false_iff in Hp|]. apply wp_bind, wp_modify.
    pose proof (described_fire a D) as D'. destruct (one_shot_inner_handler (timer a)) as [h|].
    + apply wp_bind. unfold wp, on_handlers. rewrite change_handler_eq by apply D'. by apply counted_idle.
    + apply wp_bind. unfold wp, ignore_err, on_handlers. rewrite unregister_handler_eq by apply D'.
      destruct (handler_at _ v); by apply counted_idle.
Qed.

(** The state after some calls; an error does not end the sequence, a panic does. *)
Fixpoint run_timer_ops (ops : list timer_op) (a : Apic InterruptFn) : option (Apic InterruptFn) :=
  match ops with
  | [] => Some a
  | op :: ops =>
      match run_timer_op op a with
      | (Ok _, a) | (Err _, a) => run_timer_ops ops a
      | _ => None
      end
  end.

Lemma run_timer_ops_described ops a a' : described a → Forall op_valid ops →
  run_timer_ops ops a = Some a' → described a'.
Proof.
  intros D Hv. revert a D. induction Hv as [|op ops Hop _ IH]; intros a D; cbn; [by intros [= <-]|].
  destruct (timer_op_described op a D Hop) as [[_ Hp]|Hk].
  - by destruct (run_timer_op op a) as [[| | |] a1].
  - unfold keeps_described, wp in Hk. destruct (run_timer_op op a) as [[| | |] a1]; eauto; done.
Qed.

Lemma run_timer_ops_counted ops a a' : described a → counted a → Forall op_valid ops →
  Forall (λ op, is_restart op = false) ops → run_timer_ops ops a = Some a' → counted a'.
Proof.
  intros D C Hv Hre. revert a D C. induction Hv as [|op ops Hop _ IH]; intros a D C; cbn; [by intros [= <-]|].
  apply Forall_cons_1 in Hre as [Hre Hres]. destruct (timer_op_described op a D Hop) as [[_ Hp]|Hk].
  - by destruct (run_timer_op op a) as [[| | |] a1].
  - destruct (op_panics a op) eqn:Hp.
    { destruct op as [v| |v h| |m| |r|v]; try done; cbn [op_panics] in Hp; cbn [run_timer_op].
      - destruct m; try done. cbn [op_panics] in Hp. apply negb_true_iff in Hp.
        unfold timer_start, not_running, mbind, M_bind, gets, lift. by rewrite Hp.
      - apply negb_true_iff in Hp. unfold one_shot_interrupt_handler. rewrite !run_bind. cbn. by rewrite Hp. }
    pose proof (timer_op_counted op a D C Hop Hre Hp) as Hc. unfold keeps_described, wp in Hk, Hc.
    destruct (run_timer_op op a) as [[| | |] a1]; eauto; done.
Qed.

End timer.

(** A timer as [create_from_msr] leaves it *)
Definition fresh_apic : Apic nat :=
  mkApic (λ _, 0) (mkTimerData 1000 None Stopped false false None) handlers_new.

Lemma fresh_described : described fresh_apic.
Proof. split; done. Qed.

Definition demo_ops : list (timer_op (InterruptFn:=nat)) :=
  [OpEnable Nop; OpStart (OneShot (mkTimerConfig DivBy1 4294967294)); OpStop; OpDisable;
   OpEnable ContextSwitch].

Lemma fresh_counted : counted fresh_apic.
Proof. by apply counted_idle. Qed.


(** [restart] of a running timer with another count: the duration is the one before. *)
Lemma restart_keeps_duration :
  match run_timer_ops 1%nat [OpEnable Nop; OpStart (Periodic (mkTimerConfig DivBy1 1000)); OpRestart 7] fresh_apic with
  | Some a => mode (timer a) = Periodic (mkTimerConfig DivBy1 1000) ∧ registers a TimerInitialCount = 7
  | None => False
  end.
Proof. vm_compute. done. Qed.

(** ** Inter processor interrupts *)

Section ipi.
Context `{BF : BitField}.

Definition ipi_ok (i : Ipi) : Prop :=
  (∀ v, ipi_mode i = SIPI v → 0 ≤ v < 256) ∧ (∀ d, ipi_destination i = Target d → 0 ≤ d < 256).

(** The words are sums of their fields. *)
Lemma Ipi_encode_sum i : ipi_ok i →
  Ipi_encode i =
    ((mode_bits (ipi_mode i)).1 + (mode_bits (ipi_mode i)).2 * 2 ^ 8 + 2 ^ 14
     + (destination_bits (ipi_destination i)).2 * 2 ^ 18,
     match ipi_destination i with Target d => d * 2 ^ 24 | _ => 0 end).
Proof.
  intros [Hv Hd]. unfold Ipi_encode.
  assert (∀ a v b c k, Z.lor (Z.lor a b) c = k * 2 ^ 8 → 0 ≤ v < 256 →
    Z.lor (Z.lor (Z.lor a v) b) c = v + k * 2 ^ 8) as Hlor.
  { intros a v b c k Hk Hv'. rewrite <- (Z.lor_assoc a v b), (Z.lor_comm v b), (Z.lor_assoc a b v).
    rewrite <- (Z.lor_assoc _ v c), (Z.lor_comm v c), Z.lor_assoc, Hk, lor_low_bits; [lia|done..]. }
  destruct i as [m d]; cbn [ipi_mode ipi_destination mode_bits destination_bits fst snd] in *.
  assert (0 ≤ (mode_bits m).1 < 256) as Hb.
  { destruct m as [[]|[]| | | |v]; cbn; try lia. by apply Hv. }
  destruct (mode_bits m) as [v b] eqn:Hm. cbn [fst snd] in *.
  assert (0 ≤ b ≤ 6) as Hb' by (destruct m; injection Hm as <- <-; lia).
  assert (b = 0 ∨ b = 1 ∨ b = 2 ∨ b = 3 ∨ b = 4 ∨ b = 5 ∨ b = 6) as Hbs by lia.
  assert (∀ c, c = 0 ∨ c = 1 ∨ c = 2 ∨ c = 3 →
    Z.lor (Z.lor (Z.lor (Z.lor 0 (Z.shiftl 1 IPI_ASSERT_BIT)) v) (Z.shiftl b IPI_DELIVERY_MODE_BITS))
      (Z.shiftl c IPI_DEST_SHORT_BITS) = v + b * 2 ^ 8 + 2 ^ 14 + c * 2 ^ 18) as Hlow.
  { intros c Hc. rewrite (Hlor _ v _ _ (b + 64 + c * 1024)); [lia| |done].
    destruct Hbs as [->|[->|[->|[->|[->|[->| ->]]]]]], Hc as [->|[->|[->| ->]]]; reflexivity. }
  destruct d as [dest| | |]; cbn [destination_bits fst snd]; (rewrite Hlow; [|lia]); [|done..].
  by rewrite Z.shiftl_mul_pow2.
Qed.

(** The fields that the hardware reads: vector, mode, level, shorthand and target *)
Lemma Ipi_encode_fields i : ipi_ok i →
  let '(low, high) := Ipi_encode i in
  get_bits low 0 7 = (mode_bits (ipi_mode i)).1 ∧ get_bits low 8 10 = (mode_bits (ipi_mode i)).2 ∧
  get_bits low 12 12 = 0 ∧ get_bits low 14 14 = 1 ∧
  get_bits low 18 19 = (destination_bits (ipi_destination i)).2 ∧
  (∀ d, ipi_destination i = Target d → get_bits high 24 31 = d).
Proof.
  intros Hok. rewrite Ipi_encode_sum by done. destruct Hok as [Hv Hd]. cbv beta iota.
  rewrite (get_bits_spec _ 0 7), (get_bits_spec _ 8 10), (get_bits_spec _ 12 12),
    (get_bits_spec _ 14 14), (get_bits_spec _ 18 19) by lia.
  assert (0 ≤ (mode_bits (ipi_mode i)).1 < 256) as H1.
  { destruct (ipi_mode i) as [[]|[]| | | |v]; cbn; try lia. by apply Hv. }
  assert (0 ≤ (mode_bits (ipi_mode i)).2 < 8) as H2 by (destruct (ipi_mode i); cbn; lia).
  assert (0 ≤ (destination_bits (ipi_destination i)).2 < 4) as H3 by (destruct (ipi_destination i); cbn; lia).
  generalize dependent (mode_bits (ipi_mode i)). generalize dependent (destination_bits (ipi_destination i)).
  intros [d1 d2] Hd2 [v b] Hv1 Hb. cbn [fst snd] in *. split_and!; [..|intros d Hdest].
  1-5: Z.to_euclidean_division_equations; lia.
  rewrite Hdest, get_bits_spec by lia. specialize (Hd _ Hdest). Z.to_euclidean_division_equations; lia.
Qed.
End ipi.
