(* ===== verification/Tasks.v ===== *)
(** * [wasabi-kernel/src/task]: the task system of one core

    [task/mod.rs] and [task/stack_history.rs]: the tasks of a core, the queue of the
    interrupted ones, and the switches between them. The state of the processor that a
    switch saves and restores is a value here; the assembly that moves it is the subject
    of [ContextSwitch]. The lock of the task data is explicit, and so are the log calls,
    since the logger takes the same lock to print the name of the task. *)

From S2P Require Import Prelude Bits KernelMem RangeSet PageAlloc CoreLocals.
From stdpp Require Import strings.
Local Open Scope Z_scope.

(** ** The saved state of a processor *)

Record InterruptRegisterState := mkRegisters {
  rax : Z; rbx : Z; rcx : Z; rdx : Z; rsi : Z; rdi : Z; rbp : Z;
  r8 : Z; r9 : Z; r10 : Z; r11 : Z; r12 : Z; r13 : Z; r14 : Z; r15 : Z;
}.
Definition InterruptRegisterState_default : InterruptRegisterState :=
  mkRegisters 0 0 0 0 0 0 0 0 0 0 0 0 0 0 0.

Record InterruptStackFrame := mkFrame {
  instruction_pointer : Z;
  code_segment : Z;
  cpu_flags : Z;
  stack_pointer : Z;
  stack_segment : Z;
}.

(** The bits of [RFlags] *)
Definition INTERRUPT_FLAG : Z := 9.

(** [set] of [RFlags] *)
Definition set_flag (flags i : Z) (b : bool) : Z := if b then Z.setbit flags i else Z.clearbit flags i.

(** ** [stack_history.rs] *)

Record StackHistory := mkHistory {
  history : list (Pages * string);
  max_capacity : nat;
}.

Definition StackHistory_new : StackHistory := mkHistory [] 1000.

(** The loop pops at most as many entries as there are. *)
Fixpoint trim_loop (n : nat) (h : list (Pages * string)) (max : nat) : list (Pages * string) :=
  match n with
  | O => h
  | S n => if (max <? length h)%nat then trim_loop n (removelast h) max else h
  end.
Definition trim_to_max (self : StackHistory) : StackHistory :=
  mkHistory (trim_loop (length (history self)) (history self) (max_capacity self)) (max_capacity self).

Definition register_task (stack : Pages) (name : string) (self : StackHistory) : StackHistory :=
  trim_to_max (mkHistory ((stack, name) :: history self) (max_capacity self)).

Fixpoint find_stack `{Addresses} {E} (h : list (Pages * string)) (vaddr : Z) : result E (option (Pages * string)) :=
  match h with
  | [] => mret None
  | (stack, name) :: h =>
      b ← Pages_contains stack vaddr;
      if b : bool then mret (Some (stack, name)) else find_stack h vaddr
  end.
Definition StackHistory_find `{Addresses} {E} (self : StackHistory) (vaddr : Z)
    : result E (option (Pages * string)) := find_stack (history self) vaddr.

(** ** Tasks *)

Abbreviation TaskHandle := Z (only parsing).

Definition CPU_CORE_TASK_NAME : string := "cpu-core".

(** [VirtAddr::align_down] of the crate [x86_64] *)
Class AlignDown := {
  align_down : Z → Z → Z;
  align_down_spec addr k : 0 ≤ addr → 0 ≤ k → align_down addr (2 ^ k) = addr - addr mod 2 ^ k;
}.

Section tasks.
(** [InterruptFn]: handlers; [X]: the state that [xsave] stores; [F]: the functions
    of tasks; [Mem]: the memory of the kernel *)
Context {InterruptFn X F Mem : Type}.

Record TaskInterrupt := mkTaskInterrupt {
  stack_frame : InterruptStackFrame;
  ti_registers : InterruptRegisterState;
  xsave_area : option X;
}.

Record Task := mkTask {
  t_name : string;
  t_stack : option GuardedPages;
  last_interrupt : option TaskInterrupt;
}.

Record TaskDefinition := mkDefinition {
  td_task : F;
  td_name : string;
  stack_size : Z;
  stack_head_guard : bool;
  stack_tail_guard : bool;
}.

Record SystemData := mkSystemData {
  tasks : gmap TaskHandle Task;
  interrupted : list TaskHandle;
  terminated : list Task;
  stack_history : StackHistory;
}.

(** [data_locked] is the lock of [data]. *)
Record TaskSystem := mkTaskSystem {
  current_task : TaskHandle;
  running : bool;
  timer_running : bool;
  log_task_locked_data : bool;
  ts_is_init : bool;
  data : option SystemData;
  data_locked : bool;
}.

Definition TaskSystem_new : TaskSystem := mkTaskSystem 0 false false true false None false.

(** What runs on the processor: its registers and the state of [xsave] *)
Record Cpu := mkCpu {
  cpu_frame : InterruptStackFrame;
  cpu_registers : InterruptRegisterState;
  cpu_xsave : X;
}.

(** A core; [closures] is the part of the memory that holds the functions of tasks,
    [next_free_handle] is shared by all cores. *)
Record Core := mkCore {
  statics : CoreStatics;
  apic : Apic InterruptFn;
  system : TaskSystem;
  next_free_handle : Z;
  mem : Mem;
  closures : gmap Z F;
  cpu : Cpu;
}.

Definition set_statics (x : CoreStatics) (s : Core) : Core :=
  mkCore x (apic s) (system s) (next_free_handle s) (mem s) (closures s) (cpu s).
Definition set_apic (x : Apic InterruptFn) (s : Core) : Core :=
  mkCore (statics s) x (system s) (next_free_handle s) (mem s) (closures s) (cpu s).
Definition set_system (x : TaskSystem) (s : Core) : Core :=
  mkCore (statics s) (apic s) x (next_free_handle s) (mem s) (closures s) (cpu s).
Definition set_next (x : Z) (s : Core) : Core :=
  mkCore (statics s) (apic s) (system s) x (mem s) (closures s) (cpu s).
Definition set_mem (x : Mem) (s : Core) : Core :=
  mkCore (statics s) (apic s) (system s) (next_free_handle s) x (closures s) (cpu s).
Definition set_closures (x : gmap Z F) (s : Core) : Core :=
  mkCore (statics s) (apic s) (system s) (next_free_handle s) (mem s) x (cpu s).
Definition set_cpu (x : Cpu) (s : Core) : Core :=
  mkCore (statics s) (apic s) (system s) (next_free_handle s) (mem s) (closures s) x.

Definition with_current (h : Z) (t : TaskSystem) : TaskSystem :=
  mkTaskSystem h (running t) (timer_running t) (log_task_locked_data t) (ts_is_init t) (data t) (data_locked t).
Definition with_running (b : bool) (t : TaskSystem) : TaskSystem :=
  mkTaskSystem (current_task t) b (timer_running t) (log_task_locked_data t) (ts_is_init t) (data t) (data_locked t).
Definition with_timer_running (b : bool) (t : TaskSystem) : TaskSystem :=
  mkTaskSystem (current_task t) (running t) b (log_task_locked_data t) (ts_is_init t) (data t) (data_locked t).
Definition with_log (b : bool) (t : TaskSystem) : TaskSystem :=
  mkTaskSystem (current_task t) (running t) (timer_running t) b (ts_is_init t) (data t) (data_locked t).
Definition with_init (b : bool) (t : TaskSystem) : TaskSystem :=
  mkTaskSystem (current_task t) (running t) (timer_running t) (log_task_locked_data t) b (data t) (data_locked t).
Definition with_data (d : option SystemData) (t : TaskSystem) : TaskSystem :=
  mkTaskSystem (current_task t) (running t) (timer_running t) (log_task_locked_data t) (ts_is_init t) d (data_locked t).
Definition with_locked (b : bool) (t : TaskSystem) : TaskSystem :=
  mkTaskSystem (current_task t) (running t) (timer_running t) (log_task_locked_data t) (ts_is_init t) (data t) b.

Section calls.
Context {E : Type}.
Local Abbreviation M := (M Core E).

Definition modify_statics (f : CoreStatics → CoreStatics) : M unit :=
  modify (λ s, set_statics (f (statics s)) s).
Definition modify_system (f : TaskSystem → TaskSystem) : M unit :=
  modify (λ s, set_system (f (system s)) s).

(** Guards that are dropped when the code returns, also with an error *)
Definition finally {A} (m : M A) (fin : M unit) : M A := λ s,
  match m s with
  | (Ok a, s) => (_ ← fin; mret a) s
  | (Err e, s) => (_ ← fin; lift (Err e)) s
  | (Panic, s) => (Panic, s)
  | (Hang, s) => (Hang, s)
  end.

(** A call on the part of the core behind another lock, which turns interrupts off *)
Definition locked_part {A} (m : M A) : M A :=
  _ ← modify_statics (enter_lock true);
  finally m (modify_statics (exit_lock true)).

(** [self.data.lock()] and the drop of its guard; a lock that is held is never released
    by the code that waits for it. *)
Definition lock_data : M SystemData :=
  _ ← modify_statics (enter_lock true);
  t ← gets system;
  if data_locked t then lift Hang
  else
    _ ← modify_system (with_locked true);
    lift (expect (data t)).
Definition unlock_data : M unit :=
  _ ← modify_system (with_locked false);
  modify_statics (exit_lock true).
Definition write_data (d : SystemData) : M unit := modify_system (with_data (Some d)).

(** A log call prints the name of the current task when the task system says so. *)
Definition log : M unit :=
  t ← gets system;
  if ts_is_init t && log_task_locked_data t then
    _ ← lock_data;
    unlock_data
  else mret tt.

(** ** [InternalGuard] *)

Record InternalGuard := mkGuard { int_count_guard : bool; int_disable_guard : bool }.

Definition interrupt_enter : M InternalGuard :=
  _ ← modify_system (with_log false);
  _ ← modify_statics inc_interrupt;
  mret (mkGuard true false).
Definition non_interrupt_enter : M InternalGuard :=
  _ ← modify_system (with_log false);
  _ ← modify_statics disable_interrupts_guardless;
  mret (mkGuard false true).
Definition keep_ints_disabled (self : InternalGuard) : M InternalGuard :=
  if int_disable_guard self then
    _ ← modify_statics decrement_interrupt_disable_count;
    mret (mkGuard (int_count_guard self) false)
  else mret self.
(** [Drop] of the guard, then of its fields *)
Definition drop_guard (self : InternalGuard) : M unit :=
  _ ← modify_system (with_log true);
  _ ← (if int_count_guard self then modify_statics drop_interrupt else mret tt);
  if int_disable_guard self then modify_statics enable_interrupts else mret tt.

(** ** [TaskInterrupt::resume] *)

(** [xrstor], the guard, [cli], and [iretq], which loads the flags *)
Definition resume (self : TaskInterrupt) (int_guard : InternalGuard) : M unit :=
  c ← gets cpu;
  int_guard ← keep_ints_disabled int_guard;
  _ ← drop_guard int_guard;
  _ ← modify_statics (set_interrupt_flag false);
  _ ← modify (set_cpu (mkCpu (stack_frame self) (ti_registers self)
                         (default (cpu_xsave c) (xsave_area self))));
  modify_statics (set_interrupt_flag (Z.testbit (cpu_flags (stack_frame self)) INTERRUPT_FLAG)).

(** ** [TaskSystem] *)

(** [TaskHandle::take_next] *)
Definition take_next : M TaskHandle :=
  n ← gets next_free_handle;
  _ ← modify (set_next (fetch_add_u64 n 1));
  mret n.

(** [init], after [setup_xsave]; [stack] is the stack of the core. *)
Definition TaskSystem_init (stack : Pages) : M unit :=
  current_task ← take_next;
  let tasks := <[current_task := mkTask CPU_CORE_TASK_NAME None None]> ∅ in
  let system_data := mkSystemData tasks [] [] (register_task stack CPU_CORE_TASK_NAME StackHistory_new) in
  _ ← write_data system_data;
  _ ← modify_system (with_current current_task);
  modify_system (with_init true).

Definition TaskSystem_is_running : M bool := gets (λ s, running (system s)).

Definition get_task_info (handle : TaskHandle) : M (option string) :=
  data ← lock_data;
  let r := t_name <$> tasks data !! handle in
  _ ← unlock_data;
  mret r.
Definition get_task_count : M nat :=
  data ← lock_data;
  _ ← unlock_data;
  mret (size (tasks data)).

(** [resume_task], with the data lock held *)
Definition resume_task (data : SystemData) (next_task_handle : TaskHandle) (int_guard : InternalGuard)
    : M unit :=
  next_task ← lift (expect (tasks data !! next_task_handle));
  next_task_interrupt ← lift (expect (last_interrupt next_task));
  let next_task := mkTask (t_name next_task) (t_stack next_task) None in
  _ ← write_data (mkSystemData (<[next_task_handle := next_task]> (tasks data))
                    (interrupted data) (terminated data) (stack_history data));
  _ ← modify_system (with_current next_task_handle);
  _ ← unlock_data;
  resume next_task_interrupt int_guard.
End calls.

Section timer.
Context `{BitField} (one_shot : InterruptFn).
Local Abbreviation M := (M Core TimerError).

Definition on_apic {A} (m : Prelude.M (Apic InterruptFn) TimerError A) : M A := λ s,
  let '(r, a) := m (apic s) in (r, set_apic a s).

Definition start_timer_locked : M (option InterruptVector) :=
  t ← gets (λ s, timer (apic s));
  timer_running ← gets (λ s, timer_running (system s));
  if is_running t then
    _ ← lift (assert_ timer_running);
    _ ← log;
    lift (Err TimerRunning)
  else
    _ ← lift (assert_ (negb timer_running));
    old_vec ← on_apic (enable_interrupt_hander ContextSwitch);
    let old_vec := match old_vec with
                   | Some v => if decide (v = ContextSwitch) then None else Some v
                   | None => None
                   end in
    cycles ← lift (mul_u64 (mhz t) 1000000);
    let cycles := cycles / 1000 in
    timer_cycles ← lift (_ ← assert_ (cycles <=? u32_max);
                         _ ← assert_ (cycles * 100 <=? u32_max);
                         mret (cycles * 100));
    _ ← modify_system (with_timer_running true);
    _ ← on_apic (timer_start one_shot (Periodic (mkTimerConfig DivBy1 timer_cycles)));
    _ ← log;
    mret old_vec.

Definition start_timer : M (option InterruptVector) := locked_part start_timer_locked.

Definition stop_timer : M unit :=
  locked_part (
    t ← gets (λ s, timer (apic s));
    _ ← lift (assert_ (bool_decide (interrupt_vector t = Some ContextSwitch)));
    _ ← modify_system (with_timer_running false);
    _ ← on_apic timer_stop;
    log).

(** [start] *)
Definition TaskSystem_start : M (option InterruptVector) :=
  r ← TaskSystem_is_running;
  if r : bool then
    _ ← log;
    mret None
  else
    _ ← log;
    guard ← non_interrupt_enter;
    _ ← modify_system (with_running true);
    _ ← lock_data;
    finally start_timer (_ ← unlock_data; drop_guard guard).

(** [pause] *)
Definition TaskSystem_pause : M unit :=
  r ← TaskSystem_is_running;
  if negb r then log
  else
    _ ← log;
    guard ← non_interrupt_enter;
    _ ← modify_system (with_running false);
    _ ← lock_data;
    _ ← stop_timer;
    _ ← unlock_data;
    drop_guard guard.
(** [.expect(..)] of a call *)
Definition expect_call {E A} (m : M A) : Prelude.M Core E A := λ s,
  match m s with
  | (Ok a, s) => (Ok a, s)
  | (Err _, s) | (Panic, s) => (Panic, s)
  | (Hang, s) => (Hang, s)
  end.

(** [panic_stop], with the locks of the APIC and of the data shattered *)
Definition panic_stop {E} : Prelude.M Core E unit :=
  _ ← expect_call (on_apic timer_stop);
  _ ← modify_system (with_running false);
  _ ← modify_system (with_timer_running false);
  modify_system (with_locked false).

(** ** Ending and switching tasks *)

Definition is_none {A} (o : option A) : bool := match o with None => true | Some _ => false end.

(** What a function that does not return leaves behind *)
Inductive switched := Resumed | Halted.

Definition terminate_task {E} : Prelude.M Core E switched :=
  b ← gets (λ s, in_interrupt (statics s));
  _ ← lift (assert_ (negb b));
  int_guard ← non_interrupt_enter;
  data ← lock_data;
  current_handle ← gets (λ s, current_task (system s));
  current_task ← lift (expect (tasks data !! current_handle));
  _ ← write_data (mkSystemData (delete current_handle (tasks data)) (interrupted data)
                    (terminated data) (stack_history data));
  _ ← lift (assert_ (is_none (last_interrupt current_task)));
  _ ← log;
  let data := mkSystemData (delete current_handle (tasks data)) (interrupted data)
                (terminated data ++ [current_task]) (stack_history data) in
  _ ← write_data data;
  match interrupted data with
  | next_task_handle :: rest =>
      let data := mkSystemData (tasks data) rest (terminated data) (stack_history data) in
      _ ← write_data data;
      _ ← log;
      _ ← resume_task data next_task_handle int_guard;
      mret Resumed
  | [] =>
      _ ← log;
      t ← gets (λ s, timer_running (system s));
      _ ← (if t : bool then expect_call stop_timer else mret tt);
      _ ← unlock_data;
      _ ← drop_guard int_guard;
      mret Halted
  end.

Context `{Addresses}.

Definition verify_interrupt_frame {E} (frame : InterruptStackFrame) (task : Task) (data : SystemData)
    : Prelude.M Core E bool :=
  match t_stack task with
  | None => mret true
  | Some stack =>
      let stack_ptr := stack_pointer frame in
      b ← lift (Pages_contains (pages stack) stack_ptr);
      if b : bool then mret true
      else
        _ ← log;
        _ ← lift (StackHistory_find (stack_history data) stack_ptr);
        _ ← log;
        mret false
  end.

Definition task_interrupted {E} (interrupt : TaskInterrupt) (int_guard : InternalGuard)
    : Prelude.M Core E unit :=
  data ← lock_data;
  current_handle ← gets (λ s, current_task (system s));
  task ← lift (expect (tasks data !! current_handle));
  ok ← verify_interrupt_frame (stack_frame interrupt) task data;
  _ ← lift (assert_ ok);
  current_task ← lift (expect (tasks data !! current_handle));
  _ ← lift (assert_ (is_none (last_interrupt current_task)));
  let current_task := mkTask (t_name current_task) (t_stack current_task) (Some interrupt) in
  let queue := interrupted data ++ [current_handle] in
  let tasks := <[current_handle := current_task]> (tasks data) in
  next_task_handle ← lift (expect (head queue));
  let data := mkSystemData tasks (tail queue) (terminated data) (stack_history data) in
  _ ← write_data data;
  resume_task data next_task_handle int_guard.

(** [context_switch_handler]: what the assembly has saved is handed to [rust_handler]. *)
Definition context_switch_handler {E} : Prelude.M Core E unit :=
  c ← gets cpu;
  int_guard ← interrupt_enter;
  _ ← lift (assert_ (Z.testbit (cpu_flags (cpu_frame c)) INTERRUPT_FLAG));
  let interrupt := mkTaskInterrupt (cpu_frame c) (cpu_registers c) (Some (cpu_xsave c)) in
  task_interrupted interrupt int_guard.

(** ** Starting tasks *)

(** What the compiler and the linker decide: size, alignment and table of the functions of
    tasks, the address of [task_entry] and the code segment of the kernel *)
Class TaskAbi := {
  size_of : F → Z;
  align_of : F → Z;
  vtable_of : F → Z;
  task_entry_addr : Z;
  kernel_code_segment : Z;
}.
Context `{AlignDown} `{TaskAbi}.
(** [allocate_guarded_pages] and [GuardedPages::map] *)
Context (alloc_stack : Z → bool → bool → Prelude.M Mem MemError GuardedPages).

(** The flags of a new task *)
Definition launch_rflags (flags : Z) : Z :=
  let flags := set_flag flags INTERRUPT_FLAG true in
  let flags := set_flag flags 11 false in
  let flags := set_flag flags 7 false in
  let flags := set_flag flags 6 false in
  let flags := set_flag flags 4 false in
  let flags := set_flag flags 2 false in
  set_flag flags 0 false.

(** Where the function and the first stack frame of a task go *)
Definition launch_layout {E} (stack : Pages) (task : F) : result E (Z * Z) :=
  end_addr ← Pages_end_addr stack;
  let stack_end := align_down end_addr 16 in
  start ← sub_u64 stack_end (size_of task);
  start ← VirtAddr_new start;
  let task_def_start_addr := align_down start (align_of task) in
  let stack_end_minus_task := align_down task_def_start_addr 16 in
  mret (task_def_start_addr, stack_end_minus_task).

Definition on_mem {E A} (m : Prelude.M Mem E A) : Prelude.M Core E A := λ s,
  let '(r, x) := m (mem s) in (r, set_mem x s).

Definition launch_interrupt (flags thin meta sp : Z) : TaskInterrupt :=
  mkTaskInterrupt (mkFrame task_entry_addr kernel_code_segment (launch_rflags flags) sp 0)
    (mkRegisters 0 0 0 0 meta thin 0 0 0 0 0 0 0 0 0) None.

Definition launch_task (task_definition : TaskDefinition) : Prelude.M Core MemError TaskHandle :=
  stack ← on_mem (alloc_stack (pages_required_for Size4KiB (stack_size task_definition))
                    (stack_head_guard task_definition) (stack_tail_guard task_definition));
  flags ← gets (λ s, cpu_flags (cpu_frame (cpu s)));
  '(task_def_start_addr, stack_end_minus_task) ← lift (launch_layout (pages stack) (td_task task_definition));
  _ ← modify (λ s, set_closures (<[task_def_start_addr := td_task task_definition]> (closures s)) s);
  let launch_interrupt_fake := launch_interrupt flags task_def_start_addr
                                 (vtable_of (td_task task_definition)) stack_end_minus_task in
  let task := mkTask (td_name task_definition) (Some stack) (Some launch_interrupt_fake) in
  data ← lock_data;
  guard ← non_interrupt_enter;
  let history := register_task (pages stack) (td_name task_definition) (stack_history data) in
  new_handle ← take_next;
  _ ← lift (assert_ (is_none (tasks data !! new_handle)));
  _ ← log;
  _ ← write_data (mkSystemData (<[new_handle := task]> (tasks data)) (interrupted data ++ [new_handle])
                    (terminated data) history);
  t ← gets system;
  _ ← (if running t && negb (timer_running t) then
         old_vec ← expect_call start_timer;
         match old_vec with Some _ => log | None => mret tt end
       else mret tt);
  _ ← drop_guard guard;
  _ ← unlock_data;
  mret new_handle.

(** [task_entry]: the function that a new task calls *)
Definition task_entry {E} : Prelude.M Core E F :=
  s ← gets id;
  lift (expect (closures s !! rdi (cpu_registers (cpu s)))).
End timer.
End tasks.
Arguments Core : clear implicits.
Arguments TaskSystem : clear implicits.
Arguments SystemData : clear implicits.
Arguments Task : clear implicits.
Arguments TaskInterrupt : clear implicits.
Arguments TaskDefinition : clear implicits.
Arguments Cpu : clear implicits.
Arguments TaskAbi : clear implicits.
