(* ===== verification/TaskProofs.v ===== *)
(** * The task system is a round robin scheduler

    Seen from outside, the task system of a core is a queue: a tick of the timer puts the
    running task with the state of the processor at the end and continues the first
    one with the state it was interrupted in. The calls never panic and never wait for a
    lock, and every task of the queue runs again after as many switches as tasks are
    in front of it. *)

From S2P Require Import Prelude Bits KernelMem RangeSet PageAlloc PageAllocProofs CoreLocals CoreLocalsProofs Tasks.
From stdpp Require Import strings.
Local Open Scope Z_scope.

(** ** Stacks *)

(** A stack below the end of the lower half *)
Definition stack_low (ps : Pages) : Prop :=
  0 ≤ first_page ps ∧ 0 < page_count ps ∧ first_page ps + SIZE (page_size ps) * page_count ps < 2 ^ 47.

Lemma Pages_end_addr_low `{Addresses} {E} ps : stack_low ps →
  Pages_end_addr (E:=E) ps = Ok (first_page ps + SIZE (page_size ps) * page_count ps - 1).
Proof.
  intros (H0 & Hc & He). pose proof (SIZE_bounds (page_size ps)) as Hsz.
  assert (SIZE (page_size ps) ≤ SIZE (page_size ps) * page_count ps) by nia.
  unfold Pages_end_addr, Page_add, VirtAddr_add, mul_u64.
  rewrite (proj2 (Z.leb_le (page_count ps * SIZE (page_size ps)) u64_max)) by (unfold u64_max; lia). cbn.
  rewrite add_u64_ok by (unfold u64_max; lia). cbn. rewrite VirtAddr_new_ok by lia. cbn.
  rewrite (proj2 (Z.leb_le _ u64_max)) by (unfold u64_max; lia). cbn. rewrite sub_u64_ok by lia. cbn.
  rewrite VirtAddr_new_ok by lia. cbn. rewrite add_u64_ok by (unfold u64_max; lia). cbn.
  rewrite VirtAddr_new_ok by lia. f_equal. lia.
Qed.

Lemma Pages_contains_low `{Addresses} {E} ps a : stack_low ps →
  first_page ps ≤ a < first_page ps + SIZE (page_size ps) * page_count ps →
  Pages_contains (E:=E) ps a = Ok true.
Proof.
  intros Hl Ha. unfold Pages_contains, Pages_start_addr. rewrite Pages_end_addr_low by done. cbn.
  by rewrite (proj2 (Z.leb_le _ _)), (proj2 (Z.leb_le a _)) by lia.
Qed.

(** ** The history of stacks *)

Lemma trim_loop_spec n h max : (length h ≤ n)%nat → trim_loop n h max = take max h.
Proof.
  revert h. induction n as [|n IH]; intros h Hn; cbn [trim_loop].
  { destruct h; [by rewrite take_nil|cbn in Hn; lia]. }
  destruct (Nat.ltb_spec max (length h)) as [Hlt|Hge]; [|rewrite take_ge; [done|lia]].
  destruct h as [|x l _] using rev_ind; [cbn in Hlt; lia|]. rewrite length_app in *. cbn in *.
  rewrite removelast_last, IH by lia. rewrite take_app_le by lia. done.
Qed.

(** The history has the latest stacks, at most as many as its capacity. *)
Lemma register_task_history stack name h :
  history (register_task stack name h) = take (max_capacity h) ((stack, name) :: history h).
Proof. unfold register_task, trim_to_max. cbn [history max_capacity]. by apply trim_loop_spec. Qed.

(** [find] gives the latest stack with the address. *)
Lemma find_stack_spec `{Addresses} {E} h a : Forall (λ e, stack_low e.1) h →
  find_stack (E:=E) h a = Ok (List.find (λ e,
    (first_page e.1 <=? a) && (a <? first_page e.1 + SIZE (page_size e.1) * page_count e.1)) h).
Proof.
  induction 1 as [|[ps n] h Hl _ IH]; [done|]. cbn in Hl |- *.
  unfold Pages_contains, Pages_start_addr. rewrite Pages_end_addr_low by done. cbn.
  destruct (Z.leb_spec (first_page ps) a), (Z.ltb_spec a (first_page ps + SIZE (page_size ps) * page_count ps)),
    (Z.leb_spec a (first_page ps + SIZE (page_size ps) * page_count ps - 1)); cbn; (done || lia).
Qed.

Section tasks.
Context {InterruptFn X F Mem : Type}.
Local Abbreviation Core := (Core InterruptFn X F Mem).
Local Abbreviation TaskInterrupt := (TaskInterrupt X).
Local Abbreviation Task := (Task X).
Local Abbreviation Cpu := (Cpu X).
Context `{BF : BitField} (one_shot : InterruptFn) `{AD : Addresses}.
Implicit Types (s : Core) (ti : TaskInterrupt) (c : Cpu) (h : TaskHandle).

(** ** The scheduler *)

(** What an interrupt saves of the processor, and what is restored *)
Definition saved c : TaskInterrupt := mkTaskInterrupt (cpu_frame c) (cpu_registers c) (Some (cpu_xsave c)).
Definition restored ti c : Cpu :=
  mkCpu (stack_frame ti) (ti_registers ti) (default (cpu_xsave c) (xsave_area ti)).

(** The task that runs, the state of the processor, and the queue of the others *)
Record sched := mkSched {
  on_core : TaskHandle;
  on_cpu : Cpu;
  queue : list (TaskHandle * TaskInterrupt);
}.
Implicit Types (a : sched).

(** Interrupts can arrive. *)
Definition calm (x : CoreStatics) : Prop :=
  interrupt_count x = 0 ∧ interrupts_disable_count x = 0 ∧ interrupt_flag x = true.

(** The stack pointer lies in the stack of the task, and the task takes interrupts. *)
Definition frame_fits (t : Task) (f : InterruptStackFrame) : Prop :=
  Z.testbit (cpu_flags f) INTERRUPT_FLAG = true ∧
  ∀ g, t_stack t = Some g → stack_low (pages g) ∧
    first_page (pages g) ≤ stack_pointer f < first_page (pages g) + SIZE (page_size (pages g)) * page_count (pages g).

Record data_repr (d : SystemData X) (next : Z) a : Prop := {
  dr_queue : interrupted d = (queue a).*1;
  dr_nodup : NoDup (on_core a :: (queue a).*1);
  dr_current : ∃ t, tasks d !! on_core a = Some t ∧ last_interrupt t = None ∧ frame_fits t (cpu_frame (on_cpu a));
  dr_waiting h ti : (h, ti) ∈ queue a →
    ∃ t, tasks d !! h = Some t ∧ last_interrupt t = Some ti ∧ frame_fits t (stack_frame ti);
  dr_dom h : is_Some (tasks d !! h) ↔ h ∈ on_core a :: (queue a).*1;
  dr_next h : is_Some (tasks d !! h) → 0 ≤ h < next;
}.

(** The timer is on when the system runs; its rate is small enough for the interval. *)
Record timer_repr (ap : Apic InterruptFn) (t : TaskSystem X) : Prop := {
  tr_described : described ap;
  tr_running : is_running (timer ap) = running t;
  tr_flag : timer_running t = running t;
  tr_vector : running t = true → interrupt_vector (timer ap) = Some ContextSwitch;
  tr_rate : 0 ≤ mhz (timer ap) ≤ 42949;
}.

Record repr s a : Prop := {
  re_calm : calm (statics s);
  re_current : current_task (system s) = on_core a;
  re_cpu : cpu s = on_cpu a;
  re_init : ts_is_init (system s) = true;
  re_log : log_task_locked_data (system s) = true;
  re_lock : data_locked (system s) = false;
  re_data : ∃ d, data (system s) = Some d ∧ data_repr d (next_free_handle s) a;
  re_next : 0 ≤ next_free_handle s < u64_max;
  re_timer : timer_repr (apic s) (system s);
}.

(** ** Running the calls on a core whose fields are known *)

Section runs.
Context {E B : Type} (st : CoreStatics) (ap : Apic InterruptFn) (t : TaskSystem X) (nx : Z) (me : Mem)
  (cl : gmap Z F) (cp : Cpu).

Lemma run_statics f (k : () → M Core E B) :
  (modify_statics f ≫= k) (mkCore st ap t nx me cl cp) = k tt (mkCore (f st) ap t nx me cl cp).
Proof. done. Qed.
Lemma run_system f (k : () → M Core E B) :
  (modify_system f ≫= k) (mkCore st ap t nx me cl cp) = k tt (mkCore st ap (f t) nx me cl cp).
Proof. done. Qed.
Lemma run_write_data d (k : () → M Core E B) :
  (write_data d ≫= k) (mkCore st ap t nx me cl cp) = k tt (mkCore st ap (with_data (Some d) t) nx me cl cp).
Proof. done. Qed.
Lemma run_lock_data d (k : _ → M Core E B) : data t = Some d → data_locked t = false →
  (lock_data ≫= k) (mkCore st ap t nx me cl cp)
  = k d (mkCore (enter_lock true st) ap (with_locked true t) nx me cl cp).
Proof.
  intros Hd Hl. unfold lock_data. rewrite !run_bind. cbn. rewrite run_bind. cbn. rewrite Hl. cbn.
  rewrite run_bind. cbn. by rewrite Hd.
Qed.
Lemma run_unlock_data (k : () → M Core E B) :
  (unlock_data ≫= k) (mkCore st ap t nx me cl cp)
  = k tt (mkCore (exit_lock true st) ap (with_locked false t) nx me cl cp).
Proof. done. Qed.
Lemma run_interrupt_enter (k : _ → M Core E B) :
  (interrupt_enter ≫= k) (mkCore st ap t nx me cl cp)
  = k (mkGuard true false) (mkCore (inc_interrupt st) ap (with_log false t) nx me cl cp).
Proof. done. Qed.
Lemma run_non_interrupt_enter (k : _ → M Core E B) :
  (non_interrupt_enter ≫= k) (mkCore st ap t nx me cl cp)
  = k (mkGuard false true) (mkCore (disable_interrupts_guardless st) ap (with_log false t) nx me cl cp).
Proof. done. Qed.
Lemma run_drop_guard (k : () → M Core E B) :
  (drop_guard (mkGuard false true) ≫= k) (mkCore st ap t nx me cl cp)
  = k tt (mkCore (enable_interrupts st) ap (with_log true t) nx me cl cp).
Proof. done. Qed.
Lemma run_take_next (k : _ → M Core E B) :
  (take_next ≫= k) (mkCore st ap t nx me cl cp) = k nx (mkCore st ap t (fetch_add_u64 nx 1) me cl cp).
Proof. done. Qed.

(** A log call takes the lock only when it is free. *)
Lemma log_off : log_task_locked_data t = false →
  log (E:=E) (mkCore st ap t nx me cl cp) = (Ok tt, mkCore st ap t nx me cl cp).
Proof. intros Hl. unfold log. rewrite run_gets. cbn. by rewrite Hl, andb_false_r. Qed.
Lemma run_log_off (k : () → M Core E B) : log_task_locked_data t = false →
  (log ≫= k) (mkCore st ap t nx me cl cp) = k tt (mkCore st ap t nx me cl cp).
Proof. intros Hl. by rewrite run_bind, log_off. Qed.
Lemma log_free d : data t = Some d → data_locked t = false → calm st →
  log (E:=E) (mkCore st ap t nx me cl cp) = (Ok tt, mkCore st ap t nx me cl cp).
Proof.
  intros Hd Hl (H1 & H2 & H3). destruct st as [i e dc fl], t as [cur run trun lg ini dat lck]. cbn in *. subst.
  unfold log. rewrite run_gets. cbn. destruct (ini && lg); [|done]. rewrite run_bind; unfold lock_data; rewrite !run_bind; done.
Qed.
End runs.

Lemma run_lift_ok {E A B} (x : A) (k : A → M Core E B) s : (lift (Ok x) ≫= k) s = k x s.
Proof. done. Qed.

Ltac simp_core :=
  unfold set_statics, set_system, set_apic, set_cpu, set_next, set_mem, set_closures,
    with_log, with_data, with_locked, with_current, with_running, with_timer_running,
    enter_lock, exit_lock, inc_interrupt, drop_interrupt, disable_interrupts_guardless,
    decrement_interrupt_disable_count, enable_interrupts, set_interrupt_flag, set_disable_count,
    set_interrupt_count;
  cbn -[Z.testbit fetch_add_u64 fetch_sub_u64];
  repeat first [rewrite fetch_add_u64_ok by (unfold u64_max in *; lia) | rewrite fetch_sub_u64_ok by (unfold u64_max in *; lia)];
  cbn -[Z.testbit fetch_add_u64 fetch_sub_u64].
Ltac run_step := first
  [ rewrite run_gets | rewrite run_modify | rewrite run_ret | rewrite run_lift_ok
  | rewrite run_statics | rewrite run_system | rewrite run_write_data
  | rewrite run_interrupt_enter | rewrite run_non_interrupt_enter | rewrite run_take_next
  | rewrite run_unlock_data | rewrite run_drop_guard
  | erewrite run_lock_data by reflexivity | rewrite run_log_off by reflexivity ].
Ltac run_core := simp_core; repeat (run_step; simp_core).

(** Continuing a task, with the lock held *)
Lemma resume_task_eq {E} (d : SystemData X) n t ti g e st ap sy nx me cl cp :
  tasks d !! n = Some t → last_interrupt t = Some ti → Z.testbit (cpu_flags (stack_frame ti)) INTERRUPT_FLAG = true →
  (g = mkGuard true false ∧ st = mkStatics 1 e 1 false ∨ g = mkGuard false true ∧ st = mkStatics 0 e 2 false) →
  resume_task (E:=E) d n g (mkCore st ap sy nx me cl cp) =
    (Ok tt, mkCore (InterruptFn:=InterruptFn) (Mem:=Mem) (F:=F) (mkStatics 0 e 0 true) ap
      (mkTaskSystem n (running sy) (timer_running sy) true (ts_is_init sy)
         (Some (mkSystemData (<[n := mkTask (t_name t) (t_stack t) None]> (tasks d))
            (interrupted d) (terminated d) (stack_history d))) false) nx me cl (restored ti cp)).
Proof.
  intros Ht Hti Hf Hg. unfold resume_task.
  rewrite run_lift with (a := t) by by rewrite Ht. rewrite run_lift with (a := ti) by by rewrite Hti.
  run_core. unfold resume, keep_ints_disabled, drop_guard. run_core. unfold restored.
  destruct Hg as [[-> ->]|[-> ->]]; run_core; by rewrite Hf.
Qed.

(** ** Ticks *)

(** The processor turns interrupts off when it takes one. *)
Definition hw_interrupt s : Core := set_statics (set_interrupt_flag false (statics s)) s.

Definition spec_tick a : sched :=
  match queue a ++ [(on_core a, saved (on_cpu a))] with
  | (n, ti) :: q => mkSched n (restored ti (on_cpu a)) q
  | [] => a
  end.

Lemma verify_ok {E} f (t : Task) d s : frame_fits t f → verify_interrupt_frame (E:=E) f t d s = (Ok true, s).
Proof.
  intros [_ Hf]. unfold verify_interrupt_frame. destruct (t_stack t) as [g|]; [|done].
  destruct (Hf g eq_refl) as [Hl Hs]. rewrite run_lift with (a := true); [done|by apply Pages_contains_low].
Qed.

(** All tasks wait; the task that ran was put into the queue or has ended. *)
Record waiting_repr (d : SystemData X) (next : Z) (q : list (TaskHandle * TaskInterrupt)) : Prop := {
  wr_queue : interrupted d = q.*1;
  wr_nodup : NoDup q.*1;
  wr_waiting h ti : (h, ti) ∈ q →
    ∃ t, tasks d !! h = Some t ∧ last_interrupt t = Some ti ∧ frame_fits t (stack_frame ti);
  wr_dom h : is_Some (tasks d !! h) ↔ h ∈ q.*1;
  wr_next h : is_Some (tasks d !! h) → 0 ≤ h < next;
}.

Lemma in_handles (q : list (TaskHandle * TaskInterrupt)) h ti : (h, ti) ∈ q → h ∈ q.*1.
Proof. intros Hin. apply list_elem_of_fmap. by exists (h, ti). Qed.

Lemma task_insert_is_Some (m : gmap Z Task) h t h' :
  is_Some (<[h := t]> m !! h') ↔ h' = h ∨ is_Some (m !! h').
Proof.
  destruct (decide (h = h')) as [->|Hne].
  - rewrite lookup_insert_eq. naive_solver.
  - rewrite lookup_insert_ne by done. naive_solver.
Qed.

Lemma enqueue_current (d : SystemData X) nx a t :
  data_repr d nx a → tasks d !! on_core a = Some t →
  waiting_repr (mkSystemData (<[on_core a := mkTask (t_name t) (t_stack t) (Some (saved (on_cpu a)))]> (tasks d))
    (interrupted d ++ [on_core a]) (terminated d) (stack_history d)) nx
    (queue a ++ [(on_core a, saved (on_cpu a))]).
Proof.
  intros [Dq Dn (t' & Ht' & Htn & Hft) Dw Dd Dx] Ht. rewrite Ht in Ht'. injection Ht' as <-.
  apply NoDup_cons in Dn as [Dni Dn]. split; cbn.
  - by rewrite Dq, fmap_app.
  - rewrite fmap_app. apply NoDup_app. split_and!; [done| |apply NoDup_singleton].
    intros h Hh Hh'. cbn in Hh'. apply list_elem_of_singleton in Hh'. congruence.
  - intros h ti [Hin|Hin]%elem_of_app.
    + destruct (Dw h ti Hin) as (t1 & H1 & H2). exists t1. split; [|done].
      rewrite lookup_insert_ne; [done|]. intros Heq. apply Dni. rewrite Heq. by eapply in_handles.
    + apply list_elem_of_singleton in Hin. simplify_eq. rewrite lookup_insert_eq. by eexists.
  - intros h. rewrite task_insert_is_Some, Dd, fmap_app, elem_of_app. cbn.
    rewrite elem_of_cons, list_elem_of_singleton. naive_solver.
  - intros h [->|Hh]%task_insert_is_Some; [apply Dx; eauto|by apply Dx].
Qed.

Lemma remove_current (d : SystemData X) nx a term :
  data_repr d nx a →
  waiting_repr (mkSystemData (delete (on_core a) (tasks d)) (interrupted d) term (stack_history d)) nx (queue a).
Proof.
  intros [Dq Dn _ Dw Dd Dx]. apply NoDup_cons in Dn as [Dni Dn]. split; cbn; [done|done|..].
  - intros h ti Hin. destruct (Dw h ti Hin) as (t1 & H1 & H2). exists t1. split; [|done].
    rewrite lookup_delete_ne; [done|]. intros Heq. apply Dni. rewrite Heq. by eapply in_handles.
  - intros h. destruct (decide (on_core a = h)) as [<-|Hne].
    + rewrite lookup_delete_eq. split; [by intros []|done].
    + rewrite lookup_delete_ne, Dd, elem_of_cons by done. naive_solver.
  - intros h Hh. apply Dx. rewrite lookup_delete_is_Some in Hh. tauto.
Qed.

Lemma dequeue_next (d : SystemData X) nx n ti q c :
  waiting_repr d nx ((n, ti) :: q) →
  ∃ t, tasks d !! n = Some t ∧ last_interrupt t = Some ti ∧ frame_fits t (stack_frame ti) ∧
    interrupted d = n :: q.*1 ∧
    data_repr (mkSystemData (<[n := mkTask (t_name t) (t_stack t) None]> (tasks d)) q.*1
      (terminated d) (stack_history d)) nx (mkSched n (restored ti c) q).
Proof.
  intros [Dq Dn Dw Dd Dx]. cbn in *. destruct (Dw n ti) as (t & Ht & Hti & Hf); [by left|].
  exists t. split_and!; try done. pose proof Dn as [Dni Dn']%NoDup_cons. split; cbn; [done|done|..].
  - rewrite lookup_insert_eq. by eexists.
  - intros h ti' Hin. destruct (Dw h ti') as (t1 & H1 & H2); [by right|]. exists t1. split; [|done].
    rewrite lookup_insert_ne; [done|]. intros Heq. apply Dni. rewrite Heq. by eapply in_handles.
  - intros h. rewrite task_insert_is_Some, Dd, !elem_of_cons. naive_solver.
  - intros h [->|Hh]%task_insert_is_Some; [|by apply Dx]. apply Dx. eauto.
Qed.

Lemma tick_repr {E} s a : repr s a →
  ∃ s', context_switch_handler (E:=E) (hw_interrupt s) = (Ok tt, s') ∧ repr s' (spec_tick a).
Proof.
  intros [Hc Hcur Hcpu Hin Hlog Hlock (d & Hd & HD) Hnx [T1 T2 T3 T4 T5]].
  pose proof (dr_current _ _ _ HD) as (t & Ht & Htn & Hft).
  destruct s as [[i e dc fl] ap sy nx me cl cp]. destruct Hc as (?&?&?). cbn in *. subst i dc fl cp.
  destruct sy as [cur run trun lg ini dat lck]; cbn in *. subst cur ini lg lck dat trun.
  unfold hw_interrupt, set_statics, context_switch_handler. run_core. rewrite (proj1 Hft).
  unfold task_interrupted. run_core. rewrite Ht. run_core.
  rewrite run_bind, verify_ok by done. run_core. rewrite Htn. run_core.
  pose proof (enqueue_current d nx a t HD Ht) as HW. unfold spec_tick.
  destruct (queue a ++ [(on_core a, saved (on_cpu a))]) as [|[n ti] q] eqn:Hq; [by destruct (queue a)|].
  destruct (dequeue_next _ _ _ _ _ (on_cpu a) HW) as (t2 & Ht2 & Hti & Hf2 & Hint & HD2). cbn in *.
  rewrite Hint. run_core. unfold saved in *.
  erewrite resume_task_eq; [|exact Ht2|exact Hti|apply Hf2|left; split; reflexivity].
  eexists. split; [done|]. split; cbn; try done.
  eexists. split; [done|]. exact HD2.
Qed.

(** ** The timer *)

Definition stopped (ap : Apic InterruptFn) : Apic InterruptFn :=
  set_timer (set_running false (set_mode Stopped (timer ap))) (write TimerInitialCount 0 ap).

Lemma stopped_described ap : described ap → described (stopped ap).
Proof.
  intros D. pose proof (wp_stop ap (λ _ _, False) D) as Hs. unfold wp in Hs.
  change (timer_stop ap) with (Ok (E:=TimerError) tt, stopped ap) in Hs. apply Hs.
Qed.

Lemma stop_timer_eq st ap (t : TaskSystem X) nx (me : Mem) (cl : gmap Z F) (cp : Cpu) :
  interrupt_vector (timer ap) = Some ContextSwitch → log_task_locked_data t = false →
  stop_timer (mkCore st ap t nx me cl cp)
  = (Ok tt, mkCore (exit_lock true (enter_lock true st)) (stopped ap) (with_timer_running false t) nx me cl cp).
Proof.
  intros Hv Hl. unfold stop_timer, locked_part. rewrite run_statics. unfold finally.
  rewrite run_gets. cbn [apic]. rewrite Hv, bool_decide_true by done. cbn [assert_]. rewrite run_lift_ok, run_system, run_bind.
  change (on_apic timer_stop ?s) with (Ok (E:=TimerError) tt, set_apic (stopped (apic s)) s). cbn beta iota.
  unfold set_apic. cbn [apic statics system next_free_handle mem closures cpu].
  rewrite log_off by done. done.
Qed.

Lemma start_timer_eq st ap (t : TaskSystem X) nx (me : Mem) (cl : gmap Z F) (cp : Cpu) :
  described ap → is_running (timer ap) = false → timer_running t = false → 0 ≤ mhz (timer ap) ≤ 42949 →
  log_task_locked_data t = false →
  ∃ v ap', start_timer one_shot (mkCore st ap t nx me cl cp)
    = (Ok v, mkCore (exit_lock true (enter_lock true st)) ap' (with_timer_running true t) nx me cl cp) ∧
    described ap' ∧ is_running (timer ap') = true ∧ interrupt_vector (timer ap') = Some ContextSwitch ∧
    mhz (timer ap') = mhz (timer ap).
Proof.
  intros D Hr Ht Hm Hl. unfold start_timer, locked_part. rewrite run_statics. unfold finally, start_timer_locked.
  rewrite !run_gets. cbn [apic system]. rewrite Hr, Ht. cbn [negb assert_]. rewrite run_lift_ok, run_bind.
  unfold on_apic at 1. cbn [apic]. pose proof (wp_enable ContextSwitch ap D) as He. unfold wp in He.
  destruct (enable_interrupt_hander ContextSwitch ap) as [[old|e| |] ap1]; [|by destruct He; congruence|done..].
  destruct He as (D1 & Hv1 & Hr1 & Hm1). cbn beta iota. unfold set_apic.
  cbn [statics system next_free_handle mem closures cpu].
  unfold mul_u64. rewrite (proj2 (Z.leb_le (_ * _) u64_max)) by (unfold u64_max; lia). rewrite run_lift_ok.
  replace (mhz (timer ap) * 1000000 / 1000) with (mhz (timer ap) * 1000)
    by (apply Z.div_unique_exact; lia).
  rewrite !(proj2 (Z.leb_le _ u32_max)) by (unfold u32_max; lia). cbn [assert_ mbind result_bind].
  change (lift (mret ?x)) with (lift (S:=Core) (E:=TimerError) (Ok x)). rewrite run_lift_ok, run_system, run_bind. unfold on_apic. cbn [apic].
  pose proof (wp_start one_shot (Periodic (mkTimerConfig DivBy1 (mhz (timer ap) * 1000 * 100))) ap1 D1) as Hs.
  unfold wp in Hs. specialize (Hs ltac:(cbn; unfold u32_max; lia) eq_refl).
  destruct (timer_start one_shot _ ap1) as [[[]|e| |] ap2]; [|destruct Hs as [[?|?] _]; congruence|done..].
  destruct Hs as (D2 & _ & Hr2 & Hv2 & Hm2 & _). cbn beta iota. unfold set_apic.
  cbn [statics system next_free_handle mem closures cpu]. rewrite run_log_off by done.
  eexists _, ap2. split; [done|]. split_and!; [done|done|congruence|congruence].
Qed.

(** ** The end of a task *)

(** Nothing is left to run: the processor waits for interrupts. *)
Record halted s : Prop := {
  ha_calm : calm (statics s);
  ha_data : ∃ d, data (system s) = Some d ∧ interrupted d = [] ∧ ∀ h, tasks d !! h = None;
  ha_lock : data_locked (system s) = false;
  ha_init : ts_is_init (system s) = true ∧ log_task_locked_data (system s) = true;
  ha_timer : described (apic s) ∧ is_running (timer (apic s)) = false ∧ timer_running (system s) = false ∧
    0 ≤ mhz (timer (apic s)) ≤ 42949;
}.

Lemma terminate_repr {E} s a : repr s a →
  ∃ s', match queue a with
        | (n, ti) :: q =>
            terminate_task (E:=E) s = (Ok Resumed, s') ∧ repr s' (mkSched n (restored ti (on_cpu a)) q)
        | [] => terminate_task (E:=E) s = (Ok Halted, s') ∧ halted s'
        end.
Proof.
  intros [Hc Hcur Hcpu Hin Hlog Hlock (d & Hd & HD) Hnx [T1 T2 T3 T4 T5]].
  pose proof (dr_current _ _ _ HD) as (t & Ht & Htn & Hft).
  destruct s as [[i e dc fl] ap sy nx me cl cp]. destruct Hc as (?&?&?). cbn in *. subst i dc fl cp.
  destruct sy as [cur run trun lg ini dat lck]; cbn in *. subst cur ini lg lck dat trun.
  unfold terminate_task. run_core. rewrite Ht. run_core. rewrite Htn. run_core.
  pose proof (remove_current d nx a (terminated d ++ [t]) HD) as HW.
  pose proof (dr_queue _ _ _ HD) as Hq. destruct (queue a) as [|[n ti] q] eqn:Hqa; cbn in Hq.
  - rewrite Hq in *. run_core. destruct run; cbn; eexists.
    + rewrite run_bind. unfold expect_call. rewrite stop_timer_eq by auto. run_core. split; [done|].
      split; cbn; try done.
      * eexists. split; [done|]. split; [done|]. intros h. pose proof (wr_dom _ _ _ HW h) as Hdom. cbn in Hdom.
        apply eq_None_not_Some. rewrite Hdom. apply not_elem_of_nil.
      * split; [by apply stopped_described|]. done.
    + run_core. split; [done|]. split; cbn; try done.
      eexists. split; [done|]. split; [done|]. intros h. pose proof (wr_dom _ _ _ HW h) as Hdom. cbn in Hdom.
      apply eq_None_not_Some. rewrite Hdom. apply not_elem_of_nil.
  - rewrite Hq. run_core. destruct (dequeue_next _ _ _ _ _ (on_cpu a) HW) as (t2 & Ht2 & Hti & Hf2 & Hint & HD2).
    cbn in *. rewrite run_bind.
    erewrite resume_task_eq; [|exact Ht2|exact Hti|apply Hf2|right; split; reflexivity]. cbn beta iota.
    eexists. split; [done|]. split; cbn; try done. eexists. split; [done|]. exact HD2.
Qed.

(** ** Starting and pausing *)

Lemma run_log_free {E B} st ap (t : TaskSystem X) nx (me : Mem) (cl : gmap Z F) (cp : Cpu) d (k : () → M Core E B) :
  data t = Some d → data_locked t = false → calm st →
  (log ≫= k) (mkCore st ap t nx me cl cp) = k tt (mkCore st ap t nx me cl cp).
Proof. intros Hd Hl Hc. by rewrite run_bind, (log_free st ap t nx me cl cp d). Qed.

Lemma start_repr s a : repr s a →
  ∃ v s', TaskSystem_start one_shot s = (Ok v, s') ∧ repr s' a ∧ running (system s') = true ∧
    next_free_handle s' = next_free_handle s ∧ mem s' = mem s.
Proof.
  intros [Hc Hcur Hcpu Hin Hlog Hlock (d & Hd & HD) Hnx [T1 T2 T3 T4 T5]].
  destruct s as [[i e dc fl] ap sy nx me cl cp]. destruct Hc as (?&?&?). cbn in *. subst i dc fl cp.
  destruct sy as [cur run trun lg ini dat lck]; cbn in *. subst cur ini lg lck dat trun.
  unfold TaskSystem_start, TaskSystem_is_running. run_core. destruct run.
  - erewrite run_log_free by done. eexists None, _. split; [done|]. split; [|done]. by split; cbn; eauto.
  - erewrite run_log_free by done. run_core. unfold finally.
    edestruct (start_timer_eq (mkStatics 0 e 2 false) ap) as (v & ap' & Heq & D' & Hr & Hv & Hm); [..|rewrite Heq];
      [done|done| |done| |]; [done..|].
    run_core. eexists v, _. split; [done|]. split; [|done]. split; cbn; try done; [by eauto|].
    split; cbn; [done..|congruence].
Qed.

Lemma pause_repr s a : repr s a →
  ∃ s', TaskSystem_pause s = (Ok tt, s') ∧ repr s' a ∧ running (system s') = false ∧
    next_free_handle s' = next_free_handle s ∧ mem s' = mem s.
Proof.
  intros [Hc Hcur Hcpu Hin Hlog Hlock (d & Hd & HD) Hnx [T1 T2 T3 T4 T5]].
  destruct s as [[i e dc fl] ap sy nx me cl cp]. destruct Hc as (?&?&?). cbn in *. subst i dc fl cp.
  destruct sy as [cur run trun lg ini dat lck]; cbn in *. subst cur ini lg lck dat trun.
  unfold TaskSystem_pause, TaskSystem_is_running. run_core. destruct run; cbn.
  - erewrite run_log_free by done. run_core. rewrite run_bind, stop_timer_eq by auto. run_core.
    eexists. split; [done|]. split; [|done]. split; cbn; try done; [by eauto|].
    split; cbn; [by apply stopped_described|done|done|done|done].
  - erewrite log_free by done. eexists. split; [done|]. split; [|done]. by split; cbn; eauto.
Qed.

(** ** New tasks *)

Context `{ALD : AlignDown} `{ABI : TaskAbi F}
  (alloc_stack : Z → bool → bool → M Mem MemError GuardedPages).

Lemma align_down_bounds addr k : 0 ≤ addr → 0 ≤ k →
  0 ≤ align_down addr (2 ^ k) ∧ addr - 2 ^ k < align_down addr (2 ^ k) ≤ addr ∧ align_down addr (2 ^ k) mod 2 ^ k = 0.
Proof.
  intros Ha Hk. rewrite align_down_spec by done. assert (0 < 2 ^ k) as Hp by (apply Z.pow_pos_nonneg; lia).
  pose proof (Z.mod_pos_bound addr (2 ^ k) Hp). pose proof (Z.mod_le addr (2 ^ k) Ha Hp).
  split; [lia|]. split; [lia|]. rewrite Zminus_mod_idemp_r, Z.sub_diag. done.
Qed.

(** The function of a task fits into its stack. *)
Definition closure_fits (ps : Pages) (task : F) : Prop :=
  stack_low ps ∧ 0 ≤ size_of task ∧ (∃ k, 0 ≤ k ∧ align_of task = 2 ^ k) ∧
  size_of task + align_of task + 32 ≤ SIZE (page_size ps) * page_count ps.

(** The function lies in the stack, and the first frame lies below it. *)
Lemma launch_layout_ok {E} ps task : closure_fits ps task →
  ∃ start sp, launch_layout (E:=E) ps task = Ok (start, sp) ∧
    first_page ps ≤ sp ≤ start ∧ start + size_of task < first_page ps + SIZE (page_size ps) * page_count ps ∧
    start mod align_of task = 0 ∧ sp mod 16 = 0.
Proof.
  intros (Hl & Hs & (k & Hk & Hal) & Hfit). pose proof Hl as (H0 & Hc & He).
  set (e := first_page ps + SIZE (page_size ps) * page_count ps) in *.
  assert (0 < 2 ^ k) by (apply Z.pow_pos_nonneg; lia).
  destruct (align_down_bounds (e - 1) 4) as (A1 & A2 & _); [lia..|]. change (2 ^ 4) with 16 in *.
  unfold launch_layout. rewrite Pages_end_addr_low by done. fold e. cbn [mbind result_bind].
  rewrite sub_u64_ok by lia. cbn [mbind result_bind]. rewrite VirtAddr_new_ok by lia. cbn [mbind result_bind].
  rewrite Hal in *. destruct (align_down_bounds (align_down (e - 1) 16 - size_of task) k) as (B1 & B2 & B3); [lia..|].
  set (st := align_down (align_down (e - 1) 16 - size_of task) (2 ^ k)) in *.
  destruct (align_down_bounds st 4) as (C1 & C2 & C3); [lia..|]. change (2 ^ 4) with 16 in *.
  exists st, (align_down st 16). split; [done|]. split_and!; [lia..|done|done].
Qed.

Lemma launch_rflags_interrupt flags : Z.testbit (launch_rflags flags) INTERRUPT_FLAG = true.
Proof.
  unfold launch_rflags, set_flag, INTERRUPT_FLAG. rewrite !Z.clearbit_neq by lia. apply Z.setbit_eq. lia.
Qed.

Definition asked_stack (def : TaskDefinition F) : M Mem MemError GuardedPages :=
  alloc_stack (pages_required_for Size4KiB (stack_size def)) (stack_head_guard def) (stack_tail_guard def).

Lemma launch_fails s def e m' : asked_stack def (mem s) = (Err e, m') →
  launch_task one_shot alloc_stack def s = (Err e, set_mem m' s).
Proof. intros Ha. unfold launch_task, asked_stack in *. rewrite run_bind. unfold on_mem. by rewrite Ha. Qed.

Lemma add_task (d : SystemData X) nx a t ti hist :
  data_repr d nx a → 0 ≤ nx → last_interrupt t = Some ti → frame_fits t (stack_frame ti) →
  tasks d !! nx = None ∧
  data_repr (mkSystemData (<[nx := t]> (tasks d)) (interrupted d ++ [nx]) (terminated d) hist) (nx + 1)
    (mkSched (on_core a) (on_cpu a) (queue a ++ [(nx, ti)])).
Proof.
  intros [Dq Dn (tc & Htc & Hc) Dw Dd Dx] Hnx Hti Hf. assert (tasks d !! nx = None) as Hn.
  { apply eq_None_not_Some. intros Hs%Dx. lia. }
  split; [done|]. assert (nx ∉ on_core a :: (queue a).*1) as Hni.
  { rewrite <- Dd, Hn. by intros []. }
  split; cbn.
  - by rewrite Dq, fmap_app.
  - rewrite fmap_app. change (?x :: ?l ++ ?l') with ((x :: l) ++ l'). apply NoDup_app.
    split_and!; [done| |apply NoDup_singleton]. intros h Hh Hh'. apply list_elem_of_singleton in Hh'. by subst.
  - exists tc. split; [|done]. rewrite lookup_insert_ne; [done|]. congruence.
  - intros h ti' [Hin|Hin]%elem_of_app.
    + destruct (Dw h ti' Hin) as (t1 & H1 & H2). exists t1. split; [|done].
      rewrite lookup_insert_ne; [done|]. congruence.
    + apply list_elem_of_singleton in Hin. simplify_eq. rewrite lookup_insert_eq. by eexists.
  - intros h. rewrite task_insert_is_Some, Dd, fmap_app, !elem_of_cons, elem_of_app. cbn.
    rewrite list_elem_of_singleton. tauto.
  - intros h [->|Hh]%task_insert_is_Some; [lia|]. specialize (Dx _ Hh). lia.
Qed.

Lemma launch_repr s a def g m' : repr s a → next_free_handle s + 1 < u64_max →
  asked_stack def (mem s) = (Ok g, m') → closure_fits (pages g) (td_task def) →
  ∃ s' start sp, launch_task one_shot alloc_stack def s = (Ok (next_free_handle s), s') ∧
    next_free_handle s' = next_free_handle s + 1 ∧ mem s' = m' ∧ closures s' !! start = Some (td_task def) ∧
    repr s' (mkSched (on_core a) (on_cpu a) (queue a ++
      [(next_free_handle s, launch_interrupt (cpu_flags (cpu_frame (on_cpu a))) start (vtable_of (td_task def)) sp)])).
Proof.
  intros [Hc Hcur Hcpu Hin Hlog Hlock (d & Hd & HD) Hnx [T1 T2 T3 T4 T5]] Hmax Ha Hfit.
  destruct s as [[i e dc fl] ap sy nx me cl cp]. destruct Hc as (?&?&?). cbn in *. subst i dc fl cp.
  destruct sy as [cur run trun lg ini dat lck]; cbn in *. subst cur ini lg lck dat trun.
  destruct (launch_layout_ok (E:=MemError) (pages g) (td_task def) Hfit) as (start & sp & Hlay & Hb1 & Hb2 & _).
  unfold launch_task, asked_stack in *. rewrite run_bind. unfold on_mem. cbn [mem]. rewrite Ha. cbn beta iota.
  run_core. rewrite Hlay. run_core.
  set (ti := launch_interrupt (cpu_flags (cpu_frame (on_cpu a))) start (vtable_of (td_task def)) sp) in *.
  destruct (add_task d nx a (mkTask (td_name def) (Some g) (Some ti)) ti
    (register_task (pages g) (td_name def) (stack_history d)) HD) as [Hnone HD']; [lia|done| |].
  { split; [apply launch_rflags_interrupt|]. intros g' [= <-]. pose proof Hfit as (? & ? & _).
    split; [done|]. cbn. lia. }
  rewrite Hnone. run_core. rewrite andb_negb_r. run_core.
  eexists _, start, sp. split; [done|]. split; [done|]. split; [done|]. split; [apply lookup_insert_eq|].
  split; cbn; try done; [|lia]. eexists. split; [done|]. exact HD'.
Qed.

(** ** Everything that happens on a core *)

(** A tick of the timer, the calls of the running task, the code it computes with (which
    leaves the processor in the state [c]), and a handle taken by another core *)
Inductive event :=
  | Tick
  | Launch (def : TaskDefinition F)
  | Terminate
  | Start
  | Pause
  | Compute (c : Cpu)
  | OtherCore.

Definition timer_on s : bool := interrupt_flag (statics s) && is_running (timer (apic s)).

Definition run_event (ev : event) : M Core MemError switched :=
  match ev with
  | Tick => λ s, if timer_on s then (_ ← context_switch_handler; mret Resumed) (hw_interrupt s) else (Ok Resumed, s)
  | Launch def => _ ← launch_task one_shot alloc_stack def; mret Resumed
  | Terminate => terminate_task
  | Start => _ ← expect_call (TaskSystem_start one_shot); mret Resumed
  | Pause => _ ← expect_call TaskSystem_pause; mret Resumed
  | Compute c => _ ← modify (set_cpu c); mret Resumed
  | OtherCore => _ ← take_next; mret Resumed
  end.

(** The task stays on its stack and computes with interrupts on, a stack has room for
    the function of its task, and there are less than [2^64] tasks. *)
Definition allowed (ev : event) s : Prop :=
  match ev with
  | Compute c => ∀ d t, data (system s) = Some d → tasks d !! current_task (system s) = Some t →
      frame_fits t (cpu_frame c)
  | Launch def => next_free_handle s + 1 < u64_max ∧
      match asked_stack def (mem s) with
      | (Ok g, _) => closure_fits (pages g) (td_task def)
      | (Err _, _) => True
      | _ => False
      end
  | OtherCore => next_free_handle s + 1 < u64_max
  | _ => True
  end.

Definition is_switch (ev : event) s : nat :=
  match ev with Tick => if timer_on s then 1 else 0 | Terminate => 1 | _ => 0 end.

(** A run with its number of switches, as long as a task is left *)
Inductive exec : Core → list event → nat → Core → Prop :=
  | exec_nil s : exec s [] 0 s
  | exec_cons s ev evs r s1 n s2 :
      allowed ev s → run_event ev s = (r, s1) → r ≠ Ok Halted → exec s1 evs n s2 →
      exec s (ev :: evs) (is_switch ev s + n) s2.

(** The steps of a round robin scheduler; the number counts the switches. *)
Inductive sched_step : sched → event → nat → sched → Prop :=
  | st_tick a : sched_step a Tick 1 (spec_tick a)
  | st_no_tick a : sched_step a Tick 0 a
  | st_launch a def h start sp : h ∉ on_core a :: (queue a).*1 →
      sched_step a (Launch def) 0 (mkSched (on_core a) (on_cpu a) (queue a ++
        [(h, launch_interrupt (cpu_flags (cpu_frame (on_cpu a))) start (vtable_of (td_task def)) sp)]))
  | st_no_launch a def : sched_step a (Launch def) 0 a
  | st_terminate a n ti q : queue a = (n, ti) :: q →
      sched_step a Terminate 1 (mkSched n (restored ti (on_cpu a)) q)
  | st_start a : sched_step a Start 0 a
  | st_pause a : sched_step a Pause 0 a
  | st_compute a c : sched_step a (Compute c) 0 (mkSched (on_core a) c (queue a))
  | st_other a : sched_step a OtherCore 0 a.

Inductive sched_steps : sched → list event → nat → sched → Prop :=
  | ss_nil a : sched_steps a [] 0 a
  | ss_cons a ev n1 a1 evs n2 a2 : sched_step a ev n1 a1 → sched_steps a1 evs n2 a2 →
      sched_steps a (ev :: evs) (n1 + n2) a2.

Lemma timer_on_running s a : repr s a → timer_on s = running (system s).
Proof.
  intros [(_ & _ & Hf) _ _ _ _ _ _ _ [_ Hr _ _ _]]. unfold timer_on. by rewrite Hf, Hr.
Qed.

Lemma repr_next s a : repr s a → next_free_handle s ∉ on_core a :: (queue a).*1.
Proof.
  intros [_ _ _ _ _ _ (d & _ & HD) _ _] Hin. apply (dr_dom _ _ _ HD), (dr_next _ _ _ HD) in Hin. lia.
Qed.

Lemma compute_repr s a c : repr s a → allowed (Compute c) s →
  repr (set_cpu c s) (mkSched (on_core a) c (queue a)).
Proof.
  intros [Hc Hcur Hcpu Hin Hlog Hlock (d & Hd & [Dq Dn (t & Ht & Htn & _) Dw Dd Dx]) Hnx HT] Ha.
  split; cbn; try done. exists d. split; [done|]. split; cbn; try done.
  exists t. split; [done|]. split; [done|]. apply (Ha d t Hd). by rewrite Hcur.
Qed.

Lemma other_core_repr s a : repr s a → next_free_handle s + 1 < u64_max →
  repr (set_next (fetch_add_u64 (next_free_handle s) 1) s) a.
Proof.
  intros [Hc Hcur Hcpu Hin Hlog Hlock (d & Hd & [Dq Dn Dc Dw Dd Dx]) Hnx HT] Ha.
  rewrite fetch_add_u64_ok by lia. split; cbn; try done; [|lia]. exists d. split; [done|]. split; cbn; try done.
  intros h Hh. specialize (Dx h Hh). lia.
Qed.

(** One event on the core and on the scheduler *)
Lemma event_repr ev s a : repr s a → allowed ev s →
  (ev = Terminate ∧ queue a = [] ∧ ∃ s', run_event ev s = (Ok Halted, s') ∧ halted s') ∨
  ∃ r s' a', run_event ev s = (r, s') ∧ (r = Ok Resumed ∨ ∃ e, r = Err e) ∧
    sched_step a ev (is_switch ev s) a' ∧ repr s' a'.
Proof.
  intros HR Ha. destruct ev as [|def| | | |c|]; cbn [run_event is_switch].
  - right. destruct (timer_on s) eqn:Hon.
    + destruct (tick_repr (E:=MemError) s a HR) as (s' & Heq & HR'). eexists _, s', (spec_tick a).
      rewrite run_bind, Heq. split; [done|]. split; [by left|]. split; [constructor|done].
    + eexists _, s, a. split; [done|]. split; [by left|]. split; [constructor|done].
  - right. destruct Ha as [Hmax Ha]. destruct (asked_stack def (mem s)) as [[g|e| |] m'] eqn:Hs; [| |done..].
    + destruct (launch_repr s a def g m' HR Hmax Hs Ha) as (s' & start & sp & Heq & _ & _ & _ & HR').
      eexists _, s', _. rewrite run_bind, Heq. split; [done|]. split; [by left|]. split; [|exact HR'].
      constructor. by apply repr_next.
    + exists (Err e), (set_mem m' s), a. rewrite run_bind, (launch_fails s def e m' Hs). split; [done|].
      split; [by right; exists e|]. split; [constructor|]. destruct HR. by split.
  - destruct (terminate_repr (E:=MemError) s a HR) as [s' Hs]. destruct (queue a) as [|[n ti] q] eqn:Hq.
    + left. split; [done|]. split; [done|]. by exists s'.
    + right. destruct Hs as [Heq HR']. eexists _, s', _. split; [done|]. split; [by left|].
      split; [by constructor|done].
  - right. destruct (start_repr s a HR) as (v & s' & Heq & HR' & _). eexists _, s', a.
    rewrite run_bind. unfold expect_call. rewrite Heq. split; [done|]. split; [by left|]. split; [constructor|done].
  - right. destruct (pause_repr s a HR) as (s' & Heq & HR' & _). eexists _, s', a.
    rewrite run_bind. unfold expect_call. rewrite Heq. split; [done|]. split; [by left|]. split; [constructor|done].
  - right. eexists _, (set_cpu c s), _. split; [done|]. split; [by left|]. split; [constructor|by apply compute_repr].
  - right. eexists _, (set_next (fetch_add_u64 (next_free_handle s) 1) s), a. split; [done|]. split; [by left|].
    split; [constructor|by apply other_core_repr].
Qed.

Lemma exec_refines s evs n s' : exec s evs n s' → ∀ a, repr s a →
  ∃ a', sched_steps a evs n a' ∧ repr s' a'.
Proof.
  induction 1 as [s|s ev evs r s1 n s2 Hal Hrun Hr _ IH]; intros a HR; [exists a; split; [constructor|done]|].
  destruct (event_repr ev s a HR Hal) as [(_ & _ & s'' & Heq & _)|(r' & s'' & a1 & Heq & _ & Hstep & HR1)];
    rewrite Hrun in Heq; injection Heq as -> ->; [done|].
  destruct (IH a1 HR1) as (a2 & Hsteps & HR2). exists a2. split; [by econstructor|done].
Qed.

(** C4: the task system of a core is a round robin scheduler: whatever ticks, calls and
    computations happen on the core, its state is that of a queue in which a tick puts
    the running task with the exact state of the processor (frame, registers and
    extended state) at the end and continues the first task in exactly the state it was
    interrupted in. In every state reached no further event panics or waits for a lock,
    the log calls included; only when the last task ends the core halts. *)
Theorem task_system_refines_round_robin (s s' : Core) (evs : list event) (n : nat) (a : sched) :
  repr s a → exec s evs n s' →
  ∃ a', sched_steps a evs n a' ∧ repr s' a' ∧
    ∀ ev, allowed ev s' → ∃ r s2, run_event ev s' = (r, s2) ∧ r ≠ Panic ∧ r ≠ Hang.
Proof.
  intros HR Hex. destruct (exec_refines _ _ _ _ Hex a HR) as (a' & Hsteps & HR'). exists a'.
  split; [done|]. split; [done|]. intros ev Hal.
  destruct (event_repr ev s' a' HR' Hal) as [(_ & _ & s2 & Heq & _)|(r & s2 & a2 & Heq & Hr & _)].
  - by exists (Ok Halted), s2.
  - exists r, s2. split; [done|]. by destruct Hr as [->|[e ->]].
Qed.

(** A task moves to the front of the queue with every switch. *)
Lemma step_position a ev n a' i h ti : sched_step a ev n a' → (n ≤ i)%nat → queue a !! i = Some (h, ti) →
  queue a' !! (i - n)%nat = Some (h, ti).
Proof.
  intros Hs Hn Hq. destruct Hs; cbn; rewrite ?Nat.sub_0_r; try done.
  - unfold spec_tick. destruct i as [|i]; [lia|]. cbn. rewrite Nat.sub_0_r.
    destruct (queue a) as [|[n ti'] q]; [done|]. cbn in *. by apply lookup_app_l_Some.
  - by apply lookup_app_l_Some.
  - destruct i as [|i]; [lia|]. cbn. rewrite Nat.sub_0_r. by rewrite H in Hq.
Qed.

Lemma steps_position a evs n a' : sched_steps a evs n a' → ∀ i h ti, (n ≤ i)%nat →
  queue a !! i = Some (h, ti) → queue a' !! (i - n)%nat = Some (h, ti).
Proof.
  induction 1 as [a|a ev n1 a1 evs n2 a2 Hs _ IH]; intros i h ti Hn Hq; [by rewrite Nat.sub_0_r|].
  rewrite Nat.sub_add_distr. apply IH; [lia|]. eapply step_position; [done|lia|done].
Qed.

(** C31: every task gets its turn: a task with [i] tasks in front of it in the queue is
    first in the queue after [i] switches, whatever else happens in between, and the
    next tick continues it with the frame, the registers and the extended state that
    it was interrupted with. *)
Theorem tasks_take_turns (s s' : Core) (evs : list event) (a : sched) (i : nat) (h : TaskHandle)
    (ti : TaskInterrupt) :
  repr s a → queue a !! i = Some (h, ti) → exec s evs i s' → running (system s') = true →
  ∃ s2, run_event Tick s' = (Ok Resumed, s2) ∧ current_task (system s2) = h ∧ cpu s2 = restored ti (cpu s').
Proof.
  intros HR Hq Hex Hrun. destruct (exec_refines _ _ _ _ Hex a HR) as (a' & Hsteps & HR').
  pose proof (steps_position _ _ _ _ Hsteps i h ti ltac:(lia) Hq) as Hhead. rewrite Nat.sub_diag in Hhead.
  destruct (tick_repr (E:=MemError) s' a' HR') as (s2 & Heq & HR2). exists s2. cbn [run_event].
  rewrite (timer_on_running s' a' HR'), Hrun, run_bind, Heq. split; [done|].
  destruct (queue a') as [|[h' ti'] q] eqn:Hqa; [done|]. injection Hhead as -> ->.
  unfold spec_tick in HR2. rewrite Hqa in HR2. cbn in HR2.
  by rewrite (re_current _ _ HR2), (re_cpu _ _ HR2), (re_cpu _ _ HR').
Qed.
End tasks.

(** ** A core with three tasks *)

#[export] Instance align_down_x86_64 : AlignDown.
Proof. refine {| align_down := λ addr n, addr - addr mod n |}. by intros. Defined.

(** Functions of tasks are numbers here, of 64 bytes each. *)
#[export] Instance demo_abi : TaskAbi Z :=
  {| size_of := λ _, 64; align_of := λ _, 8; vtable_of := λ f, f; task_entry_addr := 4096; kernel_code_segment := 8 |}.

(** The memory is the address of the next free page. *)
Definition demo_alloc_stack (count : Z) (head tail : bool) : M Z MemError GuardedPages :=
  p ← gets id;
  _ ← modify (λ _, p + 4096 * count);
  mret (mkGuarded None None (mkPages Size4KiB p count)).

Definition demo_stack (p : Z) : GuardedPages := mkGuarded None None (mkPages Size4KiB p 4).
Definition demo_frame (sp : Z) : InterruptStackFrame := mkFrame 4096 8 512 sp 0.
Definition demo_interrupt (sp n : Z) : TaskInterrupt Z :=
  mkTaskInterrupt (demo_frame sp) (mkRegisters n n n n n n n n n n n n n n n) (Some n).
Definition demo_task (p : Z) (ti : option (TaskInterrupt Z)) : Task Z :=
  mkTask "demo" (Some (demo_stack p)) ti.
Definition demo_cpu : Cpu Z := mkCpu (demo_frame 10) InterruptRegisterState_default 5.

Definition demo_tasks : gmap TaskHandle (Task Z) :=
  <[0 := mkTask CPU_CORE_TASK_NAME None None]>
    (<[1 := demo_task 16384 (Some (demo_interrupt 20000 1))]>
      (<[2 := demo_task 65536 (Some (demo_interrupt 70000 2))]> ∅)).
Definition demo_core : Core nat Z Z Z :=
  mkCore (mkStatics 0 0 0 true) fresh_apic
    (mkTaskSystem 0 false false true true (Some (mkSystemData demo_tasks [1; 2] [] StackHistory_new)) false)
    3 131072 ∅ demo_cpu.
Definition demo_sched : sched (X:=Z) :=
  mkSched 0 demo_cpu [(1, demo_interrupt 20000 1); (2, demo_interrupt 70000 2)].

Lemma demo_fits p sp ti n : 0 ≤ p < 2 ^ 40 → p ≤ sp < p + 16384 → frame_fits (demo_task p ti) (stack_frame (demo_interrupt sp n)).
Proof. intros Hp Hs. split; [done|]. intros g [= <-]. unfold stack_low. cbn in *. lia. Qed.

Lemma demo_repr : repr demo_core demo_sched.
Proof.
  split; try done.
  eexists. split; [done|]. split; cbn [demo_sched queue on_core on_cpu tasks interrupted]; try done.
  - apply (bool_decide_unpack _). vm_compute. exact I.
  - eexists. split; [apply lookup_insert_eq|]. split; [done|]. split; [done|]. by intros g [=].
  - intros h ti [[= -> ->]|[[= -> ->]|[]%elem_of_nil]%elem_of_cons]%elem_of_cons; eexists; (split; [vm_compute; reflexivity|]);
      (split; [done|]); apply demo_fits; lia.
  - intros h. unfold demo_tasks. rewrite !task_insert_is_Some, lookup_empty. cbn. rewrite !elem_of_cons, elem_of_nil.
    split; [intros [?|[?|[?|[]%is_Some_None]]]; tauto|tauto].
  - intros h. unfold demo_tasks. rewrite !task_insert_is_Some, lookup_empty. intros [?|[?|[?|[]%is_Some_None]]]; cbn; lia.
Qed.

Lemma exec_step {InterruptFn X F Mem} `{BitField} (one_shot : InterruptFn) `{Addresses} `{AlignDown} `{TaskAbi F} alloc
    (s : Core InterruptFn X F Mem) ev evs n n' s2 :
  allowed alloc ev s → (run_event one_shot alloc ev s).1 = Ok Resumed → (is_switch ev s + n)%nat = n' →
  exec one_shot alloc (run_event one_shot alloc ev s).2 evs n s2 →
  exec one_shot alloc s (ev :: evs) n' s2.
Proof.
  intros Ha Hr <-. destruct (run_event one_shot alloc ev s) as [r s1] eqn:He. cbn in Hr. subst r.
  intros Hex. by eapply exec_cons.
Qed.

Definition demo_launch : event (X:=Z) (F:=Z) := Launch (mkDefinition 7 "new" 16384 true true).
Definition demo_events : list event := [Start; Tick; demo_launch].
Definition demo_end : Core nat Z Z Z :=
  foldl (λ s ev, (run_event 1%nat demo_alloc_stack ev s).2) demo_core demo_events.

Lemma demo_exec : exec 1%nat demo_alloc_stack demo_core demo_events 1 demo_end.
Proof.
  unfold demo_end, demo_events. cbn [foldl].
  eapply (exec_step 1%nat _ _ _ _ 1); [exact I|vm_compute; reflexivity..|].
  eapply (exec_step 1%nat _ _ _ _ 0); [exact I|vm_compute; reflexivity..|].
  eapply (exec_step 1%nat _ _ _ _ 0); [|vm_compute; reflexivity..|apply exec_nil].
  split; [vm_compute; reflexivity|].
  change (closure_fits (mkPages Size4KiB 131072 4) 7). split; [split_and!; cbn; lia|]. split; [done|].
  split; [by exists 3|done].
Qed.

Lemma task_system_refines_round_robin_witness :
  ∃ a', sched_steps demo_sched demo_events 1 a' ∧ repr demo_end a' ∧
    ∀ ev, allowed demo_alloc_stack ev demo_end →
      ∃ r s2, run_event 1%nat demo_alloc_stack ev demo_end = (r, s2) ∧ r ≠ Panic ∧ r ≠ Hang.
Proof.
  exact (task_system_refines_round_robin 1%nat demo_alloc_stack demo_core demo_end demo_events 1 demo_sched
    demo_repr demo_exec).
Defined.

(** The task with number 2 is the second of the queue, and it runs after one switch and
    a tick, although a task was launched in between. *)
Lemma tasks_take_turns_witness :
  ∃ s2, run_event 1%nat demo_alloc_stack Tick demo_end = (Ok Resumed, s2) ∧ current_task (system s2) = 2 ∧
    cpu s2 = restored (demo_interrupt 70000 2) (cpu demo_end).
Proof.
  apply (tasks_take_turns 1%nat demo_alloc_stack demo_core demo_end demo_events demo_sched 1 2 (demo_interrupt 70000 2)
    demo_repr); [reflexivity|exact demo_exec|vm_compute; reflexivity].
Defined.

(** ** A core without tasks *)

(** When the last task has ended, a task can still be launched (from an interrupt), but the
    core is not continued with it: the tick panics because there is no current task. *)
Definition last_task_core : Core nat Z Z Z :=
  mkCore (mkStatics 0 0 0 true) fresh_apic
    (mkTaskSystem 0 false false true true
      (Some (mkSystemData (<[0 := mkTask CPU_CORE_TASK_NAME None None]> ∅) [] [] StackHistory_new)) false)
    1 131072 ∅ demo_cpu.

Lemma launch_on_halted_core :
  let run ev s := run_event 1%nat demo_alloc_stack ev s in
  let s1 := (run Start last_task_core).2 in
  let s2 := (run Terminate s1).2 in
  let s3 := (run demo_launch s2).2 in
  (run Terminate s1).1 = Ok Halted ∧ (run demo_launch s2).1 = Ok Resumed ∧ timer_on s3 = true ∧
  (run Tick s3).1 = Panic.
Proof. vm_compute. done. Qed.
