(* ===== verification/ContextSwitch.v ===== *)
(** * The assembly of a task switch

    [context_switch_handler] stores the registers of the interrupted task on the stack of
    the interrupt, and [TaskInterrupt::resume] loads them again before [iretq]. Both
    are lists of instructions here, run on a machine with the general registers, a
    memory of words, and the components of the state that [xsave64] stores. The
    functions that the assembly calls are only known by the calling convention.

    The theorem is what the task system ([Tasks]) takes for granted: the frame,
    the registers and the extended state that the handler hands to Rust are those
    of the interrupted task, and [resume] gives exactly them back. *)

From S2P Require Import Prelude CoreLocals Tasks.
Local Open Scope Z_scope.

(** ** The machine *)

Inductive reg :=
  | RAX | RBX | RCX | RDX | RSI | RDI | RBP | RSP
  | R8 | R9 | R10 | R11 | R12 | R13 | R14 | R15.
(** The number of a register in machine code *)
Definition reg_num (r : reg) : Z :=
  match r with
  | RAX => 0 | RCX => 1 | RDX => 2 | RBX => 3 | RSP => 4 | RBP => 5 | RSI => 6 | RDI => 7
  | R8 => 8 | R9 => 9 | R10 => 10 | R11 => 11 | R12 => 12 | R13 => 13 | R14 => 14 | R15 => 15
  end.
Lemma reg_num_ne r r' : r ≠ r' → (reg_num r =? reg_num r') = false.
Proof. by destruct r, r'. Qed.

(** The functions that the assembly calls *)
Inductive fn := AllocXsave | RustHandler | DeallocXsave | DropGuard | Eoi.

Definition wrap64 (n : Z) : Z := n mod 2 ^ 64.

Section machine.
(** The content of a component of the extended state *)
Context {C : Type}.
Abbreviation xstate := (Z → C).

(** [trace] has the calls with their first two arguments. *)
Record mach := mkMach {
  regs : reg → Z;
  words : Z → Z;
  xregs : xstate;
  areas : Z → xstate;
  m_if : bool;
  m_df : bool;
  m_zf : bool;
  trace : list (fn * Z * Z);
}.

Definition set_reg (r : reg) (v : Z) (m : mach) : mach :=
  mkMach (λ r', if reg_num r' =? reg_num r then v else regs m r') (words m) (xregs m) (areas m)
    (m_if m) (m_df m) (m_zf m) (trace m).
Definition store (a v : Z) (m : mach) : mach :=
  mkMach (regs m) (λ a', if decide (a' = a) then v else words m a') (xregs m) (areas m)
    (m_if m) (m_df m) (m_zf m) (trace m).
Definition set_xregs (x : xstate) (m : mach) : mach :=
  mkMach (regs m) (words m) x (areas m) (m_if m) (m_df m) (m_zf m) (trace m).
Definition set_area (p : Z) (x : xstate) (m : mach) : mach :=
  mkMach (regs m) (words m) (xregs m) (λ p', if decide (p' = p) then x else areas m p')
    (m_if m) (m_df m) (m_zf m) (trace m).
Definition set_flags (i d z : bool) (m : mach) : mach :=
  mkMach (regs m) (words m) (xregs m) (areas m) i d z (trace m).
Definition record_call (f : fn) (m : mach) : mach :=
  mkMach (regs m) (words m) (xregs m) (areas m) (m_if m) (m_df m) (m_zf m)
    (trace m ++ [(f, regs m RDI, regs m RSI)]).

Definition push_word (v : Z) (m : mach) : mach :=
  let a := wrap64 (regs m RSP - 8) in store a v (set_reg RSP a m).

(** The requested features: the low halves of [rdx] and [rax] *)
Definition rfbm (m : mach) : Z := (regs m RDX mod 2 ^ 32) * 2 ^ 32 + regs m RAX mod 2 ^ 32.
Definition select (mask : Z) (new old : xstate) : xstate := λ i, if Z.testbit mask i then new i else old i.

Inductive instr :=
  | Push (r : reg) | Pop (r : reg)
  | Mov (d s : reg) | MovImm32 (d : reg) (v : Z)
  | Load (d base : reg) (off : Z) | Lea (d base : reg) (off : Z)
  | Test (r : reg) | Jz (skip : nat)
  | Xsave64 (r : reg) | Xrstor64 (r : reg)
  | Call (f : fn) | Cli | Cld | Int3 | Hlt | Iretq.

(** How the code goes on: the frame that [iretq] loads, or the call of a function that
    does not return *)
Inductive outcome :=
  | Returned (f : InterruptStackFrame) (m : mach)
  | Left (f : fn) (m : mach)
  | Trapped.

(** What [iretq] reads from the stack; the segments have 16 bits. *)
Definition iret_frame (m : mach) : InterruptStackFrame :=
  let at_ i := words m (wrap64 (regs m RSP + 8 * i)) in
  mkFrame (at_ 0) (at_ 1 mod 2 ^ 16) (at_ 2) (at_ 3) (at_ 4 mod 2 ^ 16).

Definition callee_saved (r : reg) : bool :=
  match r with RBX | RBP | RSP | R12 | R13 | R14 | R15 => true | _ => false end.

(** The size of an [InternalGuard] in bytes *)
Context {guard_size : Z}.

(** The System V calling convention and what the called functions do to memory: the
    stack of the caller keeps its words, except that [drop_guard] changes the guard.
    Code of the target [x86_64-unknown-none] does not use the extended state, and [eoi]
    is one write to a register of the APIC. *)
Class Calls := {
  call : fn → mach → mach;
  call_saved f m r : callee_saved r = true → regs (call f m) r = regs m r;
  call_words f m a : regs m RSP ≤ a → ¬ (f = DropGuard ∧ regs m RDI ≤ a < regs m RDI + guard_size) →
    words (call f m) a = words m a;
  call_xregs f m : xregs (call f m) = xregs m;
  call_trace f m : trace (call f m) = trace m;
  call_eoi m : m_if (call Eoi m) = m_if m;
}.
Context `{Calls}.

(** One instruction of straight code *)
Definition step (i : instr) (m : mach) : mach :=
  match i with
  | Push r => push_word (regs m r) m
  | Pop r => let a := regs m RSP in set_reg r (words m a) (set_reg RSP (wrap64 (a + 8)) m)
  | Mov d s => set_reg d (regs m s) m
  | MovImm32 d v => set_reg d (v mod 2 ^ 32) m
  | Load d b off => set_reg d (words m (wrap64 (regs m b + off))) m
  | Lea d b off => set_reg d (wrap64 (regs m b + off)) m
  | Test r => set_flags (m_if m) (m_df m) (regs m r =? 0) m
  | Xsave64 r => set_area (regs m r) (select (rfbm m) (xregs m) (areas m (regs m r))) m
  | Xrstor64 r => set_xregs (select (rfbm m) (areas m (regs m r)) (xregs m)) m
  | Call f => call f (record_call f m)
  | Cli => set_flags false (m_df m) (m_zf m) m
  | Cld => set_flags (m_if m) false (m_zf m) m
  | Jz _ | Int3 | Hlt | Iretq => m
  end.

(** The code after [skip] instructions that a jump leaves out *)
Fixpoint run (skip : nat) (code : list instr) (m : mach) : outcome :=
  match code, skip with
  | [], _ => Trapped
  | _ :: code, S skip => run skip code m
  | Jz n :: code, O => run (if m_zf m then n else O) code m
  | Call RustHandler :: _, O => Left RustHandler (record_call RustHandler m)
  | (Int3 | Hlt) :: _, O => Trapped
  | Iretq :: _, O => Returned (iret_frame m) m
  | i :: code, O => run O code (step i m)
  end.

(** ** [context_switch_handler] *)

(** The size of [InterruptRegisterState] *)
Definition REGISTERS_SIZE : Z := 15 * 8.

Definition context_switch_handler_asm : list instr := [
  Cld;
  Push R15; Push R14; Push R13; Push R12; Push R11; Push R10; Push R9; Push R8;
  Push RBP; Push RDI; Push RSI; Push RDX; Push RCX; Push RBX; Push RAX;
  Call AllocXsave;
  Mov R12 RAX;
  MovImm32 RAX (-1);
  MovImm32 RDX (-1);
  Xsave64 R12;
  Lea RDI RSP REGISTERS_SIZE;
  Lea RSI RSP 0;
  Mov RDX R12;
  Call RustHandler;
  Int3; Int3; Int3; Hlt].

(** ** [TaskInterrupt::resume] *)

(** The registers that the compiler chooses for the operands of the class [reg] *)
Record operands := mkOperands {
  op_stack_segment : reg;
  op_new_stack_pointer : reg;
  op_rflags : reg;
  op_code_segment : reg;
  op_new_instruction_pointer : reg;
  op_registers : reg;
  op_guard_ptr : reg;
}.

Definition resume_asm (o : operands) : list instr := [
  Push (op_stack_segment o); Push (op_new_stack_pointer o); Push (op_rflags o);
  Push (op_code_segment o); Push (op_new_instruction_pointer o);
  Push (op_registers o);
  Test RDI;
  Jz 2;
  Xrstor64 RDI;
  Call DeallocXsave;
  Mov RDI (op_guard_ptr o);
  Call DropGuard;
  Cli;
  Call Eoi;
  Pop RAX;
  Load RBX RAX 8; Load RCX RAX 16; Load RDX RAX 24; Load RSI RAX 32;
  Load RDI RAX 40; Load RBP RAX 48; Load R8 RAX 56; Load R9 RAX 64;
  Load R10 RAX 72; Load R11 RAX 80; Load R12 RAX 88; Load R13 RAX 96;
  Load R14 RAX 104; Load R15 RAX 112;
  Load RAX RAX 0;
  Iretq].

(** ** What memory and registers stand for *)

Definition registers_of (m : mach) : InterruptRegisterState :=
  mkRegisters (regs m RAX) (regs m RBX) (regs m RCX) (regs m RDX) (regs m RSI) (regs m RDI) (regs m RBP)
    (regs m R8) (regs m R9) (regs m R10) (regs m R11) (regs m R12) (regs m R13) (regs m R14) (regs m R15).

(** The structures at an address, as their fields are laid out *)
Definition registers_at (w : Z → Z) (p : Z) : InterruptRegisterState :=
  mkRegisters (w (p + 0)) (w (p + 8)) (w (p + 16)) (w (p + 24)) (w (p + 32)) (w (p + 40)) (w (p + 48))
    (w (p + 56)) (w (p + 64)) (w (p + 72)) (w (p + 80)) (w (p + 88)) (w (p + 96)) (w (p + 104)) (w (p + 112)).
Definition frame_at (w : Z → Z) (p : Z) : InterruptStackFrame :=
  mkFrame (w (p + 0)) (w (p + 8) mod 2 ^ 16) (w (p + 16)) (w (p + 24)) (w (p + 32) mod 2 ^ 16).

(** The delivery of an interrupt on a stack of its own that ends at [top]; [f] is what
    the processor was about to do. *)
Definition deliver (f : InterruptStackFrame) (top : Z) (m : mach) : mach :=
  let m := set_flags false (m_df m) (m_zf m) (set_reg RSP top m) in
  foldl (λ m v, push_word v m) m
    [stack_segment f; stack_pointer f; cpu_flags f; code_segment f; instruction_pointer f].

(** ** Pushes *)

Definition push_words (vs : list Z) (m : mach) : mach := foldl (λ m v, push_word v m) m vs.

Record pushed (vs : list Z) (m m' : mach) : Prop := {
  pu_rsp : regs m' RSP = regs m RSP - 8 * Z.of_nat (length vs);
  pu_regs r : r ≠ RSP → regs m' r = regs m r;
  pu_words i v off : reverse vs !! i = Some v → off = 8 * Z.of_nat i → words m' (regs m' RSP + off) = v;
  pu_above a : regs m RSP ≤ a → words m' a = words m a;
  pu_xregs : xregs m' = xregs m;
  pu_areas : areas m' = areas m;
  pu_trace : trace m' = trace m;
}.

Lemma push_words_spec vs m : 8 * Z.of_nat (length vs) ≤ regs m RSP < 2 ^ 64 → pushed vs m (push_words vs m).
Proof.
  revert m. induction vs as [|v vs IH] using rev_ind; intros m Hb; [split; cbn; (done || lia)|].
  rewrite length_app in Hb. cbn in Hb. unfold push_words in *. rewrite foldl_app. cbn [foldl].
  destruct (IH m) as [P1 P2 P3 P4 P5 P6 P7]; [lia|]. set (m1 := foldl _ m vs) in *.
  assert (wrap64 (regs m1 RSP - 8) = regs m1 RSP - 8) as Hw by (unfold wrap64; apply Z.mod_small; lia).
  split; cbn; rewrite ?Hw, ?length_app; cbn; try done.
  - lia.
  - intros r Hr. pose proof (reg_num_ne r RSP Hr) as He. cbn in He. rewrite He. by apply P2.
  - intros i w off. rewrite reverse_app. destruct i as [|i]; cbn.
    + intros [= ->] ->. rewrite decide_True by lia. done.
    + intros Hi ->. rewrite decide_False by lia. rewrite <- (P3 i w _ Hi eq_refl). f_equal. lia.
  - intros a Ha. rewrite decide_False by lia. by apply P4.
Qed.

Lemma push_regs_words rs m : RSP ∉ rs →
  foldl (λ m r, step (Push r) m) m rs = push_words (regs m <$> rs) m.
Proof.
  intros Hr. induction rs as [|r rs IH] using rev_ind; [done|].
  assert (∀ vs (m : mach) q, q ≠ RSP → regs (push_words vs m) q = regs m q) as Hregs.
  { induction vs as [|v vs IHv]; intros m0 q Hq; [done|]. unfold push_words. cbn [foldl].
    etransitivity; [by apply IHv|]. pose proof (reg_num_ne q RSP Hq) as He. cbn in *. by rewrite He. }
  rewrite foldl_app, fmap_app. unfold push_words. rewrite foldl_app. cbn [foldl fmap list_fmap].
  rewrite IH by set_solver. cbn [step]. rewrite Hregs by set_solver. done.
Qed.

Lemma run_pushes rs code m : RSP ∉ rs →
  run O ((Push <$> rs) ++ code) m = run O code (push_words (regs m <$> rs) m).
Proof.
  intros Hr. rewrite <- push_regs_words by done. clear Hr. revert m.
  induction rs as [|r rs IH]; intros m; [done|]. cbn [fmap list_fmap app foldl]. by rewrite <- IH.
Qed.

(** ** The handler saves the state *)

Lemma testbit_ones i : 0 ≤ i < 64 → Z.testbit ((2 ^ 32 - 1) * 2 ^ 32 + (2 ^ 32 - 1)) i = true.
Proof. intros Hi. change ((2 ^ 32 - 1) * 2 ^ 32 + (2 ^ 32 - 1)) with (Z.ones 64). apply Z.ones_spec_low. lia. Qed.

Definition frame_ok (f : InterruptStackFrame) : Prop :=
  0 ≤ code_segment f < 2 ^ 16 ∧ 0 ≤ stack_segment f < 2 ^ 16.

(** The registers at a push of all of them *)
Definition saved_regs : list reg := [R15; R14; R13; R12; R11; R10; R9; R8; RBP; RDI; RSI; RDX; RCX; RBX; RAX].

(** What the processor has pushed *)
Definition frame_words (f : InterruptStackFrame) : list Z :=
  [stack_segment f; stack_pointer f; cpu_flags f; code_segment f; instruction_pointer f].

(** The handler after the pushes *)
Definition after_pushes (m : mach) : mach :=
  let m := step (Call AllocXsave) m in
  foldl (λ m i, step i m) m
    [Mov R12 RAX; MovImm32 RAX (-1); MovImm32 RDX (-1); Xsave64 R12; Lea RDI RSP REGISTERS_SIZE; Lea RSI RSP 0;
     Mov RDX R12].

Lemma run_handler m :
  run O context_switch_handler_asm m =
  Left RustHandler (record_call RustHandler
    (after_pushes (push_words (regs (step Cld m) <$> saved_regs) (step Cld m)))).
Proof.
  transitivity (run O ((Push <$> saved_regs) ++ drop 16 context_switch_handler_asm) (step Cld m)); [done|].
  rewrite run_pushes by (unfold saved_regs; set_solver). done.
Qed.

Lemma after_pushes_spec m : 0 ≤ regs m RSP → regs m RSP + 120 < 2 ^ 64 →
  regs (after_pushes m) RDI = regs m RSP + 120 ∧ regs (after_pushes m) RSI = regs m RSP ∧
  (∀ a, regs m RSP ≤ a → words (after_pushes m) a = words m a) ∧
  ∀ i, 0 ≤ i < 64 → areas (after_pushes m) (regs (after_pushes m) RDX) i = xregs m i.
Proof.
  intros H0 H1. pose proof (call_saved AllocXsave (record_call AllocXsave m) RSP eq_refl) as Hsp. cbn in Hsp.
  unfold after_pushes. cbn. rewrite Hsp. unfold wrap64. rewrite !Z.mod_small by (unfold REGISTERS_SIZE; lia).
  split_and!; [done|lia| |].
  - intros a Ha. apply (call_words AllocXsave (record_call AllocXsave m) a Ha). by intros [[=] _].
  - intros i Hi. rewrite decide_True by done. unfold select, rfbm. cbn.
    rewrite testbit_ones by done. by rewrite call_xregs.
Qed.

Lemma pushed_frame f m m' : frame_ok f → pushed (frame_words f) m m' → frame_at (words m') (regs m' RSP) = f.
Proof.
  intros [Hcs Hss] [_ _ P _ _ _ _]. unfold frame_at.
  rewrite (P 0%nat _ 0 eq_refl eq_refl), (P 1%nat _ 8 eq_refl eq_refl), (P 2%nat _ 16 eq_refl eq_refl),
    (P 3%nat _ 24 eq_refl eq_refl), (P 4%nat _ 32 eq_refl eq_refl).
  rewrite !Z.mod_small by done. by destruct f.
Qed.

Lemma pushed_registers m0 m m' : pushed (regs m0 <$> saved_regs) m m' →
  registers_at (words m') (regs m' RSP) = registers_of m0.
Proof.
  intros [_ _ P _ _ _ _]. unfold registers_at.
  rewrite (P 0%nat _ 0 eq_refl eq_refl), (P 1%nat _ 8 eq_refl eq_refl), (P 2%nat _ 16 eq_refl eq_refl),
    (P 3%nat _ 24 eq_refl eq_refl), (P 4%nat _ 32 eq_refl eq_refl), (P 5%nat _ 40 eq_refl eq_refl),
    (P 6%nat _ 48 eq_refl eq_refl), (P 7%nat _ 56 eq_refl eq_refl), (P 8%nat _ 64 eq_refl eq_refl),
    (P 9%nat _ 72 eq_refl eq_refl), (P 10%nat _ 80 eq_refl eq_refl), (P 11%nat _ 88 eq_refl eq_refl),
    (P 12%nat _ 96 eq_refl eq_refl), (P 13%nat _ 104 eq_refl eq_refl), (P 14%nat _ 112 eq_refl eq_refl).
  done.
Qed.

Lemma frame_at_ext w w' p : (∀ a, p ≤ a → w' a = w a) → frame_at w' p = frame_at w p.
Proof. intros Hw. unfold frame_at. by rewrite !Hw by lia. Qed.
Lemma registers_at_ext w w' p : (∀ a, p ≤ a < p + 120 → w' a = w a) → registers_at w' p = registers_at w p.
Proof. intros Hw. unfold registers_at. by rewrite !Hw by lia. Qed.

Lemma handler_saves f top m : frame_ok f → 160 ≤ top < 2 ^ 64 →
  ∃ m', run O context_switch_handler_asm (deliver f top m) = Left RustHandler m' ∧
    frame_at (words m') (regs m' RDI) = f ∧
    registers_at (words m') (regs m' RSI) = registers_of m ∧
    ∀ i, 0 ≤ i < 64 → areas m' (regs m' RDX) i = xregs m i.
Proof.
  intros Hf Htop. set (m0 := set_flags false (m_df m) (m_zf m) (set_reg RSP top m)).
  assert (pushed (frame_words f) m0 (deliver f top m)) as Hfr by (apply push_words_spec; cbn; lia).
  remember (deliver f top m) as m1 eqn:Hm1. clear Hm1. pose proof (pu_rsp _ _ _ Hfr) as Hr1. cbn in Hr1.
  pose proof (push_words_spec (regs (step Cld m1) <$> saved_regs) (step Cld m1)) as Hsv.
  rewrite run_handler. remember (push_words _ _) as m2 eqn:Hm2. clear Hm2.
  specialize (Hsv ltac:(cbn; lia)). pose proof (pu_rsp _ _ _ Hsv) as Hr2. cbn in Hr2.
  destruct (after_pushes_spec m2) as (A1 & A2 & A3 & A4); [lia..|].
  eexists. split; [done|]. cbn [record_call regs words areas]. rewrite A1, A2. split_and!.
  - rewrite <- (pushed_frame f m0 m1) by done. replace (regs m2 RSP + 120) with (regs m1 RSP) by lia.
    apply frame_at_ext. intros a Ha. rewrite A3 by lia. by rewrite (pu_above _ _ _ Hsv).
  - rewrite (registers_at_ext (words m2)) by (intros a Ha; apply A3; lia).
    rewrite (pushed_registers _ _ _ Hsv). unfold registers_of. cbn. by rewrite !(pu_regs _ _ _ Hfr).
  - intros i Hi. rewrite A4 by done. rewrite (pu_xregs _ _ _ Hsv). cbn. by rewrite (pu_xregs _ _ _ Hfr).
Qed.

(** ** [resume] restores the state *)

Definition no_rsp (o : operands) : Prop :=
  RSP ∉ [op_stack_segment o; op_new_stack_pointer o; op_rflags o; op_code_segment o;
         op_new_instruction_pointer o; op_registers o; op_guard_ptr o].

(** The operands are loaded: the frame [f], the address [p] of the registers, the guard
    at [g] and the extended state at [area] (or none, when this is null). The registers
    and the guard are on the stack, and the guard survives the call that frees [area]. *)
Record resume_ready (o : operands) (m : mach) (f : InterruptStackFrame) (p g area len : Z) : Prop := {
  rr_no_rsp : no_rsp o;
  rr_stack : 48 ≤ regs m RSP ∧ regs m RSP ≤ p ∧ regs m RSP ≤ g ∧ p + 120 ≤ 2 ^ 64;
  rr_apart : g + guard_size ≤ p ∨ p + 120 ≤ g;
  rr_ss : regs m (op_stack_segment o) mod 2 ^ 16 = stack_segment f;
  rr_sp : regs m (op_new_stack_pointer o) = stack_pointer f;
  rr_flags : regs m (op_rflags o) = cpu_flags f;
  rr_cs : regs m (op_code_segment o) mod 2 ^ 16 = code_segment f;
  rr_ip : regs m (op_new_instruction_pointer o) = instruction_pointer f;
  rr_regs : regs m (op_registers o) = p;
  rr_guard : regs m (op_guard_ptr o) = g;
  rr_area : regs m RDI = area ∧ regs m RSI = len;
  rr_mask : regs m RAX mod 2 ^ 32 = 2 ^ 32 - 1 ∧ regs m RDX mod 2 ^ 32 = 2 ^ 32 - 1;
  rr_kept : area = 0 ∨ callee_saved (op_guard_ptr o) = true;
}.

(** The pushes of [resume] *)
Definition resume_pushes (o : operands) : list reg :=
  [op_stack_segment o; op_new_stack_pointer o; op_rflags o; op_code_segment o;
   op_new_instruction_pointer o; op_registers o].

Lemma no_rsp_pushes o : no_rsp o → RSP ∉ resume_pushes o.
Proof. unfold no_rsp, resume_pushes. set_solver. Qed.
Lemma no_rsp_guard o : no_rsp o → op_guard_ptr o ≠ RSP.
Proof. unfold no_rsp. set_solver. Qed.

(** The loads and [iretq], when the calls are done *)
Lemma resume_tail o m f p : 
  0 ≤ regs m RSP → regs m RSP + 48 ≤ 2 ^ 64 → 0 ≤ p → p + 120 ≤ 2 ^ 64 →
  words m (regs m RSP) = p →
  frame_at (words m) (regs m RSP + 8) = f →
  ∃ m', run O (drop 14 (resume_asm o)) m = Returned f m' ∧
    registers_of m' = registers_at (words m) p ∧ xregs m' = xregs m ∧ trace m' = trace m ∧ m_if m' = m_if m.
Proof.
  intros H0 H1 H2 H3 Hp Hf.
  assert (∀ off, 0 ≤ off ≤ 112 → wrap64 (p + off) = p + off) as Hw
    by (intros off Ho; unfold wrap64; apply Z.mod_small; lia).
  assert (∀ off, 0 ≤ off < 48 → wrap64 (regs m RSP + off) = regs m RSP + off) as Hv
    by (intros off Ho; unfold wrap64; apply Z.mod_small; lia).
  cbn [resume_asm drop run]. eexists. split; [f_equal|].
  - unfold iret_frame. cbn. rewrite <- Hf. unfold frame_at. rewrite !(Hv 8) by lia.
    assert (∀ i, 0 ≤ i ≤ 4 → wrap64 (regs m RSP + 8 + 8 * i) = regs m RSP + 8 + 8 * i) as Hs
      by (intros i Hi; unfold wrap64; apply Z.mod_small; lia).
    by rewrite (Hs 0), (Hs 1), (Hs 2), (Hs 3), (Hs 4) by lia.
  - unfold registers_of. cbn. rewrite Hp, !Hw by lia. done.
Qed.

(** The calls before: what is on the stack stays there, except for the guard. *)
Record quiet (g : Z) (m m' : mach) : Prop := {
  qu_rsp : regs m' RSP = regs m RSP;
  qu_words a : regs m RSP ≤ a → ¬ (g ≤ a < g + guard_size) → words m' a = words m a;
  qu_xregs : xregs m' = xregs m;
}.

(** The part that drops the guard and ends the interrupt *)
Definition drop_part (o : operands) (m : mach) : mach :=
  foldl (λ m i, step i m) m [Mov RDI (op_guard_ptr o); Call DropGuard; Cli; Call Eoi].

Lemma drop_part_spec o m : 
  quiet (regs m (op_guard_ptr o)) m (drop_part o m) ∧ m_if (drop_part o m) = false ∧
  ∃ a b c, trace (drop_part o m) = trace m ++ [(DropGuard, regs m (op_guard_ptr o), a); (Eoi, b, c)].
Proof.
  unfold drop_part. cbn [foldl step]. set (g := regs m (op_guard_ptr o)).
  set (m1 := record_call DropGuard (set_reg RDI g m)).
  set (m2 := record_call Eoi (set_flags false (m_df (call DropGuard m1)) (m_zf (call DropGuard m1)) (call DropGuard m1))).
  pose proof (call_saved DropGuard m1 RSP eq_refl) as H1. pose proof (call_saved Eoi m2 RSP eq_refl) as H2.
  cbn in H1, H2. split; [split|split].
  - by rewrite H2, H1.
  - intros a Ha Hg. rewrite (call_words Eoi m2) by (cbn; (lia || by intros [[=] _])). cbn.
    rewrite (call_words DropGuard m1); [done|done|]. by intros [_ ?].
  - rewrite (call_xregs Eoi m2). cbn. by rewrite (call_xregs DropGuard m1).
  - by rewrite call_eoi.
  - rewrite (call_trace Eoi m2). unfold m2. cbn. rewrite (call_trace DropGuard m1). unfold m1. cbn.
    rewrite <- app_assoc. by do 3 eexists.
Qed.

(** The part that loads and frees the extended state *)
Definition xrstor_part (m : mach) : mach := step (Call DeallocXsave) (step (Xrstor64 RDI) m).

Definition finish_resume (o : operands) (m : mach) : outcome :=
  run O (drop 14 (resume_asm o)) (drop_part o (if m_zf m then m else xrstor_part m)).

Lemma run_resume o m : RSP ∉ resume_pushes o →
  run O (resume_asm o) m = finish_resume o (step (Test RDI) (push_words (regs m <$> resume_pushes o) m)).
Proof.
  intros Hr. unfold finish_resume.
  transitivity (run O ((Push <$> resume_pushes o) ++ drop 6 (resume_asm o)) m); [done|].
  rewrite run_pushes by done. generalize (push_words (regs m <$> resume_pushes o) m) as m1. intros m1.
  cbn [resume_asm drop run]. by destruct (m_zf (step (Test RDI) m1)).
Qed.

(** The state before the guard is dropped *)
Record prepared (o : operands) (f : InterruptStackFrame) (p g : Z) (rs : InterruptRegisterState) (m : mach) : Prop := {
  pp_stack : 0 ≤ regs m RSP ∧ regs m RSP + 48 ≤ 2 ^ 64 ∧ regs m RSP + 48 ≤ p ∧ regs m RSP + 48 ≤ g ∧ p + 120 ≤ 2 ^ 64;
  pp_apart : g + guard_size ≤ p ∨ p + 120 ≤ g;
  pp_guard : regs m (op_guard_ptr o) = g;
  pp_ptr : words m (regs m RSP) = p;
  pp_frame : frame_at (words m) (regs m RSP + 8) = f;
  pp_regs : registers_at (words m) p = rs;
}.

Lemma resume_end o f p g rs m : prepared o f p g rs m →
  ∃ m' a b c, run O (drop 14 (resume_asm o)) (drop_part o m) = Returned f m' ∧
    registers_of m' = rs ∧ xregs m' = xregs m ∧ m_if m' = false ∧
    trace m' = trace m ++ [(DropGuard, g, a); (Eoi, b, c)].
Proof.
  intros [(S1 & S2 & S3 & S4 & S5) Hap Hg Hp Hf Hrs].
  destruct (drop_part_spec o m) as ([Q1 Q2 Q3] & Hif & a & b & c & Ht). rewrite Hg in *.
  destruct (resume_tail o (drop_part o m) f p) as (m' & Hrun & Hr & Hx & Htr & Hi); rewrite ?Q1; [lia..| | |].
  - rewrite Q2 by lia. done.
  - rewrite <- Hf. unfold frame_at. by rewrite !Q2 by lia.
  - exists m', a, b, c. split; [done|]. rewrite Hr, Hx, Hi, Htr, Ht. split_and!; try done.
    rewrite <- Hrs. apply registers_at_ext. intros x Hx'. apply Q2; lia.
Qed.

Lemma pushed_iret f v1 v2 v3 m m' : v1 mod 2 ^ 16 = stack_segment f → v2 mod 2 ^ 16 = code_segment f →
  pushed [v1; stack_pointer f; cpu_flags f; v2; instruction_pointer f; v3] m m' →
  frame_at (words m') (regs m' RSP + 8) = f ∧ words m' (regs m' RSP) = v3.
Proof.
  intros Hs Hc [_ _ P _ _ _ _]. split.
  - unfold frame_at. rewrite <- !Z.add_assoc. 
    change (8 + 0) with 8. change (8 + 8) with 16. change (8 + 16) with 24. change (8 + 24) with 32. change (8 + 32) with 40.
    rewrite (P 1%nat _ 8 eq_refl eq_refl), (P 2%nat _ 16 eq_refl eq_refl),
      (P 3%nat _ 24 eq_refl eq_refl), (P 4%nat _ 32 eq_refl eq_refl), (P 5%nat _ 40 eq_refl eq_refl).
    rewrite Hs, Hc. by destruct f.
  - rewrite <- (P 0%nat _ 0 eq_refl eq_refl). by rewrite Z.add_0_r.
Qed.

Lemma resume_prepared o m f p g area len : resume_ready o m f p g area len →
  prepared o f p g (registers_at (words m) p) (push_words (regs m <$> resume_pushes o) m).
Proof.
  intros [Hno (S1 & S2 & S3 & S4) Hap Hss Hsp Hfl Hcs Hip Hp Hg _ _ _].
  pose proof (no_rsp_guard o Hno) as Hng.
  assert (8 * Z.of_nat (length (regs m <$> resume_pushes o)) ≤ regs m RSP < 2 ^ 64) as Hb
    by (rewrite length_fmap; unfold resume_pushes; cbn [length]; lia).
  pose proof (push_words_spec (regs m <$> resume_pushes o) m Hb) as HP.
  remember (push_words _ m) as m1 eqn:Hm. clear Hm. pose proof (pu_rsp _ _ _ HP) as Hr. cbn in Hr.
  unfold resume_pushes in HP. cbn in HP. rewrite Hsp, Hfl, Hip, Hp in HP.
  destruct (pushed_iret f _ _ _ _ _ Hss Hcs HP) as [Hf Hpp].
  split; [lia|done|by rewrite (pu_regs _ _ _ HP)|done|done|].
  apply registers_at_ext. intros a Ha'. apply (pu_above _ _ _ HP). lia.
Qed.

(** Without an extended state the task goes on with the one of the processor. *)
Lemma test_prepared o f p g rs m : prepared o f p g rs m → prepared o f p g rs (step (Test RDI) m).
Proof. intros []. by split. Qed.

Lemma xrstor_prepared o f p g rs m : callee_saved (op_guard_ptr o) = true → prepared o f p g rs m →
  prepared o f p g rs (xrstor_part m).
Proof.
  intros Hk [P1 P2 P3 P4 P5 P6]. unfold xrstor_part. cbn [step].
  set (m2 := record_call DeallocXsave (set_xregs _ m)).
  pose proof (call_saved DeallocXsave m2 RSP eq_refl) as Hr2. cbn in Hr2.
  assert (∀ a, regs m RSP ≤ a → words (call DeallocXsave m2) a = words m a) as Hw.
  { intros a Ha'. apply (call_words DeallocXsave m2 a Ha'). by intros [[=] _]. }
  split; rewrite ?Hr2; [done|done| | | |].
  - rewrite call_saved by done. exact P3.
  - by rewrite Hw.
  - rewrite <- P5. apply frame_at_ext. intros x Hx. apply Hw. lia.
  - rewrite <- P6. apply registers_at_ext. intros x Hx. apply Hw. lia.
Qed.

Lemma xrstor_state m i : regs m RAX mod 2 ^ 32 = 2 ^ 32 - 1 → regs m RDX mod 2 ^ 32 = 2 ^ 32 - 1 → 0 ≤ i < 64 →
  xregs (xrstor_part m) i = areas m (regs m RDI) i.
Proof.
  intros H1 H2 Hi. unfold xrstor_part. cbn [step]. rewrite call_xregs. cbn. unfold select, rfbm.
  rewrite H1, H2. by rewrite testbit_ones.
Qed.
Lemma xrstor_trace m : trace (xrstor_part m) = trace m ++ [(DeallocXsave, regs m RDI, regs m RSI)].
Proof. unfold xrstor_part. cbn [step]. by rewrite call_trace. Qed.

Lemma finish_plain o f p g rs m : prepared o f p g rs m → m_zf m = true →
  ∃ m' a b c, finish_resume o m = Returned f m' ∧ registers_of m' = rs ∧ xregs m' = xregs m ∧ m_if m' = false ∧
    trace m' = trace m ++ [(DropGuard, g, a); (Eoi, b, c)].
Proof. intros HP Hz. unfold finish_resume. rewrite Hz. exact (resume_end _ _ _ _ _ _ HP). Qed.

Lemma finish_xrstor o f p g rs m : prepared o f p g rs m → m_zf m = false → callee_saved (op_guard_ptr o) = true →
  regs m RAX mod 2 ^ 32 = 2 ^ 32 - 1 → regs m RDX mod 2 ^ 32 = 2 ^ 32 - 1 →
  ∃ m' a b c, finish_resume o m = Returned f m' ∧ registers_of m' = rs ∧
    (∀ i, 0 ≤ i < 64 → xregs m' i = areas m (regs m RDI) i) ∧ m_if m' = false ∧
    trace m' = trace m ++ [(DeallocXsave, regs m RDI, regs m RSI); (DropGuard, g, a); (Eoi, b, c)].
Proof.
  intros HP Hz Hk H1 H2. unfold finish_resume. rewrite Hz. apply (xrstor_prepared _ _ _ _ _ _ Hk) in HP.
  destruct (resume_end _ _ _ _ _ _ HP) as (m' & a & b & c & E1 & E2 & E3 & E4 & E5).
  exists m', a, b, c. split; [exact E1|]. split; [exact E2|]. split.
  - intros i Hi. rewrite E3. by apply xrstor_state.
  - split; [exact E4|]. by rewrite E5, xrstor_trace, <- app_assoc.
Qed.

Lemma resume_restores o m f p g area len : resume_ready o m f p g area len →
  ∃ m' a b c, run O (resume_asm o) m = Returned f m' ∧
    registers_of m' = registers_at (words m) p ∧
    (∀ i, 0 ≤ i < 64 → xregs m' i = if area =? 0 then xregs m i else areas m area i) ∧
    m_if m' = false ∧
    trace m' = trace m ++ (if area =? 0 then [] else [(DeallocXsave, area, len)])
                 ++ [(DropGuard, g, a); (Eoi, b, c)].
Proof.
  intros Hrr. pose proof (resume_prepared _ _ _ _ _ _ _ Hrr) as HP. apply test_prepared in HP.
  destruct Hrr as [Hno (S1 & S2 & S3 & S4) _ _ _ _ _ _ _ _ [Ha Hl] [Hm1 Hm2] Hk].
  rewrite (run_resume o m (no_rsp_pushes o Hno)).
  assert (8 * Z.of_nat (length (regs m <$> resume_pushes o)) ≤ regs m RSP < 2 ^ 64) as Hb
    by (rewrite length_fmap; unfold resume_pushes; cbn [length]; lia).
  destruct (push_words_spec (regs m <$> resume_pushes o) m Hb) as [_ P2 _ _ P5 P6 P7].
  revert HP P2 P5 P6 P7. generalize (push_words (regs m <$> resume_pushes o) m) as m0. intros m0 HP P2 P5 P6 P7.
  assert (∀ r, r ≠ RSP → regs (step (Test RDI) m0) r = regs m r) as Q2 by exact P2.
  assert (m_zf (step (Test RDI) m0) = (area =? 0)) as Hz by (cbn; by rewrite P2, Ha).
  change (xregs (step (Test RDI) m0) = xregs m) in P5. change (areas (step (Test RDI) m0) = areas m) in P6.
  change (trace (step (Test RDI) m0) = trace m) in P7. clear P2. revert HP P5 P6 P7 Q2 Hz.
  generalize (step (Test RDI) m0) as m1. intros m1 HP P5 P6 P7 Q2 Hz.
  destruct (Z.eqb_spec area 0) as [->|Hne].
  - destruct (finish_plain _ _ _ _ _ _ HP Hz) as (m' & a & b & c & E). exists m', a, b, c.
    rewrite <- P5, <- P7. destruct E as (E1 & E2 & E3 & E4 & E5). rewrite E3. by split_and!.
  - destruct Hk as [?|Hk]; [done|].
    destruct (finish_xrstor _ _ _ _ _ _ HP Hz Hk) as (m' & a & b & c & E); [by rewrite Q2..|].
    rewrite !Q2, P6, P7, Ha, Hl in E by done. by exists m', a, b, c.
Qed.

(** C30: a task does not notice a switch: the handler, entered by an interrupt of a task
    with the frame [f], hands the frame, all registers and all components of the
    extended state to Rust, and [resume] with copies of them ends in [iretq] to
    [f] with the same registers and the same extended state, after the area was
    freed, the guard dropped and the interrupt ended, and with interrupts off until
    [iretq]. The compiler must keep the pointer to the guard in a register that the
    call that frees the area preserves (see [guard_ptr_clobbered]). *)
Theorem context_switch_roundtrip f top m : frame_ok f → 160 ≤ top < 2 ^ 64 →
  ∃ m1, run O context_switch_handler_asm (deliver f top m) = Left RustHandler m1 ∧
    frame_at (words m1) (regs m1 RDI) = f ∧
    ∀ o m2 p g len,
      resume_ready o m2 (frame_at (words m1) (regs m1 RDI)) p g (regs m1 RDX) len →
      regs m1 RDX ≠ 0 → registers_at (words m2) p = registers_at (words m1) (regs m1 RSI) →
      areas m2 (regs m1 RDX) = areas m1 (regs m1 RDX) →
      ∃ m3 a b c, run O (resume_asm o) m2 = Returned f m3 ∧
        registers_of m3 = registers_of m ∧ (∀ i, 0 ≤ i < 64 → xregs m3 i = xregs m i) ∧ m_if m3 = false ∧
        trace m3 = trace m2 ++ [(DeallocXsave, regs m1 RDX, len); (DropGuard, g, a); (Eoi, b, c)].
Proof.
  intros Hf Htop. destruct (handler_saves f top m Hf Htop) as (m1 & Hrun & Hfr & Hrg & Hx).
  exists m1. split; [done|]. split; [done|]. intros o m2 p g len HR Hnz Hcopy Har. rewrite Hfr in HR.
  destruct (resume_restores _ _ _ _ _ _ _ HR) as (m3 & a & b & c & E1 & E2 & E3 & E4 & E5).
  exists m3, a, b, c. rewrite (proj2 (Z.eqb_neq _ _) Hnz) in E3, E5. rewrite E2, Hcopy, Hrg.
  split_and!; try done. intros i Hi. by rewrite E3, Har, Hx.
Qed.
End machine.
Arguments mach : clear implicits.
Arguments outcome : clear implicits.
Arguments Calls : clear implicits.

(** ** An instance of the calling convention *)

(** Functions that use all the registers they may *)
Definition demo_call (f : fn) (m : mach Z) : mach Z :=
  mkMach (λ r, if callee_saved r then regs m r else match f with AllocXsave => 4096 | _ => 0 end)
    (words m) (xregs m) (areas m) (m_if m) (m_df m) (m_zf m) (trace m).
#[export] Instance demo_calls : Calls Z 16.
Proof.
  refine {| call := demo_call |}; [|done..]. intros f m r Hr. cbn. by rewrite Hr.
Defined.

Definition demo_switch_frame : InterruptStackFrame := mkFrame 5000 8 514 9000 16.
Definition demo_mach : mach Z :=
  mkMach (λ r, 100 + reg_num r) (λ _, 0) (λ i, i + 7) (λ _ _, 0) true false false [].
Definition demo_operands (guard : reg) : operands := mkOperands RBX RCX R9 R10 R11 R13 guard.
(** The state when [resume] is at its assembly, with the saved registers at 61000 *)
Definition demo_resume (guard : reg) (m1 : mach Z) : mach Z :=
  mkMach (λ r, if reg_num r =? reg_num guard then 62000 else
            match r with
            | RSP => 60000 | RBX => 16 | RCX => 9000 | R9 => 514 | R10 => 8 | R11 => 5000 | R13 => 61000
            | RDI => regs m1 RDX | RSI => 832 | _ => -1
            end)
    (λ a, words m1 (a - 61000 + regs m1 RSI)) (λ _, 0) (areas m1) false false false [].

Definition out_state (o : outcome Z) : option (mach Z) :=
  match o with Returned _ m | Left _ m => Some m | Trapped => None end.
Definition demo_saved : outcome Z :=
  run (H:=demo_calls) O context_switch_handler_asm (deliver demo_switch_frame 65536 demo_mach).

(** When the compiler chooses a register for the guard that calls may change, the pointer
    is lost when the extended state is freed. *)
Lemma guard_ptr_clobbered :
  option_map trace (m1 ← out_state demo_saved;
    out_state (run (H:=demo_calls) O (resume_asm (demo_operands R8)) (demo_resume R8 m1))) =
  Some [(DeallocXsave, 4096, 832); (DropGuard, 0, 0); (Eoi, 0, 0)] ∧
  (m1 ← out_state demo_saved; Some (regs (demo_resume R8 m1) (op_guard_ptr (demo_operands R8)))) = Some 62000.
Proof. by vm_compute. Qed.

Lemma context_switch_roundtrip_witness :
  ∃ m1, demo_saved = Left RustHandler m1 ∧
  ∃ m3 a b c, run (H:=demo_calls) O (resume_asm (demo_operands R12)) (demo_resume R12 m1) = Returned demo_switch_frame m3 ∧
    registers_of m3 = registers_of demo_mach ∧ (∀ i, 0 ≤ i < 64 → xregs m3 i = i + 7) ∧ m_if m3 = false ∧
    trace m3 = [] ++ [(DeallocXsave, regs m1 RDX, 832); (DropGuard, 62000, a); (Eoi, b, c)].
Proof.
  destruct (context_switch_roundtrip (H:=demo_calls) demo_switch_frame 65536 demo_mach) as (m1 & Hrun & Hf & Hres);
    [split; cbn; lia|lia|].
  fold demo_saved in Hrun. exists m1. split; [exact Hrun|].
  assert (option_map (λ m, regs m RDX) (out_state demo_saved) = Some 4096) as Hrdx by (vm_compute; reflexivity).
  rewrite Hrun in Hrdx. injection Hrdx as Hrdx. clear Hrun.
  apply (Hres (demo_operands R12) (demo_resume R12 m1) 61000 62000 832).
  - rewrite Hf. split; cbn; try lia; try reflexivity; try done.
    unfold no_rsp. cbn. rewrite !elem_of_cons, elem_of_nil. intuition discriminate.
  - lia.
  - unfold registers_at, demo_resume. cbn [words]. f_equal; f_equal; lia.
  - reflexivity.
Defined.
