(* ===== verification/Gpt.v ===== *)
(** * GUID partition tables

    [libs/gpt]: the addresses of [chs.rs], the protective master boot record of
    [protective_mbr.rs], and the headers, the array of partitions and the reader of
    [lib.rs] with its backup header. Structures are read from the bytes of a block the
    way their [repr(C)] lays them out. The crate [crc32fast] and the allocator are
    parameters. *)

From S2P Require Import Prelude Bits BlockDevice.
Local Open Scope Z_scope.

(** [try_from] to smaller integers *)
Definition try_u8 (v : Z) : option Z := if v <=? 255 then Some v else None.
Definition try_u16 (v : Z) : option Z := if v <=? 65535 then Some v else None.
Definition try_u32 (v : Z) : option Z := if v <=? u32_max then Some v else None.
Definition mul_u32 {E} (a b : Z) : result E Z := if a * b <=? u32_max then Ok (a * b) else Panic.

(** ** [chs.rs] *)

Definition HEADS : Z := 255.
Definition SECTORS : Z := 63.

Record CHS := mkCHS { cylinder : Z; head : Z; sector : Z }.

Definition CHS_to_lba (self : CHS) : option Z :=
  if (1023 <? cylinder self) || (HEADS <=? head self) || (sector self =? 0) || (SECTORS <? sector self) then None
  else Some ((cylinder self * HEADS + head self) * SECTORS + (sector self - 1)).

Definition CHS_from_lba (lba : Z) : option CHS :=
  let temp := lba / SECTORS in
  sector ← try_u8 (lba mod SECTORS);
  let sector := sector + 1 in
  head ← try_u8 (temp mod HEADS);
  cylinder ← try_u16 (temp / HEADS);
  Some (mkCHS cylinder head sector).

Definition CHS_MAX : CHS := mkCHS 1023 254 63.

Definition CHS_encode (self : CHS) : list Z :=
  if (1023 <? cylinder self) || (254 <? head self) || (sector self =? 0) || (63 <? sector self) then [255; 255; 255]
  else
    let b0 := head self in
    let b1 := Z.lor (Z.land (sector self) 63) (Z.shiftl (Z.shiftr (cylinder self) 8) 6 mod 256) in
    let b2 := Z.land (cylinder self) 255 in
    [b0; b1; b2].

Definition CHS_decode (bytes : list Z) : CHS :=
  if decide (bytes = [255; 255; 255]) then CHS_MAX
  else
    let head := nth 0 bytes 0 in
    let sector := Z.land (nth 1 bytes 0) 63 in
    let cyl_hi := Z.shiftr (Z.land (nth 1 bytes 0) 192) 6 in
    let cyl_lo := nth 2 bytes 0 in
    mkCHS (Z.lor (Z.shiftl cyl_hi 8) cyl_lo) head sector.

(** ** [protective_mbr.rs] *)

Record PartitionRecord := mkPartitionRecord {
  boot_indicator : Z;
  starting_chs : list Z;
  os_type : Z;
  ending_chs : list Z;
  pr_starting_lba : Z;
  size_in_lba : Z;
}.
Definition OS_TYPE_PROTECTIVE : Z := 238.
Definition STARTING_CHS : list Z := [0; 2; 0].

Definition PartitionRecord_zero : PartitionRecord := mkPartitionRecord 0 [0; 0; 0] 0 [0; 0; 0] 0 0.
Definition PartitionRecord_new {E} (disk_size : Z) : result E PartitionRecord :=
  last ← sub_u64 disk_size 1;
  mret (mkPartitionRecord 0 STARTING_CHS OS_TYPE_PROTECTIVE (CHS_encode (default CHS_MAX (CHS_from_lba last)))
          1 (default u32_max (try_u32 disk_size))).

(** [true] when the record is accepted, [Err(InvalidMBRData)] otherwise *)
Definition verify_protective_mbr (self : PartitionRecord) (disk_size : Z) : bool :=
  if negb (boot_indicator self =? 0) then false
  else if negb (bool_decide (starting_chs self = STARTING_CHS)) then false
  else if negb (os_type self =? OS_TYPE_PROTECTIVE) then false
  else if negb (bool_decide (ending_chs self = CHS_encode (default CHS_MAX (CHS_from_lba disk_size)))) then false
  else if size_in_lba self =? default u32_max (try_u32 disk_size) then false
  else true.

Record ProtectiveMBR := mkMBR { partition_record : PartitionRecord; mbr_signature : list Z }.
Definition MBR_SIGNATURE : list Z := [85; 170].

Definition ProtectiveMBR_verify (self : ProtectiveMBR) (disk_size : Z) : bool :=
  if negb (verify_protective_mbr (partition_record self) disk_size) then false
  else bool_decide (mbr_signature self = MBR_SIGNATURE).
Definition ProtectiveMBR_new {E} (disk_size : Z) : result E ProtectiveMBR :=
  record ← PartitionRecord_new disk_size;
  mret (mkMBR record MBR_SIGNATURE).

(** The cast of the bytes of block 0 *)
Definition PartitionRecord_of_bytes (l : list Z) : PartitionRecord :=
  mkPartitionRecord (le_val (slice 0 1 l)) (slice 1 3 l) (le_val (slice 4 1 l)) (slice 5 3 l)
    (le_val (slice 8 4 l)) (le_val (slice 12 4 l)).
Definition ProtectiveMBR_of_bytes (l : list Z) : ProtectiveMBR :=
  mkMBR (PartitionRecord_of_bytes (slice 446 16 l)) (slice 510 2 l).

(** ** Headers and entries *)

Inductive InvalidHeader :=
  | InvalidSignature
  | InvalidHeaderCrc (found calculated : Z)
  | InvalidMyLBA (found expected : Z)
  | InvalidHeaderSize (size block_size : Z)
  | InvalidPartitionEntrySize (size : Z)
  | InvalidLBA (lba : Z)
  | InvalidEntryArrayCrc (found calculated : Z).

Record Header := mkHeader {
  signature : list Z;
  revision : Z;
  header_size : Z;
  header_crc32 : Z;
  reserved : Z;
  my_lba : Z;
  alternate_lba : Z;
  first_usable_lba : Z;
  last_usable_lba : Z;
  disk_guid : list Z;
  partition_entry_lba : Z;
  number_of_partitions : Z;
  size_of_partition_entry : Z;
  partition_entry_array_crc32 : Z;
}.

(** ["EFI PART"] *)
Definition EFI_PART : list Z := [69; 70; 73; 32; 80; 65; 82; 84].

Record PartitionEntry := mkPartitionEntry {
  raw_type_guid : list Z;
  raw_guid : list Z;
  pe_starting_lba : Z;
  pe_ending_lba : Z;
  attributes : Z;
  partition_name : list Z;
}.

Definition PartitionEntry_is_used (self : PartitionEntry) : bool :=
  negb (bool_decide (raw_type_guid self = replicate 16 0)).

Definition Header_of_bytes (l : list Z) : Header :=
  mkHeader (slice 0 8 l) (le_val (slice 8 4 l)) (le_val (slice 12 4 l)) (le_val (slice 16 4 l)) (le_val (slice 20 4 l))
    (le_val (slice 24 8 l)) (le_val (slice 32 8 l)) (le_val (slice 40 8 l)) (le_val (slice 48 8 l)) (slice 56 16 l)
    (le_val (slice 72 8 l)) (le_val (slice 80 4 l)) (le_val (slice 84 4 l)) (le_val (slice 88 4 l)).
Definition PartitionEntry_of_bytes (l : list Z) : PartitionEntry :=
  mkPartitionEntry (slice 0 16 l) (slice 16 16 l) (le_val (slice 32 8 l)) (le_val (slice 40 8 l)) (le_val (slice 48 8 l))
    (slice 56 72 l).
Definition PARTITION_ENTRY_SIZE : Z := 128.

(** [crc32fast]: the checksum of the bytes that were written *)
Class Crc32 := { crc32 : list Z → Z }.

Section crc.
Context `{Crc32}.

(** The header with the checksum [crc] in its place, as it is hashed *)
Definition header_fields (self : Header) (crc : Z) : list Z :=
  signature self ++ le_bytes 4 (revision self) ++ le_bytes 4 (header_size self) ++ le_bytes 4 crc ++
  le_bytes 4 (reserved self) ++ le_bytes 8 (my_lba self) ++ le_bytes 8 (alternate_lba self) ++
  le_bytes 8 (first_usable_lba self) ++ le_bytes 8 (last_usable_lba self) ++ disk_guid self ++
  le_bytes 8 (partition_entry_lba self) ++ le_bytes 4 (number_of_partitions self) ++
  le_bytes 4 (size_of_partition_entry self) ++ le_bytes 4 (partition_entry_array_crc32 self).
Definition Header_calculate_crc32 (self : Header) : Z := crc32 (header_fields self 0).
Definition Header_calc_and_set_crc32 (self : Header) : Header :=
  mkHeader (signature self) (revision self) (header_size self) (Header_calculate_crc32 self) (reserved self)
    (my_lba self) (alternate_lba self) (first_usable_lba self) (last_usable_lba self) (disk_guid self)
    (partition_entry_lba self) (number_of_partitions self) (size_of_partition_entry self)
    (partition_entry_array_crc32 self).

Definition Header_verify (self : Header) (header_lba : Z) : result InvalidHeader unit :=
  if negb (bool_decide (signature self = EFI_PART)) then Err InvalidSignature
  else
    let calculated_crc32 := Header_calculate_crc32 self in
    if negb (header_crc32 self =? calculated_crc32) then Err (InvalidHeaderCrc (header_crc32 self) calculated_crc32)
    else if negb (my_lba self =? header_lba) then Err (InvalidMyLBA (my_lba self) header_lba)
    else if negb (size_of_partition_entry self mod 128 =? 0) then
      Err (InvalidPartitionEntrySize (size_of_partition_entry self))
    else Ok tt.

(** ** Reading a table *)

Record GPT := mkGPT {
  gpt_header : Header;
  partitions : list PartitionEntry;
  warn_invalid_mbr : bool;
  warn_invalid_primary_header : option InvalidHeader;
}.

Definition iter_partitions (self : GPT) : list PartitionEntry :=
  (fix go l := match l with
               | [] => []
               | e :: l => if PartitionEntry_is_used e then e :: go l else []
               end) (partitions self).

Inductive GPTReadError {DE : Type} :=
  | ReadBlockDevice (e : DE)
  | Allocation
  | InvalidHeaders (primary backup : InvalidHeader).
Arguments GPTReadError : clear implicits.

(** The reads of a [BlockDevice] with the bytes of its blocks; a read of several blocks
    gives them one after the other. *)
Class ReadDevice (D DE : Type) := {
  BLOCK_SIZE : Z;
  rd_size : D → Z;
  rd_block : D → LBA → result DE (list Z);
  rd_contig : D → LBA → Z → result DE (list Z);
}.

Context {D DE : Type} `{RD : ReadDevice D DE}.
(** Whether the allocator has a buffer of this many bytes *)
Context (can_alloc : Z → bool).
Local Abbreviation res := (result (GPTReadError DE)).

Definition alloc_buffer_aligned (size : Z) : res unit := if can_alloc size then Ok tt else Err Allocation.

(** The loop over the entries, at the offset of the next one *)
Fixpoint read_entries (n : nat) (offset size : Z) (array_data : list Z) : res (list PartitionEntry) :=
  match n with
  | O => mret []
  | S n =>
      _ ← assert_ (offset <? Z.of_nat (length array_data));
      _ ← assert_ (offset + PARTITION_ENTRY_SIZE <=? Z.of_nat (length array_data));
      let entry := PartitionEntry_of_bytes (drop (Z.to_nat offset) array_data) in
      rest ← read_entries n (offset + size) size array_data;
      mret (entry :: rest)
  end.

(** [GPTReadError::InvalidHeaders(primary_err.unwrap_or(err), err)] *)
Definition invalid {A} (primary_err : option InvalidHeader) (err : InvalidHeader) : res A :=
  Err (InvalidHeaders (default err primary_err) err).

(** [read], when there are partitions: the array and its checksum *)
Definition read_array (device : D) (primary_err : option InvalidHeader) (header : Header)
    : res (list PartitionEntry) :=
  array_len ← mul_u32 (size_of_partition_entry header) (number_of_partitions header);
  let partition_array_block_count := counts_required_for BLOCK_SIZE array_len in
  array_start ← match LBA_new (partition_entry_lba header) with
                | Some lba => mret lba
                | None => invalid primary_err (InvalidLBA (partition_entry_lba header))
                end;
  _ ← alloc_buffer_aligned (partition_array_block_count * BLOCK_SIZE);
  count ← NonZero partition_array_block_count;
  array_data ← map_err ReadBlockDevice (rd_contig device array_start count);
  _ ← alloc_buffer_aligned (number_of_partitions header * PARTITION_ENTRY_SIZE);
  partitions ← read_entries (Z.to_nat (number_of_partitions header)) 0 (size_of_partition_entry header) array_data;
  _ ← assert_ (array_len <=? Z.of_nat (length array_data));
  let partition_array_crc := crc32 (take (Z.to_nat array_len) array_data) in
  if negb (partition_array_crc =? partition_entry_array_crc32 header) then
    let err := InvalidEntryArrayCrc (partition_entry_array_crc32 header) partition_array_crc in
    Err (InvalidHeaders err err)
  else mret partitions.

(** The inner function [read] *)
Definition gpt_read (device : D) (header_lba : LBA) (primary_err : option InvalidHeader)
    : res (Header * list PartitionEntry) :=
  _ ← alloc_buffer_aligned BLOCK_SIZE;
  header_block ← map_err ReadBlockDevice (rd_block device header_lba);
  let header := Header_of_bytes header_block in
  _ ← match Header_verify header header_lba with
      | Err invalid_header => invalid primary_err invalid_header
      | _ => mret tt
      end;
  if number_of_partitions header =? 0 then
    if negb (partition_entry_array_crc32 header =? 0) then
      invalid primary_err (InvalidEntryArrayCrc (partition_entry_array_crc32 header) 0)
    else mret (header, [])
  else
    partitions ← read_array device primary_err header;
    mret (header, partitions).

Definition read_gpt (device : D) : res GPT :=
  _ ← alloc_buffer_aligned BLOCK_SIZE;
  mbr_block ← map_err ReadBlockDevice (rd_block device 0);
  let warn_invalid_mbr := negb (ProtectiveMBR_verify (ProtectiveMBR_of_bytes mbr_block) (rd_size device)) in
  match gpt_read device 1 None with
  | Ok (header, partitions) => mret (mkGPT header partitions warn_invalid_mbr None)
  | Err (InvalidHeaders warn_invalid_primary_header _) =>
      n ← sub_u64 (rd_size device) 1;
      last_lba ← expect (LBA_new n);
      '(backup_header, partitions) ← gpt_read device last_lba (Some warn_invalid_primary_header);
      mret (mkGPT backup_header partitions warn_invalid_mbr (Some warn_invalid_primary_header))
  | Err err => Err err
  | Panic => Panic
  | Hang => Hang
  end.
End crc.
