(* ===== verification/GptProofs.v ===== *)
(** * Partition tables are read as they were written

    CHS addresses survive their encodings; a table that is on the device, or its
    backup when the first header is broken, is what [read_gpt] returns; and the
    protective record that the code writes is never accepted by the code that
    verifies it. *)

From S2P Require Import Prelude Bits BlockDevice Gpt.
Local Open Scope Z_scope.

(** ** Addresses in cylinders, heads and sectors *)

Definition chs_ok (c : CHS) : Prop := 0 ≤ cylinder c ≤ 1023 ∧ 0 ≤ head c ≤ 254 ∧ 1 ≤ sector c ≤ 63.

Lemma CHS_from_lba_ok lba : 0 ≤ lba < 1024 * HEADS * SECTORS →
  ∃ c, CHS_from_lba lba = Some c ∧ chs_ok c ∧ CHS_to_lba c = Some lba.
Proof.
  unfold HEADS, SECTORS. intros Hl. unfold CHS_from_lba, SECTORS, HEADS.
  assert (0 ≤ lba / 63) by (apply Z.div_pos; lia). assert (lba / 63 < 1024 * 255) by (apply Z.div_lt_upper_bound; lia).
  pose proof (Z.mod_pos_bound lba 63 ltac:(lia)). pose proof (Z.mod_pos_bound (lba / 63) 255 ltac:(lia)).
  assert (0 ≤ lba / 63 / 255) by (apply Z.div_pos; lia).
  assert (lba / 63 / 255 < 1024) by (apply Z.div_lt_upper_bound; lia).
  unfold try_u8, try_u16. rewrite !(proj2 (Z.leb_le _ _)) by lia. cbn.
  eexists. split; [done|]. split; [unfold chs_ok; cbn; lia|]. unfold CHS_to_lba, HEADS, SECTORS. cbn [cylinder head sector].
  rewrite (proj2 (Z.ltb_ge _ _)), (proj2 (Z.leb_gt _ _)), (proj2 (Z.eqb_neq _ _)), (proj2 (Z.ltb_ge 63 _)) by lia. cbn.
  f_equal. pose proof (Z.div_mod lba 63). pose proof (Z.div_mod (lba / 63) 255). lia.
Qed.

Lemma CHS_to_lba_from c : chs_ok c → ∃ lba, CHS_to_lba c = Some lba ∧ CHS_from_lba lba = Some c.
Proof.
  intros (Hc & Hh & Hs). destruct c as [c h s]; cbn in *. unfold CHS_to_lba, HEADS, SECTORS. cbn [cylinder head sector].
  rewrite (proj2 (Z.ltb_ge _ _)), (proj2 (Z.leb_gt _ _)), (proj2 (Z.eqb_neq _ _)), (proj2 (Z.ltb_ge 63 _)) by lia. cbn.
  eexists. split; [done|]. unfold CHS_from_lba, SECTORS, HEADS.
  replace (((c * 255 + h) * 63 + (s - 1)) / 63) with (c * 255 + h) by (rewrite Z.div_add_l, (Z.div_small (s - 1)) by lia; lia).
  replace (((c * 255 + h) * 63 + (s - 1)) mod 63) with (s - 1) by (rewrite Z.add_comm, Z.mod_add, Z.mod_small; lia).
  replace ((c * 255 + h) / 255) with c by (rewrite Z.div_add_l, (Z.div_small h) by lia; lia).
  replace ((c * 255 + h) mod 255) with h by (rewrite Z.add_comm, Z.mod_add, Z.mod_small; lia).
  unfold try_u8, try_u16. rewrite !(proj2 (Z.leb_le _ _)) by lia. cbn. by rewrite Z.sub_add.
Qed.

(** The middle byte has the sector and the high bits of the cylinder. *)
Lemma CHS_encode_ok c : chs_ok c →
  CHS_encode c = [head c; cylinder c / 256 * 64 + sector c; cylinder c mod 256].
Proof.
  intros (Hc & Hh & Hs). unfold CHS_encode.
  rewrite (proj2 (Z.ltb_ge 1023 _)), (proj2 (Z.ltb_ge 254 _)), (proj2 (Z.eqb_neq _ _)), (proj2 (Z.ltb_ge 63 _)) by lia.
  cbn [orb]. assert (0 ≤ cylinder c / 256 < 4) by (split; [apply Z.div_pos; lia|apply Z.div_lt_upper_bound; lia]).
  rewrite Z.shiftr_div_pow2, Z.shiftl_mul_pow2 by lia. change (2 ^ 8) with 256. change (2 ^ 6) with 64.
  rewrite (Z.mod_small (_ * 64)) by lia.
  change (Z.land (sector c) 63) with (Z.land (sector c) (Z.ones 6)). rewrite Z.land_ones, (Z.mod_small (sector c)) by lia.
  rewrite Z.lor_comm. change 64 with (2 ^ 6). rewrite lor_low_bits by lia.
  change 255 with (Z.ones 8). rewrite Z.land_ones by lia. done.
Qed.

Lemma CHS_decode_encode c : chs_ok c → CHS_decode (CHS_encode c) = c.
Proof.
  intros Hok. rewrite CHS_encode_ok by done. destruct Hok as (Hc & Hh & Hs). unfold CHS_decode.
  rewrite decide_False by (intros [= ? ? ?]; lia). cbn [nth].
  assert (0 ≤ cylinder c / 256 < 4) by (split; [apply Z.div_pos; lia|apply Z.div_lt_upper_bound; lia]).
  set (hi := cylinder c / 256) in *.
  replace (Z.land (hi * 64 + sector c) 63) with (sector c).
  2: { change 63 with (Z.ones 6). rewrite Z.land_ones by lia. change (2 ^ 6) with 64.
       rewrite Z.add_comm, Z.mod_add, Z.mod_small by lia. done. }
  replace (Z.shiftr (Z.land (hi * 64 + sector c) 192) 6) with hi.
  2: { rewrite Z.shiftr_land, Z.shiftr_div_pow2 by lia. change (2 ^ 6) with 64.
       rewrite Z.div_add_l, (Z.div_small (sector c)), Z.add_0_r by lia.
       change (Z.shiftr 192 6) with (Z.ones 2). rewrite Z.land_ones, Z.mod_small by lia. done. }
  pose proof (Z.mod_pos_bound (cylinder c) 256 ltac:(lia)).
  rewrite Z.shiftl_mul_pow2, (lor_low_bits _ 8) by lia. change (2 ^ 8) with 256.
  pose proof (Z.div_mod (cylinder c) 256). destruct c; cbn in *. f_equal. subst hi. lia.
Qed.

(** An address of a disk with up to 1024 cylinders becomes a CHS address that stands
    for it and survives the three bytes of the partition table; a larger one becomes
    [0xffffff] or, from 65536 cylinders on, the bytes of [CHS::MAX], which are not
    [0xffffff]. *)
Theorem chs_roundtrip lba : 0 ≤ lba ≤ u64_max →
  let encoded := CHS_encode (default CHS_MAX (CHS_from_lba lba)) in
  if lba <? 1024 * HEADS * SECTORS then CHS_to_lba (CHS_decode encoded) = Some lba
  else if lba <? 65536 * HEADS * SECTORS then encoded = [255; 255; 255]
  else encoded = [254; 255; 255].
Proof.
  intros Hl. cbn zeta. destruct (Z.ltb_spec lba (1024 * HEADS * SECTORS)) as [H1|H1].
  { destruct (CHS_from_lba_ok lba) as (c & -> & Hok & Hto); [lia|]. cbn. by rewrite CHS_decode_encode. }
  unfold HEADS, SECTORS in *.
  assert (1024 ≤ lba / 63 / 255) by (rewrite Z.div_div by lia; apply Z.div_le_lower_bound; lia).
  pose proof (Z.mod_pos_bound lba 63 ltac:(lia)). pose proof (Z.mod_pos_bound (lba / 63) 255 ltac:(lia)).
  assert (lba <? 65536 * 255 * 63 = (lba / 63 / 255 <=? 65535)) as ->.
  { rewrite Z.div_div by lia. destruct (Z.ltb_spec lba (65536 * 255 * 63)) as [Hlt|Hge]; symmetry.
    - apply Z.leb_le. apply Z.lt_succ_r. apply Z.div_lt_upper_bound; lia.
    - apply Z.leb_gt. apply Z.lt_le_trans with 65536; [lia|]. apply Z.div_le_lower_bound; lia. }
  unfold CHS_from_lba, SECTORS, HEADS, try_u8, try_u16. rewrite !(proj2 (Z.leb_le _ 255)) by lia. cbn [mbind option_bind].
  destruct (Z.leb_spec (lba / 63 / 255) 65535); [|done]. cbn [mbind option_bind default from_option id].
  unfold CHS_encode. cbn [cylinder]. by rewrite (proj2 (Z.ltb_lt 1023 _)) by lia.
Qed.

Lemma chs_roundtrip_witness : CHS_to_lba (CHS_decode (CHS_encode (default CHS_MAX (CHS_from_lba 1000000)))) = Some 1000000.
Proof. exact (chs_roundtrip 1000000 ltac:(unfold u64_max; lia)). Defined.

(** The protective record of a new partition table is never accepted by the code that
    verifies it, whatever the size of the disk: the sizes are required to differ. *)
Theorem protective_record_rejected {E} disk_size r : PartitionRecord_new (E:=E) disk_size = Ok r →
  verify_protective_mbr r disk_size = false.
Proof.
  unfold PartitionRecord_new. intros H. apply bind_Ok in H as (last & _ & H). injection H as <-.
  unfold verify_protective_mbr. cbn [boot_indicator starting_chs os_type ending_chs size_in_lba].
  repeat match goal with |- (if negb ?b then false else _) = false => destruct b; [cbn [negb]|done] end.
  by rewrite Z.eqb_refl.
Qed.

Lemma protective_record_rejected_witness :
  ∃ r, PartitionRecord_new (E:=unit) 100000 = Ok r ∧ verify_protective_mbr r 100000 = false.
Proof.
  eexists. split; [reflexivity|]. apply (protective_record_rejected (E:=unit)). reflexivity.
Defined.

(** ** Tables on a device *)

(** The bytes of the structures *)
Definition PartitionEntry_bytes (e : PartitionEntry) : list Z :=
  raw_type_guid e ++ raw_guid e ++ le_bytes 8 (pe_starting_lba e) ++ le_bytes 8 (pe_ending_lba e) ++
  le_bytes 8 (attributes e) ++ partition_name e.
Definition u64_ok (v : Z) : Prop := 0 ≤ v < 2 ^ 64.
Definition u32_ok (v : Z) : Prop := 0 ≤ v < 2 ^ 32.
Record entry_ok (e : PartitionEntry) : Prop := {
  eo_type : length (raw_type_guid e) = 16%nat;
  eo_guid : length (raw_guid e) = 16%nat;
  eo_name : length (partition_name e) = 72%nat;
  eo_numbers : u64_ok (pe_starting_lba e) ∧ u64_ok (pe_ending_lba e) ∧ u64_ok (attributes e);
}.
Record header_ok (h : Header) : Prop := {
  ho_signature : length (signature h) = 8%nat;
  ho_guid : length (disk_guid h) = 16%nat;
  ho_u32 : u32_ok (revision h) ∧ u32_ok (header_size h) ∧ u32_ok (header_crc32 h) ∧ u32_ok (reserved h) ∧
    u32_ok (number_of_partitions h) ∧ u32_ok (size_of_partition_entry h) ∧ u32_ok (partition_entry_array_crc32 h);
  ho_u64 : u64_ok (my_lba h) ∧ u64_ok (alternate_lba h) ∧ u64_ok (first_usable_lba h) ∧ u64_ok (last_usable_lba h) ∧
    u64_ok (partition_entry_lba h);
}.

Lemma le4 v : u32_ok v → le_val (le_bytes 4 v) = v.
Proof. apply (le_roundtrip 4). Qed.
Lemma le8 v : u64_ok v → le_val (le_bytes 8 v) = v.
Proof. apply (le_roundtrip 8). Qed.

Lemma PartitionEntry_roundtrip e rest : entry_ok e → PartitionEntry_of_bytes (PartitionEntry_bytes e ++ rest) = e.
Proof.
  intros [H1 H2 H3 (N1 & N2 & N3)]. unfold PartitionEntry_of_bytes, PartitionEntry_bytes. rewrite <- !app_assoc. byte_fields.
  rewrite !le8 by done. by destruct e.
Qed.

Lemma Header_roundtrip h rest : header_ok h → Header_of_bytes (header_fields h (header_crc32 h) ++ rest) = h.
Proof.
  intros [H1 H2 (?&?&?&?&?&?&?) (?&?&?&?&?)]. unfold Header_of_bytes, header_fields. rewrite <- !app_assoc. byte_fields.
  rewrite !le4, !le8 by done. by destruct h.
Qed.

Section device.
Context `{Crc32} {D DE : Type} `{RD : ReadDevice D DE} (can_alloc : Z → bool).
Implicit Types (d : D) (h : Header) (es : list PartitionEntry).

(** A slot of the array, with the bytes after an entry *)
Definition slot_of (size : Z) (e : PartitionEntry) (s : list Z) : Prop :=
  Z.of_nat (length s) = size ∧ ∃ pad, s = PartitionEntry_bytes e ++ pad.

(** The header [h] and the entries [es] are on the device, with the checksums. *)
Record table_at d (lba : LBA) h es : Prop := {
  ta_block : ∃ rest, rd_block d lba = Ok (header_fields h (header_crc32 h) ++ rest);
  ta_header : header_ok h;
  ta_signature : signature h = EFI_PART;
  ta_crc : header_crc32 h = Header_calculate_crc32 h;
  ta_lba : my_lba h = lba;
  ta_size : 0 < size_of_partition_entry h ∧ size_of_partition_entry h mod 128 = 0;
  ta_count : number_of_partitions h = Z.of_nat (length es);
  ta_fits : size_of_partition_entry h * number_of_partitions h ≤ u32_max;
  ta_start : partition_entry_lba h < u64_max;
  ta_entries : Forall entry_ok es;
  ta_array : match es with
    | [] => partition_entry_array_crc32 h = 0
    | _ => ∃ slots rest,
        rd_contig d (partition_entry_lba h)
          (counts_required_for BLOCK_SIZE (size_of_partition_entry h * number_of_partitions h)) = Ok (concat slots ++ rest) ∧
        Forall2 (slot_of (size_of_partition_entry h)) es slots ∧
        partition_entry_array_crc32 h = crc32 (concat slots)
    end;
}.

Lemma entry_bytes_length e : entry_ok e → length (PartitionEntry_bytes e) = 128%nat.
Proof.
  intros [H1 H2 H3 _]. unfold PartitionEntry_bytes. rewrite !length_app, !le_bytes_length, H1, H2, H3. done.
Qed.

Lemma slots_length size es slots : Forall2 (slot_of size) es slots →
  Z.of_nat (length (concat slots)) = size * Z.of_nat (length es).
Proof.
  induction 1 as [|e s es slots [Hs _] _ IH]; cbn [concat length]; [lia|]. rewrite length_app. lia.
Qed.

Lemma read_entries_slots size es slots : Forall2 (slot_of size) es slots → Forall entry_ok es →
  ∀ pre rest, read_entries (DE:=DE) (length es) (Z.of_nat (length pre)) size (pre ++ concat slots ++ rest) = Ok es.
Proof.
  induction 1 as [|e s es slots [Hs (pad & ->)] Hsl IH]; intros Hok pre rest; [done|].
  apply Forall_cons in Hok as [He Hok]. cbn [length read_entries concat]. pose proof (entry_bytes_length e He) as Hl.
  rewrite length_app in Hs.
  unfold PARTITION_ENTRY_SIZE. rewrite !length_app, (proj2 (Z.ltb_lt _ _)), (proj2 (Z.leb_le _ _)) by lia.
  cbn [assert_ mbind result_bind].
  rewrite <- !app_assoc, Nat2Z.id, drop_app_length, PartitionEntry_roundtrip by done.
  specialize (IH Hok (pre ++ PartitionEntry_bytes e ++ pad) rest). rewrite !length_app in IH.
  replace (Z.of_nat (length pre) + size) with (Z.of_nat (length pre + (length (PartitionEntry_bytes e) + length pad))) by lia.
  rewrite <- !app_assoc in IH. rewrite IH. done.
Qed.

Lemma calc_and_set_calculates h :
  header_crc32 (Header_calc_and_set_crc32 h) = Header_calculate_crc32 (Header_calc_and_set_crc32 h).
Proof. by destruct h. Qed.

Context (Halloc : ∀ n, can_alloc n = true).

Lemma alloc_ok n : alloc_buffer_aligned (DE:=DE) can_alloc n = Ok tt.
Proof. unfold alloc_buffer_aligned. by rewrite Halloc. Qed.

Lemma gpt_verify_ok h lba : signature h = EFI_PART → header_crc32 h = Header_calculate_crc32 h → my_lba h = lba →
  size_of_partition_entry h mod 128 = 0 → Header_verify h lba = Ok tt.
Proof.
  intros Hs Hc Hl Hz. unfold Header_verify. rewrite bool_decide_eq_true_2 by done. cbn [negb].
  by rewrite Hc, Z.eqb_refl, Hl, Z.eqb_refl, Hz.
Qed.

Lemma counts_pos total : 0 < total → 0 < BLOCK_SIZE → 0 < counts_required_for BLOCK_SIZE total.
Proof.
  generalize BLOCK_SIZE as b. intros b Ht Hb. unfold counts_required_for. pose proof (Z.div_pos total b ltac:(lia) Hb).
  pose proof (Z.div_mod total b ltac:(lia)). destruct (Z.eqb_spec (total mod b) 0); cbn; nia.
Qed.

Context (Hblock : 0 < BLOCK_SIZE).

Lemma table_array d lba h es pe : table_at d lba h es → es ≠ [] → read_array can_alloc d pe h = Ok es.
Proof.
  intros [_ _ _ _ _ [Hsz _] Hn Hf Hst Hes Har] Hne. destruct es as [|e es]; [done|].
  destruct Har as (slots & rest & Hrd & Hsl & Hcrc). pose proof (slots_length _ _ _ Hsl) as Hlen.
  unfold read_array, mul_u32. rewrite (proj2 (Z.leb_le _ u32_max)) by done. cbn [mbind result_bind].
  unfold LBA_new. rewrite (proj2 (Z.eqb_neq _ u64_max)) by lia. cbn [mbind result_bind mret result_ret].
  rewrite alloc_ok. cbn [mbind result_bind]. unfold NonZero.
  rewrite (proj2 (Z.eqb_neq (counts_required_for _ _) 0))
    by (pose proof (counts_pos (size_of_partition_entry h * number_of_partitions h)); cbn [length] in *; nia).
  cbn [mbind result_bind]. rewrite Hrd. cbn [map_err mbind result_bind]. rewrite alloc_ok. cbn [mbind result_bind].
  rewrite Hn, Nat2Z.id. pose proof (read_entries_slots _ _ _ Hsl Hes [] rest) as Hre. 
  change (Z.of_nat (length (@nil Z))) with 0 in Hre. rewrite app_nil_l in Hre.
  rewrite Hre. cbn [mbind result_bind]. rewrite length_app, (proj2 (Z.leb_le _ _)) by lia. cbn [assert_ mbind result_bind].
  rewrite <- Hlen, Nat2Z.id, take_app_length, Hcrc, Z.eqb_refl. done.
Qed.

Lemma table_read d lba h es pe : table_at d lba h es → gpt_read can_alloc d lba pe = Ok (h, es).
Proof.
  intros HT. pose proof HT as [[rest Hb] Hok Hsg Hc Hl [_ Hz] Hn _ _ _ Har].
  unfold gpt_read. rewrite alloc_ok. cbn [mbind result_bind]. rewrite Hb. cbn [map_err mbind result_bind].
  rewrite Header_roundtrip, gpt_verify_ok by done. cbn [mbind result_bind mret result_ret].
  destruct es as [|e es].
  - rewrite Hn. cbn. rewrite Har. done.
  - rewrite (proj2 (Z.eqb_neq _ 0)) by (rewrite Hn; cbn; lia). by rewrite (table_array _ _ _ _ pe HT).
Qed.

(** What is returned was verified. *)
Lemma gpt_read_sound d lba pe h es : gpt_read can_alloc d lba pe = Ok (h, es) → Header_verify h lba = Ok tt.
Proof.
  unfold gpt_read. intros Hr. apply bind_Ok in Hr as ([] & _ & Hr). apply bind_Ok in Hr as (b & _ & Hr).
  apply bind_Ok in Hr as ([] & Hv & Hr).
  assert (h = Header_of_bytes b) as ->.
  { destruct (_ =? 0); [destruct (negb _); [done|by injection Hr]|]. apply bind_Ok in Hr as (es' & _ & Hr). by injection Hr. }
  destruct (Header_verify (Header_of_bytes b) lba) as [[]| | |] eqn:E; [done|done|exfalso..];
    revert E; unfold Header_verify; repeat case_match; done.
Qed.

(** C36: a partition table is read as it was written: the header and the entries that are on
    the device with correct checksums at block 1 are returned, whatever follows them in
    the blocks; when the primary header or its array is broken, the backup in the last
    block is returned with the error of the primary as a warning; and every header
    that is returned has the signature, its checksum and its own address. *)
Theorem read_gpt_spec d h es mbr : rd_block d 0 = Ok mbr → 1 ≤ rd_size d ≤ u64_max →
  let warn := negb (ProtectiveMBR_verify (ProtectiveMBR_of_bytes mbr) (rd_size d)) in
  (table_at d 1 h es → read_gpt can_alloc d = Ok (mkGPT h es warn None)) ∧
  (∀ e e', gpt_read can_alloc d 1 None = Err (InvalidHeaders e e') → table_at d (rd_size d - 1) h es →
     read_gpt can_alloc d = Ok (mkGPT h es warn (Some e))) ∧
  (∀ g, read_gpt can_alloc d = Ok g → Header_verify (gpt_header g) 1 = Ok tt ∨
     Header_verify (gpt_header g) (rd_size d - 1) = Ok tt).
Proof.
  intros Hm Hs warn. unfold read_gpt. rewrite alloc_ok. cbn [mbind result_bind]. rewrite Hm. cbn [map_err mbind result_bind].
  fold warn. rewrite sub_u64_ok by lia. cbn [mbind result_bind]. unfold LBA_new.
  rewrite (proj2 (Z.eqb_neq _ u64_max)) by lia. cbn [expect mbind result_bind].
  split_and!.
  - intros HT. by rewrite (table_read _ _ _ _ _ HT).
  - intros e e' -> HT. by rewrite (table_read _ _ _ _ _ HT).
  - intros g. destruct (gpt_read can_alloc d 1 None) as [[h1 es1]|[e| |e e']| |] eqn:E1; try done.
    + intros [= <-]. left. by apply gpt_read_sound in E1.
    + intros Hg. apply bind_Ok in Hg as ([h2 es2] & E2 & Hg). injection Hg as <-. right. by apply gpt_read_sound in E2.
Qed.
End device.

(** ** A disk *)

(** CRC-32 with the polynomial of IEEE 802.3, as [crc32fast] documents it *)
Fixpoint crc_bits (n : nat) (c : Z) : Z :=
  match n with
  | O => c
  | S n => crc_bits n (if Z.testbit c 0 then Z.lxor (Z.shiftr c 1) 3988292384 else Z.shiftr c 1)
  end.
#[export] Instance crc32_ieee : Crc32 :=
  {| crc32 l := Z.lxor (foldl (λ c b, crc_bits 8 (Z.lxor c b)) 4294967295 l) 4294967295 |}.

Lemma crc32_check : crc32 [49; 50; 51; 52; 53; 54; 55; 56; 57] = 3421780262.
Proof. by vm_compute. Qed.

(** 40 blocks of 512 bytes *)
#[export] Instance demo_device : ReadDevice (Z → list Z) unit := {|
  BLOCK_SIZE := 512;
  rd_size _ := 40;
  rd_block d lba := if (0 <=? lba) && (lba <? 40) then Ok (d lba) else Err tt;
  rd_contig d start count := Ok (concat (d <$> seqZ start count));
|}.

Definition demo_entry (n : Z) : PartitionEntry :=
  mkPartitionEntry (replicate 16 n) (replicate 16 (n + 1)) (100 * n) (100 * n + 99) 0 (replicate 72 65).
Definition demo_entries : list PartitionEntry := [demo_entry 1; demo_entry 2].
Definition demo_header (lba other : Z) : Header :=
  Header_calc_and_set_crc32
    (mkHeader EFI_PART 65536 92 0 0 lba other 10 30 (replicate 16 7) 2 2 128
       (crc32 (concat (PartitionEntry_bytes <$> demo_entries)))).
Definition demo_header_block (lba other : Z) : list Z :=
  header_fields (demo_header lba other) (header_crc32 (demo_header lba other)) ++ replicate 420 0.
(** [broken] has another first byte in block 1. *)
Definition demo_disk (broken : bool) (lba : Z) : list Z :=
  if lba =? 1 then if broken then 0 :: tail (demo_header_block 1 39) else demo_header_block 1 39
  else if lba =? 2 then concat (PartitionEntry_bytes <$> demo_entries) ++ replicate 256 0
  else if lba =? 39 then demo_header_block 39 1
  else replicate 512 0.

Lemma demo_block_pos : 0 < BLOCK_SIZE (D:=Z → list Z) (DE:=unit).
Proof. reflexivity. Qed.

Lemma demo_entries_ok : Forall entry_ok demo_entries.
Proof. repeat constructor; cbn; unfold u64_ok; lia. Qed.

Lemma demo_table broken lba other : (lba = 1 ∧ broken = false ∧ other = 39) ∨ (lba = 39 ∧ other = 1) →
  table_at (demo_disk broken) lba (demo_header lba other) demo_entries.
Proof.
  intros Hl. assert (u32_ok (header_crc32 (demo_header lba other)) ∧ u32_ok (partition_entry_array_crc32 (demo_header lba other)))
    as [Hc1 Hc2] by (destruct Hl as [(-> & _ & ->)|(-> & ->)]; unfold u32_ok; vm_compute; intuition congruence).
  assert (0 ≤ lba < 40 ∧ 0 ≤ other < 40) as [Hb1 Hb2] by lia. split.
  - exists (replicate 420 0). destruct Hl as [(-> & -> & ->)|(-> & ->)]; reflexivity.
  - revert Hc1 Hc2. unfold demo_header. generalize (crc32 (concat (PartitionEntry_bytes <$> demo_entries))) as c.
    intros c Hc1 Hc2. split; [reflexivity..| |]; unfold u32_ok, u64_ok in *; cbn [Header_calc_and_set_crc32 revision
      header_size reserved number_of_partitions size_of_partition_entry partition_entry_array_crc32 my_lba alternate_lba
      first_usable_lba last_usable_lba partition_entry_lba] in *; lia.
  - reflexivity.
  - apply calc_and_set_calculates.
  - reflexivity.
  - done.
  - reflexivity.
  - done.
  - done.
  - apply demo_entries_ok.
  - exists (PartitionEntry_bytes <$> demo_entries), (replicate 256 0).
    split; [destruct broken; reflexivity|]. split; [|reflexivity].
    repeat constructor; exists []; by rewrite app_nil_r.
Qed.

Lemma read_gpt_spec_witness :
  read_gpt (λ _, true) (demo_disk false) = Ok (mkGPT (demo_header 1 39) demo_entries true None) ∧
  read_gpt (λ _, true) (demo_disk true) = Ok (mkGPT (demo_header 39 1) demo_entries true (Some InvalidSignature)).
Proof.
  split.
  - destruct (read_gpt_spec (λ _, true) (λ _, eq_refl) demo_block_pos (demo_disk false) (demo_header 1 39) demo_entries
      (replicate 512 0) eq_refl ltac:(cbn; unfold u64_max; lia)) as (H1 & _ & _).
    apply H1. apply demo_table. auto.
  - destruct (read_gpt_spec (λ _, true) (λ _, eq_refl) demo_block_pos (demo_disk true) (demo_header 39 1) demo_entries
      (replicate 512 0) eq_refl ltac:(cbn; unfold u64_max; lia)) as (_ & H2 & _).
    apply (H2 InvalidSignature InvalidSignature); [vm_compute; reflexivity|]. apply demo_table. auto.
Defined.
