(* ===== verification/Barrier.v ===== *)
(** * [libs/shared/src/sync/barrier.rs]: barriers

    [Barrier] as a program for any number of threads, one step per access to its two
    counters: [enter_step] is [enter], [bar_step] is [enter_with_timeout], whose waits
    are ended by the environment; and [DataBarrier] on top of it. The memory is sequentially consistent, as the
    orderings of the code ask for. *)

From S2P Require Import Prelude.
Local Open Scope Z_scope.

Definition wrap_u32 (n : Z) : Z := n mod 2 ^ 32.

Record Barrier := mkBarrier { enter_count : Z; passing_count : Z; target : Z }.
Definition Barrier_new (target : Z) : Barrier := mkBarrier 0 0 target.
Definition set_enter (n : Z) (b : Barrier) : Barrier := mkBarrier n (passing_count b) (target b).
Definition set_passing (n : Z) (b : Barrier) : Barrier := mkBarrier (enter_count b) n (target b).

Definition Barrier_set_target (n : Z) (b : Barrier) : Barrier := mkBarrier (enter_count b) (passing_count b) n.
Definition Barrier_shatter (b : Barrier) : Barrier := set_enter (target b) b.

(** Where a thread is in [enter] or [enter_with_timeout] *)
Inductive bar_pc :=
  | Outside
  (** the first loop, which waits until the barrier is open *)
  | WaitOpen
  (** before the [compare_exchange] that finds the leader *)
  | FindLeader
  (** before the [fetch_add] of [enter_count] *)
  | Enter (leader : bool)
  (** the second loop, with the last value of [enter_count] *)
  | Current (leader : bool) (current : Z)
  (** before [enter_count] is loaded again *)
  | Reload (leader : bool)
  (** after the second loop: the leader waits for the others, which leave *)
  | Passed (leader : bool)
  (** the leader before its two stores *)
  | ResetEnter
  | ResetPassing
  (** an overflow *)
  | BarPanicked.

(** A thread with the number of its calls, of the calls that returned, of those that
    returned [true], and of those that timed out; [timed] while it is in
    [enter_with_timeout]. *)
Record BarThread := mkBarThread {
  bpc : bar_pc;
  timed : bool;
  called : nat;
  returned : nat;
  led : nat;
  timeouts : nat;
}.
Definition BarThread_new : BarThread := mkBarThread Outside false 0 0 0 0.

Definition go (p : bar_pc) (t : BarThread) : BarThread :=
  mkBarThread p (timed t) (called t) (returned t) (led t) (timeouts t).
Definition returns (leader : bool) (t : BarThread) : BarThread :=
  mkBarThread Outside false (called t) (S (returned t)) (if leader then S (led t) else led t) (timeouts t).
Definition times_out (t : BarThread) : BarThread :=
  mkBarThread Outside false (called t) (returned t) (led t) (S (timeouts t)).

(** [enter] *)
Definition enter_step (b : Barrier) (t : BarThread) : BarThread * Barrier :=
  match bpc t with
  | Outside => (mkBarThread WaitOpen false (S (called t)) (returned t) (led t) (timeouts t), b)
  | WaitOpen =>
      let pass_count := passing_count b in
      if (pass_count =? target b) || (pass_count =? 0) then (go FindLeader t, b) else (t, b)
  | FindLeader =>
      if passing_count b =? 0 then (go (Enter true) t, set_passing (target b) b) else (go (Enter false) t, b)
  | Enter leader =>
      (go (Current leader (enter_count b)) t, set_enter (wrap_u32 (enter_count b + 1)) b)
  | Current leader current => if current <? target b then (go (Reload leader) t, b) else (go (Passed leader) t, b)
  | Reload leader => (go (Current leader (enter_count b)) t, b)
  | Passed true => if passing_count b =? 1 then (go ResetEnter t, b) else (t, b)
  | ResetEnter => (go ResetPassing t, set_enter 0 b)
  | ResetPassing => (returns true t, set_passing 0 b)
  | Passed false => (returns false t, set_passing (wrap_u32 (passing_count b - 1)) b)
  | BarPanicked => (t, b)
  end.

(** What the environment decides: the function that a thread calls next, and whether
    [check_timeout] ends the wait *)
Record bar_event := mkEvent { with_timeout : bool; time_is_up : bool }.

Definition bar_step (ev : bar_event) (b : Barrier) (t : BarThread) : BarThread * Barrier :=
  let up := timed t && time_is_up ev in
  match bpc t with
  | Outside => (mkBarThread WaitOpen (with_timeout ev) (S (called t)) (returned t) (led t) (timeouts t), b)
  | WaitOpen =>
      let pass_count := passing_count b in
      if (pass_count =? target b) || (pass_count =? 0) then (go FindLeader t, b)
      else if up then (times_out t, b) else (t, b)
  | FindLeader =>
      if passing_count b =? 0 then (go (Enter true) t, set_passing (target b) b) else (go (Enter false) t, b)
  | Enter leader =>
      (go (Current leader (enter_count b)) t, set_enter (wrap_u32 (enter_count b + 1)) b)
  | Current leader current =>
      if current <? target b then
        if up then
          if current =? 0 then (go BarPanicked t, b)
          else if enter_count b =? current then (times_out t, set_enter (current - 1) b)
          else (go (Reload leader) t, b)
        else (go (Reload leader) t, b)
      else (go (Passed leader) t, b)
  | Reload leader => (go (Current leader (enter_count b)) t, b)
  | Passed true =>
      if passing_count b =? 1 then (go ResetEnter t, b)
      else if up then (times_out t, b) else (t, b)
  | ResetEnter => (go ResetPassing t, set_enter 0 b)
  | ResetPassing => (returns true t, set_passing 0 b)
  | Passed false => (returns false t, set_passing (wrap_u32 (passing_count b - 1)) b)
  | BarPanicked => (t, b)
  end.

Definition BarState : Type := Barrier * list BarThread.
Definition bar_run (i : nat) (ev : bar_event) (s : BarState) : BarState :=
  match s.2 !! i with
  | Some t => let '(t, b) := bar_step ev s.1 t in (b, <[i:=t]> s.2)
  | None => s
  end.

(** Steps of threads that call [enter] *)
Definition enter_run (i : nat) (s : BarState) : BarState :=
  match s.2 !! i with
  | Some t => let '(t, b) := enter_step s.1 t in (b, <[i:=t]> s.2)
  | None => s
  end.
Inductive enter_next : BarState → BarState → Prop :=
  | enter_thread s i : enter_next s (enter_run i s).

(** The same as steps of [bar_step] *)
Definition no_timeout : bar_event := mkEvent false false.
Inductive bar_next : BarState → BarState → Prop :=
  | bar_thread s i : bar_next s (bar_run i no_timeout s).

Definition bar_initial (n : nat) : BarState := (Barrier_new (Z.of_nat n), replicate n BarThread_new).

(** ** [DataBarrier] *)

Section data.
Context {T : Type}.

(** The data and the number of its read guards: [write] waits until there are none. *)
Record DataCell := mkDataCell { bdata : option T; guards : Z }.
Inductive DataBarrierError := NoData | Timeout.

(** Where a thread is in [enter] or [enter_with_data] of the data barrier *)
Inductive data_pc :=
  | DataOutside
  | WriteData (d : T)
  | InBarrier (n : nat)
  | ReadData
  | Holds (r : result DataBarrierError T).

(** What an idle thread calls *)
Inductive data_event := CallEnter | CallEnterWithData (d : T).

Record DataState := mkDataState { barrier : BarState; cell : DataCell; pcs : list data_pc }.

(** [InBarrier n]: [Barrier::enter] has not returned for the [n+1]st time. *)
Definition data_step (i : nat) (ev : data_event) (s : DataState) : DataState :=
  match pcs s !! i, (barrier s).2 !! i with
  | Some p, Some t =>
      match p with
      | DataOutside =>
          let p := match ev with CallEnter => InBarrier (returned t) | CallEnterWithData d => WriteData d end in
          mkDataState (barrier s) (cell s) (<[i:=p]> (pcs s))
      | WriteData d =>
          if guards (cell s) =? 0
          then mkDataState (barrier s) (mkDataCell (Some d) 0) (<[i:=InBarrier (returned t)]> (pcs s))
          else s
      | InBarrier n =>
          if (n <? returned t)%nat then mkDataState (barrier s) (cell s) (<[i:=ReadData]> (pcs s))
          else mkDataState (enter_run i (barrier s)) (cell s) (pcs s)
      | ReadData =>
          match bdata (cell s) with
          | None => mkDataState (barrier s) (cell s) (<[i:=Holds (Err NoData)]> (pcs s))
          | Some d => mkDataState (barrier s) (mkDataCell (Some d) (guards (cell s) + 1)) (<[i:=Holds (Ok d)]> (pcs s))
          end
      | Holds r =>
          (** the guard is dropped *)
          let c := match r with Ok _ => mkDataCell (bdata (cell s)) (guards (cell s) - 1) | _ => cell s end in
          mkDataState (barrier s) c (<[i:=DataOutside]> (pcs s))
      end
  | _, _ => s
  end.

Definition data_initial (n : nat) : DataState :=
  mkDataState (bar_initial n) (mkDataCell None 0) (replicate n DataOutside).

(** [take_data]; [None] while it waits for the guards *)
Definition take_data (c : DataCell) : option (option T * DataCell) :=
  if guards c =? 0 then Some (bdata c, mkDataCell None 0) else None.
End data.
Arguments DataCell : clear implicits.
Arguments DataState : clear implicits.

(** A schedule of steps, each of a thread with what it calls when it is idle *)
Definition data_run {T} (l : list (nat * data_event)) (s : DataState T) : DataState T :=
  foldl (λ s e, data_step e.1 e.2 s) s l.

(** ** Rounds *)

Definition is_added (t : BarThread) : bool :=
  match bpc t with Current _ _ | Reload _ => true | _ => false end.
Definition is_entering (t : BarThread) : bool :=
  match bpc t with Enter _ => true | _ => false end.
Definition is_leader (t : BarThread) : bool :=
  match bpc t with Enter true | Current true _ | Reload true | Passed true | ResetEnter | ResetPassing => true | _ => false end.
Definition is_follower (t : BarThread) : bool :=
  match bpc t with Current false _ | Reload false | Passed false => true | _ => false end.

Section rounds.
Context (n : nat) (Hn : (0 < n)%nat) (Hu32 : Z.of_nat n < 2 ^ 32).
Local Abbreviation N := (Z.of_nat n).

(** Threads gather: some have added themselves to [enter_count]. *)
Definition gathers (r : nat) (t : BarThread) : Prop :=
  timed t = false ∧ returned t = r ∧
  match bpc t with
  | Outside => called t = r
  | WaitOpen | FindLeader | Enter _ | Reload _ => called t = S r
  | Current _ c => called t = S r ∧ 0 ≤ c < N
  | _ => False
  end.
(** All have entered; the ones that left may already have called again. *)
Definition passes (r : nat) (t : BarThread) : Prop :=
  timed t = false ∧
  match bpc t with
  | Outside => returned t = S r ∧ called t = S r
  | WaitOpen => returned t = S r ∧ called t = S (S r)
  | Current _ c => returned t = r ∧ called t = S r ∧ c ≤ N
  | Reload _ | Passed _ | ResetEnter => returned t = r ∧ called t = S r
  | _ => False
  end.
(** The leader is between its stores. *)
Definition resets (r : nat) (t : BarThread) : Prop :=
  timed t = false ∧
  match bpc t with
  | Outside => returned t = S r ∧ called t = S r
  | WaitOpen => returned t = S r ∧ called t = S (S r)
  | ResetPassing => returned t = r ∧ called t = S r
  | _ => False
  end.
Definition at_reset (t : BarThread) : bool := match bpc t with ResetEnter => true | _ => false end.

Record gathering (r : nat) (s : BarState) : Prop := {
  ga_enter : enter_count s.1 = Z.of_nat (count is_added s.2);
  ga_below : (count is_added s.2 < n)%nat;
  ga_threads : Forall (gathers r) s.2;
  ga_leader : (passing_count s.1 = 0 ∧ count is_added s.2 = 0%nat ∧ count is_entering s.2 = 0%nat) ∨
    (passing_count s.1 = N ∧ count is_leader s.2 = 1%nat);
}.
Record passing (r : nat) (s : BarState) : Prop := {
  pa_enter : enter_count s.1 = N;
  pa_passing : passing_count s.1 = 1 + Z.of_nat (count is_follower s.2);
  pa_leader : count is_leader s.2 = 1%nat;
  pa_threads : Forall (passes r) s.2;
  pa_reset : (1 ≤ count at_reset s.2)%nat → count is_follower s.2 = 0%nat;
}.
Record resetting (r : nat) (s : BarState) : Prop := {
  re_enter : enter_count s.1 = 0;
  re_passing : passing_count s.1 = 1;
  re_leader : count is_leader s.2 = 1%nat;
  re_threads : Forall (resets r) s.2;
}.

Record bar_ok (r : nat) (s : BarState) : Prop := {
  bo_target : target s.1 = N;
  bo_length : length s.2 = n;
  bo_led : sum_list_with led s.2 = r;
  bo_phase : gathering r s ∨ passing r s ∨ resetting r s;
}.

(** The counts after one thread has changed *)
Ltac thread_counts ts i t t' Ht Hpc :=
  pose proof (count_insert is_added ts i t t' Ht) as CA;
  pose proof (count_insert is_entering ts i t t' Ht) as CE;
  pose proof (count_insert is_leader ts i t t' Ht) as CL;
  pose proof (count_insert is_follower ts i t t' Ht) as CF;
  pose proof (count_insert at_reset ts i t t' Ht) as CR;
  unfold is_added, is_entering, is_leader, is_follower, at_reset in CA, CE, CL, CF, CR;
  rewrite Hpc in CA, CE, CL, CF, CR; cbn in CA, CE, CL, CF, CR;
  fold is_added is_entering is_leader is_follower at_reset in CA, CE, CL, CF, CR.

Lemma gathering_step r b ts i t : target b = N → length ts = n → gathering r (b, ts) → ts !! i = Some t →
  let '(t', b') := bar_step no_timeout b t in
  led t' = led t ∧ (gathering r (b', <[i:=t']> ts) ∨ passing r (b', <[i:=t']> ts)).
Proof.
  intros Htg Hlen [Ge Gb Gt Gl] Ht. cbn [fst snd] in *.
  pose proof (Forall_lookup_1 _ _ _ _ Gt Ht) as (Gti & Gr & Gp).
  destruct (bpc t) as [| | |l|l c|l|l| | |] eqn:Hpc; try done; unfold bar_step; rewrite Hpc, ?Gti; cbn [andb].
  - split; [done|left]. set (t' := mkBarThread _ _ _ _ _ _). thread_counts ts i t t' Ht Hpc.
    split; cbn [fst snd]; [lia|lia| |lia]. apply Forall_insert; [done|]. split; [done|]. cbn. lia.
  - assert ((passing_count b =? target b) || (passing_count b =? 0) = true) as -> by (destruct Gl as [(-> & _)|(-> & _)];
      rewrite ?Htg, ?Z.eqb_refl; [by rewrite orb_true_r|done]).
    split; [done|left]. set (t' := go _ _). thread_counts ts i t t' Ht Hpc.
    split; cbn [fst snd]; [lia|lia| |lia]. by apply Forall_insert.
  - destruct (Z.eqb_spec (passing_count b) 0) as [Hp0|Hp0]; (split; [done|left]);
      [set (t' := go _ _); thread_counts ts i t t' Ht Hpc; (split; cbn [fst snd set_passing enter_count passing_count])..].
    + lia.
    + lia.
    + by apply Forall_insert.
    + right. split; [done|]. destruct Gl as [(_ & Ha & He)|(Hp & _)]; [|lia].
      assert (count is_leader ts = 0%nat) as Hz; [|lia].
      apply count_none in Ha, He. clear - Gt Ha He. induction ts as [|x ts IH]; [done|].
      apply Forall_cons in Gt as [(_ & _ & Hx) Gt], Ha as [Ha1 Ha], He as [He1 He]. rewrite count_cons, IH by done.
      unfold is_added, is_entering, is_leader in *. by destruct (bpc x) as [| | |[]|[]|[]|[]| | |].
    + lia.
    + lia.
    + by apply Forall_insert.
    + right. destruct Gl as [(Hp & _)|(Hp & Hc)]; [lia|]. split; [done|]. lia.
  - split; [done|]. set (t' := go _ _). thread_counts ts i t t' Ht Hpc. pose proof (count_le is_added (<[i:=t']> ts)) as Hle.
    rewrite length_insert, Hlen in Hle.
    destruct Gl as [(_ & _ & He)|(Hp & Hl)]; [pose proof (count_elem is_entering ts i t Ht); unfold is_entering in *;
      rewrite Hpc in *; specialize (H eq_refl); lia|].
    unfold wrap_u32. rewrite Z.mod_small by lia.
    destruct (decide (S (count is_added ts) = n)) as [Hfull|Hmore].
    + right. assert (Forall (λ x, is_added x = true) (<[i:=t']> ts)) as Hall by (apply count_all; rewrite length_insert; lia).
      assert (Forall (gathers r) (<[i:=t']> ts)) as Gt' by (apply Forall_insert; [done|]; split; [done|]; cbn; lia).
      assert (count is_leader (<[i:=t']> ts) + count is_follower (<[i:=t']> ts) = n ∧ count at_reset (<[i:=t']> ts) = 0)%nat as [Hs Hz].
      { rewrite <- Hlen, <- (length_insert ts i t'). clear - Hall. induction Hall as [|x xs Hx _ IH]; [done|].
        rewrite !count_cons. cbn [length]. unfold is_added, is_leader, is_follower, at_reset in *.
        destruct (bpc x) as [| | |[]|[]|[]|[]| | |]; try done; lia. }
      assert (count is_leader (<[i:=t']> ts) = 1)%nat by (destruct l; lia).
      split; cbn [fst snd set_enter enter_count passing_count]; [lia|lia|done| |lia].
      apply Forall_forall. intros x Hx. rewrite Forall_forall in Hall, Gt'. specialize (Hall x Hx).
      destruct (Gt' x Hx) as (? & ? & Hg). split; [done|]. unfold is_added in Hall. destruct (bpc x); try done; lia.
    + left. split; cbn [fst snd set_enter enter_count passing_count]; [lia|lia| |right; split; [done|destruct l; lia]].
      apply Forall_insert; [done|]. split; [done|]. split; [done|]. cbn. lia.
  - rewrite (proj2 (Z.ltb_lt _ _)) by lia. split; [done|left]. set (t' := go _ _). thread_counts ts i t t' Ht Hpc.
    split; cbn [fst snd]; [lia|lia| |destruct l; lia]. apply Forall_insert; [done|]. split; [done|]. cbn. lia.
  - split; [done|left]. set (t' := go _ _). thread_counts ts i t t' Ht Hpc.
    split; cbn [fst snd]; [lia|lia| |destruct l; lia]. apply Forall_insert; [done|]. split; [done|]. cbn. lia.
Qed.

(** A thread that has called again is kept out until the round is over. *)
Lemma passing_closed r b ts i t : length ts = n → passing r (b, ts) → ts !! i = Some t → bpc t = WaitOpen →
  (passing_count b =? N) || (passing_count b =? 0) = false.
Proof.
  intros Hlen [_ Pp Pl _ _] Ht Hpc. cbn [fst snd] in *.
  assert (count is_leader ts + count is_follower ts < length ts)%nat.
  { eapply (count_three is_leader is_follower); [|exact Ht|..].
    - intros x. unfold is_leader, is_follower. by destruct (bpc x) as [| | |[]|[]|[]|[]| | |].
    - unfold is_leader. by rewrite Hpc.
    - unfold is_follower. by rewrite Hpc. }
  apply orb_false_iff. split; apply Z.eqb_neq; lia.
Qed.

Lemma passing_step r b ts i t : target b = N → length ts = n → passing r (b, ts) → ts !! i = Some t →
  let '(t', b') := bar_step no_timeout b t in
  led t' = led t ∧ (passing r (b', <[i:=t']> ts) ∨ resetting r (b', <[i:=t']> ts)).
Proof.
  intros Htg Hlen HP Ht. pose proof HP as [Pe Pp Pl Pt Pr]. cbn [fst snd] in *.
  pose proof (Forall_lookup_1 _ _ _ _ Pt Ht) as (Gti & Gp).
  destruct (bpc t) as [| | |l|l c|l|[]| | |] eqn:Hpc; try done; unfold bar_step; rewrite Hpc, ?Gti; cbn [andb].
  - split; [done|left]. set (t' := mkBarThread _ _ _ _ _ _). thread_counts ts i t t' Ht Hpc.
    split; cbn [fst snd]; [lia|lia|lia| |lia]. apply Forall_insert; [done|]. split; [done|]. cbn. lia.
  - rewrite Htg, (passing_closed r b ts i t) by done. split; [done|left]. by rewrite list_insert_id.
  - destruct (Z.ltb_spec c (target b)); (split; [done|left]); set (t' := go _ _); thread_counts ts i t t' Ht Hpc;
      (split; cbn [fst snd]; [lia|destruct l; lia|destruct l; lia| |destruct l; lia]); (apply Forall_insert; [done|]);
      (split; [done|]); cbn; lia.
  - split; [done|left]. set (t' := go _ _). thread_counts ts i t t' Ht Hpc.
    split; cbn [fst snd]; [lia|destruct l; lia|destruct l; lia| |destruct l; lia]. apply Forall_insert; [done|].
    split; [done|]. cbn. lia.
  - destruct (Z.eqb_spec (passing_count b) 1) as [Hp|Hp]; [|split; [done|left]; by rewrite list_insert_id].
    split; [done|left]. set (t' := go _ _). thread_counts ts i t t' Ht Hpc.
    split; cbn [fst snd]; [lia|lia|lia| |lia]. apply Forall_insert; [done|]. split; [done|]. cbn. lia.
  - set (t' := returns false t). split; [done|left]. thread_counts ts i t t' Ht Hpc.
    pose proof (count_le is_follower ts). unfold wrap_u32.
    split; cbn [fst snd set_passing enter_count passing_count]; [lia|rewrite Z.mod_small by lia; lia|lia| |lia].
    apply Forall_insert; [done|]. split; [done|]. cbn. lia.
  - split; [done|right]. set (t' := go _ _). thread_counts ts i t t' Ht Hpc.
    assert (count is_follower ts = 0)%nat as Hf by (apply Pr, (count_elem _ _ i t Ht); unfold at_reset; by rewrite Hpc).
    split; cbn [fst snd set_enter enter_count passing_count]; [done|lia|lia|].
    apply Forall_lookup_2. intros j x [(<- & <- & _)|[Hne Hx]]%list_lookup_insert_Some; [by split|].
    destruct (Forall_lookup_1 _ _ _ _ Pt Hx) as (? & Hq). split; [done|].
    pose proof (Forall_lookup_1 _ _ _ _ (count_none _ _ Hf) Hx) as Hxf.
    assert (is_leader x = false) as Hxl.
    { destruct (is_leader x) eqn:E; [|done]. destruct Hne.
      apply (count_one is_leader ts i j t x); try done. unfold is_leader. by rewrite Hpc. }
    unfold is_follower, is_leader in *. by destruct (bpc x) as [| | |[]|[]|[]|[]| | |].
Qed.

Lemma resetting_step r b ts i t : target b = N → length ts = n → resetting r (b, ts) → ts !! i = Some t →
  let '(t', b') := bar_step no_timeout b t in
  (led t' = led t ∧ resetting r (b', <[i:=t']> ts)) ∨ (led t' = S (led t) ∧ gathering (S r) (b', <[i:=t']> ts)).
Proof.
  intros Htg Hlen [Re Rp Rl Rt]  Ht. cbn [fst snd] in *.
  pose proof (Forall_lookup_1 _ _ _ _ Rt Ht) as (Gti & Gp).
  destruct (bpc t) as [| | |l|l c|l|l| | |] eqn:Hpc; try done; unfold bar_step; rewrite Hpc, ?Gti; cbn [andb].
  - left. split; [done|]. set (t' := mkBarThread _ _ _ _ _ _). thread_counts ts i t t' Ht Hpc.
    split; cbn [fst snd]; [lia|lia|lia|]. apply Forall_insert; [done|]. split; [done|]. cbn. lia.
  - assert ((passing_count b =? target b) || (passing_count b =? 0) = false) as ->.
    { apply orb_false_iff. split; apply Z.eqb_neq; [|lia].
      assert (1 + count is_follower ts < n)%nat; [|lia]. rewrite <- Rl, <- Hlen.
      eapply (count_three is_leader is_follower); [|exact Ht|..].
      - intros x. unfold is_leader, is_follower. by destruct (bpc x) as [| | |[]|[]|[]|[]| | |].
      - unfold is_leader. by rewrite Hpc.
      - unfold is_follower. by rewrite Hpc. }
    left. by rewrite list_insert_id.
  - right. split; [done|]. set (t' := returns true t). thread_counts ts i t t' Ht Hpc.
    assert (Forall (λ x, gathers (S r) x ∧ is_added x = false ∧ is_entering x = false) (<[i:=t']> ts)) as Hall.
    { apply Forall_lookup_2. intros j x [(<- & <- & _)|[Hne Hx]]%list_lookup_insert_Some.
      { split; [|done]. split; [done|]. cbn. lia. }
      destruct (Forall_lookup_1 _ _ _ _ Rt Hx) as (? & Hq).
      assert (is_leader x = false) as Hxl.
      { destruct (is_leader x) eqn:E; [|done]. destruct Hne.
        apply (count_one is_leader ts i j t x); try done. unfold is_leader. by rewrite Hpc. }
      unfold is_leader, is_added, is_entering, gathers in *.
      destruct (bpc x) as [| | |[]|[]|[]|[]| | |]; try done; split; try done; lia. }
    assert (count is_added (<[i:=t']> ts) = 0 ∧ count is_entering (<[i:=t']> ts) = 0)%nat as [Z1 Z2].
    { clear - Hall. induction Hall as [|x xs (_ & E1 & E2) _ [IH1 IH2]]; [done|]. rewrite !count_cons, E1, E2. lia. }
    split; cbn [fst snd set_passing enter_count passing_count]; [lia|lia| |left; lia].
    eapply Forall_impl; [exact Hall|]. by intros x (? & _).
Qed.

Lemma bar_step_target ev b t : target (bar_step ev b t).2 = target b.
Proof. unfold bar_step. repeat case_match; done. Qed.

Lemma bar_run_ok r s i : bar_ok r s →
  bar_ok r (bar_run i no_timeout s) ∨ bar_ok (S r) (bar_run i no_timeout s).
Proof.
  destruct s as [b ts]. intros [Htg Hlen Hled Hph]. cbn [fst snd] in *. unfold bar_run. cbn [fst snd].
  destruct (ts !! i) as [t|] eqn:Ht; [|left; by split].
  pose proof (bar_step_target no_timeout b t) as Hb. destruct (bar_step no_timeout b t) as [t' b'] eqn:Hst. cbn in Hb.
  pose proof (sum_insert led ts i t t' Ht) as Hsum.
  assert (∀ r', led t' = (led t + (r' - r))%nat → (r ≤ r')%nat →
    gathering r' (b', <[i:=t']> ts) ∨ passing r' (b', <[i:=t']> ts) ∨ resetting r' (b', <[i:=t']> ts) →
    bar_ok r' (b', <[i:=t']> ts)) as Hok.
  { intros r' Hl Hr Hp. split; cbn [fst snd]; [congruence|by rewrite length_insert|lia|done]. }
  destruct Hph as [HG|[HP|HR]].
  - left. pose proof (gathering_step r b ts i t Htg Hlen HG Ht) as Hg. rewrite Hst in Hg. destruct Hg as [Hl [?|?]];
      (apply Hok; [lia|done|tauto]).
  - left. pose proof (passing_step r b ts i t Htg Hlen HP Ht) as Hg. rewrite Hst in Hg. destruct Hg as [Hl [?|?]];
      (apply Hok; [lia|done|tauto]).
  - pose proof (resetting_step r b ts i t Htg Hlen HR Ht) as Hg. rewrite Hst in Hg. destruct Hg as [[Hl ?]|[Hl ?]].
    + left. apply Hok; [lia|done|tauto].
    + right. apply Hok; [lia|lia|tauto].
Qed.

Lemma bar_initial_ok : bar_ok 0 (bar_initial n).
Proof.
  split; cbn [bar_initial fst snd].
  - done.
  - apply length_replicate.
  - clear Hn Hu32. induction n as [|m IH]; [done|]. cbn [replicate]. cbn. exact IH.
  - left. split; cbn [bar_initial fst snd Barrier_new enter_count passing_count]; rewrite ?(count_replicate is_added), ?(count_replicate is_entering) by done; [lia|lia| |left; lia].
    apply Forall_replicate. done.
Qed.

Lemma bar_reachable_ok s : rtc bar_next (bar_initial n) s → ∃ r, bar_ok r s.
Proof.
  revert s. apply rtc_ind_r; [exists 0%nat; apply bar_initial_ok|].
  intros s s' _ Hs [r Hr]. destruct Hs as [s i]. destruct (bar_run_ok r s i Hr); eauto.
Qed.

(** Where the threads of a round are *)
Lemma bar_ok_thread r s i t : bar_ok r s → s.2 !! i = Some t →
  (returned t = r ∨ returned t = S r) ∧ (returned t ≤ called t ≤ S (returned t))%nat ∧ bpc t ≠ BarPanicked.
Proof.
  intros [_ _ _ [[_ _ Gt _]|[[_ _ _ Pt _]|[_ _ _ Rt]]]] Ht.
  - destruct (Forall_lookup_1 _ _ _ _ Gt Ht) as (_ & ? & Hp). destruct (bpc t); try done; (split_and!; [lia|lia|lia|done]).
  - destruct (Forall_lookup_1 _ _ _ _ Pt Ht) as (_ & Hp). destruct (bpc t); try done; (split_and!; [lia|lia|lia|done]).
  - destruct (Forall_lookup_1 _ _ _ _ Rt Ht) as (_ & Hp). destruct (bpc t); try done; (split_and!; [lia|lia|lia|done]).
Qed.

Lemma bar_ok_together r s i j t u : bar_ok r s → s.2 !! i = Some t → s.2 !! j = Some u → (returned t ≤ called u)%nat.
Proof.
  intros [_ _ _ [[_ _ Gt _]|[[_ _ _ Pt _]|[_ _ _ Rt]]]] Ht Hu.
  - destruct (Forall_lookup_1 _ _ _ _ Gt Ht) as (_ & Hr & _), (Forall_lookup_1 _ _ _ _ Gt Hu) as (_ & _ & Hp).
    destruct (bpc u); try done; lia.
  - destruct (Forall_lookup_1 _ _ _ _ Pt Ht) as (_ & Hq), (Forall_lookup_1 _ _ _ _ Pt Hu) as (_ & Hp).
    destruct (bpc t), (bpc u); try done; lia.
  - destruct (Forall_lookup_1 _ _ _ _ Rt Ht) as (_ & Hq), (Forall_lookup_1 _ _ _ _ Rt Hu) as (_ & Hp).
    destruct (bpc t), (bpc u); try done; lia.
Qed.

(** The counters stay within the number of threads. *)
Lemma bar_ok_counters r s : bar_ok r s → 0 ≤ enter_count s.1 ≤ N ∧ 0 ≤ passing_count s.1 ≤ N.
Proof.
  intros [_ Hlen _ [[Ge Gb _ Gl]|[[Pe Pp Pl _ _]|[Re Rp _ _]]]].
  - destruct Gl as [(-> & _)|(-> & _)]; lia.
  - assert (count is_leader s.2 + count is_follower s.2 ≤ n)%nat as Hle; [|lia]. rewrite <- Hlen.
    clear. induction s.2 as [|x xs IH]; [done|]. rewrite !count_cons. cbn [length].
    unfold is_leader, is_follower in *. destruct (bpc x) as [| | |[]|[]|[]|[]| | |]; lia.
  - lia.
Qed.

(** ** Progress *)

Definition weight (t : BarThread) : nat :=
  match bpc t with
  | WaitOpen => 9 | FindLeader => 8 | Enter _ => 7
  | Current _ c => if c <? N then 6 else 4
  | Reload _ => 5 | Passed _ => 3 | ResetEnter => 2 | ResetPassing => 1
  | Outside | BarPanicked => 0
  end.

(** A step that ends a call, or brings a thread closer to the end of its call *)
Definition useful (b : Barrier) (t : BarThread) : Prop :=
  let t' := (bar_step no_timeout b t).1 in
  returned t' = S (returned t) ∨ (returned t' = returned t ∧ bpc t' ≠ Outside ∧ (weight t' < weight t)%nat).

Lemma bar_useful r s : bar_ok r s → (∀ i t, s.2 !! i = Some t → bpc t ≠ Outside) →
  ∃ i t, s.2 !! i = Some t ∧ useful s.1 t.
Proof.
  destruct s as [b ts]. intros [Htg Hlen _ Hph] Hin. cbn [fst snd] in *. unfold useful.
  destruct Hph as [[Ge Gb Gt Gl]|[[Pe Pp Pl Pt Pr]|[Re Rp Rl Rt]]]; cbn [fst snd] in *.
  - destruct (count_below is_added ts) as (i & t & Ht & Ha); [lia|]. exists i, t. split; [done|].
    specialize (Hin i t Ht). destruct (Forall_lookup_1 _ _ _ _ Gt Ht) as (_ & _ & Hp). right. unfold bar_step.
    unfold is_added in Ha. destruct (bpc t) as [| | |l|l c|l|l| | |] eqn:Hpc; try done.
    + rewrite Htg. assert ((passing_count b =? N) || (passing_count b =? 0) = true) as ->
        by (destruct Gl as [(-> & _)|(-> & _)]; rewrite ?Z.eqb_refl, ?orb_true_r; done).
      unfold weight. rewrite Hpc. cbn. split_and!; [done|done|lia].
    + destruct (passing_count b =? 0); unfold weight; rewrite Hpc; cbn; (split_and!; [done|done|lia]).
    + unfold weight. rewrite Hpc. cbn. split_and!; [done|done|]. case_match; lia.
  - destruct (decide (count is_follower ts = 0%nat)) as [Hf|Hf].
    + destruct (count_exists is_leader ts) as (i & t & Ht & Hl); [lia|]. exists i, t. split; [done|].
      destruct (Forall_lookup_1 _ _ _ _ Pt Ht) as (Htm & Hp). right. unfold bar_step, weight. rewrite Htm, Htg.
      unfold is_leader in Hl. destruct (bpc t) as [| | |[]|[] c|[]|[]| | |] eqn:Hpc; try done; cbn.
      * destruct (Z.ltb_spec c N) as [Hc|Hc]; cbn; split_and!; (done || lia).
      * rewrite Pe, Z.ltb_irrefl. split_and!; [done|done|lia].
      * rewrite Pp, Hf. change (1 + Z.of_nat 0 =? 1) with true. cbn. split_and!; [done|done|lia].
      * split_and!; [done|done|lia].
    + destruct (count_exists is_follower ts) as (i & t & Ht & Hl); [lia|]. exists i, t. split; [done|].
      destruct (Forall_lookup_1 _ _ _ _ Pt Ht) as (Htm & Hp). unfold bar_step, weight. rewrite Htm, Htg.
      unfold is_follower in Hl. destruct (bpc t) as [| | |[]|[] c|[]|[]| | |] eqn:Hpc; try done; cbn.
      * right. destruct (Z.ltb_spec c N) as [Hc|Hc]; cbn; split_and!; (done || lia).
      * right. rewrite Pe, Z.ltb_irrefl. split_and!; [done|done|lia].
      * by left.
  - destruct (count_exists is_leader ts) as (i & t & Ht & Hl); [lia|]. exists i, t. split; [done|].
    destruct (Forall_lookup_1 _ _ _ _ Rt Ht) as (Htm & Hp). left. unfold bar_step.
    unfold is_leader in Hl. by destruct (bpc t) as [| | |[]|[] c|[]|[]| | |] eqn:Hpc.
Qed.

Definition bar_steps (l : list nat) (s : BarState) : BarState := foldl (λ s i, bar_run i no_timeout s) s l.

Lemma bar_completes r m : ∀ s, bar_ok r s → (sum_list_with weight s.2 ≤ m)%nat →
  (∀ i t, s.2 !! i = Some t → bpc t ≠ Outside) →
  ∃ l i t t', (length l ≤ S m)%nat ∧ s.2 !! i = Some t ∧ (bar_steps l s).2 !! i = Some t' ∧ returned t' = S (returned t).
Proof.
  revert r. induction m as [m IH] using lt_wf_ind. intros r s Hok Hm Hin.
  destruct (bar_useful r s Hok Hin) as (i & t & Ht & Hu). pose proof (bar_run_ok r s i Hok) as Hok'.
  assert (bar_run i no_timeout s = ((bar_step no_timeout s.1 t).2, <[i:=(bar_step no_timeout s.1 t).1]> s.2)) as Hrun.
  { unfold bar_run. rewrite Ht. by destruct (bar_step no_timeout s.1 t). }
  rewrite Hrun in Hok'. unfold useful in Hu. set (t' := (bar_step no_timeout s.1 t).1) in *. set (b' := (bar_step _ _ _).2) in *.
  assert (i < length s.2)%nat as Hi by (eapply lookup_lt_Some; exact Ht).
  destruct Hu as [Hret|(Hret & Hout & Hw)].
  { exists [i], i, t, t'. cbn. rewrite Hrun. cbn. rewrite list_lookup_insert_eq by done. split_and!; (done || lia). }
  pose proof (sum_insert weight s.2 i t t' Ht) as Hsum.
  assert (∃ r', bar_ok r' (b', <[i:=t']> s.2)) as [r' Hr'] by (destruct Hok'; eauto).
  destruct (IH (m - 1)%nat ltac:(lia) r' (b', <[i:=t']> s.2) Hr') as (l & j & u & u' & Hl & Hj & Hu' & Hru).
  - cbn [fst snd]. lia.
  - cbn [snd]. intros j u [(<- & <- & _)|[_ Hu]]%list_lookup_insert_Some; [done|by eapply Hin].
  - cbn [snd] in *. apply list_lookup_insert_Some in Hj as [(<- & <- & _)|[Hne Hj]].
    + exists (i :: l), i, t, u'. cbn. rewrite Hrun. split_and!; [lia|done|done|congruence].
    + exists (i :: l), j, u, u'. cbn. rewrite Hrun. split_and!; [lia|done|done|done].
Qed.

Lemma weight_bound l : (sum_list_with weight l ≤ 9 * length l)%nat.
Proof. induction l as [|t l IH]; cbn; [lia|]. unfold weight at 1. repeat case_match; cbn in *; lia. Qed.
End rounds.

(** Without timeouts the two functions take the same steps. *)
Lemma enter_step_untimed b t : timed t = false →
  enter_step b t = bar_step no_timeout b t ∧ timed (enter_step b t).1 = false.
Proof. intros Ht. unfold enter_step, bar_step. rewrite Ht. cbn [andb]. repeat case_match; done. Qed.

Lemma enter_run_untimed i s : Forall (λ t, timed t = false) s.2 →
  enter_run i s = bar_run i no_timeout s ∧ Forall (λ t, timed t = false) (enter_run i s).2.
Proof.
  intros Hs. unfold enter_run, bar_run. destruct (s.2 !! i) as [t|] eqn:Ht; [|done].
  destruct (enter_step_untimed s.1 t (Forall_lookup_1 _ _ _ _ Hs Ht)) as [He Hu]. rewrite <- He.
  destruct (enter_step s.1 t) as [t' b']. split; [done|]. by apply Forall_insert.
Qed.

Lemma enter_reachable n s : rtc enter_next (bar_initial n) s →
  rtc bar_next (bar_initial n) s ∧ Forall (λ t, timed t = false) s.2.
Proof.
  intros Hs. apply (rtc_ind_r (R:=enter_next) (λ s, rtc bar_next (bar_initial n) s ∧ Forall (λ t, timed t = false) s.2) (bar_initial n)); [|..|exact Hs].
  - split; [constructor|]. by apply Forall_replicate.
  - intros s1 s2 _ [s0 i] [Hr Hu]. destruct (enter_run_untimed i s0 Hu) as [He Hu']. split; [|done].
    rewrite He. eapply rtc_r; [exact Hr|constructor].
Qed.

Definition enter_steps (l : list nat) (s : BarState) : BarState := foldl (λ s i, enter_run i s) s l.
Lemma enter_steps_untimed l : ∀ s, Forall (λ t, timed t = false) s.2 → enter_steps l s = bar_steps l s.
Proof.
  induction l as [|i l IH]; intros s Hs; [done|]. destruct (enter_run_untimed i s Hs) as [He Hu].
  change (enter_steps (i :: l) s) with (enter_steps l (enter_run i s)). rewrite IH by done. by rewrite He.
Qed.

(** C35: a barrier for [n] threads, entered by [n] threads with [enter] again and again in
    any interleaving: nobody returns from a round before all have called for it, every
    complete round has exactly one leader, the counters never exceed [n]; and when all threads
    are inside, some steps (at most nine per thread and one) let one of them return,
    so there is no deadlock. Threads that call [enter_with_timeout] and time out break
    all this ([leader_timeout_breaks_barrier]). *)
Theorem barrier_rounds (n : nat) (s : BarState) :
  (0 < n)%nat → Z.of_nat n < 2 ^ 32 → rtc enter_next (bar_initial n) s →
  (∀ i j t u, s.2 !! i = Some t → s.2 !! j = Some u → (returned t ≤ called u)%nat) ∧
  (∀ i t, s.2 !! i = Some t → returned t = sum_list_with led s.2 ∨ returned t = S (sum_list_with led s.2)) ∧
  (0 ≤ enter_count s.1 ≤ Z.of_nat n ∧ 0 ≤ passing_count s.1 ≤ Z.of_nat n) ∧
  ((∀ i t, s.2 !! i = Some t → bpc t ≠ Outside) →
     ∃ l i t t', (length l ≤ 9 * n + 1)%nat ∧ s.2 !! i = Some t ∧ (enter_steps l s).2 !! i = Some t' ∧
       returned t' = S (returned t)).
Proof.
  intros Hn Hu [Hs Hut]%enter_reachable. destruct (bar_reachable_ok n Hn Hu s Hs) as [r Hok]. split_and!.
  - intros i j t u. by eapply bar_ok_together.
  - intros i t Ht. assert (Hth := Hok). eapply bar_ok_thread in Hth as (Hr & _ & _); [|done..].
    by rewrite (bo_led _ _ _ Hok).
  - by apply (bar_ok_counters n Hn r).
  - by apply (bar_ok_counters n Hn r).
  - by apply (bar_ok_counters n Hn r).
  - by apply (bar_ok_counters n Hn r).
  - intros Hin. destruct (bar_completes n Hn Hu r (9 * n) s Hok) as (l & i & t & t' & Hl & H).
    + pose proof (weight_bound n Hn s.2) as Hw. by rewrite (bo_length _ _ _ Hok) in Hw.
    + done.
    + exists l, i, t, t'. rewrite enter_steps_untimed by done. split; [lia|done].
Qed.

(** ** Schedules *)

Lemma enter_steps_reachable l s0 s : rtc enter_next s0 s → rtc enter_next s0 (enter_steps l s).
Proof.
  revert s. induction l as [|i l IH]; intros s Hs; [done|]. cbn. apply IH. eapply rtc_r; [done|constructor].
Qed.

(** Three threads, the second of which has added itself as the leader *)
Definition demo_barrier : BarState := enter_steps [1; 1; 1; 1; 0; 2; 0]%nat (bar_initial 3).

Lemma barrier_rounds_witness :
  ∃ l i t t', (length l ≤ 9 * 3 + 1)%nat ∧ demo_barrier.2 !! i = Some t ∧ (enter_steps l demo_barrier).2 !! i = Some t' ∧
    returned t' = S (returned t).
Proof.
  destruct (barrier_rounds 3 demo_barrier) as (_ & _ & _ & H);
    [lia|lia|apply enter_steps_reachable; constructor|].
  apply H. intros i t Hi. do 3 (destruct i as [|i]; [injection Hi as <-; vm_compute; discriminate|]). discriminate Hi.
Defined.

(** A leader that times out leaves [passing_count] behind: when all three threads enter
    afterwards, the round has no leader and nobody resets the counters, and in the round
    after it thread 1 returns although thread 2 has not called. *)
Definition timeout_schedule : list (nat * bar_event) :=
  let e := no_timeout in
  [(0, mkEvent true false); (0, e); (0, e); (0, e); (0, e); (0, e); (0, mkEvent true true)]%nat.
Definition run_bar (l : list (nat * bar_event)) (s : BarState) : BarState := foldl (λ s e, bar_run e.1 e.2 s) s l.

Lemma leader_timeout_breaks_barrier :
  let s1 := run_bar timeout_schedule (bar_initial 3) in
  let s2 := run_bar (replicate 5 (0, no_timeout) ++ replicate 5 (1, no_timeout) ++ replicate 8 (2, no_timeout)
                     ++ replicate 3 (0, no_timeout) ++ replicate 3 (1, no_timeout))%nat s1 in
  let s3 := run_bar (replicate 5 (0, no_timeout) ++ replicate 6 (1, no_timeout))%nat s2 in
  (timeouts <$> s1.2 = [1; 0; 0] ∧ returned <$> s2.2 = [1; 1; 1] ∧ led <$> s2.2 = [0; 0; 0] ∧
   returned <$> s3.2 = [1; 2; 1] ∧ called <$> s3.2 = [3; 2; 1])%nat.
Proof. vm_compute. done. Qed.

(** A data barrier for two threads: thread 1 returns from the barrier, and before it reads
    the data thread 0 has entered the next round with other data. *)
Definition data_schedule : list (nat * data_event (T:=Z)) :=
  let a := CallEnterWithData 1 in let b := CallEnter in
  (** both enter and pass *)
  [(0, a); (0, a)]%nat ++ replicate 6 (0%nat, a) ++ replicate 1 (1%nat, b) ++ replicate 8 (1%nat, b) ++
  replicate 6 (0%nat, a) ++
  (** thread 0 reads, drops its guard and enters with the data 2 *)
  replicate 3 (0%nat, CallEnterWithData 2) ++ replicate 3 (0%nat, CallEnterWithData 2) ++
  (** thread 1 reads *)
  replicate 2 (1%nat, b).

Lemma data_barrier_mixes_rounds :
  let s := data_run data_schedule (data_initial 2) in
  (returned <$> (barrier s).2 = [1; 1])%nat ∧ pcs s !! 1%nat = Some (Holds (Ok 2)).
Proof. vm_compute. done. Qed.
