(* ===== verification/SingleArc.v ===== *)
(** * [libs/shared/src/alloc_ext/single_arc.rs]: a shared value with one owner

    [SingleArc] and [WeakSingleArc] (and [Strong] and [Weak] around them) as a program
    for any number of handles, one step per access to the two atomic variables of the
    shared allocation. The value in it does not matter for the protocol. *)

From S2P Require Import Prelude.
Local Open Scope Z_scope.

Definition wrap_usize (n : Z) : Z := n mod 2 ^ 64.

Record Inner := mkInner { strong_ref : bool; ref_count : Z }.
Definition set_strong (b : bool) (a : Inner) : Inner := mkInner b (ref_count a).
Definition add_ref (d : Z) (a : Inner) : Inner := mkInner (strong_ref a) (wrap_usize (ref_count a + d)).

(** Where the owner of a handle is *)
Inductive Handle :=
  (** a [SingleArc] *)
  | Owner
  (** in the drop of a [SingleArc], before the [fetch_sub] *)
  | OwnerStored
  (** a [WeakSingleArc] *)
  | Shared
  (** a [WeakSingleArc] in [try_upgrade], before the [fetch_add] *)
  | Upgrading
  (** in a drop that got the last reference, before [Box::from_raw] *)
  | Freeing
  | Dropped.

(** What the owner of a handle calls; [Use] is any access to the value. *)
Inductive arc_event := Use | Drop | Downgrade | TryUpgrade | Clone.

(** The allocation, unless it has been freed; the handles; and whether freed memory
    has been accessed. *)
Record ArcState := mkArc { inner : option Inner; handles : list Handle; fault : bool }.

Definition SingleArc_new : ArcState := mkArc (Some (mkInner true 1)) [Owner] false.

(** An access to the allocation: it is changed by [f], the handle [i] becomes [h], and
    [new] are the handles that the call returns. *)
Definition access (i : nat) (s : ArcState) (f : Inner → Inner) (h : Inner → Handle) (new : list Handle) : ArcState :=
  match inner s with
  | Some a => mkArc (Some (f a)) (<[i:=h a]> (handles s) ++ new) (fault s)
  | None => mkArc None (handles s) true
  end.

(** [fetch_sub] of a drop *)
Definition drop_ref (i : nat) (s : ArcState) : ArcState :=
  access i s (add_ref (-1)) (λ a, if ref_count a =? 1 then Freeing else Dropped) [].

(** The [compare_exchange] of [try_upgrade] *)
Definition try_upgrade (i : nat) (s : ArcState) : ArcState :=
  access i s (λ a, if strong_ref a then a else set_strong true a) (λ a, if strong_ref a then Shared else Upgrading) [].

Definition arc_run (i : nat) (ev : arc_event) (s : ArcState) : ArcState :=
  match handles s !! i, ev with
  | Some Owner, Use => access i s id (λ _, Owner) []
  | Some Owner, Drop => access i s (set_strong false) (λ _, OwnerStored) []
  | Some Owner, Downgrade => access i s (add_ref 1) (λ _, Owner) [Shared]
  | Some OwnerStored, _ => drop_ref i s
  | Some Shared, Drop => drop_ref i s
  | Some Shared, TryUpgrade => try_upgrade i s
  (** the derived [clone] copies the pointer *)
  | Some Shared, Clone => mkArc (inner s) (handles s ++ [Shared]) (fault s)
  | Some Upgrading, _ => access i s (add_ref 1) (λ _, Shared) [Owner]
  | Some Freeing, _ =>
      match inner s with
      | Some _ => mkArc None (<[i:=Dropped]> (handles s)) (fault s)
      | None => mkArc None (handles s) true
      end
  | _, _ => s
  end.

(** [WeakSingleArc::has_strong_ref] and [ref_count] *)
Definition has_strong_ref (s : ArcState) : option bool := strong_ref <$> inner s.
Definition WeakSingleArc_ref_count (s : ArcState) : option Z := ref_count <$> inner s.

(** [Strong::new] and [Weak::new] *)
Definition Strong_new : ArcState := arc_run 0 Downgrade SingleArc_new.
Definition Weak_new : ArcState := arc_run 0 Drop (arc_run 0 Drop (arc_run 0 Downgrade SingleArc_new)).

(** Programs that do not clone weak references, and programs that only use the
    interface of [Strong] and [Weak] *)
Inductive arc_next : ArcState → ArcState → Prop :=
  | arc_handle s i ev : ev ≠ Clone → arc_next s (arc_run i ev s).
Inductive pair_next : ArcState → ArcState → Prop :=
  | pair_handle s i ev : ev ≠ Clone → ev ≠ Downgrade → pair_next s (arc_run i ev s).

(** ** The protocol *)

Definition is_owner (h : Handle) : bool := match h with Owner => true | _ => false end.
(** Handles for which [strong_ref] is set *)
Definition is_strong (h : Handle) : bool := match h with Owner | Upgrading => true | _ => false end.
Definition is_weak (h : Handle) : bool := match h with Shared | Upgrading => true | _ => false end.
(** Handles that [ref_count] counts *)
Definition is_live (h : Handle) : bool :=
  match h with Owner | OwnerStored | Shared | Upgrading => true | _ => false end.
Definition is_freeing (h : Handle) : bool := match h with Freeing => true | _ => false end.

Record arc_ok (s : ArcState) : Prop := {
  ao_fault : fault s = false;
  ao_freeing : (count is_freeing (handles s) ≤ 1)%nat;
  ao_last : (1 ≤ count is_freeing (handles s))%nat → count is_live (handles s) = 0%nat;
  ao_inner : match inner s with
    | Some a =>
        ref_count a = Z.of_nat (count is_live (handles s)) ∧
        count is_strong (handles s) = (if strong_ref a then 1 else 0)%nat ∧
        (1 ≤ count is_live (handles s) + count is_freeing (handles s))%nat
    | None => count is_live (handles s) = 0%nat ∧ count is_freeing (handles s) = 0%nat
    end;
}.

(** The counts after the handle [i] has changed and others were added *)
Ltac handle_counts s i h h' new Hi :=
  pose proof (count_insert is_live (handles s) i h h' Hi) as CL;
  pose proof (count_insert is_strong (handles s) i h h' Hi) as CS;
  pose proof (count_insert is_freeing (handles s) i h h' Hi) as CF;
  pose proof (count_app is_live (<[i:=h']> (handles s)) new) as AL;
  pose proof (count_app is_strong (<[i:=h']> (handles s)) new) as AS;
  pose proof (count_app is_freeing (<[i:=h']> (handles s)) new) as AF;
  cbn in CL, CS, CF;
  change (count is_live []) with 0%nat in AL; change (count is_strong []) with 0%nat in AS;
  change (count is_freeing []) with 0%nat in AF;
  change (count is_live [Owner]) with 1%nat in AL; change (count is_strong [Owner]) with 1%nat in AS;
  change (count is_freeing [Owner]) with 0%nat in AF;
  change (count is_live [Shared]) with 1%nat in AL; change (count is_strong [Shared]) with 0%nat in AS;
  change (count is_freeing [Shared]) with 0%nat in AF.

Lemma wrap_usize_small n : 0 ≤ n < 2 ^ 64 → wrap_usize n = n.
Proof. apply Z.mod_small. Qed.

(** The allocation is there as long as a handle needs it. *)
Lemma arc_ok_inner s i h : arc_ok s → handles s !! i = Some h → is_live h || is_freeing h = true → is_Some (inner s).
Proof.
  intros [_ _ _ Hin] Hi Hh. destruct (inner s); [by eexists|]. destruct Hin as [Hl Hf].
  pose proof (count_zero _ _ _ _ Hl Hi) as Hl'. pose proof (count_zero _ _ _ _ Hf Hi) as Hf'. by rewrite Hl', Hf' in Hh.
Qed.

Lemma access_ok s i h a f g new :
  arc_ok s → handles s !! i = Some h → inner s = Some a →
  let hs := <[i:=g a]> (handles s) ++ new in
  (count is_freeing hs ≤ 1)%nat → ((1 ≤ count is_freeing hs)%nat → count is_live hs = 0%nat) →
  ref_count (f a) = Z.of_nat (count is_live hs) →
  count is_strong hs = (if strong_ref (f a) then 1 else 0)%nat →
  (1 ≤ count is_live hs + count is_freeing hs)%nat →
  arc_ok (access i s f g new).
Proof. intros [Hf _ _ _] Hi Ha hs H1 H2 H3 H4 H5. unfold access. rewrite Ha. by split. Qed.

Lemma drop_ref_ok s i h : arc_ok s → handles s !! i = Some h → is_live h = true → is_strong h = false →
  Z.of_nat (length (handles s)) < 2 ^ 64 → arc_ok (drop_ref i s).
Proof.
  intros Hok Hi Hl Hs Hlen. destruct (arc_ok_inner s i h Hok Hi) as [a Ha]; [by rewrite Hl|].
  assert (is_freeing h = false) as Hfr by by destruct h. pose proof Hok as [_ Hf1 Hf0 Hin]. rewrite Ha in Hin.
  destruct Hin as (Hr & Hst & Hn). pose proof (count_elem is_live _ _ _ Hi Hl). pose proof (count_le is_live (handles s)).
  set (h' := if ref_count a =? 1 then Freeing else Dropped). pose proof (count_le is_live (<[i:=h']> (handles s))).
  assert (is_live h' = false ∧ is_strong h' = false ∧ is_freeing h' = (ref_count a =? 1)) as (Hl' & Hs' & Hf')
    by (subst h'; by destruct (ref_count a =? 1)).
  handle_counts s i h h' (@nil Handle) Hi. rewrite ?Hl, ?Hs, ?Hfr, ?Hl', ?Hs', ?Hf' in *.
  eapply access_ok; [done..| | | | |]; cbn beta zeta; fold h'; cbn [add_ref ref_count strong_ref];
    destruct (Z.eqb_spec (ref_count a) 1) as [Hlast|Hlast]; rewrite ?wrap_usize_small by lia; try lia.
Qed.

Lemma arc_run_length i ev s : (length (handles s) ≤ length (handles (arc_run i ev s)))%nat.
Proof.
  unfold arc_run, try_upgrade, drop_ref, access. repeat case_match; cbn; rewrite ?length_app, ?length_insert; cbn; lia.
Qed.

Lemma arc_run_ok i ev s : arc_ok s → ev ≠ Clone → Z.of_nat (length (handles (arc_run i ev s))) < 2 ^ 64 →
  arc_ok (arc_run i ev s).
Proof.
  intros Hok Hev Hlen'. pose proof (arc_run_length i ev s) as Hlen.
  assert (Z.of_nat (length (handles s)) < 2 ^ 64) as Hlen2 by lia. revert Hlen'. unfold arc_run, try_upgrade.
  destruct (handles s !! i) as [h|] eqn:Hi; [|done].
  pose proof Hok as [Hf Hf1 Hf0 Hin].
  pose proof (count_le is_live (handles s)) as Hle.
  destruct h, ev; try done; intros Hlen'; try (by eapply drop_ref_ok);
    (edestruct arc_ok_inner as [a Ha]; [done..|]); rewrite Ha in *; destruct Hin as (Hr & Hst & Hn);
    try (pose proof (count_elem is_live _ _ _ Hi eq_refl));
    try (pose proof (count_elem is_strong _ _ _ Hi eq_refl));
    try (pose proof (count_elem is_freeing _ _ _ Hi eq_refl)).
  all: try (unfold access in Hlen'; rewrite Ha in Hlen'; cbn in Hlen'; rewrite length_app, length_insert in Hlen'; cbn in Hlen').
  all: try (handle_counts s i Upgrading Shared [Owner] Hi; destruct (strong_ref a) eqn:Hsa; [|lia];
    eapply access_ok; [done..| | | | |]; cbn; rewrite ?wrap_usize_small, ?Hsa by lia; cbn; lia).
  all: try (handle_counts s i Freeing Dropped (@nil Handle) Hi; specialize (Hf0 ltac:(lia)); split; cbn [inner handles fault]; [done|lia|lia|lia]).
  - handle_counts s i Owner Owner (@nil Handle) Hi. eapply access_ok; [done..| | | | |]; cbn; lia.
  - handle_counts s i Owner OwnerStored (@nil Handle) Hi. destruct (strong_ref a); [|lia].
    eapply access_ok; [done..| | | | |]; cbn; lia.
  - handle_counts s i Owner Owner [Shared] Hi. eapply access_ok; [done..| | | | |]; cbn; rewrite ?wrap_usize_small by lia; lia.
  - destruct (strong_ref a) eqn:Hsa.
    + handle_counts s i Shared Shared (@nil Handle) Hi. eapply access_ok; [done..| | | | |]; cbn; rewrite Hsa, ?Hsa; lia.
    + handle_counts s i Shared Upgrading (@nil Handle) Hi. eapply access_ok; [done..| | | | |]; cbn; rewrite Hsa; cbn; lia.
Qed.

Lemma arc_ok_step s s' : arc_ok s → arc_next s s' → Z.of_nat (length (handles s')) < 2 ^ 64 → arc_ok s'.
Proof. intros Hok Hs. destruct Hs. by apply arc_run_ok. Qed.

Lemma arc_next_length s s' : rtc arc_next s s' → (length (handles s) ≤ length (handles s'))%nat.
Proof.
  induction 1 as [|s1 s2 s3 Hs _ IH]; [done|]. destruct Hs as [s i ev _]. pose proof (arc_run_length i ev s). lia.
Qed.

Lemma arc_reachable_ok s s' : arc_ok s → rtc arc_next s s' → Z.of_nat (length (handles s')) < 2 ^ 64 → arc_ok s'.
Proof.
  intros Hok Hs Hlen. induction Hs as [|s1 s2 s3 Hs Hr IH]; [done|]. apply IH; [|done].
  eapply arc_ok_step; [done..|]. apply arc_next_length in Hr. lia.
Qed.

Lemma arc_ok_new : arc_ok SingleArc_new.
Proof. split; vm_compute; [done|lia|lia|split_and!; (done || lia)]. Qed.

Lemma pair_next_arc s s' : pair_next s s' → arc_next s s'.
Proof. intros [? i ev H1 _]. by constructor. Qed.

Lemma access_weak i s f g new h : handles s !! i = Some h →
  (∀ a, (if is_weak (g a) then 1 else 0) + count is_weak new ≤ (if is_weak h then 1 else 0))%nat →
  (count is_weak (handles (access i s f g new)) ≤ count is_weak (handles s))%nat.
Proof.
  intros Hi Hg. unfold access. destruct (inner s) as [a|]; [|done]. cbn [handles]. rewrite count_app.
  pose proof (count_insert is_weak _ i h (g a) Hi). specialize (Hg a). lia.
Qed.

Lemma pair_next_weak s s' : pair_next s s' → (count is_weak (handles s') ≤ count is_weak (handles s))%nat.
Proof.
  intros [? i ev H1 H2]. unfold arc_run, try_upgrade. destruct (handles s0 !! i) as [h|] eqn:Hi; [|done].
  assert (∀ h', is_weak h' = false → (count is_weak (<[i:=h']> (handles s0)) ≤ count is_weak (handles s0))%nat) as Hins.
  { intros h' Hh. pose proof (count_insert is_weak _ i h h' Hi) as Hc. rewrite Hh in Hc. lia. }
  destruct h, ev; try done; unfold drop_ref;
    try (eapply access_weak; [done|]; intros a; destruct (ref_count a =? 1), (strong_ref a); vm_compute; lia);
    destruct (inner s0); try done; by apply Hins.
Qed.

Lemma pair_weak s s' : rtc pair_next s s' → (count is_weak (handles s') ≤ count is_weak (handles s))%nat.
Proof. induction 1 as [|s1 s2 s3 Hs _ IH]; [done|]. apply pair_next_weak in Hs. lia. Qed.

(** ** What the reference counts promise *)

(** C37: any number of handles of a [SingleArc], used and dropped in any interleaving, of
    which no weak one is cloned ([clone] does not count the new handle, and with it freed
    memory is accessed, [weak_clone_frees_in_use]):
    freed memory is never accessed (in particular it is not freed twice); at most one
    [SingleArc] exists at a time, and [has_strong_ref] tells whether one exists, except
    while [try_upgrade] makes one; [ref_count] is the number of references; and the
    memory is freed exactly when the last handle has been dropped, so nothing leaks. *)
Theorem single_arc_safe s :
  rtc arc_next SingleArc_new s → Z.of_nat (length (handles s)) < 2 ^ 64 →
  fault s = false ∧
  (count is_owner (handles s) ≤ 1)%nat ∧
  (count is_owner (handles s) = 1%nat → has_strong_ref s = Some true) ∧
  (has_strong_ref s = Some true → count is_owner (handles s) = 1%nat ∨ Upgrading ∈ handles s) ∧
  (∀ n, WeakSingleArc_ref_count s = Some n → n = Z.of_nat (count is_live (handles s))) ∧
  (inner s = None ↔ Forall (λ h, h = Dropped) (handles s)).
Proof.
  intros Hs Hlen. pose proof (arc_reachable_ok _ _ arc_ok_new Hs Hlen) as Hok. assert (Hok' := Hok).
  destruct Hok as [Hf Hf1 Hf0 Hin]. unfold has_strong_ref, WeakSingleArc_ref_count.
  assert (count is_owner (handles s) ≤ count is_strong (handles s))%nat as Hos
    by (apply count_impl; by intros []).
  split_and!.
  - done.
  - destruct (inner s) as [a|] eqn:Ha; [destruct Hin as (_ & Hst & _); destruct (strong_ref a); lia|].
    destruct Hin as [Hl _]. enough (count is_strong (handles s) ≤ count is_live (handles s))%nat by lia.
    apply count_impl; by intros [].
  - intros Ho. assert (count is_strong (handles s) ≤ count is_live (handles s))%nat by (apply count_impl; by intros []).
    destruct (inner s) as [a|] eqn:Ha; [|lia]. cbn. f_equal. destruct Hin as (_ & Hst & _). destruct (strong_ref a); [done|lia].
  - destruct (inner s) as [a|] eqn:Ha; [|done]. cbn. intros [= Hsr]. destruct Hin as (_ & Hst & _). rewrite Hsr in Hst.
    destruct (count_exists is_strong (handles s)) as (i & h & Hi & Hh); [lia|].
    destruct h; try done; [left|right; by eapply list_elem_of_lookup_2].
    pose proof (count_elem is_owner _ _ _ Hi eq_refl). lia.
  - intros n. destruct (inner s) as [a|]; [|done]. cbn. intros [= <-]. by destruct Hin.
  - split.
    + intros Hn. rewrite Hn in Hin. destruct Hin as [Hl Hfr]. apply Forall_lookup_2. intros i h Hi.
      pose proof (count_zero _ _ _ _ Hl Hi). pose proof (count_zero _ _ _ _ Hfr Hi). by destruct h.
    + intros Hall. destruct (inner s) as [a|]; [exfalso|done]. destruct Hin as (_ & _ & Hn).
      assert (count is_live (handles s) = 0%nat ∧ count is_freeing (handles s) = 0%nat) as [H1 H2]; [|lia].
      clear - Hall. induction Hall as [|h l -> _ IH]; [done|]. by rewrite !count_cons.
Qed.

(** ** Runs *)

Definition arc_runs (l : list (nat * arc_event)) (s : ArcState) : ArcState := foldl (λ s e, arc_run e.1 e.2 s) s l.

Lemma arc_runs_reachable l s0 s : Forall (λ e, e.2 ≠ Clone) l → rtc arc_next s0 s → rtc arc_next s0 (arc_runs l s).
Proof.
  intros Hl. revert s. induction Hl as [|e l He _ IH]; intros s Hs; [done|]. apply IH. eapply rtc_r; [done|by constructor].
Qed.

(** The single owner is dropped; before its [fetch_sub] the weak reference is upgraded,
    and everything is dropped in the end. *)
Definition demo_arc : ArcState :=
  arc_runs [(0, Downgrade); (0, Drop); (1, TryUpgrade); (1, Use); (0, Use); (2, Use); (1, Drop); (2, Drop); (2, Drop); (2, Drop)]%nat
    SingleArc_new.

Lemma single_arc_safe_witness :
  rtc arc_next SingleArc_new demo_arc ∧ fault demo_arc = false ∧ (count is_owner (handles demo_arc) ≤ 1)%nat ∧
  inner demo_arc = None.
Proof.
  assert (rtc arc_next SingleArc_new demo_arc) as Hs by (apply arc_runs_reachable; [by repeat constructor|constructor]).
  destruct (single_arc_safe demo_arc Hs) as (H1 & H2 & _ & _ & _ & H3); [vm_compute; reflexivity|].
  split_and!; [exact Hs|exact H1|exact H2|apply H3; vm_compute; repeat constructor].
Defined.

(** A [Strong] never has more than one [Weak], and [Weak::new] drops its owner. *)
Lemma Strong_pair s : rtc pair_next Strong_new s → (count is_weak (handles s) ≤ 1)%nat.
Proof. intros Hs. by apply pair_weak in Hs. Qed.
Lemma Weak_new_state : Weak_new = mkArc (Some (mkInner false 1)) [Dropped; Shared] false.
Proof. reflexivity. Qed.

(** [WeakSingleArc] derives [Clone], which does not count the new reference: when the
    two weak references are dropped, the value is freed while its owner is alive, and
    the owner's next access is a use after free. *)
Lemma weak_clone_frees_in_use :
  let s := arc_runs [(0, Downgrade); (1, Clone); (1, Drop); (2, Drop); (2, Drop)]%nat SingleArc_new in
  handles s = [Owner; Dropped; Dropped] ∧ inner s = None ∧ fault s = false ∧ fault (arc_run 0 Use s) = true.
Proof. done. Qed.
