(* ===== verification/OwnedSlice.v ===== *)
(** * [libs/shared/src/alloc_ext/owned_slice.rs]: slices that own their data

    An [OwnedSlice] over a boxed slice is the elements of the box and the range. *)

From S2P Require Import Prelude.
Local Open Scope Z_scope.

Section slice.
Context {T : Type}.

Record OwnedSlice := mkOwned { owner : list T; os_start : Z; os_end : Z }.

Definition usize_add {E} (a b : Z) : result E Z := if a + b <? 2 ^ 64 then Ok (a + b) else Panic.
(** [Range::len] of a range of [usize] *)
Definition range_len (range : Z * Z) : Z := Z.max 0 (range.2 - range.1).

Definition OwnedSlice_from (value : list T) : OwnedSlice := mkOwned value 0 (Z.of_nat (length value)).
Definition into_owned (s : OwnedSlice) : list T * (Z * Z) := (owner s, (os_start s, os_end s)).

(** Indexing the owner with the range panics outside of it. *)
Definition OwnedSlice_as_ref {E} (s : OwnedSlice) : result E (list T) :=
  if (os_start s <=? os_end s) && (os_end s <=? Z.of_nat (length (owner s)))
  then Ok (take (Z.to_nat (os_end s - os_start s)) (drop (Z.to_nat (os_start s)) (owner s)))
  else Panic.

Definition OwnedSlice_subrange {E} (range : Z * Z) (s : OwnedSlice) : result E OwnedSlice :=
  l ← OwnedSlice_as_ref s;
  if Z.of_nat (length l) >=? range_len range then
    start ← usize_add (os_start s) range.1;
    e ← usize_add start (range_len range);
    Ok (mkOwned (owner s) start e)
  else Panic.

(** ** Slices of slices *)

Record owned_ok (s : OwnedSlice) : Prop := {
  oo_start : 0 ≤ os_start s ≤ os_end s;
  oo_end : os_end s ≤ Z.of_nat (length (owner s));
  oo_max : Z.of_nat (length (owner s)) < 2 ^ 63;
}.

Lemma OwnedSlice_from_as_ref {E} value : OwnedSlice_as_ref (E:=E) (OwnedSlice_from value) = Ok value.
Proof.
  unfold OwnedSlice_as_ref, OwnedSlice_from. cbn. rewrite Z.sub_0_r, Nat2Z.id, take_ge by done.
  by rewrite (proj2 (Z.leb_le _ _)), Z.leb_refl by lia.
Qed.

Lemma OwnedSlice_as_ref_ok {E} s : owned_ok s →
  OwnedSlice_as_ref (E:=E) s = Ok (take (Z.to_nat (os_end s - os_start s)) (drop (Z.to_nat (os_start s)) (owner s))).
Proof. intros [H1 H2 H3]. unfold OwnedSlice_as_ref. by rewrite !(proj2 (Z.leb_le _ _)) by lia. Qed.

(** A range inside of the slice gives that part of the slice. *)
Lemma OwnedSlice_subrange_spec {E} (range : Z * Z) s l :
  owned_ok s → OwnedSlice_as_ref (E:=E) s = Ok l → 0 ≤ range.1 ≤ range.2 → range.2 ≤ Z.of_nat (length l) →
  ∃ s', OwnedSlice_subrange (E:=E) range s = Ok s' ∧ owned_ok s' ∧
    OwnedSlice_as_ref (E:=E) s' = Ok (take (Z.to_nat (range.2 - range.1)) (drop (Z.to_nat range.1) l)).
Proof.
  intros Hok Hl Hr1 Hr2. pose proof Hok as [H1 H2 H3]. unfold OwnedSlice_subrange. rewrite Hl. cbn [mbind result_bind].
  rewrite OwnedSlice_as_ref_ok in Hl by done. injection Hl as Hl.
  assert (Z.of_nat (length l) = os_end s - os_start s) as Hlen.
  { rewrite <- Hl, length_take, length_drop. lia. }
  unfold range_len. rewrite (Z.max_r 0) by lia. rewrite Z.geb_leb, (proj2 (Z.leb_le _ _)) by lia.
  unfold usize_add. rewrite (proj2 (Z.ltb_lt _ _)) by lia. cbn [mbind result_bind].
  rewrite (proj2 (Z.ltb_lt _ _)) by lia. cbn [mbind result_bind]. eexists. split; [done|].
  assert (owned_ok (mkOwned (owner s) (os_start s + range.1) (os_start s + range.1 + (range.2 - range.1)))) as Hok'
    by (split; cbn; lia).
  split; [done|]. rewrite OwnedSlice_as_ref_ok by done. cbn. f_equal. rewrite <- Hl.
  rewrite skipn_firstn_comm, drop_drop, take_take. f_equal; [lia|]. f_equal. lia.
Qed.
End slice.
Arguments OwnedSlice : clear implicits.

(** [subrange] only compares the lengths: a range past the end of the slice is accepted
    and reaches elements of the owner that the slice did not contain. *)
Lemma subrange_escapes :
  let s := mkOwned [1; 2; 3; 4; 5; 6] 0 2 in
  OwnedSlice_as_ref (E:=unit) s = Ok [1; 2] ∧
  (s' ← OwnedSlice_subrange (E:=unit) (4, 6) s; OwnedSlice_as_ref s') = Ok [5; 6].
Proof. done. Qed.
