(* ===== verification/StaticVec.v ===== *)
(** * [forked-libs/staticvec/src]: vectors of fixed capacity

    [StaticVec] as the crate implements it: an array of slots that may be uninitialised,
    written through pointers, and a length of a type of its own. Slots hold the bits of
    a value also after the value has been moved out, as memory does. The values that
    have been dropped are a list of ghost state, so that leaks and double drops show.
    Pointers into the array are indices; values have a size (the special cases for
    types without one do the same on addresses). [Err UB] is undefined behaviour: an
    access outside of an array, or to a slot without a value. *)

From S2P Require Import Prelude.
Local Open Scope nat_scope.

Inductive fault := UB.

(** ** Memory *)

(** [MaybeUninit<[T; N]>] *)
Abbreviation mem T := (list (option T)) (only parsing).

Section memory.
Context {T : Type}.

Definition new_data_uninit (N : nat) : mem T := replicate N None.

Definition mem_read (m : mem T) (i : nat) : result fault T :=
  match m !! i with Some (Some x) => Ok x | _ => Err UB end.
Definition mem_write (m : mem T) (i : nat) (x : T) : result fault (mem T) :=
  if i <? length m then Ok (<[i:=Some x]> m) else Err UB.
(** [ptr::copy_to] and [copy_to_nonoverlapping] of [n] slots, within an array or to
    another one *)
Definition mem_copy (src : mem T) (s : nat) (dst : mem T) (d n : nat) : result fault (mem T) :=
  if (s + n <=? length src) && (d + n <=? length dst)
  then Ok (take d dst ++ take n (drop s src) ++ drop (d + n) dst)
  else Err UB.
(** [from_raw_parts], whose elements have to be initialised *)
Definition mem_slice (m : mem T) (i n : nat) : result fault (list T) :=
  if i + n <=? length m then
    match mapM id (take n (drop i m)) with Some l => Ok l | None => Err UB end
  else Err UB.
End memory.

(** ** Vectors *)

(** The largest length of the length type [L], an unsigned type of at most 64 bits *)
Class LengthType := L_MAX : Z.

Section vec.
Context {T : Type} {L : LengthType}.
Local Abbreviation R := (result fault).

(** [try_into().unwrap()] from [usize] to [L] *)
Definition to_L (n : nat) : R nat := if (Z.of_nat n <=? L_MAX)%Z then Ok n else Panic.
Definition L_add (a b : nat) : R nat := to_L (a + b).
Definition L_sub (a b : nat) : R nat := if b <=? a then Ok (a - b) else Panic.
Definition usize_succ (n : nat) : R nat := if (Z.of_nat n <? usize_max)%Z then Ok (S n) else Panic.

Record StaticVec := mkVec { data : mem T; len : nat }.
Definition capacity (v : StaticVec) : nat := length (data v).

(** A vector that is changed, and the values that have been dropped *)
Record VecState := mkState { self : StaticVec; dropped : list T }.
Local Abbreviation V := (M VecState fault).

Definition set_data (m : mem T) (s : VecState) : VecState := mkState (mkVec m (len (self s))) (dropped s).
Definition set_length (n : nat) (s : VecState) : VecState := mkState (mkVec (data (self s)) n) (dropped s).
Definition drop_values (l : list T) (s : VecState) : VecState := mkState (self s) (dropped s ++ l).

Definition read_ (i : nat) : V T := v ← gets self; lift (mem_read (data v) i).
Definition write_ (i : nat) (x : T) : V unit :=
  v ← gets self; m ← lift (mem_write (data v) i x); modify (set_data m).
Definition copy_ (s d n : nat) : V unit :=
  v ← gets self; m ← lift (mem_copy (data v) s (data v) d n); modify (set_data m).
(** [copy_nonoverlapping] from another array *)
Definition copy_in (src : mem T) (s d n : nat) : V unit :=
  v ← gets self; m ← lift (mem_copy src s (data v) d n); modify (set_data m).
(** [drop_in_place] of a part of the array *)
Definition drop_in_place (i n : nat) : V unit :=
  v ← gets self; l ← lift (mem_slice (data v) i n); modify (drop_values l).

Definition StaticVec_new (N : nat) : R StaticVec := Ok (mkVec (new_data_uninit N) 0).

Definition is_empty (v : StaticVec) : bool := len v =? 0.
Definition is_full (v : StaticVec) : R bool := n ← to_L (capacity v); Ok (len v =? n).
Definition is_not_full (v : StaticVec) : R bool := b ← is_full v; Ok (negb b).
Definition remaining_capacity (v : StaticVec) : R nat := n ← to_L (capacity v); L_sub n (len v).
Definition as_slice (v : StaticVec) : R (list T) := mem_slice (data v) 0 (len v).
Definition size_in_bytes (size_of_T : Z) (v : StaticVec) : R Z :=
  if (size_of_T * Z.of_nat (len v) <=? usize_max)%Z then Ok (size_of_T * Z.of_nat (len v))%Z else Panic.

Definition set_len (new_len : nat) : V unit :=
  v ← gets self; _ ← lift (assert_ (new_len <=? capacity v)); modify (set_length new_len).
Definition ptr_at_unchecked (v : StaticVec) (index : nat) : R nat :=
  n ← to_L (capacity v); _ ← assert_ (index <=? n); Ok index.
Definition ptr_at (v : StaticVec) (index : nat) : R nat :=
  _ ← assert_ (index <? len v); ptr_at_unchecked v index.
Definition get_unchecked (v : StaticVec) (index : nat) : R T :=
  n ← to_L (capacity v); _ ← assert_ (index <? n); p ← ptr_at_unchecked v index; mem_read (data v) p.
Definition self_ptr_at (index : nat) : V nat := v ← gets self; lift (ptr_at_unchecked v index).
(** [v[index]] *)
Definition index_ (v : StaticVec) (index : nat) : R T := _ ← assert_ (index <? len v); get_unchecked v index.
(** An assertion in a function that owns [value]: the panic drops it. *)
Definition assert_owning (value : T) (b : bool) : V unit :=
  if b then mret tt else _ ← modify (drop_values [value]); lift Panic.
(** [v[index] = x] drops the old value. *)
Definition index_set (index : nat) (x : T) : V unit :=
  v ← gets self;
  _ ← assert_owning x (index <? len v);
  p ← self_ptr_at index;
  _ ← drop_in_place p 1;
  write_ p x.
Definition index_range (v : StaticVec) (start e : nat) : R (list T) :=
  _ ← assert_ ((start <=? e) && (e <=? len v)); p ← ptr_at_unchecked v start; n ← L_sub e start; mem_slice (data v) p n.
Definition index_from (v : StaticVec) (start : nat) : R (list T) :=
  _ ← assert_ (start <=? len v); p ← ptr_at_unchecked v start; n ← L_sub (len v) start; mem_slice (data v) p n.
Definition index_to (v : StaticVec) (e : nat) : R (list T) :=
  _ ← assert_ (e <=? len v); mem_slice (data v) 0 e.
Definition index_to_inclusive (v : StaticVec) (e : nat) : R (list T) :=
  _ ← assert_ (e <? len v); n ← usize_succ e; mem_slice (data v) 0 n.

Definition first (v : StaticVec) : R (option T) :=
  if is_empty v then Ok None else x ← get_unchecked v 0; Ok (Some x).
Definition last (v : StaticVec) : R (option T) :=
  if is_empty v then Ok None else n ← L_sub (len v) 1; x ← get_unchecked v n; Ok (Some x).

Definition push_unchecked (value : T) : V unit :=
  v ← gets self;
  b ← lift (is_not_full v);
  _ ← lift (assert_ b);
  p ← self_ptr_at (len v);
  _ ← write_ p value;
  n ← lift (L_add (len v) 1);
  set_len n.
Definition pop_unchecked : V T :=
  v ← gets self;
  _ ← lift (assert_ (negb (is_empty v)));
  new_length ← lift (L_sub (len v) 1);
  _ ← set_len new_length;
  p ← self_ptr_at new_length;
  read_ p.

(** [Err] of Rust gives the value back. *)
Definition try_push (value : T) : V (unit + T) :=
  v ← gets self;
  b ← lift (is_not_full v);
  if b : bool then _ ← push_unchecked value; mret (inl tt) else mret (inr value).
Definition push (value : T) : V unit :=
  v ← gets self;
  b ← lift (is_not_full v);
  _ ← assert_owning value b;
  push_unchecked value.
Definition pop : V (option T) :=
  v ← gets self;
  if is_empty v then mret None else x ← pop_unchecked; mret (Some x).

Definition remove_unchecked (index : nat) : V T :=
  v ← gets self;
  let old_length := len v in
  p ← self_ptr_at index;
  res ← read_ p;
  n ← lift (L_sub old_length index);
  n ← lift (L_sub n 1);
  _ ← copy_ (p + 1) p n;
  n ← lift (L_sub old_length 1);
  _ ← set_len n;
  mret res.
Definition remove (index : nat) : V T :=
  v ← gets self;
  _ ← lift (assert_ (index <? len v));
  remove_unchecked index.
Definition remove_item (eq : T → T → bool) (item : T) : V (option T) :=
  v ← gets self;
  l ← lift (as_slice v);
  match position (λ x, eq x item) l with
  | Some pos => i ← lift (to_L pos); x ← remove i; mret (Some x)
  | None => mret None
  end.

(** [ptr::replace] of the value at [index] with the last one *)
Definition swap_last (index : nat) : V T :=
  v ← gets self;
  new_length ← lift (L_sub (len v) 1);
  p ← self_ptr_at new_length;
  last_value ← read_ p;
  _ ← set_len new_length;
  q ← self_ptr_at index;
  old ← read_ q;
  _ ← write_ q last_value;
  mret old.
Definition swap_pop (index : nat) : V (option T) :=
  v ← gets self;
  if index <? len v then x ← swap_last index; mret (Some x) else mret None.
Definition swap_remove (index : nat) : V T :=
  v ← gets self;
  _ ← lift (assert_ (index <? len v));
  swap_last index.

(** The body of [insert] and [try_insert] *)
Definition insert_unchecked (index : nat) (value : T) : V unit :=
  v ← gets self;
  let old_length := len v in
  p ← self_ptr_at index;
  n ← lift (L_sub old_length index);
  _ ← copy_ p (p + 1) n;
  _ ← write_ p value;
  n ← lift (L_add old_length 1);
  set_len n.
Definition can_insert (v : StaticVec) (index : nat) : R bool :=
  n ← to_L (capacity v); Ok ((len v <? n) && (index <=? len v)).
Definition insert (index : nat) (value : T) : V unit :=
  v ← gets self;
  b ← lift (can_insert v index);
  _ ← assert_owning value b;
  insert_unchecked index value.
(** A value that does not fit is dropped. *)
Definition try_insert (index : nat) (value : T) : V bool :=
  v ← gets self;
  b ← lift (can_insert v index);
  if b : bool then _ ← insert_unchecked index value; mret true
  else _ ← modify (drop_values [value]); mret false.

(** The body of [insert_from_slice] and [try_insert_from_slice] *)
Definition insert_slice_unchecked (index : nat) (values : list T) : V unit :=
  v ← gets self;
  let old_length := len v in
  i ← lift (to_L index);
  p ← self_ptr_at i;
  _ ← copy_ p (p + length values) (old_length - index);
  _ ← copy_in (Some <$> values) 0 p (length values);
  n ← lift (to_L (old_length + length values));
  set_len n.
Definition can_insert_slice (v : StaticVec) (index : nat) (values : list T) : R bool :=
  if (len v <? capacity v) && (index <=? len v) then
    n ← remaining_capacity v; Ok (length values <=? n)
  else Ok false.
Definition insert_from_slice (index : nat) (values : list T) : V unit :=
  v ← gets self;
  b ← lift (can_insert_slice v index values);
  _ ← lift (assert_ b);
  insert_slice_unchecked index values.
Definition try_insert_from_slice (index : nat) (values : list T) : V bool :=
  v ← gets self;
  b ← lift (can_insert_slice v index values);
  if b : bool then _ ← insert_slice_unchecked index values; mret true else mret false.

Definition contains (eq : T → T → bool) (value : T) (v : StaticVec) : R bool :=
  l ← as_slice v; Ok (existsb (λ x, eq x value) l).

Definition clear : V unit :=
  v ← gets self;
  _ ← drop_in_place 0 (len v);
  modify (set_length 0).
Definition truncate (length : nat) : V unit :=
  v ← gets self;
  if length <? len v then
    let old_length := len v in
    _ ← set_len length;
    p ← self_ptr_at length;
    n ← lift (L_sub old_length length);
    drop_in_place p n
  else mret tt.
(** [Drop] of a vector *)
Definition drop_vec : V unit := v ← gets self; drop_in_place 0 (len v).

Definition extend_from_slice (values : list T) : V unit :=
  v ← gets self;
  let old_length := len v in
  let added_length := Nat.min (length values) (capacity v - old_length) in
  i ← lift (to_L old_length);
  p ← self_ptr_at i;
  _ ← copy_in (Some <$> values) 0 p added_length;
  n ← lift (to_L (old_length + added_length));
  set_len n.
Definition try_extend_from_slice (values : list T) : V bool :=
  v ← gets self;
  let old_length := len v in
  added_length ← lift (to_L (length values));
  N ← lift (to_L (capacity v));
  free ← lift (L_sub N old_length);
  if free <? added_length then mret false
  else
    p ← self_ptr_at old_length;
    _ ← copy_in (Some <$> values) 0 p added_length;
    n ← lift (L_add old_length added_length);
    _ ← set_len n;
    mret true.

(** [extend_ex] for any iterator, of the items that are left *)
Fixpoint extend_loop (i : nat) (it : list T) : V (nat * list T) :=
  v ← gets self;
  n ← lift (to_L (capacity v));
  if i <? n then
    match it with
    | val :: it =>
        p ← self_ptr_at i;
        _ ← write_ p val;
        i ← lift (L_add i 1);
        extend_loop i it
    | [] => mret (i, [])
    end
  else mret (i, it).
(** Items that the iterator still holds are dropped with it. *)
Definition extend_iter (it : list T) : V unit :=
  v ← gets self;
  '(i, rest) ← extend_loop (len v) it;
  _ ← modify (set_length i);
  modify (drop_values rest).
(** [extend_ex] for a vector [iter] that is passed by value. Unless its drop range
    has elements it is dropped at the end of the function; [Range::is_empty] of a
    range whose start is past its end is true. *)
Definition extend_vec (iter : StaticVec) : V unit :=
  v ← gets self;
  let old_length := len v in
  let added_length := Nat.min (len iter) (capacity v - old_length) in
  p ← self_ptr_at old_length;
  _ ← copy_in (data iter) 0 p added_length;
  a ← lift (to_L added_length);
  n ← lift (L_add old_length a);
  _ ← set_len n;
  let start := Nat.min (capacity iter) (capacity v) in
  l ← lift (if start <? len iter then mem_slice (data iter) start (len iter - start) else mem_slice (data iter) 0 (len iter));
  modify (drop_values l).

(** [insert_many] for an iterator that holds [items] and says that it has [iter_size].
    [self_ptr] stays the pointer to [index]. *)
Fixpoint insert_many_loop (index iter_size tail item_count : nat) (items : list T) : V (nat * list T) :=
  v ← gets self;
  if item_count <? capacity v then
    match items with
    | item :: items =>
        let current := index + item_count in
        _ ← (if iter_size <=? item_count then i ← lift (to_L index); _ ← self_ptr_at i; copy_ current (current + 1) tail
             else mret tt);
        _ ← write_ current item;
        insert_many_loop index iter_size tail (item_count + 1) items
    | [] => mret (item_count, [])
    end
  else mret (item_count, items).
Definition insert_many (index : nat) (iter_size : nat) (items : list T) : V unit :=
  v ← gets self;
  let old_length := len v in
  _ ← lift (assert_ ((old_length <? capacity v) && (index <=? old_length)));
  if index =? old_length then extend_iter items
  else
    _ ← lift (assert_ ((Z.of_nat (index + iter_size) <=? usize_max)%Z && (old_length - index + iter_size <? capacity v)));
    i ← lift (to_L index);
    p ← self_ptr_at i;
    _ ← copy_ p (p + iter_size) (old_length - index);
    _ ← modify (set_length i);
    '(item_count, rest) ← insert_many_loop p iter_size (old_length - index) 0 items;
    n ← lift (to_L (old_length + item_count));
    _ ← set_len n;
    modify (drop_values rest).

(** [append]; the result is [other] afterwards *)
Definition append (other : StaticVec) : V StaticVec :=
  v ← gets self;
  let old_length := len v in
  item_count ← lift (to_L (Nat.min (capacity v - old_length) (len other)));
  other_new_length ← lift (L_sub (len other) item_count);
  p ← self_ptr_at old_length;
  _ ← copy_in (data other) 0 p item_count;
  q ← lift (ptr_at_unchecked other item_count);
  m ← lift (mem_copy (data other) q (data other) 0 other_new_length);
  _ ← lift (assert_ (other_new_length <=? capacity other));
  n ← lift (L_add old_length item_count);
  _ ← set_len n;
  mret (mkVec m other_new_length).

(** [RangeBounds] *)
Inductive Bound := Included (idx : nat) | Excluded (idx : nat) | Unbounded.
Definition range_start (b : Bound) : R nat :=
  match b with Included idx => Ok idx | Excluded idx => usize_succ idx | Unbounded => Ok 0 end.
Definition range_end (b : Bound) (length : nat) : R nat :=
  match b with Included idx => usize_succ idx | Excluded idx => Ok idx | Unbounded => Ok length end.

Definition drain (from to : Bound) : V StaticVec :=
  v ← gets self;
  let old_length := len v in
  start ← lift (range_start from);
  e ← lift (range_end to old_length);
  _ ← lift (assert_ ((start <=? e) && (e <=? old_length)));
  let res_length := e - start in
  i ← lift (to_L start);
  p ← self_ptr_at i;
  m ← lift (mem_copy (data v) p (new_data_uninit (capacity v)) 0 res_length);
  _ ← copy_ e start (old_length - e);
  r ← lift (to_L res_length);
  n ← lift (L_sub old_length r);
  _ ← set_len n;
  mret (mkVec m r).

(** The filter may change its argument and may panic; its argument [nat] counts its
    calls. *)
Definition drain_filter_body (filter : nat → T → option (bool * T)) (i : nat) (res : mem T) (res_length : nat) :
    V (mem T * nat) :=
  i' ← lift (to_L i);
  v ← gets self;
  x ← lift (get_unchecked v i');
  y ← lift (expect (filter i x));
  _ ← write_ i' y.2;
  if y.1 : bool then
    q ← lift (ptr_at_unchecked (mkVec res 0) res_length);
    x ← read_ i';
    res ← lift (mem_write res q x);
    r ← lift (L_add res_length 1);
    mret (res, r)
  else
    _ ← (if 0 <? res_length then d ← lift (L_sub i' res_length); copy_ i' d 1 else mret tt);
    mret (res, res_length).
Fixpoint drain_filter_loop (filter : nat → T → option (bool * T)) (n i : nat) (res : mem T) (res_length : nat) :
    V (mem T * nat) :=
  match n with
  | O => mret (res, res_length)
  | S n =>
      p ← drain_filter_body filter i res res_length;
      drain_filter_loop filter n (S i) p.1 p.2
  end.
Definition drain_filter (filter : nat → T → option (bool * T)) : V StaticVec :=
  v ← gets self;
  let old_length := len v in
  _ ← modify (set_length 0);
  '(res, res_length) ← drain_filter_loop filter old_length 0 (new_data_uninit (capacity v)) 0;
  n ← lift (L_sub old_length res_length);
  _ ← modify (set_length n);
  mret (mkVec res res_length).
(** [retain] drops the vector that [drain_filter] returns. *)
Definition retain (filter : nat → T → option bool) : V unit :=
  res ← drain_filter (λ i x, b ← filter i x; Some (negb b, x));
  l ← lift (as_slice res);
  modify (drop_values l).

Definition split_off (at_ : nat) : V StaticVec :=
  v ← gets self;
  let old_length := len v in
  _ ← lift (assert_ (at_ <=? old_length));
  split_length ← lift (L_sub old_length at_);
  _ ← set_len at_;
  p ← self_ptr_at at_;
  m ← lift (mem_copy (data v) p (new_data_uninit (capacity v)) 0 split_length);
  mret (mkVec m split_length).

(** [partition_dedup_by] of the standard library: the elements that are kept, the
    duplicates after them, and the elements that have not been looked at; an element
    that is kept is swapped with the first duplicate. *)
Fixpoint partition_dedup (same : T → T → bool) (kept : list T) (prev : T) (dups rest : list T) : list T * list T :=
  match rest with
  | [] => (kept ++ [prev], dups)
  | x :: rest =>
      if same x prev then partition_dedup same kept prev (dups ++ [x]) rest
      else partition_dedup same (kept ++ [prev]) x (match dups with [] => [] | d :: dups => dups ++ [d] end) rest
  end.
Definition partition_dedup_by (same : T → T → bool) (l : list T) : list T * list T :=
  match l with [] => ([], []) | x :: l => partition_dedup same [] x [] l end.
Definition dedup_by (same_bucket : T → T → bool) : V unit :=
  v ← gets self;
  l ← lift (as_slice v);
  let '(kept, dups) := partition_dedup_by same_bucket l in
  m ← lift (mem_copy (Some <$> kept ++ dups) 0 (data v) 0 (len v));
  _ ← modify (set_data m);
  new_length ← lift (to_L (length kept));
  truncate new_length.
End vec.
