(* ===== verification/StaticVecProofs.v ===== *)
(** * [StaticVec] refines lists of bounded length

    The vectors of [StaticVec] against lists: which list a vector holds, what each
    operation does to it, and sequences of operations. *)

From S2P Require Import Prelude StaticVec.
Local Open Scope nat_scope.
#[local] Arguments Nat.ltb : simpl never.
#[local] Arguments Nat.leb : simpl never.
#[local] Arguments Nat.eqb : simpl never.
#[local] Arguments Nat.sub : simpl never.
#[local] Arguments Nat.min : simpl never.

(** Arithmetic with the lengths of lists *)
Ltac lens :=
  repeat progress (cbn [length] in *;
    rewrite ?length_app, ?length_fmap, ?length_take, ?length_drop, ?length_insert, ?length_replicate in *); lia.

(** ** Arrays whose first slots are initialised *)

Section memory.
Context {T : Type}.
Implicit Types (l : list T) (j : mem T).

Lemma mem_read_ok l j i x : l !! i = Some x → mem_read ((Some <$> l) ++ j) i = Ok x.
Proof.
  intros Hx. unfold mem_read. rewrite lookup_app_l by (rewrite length_fmap; by eapply lookup_lt_Some).
  by rewrite list_lookup_fmap, Hx.
Qed.

Lemma mapM_id_Some l : mapM id (Some <$> l) = Some l.
Proof. induction l as [|x l IH]; [done|]. cbn. by rewrite IH. Qed.

Lemma mem_slice_ok l j i n : i + n ≤ length l → mem_slice ((Some <$> l) ++ j) i n = Ok (take n (drop i l)).
Proof.
  intros Hn. unfold mem_slice. rewrite length_app, length_fmap, (proj2 (Nat.leb_le _ _)) by lia.
  rewrite drop_app_le, take_app_le by (rewrite ?length_drop, length_fmap; lia).
  by rewrite <- fmap_drop, <- fmap_take, mapM_id_Some.
Qed.

Lemma mem_write_ok (m : mem T) i x : i < length m → mem_write m i x = Ok (<[i:=Some x]> m).
Proof. intros Hi. unfold mem_write. by rewrite (proj2 (Nat.ltb_lt _ _)). Qed.

Lemma mem_copy_ok (src dst : mem T) s d n : s + n ≤ length src → d + n ≤ length dst →
  mem_copy src s dst d n = Ok (take d dst ++ take n (drop s src) ++ drop (d + n) dst).
Proof. intros H1 H2. unfold mem_copy. by rewrite !(proj2 (Nat.leb_le _ _)). Qed.

(** Writing to the slot behind the values *)
Lemma write_behind l x y j : <[length l:=Some x]> ((Some <$> l) ++ y :: j) = (Some <$> l ++ [x]) ++ j.
Proof.
  rewrite <- (length_fmap Some l) at 1. rewrite insert_app_r_alt, Nat.sub_diag by done. cbn. by rewrite fmap_app, <- app_assoc.
Qed.

(** Initialised slots that are copied *)
Lemma take_drop_init l j i n : i + n ≤ length l → take n (drop i ((Some <$> l) ++ j)) = Some <$> take n (drop i l).
Proof.
  intros Hn. rewrite drop_app_le, take_app_le by (rewrite ?length_drop, length_fmap; lia).
  by rewrite <- fmap_drop, <- fmap_take.
Qed.
Lemma take_init l j i : i ≤ length l → take i ((Some <$> l) ++ j) = Some <$> take i l.
Proof. intros Hi. rewrite <- (drop_0 ((Some <$> l) ++ j)), take_drop_init by lia. by rewrite drop_0. Qed.
End memory.

(** ** Vectors and lists *)

Section vec.
Context {T : Type} {L : LengthType} (N : nat) (HN : (Z.of_nat N ≤ L_MAX)%Z).
Implicit Types (l : list T) (d : list T) (v : StaticVec (T:=T)).

Definition rep v l : Prop := ∃ j, v = mkVec ((Some <$> l) ++ j) (length l) ∧ length l + length j = N.

(** The call [m] ends with [r], the vector holds [l'] afterwards, and [ds] has been
    dropped. *)
Definition does {A} (m : M VecState fault A) (v : StaticVec) (r : result fault A) (l' ds : list T) : Prop :=
  ∀ d, ∃ v', m (mkState v d) = (r, mkState v' (d ++ ds)) ∧ rep v' l'.

Lemma rep_capacity v l : rep v l → capacity v = N.
Proof. intros (j & -> & Hj). unfold capacity. cbn. rewrite length_app, length_fmap. lia. Qed.
Lemma rep_len v l : rep v l → len v = length l.
Proof. by intros (j & -> & _). Qed.
Lemma rep_bound v l : rep v l → length l ≤ N.
Proof. intros (j & _ & Hj). lia. Qed.

(** A memory that starts with [l] *)
Lemma rep_intro (m : mem T) l n j : m = (Some <$> l) ++ j → n = length l → length m = N → rep (mkVec m n) l.
Proof. intros -> -> Hm. exists j. split; [done|]. rewrite length_app, length_fmap in Hm. lia. Qed.
(** Shortening keeps the slots. *)
Lemma rep_shrink v l n : rep v l → n ≤ length l → rep (mkVec (data v) n) (take n l).
Proof.
  intros (j & -> & Hj) Hn. exists ((Some <$> drop n l) ++ j). cbn. split.
  - f_equal; [|rewrite length_take; lia]. by rewrite app_assoc, <- fmap_app, take_drop.
  - rewrite length_app, length_fmap, length_take, length_drop. lia.
Qed.

Lemma to_L_ok n : n ≤ N → to_L n = Ok n.
Proof. intros Hn. unfold to_L. by rewrite (proj2 (Z.leb_le _ _)) by lia. Qed.
Lemma L_add_ok a b : a + b ≤ N → L_add a b = Ok (a + b).
Proof. apply to_L_ok. Qed.
Lemma L_sub_ok a b : b ≤ a → L_sub a b = Ok (a - b).
Proof. intros Hb. unfold L_sub. by rewrite (proj2 (Nat.leb_le _ _)). Qed.

Lemma ptr_at_unchecked_ok v i : capacity v = N → i ≤ N → ptr_at_unchecked v i = Ok i.
Proof.
  intros Hc Hi. unfold ptr_at_unchecked. rewrite Hc, to_L_ok by lia. cbn. by rewrite (proj2 (Nat.leb_le _ _)).
Qed.

(** *** Steps of calls *)

Lemma run_panic {A B} (r : result fault A) (f : A → M (VecState (T:=T)) fault B) s :
  r = Panic → (lift r ≫= f) s = (Panic, s).
Proof. by intros ->. Qed.

Lemma run_self_ptr {A} i v d (f : nat → M VecState fault A) : capacity v = N → i ≤ N →
  (self_ptr_at i ≫= f) (mkState v d) = f i (mkState v d).
Proof. intros Hc Hi. unfold self_ptr_at. rewrite run_bind, run_gets. cbn. by rewrite (ptr_at_unchecked_ok v i). Qed.

Lemma run_set_len {A} n v d (f : unit → M VecState fault A) : n ≤ capacity v →
  (set_len n ≫= f) (mkState v d) = f tt (mkState (mkVec (data v) n) d).
Proof. intros Hn. unfold set_len. rewrite run_bind, run_gets. cbn. by rewrite (proj2 (Nat.leb_le _ _)). Qed.
Lemma set_len_run n v d : n ≤ capacity v → set_len n (mkState v d) = (Ok tt, mkState (mkVec (data v) n) d).
Proof. intros Hn. unfold set_len. rewrite run_gets. cbn. by rewrite (proj2 (Nat.leb_le _ _)). Qed.

Lemma run_read {A} i v d x (f : T → M VecState fault A) : mem_read (data v) i = Ok x →
  (read_ i ≫= f) (mkState v d) = f x (mkState v d).
Proof. intros Hx. unfold read_. rewrite run_bind, run_gets. cbn. by rewrite Hx. Qed.

Lemma run_write {A} i x v d (f : unit → M VecState fault A) : i < capacity v →
  (write_ i x ≫= f) (mkState v d) = f tt (mkState (mkVec (<[i:=Some x]> (data v)) (len v)) d).
Proof. intros Hi. unfold write_. rewrite run_bind, run_gets. cbn. by rewrite mem_write_ok by done. Qed.

Lemma run_copy {A} s t n v d (f : unit → M VecState fault A) : s + n ≤ capacity v → t + n ≤ capacity v →
  (copy_ s t n ≫= f) (mkState v d) =
    f tt (mkState (mkVec (take t (data v) ++ take n (drop s (data v)) ++ drop (t + n) (data v)) (len v)) d).
Proof. intros Hs Ht. unfold copy_. rewrite run_bind, run_gets. cbn. by rewrite mem_copy_ok by done. Qed.

Lemma run_copy_in {A} src s t n v d (f : unit → M VecState fault A) : s + n ≤ length src → t + n ≤ capacity v →
  (copy_in src s t n ≫= f) (mkState v d) =
    f tt (mkState (mkVec (take t (data v) ++ take n (drop s src) ++ drop (t + n) (data v)) (len v)) d).
Proof. intros Hs Ht. unfold copy_in. rewrite run_bind, run_gets. cbn. by rewrite mem_copy_ok by done. Qed.

Lemma run_drop_in_place {A} i n v d l (f : unit → M VecState fault A) : mem_slice (data v) i n = Ok l →
  (drop_in_place i n ≫= f) (mkState v d) = f tt (mkState v (d ++ l)).
Proof. intros Hl. unfold drop_in_place. rewrite run_bind, run_gets. cbn. by rewrite Hl. Qed.

(** *** What a vector says about itself *)

Lemma is_full_ok v l : rep v l → is_full v = Ok (length l =? N).
Proof. intros Hr. unfold is_full. by rewrite (rep_capacity _ _ Hr), to_L_ok, (rep_len _ _ Hr). Qed.
Lemma is_not_full_ok v l : rep v l → is_not_full v = Ok (length l <? N).
Proof.
  intros Hr. unfold is_not_full. rewrite (is_full_ok _ _ Hr). cbn. f_equal. pose proof (rep_bound _ _ Hr).
  destruct (Nat.eqb_spec (length l) N), (Nat.ltb_spec (length l) N); (done || lia).
Qed.
Lemma is_empty_ok v l : rep v l → is_empty v = bool_decide (l = []).
Proof. intros Hr. unfold is_empty. rewrite (rep_len _ _ Hr). by destruct l. Qed.
Lemma as_slice_ok v l : rep v l → as_slice v = Ok l.
Proof. intros (j & -> & _). unfold as_slice. cbn. rewrite mem_slice_ok by done. by rewrite take_ge. Qed.
Lemma remaining_capacity_ok v l : rep v l → remaining_capacity v = Ok (N - length l).
Proof.
  intros Hr. unfold remaining_capacity. pose proof (rep_bound _ _ Hr).
  rewrite (rep_capacity _ _ Hr), to_L_ok by done. cbn. by rewrite (rep_len _ _ Hr), L_sub_ok by lia.
Qed.
Lemma get_unchecked_ok v l i x : rep v l → l !! i = Some x → get_unchecked v i = Ok x.
Proof.
  intros Hr Hx. pose proof (lookup_lt_Some _ _ _ Hx). pose proof (rep_bound _ _ Hr). unfold get_unchecked.
  rewrite (rep_capacity _ _ Hr), to_L_ok by done. cbn. rewrite (proj2 (Nat.ltb_lt _ _)) by lia. cbn.
  rewrite ptr_at_unchecked_ok by (by eapply rep_capacity || lia). cbn. destruct Hr as (j & -> & _). by apply mem_read_ok.
Qed.
Lemma index_ok v l i : rep v l → index_ v i = expect (l !! i).
Proof.
  intros Hr. unfold index_. rewrite (rep_len _ _ Hr). destruct (l !! i) as [x|] eqn:Hx.
  - pose proof (lookup_lt_Some _ _ _ Hx). rewrite (proj2 (Nat.ltb_lt _ _)) by done. cbn. by eapply get_unchecked_ok.
  - apply lookup_ge_None in Hx. by rewrite (proj2 (Nat.ltb_ge _ _)).
Qed.
Lemma index_range_ok v l s e : rep v l →
  index_range v s e = if (s <=? e) && (e <=? length l) then Ok (take (e - s) (drop s l)) else Panic.
Proof.
  intros Hr. unfold index_range. rewrite (rep_len _ _ Hr). destruct (Nat.leb_spec s e); [|done].
  destruct (Nat.leb_spec e (length l)); [|done]. cbn. pose proof (rep_bound _ _ Hr).
  rewrite ptr_at_unchecked_ok by (by eapply rep_capacity || lia). cbn. rewrite L_sub_ok by done. cbn.
  destruct Hr as (j & -> & _). cbn. by rewrite mem_slice_ok by lia.
Qed.
Lemma first_ok v l : rep v l → first v = Ok (head l).
Proof.
  intros Hr. unfold first. rewrite (is_empty_ok _ _ Hr). destruct l as [|x l]; [done|]. cbn.
  by rewrite (get_unchecked_ok _ _ 0 x Hr).
Qed.
Lemma last_ok v l : rep v l → StaticVec.last v = Ok (list.last l).
Proof.
  intros Hr. unfold last. rewrite (is_empty_ok _ _ Hr). destruct l as [|y l' _] using rev_ind; [done|].
  rewrite bool_decide_eq_false_2 by (by destruct l'). rewrite (rep_len _ _ Hr), L_sub_ok by (rewrite length_app; cbn; lia).
  cbn. rewrite length_app. cbn. rewrite (get_unchecked_ok _ _ _ y Hr), last_snoc; [done|].
  replace (length l' + 1 - 1) with (length l') by lia. by rewrite list_lookup_middle.
Qed.

(** *** Adding and removing elements *)

Lemma does_intro {A} (m : M VecState fault A) v r v' l' ds :
  (∀ d, m (mkState v d) = (r, mkState v' (d ++ ds))) → rep v' l' → does m v r l' ds.
Proof. intros Hm Hr d. exists v'. by rewrite Hm. Qed.
Lemma does_nothing {A} (m : M VecState fault A) v r l :
  rep v l → (∀ d, m (mkState v d) = (r, mkState v d)) → does m v r l [].
Proof. intros Hr Hm. eapply does_intro; [|done]. intros d. by rewrite Hm, app_nil_r. Qed.
Lemma does_bind {A B} (m : M VecState fault A) (f : A → M VecState fault B) v a l ds r l' ds' :
  does m v (Ok a) l ds → (∀ v', rep v' l → does (f a) v' r l' ds') → does (m ≫= f) v r l' (ds ++ ds').
Proof.
  intros Hm Hf d. destruct (Hm d) as (v' & Hv' & Hr). destruct (Hf v' Hr (d ++ ds)) as (v'' & Hv'' & Hr').
  exists v''. by rewrite run_bind, Hv', Hv'', app_assoc.
Qed.
Lemma does_ret {A} (a : A) v l : rep v l → does (mret a) v (Ok a) l [].
Proof. intros Hr. by apply does_nothing. Qed.
(** A call and the value it returns *)
Lemma does_map {A B} (m : M VecState fault A) (f : A → B) v a l ds :
  does m v (Ok a) l ds → does (x ← m; mret (f x)) v (Ok (f a)) l ds.
Proof. intros Hm. rewrite <- (app_nil_r ds). eapply does_bind; [done|]. intros v' Hr. by apply does_ret. Qed.

(** The first steps of a call *)
Lemma does_eq {A} (m m' : M VecState fault A) v r l ds :
  (∀ d, m' (mkState v d) = m (mkState v d)) → does m v r l ds → does m' v r l ds.
Proof. intros He Hm d. rewrite He. apply Hm. Qed.

Lemma push_unchecked_does v l x : rep v l → length l < N → does (push_unchecked x) v (Ok tt) (l ++ [x]) [].
Proof.
  intros Hr Hl. assert (capacity v = N) as Hc by by eapply rep_capacity. eapply does_intro.
  - intros d. unfold push_unchecked. rewrite run_gets. cbn [self]. rewrite (run_lift _ _ true)
      by (rewrite (is_not_full_ok _ _ Hr); by rewrite (proj2 (Nat.ltb_lt _ _))).
    rewrite (run_lift _ _ tt) by done. rewrite (rep_len _ _ Hr), run_self_ptr, run_write by lia.
    rewrite (run_lift _ _ (length l + 1)) by (apply L_add_ok; lia). rewrite set_len_run; [by rewrite app_nil_r|].
    unfold capacity in *. cbn. rewrite length_insert. lia.
  - destruct Hr as (j & -> & Hj). cbn. destruct j as [|y j]; [cbn in Hj; lia|]. eapply (rep_intro _ _ _ j).
    + apply write_behind.
    + by rewrite length_app.
    + rewrite length_insert, length_app, length_fmap. cbn in *. lia.
Qed.

Lemma push_does v l x : rep v l →
  does (push x) v (if length l <? N then Ok tt else Panic) (if length l <? N then l ++ [x] else l)
    (if length l <? N then [] else [x]).
Proof.
  intros Hr. destruct (Nat.ltb_spec (length l) N) as [Hl|Hl].
  - eapply does_eq; [|by apply push_unchecked_does]. intros d. unfold push. rewrite run_gets. cbn [self]. by rewrite (run_lift _ _ true)
      by (rewrite (is_not_full_ok _ _ Hr); by rewrite (proj2 (Nat.ltb_lt _ _))).
  - apply (does_intro _ _ _ v); [|done]. intros d. unfold push. rewrite run_gets. cbn [self].
    rewrite (run_lift _ _ false); [done|]. rewrite (is_not_full_ok _ _ Hr). by rewrite (proj2 (Nat.ltb_ge _ _)).
Qed.

Lemma try_push_does v l x : rep v l →
  does (try_push x) v (Ok (if length l <? N then inl tt else inr x)) (if length l <? N then l ++ [x] else l) [].
Proof.
  intros Hr. eapply (does_eq (if length l <? N then _ ← push_unchecked x; mret (inl tt) else mret (inr x))).
  { intros d. unfold try_push. rewrite run_gets. cbn [self]. by rewrite (run_lift _ _ (length l <? N)) by by apply is_not_full_ok. }
  destruct (Nat.ltb_spec (length l) N) as [Hl|Hl]; [|by apply does_ret].
  by eapply (does_map _ (λ _, inl tt)), push_unchecked_does.
Qed.

Lemma pop_does v l : rep v l → does pop v (Ok (list.last l)) (take (length l - 1) l) [].
Proof.
  intros Hr. assert (capacity v = N) as Hc by by eapply rep_capacity. pose proof (rep_bound _ _ Hr).
  destruct l as [|x l' _] using rev_ind.
  { apply does_nothing; [done|]. intros d. unfold pop. rewrite run_gets. cbn [self]. by rewrite (is_empty_ok _ _ Hr). }
  assert (length (l' ++ [x]) - 1 = length l') as Hn by (rewrite length_app; cbn; lia). rewrite last_snoc.
  eapply does_intro; [|by apply (rep_shrink v (l' ++ [x])); [|rewrite Hn, length_app; lia]].
  intros d. unfold pop. rewrite run_gets. cbn [self].
  rewrite (is_empty_ok _ _ Hr), bool_decide_eq_false_2 by (by destruct l'). unfold pop_unchecked. rewrite run_bind, run_gets.
  cbn [self]. rewrite (is_empty_ok _ _ Hr), bool_decide_eq_false_2 by (by destruct l').
  rewrite (run_lift _ _ tt) by done. rewrite (rep_len _ _ Hr).
  rewrite (run_lift _ _ (length (l' ++ [x]) - 1)) by (apply L_sub_ok; rewrite length_app; cbn; lia).
  rewrite Hn in *. rewrite length_app in H. rewrite run_set_len by lia. rewrite run_self_ptr by (done || lia). cbn [data].
  assert (mem_read (data v) (length l') = Ok x) as Hx.
  { destruct Hr as (j & -> & _). apply mem_read_ok. by rewrite list_lookup_middle. }
  unfold read_. rewrite run_gets. cbn. by rewrite Hx, app_nil_r.
Qed.

(** Removing the element in the middle *)
Lemma remove_unchecked_does v l1 x l2 : rep v (l1 ++ x :: l2) →
  does (remove_unchecked (length l1)) v (Ok x) (l1 ++ l2) [].
Proof.
  intros Hr. assert (capacity v = N) as Hc by by eapply rep_capacity. pose proof (rep_bound _ _ Hr) as Hb.
  rewrite length_app in Hb. cbn in Hb. assert (length (l1 ++ x :: l2) = length l1 + S (length l2)) as Hlen by by rewrite length_app.
  assert (Hc' := Hc). unfold capacity in Hc'.
  eapply does_intro.
  - intros d. unfold remove_unchecked. rewrite run_gets. cbn [self]. rewrite (rep_len _ _ Hr), run_self_ptr by (done || lia).
    erewrite run_read by (destruct Hr as (j & -> & _); apply mem_read_ok; by rewrite list_lookup_middle).
    rewrite (run_lift _ _ (S (length l2))) by (rewrite L_sub_ok by lia; f_equal; lia).
    rewrite (run_lift _ _ (length l2)) by (rewrite L_sub_ok by lia; f_equal; lia).
    rewrite run_copy by lia. rewrite (run_lift _ _ (length l1 + length l2)) by (rewrite L_sub_ok by lia; f_equal; lia).
    rewrite run_set_len; [cbn [data]; by rewrite app_nil_r|].
    unfold capacity. cbn. rewrite !length_app, !length_take, !length_drop. lia.
  - destruct Hr as (j & -> & Hj). cbn [data] in *. eapply rep_intro.
    + rewrite take_init, take_drop_init by (rewrite Hlen; lia). rewrite app_assoc, <- fmap_app. f_equal. f_equal.
      rewrite take_app_length. f_equal. rewrite (cons_middle x), app_assoc, drop_app_length' by (rewrite length_app; cbn; lia).
      by rewrite take_ge.
    + by rewrite length_app.
    + rewrite !length_app, !length_take, !length_drop. lia.
Qed.

Lemma remove_does v l i : rep v l →
  does (remove i) v (expect (l !! i)) (if i <? length l then take i l ++ drop (S i) l else l) [].
Proof.
  intros Hr. destruct (Nat.ltb_spec i (length l)) as [Hi|Hi].
  - destruct (lookup_lt_is_Some_2 l i Hi) as [x Hx]. rewrite Hx. cbn.
    rewrite <- (take_drop_middle _ _ _ Hx) in Hr. pose proof (remove_unchecked_does _ _ _ _ Hr) as Hd.
    rewrite length_take_le in Hd by lia. eapply does_eq; [|exact Hd]. intros d. unfold remove. rewrite run_gets. cbn [self].
    rewrite (run_lift _ _ tt); [done|]. rewrite (rep_len _ _ Hr), (take_drop_middle _ _ _ Hx). by rewrite (proj2 (Nat.ltb_lt _ _)).
  - rewrite lookup_ge_None_2 by done. apply does_nothing; [done|]. intros d. unfold remove. rewrite run_gets. cbn [self].
    apply run_panic. by rewrite (rep_len _ _ Hr), (proj2 (Nat.ltb_ge _ _)) by done.
Qed.

Lemma remove_item_does v l eq x : rep v l →
  let o := position (λ y, eq y x) l in
  does (remove_item eq x) v (Ok (o ≫= λ i, l !! i))
    (match o with Some i => take i l ++ drop (S i) l | None => l end) [].
Proof.
  intros Hr o. eapply (does_eq (match o with Some i => y ← remove i; mret (Some y) | None => mret None end)).
  { intros d. unfold remove_item. rewrite run_gets. cbn [self]. rewrite (run_lift _ _ l) by by apply as_slice_ok.
    fold o. destruct o as [i|] eqn:Ho; [|done]. rewrite (run_lift _ _ i); [done|]. apply to_L_ok.
    apply position_Some in Ho as (y & Hy & _). apply lookup_lt_Some in Hy. pose proof (rep_bound _ _ Hr). lia. }
  destruct o as [i|] eqn:Ho; [|by apply does_ret]. apply position_Some in Ho as (y & Hy & _).
  cbn. rewrite Hy. eapply (does_map (remove i) Some). pose proof (remove_does v l i Hr) as Hd.
  apply lookup_lt_Some in Hy as Hi. by rewrite Hy, (proj2 (Nat.ltb_lt _ _)) in Hd.
Qed.

Lemma rep_insert v l i y : rep v l → i < length l → rep (mkVec (<[i:=Some y]> (data v)) (len v)) (<[i:=y]> l).
Proof.
  intros (j & -> & Hj) Hi. exists j. cbn. rewrite length_insert. split; [|done]. f_equal.
  by rewrite insert_app_l, list_fmap_insert by by rewrite length_fmap.
Qed.

Lemma swap_last_does v l i x y : rep v l → l !! i = Some x → list.last l = Some y →
  does (swap_last i) v (Ok x) (take (length l - 1) (<[i:=y]> l)) [].
Proof.
  intros Hr Hx Hy. assert (capacity v = N) as Hc by by eapply rep_capacity. pose proof (rep_bound _ _ Hr) as Hb.
  apply lookup_lt_Some in Hx as Hi. assert (Hc' := Hc). unfold capacity in Hc'. eapply does_intro.
  - intros d. unfold swap_last. rewrite run_gets. cbn [self]. rewrite (rep_len _ _ Hr).
    rewrite (run_lift _ _ (length l - 1)) by (apply L_sub_ok; lia). rewrite run_self_ptr by (done || lia).
    erewrite run_read by (destruct Hr as (j & -> & _); apply mem_read_ok;
      replace (length l - 1) with (pred (length l)) by lia; by rewrite <- last_lookup).
    rewrite run_set_len by lia. rewrite run_self_ptr by (done || lia). cbn [data].
    erewrite run_read by (destruct Hr as (j & -> & _); by apply mem_read_ok).
    rewrite run_write by (unfold capacity; cbn; lia). by rewrite app_nil_r.
  - cbn [data len]. apply (rep_shrink (mkVec (<[i:=Some y]> (data v)) (len v)) (<[i:=y]> l)); [by apply rep_insert|].
    rewrite length_insert. lia.
Qed.

(** [swap_pop] and [swap_remove] *)
Definition swap_out l i : list T := match list.last l with Some y => take (length l - 1) (<[i:=y]> l) | None => l end.
Lemma swap_pop_does v l i : rep v l →
  does (swap_pop i) v (Ok (l !! i)) (if i <? length l then swap_out l i else l) [].
Proof.
  intros Hr. eapply (does_eq (if i <? length l then x ← swap_last i; mret (Some x) else mret None)).
  { intros d. unfold swap_pop. rewrite run_gets. cbn [self]. by rewrite (rep_len _ _ Hr). }
  destruct (Nat.ltb_spec i (length l)) as [Hi|Hi]; [|rewrite lookup_ge_None_2 by done; by apply does_ret].
  destruct (lookup_lt_is_Some_2 l i Hi) as [x Hx]. rewrite Hx. apply (does_map _ Some). unfold swap_out.
  destruct (list.last l) as [y|] eqn:Hy; [by apply swap_last_does|]. apply last_None in Hy as ->. by cbn in Hi; lia.
Qed.
Lemma swap_remove_does v l i : rep v l →
  does (swap_remove i) v (expect (l !! i)) (if i <? length l then swap_out l i else l) [].
Proof.
  intros Hr. destruct (Nat.ltb_spec i (length l)) as [Hi|Hi].
  - destruct (lookup_lt_is_Some_2 l i Hi) as [x Hx]. rewrite Hx. unfold swap_out.
    destruct (list.last l) as [y|] eqn:Hy; [|apply last_None in Hy as ->; by cbn in Hi; lia].
    eapply does_eq; [|by apply swap_last_does]. intros d. unfold swap_remove. rewrite run_gets. cbn [self].
    rewrite (run_lift _ _ tt); [done|]. by rewrite (rep_len _ _ Hr), (proj2 (Nat.ltb_lt _ _)).
  - rewrite lookup_ge_None_2 by done. apply does_nothing; [done|]. intros d. unfold swap_remove. rewrite run_gets.
    cbn [self]. apply run_panic. by rewrite (rep_len _ _ Hr), (proj2 (Nat.ltb_ge _ _)) by done.
Qed.

(** Making room in the middle *)
Lemma insert_after_take (m r : mem T) i y : i < length m → <[i:=y]> (take (i + 1) m ++ r) = take i m ++ y :: r.
Proof.
  intros Hi. destruct (lookup_lt_is_Some_2 m i Hi) as [z Hz]. rewrite Nat.add_1_r, (take_S_r _ _ _ Hz), <- app_assoc.
  rewrite insert_app_r_alt by (rewrite length_take; lia). rewrite length_take_le, Nat.sub_diag by lia. done.
Qed.

Lemma insert_unchecked_does v l1 l2 x : rep v (l1 ++ l2) → length (l1 ++ l2) < N →
  does (insert_unchecked (length l1) x) v (Ok tt) (l1 ++ x :: l2) [].
Proof.
  intros Hr Hb. assert (capacity v = N) as Hc by by eapply rep_capacity. assert (Hlen := length_app l1 l2).
  assert (Hc' := Hc). unfold capacity in Hc'. eapply does_intro.
  - intros d. unfold insert_unchecked. rewrite run_gets. cbn [self]. rewrite (rep_len _ _ Hr), run_self_ptr by (done || lia).
    rewrite (run_lift _ _ (length l2)) by (rewrite L_sub_ok by lia; f_equal; lia).
    rewrite run_copy by lia.
    rewrite run_write by (unfold capacity; cbn; rewrite !length_app, !length_take, !length_drop; lia).
    cbn [data len]. rewrite insert_after_take by lia. rewrite (run_lift _ _ (length (l1 ++ l2) + 1)) by (apply L_add_ok; lia).
    rewrite set_len_run; [by rewrite app_nil_r|].
    unfold capacity. cbn. rewrite !length_app. cbn. rewrite !length_app, !length_take, !length_drop. lia.
  - destruct Hr as (j & -> & Hj). cbn [data] in *. eapply rep_intro.
    + rewrite take_init, take_drop_init by lia. rewrite take_app_length, drop_app_length, (take_ge l2) by done.
      rewrite (fmap_app Some l1 (x :: l2)). symmetry. rewrite <- app_assoc. reflexivity.
    + rewrite !length_app. cbn. lia.
    + rewrite length_app. cbn. rewrite !length_app, !length_take, !length_drop. lia.
Qed.

Definition inserted l i x : list T := take i l ++ x :: drop i l.
Lemma can_insert_ok v l i : rep v l → can_insert v i = Ok ((length l <? N) && (i <=? length l)).
Proof. intros Hr. unfold can_insert. by rewrite (rep_capacity _ _ Hr), to_L_ok, (rep_len _ _ Hr). Qed.

Lemma insert_unchecked_at v l i x : rep v l → length l < N → i ≤ length l →
  does (insert_unchecked i x) v (Ok tt) (inserted l i x) [].
Proof.
  intros Hr Hl Hi. rewrite <- (take_drop i l) in Hr. pose proof (insert_unchecked_does v _ _ x Hr) as Hd.
  rewrite take_drop, length_take_le in Hd by done. by apply Hd.
Qed.

Lemma insert_does v l i x : rep v l →
  let b := (length l <? N) && (i <=? length l) in
  does (StaticVec.insert i x) v (if b then Ok tt else Panic) (if b then inserted l i x else l) (if b then [] else [x]).
Proof.
  intros Hr b. destruct b eqn:Hb; subst b.
  - eapply does_eq; [|apply andb_prop in Hb as [H1%Nat.ltb_lt H2%Nat.leb_le]; by apply insert_unchecked_at].
    intros d. unfold StaticVec.insert. rewrite run_gets. cbn [self]. by rewrite (run_lift _ _ true) by by rewrite (can_insert_ok _ _ _ Hr), Hb.
  - apply (does_intro _ _ _ v); [|done]. intros d. unfold StaticVec.insert. rewrite run_gets. cbn [self].
    by rewrite (run_lift _ _ false) by by rewrite (can_insert_ok _ _ _ Hr), Hb.
Qed.
Lemma try_insert_does v l i x : rep v l →
  let b := (length l <? N) && (i <=? length l) in
  does (try_insert i x) v (Ok b) (if b then inserted l i x else l) (if b then [] else [x]).
Proof.
  intros Hr b. eapply (does_eq (if b then _ ← insert_unchecked i x; mret true else _ ← modify (drop_values [x]); mret false)).
  { intros d. unfold try_insert. rewrite run_gets. cbn [self]. by rewrite (run_lift _ _ b) by by apply can_insert_ok. }
  destruct b eqn:Hb; subst b.
  - apply (does_map _ (λ _, true)) with (a:=tt). apply andb_prop in Hb as [H1%Nat.ltb_lt H2%Nat.leb_le]. by apply insert_unchecked_at.
  - by apply (does_intro _ _ _ v).
Qed.

Definition spliced l i xs : list T := take i l ++ xs ++ drop i l.
Lemma can_insert_slice_ok v l i xs : rep v l →
  can_insert_slice v i xs = Ok ((length l <? N) && (i <=? length l) && (length xs <=? N - length l)).
Proof.
  intros Hr. unfold can_insert_slice. rewrite (rep_capacity _ _ Hr), (rep_len _ _ Hr), (remaining_capacity_ok _ _ Hr).
  by destruct ((length l <? N) && (i <=? length l)).
Qed.
Lemma insert_slice_unchecked_does v l i xs : rep v l → i ≤ length l → length l + length xs ≤ N →
  does (insert_slice_unchecked i xs) v (Ok tt) (spliced l i xs) [].
Proof.
  intros Hr Hi Hb. assert (capacity v = N) as Hc by by eapply rep_capacity. assert (Hc' := Hc). unfold capacity in Hc'.
  assert (length (take i (data v) ++ take (length l - i) (drop i (data v)) ++ drop (i + length xs + (length l - i)) (data v)) + length xs = N)
    as Hm. { rewrite !length_app, !length_take, !length_drop. lia. }
  eapply does_intro.
  - intros d. unfold insert_slice_unchecked. rewrite run_gets. cbn [self]. rewrite (rep_len _ _ Hr).
    rewrite (run_lift _ _ i) by (apply to_L_ok; lia). rewrite run_self_ptr by (done || lia). rewrite run_copy by lia.
    rewrite run_copy_in; [|by rewrite length_fmap|unfold capacity; cbn; rewrite !length_app, !length_take, !length_drop; lia].
    rewrite (run_lift _ _ (length l + length xs)) by (apply to_L_ok; lia).
    rewrite set_len_run; [cbn [data]; by rewrite app_nil_r|].
    unfold capacity. cbn [data]. repeat rewrite ?length_app, ?length_take, ?length_drop, ?length_fmap. lia.
  - cbn [data]. rewrite drop_0, (take_ge (Some <$> xs)) by by rewrite length_fmap.
    rewrite take_app_le by (rewrite length_take; lia). rewrite take_take, Nat.min_l by lia.
    rewrite drop_app_length' by (rewrite length_take; lia).
    destruct Hr as (j & -> & Hj). cbn [data] in *. rewrite take_init, take_drop_init by lia.
    rewrite (take_ge (drop i l)) by (rewrite length_drop; lia). eapply rep_intro.
    + unfold spliced. rewrite (fmap_app Some (take i l)), (fmap_app Some xs). symmetry. rewrite <- !app_assoc. reflexivity.
    + unfold spliced. rewrite !length_app, length_take, length_drop. lia.
    + repeat rewrite ?length_app, ?length_take, ?length_drop, ?length_fmap. rewrite length_app, length_fmap in Hc'. lia.
Qed.
Lemma insert_from_slice_does v l i xs : rep v l →
  let b := (length l <? N) && (i <=? length l) && (length xs <=? N - length l) in
  does (insert_from_slice i xs) v (if b then Ok tt else Panic) (if b then spliced l i xs else l) [].
Proof.
  intros Hr b. pose proof (rep_bound _ _ Hr). destruct b eqn:Hb; subst b.
  - eapply does_eq; [|apply andb_prop in Hb as [[H1 H2%Nat.leb_le]%andb_prop H3%Nat.leb_le]; apply insert_slice_unchecked_does; [done|done|lia]].
    intros d. unfold insert_from_slice. rewrite run_gets. cbn [self].
    rewrite (run_lift _ _ true) by by rewrite (can_insert_slice_ok _ _ _ _ Hr), Hb. by rewrite (run_lift _ _ tt).
  - apply does_nothing; [done|]. intros d. unfold insert_from_slice. rewrite run_gets. cbn [self].
    rewrite (run_lift _ _ false) by by rewrite (can_insert_slice_ok _ _ _ _ Hr), Hb. by apply run_panic.
Qed.
Lemma try_insert_from_slice_does v l i xs : rep v l →
  let b := (length l <? N) && (i <=? length l) && (length xs <=? N - length l) in
  does (try_insert_from_slice i xs) v (Ok b) (if b then spliced l i xs else l) [].
Proof.
  intros Hr b. pose proof (rep_bound _ _ Hr).
  eapply (does_eq (if b then _ ← insert_slice_unchecked i xs; mret true else mret false)).
  { intros d. unfold try_insert_from_slice. rewrite run_gets. cbn [self]. by rewrite (run_lift _ _ b) by by apply can_insert_slice_ok. }
  destruct b eqn:Hb; subst b; [|by apply does_ret]. apply (does_map _ (λ _, true)) with (a:=tt).
  apply andb_prop in Hb as [[H1 H2%Nat.leb_le]%andb_prop H3%Nat.leb_le]. apply insert_slice_unchecked_does; [done|done|lia].
Qed.

(** *** Dropping elements *)

Lemma drop_in_place_run i n v d l : mem_slice (data v) i n = Ok l →
  drop_in_place i n (mkState v d) = (Ok tt, mkState v (d ++ l)).
Proof. intros Hl. unfold drop_in_place. rewrite run_gets. cbn. by rewrite Hl. Qed.

Lemma clear_does v l : rep v l → does clear v (Ok tt) [] l.
Proof.
  intros Hr. apply (does_intro _ _ _ (mkVec (data v) 0)).
  - intros d. unfold clear. rewrite run_gets. cbn [self]. rewrite (run_drop_in_place _ _ _ _ l) by by apply as_slice_ok. done.
  - apply (rep_shrink _ _ 0 Hr). lia.
Qed.
Lemma truncate_does v l n : rep v l → does (truncate n) v (Ok tt) (take n l) (drop n l).
Proof.
  intros Hr. pose proof (rep_bound _ _ Hr). assert (capacity v = N) as Hc by by eapply rep_capacity.
  destruct (Nat.ltb_spec n (length l)) as [Hn|Hn].
  - eapply does_intro; [|by apply (rep_shrink _ _ n Hr); lia]. intros d. unfold truncate. rewrite run_gets. cbn [self].
    rewrite (rep_len _ _ Hr), (proj2 (Nat.ltb_lt _ _)) by done. rewrite run_set_len by lia. rewrite run_self_ptr by (done || lia).
    rewrite (run_lift _ _ (length l - n)) by (apply L_sub_ok; lia). apply drop_in_place_run. cbn [data].
    destruct Hr as (j & -> & _). cbn [data]. rewrite mem_slice_ok by lia. by rewrite take_ge by (rewrite length_drop; lia).
  - rewrite take_ge, drop_ge by lia. apply does_nothing; [done|]. intros d. unfold truncate. rewrite run_gets. cbn [self].
    by rewrite (rep_len _ _ Hr), (proj2 (Nat.ltb_ge _ _)).
Qed.
Lemma index_set_does v l i x : rep v l →
  does (index_set i x) v (if i <? length l then Ok tt else Panic) (<[i:=x]> l) (if i <? length l then take 1 (drop i l) else [x]).
Proof.
  intros Hr. pose proof (rep_bound _ _ Hr). assert (capacity v = N) as Hc by by eapply rep_capacity.
  destruct (Nat.ltb_spec i (length l)) as [Hi|Hi].
  - eapply does_intro; [|by apply rep_insert]. intros d. unfold index_set. rewrite run_gets. cbn [self].
    assert ((i <? len v) = true) as -> by by rewrite (rep_len _ _ Hr), (proj2 (Nat.ltb_lt _ _)).
    cbn [assert_owning]. rewrite run_ret, run_self_ptr by (done || lia).
    rewrite (run_drop_in_place _ _ _ _ (take 1 (drop i l))) by (destruct Hr as (j & -> & _); apply mem_slice_ok; lia).
    unfold write_. rewrite run_gets. cbn [self]. unfold capacity in Hc.
    by rewrite (run_lift _ _ (<[i:=Some x]> (data v))) by (apply mem_write_ok; lia).
  - rewrite list_insert_ge by lia. apply (does_intro _ _ _ v); [|done]. intros d. unfold index_set. rewrite run_gets. cbn [self].
    by rewrite (rep_len _ _ Hr), (proj2 (Nat.ltb_ge _ _) Hi).
Qed.

(** *** Appending *)

(** Copying values behind the last element *)
Lemma rep_append v l xs : rep v l → length l + length xs ≤ N →
  rep (mkVec (take (length l) (data v) ++ (Some <$> xs) ++ drop (length l + length xs) (data v)) (length l + length xs)) (l ++ xs).
Proof.
  intros (j & -> & Hj) Hb. cbn [data]. eapply rep_intro.
  - rewrite take_init, take_ge by done. rewrite app_assoc, <- fmap_app. reflexivity.
  - by rewrite length_app.
  - rewrite !length_app, length_take, length_drop, length_app, !length_fmap. lia.
Qed.

Definition filled l xs : list T := l ++ take (N - length l) xs.

(** The steps that [extend_from_slice], [append] and others share *)
Lemma run_copy_behind {A} v l xs (src : mem T) n d (f : unit → M VecState fault A) :
  rep v l → length l + n ≤ N → n ≤ length src → take n src = Some <$> xs →
  (copy_in src 0 (length l) n ≫= f) (mkState v d) =
    f tt (mkState (mkVec (take (length l) (data v) ++ (Some <$> xs) ++ drop (length l + n) (data v)) (len v)) d).
Proof.
  intros Hr Hn Hs Ht. rewrite run_copy_in by (rewrite ?(rep_capacity _ _ Hr); lia). by rewrite drop_0, Ht.
Qed.
Lemma capacity_behind v l (xs : mem T) n k : rep v l → length l + n ≤ N → length xs = n →
  capacity (mkVec (take (length l) (data v) ++ xs ++ drop (length l + n) (data v)) k) = N.
Proof.
  intros Hr Hn Hxs. pose proof (rep_capacity _ _ Hr) as Hc. unfold capacity in *. cbn.
  rewrite !length_app, length_take, length_drop. lia.
Qed.

Lemma extend_from_slice_does v l xs : rep v l → does (extend_from_slice xs) v (Ok tt) (filled l xs) [].
Proof.
  intros Hr. pose proof (rep_bound _ _ Hr) as Hb. assert (capacity v = N) as Hc by by eapply rep_capacity.
  assert (length (take (N - length l) xs) = Nat.min (length xs) (N - length l)) as Hk by (rewrite length_take; lia).
  eapply does_intro; [|apply (rep_append _ _ (take (N - length l) xs) Hr); lia].
  intros d. unfold extend_from_slice. rewrite run_gets. cbn [self]. rewrite (rep_len _ _ Hr), Hc.
  rewrite (run_lift _ _ (length l)) by (by apply to_L_ok). rewrite run_self_ptr by done.
  rewrite (run_copy_behind _ _ (take (N - length l) xs)); [|done|lia|rewrite length_fmap; lia|].
  2: { rewrite <- fmap_take. f_equal. destruct (Nat.le_ge_cases (length xs) (N - length l)).
    - by rewrite Nat.min_l, !take_ge by lia.
    - by rewrite Nat.min_r by lia. }
  rewrite (run_lift _ _ (length l + length (take (N - length l) xs))) by (rewrite Hk; apply to_L_ok; lia).
  rewrite set_len_run; [cbn [data]; by rewrite Hk, app_nil_r|].
  rewrite (capacity_behind _ _ _ _ _ Hr); [lia|lia|rewrite length_fmap; lia].
Qed.

Lemma try_extend_from_slice_does v l xs : rep v l → (Z.of_nat (length xs) ≤ L_MAX)%Z →
  let b := length xs <=? N - length l in
  does (try_extend_from_slice xs) v (Ok b) (if b then l ++ xs else l) [].
Proof.
  intros Hr Hxs b. pose proof (rep_bound _ _ Hr) as Hb. assert (capacity v = N) as Hc by by eapply rep_capacity.
  assert (∀ d, try_extend_from_slice xs (mkState v d) = (if N - length l <? length xs then mret false
    else p ← self_ptr_at (len v); _ ← copy_in (Some <$> xs) 0 p (length xs); n ← lift (L_add (len v) (length xs));
      _ ← set_len n; mret true) (mkState v d)) as He.
  { intros d. unfold try_extend_from_slice. rewrite run_gets. cbn [self].
    rewrite (run_lift _ _ (length xs)) by (unfold to_L; by rewrite (proj2 (Z.leb_le _ _))).
    rewrite Hc, (run_lift _ _ N) by (by apply to_L_ok). by rewrite (rep_len _ _ Hr), (run_lift _ _ (N - length l)) by (by apply L_sub_ok). }
  eapply does_eq; [exact He|]. clear He. subst b.
  destruct (Nat.ltb_spec (N - length l) (length xs)) as [Hlt|Hge]; [rewrite (proj2 (Nat.leb_gt _ _)) by done; by apply does_ret|].
  rewrite (proj2 (Nat.leb_le _ _)) by done. eapply does_intro; [|apply (rep_append _ _ xs Hr); lia].
  intros d. rewrite (rep_len _ _ Hr), run_self_ptr by done.
  rewrite (run_copy_behind _ _ xs); [|done|lia|by rewrite length_fmap|by rewrite take_ge by by rewrite length_fmap].
  rewrite (run_lift _ _ (length l + length xs)) by (apply L_add_ok; lia).
  rewrite run_set_len; [cbn [data]; by rewrite app_nil_r|].
  rewrite (capacity_behind _ _ _ _ _ Hr); [lia|lia|by rewrite length_fmap].
Qed.

Lemma extend_loop_run it l j n d : length l + length j = N →
  ∃ j', extend_loop (length l) it (mkState (mkVec ((Some <$> l) ++ j) n) d) =
    (Ok (length (filled l it), drop (N - length l) it), mkState (mkVec ((Some <$> filled l it) ++ j') n) d) ∧
    length (filled l it) + length j' = N.
Proof.
  revert l j. induction it as [|x it IH]; intros l j Hj; cbn [extend_loop]; rewrite run_gets; cbn [self];
    assert (capacity (mkVec ((Some <$> l) ++ j) n) = N) as Hc by (unfold capacity; cbn; rewrite length_app, length_fmap; lia);
    rewrite Hc, (run_lift _ _ N) by (by apply to_L_ok).
  - exists j. unfold filled. rewrite take_nil, drop_nil, app_nil_r. by destruct (length l <? N).
  - destruct (Nat.ltb_spec (length l) N) as [Hl|Hl].
    + rewrite run_self_ptr, run_write by (done || lia). rewrite (run_lift _ _ (length l + 1)) by (apply L_add_ok; lia).
      cbn [data len]. destruct j as [|y j]; [cbn in Hj; lia|].
      rewrite write_behind.
      destruct (IH (l ++ [x]) j) as (j' & He & Hj'); [rewrite length_app; cbn in *; lia|].
      rewrite length_app in He. cbn [length] in He. exists j'. rewrite He.
      assert (filled (l ++ [x]) it = filled l (x :: it)) as Hf.
      { unfold filled. rewrite length_app, <- app_assoc. cbn [length]. by replace (N - length l) with (S (N - (length l + 1))) by lia. }
      rewrite Hf in *. replace (N - length l) with (S (N - (length l + 1))) by lia. by split.
    + exists j. unfold filled. replace (N - length l) with 0 by lia. rewrite app_nil_r. done.
Qed.
Lemma extend_iter_does v l it : rep v l → does (extend_iter it) v (Ok tt) (filled l it) (drop (N - length l) it).
Proof.
  intros (j & -> & Hj) d. destruct (extend_loop_run it l j (length l) d Hj) as (j' & He & Hj').
  exists (mkVec ((Some <$> filled l it) ++ j') (length (filled l it))). split; [|by exists j'].
  unfold extend_iter. rewrite run_gets. cbn [self len]. by rewrite run_bind, He.
Qed.

(** *** Splitting *)

(** The call returns a vector that holds [lw]. *)
Definition does_vec (m : M VecState fault StaticVec) (v : StaticVec) lw (l' ds : list T) : Prop :=
  ∃ w, rep w lw ∧ does m v (Ok w) l' ds.

(** Copying a part of a vector to a new one *)
Lemma copy_out_ok v l s n : rep v l → s + n ≤ length l →
  ∃ m, mem_copy (data v) s (new_data_uninit N) 0 n = Ok m ∧ rep (mkVec m n) (take n (drop s l)).
Proof.
  intros Hr Hn. pose proof (rep_bound _ _ Hr). pose proof (rep_capacity _ _ Hr) as Hc. unfold capacity in Hc.
  eexists. split.
  - apply mem_copy_ok; [lia|]. unfold new_data_uninit. rewrite length_replicate. lia.
  - destruct Hr as (j & -> & Hj). cbn [data] in *. eapply rep_intro.
    + cbn [take app]. rewrite take_drop_init by lia. reflexivity.
    + rewrite length_take, length_drop. lia.
    + rewrite !length_app, !length_take, !length_drop. unfold new_data_uninit. rewrite length_replicate. lia.
Qed.

(** Moving the tail over a part that has been taken out *)
Lemma rep_close v l s e : rep v l → s ≤ e ≤ length l →
  rep (mkVec (take s (data v) ++ take (length l - e) (drop e (data v)) ++ drop (s + (length l - e)) (data v)) (length l - (e - s)))
    (take s l ++ drop e l).
Proof.
  intros Hr Hse. pose proof (rep_bound _ _ Hr). pose proof (rep_capacity _ _ Hr) as Hc. unfold capacity in Hc.
  destruct Hr as (j & -> & Hj). cbn [data] in *. eapply rep_intro.
  - rewrite take_init, take_drop_init, (take_ge (drop e l)) by (rewrite ?length_drop; lia). rewrite app_assoc, <- fmap_app. reflexivity.
  - rewrite length_app, length_take, length_drop. lia.
  - rewrite !length_app, !length_take, !length_drop. lia.
Qed.

Lemma drain_at_does v l from to s e : rep v l → range_start from = Ok s → range_end to (length l) = Ok e →
  s ≤ e ≤ length l → does_vec (drain from to) v (take (e - s) (drop s l)) (take s l ++ drop e l) [].
Proof.
  intros Hr Hs He Hse. pose proof (rep_bound _ _ Hr). assert (capacity v = N) as Hc by by eapply rep_capacity.
  destruct (copy_out_ok v l s (e - s) Hr) as (m & Hm & Hw); [lia|]. exists (mkVec m (e - s)). split; [done|].
  eapply does_intro; [|by apply (rep_close v l s e)]. assert (Hc' := Hc). unfold capacity in Hc'.
  intros d. unfold drain. rewrite run_gets. cbn [self]. 
  rewrite (run_lift _ _ s) by done. rewrite (rep_len _ _ Hr), (run_lift _ _ e) by done.
  rewrite (run_lift _ _ tt) by by rewrite !(proj2 (Nat.leb_le _ _)) by lia.
  rewrite (run_lift _ _ s) by (apply to_L_ok; lia). rewrite run_self_ptr by (done || lia).
  rewrite Hc, (run_lift _ _ m) by done. rewrite run_copy by lia.
  rewrite (run_lift _ _ (e - s)) by (apply to_L_ok; lia). rewrite (run_lift _ _ (length l - (e - s))) by (apply L_sub_ok; lia).
  rewrite run_set_len; [cbn [data]; by rewrite app_nil_r|].
  unfold capacity. cbn [data]. rewrite !length_app, !length_take, !length_drop. lia.
Qed.
Lemma drain_panics v l from to : rep v l →
  match range_start from, range_end to (length l) with Ok s, Ok e => s ≤ e → length l < e | _, _ => True end →
  does (drain from to) v Panic l [].
Proof.
  intros Hr Hse. apply does_nothing; [done|]. intros d. unfold drain. rewrite run_gets. cbn [self].
  assert (∀ b, (range_start b = Panic ∨ ∃ n, range_start b = Ok n)) as Hrs.
  { intros [n|n|]; cbn; unfold usize_succ; repeat case_match; eauto. }
  assert (∀ b k, (range_end b k = Panic ∨ ∃ n, range_end b k = Ok n)) as Hre.
  { intros [n|n|] k; cbn; unfold usize_succ; repeat case_match; eauto. }
  destruct (Hrs from) as [Hs|[s Hs]]; [by apply run_panic|]. rewrite Hs in *. rewrite (run_lift _ _ s) by done.
  rewrite (rep_len _ _ Hr). destruct (Hre to (length l)) as [He|[e He]]; [by apply run_panic|]. rewrite He in *.
  rewrite (run_lift _ _ e) by done. apply run_panic.
  destruct (Nat.leb_spec s e) as [Hl|Hl]; [|done]. by rewrite (proj2 (Nat.leb_gt _ _)) by auto.
Qed.

Lemma split_off_does v l n : rep v l → n ≤ length l → does_vec (split_off n) v (drop n l) (take n l) [].
Proof.
  intros Hr Hn. pose proof (rep_bound _ _ Hr). assert (capacity v = N) as Hc by by eapply rep_capacity.
  destruct (copy_out_ok v l n (length l - n) Hr) as (m & Hm & Hw); [lia|]. exists (mkVec m (length l - n)).
  rewrite take_ge in Hw by (rewrite length_drop; lia). split; [done|].
  eapply does_intro; [|by apply (rep_shrink v l n)]. intros d. unfold split_off. rewrite run_gets. cbn [self].
  rewrite (rep_len _ _ Hr), (run_lift _ _ tt) by by rewrite (proj2 (Nat.leb_le _ _)) by lia.
  rewrite (run_lift _ _ (length l - n)) by (apply L_sub_ok; lia). rewrite run_set_len, run_self_ptr by (done || lia).
  rewrite Hc, (run_lift _ _ m) by done. by rewrite app_nil_r.
Qed.
Lemma split_off_panics v l n : rep v l → length l < n → does (split_off n) v Panic l [].
Proof.
  intros Hr Hn. apply does_nothing; [done|]. intros d. unfold split_off. rewrite run_gets. cbn [self].
  apply run_panic. by rewrite (rep_len _ _ Hr), (proj2 (Nat.leb_gt _ _)).
Qed.

Lemma append_does v w l lw N2 j2 : rep v l → w = mkVec ((Some <$> lw) ++ j2) (length lw) → length lw + length j2 = N2 →
  (Z.of_nat N2 ≤ L_MAX)%Z →
  let k := Nat.min (N - length l) (length lw) in
  ∃ w' j', w' = mkVec ((Some <$> drop k lw) ++ j') (length (drop k lw)) ∧ length (drop k lw) + length j' = N2 ∧
    does (append w) v (Ok w') (l ++ take k lw) [].
Proof.
  intros Hr -> Hj2 HN2 k. pose proof (rep_bound _ _ Hr). assert (capacity v = N) as Hc by by eapply rep_capacity.
  set (m := take 0 ((Some <$> lw) ++ j2) ++ take (length lw - k) (drop k ((Some <$> lw) ++ j2)) ++ drop (0 + (length lw - k)) ((Some <$> lw) ++ j2)).
  exists (mkVec m (length lw - k)), (drop (length lw - k) ((Some <$> lw) ++ j2)). split_and!.
  - subst m. cbn [take app]. rewrite take_drop_init, (take_ge (drop k lw)), length_drop by (rewrite ?length_drop; lia). done.
  - rewrite !length_drop, length_app, length_fmap. lia.
  - assert (length (take k lw) = k) as Hk by (rewrite length_take; lia).
    eapply does_intro; [|apply (rep_append _ _ (take k lw) Hr); lia]. intros d. unfold append. rewrite run_gets. cbn [self data len].
    rewrite (rep_len _ _ Hr), Hc. fold k. rewrite (run_lift _ _ k) by (apply to_L_ok; lia).
    rewrite (run_lift _ _ (length lw - k)) by (apply L_sub_ok; lia). rewrite run_self_ptr by done.
    rewrite (run_copy_behind _ _ (take k lw)); [|done|lia|rewrite length_app, length_fmap; lia|by rewrite take_init by lia].
    rewrite (run_lift _ _ k).
    2: { unfold ptr_at_unchecked, capacity. cbn. rewrite length_app, length_fmap, Hj2. unfold to_L.
      rewrite (proj2 (Z.leb_le _ _)) by done. cbn. by rewrite (proj2 (Nat.leb_le _ _)) by lia. }
    rewrite (run_lift _ _ m) by (apply mem_copy_ok; rewrite length_app, length_fmap; lia).
    rewrite (run_lift _ _ tt) by (unfold capacity; cbn; rewrite length_app, length_fmap, (proj2 (Nat.leb_le _ _)) by lia; done).
    rewrite (run_lift _ _ (length l + length (take k lw))) by (rewrite Hk; apply L_add_ok; lia).
    rewrite run_set_len; [cbn [data]; by rewrite Hk, app_nil_r|].
    rewrite (capacity_behind _ _ _ _ _ Hr); [lia|lia|rewrite length_fmap; lia].
Qed.

(** *** Filtering *)

(** The elements that stay and the ones that are taken out, as the filter leaves them *)
Fixpoint filtered (f : nat → T → option (bool * T)) (i : nat) l : option (list T * list T) :=
  match l with
  | [] => Some ([], [])
  | x :: l =>
      '(b, x) ← f i x;
      '(k, r) ← filtered f (S i) l;
      Some (if b : bool then (k, x :: r) else (x :: k, r))
  end.

(** Slots of an array in three parts *)
Lemma lookup_third (a b : mem T) x c : (a ++ b ++ x :: c) !! (length a + length b) = Some x.
Proof. rewrite app_assoc, <- length_app. by rewrite list_lookup_middle. Qed.
Lemma insert_third (a b : mem T) x y c : <[length a + length b:=y]> (a ++ b ++ x :: c) = a ++ b ++ y :: c.
Proof. rewrite app_assoc, <- length_app, insert_app_r_alt, Nat.sub_diag by done. cbn. by rewrite <- app_assoc. Qed.
Lemma copy_third (a : mem T) g b x c :
  take (length a) (a ++ (g :: b) ++ x :: c) ++ take 1 (drop (length a + S (length b)) (a ++ (g :: b) ++ x :: c)) ++
    drop (length a + 1) (a ++ (g :: b) ++ x :: c) = a ++ x :: b ++ x :: c.
Proof.
  rewrite take_app_length. f_equal. rewrite (app_assoc a (g :: b)), drop_app_length' by (rewrite length_app; cbn; lia). cbn [take].
  rewrite <- app_assoc. cbn [app]. f_equal.
  rewrite (cons_middle g a), app_assoc, drop_app_length' by (rewrite length_app; cbn; lia). done.
Qed.

(** One element: the vector holds the elements [K] that stay, a gap of as many slots as
    have been taken out, the element, and the rest. *)
Section body.
Context (f : nat → T → option (bool * T)) (K R : list T) (gap jr tail : mem T) (x : T) (n i : nat).
Context (Hi : i = length K + length R) (Hg : length gap = length R).
Context (Hn : length K + length gap + S (length tail) = N) (Hr : length R + length jr = N).
Let at_ (y : T) (g : mem T) : mem T := (Some <$> K) ++ g ++ Some y :: tail.
Let body := drain_filter_body f i ((Some <$> R) ++ jr) (length R).

Lemma at_capacity y : capacity (mkVec (at_ y gap) n) = N.
Proof. unfold capacity, at_. cbn [data]. lens. Qed.
Lemma at_read y : mem_read (at_ y gap) i = Ok y.
Proof. unfold mem_read, at_. subst i. rewrite <- (length_fmap Some K), <- Hg. by rewrite lookup_third. Qed.
Lemma at_write y z : <[i:=Some z]> (at_ y gap) = at_ z gap.
Proof. unfold at_. subst i. rewrite <- (length_fmap Some K) at 1. rewrite <- Hg. apply insert_third. Qed.
Lemma at_get : get_unchecked (mkVec (at_ x gap) n) i = Ok x.
Proof.
  unfold get_unchecked. rewrite at_capacity, to_L_ok by done. cbn [mbind result_bind].
  rewrite (proj2 (Nat.ltb_lt _ _)) by lia. cbn [assert_ mbind result_bind].
  rewrite ptr_at_unchecked_ok by (lia || apply at_capacity). apply at_read.
Qed.

Lemma body_starts {A} y d (g : nat → bool * T → M VecState fault A) : f i x = Some y →
  (i' ← lift (to_L i); v ← gets self; x ← lift (get_unchecked v i'); y ← lift (expect (f i x)); _ ← write_ i' y.2; g i' y)
    (mkState (mkVec (at_ x gap) n) d) = g i y (mkState (mkVec (at_ y.2 gap) n) d).
Proof.
  intros Hf. rewrite (run_lift _ _ i) by (apply to_L_ok; lia). rewrite run_gets. cbn [self].
  rewrite (run_lift _ _ x) by apply at_get. rewrite (run_lift _ _ y) by by rewrite Hf.
  rewrite run_write by (rewrite at_capacity; lia). cbn [data len]. by rewrite at_write.
Qed.

Lemma body_panics d : f i x = None → body (mkState (mkVec (at_ x gap) n) d) = (Panic, mkState (mkVec (at_ x gap) n) d).
Proof.
  intros Hf. unfold body, drain_filter_body. rewrite (run_lift _ _ i) by (apply to_L_ok; lia). rewrite run_gets. cbn [self].
  rewrite (run_lift _ _ x) by apply at_get. by rewrite run_panic by by rewrite Hf.
Qed.

Lemma body_takes y d : f i x = Some (true, y) →
  body (mkState (mkVec (at_ x gap) n) d) =
    (Ok ((Some <$> R ++ [y]) ++ tl jr, length (R ++ [y])), mkState (mkVec ((Some <$> K) ++ (gap ++ [Some y]) ++ tail) n) d).
Proof using All.
  intros Hf. unfold body, drain_filter_body. etrans; [exact (body_starts _ d _ Hf)|]. cbn [fst snd].
  rewrite (run_lift _ _ (length R)).
  2: { unfold ptr_at_unchecked, capacity. cbn. rewrite length_app, length_fmap, Hr, to_L_ok by done. cbn.
    by rewrite (proj2 (Nat.leb_le _ _)) by lia. }
  rewrite (run_read _ _ _ y) by apply at_read. destruct jr as [|z jr']; [cbn in *; lia|]. cbn [tl].
  rewrite (run_lift _ _ ((Some <$> R ++ [y]) ++ jr')).
  2: { rewrite mem_write_ok by (rewrite length_app, length_fmap; cbn in *; lia). f_equal. apply write_behind. }
  rewrite (run_lift _ _ (length (R ++ [y]))) by (rewrite length_app; cbn; apply L_add_ok; cbn in *; lia).
  unfold at_. by rewrite <- app_assoc.
Qed.

Definition shifted (y : T) (g : mem T) : mem T := match g with [] => [] | _ :: g => g ++ [Some y] end.
Lemma body_keeps y d : f i x = Some (false, y) →
  body (mkState (mkVec (at_ x gap) n) d) =
    (Ok ((Some <$> R) ++ jr, length R), mkState (mkVec ((Some <$> K ++ [y]) ++ shifted y gap ++ tail) n) d).
Proof using All.
  intros Hf. unfold body, drain_filter_body. etrans; [exact (body_starts _ d _ Hf)|]. cbn [fst snd].
  pose proof (at_capacity y) as Hc. unfold capacity in Hc. cbn [data] in Hc. unfold at_ in *. rewrite <- Hg. destruct gap as [|g gap'].
  - cbn. by rewrite fmap_app, <- app_assoc.
  - cbn [length shifted]. replace (0 <? S (length gap')) with true by done.
    assert ((d0 ← lift (L_sub i (S (length gap'))); copy_ i d0 1) (mkState (mkVec ((Some <$> K) ++ (g :: gap') ++ Some y :: tail) n) d) =
      (Ok tt, mkState (mkVec ((Some <$> K ++ [y]) ++ (gap' ++ [Some y]) ++ tail) n) d)) as Hcp; [|by rewrite run_bind, Hcp].
    rewrite (run_lift _ _ (length K)) by (rewrite L_sub_ok by (cbn in *; lia); f_equal; cbn in *; lia).
    unfold copy_. rewrite run_gets. cbn [self]. erewrite run_lift by (apply mem_copy_ok; cbn [data]; cbn in *; lia).
    unfold modify, set_data. cbn [self len data dropped]. f_equal. f_equal. f_equal.
    pose proof (copy_third (Some <$> K) g gap' (Some y) tail) as H3. rewrite length_fmap in H3.
    replace i with (length K + S (length gap')) by (cbn in *; lia). rewrite H3. by rewrite fmap_app, <- !app_assoc.
Qed.
End body.

Lemma drain_filter_loop_run f rest K gap R jr j n i :
  i = length K + length R → length gap = length R → length K + length gap + length rest + length j = N →
  length R + length jr = N →
  ∃ m jr',
    (∀ d, drain_filter_loop f (length rest) i ((Some <$> R) ++ jr) (length R)
      (mkState (mkVec ((Some <$> K) ++ gap ++ (Some <$> rest) ++ j) n) d) =
    (match filtered f i rest with
     | Some (k, r) => Ok ((Some <$> R ++ r) ++ jr', length (R ++ r)) | None => Panic end, mkState (mkVec m n) d)) ∧
    length m = N ∧
    ∀ k r, filtered f i rest = Some (k, r) → (∃ j', m = (Some <$> K ++ k) ++ j') ∧ length (R ++ r) + length jr' = N.
Proof.
  revert K gap R jr i. induction rest as [|x rest IH]; intros K gap R jr i Hi Hg Hn Hr; cbn [length drain_filter_loop filtered].
  { exists ((Some <$> K) ++ gap ++ j), jr. rewrite app_nil_r. split_and!; [done|rewrite !length_app, length_fmap; cbn [length] in *; lia|].
    intros k r [= <- <-]. rewrite !app_nil_r. split; [by eexists|done]. }
  assert (length K + length gap + S (length ((Some <$> rest) ++ j)) = N) as Hn' by lens.
  destruct (f i x) as [[[|] y]|] eqn:Hf; cbn [mbind option_bind].
  - destruct (IH K (gap ++ [Some y]) (R ++ [y]) (tl jr) (S i)) as (m & jr' & He & Hm & Hk);
      [lens|lens|lens|destruct jr; cbn [tl]; lens|].
    exists m, jr'. split_and!; [|done|].
    + intros d. rewrite run_bind. change ((Some <$> x :: rest) ++ j) with (Some x :: (Some <$> rest) ++ j).
      rewrite (body_takes f K R gap jr _ x n i Hi Hg Hn' Hr y d Hf). cbn [fst snd].
      rewrite He. destruct (filtered f (S i) rest) as [[k r]|]; cbn; [by rewrite <- app_assoc|done].
    + intros k r. destruct (filtered f (S i) rest) as [[k' r']|] eqn:Hfl; cbn; [|done]. intros [= <- <-].
      destruct (Hk k' r' eq_refl) as [H1 H2]. split; [done|]. by rewrite <- app_assoc in H2.
  - destruct (IH (K ++ [y]) (shifted y gap) R jr (S i)) as (m & jr' & He & Hm & Hk);
      [lens|destruct gap; cbn [shifted]; lens|destruct gap; cbn [shifted]; lens|done|].
    exists m, jr'. split_and!; [|done|].
    + intros d. rewrite run_bind. change ((Some <$> x :: rest) ++ j) with (Some x :: (Some <$> rest) ++ j).
      rewrite (body_keeps f K R gap jr _ x n i Hi Hg Hn' Hr y d Hf). cbn [fst snd].
      rewrite He. by destruct (filtered f (S i) rest) as [[k r]|].
    + intros k r. destruct (filtered f (S i) rest) as [[k' r']|] eqn:Hfl; cbn; [|done]. intros [= <- <-].
      destruct (Hk k' r' eq_refl) as [H1 H2]. split; [|done]. by rewrite <- app_assoc in H1.
  - exists ((Some <$> K) ++ gap ++ (Some <$> x :: rest) ++ j), jr. split_and!; [|cbn; lens|done]. intros d. rewrite run_bind.
    change ((Some <$> x :: rest) ++ j) with (Some x :: (Some <$> rest) ++ j). by rewrite (body_panics f K R gap jr _ x n i Hi Hg Hn' Hr d Hf).
Qed.

Lemma filtered_length f i l k r : filtered f i l = Some (k, r) → length k + length r = length l.
Proof.
  revert i k r. induction l as [|x l IH]; intros i k r; cbn; [by intros [= <- <-]|].
  destruct (f i x) as [[b y]|]; [|done]. cbn. destruct (filtered f (S i) l) as [[k' r']|] eqn:Hl; [|done].
  cbn. specialize (IH _ _ _ Hl). destruct b; intros [= <- <-]; cbn; lia.
Qed.

Lemma drain_filter_does v l f k r : rep v l → filtered f 0 l = Some (k, r) → does_vec (drain_filter f) v r k [].
Proof.
  intros Hr Hf. assert (capacity v = N) as Hc by by eapply rep_capacity. pose proof (filtered_length _ _ _ _ _ Hf) as Hl.
  assert (∃ m jr, (∀ d, drain_filter_loop f (length l) 0 (new_data_uninit N) 0 (mkState (mkVec (data v) 0) d) =
      (Ok ((Some <$> r) ++ jr, length r), mkState (mkVec m 0) d)) ∧
    length m = N ∧ (∃ j', m = (Some <$> k) ++ j') ∧ length r + length jr = N) as (m & jr & Hloop & Hm & (j' & Hj') & Hjr).
  { destruct Hr as (j & -> & Hj). cbn [data].
    destruct (drain_filter_loop_run f l [] [] [] (new_data_uninit N) j 0 0) as (m & jr & He & Hm & Hk);
      [done|done|done|by unfold new_data_uninit; rewrite length_replicate|].
    rewrite Hf in He. destruct (Hk k r Hf) as [H1 H2]. by exists m, jr. }
  exists (mkVec ((Some <$> r) ++ jr) (length r)). split; [by exists jr|].
  eapply (does_intro _ _ _ (mkVec m (length k))).
  - intros d. unfold drain_filter. rewrite run_gets. cbn [self]. rewrite (rep_len _ _ Hr), Hc, run_modify.
    unfold set_length. cbn [self dropped]. rewrite run_bind, Hloop.
    rewrite (run_lift _ _ (length k)) by (rewrite L_sub_ok by lia; f_equal; lia). by rewrite app_nil_r.
  - by eapply rep_intro.
Qed.

(** A filter that panics leaves an empty vector: its elements leak, none is dropped. *)
Lemma drain_filter_panics v l f : rep v l → filtered f 0 l = None → does (drain_filter f) v Panic [] [].
Proof.
  intros Hr Hf. assert (capacity v = N) as Hc by by eapply rep_capacity. assert (length l = len v) as Hl by by rewrite (rep_len _ _ Hr).
  destruct Hr as (j & -> & Hj).
  destruct (drain_filter_loop_run f l [] [] [] (new_data_uninit N) j 0 0) as (m & jr & He & Hm & _);
    [done|done|done|by unfold new_data_uninit; rewrite length_replicate|]. rewrite Hf in He.
  apply (does_intro _ _ _ (mkVec m 0)); [|by eapply rep_intro]. intros d. unfold drain_filter. rewrite run_gets. cbn [self].
  rewrite <- Hl, Hc, run_modify. unfold set_length. cbn [self dropped data]. by rewrite run_bind, He, app_nil_r.
Qed.

Definition retained (f : nat → T → option bool) l : option (list T * list T) :=
  filtered (λ i x, b ← f i x; Some (negb b, x)) 0 l.
Lemma retain_does v l f : rep v l →
  match retained f l with
  | Some (k, r) => does (retain f) v (Ok tt) k r
  | None => does (retain f) v Panic [] []
  end.
Proof.
  intros Hr. destruct (retained f l) as [[k r]|] eqn:Hf.
  - destruct (drain_filter_does v l _ k r Hr Hf) as (w & Hw & Hd). unfold retain. rewrite <- (app_nil_l r).
    eapply does_bind; [exact Hd|]. intros v' Hr'. apply (does_intro _ _ _ v'); [|done]. intros d.
    by rewrite (run_lift _ _ r) by by apply as_slice_ok.
  - pose proof (drain_filter_panics v l _ Hr Hf) as Hd. intros d. destruct (Hd d) as (v' & Hv & Hr'). exists v'. split; [|done].
    unfold retain. by rewrite run_bind, Hv.
Qed.

Lemma partition_dedup_perm (same : T → T → bool) (rest kept : list T) (prev : T) (dups : list T) :
  let '(k, r) := partition_dedup same kept prev dups rest in k ++ r ≡ₚ kept ++ prev :: dups ++ rest.
Proof.
  revert kept prev dups. induction rest as [|x rest IH]; intros kept prev dups; cbn.
  - by rewrite app_nil_r, <- app_assoc.
  - destruct (same x prev).
    + specialize (IH kept prev (dups ++ [x])). destruct (partition_dedup _ _ _ _ _). by rewrite IH, <- app_assoc.
    + specialize (IH (kept ++ [prev]) x (match dups with [] => [] | d :: dups => dups ++ [d] end)).
      destruct (partition_dedup _ _ _ _ _). rewrite IH, <- app_assoc. cbn. do 2 f_equiv. destruct dups as [|d dups]; [done|].
      change (x :: ((dups ++ [d]) ++ rest) ≡ₚ d :: dups ++ x :: rest). rewrite <- app_assoc. cbn.
      rewrite <- (Permutation_middle dups rest x), <- (Permutation_middle dups rest d). constructor.
Qed.
Lemma partition_dedup_by_perm (same : T → T → bool) l : let '(k, r) := partition_dedup_by same l in k ++ r ≡ₚ l.
Proof. destruct l as [|x l]; [cbn; constructor|]. apply (partition_dedup_perm same l [] x []). Qed.

Lemma dedup_by_does v l same k r : rep v l → partition_dedup_by same l = (k, r) → does (dedup_by same) v (Ok tt) k r.
Proof.
  intros Hr Hp. pose proof (partition_dedup_by_perm same l) as Hperm. rewrite Hp in Hperm. apply Permutation_length in Hperm as Hl.
  pose proof (rep_bound _ _ Hr) as Hb. pose proof (rep_capacity _ _ Hr) as Hc.
  set (v2 := mkVec ((Some <$> k ++ r) ++ drop (length l) (data v)) (length l)).
  assert (rep v2 (k ++ r)) as Hr2.
  { eapply rep_intro; [done|done|]. unfold capacity in Hc. lens. }
  intros d. destruct (truncate_does v2 (k ++ r) (length k) Hr2 d) as (v' & Hv & Hr').
  rewrite take_app_length in Hr'. rewrite drop_app_length in Hv. exists v'. split; [|done]. rewrite <- Hv.
  unfold dedup_by. rewrite run_gets. cbn [self]. rewrite (run_lift _ _ l) by by apply as_slice_ok. rewrite Hp.
  rewrite (rep_len _ _ Hr). unfold capacity in Hc. erewrite run_lift by (apply mem_copy_ok; lens).
  rewrite run_modify. rewrite (run_lift _ _ (length k)) by (apply to_L_ok; lens). f_equal. unfold set_data, v2. cbn [self dropped len].
  f_equal. rewrite (rep_len _ _ Hr). cbn [take app]. rewrite drop_0, (take_ge (Some <$> k ++ r)) by lens. done.
Qed.
End vec.
