(* ===== verification/StaticVecSpec.v ===== *)
(** * What [StaticVec] promises

    The operations of a vector of capacity [N] as functions on lists, and the theorem
    that [StaticVec] refines them; which values are dropped; and the calls that do not
    do what they promise. *)

From S2P Require Import Prelude StaticVec StaticVecProofs.
Local Open Scope nat_scope.
#[local] Arguments Nat.ltb : simpl never.
#[local] Arguments Nat.leb : simpl never.
#[local] Arguments Nat.sub : simpl never.

Section ops.
Context {T : Type} {L : LengthType}.

(** A call; the vector that is appended has free slots with any contents. *)
Inductive Op :=
  | Push (x : T)
  | TryPush (x : T)
  | Pop
  | Remove (i : nat)
  | RemoveItem (eq : T → T → bool) (x : T)
  | SwapPop (i : nat)
  | SwapRemove (i : nat)
  | Insert (i : nat) (x : T)
  | TryInsert (i : nat) (x : T)
  | InsertFromSlice (i : nat) (xs : list T)
  | TryInsertFromSlice (i : nat) (xs : list T)
  | Index (i : nat)
  | IndexSet (i : nat) (x : T)
  | Clear
  | Truncate (n : nat)
  | ExtendFromSlice (xs : list T)
  | TryExtendFromSlice (xs : list T)
  | Extend (it : list T)
  | Append (xs : list T) (free : mem T)
  | Drain (from to : Bound)
  | DrainFilter (filter : nat → T → option (bool * T))
  | Retain (filter : nat → T → option bool)
  | SplitOff (n : nat)
  | DedupBy (same : T → T → bool).

(** What a call returns; vectors by their elements *)
Inductive Out :=
  | OUnit
  | OBool (b : bool)
  | OVal (x : T)
  | OCopy (x : T)
  | OOpt (o : option T)
  | OBack (o : unit + T)
  | OVec (l : list T).

Local Abbreviation V := (M (VecState (T:=T)) fault).
Definition out_unit (m : V unit) : V Out := _ ← m; mret OUnit.
Definition out_vec (m : V StaticVec) : V Out := w ← m; l ← lift (as_slice w); mret (OVec l).

Definition exec (op : Op) : V Out :=
  match op with
  | Push x => out_unit (push x)
  | TryPush x => o ← try_push x; mret (OBack o)
  | Pop => o ← pop; mret (OOpt o)
  | Remove i => x ← remove i; mret (OVal x)
  | RemoveItem eq x => o ← remove_item eq x; mret (OOpt o)
  | SwapPop i => o ← swap_pop i; mret (OOpt o)
  | SwapRemove i => x ← swap_remove i; mret (OVal x)
  | Insert i x => out_unit (StaticVec.insert i x)
  | TryInsert i x => b ← try_insert i x; mret (OBool b)
  | InsertFromSlice i xs => out_unit (insert_from_slice i xs)
  | TryInsertFromSlice i xs => b ← try_insert_from_slice i xs; mret (OBool b)
  | Index i => v ← gets self; x ← lift (index_ v i); mret (OCopy x)
  | IndexSet i x => out_unit (index_set i x)
  | Clear => out_unit clear
  | Truncate n => out_unit (truncate n)
  | ExtendFromSlice xs => out_unit (extend_from_slice xs)
  | TryExtendFromSlice xs => b ← try_extend_from_slice xs; mret (OBool b)
  | Extend it => out_unit (extend_iter it)
  | Append xs free => out_vec (append (mkVec ((Some <$> xs) ++ free) (length xs)))
  | Drain from to => out_vec (drain from to)
  | DrainFilter f => out_vec (drain_filter f)
  | Retain f => out_unit (retain f)
  | SplitOff n => out_vec (split_off n)
  | DedupBy same => out_unit (dedup_by same)
  end.

(** The same calls on lists of at most [N] elements: the result, the list afterwards,
    and what is dropped *)
Definition Spec : Type := result fault Out * list T * list T.
Definition if_fits (b : bool) (l l' : list T) : Spec := if b then (Ok OUnit, l', []) else (Panic, l, []).
(** Also the value that is given, which a panic drops *)
Definition if_fits_own (b : bool) (x : T) (l l' : list T) : Spec := if b then (Ok OUnit, l', []) else (Panic, l, [x]).
Definition if_fits_bool (b : bool) (l l' : list T) : Spec := (Ok (OBool b), if b then l' else l, []).
Definition val_or_panic (o : option T) : result fault Out := match o with Some x => Ok (OVal x) | None => Panic end.

Definition spec (N : nat) (op : Op) (l : list T) : Spec :=
  match op with
  | Push x => if_fits_own (length l <? N) x l (l ++ [x])
  | TryPush x => if length l <? N then (Ok (OBack (inl tt)), l ++ [x], []) else (Ok (OBack (inr x)), l, [])
  | Pop => (Ok (OOpt (list.last l)), take (length l - 1) l, [])
  | Remove i => (val_or_panic (l !! i), if i <? length l then take i l ++ drop (S i) l else l, [])
  | RemoveItem eq x =>
      match position (λ y, eq y x) l with
      | Some i => (Ok (OOpt (l !! i)), take i l ++ drop (S i) l, [])
      | None => (Ok (OOpt None), l, [])
      end
  | SwapPop i => (Ok (OOpt (l !! i)), if i <? length l then swap_out l i else l, [])
  | SwapRemove i => (val_or_panic (l !! i), if i <? length l then swap_out l i else l, [])
  | Insert i x => if_fits_own ((length l <? N) && (i <=? length l)) x l (inserted l i x)
  | TryInsert i x =>
      let b := (length l <? N) && (i <=? length l) in
      (Ok (OBool b), if b then inserted l i x else l, if b then [] else [x])
  | InsertFromSlice i xs => if_fits ((length l <? N) && (i <=? length l) && (length xs <=? N - length l)) l (spliced l i xs)
  | TryInsertFromSlice i xs =>
      if_fits_bool ((length l <? N) && (i <=? length l) && (length xs <=? N - length l)) l (spliced l i xs)
  | Index i => (match l !! i with Some x => Ok (OCopy x) | None => Panic end, l, [])
  | IndexSet i x => (if i <? length l then Ok OUnit else Panic, <[i:=x]> l, if i <? length l then take 1 (drop i l) else [x])
  | Clear => (Ok OUnit, [], l)
  | Truncate n => (Ok OUnit, take n l, drop n l)
  | ExtendFromSlice xs => (Ok OUnit, filled N l xs, [])
  | TryExtendFromSlice xs =>
      if (Z.of_nat (length xs) <=? L_MAX)%Z then if_fits_bool (length xs <=? N - length l) l (l ++ xs) else (Panic, l, [])
  | Extend it => (Ok OUnit, filled N l it, drop (N - length l) it)
  | Append xs _ => let k := Nat.min (N - length l) (length xs) in (Ok (OVec (drop k xs)), l ++ take k xs, [])
  | Drain from to =>
      match range_start from, range_end to (length l) with
      | Ok s, Ok e => if (s <=? e) && (e <=? length l) then (Ok (OVec (take (e - s) (drop s l))), take s l ++ drop e l, []) else (Panic, l, [])
      | _, _ => (Panic, l, [])
      end
  | DrainFilter f => match filtered f 0 l with Some (k, r) => (Ok (OVec r), k, []) | None => (Panic, [], []) end
  | Retain f => match retained f l with Some (k, r) => (Ok OUnit, k, r) | None => (Panic, [], []) end
  | SplitOff n => if n <=? length l then (Ok (OVec (drop n l)), take n l, []) else (Panic, l, [])
  | DedupBy same => let '(k, r) := partition_dedup_by same l in (Ok OUnit, k, r)
  end.

(** Sequences of calls; a caller may go on after a panic. *)
Fixpoint exec_all (ops : list Op) (s : VecState) : list (result fault Out) * VecState :=
  match ops with
  | [] => ([], s)
  | op :: ops => let '(r, s) := exec op s in let '(rs, s) := exec_all ops s in (r :: rs, s)
  end.
Fixpoint spec_all (N : nat) (ops : list Op) (l : list T) : list (result fault Out) * list T * list T :=
  match ops with
  | [] => ([], l, [])
  | op :: ops =>
      let '(r, l, ds) := spec N op l in
      let '(rs, l, ds') := spec_all N ops l in
      (r :: rs, l, ds ++ ds')
  end.

(** The length type of an appended vector stores its capacity, as its operations ask
    for. *)
Definition op_ok (op : Op) : Prop :=
  match op with Append xs free => (Z.of_nat (length xs + length free) ≤ L_MAX)%Z | _ => True end.

(** ** Refinement *)

Section refinement.
Context (N : nat) (HN : (Z.of_nat N ≤ L_MAX)%Z).
Implicit Types (l : list T).

Lemma out_unit_does (m : V unit) v l ds : does N m v (Ok tt) l ds → does N (out_unit m) v (Ok OUnit) l ds.
Proof. intros Hm. by apply (does_map N m (λ _, OUnit) v tt). Qed.
Lemma out_unit_panics (m : V unit) v l ds : does N m v Panic l ds → does N (out_unit m) v Panic l ds.
Proof. intros Hm d. destruct (Hm d) as (v' & Hv & Hr). exists v'. split; [|done]. unfold out_unit. by rewrite run_bind, Hv. Qed.
Lemma map_panics {A} (m : V A) (f : A → Out) v l ds : does N m v Panic l ds → does N (x ← m; mret (f x)) v Panic l ds.
Proof. intros Hm d. destruct (Hm d) as (v' & Hv & Hr). exists v'. split; [|done]. by rewrite run_bind, Hv. Qed.
Lemma out_vec_does (m : V StaticVec) v lw l ds : does_vec N m v lw l ds → does N (out_vec m) v (Ok (OVec lw)) l ds.
Proof.
  intros (w & Hw & Hm). rewrite <- (app_nil_r ds). eapply does_bind; [exact Hm|]. intros v' Hr. apply does_nothing; [done|].
  intros d. by rewrite (run_lift _ _ lw) by by eapply as_slice_ok.
Qed.
Lemma out_vec_panics (m : V StaticVec) v l ds : does N m v Panic l ds → does N (out_vec m) v Panic l ds.
Proof. intros Hm d. destruct (Hm d) as (v' & Hv & Hr). exists v'. split; [|done]. unfold out_vec. by rewrite run_bind, Hv. Qed.

Lemma if_fits_does (m : V unit) v (b : bool) (l l' : list T) : rep N v l →
  does N m v (if b then Ok tt else Panic) (if b then l' else l) [] →
  let '(r, l', ds) := if_fits b l l' in does N (out_unit m) v r l' ds.
Proof. intros Hr Hm. destruct b; cbn; [by apply out_unit_does|by apply out_unit_panics]. Qed.

Lemma if_fits_own_does (m : V unit) v (b : bool) x (l l' : list T) : rep N v l →
  does N m v (if b then Ok tt else Panic) (if b then l' else l) (if b then [] else [x]) →
  let '(r, l', ds) := if_fits_own b x l l' in does N (out_unit m) v r l' ds.
Proof. intros Hr Hm. destruct b; cbn; [by apply out_unit_does|by apply out_unit_panics]. Qed.

Lemma val_does (m : V T) v (o : option T) l' : does N m v (expect o) l' [] →
  does N (x ← m; mret (OVal x)) v (val_or_panic o) l' [].
Proof. intros Hm. destruct o as [x|]; cbn in *; [by apply (does_map N m OVal)|by apply map_panics]. Qed.

Lemma exec_drain v l from to : rep N v l →
  let '(r, l', ds) := spec N (Drain from to) l in does N (exec (Drain from to)) v r l' ds.
Proof.
  intros Hr. pose proof (drain_panics N v l from to Hr) as Hp. cbn [spec exec].
  destruct (range_start from) as [s| | |] eqn:Hs; try (by apply out_vec_panics, Hp).
  destruct (range_end to (length l)) as [e| | |] eqn:He; try (by apply out_vec_panics, Hp).
  destruct (Nat.leb_spec s e); [|by apply out_vec_panics, Hp; lia]. destruct (Nat.leb_spec e (length l)); cbn [andb].
  - by apply out_vec_does, drain_at_does.
  - by apply out_vec_panics, Hp.
Qed.

Lemma exec_append v l xs free : rep N v l → op_ok (Append xs free) →
  let '(r, l', ds) := spec N (Append xs free) l in does N (exec (Append xs free)) v r l' ds.
Proof.
  intros Hr Hok. destruct (append_does N HN v _ l xs (length xs + length free) free Hr eq_refl) as (w & j & Hw & Hj & Hd); [done|exact Hok|].
  cbn [spec exec]. unfold out_vec. rewrite <- (app_nil_r []). eapply does_bind; [exact Hd|]. intros v' Hr'.
  apply does_nothing; [done|]. intros d. rewrite (run_lift _ _ (drop (Nat.min (N - length l) (length xs)) xs)); [done|].
  rewrite Hw. unfold as_slice. cbn [data len]. rewrite mem_slice_ok by done. by rewrite take_ge.
Qed.

Lemma vec_exec_refines op v l : op_ok op → rep N v l →
  let '(r, l', ds) := spec N op l in does N (exec op) v r l' ds.
Proof.
  intros Hok Hr. destruct op; cbn [op_ok] in Hok.
  - by apply if_fits_own_does, push_does.
  - cbn [spec exec]. pose proof (try_push_does N HN v l x Hr). destruct (length l <? N); by apply (does_map N (try_push x) OBack).
  - by apply (does_map N pop OOpt), pop_does.
  - by apply val_does, remove_does.
  - cbn [spec exec]. pose proof (remove_item_does N HN v l eq x Hr) as Hd. cbn in Hd.
    destruct (position _ l); by apply (does_map N (remove_item eq x) OOpt) in Hd.
  - by apply (does_map N (swap_pop i) OOpt), swap_pop_does.
  - by apply val_does, swap_remove_does.
  - by apply if_fits_own_does, insert_does.
  - by apply (does_map N (try_insert i x) OBool), try_insert_does.
  - by apply if_fits_does, insert_from_slice_does.
  - by apply (does_map N (try_insert_from_slice i xs) OBool), try_insert_from_slice_does.
  - cbn [spec exec]. pose proof (index_ok N HN v l i Hr) as Hi. destruct (l !! i) as [x|].
    + apply does_nothing; [done|]. intros d. rewrite run_gets. cbn [self]. by rewrite (run_lift _ _ x).
    + apply does_nothing; [done|]. intros d. rewrite run_gets. cbn [self]. by apply run_panic.
  - cbn [spec exec]. pose proof (index_set_does N HN v l i x Hr). destruct (i <? length l); [by apply out_unit_does|by apply out_unit_panics].
  - by apply out_unit_does, clear_does.
  - by apply out_unit_does, truncate_does.
  - by apply out_unit_does, extend_from_slice_does.
  - cbn [spec exec]. destruct (Z.leb_spec (Z.of_nat (length xs)) L_MAX).
    + by apply (does_map N (try_extend_from_slice xs) OBool), try_extend_from_slice_does.
    + apply map_panics, does_nothing; [done|]. intros d. unfold try_extend_from_slice. rewrite run_gets. cbn [self].
      apply run_panic. unfold to_L. by rewrite (proj2 (Z.leb_gt _ _)).
  - by apply out_unit_does, extend_iter_does.
  - by apply exec_append.
  - by apply exec_drain.
  - cbn [spec exec]. destruct (filtered filter 0 l) as [[k r]|] eqn:Hf; [by eapply out_vec_does, drain_filter_does|].
    by apply out_vec_panics, (drain_filter_panics N HN v l).
  - cbn [spec exec]. pose proof (retain_does N HN v l filter Hr). destruct (retained filter l) as [[k r]|]; [by apply out_unit_does|by apply out_unit_panics].
  - cbn [spec exec]. destruct (Nat.leb_spec n (length l)); [by apply out_vec_does, split_off_does|by apply out_vec_panics, split_off_panics].
  - cbn [spec exec]. destruct (partition_dedup_by same l) as [k r] eqn:Hp. by apply out_unit_does, (dedup_by_does N HN v l).
Qed.

Lemma spec_no_fault op l r l' ds : spec N op l = (r, l', ds) → r ≠ Err UB.
Proof.
  destruct op; cbn; unfold if_fits, if_fits_own, if_fits_bool, val_or_panic; repeat case_match; intros [= <- <- <-]; done.
Qed.

Lemma exec_all_refines ops v l d : Forall op_ok ops → rep N v l →
  let '(rs, l', ds) := spec_all N ops l in
  ∃ v', exec_all ops (mkState v d) = (rs, mkState v' (d ++ ds)) ∧ rep N v' l' ∧ Err UB ∉ rs.
Proof.
  intros Hops. revert v l d. induction Hops as [|op ops Hop _ IH]; intros v l d Hr; cbn [spec_all exec_all].
  - exists v. rewrite app_nil_r. split_and!; [done|done|by apply not_elem_of_nil].
  - pose proof (vec_exec_refines op v l Hop Hr) as Hd. destruct (spec N op l) as [[r l1] ds] eqn:Hs.
    destruct (Hd d) as (v1 & Hv1 & Hr1). rewrite Hv1. specialize (IH v1 l1 (d ++ ds) Hr1).
    destruct (spec_all N ops l1) as [[rs l2] ds2]. destruct IH as (v2 & Hv2 & Hr2 & Hf). rewrite Hv2.
    exists v2. rewrite app_assoc. split_and!; [done|done|]. rewrite not_elem_of_cons. split; [|done].
    apply spec_no_fault in Hs. congruence.
Qed.
End refinement.

(** C3: the vector refines lists of at most [N] elements: any sequence of the calls of
    [Op], in which calls may panic and be caught, returns from an empty [StaticVec] what it
    returns on lists, with the same values dropped, and never touches memory outside
    of the array or a slot without a value; the vector holds the list afterwards. *)
Theorem static_vec_refines_lists (N : nat) (ops : list Op) (rs : list (result fault Out)) (l ds : list T) :
  (Z.of_nat N ≤ L_MAX)%Z → Forall op_ok ops → spec_all N ops [] = (rs, l, ds) →
  ∃ v0 v, StaticVec_new N = Ok v0 ∧ exec_all ops (mkState v0 []) = (rs, mkState v ds) ∧ Err UB ∉ rs ∧
    as_slice v = Ok l ∧ len v = length l ∧ capacity v = N ∧ length l ≤ N.
Proof.
  intros HN Hops Hs. assert (rep N (mkVec (new_data_uninit (T:=T) N) 0) []) as Hr.
  { exists (new_data_uninit (T:=T) N). split; [done|]. unfold new_data_uninit. by rewrite length_replicate. }
  pose proof (exec_all_refines N HN ops _ [] [] Hops Hr) as He. rewrite Hs in He. destruct He as (v & Hv & Hr' & Hf).
  exists (mkVec (new_data_uninit N) 0), v. split_and!; [done|exact Hv|done|by eapply as_slice_ok|by eapply rep_len|by eapply rep_capacity|by eapply rep_bound].
Qed.

(** ** Ownership *)

(** The values that a call takes over, if their type is not [Copy], and those that it
    gives back *)
Definition given (op : Op) : list T :=
  match op with
  | Push x | TryPush x | Insert _ x | TryInsert _ x | IndexSet _ x => [x]
  | Extend xs | Append xs _ => xs
  | _ => []
  end.
Definition taken (o : Out) : list T :=
  match o with
  | OVal x | OBack (inr x) | OOpt (Some x) => [x]
  | OVec l => l
  | _ => []
  end.
Definition taken_by (r : result fault Out) : list T := match r with Ok o => taken o | _ => [] end.
(** Calls for values that are not copied, with filters that do not change them *)
Definition owning (op : Op) : Prop :=
  match op with
  | InsertFromSlice _ _ | TryInsertFromSlice _ _ | ExtendFromSlice _ | TryExtendFromSlice _ => False
  | DrainFilter f => ∀ i x b y, f i x = Some (b, y) → y = x
  | _ => True
  end.
(** The filters do not panic. *)
Definition filter_returns (op : Op) : Prop :=
  match op with
  | DrainFilter f => ∀ i x, f i x ≠ None
  | Retain f => ∀ i x, f i x ≠ None
  | _ => True
  end.

Lemma take_drop_around (l : list T) i x : l !! i = Some x → l ≡ₚ x :: take i l ++ drop (S i) l.
Proof. intros Hx. rewrite <- (take_drop_middle _ _ _ Hx) at 1. by rewrite Permutation_middle. Qed.

Lemma last_out (l : list T) : l ≡ₚ take (length l - 1) l ++ match list.last l with Some x => [x] | None => [] end.
Proof.
  destruct l as [|x l _] using rev_ind; [done|]. rewrite last_snoc, length_app. cbn. by rewrite take_app_length' by lia.
Qed.

Lemma swap_out_perm (l : list T) i x : l !! i = Some x → l ≡ₚ x :: swap_out l i.
Proof.
  intros Hx. unfold swap_out. destruct l as [|y l _] using rev_ind; [done|]. rewrite last_snoc, length_app. cbn.
  replace (length l + 1 - 1) with (length l) by lia.
  destruct (decide (i = length l)) as [->|Hi].
  - rewrite list_lookup_middle in Hx by done. injection Hx as ->. rewrite insert_app_r_alt, Nat.sub_diag by done.
    rewrite take_app_length' by done. by rewrite Permutation_app_comm.
  - assert (i < length l) as Hl by (apply lookup_lt_Some in Hx; rewrite length_app in Hx; cbn in Hx; lia).
    rewrite lookup_app_l in Hx by done. rewrite insert_app_l, take_app_length' by (rewrite ?length_insert; done).
    rewrite (insert_take_drop _ _ _ Hl), <- (Permutation_middle (take i l)), <- Permutation_cons_append.
    etrans; [apply perm_skip, (take_drop_around l i x Hx)|]. apply perm_swap.
Qed.

Lemma filtered_perm f i (l k r : list T) : (∀ i x b y, f i x = Some (b, y) → y = x) → filtered f i l = Some (k, r) → l ≡ₚ k ++ r.
Proof.
  intros Hf. revert i k r. induction l as [|x l IH]; intros i k r; cbn; [by intros [= <- <-]|].
  destruct (f i x) as [[b y]|] eqn:Hx; [|done]. cbn. apply Hf in Hx as ->.
  destruct (filtered f (S i) l) as [[k' r']|] eqn:Hl; [|done]. cbn. specialize (IH _ _ _ Hl).
  destruct b; intros [= <- <-]; rewrite IH; [by rewrite Permutation_middle|done].
Qed.

Lemma spec_conserves N op (l : list T) o l' ds : owning op → length l ≤ N → spec N op l = (Ok o, l', ds) →
  given op ++ l ≡ₚ l' ++ ds ++ taken o.
Proof.
  intros Ho Hl. destruct op; cbn [owning] in Ho; try done; cbn [spec]; unfold if_fits, if_fits_own, val_or_panic.
  - (* push *) case_match; intros [= <- <- <-]. cbn. by rewrite app_nil_r, Permutation_app_comm.
  - case_match; intros [= <- <- <-]; cbn; by rewrite ?app_nil_r, Permutation_app_comm.
  - intros [= <- <- <-]. cbn [given app taken]. etrans; [apply last_out|]. by destruct (list.last l).
  - destruct (l !! i) as [x|] eqn:Hx; intros [= <- <- <-]. rewrite (proj2 (Nat.ltb_lt _ _)) by by eapply lookup_lt_Some.
    cbn. etrans; [exact (take_drop_around _ _ _ Hx)|]. apply Permutation_cons_append.
  - destruct (position _ l) as [i|] eqn:Hp; intros [= <- <- <-]; cbn; [|by rewrite app_nil_r].
    apply position_Some in Hp as (y & Hy & _). rewrite Hy. etrans; [exact (take_drop_around _ _ _ Hy)|]. apply Permutation_cons_append.
  - intros [= <- <- <-]. cbn. destruct (l !! i) as [x|] eqn:Hx.
    + rewrite (proj2 (Nat.ltb_lt _ _)) by by eapply lookup_lt_Some. etrans; [exact (swap_out_perm _ _ _ Hx)|]. apply Permutation_cons_append.
    + apply lookup_ge_None in Hx. rewrite (proj2 (Nat.ltb_ge _ _)) by done. by rewrite app_nil_r.
  - destruct (l !! i) as [x|] eqn:Hx; intros [= <- <- <-]. rewrite (proj2 (Nat.ltb_lt _ _)) by by eapply lookup_lt_Some.
    cbn. etrans; [exact (swap_out_perm _ _ _ Hx)|]. apply Permutation_cons_append.
  - case_match; intros [= <- <- <-]. unfold inserted. cbn. rewrite app_nil_r, <- Permutation_middle. by rewrite take_drop.
  - case_match; intros [= <- <- <-]; cbn; [|apply Permutation_cons_append]. unfold inserted.
    rewrite app_nil_r, <- Permutation_middle. by rewrite take_drop.
  - destruct (l !! i); intros [= <- <- <-]. cbn. by rewrite app_nil_r.
  - destruct (Nat.ltb_spec i (length l)) as [Hi|]; intros [= <- <- <-]. destruct (lookup_lt_is_Some_2 l i Hi) as [y Hy].
    rewrite (drop_S _ _ _ Hy). cbn. etrans; [apply perm_skip, (take_drop_around _ _ _ Hy)|].
    rewrite (insert_take_drop _ _ _ Hi), <- (Permutation_middle (take i l)), <- Permutation_cons_append. apply perm_swap.
  - intros [= <- <- <-]. cbn. by rewrite app_nil_r.
  - intros [= <- <- <-]. cbn. by rewrite app_nil_r, take_drop.
  - intros [= <- <- <-]. cbn. unfold filled. by rewrite app_nil_r, <- app_assoc, take_drop, Permutation_app_comm.
  - intros [= <- <- <-]. cbn. by rewrite <- app_assoc, take_drop, Permutation_app_comm.
  - destruct (range_start from) as [s| | |]; try done. destruct (range_end to _) as [e| | |]; try done.
    destruct (Nat.leb_spec s e); [|done]. destruct (Nat.leb_spec e (length l)); [|done]. intros [= <- <- <-]. cbn.
    rewrite <- (take_drop s l) at 1. rewrite <- (take_drop (e - s) (drop s l)) at 1. rewrite drop_drop.
    replace (s + (e - s)) with e by lia. rewrite <- app_assoc. f_equiv. apply Permutation_app_comm.
  - destruct (filtered filter 0 l) as [[k r]|] eqn:Hfl; intros [= <- <- <-]. cbn. by eapply filtered_perm.
  - destruct (retained filter l) as [[k r]|] eqn:Hfl; intros [= <- <- <-]. cbn. rewrite app_nil_r. eapply filtered_perm; [|exact Hfl].
    intros j x b y Hb. destruct (filter j x); by simplify_option_eq.
  - case_match; intros [= <- <- <-]. cbn. by rewrite take_drop.
  - pose proof (partition_dedup_by_perm same l) as Hp. destruct (partition_dedup_by same l) as [k r]. intros [= <- <- <-].
    cbn. by rewrite app_nil_r, Hp.
Qed.

(** A panic loses the values of a vector only when the filter panics. *)
Lemma filtered_None f i (l : list T) : (∀ j x, f j x ≠ None) → filtered f i l ≠ None.
Proof.
  intros Hf. revert i. induction l as [|x l IH]; intros i; [done|]. cbn. specialize (Hf i x).
  destruct (f i x) as [[b y]|]; [|done]. cbn. specialize (IH (S i)). by destruct (filtered f (S i) l) as [[]|]; [destruct b|].
Qed.
Lemma retained_None f (l : list T) : (∀ j x, f j x ≠ None) → retained f l ≠ None.
Proof. intros Hf. apply filtered_None. intros j x. specialize (Hf j x). by destruct (f j x). Qed.

Lemma spec_panic_conserves N op (l : list T) r l' ds : owning op → spec N op l = (r, l', ds) → (∀ o, r ≠ Ok o) →
  ∃ lost, given op ++ l ≡ₚ l' ++ ds ++ lost ∧ (filter_returns op → lost = []).
Proof.
  intros Ho Hs Hr. assert (∀ m, given op ++ l = m → m ≡ₚ l' ++ ds → ∃ lost, given op ++ l ≡ₚ l' ++ ds ++ lost ∧ (filter_returns op → lost = [])) as Hall.
  { intros m -> Hm. exists []. by rewrite app_nil_r. }
  assert (∀ g, ds = g → l' = l → given op = g → ∃ lost, given op ++ l ≡ₚ l' ++ ds ++ lost ∧ (filter_returns op → lost = [])) as Hkept.
  { intros g -> -> Hg. eapply Hall; [done|]. by rewrite Hg, Permutation_app_comm. }
  destruct op; cbn [owning] in Ho; try done; cbn [spec given] in *; unfold if_fits, if_fits_own, val_or_panic in Hs;
    repeat case_match; simplify_eq; try (by destruct (Hr _ eq_refl)); try (by eapply Hkept);
    try (exists l; by split; [|intros Hf; exfalso; eapply filtered_None; [exact Hf|done]]).
  - exfalso. by match goal with Hn : l !! i = None, Hb : (i <? length l) = true |- _ =>
      apply lookup_ge_None in Hn; apply Nat.ltb_lt in Hb; lia end.
  - exfalso. by match goal with Hn : l !! i = None, Hb : (i <? length l) = true |- _ =>
      apply lookup_ge_None in Hn; apply Nat.ltb_lt in Hb; lia end.
  - match goal with Hb : (i <? length l) = false |- _ => apply Nat.ltb_ge in Hb end.
    exists []. rewrite list_insert_ge by done. by rewrite app_nil_r, Permutation_app_comm.
  - exists l. split; [done|]. intros Hf. exfalso. by eapply retained_None.
Qed.

Lemma spec_balance N op (l : list T) r l' ds : owning op → length l ≤ N → spec N op l = (r, l', ds) →
  ∃ lost, given op ++ l ≡ₚ l' ++ ds ++ taken_by r ++ lost ∧ (filter_returns op → lost = []).
Proof.
  intros Ho Hl Hs. destruct r as [o|e| |].
  - exists []. split; [|done]. rewrite app_nil_r. by eapply spec_conserves.
  - by eapply spec_panic_conserves.
  - by eapply spec_panic_conserves.
  - by eapply spec_panic_conserves.
Qed.

Lemma exec_all_balance N ops v l d : (Z.of_nat N ≤ L_MAX)%Z → Forall op_ok ops → Forall owning ops → rep N v l →
  ∃ rs v' l' ds lost, exec_all ops (mkState v d) = (rs, mkState v' (d ++ ds)) ∧ rep N v' l' ∧
    concat (given <$> ops) ++ l ≡ₚ l' ++ ds ++ concat (taken_by <$> rs) ++ lost ∧ (Forall filter_returns ops → lost = []).
Proof.
  intros HN Hops Hown. revert v l d. induction Hops as [|op ops Hop _ IH]; intros v l d Hr.
  { exists [], v, l, [], []. cbn. rewrite !app_nil_r. done. }
  apply Forall_cons in Hown as [Ho Hown]. pose proof (vec_exec_refines N HN op v l Hop Hr) as Hd.
  destruct (spec N op l) as [[r l1] ds1] eqn:Hs. destruct (Hd d) as (v1 & Hv1 & Hr1).
  destruct (spec_balance N op l r l1 ds1 Ho (rep_bound _ _ _ Hr) Hs) as (lost1 & Hb1 & Hf1).
  destruct (IH Hown v1 l1 (d ++ ds1) Hr1) as (rs & v2 & l2 & ds2 & lost2 & Hrun & Hr2 & Hb2 & Hf2).
  exists (r :: rs), v2, l2, (ds1 ++ ds2), (lost1 ++ lost2). cbn [exec_all fmap list_fmap concat].
  rewrite Hv1, Hrun, app_assoc. split_and!; [done|done| |].
  - rewrite <- app_assoc, (Permutation_app_comm _ l), app_assoc, Hb1.
    transitivity ((concat (given <$> ops) ++ l1) ++ ds1 ++ taken_by r ++ lost1); [solve_Permutation|]. rewrite Hb2. solve_Permutation.
  - intros [H1 H2]%Forall_cons. by rewrite Hf1, Hf2.
Qed.

(** C38: over any sequence of the calls of [Op] on a [StaticVec] that starts empty and is
    dropped in the end, values are owned once: those that were dropped or returned are,
    each as often, those that were given, also when calls panic and are caught. Only a
    filter that panics may lose the values of its vector, and also then none is dropped
    or returned twice. Calls that copy from a slice and filters that exchange a value for
    another are not considered, and [Op] has
    neither [extend] with a vector by value, which does drop twice
    ([extend_vec_drops_twice]), nor [insert_many] and [splice]. *)
Theorem static_vec_ownership (N : nat) (ops : list Op) :
  (Z.of_nat N ≤ L_MAX)%Z → Forall op_ok ops → Forall owning ops →
  ∃ v0 rs s v ds, StaticVec_new (T:=T) N = Ok v0 ∧ exec_all ops (mkState v0 []) = (rs, s) ∧
    drop_vec s = (Ok tt, mkState v ds) ∧
    ds ++ concat (taken_by <$> rs) ⊆+ concat (given <$> ops) ∧
    (Forall filter_returns ops → ds ++ concat (taken_by <$> rs) ≡ₚ concat (given <$> ops)).
Proof.
  intros HN Hops Hown. assert (rep N (mkVec (new_data_uninit (T:=T) N) 0) []) as Hr.
  { exists (new_data_uninit (T:=T) N). split; [done|]. unfold new_data_uninit. by rewrite length_replicate. }
  destruct (exec_all_balance N ops _ [] [] HN Hops Hown Hr) as (rs & v & l & ds & lost & Hrun & Hr' & Hb & Hf).
  rewrite app_nil_r in Hb. eexists _, rs, _, v, (ds ++ l). split; [done|]. split; [exact Hrun|]. split.
  { unfold drop_vec. rewrite run_gets. cbn [self]. apply drop_in_place_run. by apply (as_slice_ok N). }
  split.
  - assert (concat (given <$> ops) ≡ₚ ((ds ++ l) ++ concat (taken_by <$> rs)) ++ lost) as -> by (rewrite Hb; solve_Permutation).
    by apply submseteq_inserts_r.
  - intros Hfr. rewrite Hb, (Hf Hfr). solve_Permutation.
Qed.
End ops.
