(* ===== verification/StaticVecMore.v ===== *)
(** * [forked-libs/staticvec/src]: constructors, sets and iterators of [StaticVec]

    Functions that make vectors from other data, the operations on vectors as sets, and
    the iterators [StaticVecIntoIter], [StaticVecDrain] and [StaticVecSplice]. An
    iterator of other code is the list of its items. *)

From S2P Require Import Prelude StaticVec.
Local Open Scope nat_scope.

Section more.
Context {T : Type} {L : LengthType}.
Local Abbreviation R := (result fault).
Local Abbreviation Vec := (StaticVec (T:=T)).
Local Abbreviation V := (M (VecState (T:=T)) fault).

(** A new vector that is built by a computation *)
Definition build (N : nat) (m : V unit) : R Vec :=
  match m (mkState (mkVec (new_data_uninit N) 0) []) with
  | (Ok _, s) => Ok (self s)
  | (Err e, _) => Err e
  | (Panic, _) => Panic
  | (Hang, _) => Hang
  end.

(** ** Constructors *)

Definition new_from_slice (N : nat) (values : list T) : R Vec :=
  let length := Nat.min (length values) N in
  m ← mem_copy (Some <$> values) 0 (new_data_uninit N) 0 length;
  n ← to_L length;
  Ok (mkVec m n).

(** The values that do not fit are dropped, the second result. *)
Definition new_from_array (N : nat) (values : list T) : R (Vec * list T) :=
  let n := Nat.min (length values) N in
  m ← mem_copy (Some <$> values) 0 (new_data_uninit N) 0 n;
  dropped ← mem_slice (Some <$> values) n (length values - n);
  n ← to_L n;
  Ok (mkVec m n, dropped).
Definition from_vec (N : nat) (vec : list T) : R (Vec * list T) :=
  let item_count := Nat.min (length vec) N in
  m ← mem_copy (Some <$> vec) 0 (new_data_uninit N) 0 item_count;
  dropped ← (if item_count <? length vec then mem_slice (Some <$> vec) item_count (length vec - item_count) else Ok []);
  n ← to_L item_count;
  Ok (mkVec m n, dropped).
Definition into_vec (v : Vec) : R (list T) := m ← mem_copy (data v) 0 (new_data_uninit (capacity v)) 0 (len v); mem_slice m 0 (len v).
(** The array, or the vector itself *)
Definition into_inner (v : Vec) : R (list T + Vec) :=
  b ← is_not_full v;
  if b : bool then Ok (inr v) else l ← mem_slice (data v) 0 (capacity v); Ok (inl l).

(** [from_iter_ex] for any iterator; items that do not fit are dropped with it. *)
Fixpoint from_iter_loop (N : nat) (res : mem T) (i : nat) (it : list T) : R (mem T * nat * list T) :=
  if i <? N then
    match it with
    | val :: it => res ← mem_write res i val; from_iter_loop N res (i + 1) it
    | [] => Ok (res, i, [])
    end
  else Ok (res, i, it).
Definition from_iter_ex (N : nat) (it : list T) : R (Vec * list T) :=
  '(res, i, rest) ← from_iter_loop N (new_data_uninit N) 0 it;
  n ← to_L i;
  Ok (mkVec res n, rest).
(** [from_iter_ex] for a vector that is passed by value. It takes the capacities for
    lengths: [get_unchecked_mut] asks that its range lies in the slice of [iter]. *)
Definition from_iter_vec (N2 : nat) (iter : Vec) : R (Vec * list T) :=
  let N1 := capacity iter in
  m ← mem_copy (data iter) 0 (new_data_uninit N2) 0 (Nat.min N1 N2);
  dropped ← (if N1 <=? len iter then mem_slice (data iter) (Nat.min N1 N2) (N1 - Nat.min N1 N2) else Err UB);
  n ← to_L (Nat.min N1 N2);
  Ok (mkVec m n, dropped).

(** The initializer may panic; its argument counts its calls. *)
Fixpoint filled_with_loop (initializer : nat → option T) (n i : nat) : V unit :=
  match n with
  | O => mret tt
  | S n =>
      i' ← lift (to_L i);
      p ← self_ptr_at i';
      x ← lift (expect (initializer i));
      _ ← write_ p x;
      v ← gets self;
      l ← lift (L_add (len v) 1);
      _ ← modify (set_length l);
      filled_with_loop initializer n (S i)
  end.
Definition filled_with (N : nat) (initializer : nat → option T) : R Vec :=
  build N (filled_with_loop initializer N 0).

(** [reverse_copy] *)
Fixpoint reverse_copy (src : mem T) (i dest : nat) (res : mem T) : R (mem T) :=
  match i with
  | O => Ok res
  | S k => res ← mem_copy src k res dest 1; reverse_copy src k (S dest) res
  end.
Definition reversed (v : Vec) : R Vec :=
  m ← reverse_copy (data v) (len v) 0 (new_data_uninit (capacity v)); Ok (mkVec m (len v)).

Definition concat_ (v other : Vec) : R Vec :=
  m ← mem_copy (data v) 0 (new_data_uninit (capacity v + capacity other)) 0 (len v);
  m ← mem_copy (data other) 0 m (len v) (len other);
  n ← to_L (len v + len other);
  Ok (mkVec m n).

Fixpoint intersperse_loop (src : mem T) (separator : T) (n i p : nat) (res : mem T) : R (mem T) :=
  match n with
  | O => x ← mem_read src i; mem_write res p x
  | S n =>
      x ← mem_read src i;
      res ← mem_write res p x;
      res ← mem_write res (p + 1) separator;
      intersperse_loop src separator n (i + 1) (p + 2) res
  end.
Definition intersperse (separator : T) (v : Vec) : R Vec :=
  if is_empty v then StaticVec_new (capacity v * 2)
  else
    m ← intersperse_loop (data v) separator (len v - 1) 0 0 (new_data_uninit (capacity v * 2));
    n ← to_L (len v * 2 - 1);
    Ok (mkVec m n).

Definition split_at (M : nat) (v : Vec) : R (Vec * Vec) :=
  _ ← assert_ (M <=? len v);
  let right_length := len v - M in
  left ← mem_copy (data v) 0 (new_data_uninit M) 0 M;
  right ← mem_copy (data v) M (new_data_uninit (capacity v - M)) 0 right_length;
  m ← to_L M;
  r ← to_L right_length;
  Ok (mkVec left m, mkVec right r).

(** [cast_length] to a length type with the largest value [max2]; [None] is its error. *)
Definition cast_length (max2 : Z) (v : Vec) : R (option Vec) :=
  n ← to_L (capacity v);
  _ ← assert_ (Z.of_nat n <=? max2)%Z;
  if (Z.of_nat (len v) <=? max2)%Z then
    m ← mem_copy (data v) 0 (new_data_uninit (capacity v)) 0 (len v);
    Ok (Some (mkVec m (len v)))
  else Ok None.

(** [copy_with_new_capacity] takes the slice [0..=M] when it shrinks. *)
Definition copy_with_new_capacity (M : nat) (v : Vec) : R Vec :=
  l ← (if M <? capacity v then index_to_inclusive v M else as_slice v);
  build M (extend_from_slice l).

(** [clone] of values that are cloned one by one, and of values that are copied *)
Definition push_all (l : list T) : V unit := foldr (λ x m, _ ← push_unchecked x; m) (mret tt) l.
Definition clone (v : Vec) : R Vec := l ← as_slice v; build (capacity v) (push_all l).
Definition clone_copy (v : Vec) : R Vec :=
  if len v =? 0 then StaticVec_new (capacity v)
  else m ← mem_copy (data v) 0 (new_data_uninit (capacity v)) 0 (len v); n ← to_L (len v); Ok (mkVec m n).
Fixpoint clone_from_loop (other : Vec) (n i : nat) : V unit :=
  match n with
  | O => mret tt
  | S n =>
      i' ← lift (to_L i);
      x ← lift (get_unchecked other i');
      v ← gets self;
      old ← lift (get_unchecked v i');
      _ ← modify (drop_values [old]);
      _ ← write_ i' x;
      clone_from_loop other n (S i)
  end.
Definition clone_from (other : Vec) : V unit :=
  _ ← truncate (len other);
  v ← gets self;
  let self_length := len v in
  _ ← clone_from_loop other self_length 0;
  l ← lift (mem_slice (data other) self_length (len other - self_length));
  push_all l.

(** Elementwise arithmetic of full vectors ([added], [subtracted], [multiplied],
    [divided]); [None] is a panic of the operation. *)
Fixpoint zip_loop (op : T → T → option T) (v other : Vec) (n i : nat) (res : mem T) : R (mem T) :=
  match n with
  | O => Ok res
  | S n =>
      i' ← to_L i;
      x ← get_unchecked v i';
      y ← get_unchecked other i';
      z ← expect (op x y);
      res ← mem_write res i' z;
      zip_loop op v other n (S i) res
  end.
Definition zipped (op : T → T → option T) (v other : Vec) : R Vec :=
  a ← is_full v;
  b ← is_full other;
  _ ← assert_ (a && b);
  m ← zip_loop op v other (capacity v) 0 (new_data_uninit (capacity v));
  n ← to_L (capacity v);
  Ok (mkVec m n).

(** ** Sets *)

Section sets.
Context (eq : T → T → bool).

Fixpoint push_if (keep : T → bool) (l : list T) : V unit :=
  match l with
  | [] => mret tt
  | x :: l => _ ← (if keep x then push_unchecked x else mret tt); push_if keep l
  end.
Definition difference (v other : Vec) : R Vec :=
  l ← as_slice v;
  r ← as_slice other;
  build (capacity v) (push_if (λ x, negb (existsb (eq x) r)) l).
Definition symmetric_difference (v other : Vec) : R Vec :=
  l ← as_slice v;
  r ← as_slice other;
  build (capacity v + capacity other)
    (_ ← push_if (λ x, negb (existsb (eq x) r)) l; push_if (λ y, negb (existsb (eq y) l)) r).
(** [res.contains] looks at what has been pushed. *)
Fixpoint intersection_loop (r l : list T) : V unit :=
  match l with
  | [] => mret tt
  | x :: l =>
      v ← gets self;
      b ← lift (contains eq x v);
      _ ← (if existsb (eq x) r && negb b then push_unchecked x else mret tt);
      intersection_loop r l
  end.
Definition intersection (v other : Vec) : R Vec :=
  l ← as_slice v;
  r ← as_slice other;
  build (capacity v) (intersection_loop r l).
Definition union_ (v other : Vec) : R Vec :=
  let '(a, b) := if len v <=? len other then (v, other) else (other, v) in
  d ← difference b a;
  l ← as_slice a;
  r ← as_slice d;
  '(res, _) ← from_iter_ex (capacity v + capacity other) (l ++ r);
  match dedup_by eq (mkState res []) with
  | (Ok _, s) => Ok (self s)
  | (Err e, _) => Err e
  | (Panic, _) => Panic
  | (Hang, _) => Hang
  end.
End sets.

(** ** Iterators *)

(** [StaticVecIntoIter], which owns the array; its state and what has been dropped *)
Record IntoIter := mkIntoIter { it_start : nat; it_end : nat; it_data : mem T }.
Local Abbreviation I := (M (IntoIter * list T) fault).
Definition get_iter : I IntoIter := gets fst.
Definition set_start (n : nat) : I unit := modify (λ s, (mkIntoIter n (it_end s.1) (it_data s.1), s.2)).
Definition set_end (n : nat) : I unit := modify (λ s, (mkIntoIter (it_start s.1) n (it_data s.1), s.2)).
Definition iter_drop (i n : nat) : I unit :=
  it ← get_iter; l ← lift (mem_slice (it_data it) i n); modify (λ s, (s.1, s.2 ++ l)).

Definition into_iter (v : Vec) : R IntoIter :=
  m ← mem_copy (data v) 0 (new_data_uninit (capacity v)) 0 (len v); Ok (mkIntoIter 0 (len v) m).
Definition IntoIter_len (it : IntoIter) : R nat := if it_start it <=? it_end it then Ok (it_end it - it_start it) else Panic.
Definition IntoIter_as_slice (it : IntoIter) : R (list T) :=
  n ← IntoIter_len it; mem_slice (it_data it) (it_start it) n.
Definition IntoIter_next : I (option T) :=
  it ← get_iter;
  n ← lift (IntoIter_len it);
  if n =? 0 then mret None
  else
    x ← lift (mem_read (it_data it) (it_start it));
    _ ← set_start (it_start it + 1);
    mret (Some x).
Definition IntoIter_next_back : I (option T) :=
  it ← get_iter;
  n ← lift (IntoIter_len it);
  if n =? 0 then mret None
  else
    _ ← set_end (it_end it - 1);
    x ← lift (mem_read (it_data it) (it_end it - 1));
    mret (Some x).
Definition IntoIter_nth (n : nat) : I (option T) :=
  it ← get_iter;
  l ← lift (IntoIter_len it);
  if l <=? n then mret None
  else
    let old_start := it_start it in
    let res_index := old_start + n in
    _ ← iter_drop old_start (res_index - old_start);
    _ ← set_start (res_index + 1);
    x ← lift (mem_read (it_data it) res_index);
    mret (Some x).
Definition IntoIter_nth_back (n : nat) : I (option T) :=
  it ← get_iter;
  l ← lift (IntoIter_len it);
  if l <=? n then mret None
  else
    let old_end := it_end it in
    let res_index := old_end - n in
    _ ← set_end (res_index - 1);
    _ ← iter_drop res_index (old_end - res_index);
    x ← lift (mem_read (it_data it) (res_index - 1));
    mret (Some x).
Definition IntoIter_drop : I unit :=
  it ← get_iter;
  item_count ← lift (IntoIter_len it);
  if item_count =? 0 then mret tt else iter_drop (it_start it) item_count.

(** [StaticVecDrain]: the tail behind the drained part, and the part that is left to
    drain, between two pointers *)
Record DrainIter := mkDrain { d_start : nat; d_length : nat; d_from : nat; d_to : nat }.
Definition drain_iter (from to : Bound) : V DrainIter :=
  v ← gets self;
  let length := len v in
  start ← lift (range_start from);
  e ← lift (range_end to length);
  _ ← lift (assert_ ((start <=? e) && (e <=? length)));
  n ← lift (to_L start);
  _ ← set_len n;
  p ← self_ptr_at n;
  e' ← lift (to_L e);
  q ← self_ptr_at e';
  mret (mkDrain e (length - e) p q).
Definition Drain_next (d : DrainIter) : V (option T * DrainIter) :=
  if d_to d - d_from d =? 0 then mret (None, d)
  else x ← read_ (d_from d); mret (Some x, mkDrain (d_start d) (d_length d) (d_from d + 1) (d_to d)).
Definition Drain_next_back (d : DrainIter) : V (option T * DrainIter) :=
  if d_to d - d_from d =? 0 then mret (None, d)
  else x ← read_ (d_to d - 1); mret (Some x, mkDrain (d_start d) (d_length d) (d_from d) (d_to d - 1)).
Fixpoint drain_rest (n : nat) (d : DrainIter) : V unit :=
  match n with
  | O => lift Hang
  | S n =>
      '(o, d) ← Drain_next d;
      match o with Some x => _ ← modify (drop_values [x]); drain_rest n d | None => mret tt end
  end.
Definition Drain_drop (d : DrainIter) : V unit :=
  _ ← drain_rest (S (d_to d - d_from d)) d;
  let total_length := d_length d in
  if 0 <? total_length then
    v ← gets self;
    let start := len v in
    _ ← copy_ (d_start d) start total_length;
    t ← lift (to_L total_length);
    n ← lift (L_add start t);
    set_len n
  else mret tt.

(** A caller that takes items from both ends, [true] for the back, and drops the
    iterator; the items from the front and from the back *)
Fixpoint drain_calls (calls : list bool) (d : DrainIter) : V (list T * list T * DrainIter) :=
  match calls with
  | [] => mret ([], [], d)
  | back :: calls =>
      p ← (if back : bool then Drain_next_back d else Drain_next d);
      q ← drain_calls calls p.2;
      let o := match p.1 with Some x => [x] | None => [] end in
      mret (if back then (q.1.1, o ++ q.1.2, q.2) else (o ++ q.1.1, q.1.2, q.2))
  end.
Definition drain_with (from to : Bound) (calls : list bool) : V (list T * list T) :=
  d ← drain_iter from to;
  q ← drain_calls calls d;
  _ ← Drain_drop q.2;
  mret q.1.

(** [StaticVecSplice] *)
Record Splice := mkSplice { s_start : nat; s_end : nat; replace_with : list T }.
Definition splice (from to : Bound) (replace_with : list T) : V Splice :=
  v ← gets self;
  start ← lift (range_start from);
  e ← lift (range_end to (len v));
  _ ← lift (assert_ ((start <=? e) && (e <=? len v)));
  mret (mkSplice start e replace_with).
Definition Splice_next (s : Splice) : V (option T * Splice) :=
  if s_end s - s_start s =? 0 then mret (None, s)
  else
    i ← lift (to_L (s_start s));
    match replace_with s with
    | x :: rest =>
        v ← gets self;
        removed ← lift (get_unchecked v i);
        _ ← write_ i x;
        mret (Some removed, mkSplice (s_start s + 1) (s_end s) rest)
    | [] =>
        removed ← remove_unchecked i;
        mret (Some removed, mkSplice (s_start s) (s_end s - 1) [])
    end.
Fixpoint splice_rest (n : nat) (s : Splice) : V Splice :=
  match n with
  | O => lift Hang
  | S n =>
      '(o, s) ← Splice_next s;
      match o with Some x => _ ← modify (drop_values [x]); splice_rest n s | None => mret s end
  end.
Fixpoint splice_insert (index : nat) (replace_with : list T) : V unit :=
  match replace_with with
  | [] => mret tt
  | x :: rest =>
      v ← gets self;
      let old_length := len v in
      if old_length =? capacity v then modify (drop_values (x :: rest))
      else
        i ← lift (to_L index);
        p ← self_ptr_at i;
        _ ← copy_ p (p + 1) (old_length - index);
        _ ← write_ p x;
        n ← lift (to_L (old_length + 1));
        _ ← set_len n;
        splice_insert (index + 1) rest
  end.
Definition Splice_drop (s : Splice) : V unit :=
  s ← splice_rest (S (s_end s - s_start s)) s;
  splice_insert (s_end s) (replace_with s).
End more.
