(* ===== verification/StaticVecMoreProofs.v ===== *)
(** * Constructors, sets and iterators of [StaticVec]: what they do

    Specifications of [StaticVecMore] against lists; the life of a [StaticVecDrain];
    and the calls of the crate that do not do what they promise. *)

From S2P Require Import Prelude StaticVec StaticVecProofs StaticVecSpec StaticVecMore.
Local Open Scope nat_scope.
#[local] Arguments Nat.ltb : simpl never.
#[local] Arguments Nat.leb : simpl never.
#[local] Arguments Nat.eqb : simpl never.
#[local] Arguments Nat.sub : simpl never.
#[local] Arguments Nat.min : simpl never.

Section more.
Context {T : Type} {L : LengthType} (N : nat) (HN : (Z.of_nat N ≤ L_MAX)%Z).
Implicit Types (l r : list T) (v : StaticVec (T:=T)).

(** ** Constructors *)

(** Copying the first values of an array to a new one *)
Lemma copy_front (src : mem T) l n M : take n src = Some <$> l → length l = n → n ≤ length src → n ≤ M →
  ∃ m, mem_copy src 0 (new_data_uninit M) 0 n = Ok m ∧ rep M (mkVec m n) l.
Proof.
  intros Ht Hl Hs HM. eexists. split.
  - apply mem_copy_ok; [done|]. unfold new_data_uninit. by rewrite length_replicate.
  - cbn [take app]. rewrite drop_0, Ht. eapply rep_intro; [done|done|]. unfold new_data_uninit. lens.
Qed.

Lemma new_from_slice_ok l : ∃ v, new_from_slice N l = Ok v ∧ rep N v (take N l).
Proof.
  unfold new_from_slice. destruct (copy_front (Some <$> l) (take N l) (Nat.min (length l) N) N) as (m & Hm & Hr).
  - rewrite <- fmap_take. f_equal. destruct (Nat.le_ge_cases (length l) N).
    + by rewrite Nat.min_l, !take_ge by lia.
    + by rewrite Nat.min_r.
  - rewrite length_take. lia.
  - rewrite length_fmap. lia.
  - lia.
  - rewrite Hm. cbn. rewrite (to_L_ok N HN) by lia. cbn. by eexists.
Qed.

Lemma new_from_array_ok l : ∃ v, new_from_array N l = Ok (v, drop N l) ∧ rep N v (take N l).
Proof.
  destruct (new_from_slice_ok l) as (v & Hv & Hr). exists v. split; [|done]. unfold new_from_array, new_from_slice in *.
  destruct (mem_copy _ _ _ _ _) as [m| | |]; cbn in *; try done.
  assert (mem_slice (Some <$> l) (Nat.min (length l) N) (length l - Nat.min (length l) N) = Ok (drop N l)) as ->.
  { pose proof (mem_slice_ok l [] (Nat.min (length l) N) (length l - Nat.min (length l) N)) as Hs. rewrite app_nil_r in Hs.
    rewrite Hs by lia. f_equal. rewrite take_ge by (rewrite length_drop; lia). destruct (Nat.le_ge_cases (length l) N).
    - by rewrite Nat.min_l, !drop_ge by lia.
    - by rewrite Nat.min_r. }
  cbn. rewrite (to_L_ok N HN) in * by lia. cbn in *. by injection Hv as ->.
Qed.

Lemma into_vec_ok v l : rep N v l → into_vec v = Ok l.
Proof.
  intros Hr. unfold into_vec. rewrite (rep_capacity _ _ _ Hr), (rep_len _ _ _ Hr).
  destruct (copy_out_ok N v l 0 (length l) Hr) as (m & Hm & Hr'); [lia|]. rewrite Hm. cbn.
  rewrite drop_0, take_ge in Hr' by done. by apply as_slice_ok in Hr'.
Qed.
Lemma into_inner_ok v l : rep N v l → into_inner v = Ok (if length l <? N then inr v else inl l).
Proof.
  intros Hr. unfold into_inner. rewrite (is_not_full_ok N HN _ _ Hr). cbn. destruct (Nat.ltb_spec (length l) N); [done|].
  pose proof (rep_bound _ _ _ Hr). rewrite (rep_capacity _ _ _ Hr). pose proof (as_slice_ok _ _ _ Hr) as Hs. unfold as_slice in Hs.
  rewrite (rep_len _ _ _ Hr) in Hs. replace N with (length l) by lia. by rewrite Hs.
Qed.
(** A round trip *)
Lemma from_array_into_inner l : length l = N → ∃ v, new_from_array N l = Ok (v, []) ∧ into_inner v = Ok (inl l).
Proof.
  intros Hl. destruct (new_from_array_ok l) as (v & Hv & Hr). rewrite drop_ge in Hv by lia. rewrite take_ge in Hr by lia.
  exists v. split; [done|]. rewrite (into_inner_ok _ _ Hr). by rewrite (proj2 (Nat.ltb_ge _ _)) by lia.
Qed.

Lemma from_iter_loop_ok it l j : length l + length j = N →
  ∃ j', from_iter_loop N ((Some <$> l) ++ j) (length l) it =
      Ok ((Some <$> filled N l it) ++ j', length (filled N l it), drop (N - length l) it) ∧
    length (filled N l it) + length j' = N.
Proof.
  revert l j. induction it as [|x it IH]; intros l j Hj; cbn [from_iter_loop].
  - exists j. unfold filled. rewrite take_nil, drop_nil, app_nil_r. by destruct (length l <? N).
  - destruct (Nat.ltb_spec (length l) N) as [Hl|Hl].
    + rewrite mem_write_ok by lens. cbn [mbind result_bind]. destruct j as [|y j]; [cbn in Hj; lia|].
      rewrite write_behind. destruct (IH (l ++ [x]) j) as (j' & He & Hj'); [lens|].
      rewrite length_app in He. cbn [length] in He. rewrite He.
      assert (filled N (l ++ [x]) it = filled N l (x :: it)) as Hf.
      { unfold filled. rewrite length_app, <- app_assoc. cbn [length]. by replace (N - length l) with (S (N - (length l + 1))) by lia. }
      rewrite Hf in *. replace (N - length l) with (S (N - (length l + 1))) by lia. by exists j'.
    + exists j. unfold filled. replace (N - length l) with 0 by lia. by rewrite app_nil_r.
Qed.
Lemma from_iter_ex_ok it : ∃ v, from_iter_ex N it = Ok (v, drop N it) ∧ rep N v (take N it).
Proof.
  destruct (from_iter_loop_ok it [] (new_data_uninit N)) as (j' & He & Hj).
  { unfold new_data_uninit. by rewrite length_replicate. }
  unfold from_iter_ex. cbn in He. rewrite He. cbn. unfold filled in *. cbn in *. rewrite Nat.sub_0_r in *.
  rewrite (to_L_ok N HN) by lia. eexists. split; [done|]. by exists j'.
Qed.

Lemma reverse_copy_ok l (src : mem T) n l2 j : n ≤ length l → take (length l) src = Some <$> l →
  length l2 + n ≤ length l2 + length j → length l ≤ length src →
  ∃ j', reverse_copy src n (length l2) ((Some <$> l2) ++ j) = Ok ((Some <$> l2 ++ rev (take n l)) ++ j') ∧
    length l2 + n + length j' = length l2 + length j.
Proof.
  revert l2 j. induction n as [|n IH]; intros l2 j Hn Hsrc Hj Hs; cbn [reverse_copy].
  - exists j. cbn. by rewrite app_nil_r, Nat.add_0_r.
  - rewrite mem_copy_ok by lens. cbn [mbind result_bind].
    destruct (lookup_lt_is_Some_2 l n) as [x Hx]; [lia|].
    assert (take 1 (drop n src) = [Some x]) as ->.
    { assert (src !! n = Some (Some x)) as Hsx.
      { rewrite <- (lookup_take_lt src (length l)) by lia. by rewrite Hsrc, list_lookup_fmap, Hx. }
      by rewrite (drop_S _ _ _ Hsx). }
    rewrite (take_app_length' (Some <$> l2)), drop_app_ge by lens. rewrite length_fmap.
    replace (length l2 + 1 - length l2) with 1 by lia.
    destruct (IH (l2 ++ [x]) (drop 1 j)) as (j' & He & Hj'); [lia|done|lens|done|].
    exists j'. rewrite fmap_app, <- app_assoc in He. rewrite length_app in He. cbn in He. replace (S (length l2)) with (length l2 + 1) by lia.
    cbn [app]. rewrite He. rewrite (take_S_r _ _ _ Hx), rev_app_distr. split; [by rewrite <- app_assoc|]. lens.
Qed.
Lemma reversed_ok v l : rep N v l → ∃ w, reversed v = Ok w ∧ rep N w (rev l).
Proof.
  intros Hr. pose proof (rep_bound _ _ _ Hr). pose proof (rep_capacity _ _ _ Hr) as Hc. unfold reversed. rewrite Hc, (rep_len _ _ _ Hr).
  unfold capacity in Hc. destruct (reverse_copy_ok l (data v) (length l) [] (new_data_uninit N)) as (j' & He & Hj).
  - done.
  - destruct Hr as (j & -> & _). cbn [data]. by rewrite take_init, take_ge by done.
  - unfold new_data_uninit. rewrite length_replicate. cbn. lia.
  - lia.
  - cbn [length fmap list_fmap app] in He. rewrite take_ge in He by done. unfold new_data_uninit in *. rewrite He. cbn.
    eexists. split; [done|]. eapply rep_intro; [done|by rewrite length_rev|]. rewrite length_app, length_fmap, length_rev. lens.
Qed.

(** ** The life of a [StaticVecDrain] *)

(** While values [s..e] are drained, those in [a..b] are left. *)
Record draining (s e : nat) l (a b : nat) v (d : DrainIter) : Prop := {
  dr_vec : ∃ j, v = mkVec ((Some <$> l) ++ j) s ∧ length l + length j = N;
  dr_iter : d = mkDrain e (length l - e) a b;
  dr_bounds : s ≤ a ≤ b ∧ b ≤ e ≤ length l;
}.
(** The values [a..b] *)
Definition between (a b : nat) l : list T := take (b - a) (drop a l).

Lemma slots_between_cons a b l x : l !! a = Some x → a < b → between a b l = x :: between (a + 1) b l.
Proof.
  intros Hx Hab. unfold between. rewrite (drop_S _ _ _ Hx). replace (b - a) with (S (b - (a + 1))) by lia. cbn.
  by rewrite Nat.add_1_r.
Qed.
Lemma between_snoc a b l x : l !! (b - 1) = Some x → a < b → between a b l = between a (b - 1) l ++ [x].
Proof.
  intros Hx Hab. unfold between. replace (b - a) with (S (b - 1 - a)) by lia. apply take_S_r. rewrite lookup_drop.
  by replace (a + (b - 1 - a)) with (b - 1) by lia.
Qed.
Lemma slots_between_nil a l : between a a l = [].
Proof. unfold between. by rewrite Nat.sub_diag. Qed.

Lemma draining_read s e l a b v d i x : draining s e l a b v d → l !! i = Some x → mem_read (data v) i = Ok x.
Proof. intros [(j & -> & _) _ _] Hx. by apply mem_read_ok. Qed.

(** One item *)
Lemma drain_call_run (back : bool) s e l a b v d ds : draining s e l a b v d →
  ∃ o d' a' b', (if back then Drain_next_back d else Drain_next d) (mkState v ds) = (Ok (o, d'), mkState v ds) ∧
    draining s e l a' b' v d' ∧
    let q := match o with Some x => [x] | None => [] end in
    between a b l = (if back then between a' b' l ++ q else q ++ between a' b' l).
Proof.
  intros Hd. pose proof Hd as [Hv -> [Hb1 Hb2]]. destruct (decide (a = b)) as [->|Hne].
  { exists None, (mkDrain e (length l - e) b b), b, b. rewrite slots_between_nil. split_and!; [|done|by destruct back].
    unfold Drain_next, Drain_next_back. cbn. rewrite Nat.sub_diag. by destruct back. }
  destruct back.
  - destruct (lookup_lt_is_Some_2 l (b - 1)) as [x Hx]; [lia|]. exists (Some x), (mkDrain e (length l - e) a (b - 1)), a, (b - 1).
    split_and!; [|split; [done|done|lia]|apply between_snoc; [done|lia]].
    unfold Drain_next_back. cbn [d_to d_from d_start d_length]. rewrite (proj2 (Nat.eqb_neq _ _)) by lia.
    by rewrite (run_read _ _ _ x) by by eapply draining_read.
  - destruct (lookup_lt_is_Some_2 l a) as [x Hx]; [lia|]. exists (Some x), (mkDrain e (length l - e) (a + 1) b), (a + 1), b.
    split_and!; [|split; [done|done|lia]|apply slots_between_cons; [done|lia]].
    unfold Drain_next. cbn [d_to d_from d_start d_length]. rewrite (proj2 (Nat.eqb_neq _ _)) by lia.
    by rewrite (run_read _ _ _ x) by by eapply draining_read.
Qed.

Lemma drain_calls_run calls s e l a b v d ds : draining s e l a b v d →
  ∃ fr bk d' a' b', drain_calls calls d (mkState v ds) = (Ok (fr, bk, d'), mkState v ds) ∧
    draining s e l a' b' v d' ∧ between a b l = fr ++ between a' b' l ++ rev bk.
Proof.
  revert a b d. induction calls as [|back calls IH]; intros a b d Hd; cbn [drain_calls].
  { exists [], [], d, a, b. cbn. by rewrite app_nil_r. }
  destruct (drain_call_run back s e l a b v d ds Hd) as (o & d1 & a1 & b1 & Ho & Hd1 & Hb1).
  destruct (IH a1 b1 d1 Hd1) as (fr & bk & d2 & a2 & b2 & Hc & Hd2 & Hb2). rewrite run_bind, Ho. cbn [fst snd].
  rewrite run_bind, Hc. cbn [fst snd]. destruct back.
  - eexists _, _, d2, a2, b2. split_and!; [done|done|]. rewrite Hb1, Hb2. rewrite rev_app_distr, <- !app_assoc.
    destruct o; cbn; by rewrite ?app_nil_r.
  - eexists _, _, d2, a2, b2. split_and!; [done|done|]. by rewrite Hb1, Hb2, <- app_assoc.
Qed.

Lemma drain_rest_run n s e l a b v d ds : draining s e l a b v d → b - a < n →
  drain_rest n d (mkState v ds) = (Ok tt, mkState v (ds ++ between a b l)).
Proof.
  revert a d ds. induction n as [|n IH]; intros a d ds Hd Hn; [lia|]. cbn [drain_rest].
  pose proof Hd as [Hv -> [Hb1 Hb2]]. rewrite run_bind. unfold Drain_next. cbn [d_to d_from d_start d_length].
  destruct (decide (a = b)) as [->|Hne]; [by rewrite Nat.sub_diag, slots_between_nil, app_nil_r|].
  destruct (lookup_lt_is_Some_2 l a) as [x Hx]; [lia|]. rewrite (proj2 (Nat.eqb_neq _ _)) by lia.
  rewrite (run_read _ _ _ x) by by eapply draining_read. cbn. rewrite run_modify. unfold drop_values. cbn [self dropped].
  rewrite (IH (a + 1)); [|split; [done|done|lia]|lia]. rewrite <- app_assoc, (slots_between_cons _ _ _ _ Hx) by lia. done.
Qed.

Lemma Drain_drop_run s e l a b v d ds : draining s e l a b v d →
  ∃ v', Drain_drop d (mkState v ds) = (Ok tt, mkState v' (ds ++ between a b l)) ∧ rep N v' (take s l ++ drop e l).
Proof.
  intros Hd. pose proof Hd as [(j & Hv & Hj) Hdd [Hb1 Hb2]].
  assert (rep N (mkVec ((Some <$> l) ++ j) (length l)) l) as Hr by by exists j.
  assert (capacity v = N) as Hc by (subst v; unfold capacity; cbn [data]; lens).
  assert (Drain_drop d (mkState v ds) = (if 0 <? d_length d then v ← gets self; _ ← copy_ (d_start d) (len v) (d_length d);
    t ← lift (to_L (d_length d)); n ← lift (L_add (len v) t); set_len n else mret tt) (mkState v (ds ++ between a b l))) as He.
  { unfold Drain_drop. rewrite run_bind. rewrite (drain_rest_run _ s e l a b); [done|done|subst d; cbn; lia]. }
  rewrite He. clear He. subst d. cbn [d_length d_start]. destruct (Nat.ltb_spec 0 (length l - e)) as [Hl|Hl].
  - rewrite run_gets. cbn [self]. rewrite run_copy by (subst v; unfold capacity in *; cbn [data len] in *; lens).
    rewrite (run_lift _ _ (length l - e)) by (apply (to_L_ok N HN); lia).
    rewrite (run_lift _ _ (len v + (length l - e))) by (apply (to_L_ok N HN); subst v; cbn; lia).
    rewrite set_len_run by (unfold capacity in *; subst v; cbn [data len] in *; lens). eexists. split; [done|].
    subst v. cbn [data len]. pose proof (rep_close N _ l s e Hr) as Hcl. cbn [data] in Hcl.
    replace (s + (length l - e)) with (length l - (e - s)) at 2 by lia. apply Hcl. lia.
  - exists v. split; [done|]. rewrite drop_ge, app_nil_r by lia. subst v. apply (rep_shrink N _ l s Hr). lia.
Qed.

(** C39: the life of a drain iterator: whatever items a caller takes from its two ends,
    when the iterator is dropped the vector has lost the range and kept the rest, and
    every value of the range was either yielded or dropped, once. *)
Theorem drain_iter_spec v l from to s e (calls : list bool) (ds : list T) :
  rep N v l → range_start from = Ok s → range_end to (length l) = Ok e → s ≤ e ≤ length l →
  ∃ fr bk rest v', drain_with from to calls (mkState v ds) = (Ok (fr, bk), mkState v' (ds ++ rest)) ∧
    rep N v' (take s l ++ drop e l) ∧ take (e - s) (drop s l) = fr ++ rest ++ rev bk.
Proof.
  intros Hr Hs He Hse. pose proof (rep_bound _ _ _ Hr). assert (capacity v = N) as Hc by by eapply rep_capacity.
  set (v1 := mkVec (data v) s). assert (draining s e l s e v1 (mkDrain e (length l - e) s e)) as Hd.
  { destruct Hr as (j & -> & Hj). split; [by exists j|done|lia]. }
  destruct (drain_calls_run calls s e l s e v1 _ ds Hd) as (fr & bk & d' & a & b & Hcalls & Hd' & Hbt).
  destruct (Drain_drop_run s e l a b v1 d' ds Hd') as (v' & Hdrop & Hr'). exists fr, bk, (between a b l), v'. split_and!; [|done|done].
  assert (drain_iter from to (mkState v ds) = (Ok (mkDrain e (length l - e) s e), mkState v1 ds)) as Hdi.
  { unfold drain_iter. rewrite run_gets. cbn [self]. rewrite (run_lift _ _ s) by done. rewrite (rep_len _ _ _ Hr).
    rewrite (run_lift _ _ e) by done. rewrite (run_lift _ _ tt) by by rewrite !(proj2 (Nat.leb_le _ _)) by lia.
    rewrite (run_lift _ _ s) by (apply (to_L_ok N HN); lia). rewrite run_set_len, (run_self_ptr N HN) by (done || lia).
    rewrite (run_lift _ _ e) by (apply (to_L_ok N HN); lia). by rewrite (run_self_ptr N HN) by (done || lia). }
  unfold drain_with. rewrite run_bind, Hdi. rewrite run_bind, Hcalls. cbn [fst snd]. by rewrite run_bind, Hdrop.
Qed.

(** ** [splice] *)

Local Abbreviation V := (M (VecState (T:=T)) fault).

(** One replaced value *)
Lemma splice_next_replaces v pre y mid post x xs ds : rep N v (pre ++ (y :: mid) ++ post) →
  ∃ v', Splice_next (mkSplice (length pre) (length pre + S (length mid)) (x :: xs)) (mkState v ds) =
      (Ok (Some y, mkSplice (length pre + 1) (length pre + S (length mid)) xs), mkState v' ds) ∧
    rep N v' ((pre ++ [x]) ++ mid ++ post).
Proof.
  intros Hr. pose proof (rep_bound _ _ _ Hr) as Hb. pose proof (rep_capacity _ _ _ Hr) as Hc. rewrite length_app in Hb. cbn in Hb.
  exists (mkVec (<[length pre:=Some x]> (data v)) (len v)). split.
  - unfold Splice_next. cbn [s_start s_end replace_with]. rewrite (proj2 (Nat.eqb_neq _ _)) by lia.
    rewrite (run_lift _ _ (length pre)) by (apply (to_L_ok N HN); lia). rewrite run_gets. cbn [self].
    rewrite (run_lift _ _ y) by (eapply (get_unchecked_ok N HN); [done|by cbn [app]; rewrite list_lookup_middle]).
    by rewrite run_write by lia.
  - pose proof (rep_insert N v _ (length pre) x Hr) as Hi.
    rewrite insert_app_r_alt, Nat.sub_diag in Hi by done. cbn in Hi. rewrite <- app_assoc. apply Hi. lens.
Qed.
(** One removed value *)
Lemma splice_next_removes v pre y mid post ds : rep N v (pre ++ (y :: mid) ++ post) →
  ∃ v', Splice_next (mkSplice (length pre) (length pre + S (length mid)) []) (mkState v ds) =
      (Ok (Some y, mkSplice (length pre) (length pre + length mid) []), mkState v' ds) ∧
    rep N v' (pre ++ mid ++ post).
Proof.
  intros Hr. pose proof (rep_bound _ _ _ Hr) as Hb. rewrite length_app in Hb. cbn in Hb.
  destruct (remove_unchecked_does N HN v pre y (mid ++ post) Hr ds) as (v' & Hv & Hr'). exists v'. split; [|done].
  unfold Splice_next. cbn [s_start s_end replace_with]. rewrite (proj2 (Nat.eqb_neq _ _)) by lia.
  rewrite (run_lift _ _ (length pre)) by (apply (to_L_ok N HN); lia). rewrite run_bind, Hv, app_nil_r.
  by replace (length pre + S (length mid) - 1) with (length pre + length mid) by lia.
Qed.

Lemma splice_rest_run n v pre mid post xs ds : rep N v (pre ++ mid ++ post) → length mid < n →
  let k := Nat.min (length mid) (length xs) in
  ∃ s' v', s_end s' = length pre + k ∧ replace_with s' = drop k xs ∧
    splice_rest n (mkSplice (length pre) (length pre + length mid) xs) (mkState v ds) = (Ok s', mkState v' (ds ++ mid)) ∧
    rep N v' (pre ++ take k xs ++ post).
Proof.
  revert v pre mid xs ds. induction n as [|n IH]; intros v pre mid xs ds Hr Hn; [lia|]. cbn [splice_rest]. rewrite run_bind.
  destruct mid as [|y mid].
  { exists (mkSplice (length pre) (length pre + 0) xs), v. cbn. rewrite app_nil_r. split_and!; [done|by rewrite drop_0| |done].
    unfold Splice_next. cbn. by replace (length pre + 0 - length pre) with 0 by lia. }
  cbn [length] in *. destruct xs as [|x xs].
  - destruct (splice_next_removes v pre y mid post ds Hr) as (v1 & -> & Hr1). cbn. rewrite run_modify. unfold drop_values. cbn [self dropped].
    destruct (IH v1 pre mid [] (ds ++ [y]) Hr1) as (s' & v2 & He & Hw & Hrun & Hr2); [lia|]. cbn [length] in *.
    rewrite Nat.min_0_r in *. exists s', v2. rewrite Hrun, <- app_assoc. by split_and!.
  - destruct (splice_next_replaces v pre y mid post x xs ds Hr) as (v1 & -> & Hr1). cbn. rewrite run_modify. unfold drop_values. cbn [self dropped].
    destruct (IH v1 (pre ++ [x]) mid xs (ds ++ [y]) Hr1) as (s' & v2 & He & Hw & Hrun & Hr2); [lia|].
    rewrite length_app in *. cbn [length] in *. replace (length pre + 1 + length mid) with (length pre + S (length mid)) in Hrun by lia.
    exists s', v2. rewrite Hrun, <- app_assoc, He, Hw. rewrite <- Nat.succ_min_distr. cbn [take drop].
    split_and!; [lia|done|done|]. by rewrite <- app_assoc in Hr2.
Qed.

Lemma run_assoc {A B C} (m : V A) (f : A → V B) (g : B → V C) s : ((m ≫= f) ≫= g) s = (m ≫= (λ a, f a ≫= g)) s.
Proof. rewrite !run_bind. by destruct (m s) as [[]]. Qed.

(** The values that are left are inserted. *)
Lemma splice_insert_does xs v pre post : rep N v (pre ++ post) →
  let k := N - length (pre ++ post) in
  does N (splice_insert (length pre) xs) v (Ok tt) (pre ++ take k xs ++ post) (drop k xs).
Proof.
  revert v pre. induction xs as [|x xs IH]; intros v pre Hr k; cbn [splice_insert].
  { rewrite take_nil, drop_nil. by apply does_ret. }
  pose proof (rep_bound _ _ _ Hr) as Hb. pose proof (rep_capacity _ _ _ Hr) as Hc. rewrite length_app in Hb.
  destruct (decide (length (pre ++ post) = N)) as [HeqN|Hne].
  - subst k. rewrite HeqN, Nat.sub_diag, take_0, drop_0. apply (does_intro N _ _ _ v); [|done]. intros d. rewrite run_gets. cbn [self].
    by rewrite (rep_len _ _ _ Hr), Hc, HeqN, Nat.eqb_refl.
  - replace k with (S (N - length ((pre ++ [x]) ++ post))) by (subst k; lens). cbn [take drop].
    eapply (does_eq N (_ ← insert_unchecked (length pre) x; splice_insert (length pre + 1) xs)).
    + intros d. rewrite run_gets. cbn [self]. rewrite (rep_len _ _ _ Hr), Hc, (proj2 (Nat.eqb_neq _ _)) by done.
      rewrite (run_lift _ _ (length pre)) by (apply (to_L_ok N HN); lia). unfold insert_unchecked. rewrite run_assoc, run_gets. cbn [self].
      rewrite (rep_len _ _ _ Hr), run_assoc, !(run_self_ptr N HN) by (done || lia). rewrite length_app in *.
      rewrite run_assoc, (run_lift (L_sub _ _) _ (length pre + length post - length pre)) by (apply L_sub_ok; lia).
      rewrite run_assoc, !run_copy by lia. rewrite run_assoc, !run_write by (unfold capacity in *; cbn [data]; lens).
      rewrite run_assoc, (run_lift (to_L _) _ (length pre + length post + 1)) by (apply (to_L_ok N HN); lia).
      rewrite (run_lift (L_add _ _) _ (length pre + length post + 1)) by (apply (to_L_ok N HN); lia). done.
    + rewrite <- (app_nil_l (drop _ xs)). eapply does_bind; [apply (insert_unchecked_does N HN v pre post x Hr); rewrite length_app in *; lia|].
      intros v' Hr'. specialize (IH v' (pre ++ [x])). rewrite <- !app_assoc in *. cbn [app] in *. specialize (IH Hr').
      rewrite length_app in IH at 1. rewrite <- (app_assoc pre) in IH. exact IH.
Qed.

(** [splice] whose iterator is dropped: the range is dropped, and as many values as fit
    are put in its place. *)
Lemma splice_does v l from to s e xs : rep N v l → range_start from = Ok s → range_end to (length l) = Ok e → s ≤ e ≤ length l →
  let k := N - (length l - (e - s)) in
  does N (sp ← splice from to xs; Splice_drop sp) v (Ok tt) (take s l ++ take k xs ++ drop e l)
    (take (e - s) (drop s l) ++ drop k xs).
Proof.
  intros Hr Hs He Hse k. pose proof (rep_bound _ _ _ Hr) as Hb.
  set (pre := take s l). set (mid := take (e - s) (drop s l)). set (post := drop e l).
  assert (l = pre ++ mid ++ post) as Hl.
  { subst pre mid post. rewrite <- (take_drop s l) at 1. f_equal. rewrite <- (take_drop (e - s) (drop s l)) at 1. f_equal.
    rewrite drop_drop. f_equal. lia. }
  assert (length pre = s ∧ length mid = e - s ∧ length post = length l - e) as (H1 & H2 & H3) by (subst pre mid post; repeat split; lens).
  rewrite Hl in Hr. intros d.
  destruct (splice_rest_run (S (length mid)) v pre mid post xs d Hr) as (s' & v1 & Hend & Hw & Hrun & Hr1); [lia|].
  set (k1 := Nat.min (length mid) (length xs)) in *. rewrite app_assoc in Hr1.
  destruct (splice_insert_does (drop k1 xs) v1 (pre ++ take k1 xs) post Hr1 (d ++ mid)) as (v2 & Hins & Hr2).
  exists v2. assert (length (pre ++ take k1 xs) = length pre + k1) as Hk1 by lens.
  split.
  - rewrite run_bind. assert (splice from to xs (mkState v d) = (Ok (mkSplice s e xs), mkState v d)) as ->.
    { unfold splice. rewrite run_gets. cbn [self]. rewrite (run_lift _ _ s) by done. rewrite (rep_len _ _ _ Hr), <- Hl.
      rewrite (run_lift _ _ e) by done. by rewrite (run_lift _ _ tt) by by rewrite !(proj2 (Nat.leb_le _ _)) by lia. }
    unfold Splice_drop. cbn [s_start s_end]. rewrite run_bind. replace (e - s) with (length mid) by lia.
    rewrite H1, H2 in Hrun. replace (s + (e - s)) with e in Hrun by lia. rewrite H2, Hrun, Hend, Hw, <- Hk1.
    rewrite Hins, <- app_assoc, drop_drop. do 5 f_equal. unfold k, k1. lens.
  - revert Hr2. rewrite <- app_assoc. rewrite (app_assoc (take k1 xs)).
    assert (take k1 xs ++ take (N - length ((pre ++ take k1 xs) ++ post)) (drop k1 xs) = take k xs) as ->; [|done].
    rewrite take_take_drop. f_equal. unfold k, k1. lens.
Qed.

(** ** Copies and sets *)

Lemma rep_new : rep N (mkVec (new_data_uninit (T:=T) N) 0) [].
Proof. exists (new_data_uninit N). split; [done|]. unfold new_data_uninit. by rewrite length_replicate. Qed.

Lemma build_ok (m : V unit) l ds : (∀ v, rep N v [] → does N m v (Ok tt) l ds) → ∃ w, build N m = Ok w ∧ rep N w l.
Proof. intros Hm. destruct (Hm _ rep_new []) as (w & Hw & Hr). exists w. split; [|done]. unfold build. by rewrite Hw. Qed.

Lemma push_all_does l v acc : rep N v acc → length acc + length l ≤ N → does N (push_all l) v (Ok tt) (acc ++ l) [].
Proof.
  revert v acc. induction l as [|x l IH]; intros v acc Hr Hl; cbn [push_all foldr].
  - rewrite app_nil_r. by apply does_ret.
  - cbn in Hl. rewrite (cons_middle x). rewrite app_assoc. rewrite <- (app_nil_l []).
    eapply does_bind; [apply (push_unchecked_does N HN); [done|lia]|]. intros v' Hr'. apply IH; [done|lens].
Qed.
Lemma clone_ok v l : rep N v l → ∃ w, clone v = Ok w ∧ rep N w l.
Proof.
  intros Hr. unfold clone. rewrite (as_slice_ok _ _ _ Hr), (rep_capacity _ _ _ Hr). cbn [mbind result_bind].
  apply (build_ok _ l []). intros v' Hr'. apply (push_all_does l v' [] Hr'). cbn. by eapply rep_bound.
Qed.
Lemma clone_copy_ok v l : rep N v l → ∃ w, clone_copy v = Ok w ∧ rep N w l.
Proof.
  intros Hr. unfold clone_copy. rewrite (rep_capacity _ _ _ Hr), (rep_len _ _ _ Hr). pose proof (rep_bound _ _ _ Hr).
  destruct (Nat.eqb_spec (length l) 0) as [H0|H0].
  - destruct l; [|done]. eexists. split; [done|apply rep_new].
  - destruct (copy_out_ok N v l 0 (length l) Hr) as (m & Hm & Hr'); [done|]. rewrite Hm. cbn. rewrite (to_L_ok N HN) by done. cbn.
    rewrite drop_0, take_ge in Hr' by done. by eexists.
Qed.

Section sets.
Context (eq : T → T → bool).

Lemma push_if_does keep l v acc : rep N v acc → length acc + length l ≤ N →
  does N (push_if keep l) v (Ok tt) (acc ++ List.filter keep l) [].
Proof.
  revert v acc. induction l as [|x l IH]; intros v acc Hr Hl; cbn [push_if List.filter].
  - rewrite app_nil_r. by apply does_ret.
  - cbn in Hl. rewrite <- (app_nil_l []). destruct (keep x).
    + rewrite (cons_middle x), app_assoc.
      eapply does_bind; [apply (push_unchecked_does N HN); [done|lia]|]. intros v' Hr'. apply IH; [done|lens].
    + eapply does_bind; [by apply does_ret|]. intros v' Hr'. apply IH; [done|lia].
Qed.
Lemma difference_ok v l (other : StaticVec (T:=T)) r : rep N v l → as_slice other = Ok r →
  ∃ w, difference eq v other = Ok w ∧ rep N w (List.filter (λ x, negb (existsb (eq x) r)) l).
Proof.
  intros Hr Ho. unfold difference. rewrite (as_slice_ok _ _ _ Hr), (rep_capacity _ _ _ Hr), Ho. cbn [mbind result_bind].
  apply (build_ok _ _ []). intros v' Hr'. apply (push_if_does _ l v' [] Hr'). cbn. by eapply rep_bound.
Qed.

(** The first occurrences of the values that are in both *)
Fixpoint common r l acc : list T :=
  match l with
  | [] => acc
  | x :: l => common r l (if existsb (eq x) r && negb (existsb (λ y, eq y x) acc) then acc ++ [x] else acc)
  end.
Lemma intersection_loop_does r l v acc : rep N v acc → length acc + length l ≤ N →
  does N (intersection_loop eq r l) v (Ok tt) (common r l acc) [].
Proof.
  revert v acc. induction l as [|x l IH]; intros v acc Hr Hl; cbn [intersection_loop common]; [by apply does_ret|].
  cbn in Hl. set (b := existsb (λ y, eq y x) acc).
  eapply (does_eq N (_ ← (if existsb (eq x) r && negb b then push_unchecked x else mret tt); intersection_loop eq r l)).
  { intros d. rewrite run_gets. cbn [self]. rewrite (run_lift _ _ b); [done|]. unfold contains. by rewrite (as_slice_ok _ _ _ Hr). }
  rewrite <- (app_nil_l []). destruct (existsb (eq x) r && negb b).
  - eapply does_bind; [apply (push_unchecked_does N HN); [done|lia]|]. intros v' Hr'. apply IH; [done|lens].
  - eapply does_bind; [by apply does_ret|]. intros v' Hr'. apply IH; [done|lia].
Qed.
Lemma intersection_ok v l (other : StaticVec (T:=T)) r : rep N v l → as_slice other = Ok r →
  ∃ w, intersection eq v other = Ok w ∧ rep N w (common r l []).
Proof.
  intros Hr Ho. unfold intersection. rewrite (as_slice_ok _ _ _ Hr), (rep_capacity _ _ _ Hr), Ho. cbn [mbind result_bind].
  apply (build_ok _ _ []). intros v' Hr'. apply (intersection_loop_does r l v' [] Hr'). cbn. by eapply rep_bound.
Qed.
End sets.

(** ** [StaticVecIntoIter] *)

(** The iterator still holds [l]. *)
Definition iter_rep (it : IntoIter) l : Prop :=
  it_start it + length l = it_end it ∧ it_end it ≤ length (it_data it) ∧
  ∀ i x, l !! i = Some x → it_data it !! (it_start it + i) = Some (Some x).

Lemma into_iter_ok v l : rep N v l → ∃ it, into_iter v = Ok it ∧ iter_rep it l.
Proof.
  intros Hr. pose proof (rep_bound _ _ _ Hr). unfold into_iter. rewrite (rep_capacity _ _ _ Hr), (rep_len _ _ _ Hr).
  destruct (copy_out_ok N v l 0 (length l) Hr) as (m & Hm & (j & Hmj & Hj)); [done|]. rewrite Hm. cbn [mbind result_bind].
  rewrite drop_0, take_ge in * by done. injection Hmj as ->. eexists. split; [done|]. split_and!; cbn; [done|lens|].
  intros i x Hx. rewrite lookup_app_l by (rewrite length_fmap; by eapply lookup_lt_Some). by rewrite list_lookup_fmap, Hx.
Qed.
Lemma iter_rep_len it l : iter_rep it l → IntoIter_len it = Ok (length l).
Proof. intros (H1 & _ & _). unfold IntoIter_len. rewrite (proj2 (Nat.leb_le _ _)) by lia. f_equal. lia. Qed.
Lemma iter_rep_slice it l i n : iter_rep it l → i + n ≤ length l →
  mem_slice (it_data it) (it_start it + i) n = Ok (take n (drop i l)).
Proof.
  intros (H1 & H2 & H3) Hn. unfold mem_slice. rewrite (proj2 (Nat.leb_le _ _)) by lia.
  assert (take n (drop (it_start it + i) (it_data it)) = Some <$> take n (drop i l)) as ->; [|by rewrite mapM_id_Some].
  apply list_eq. intros k. rewrite list_lookup_fmap. destruct (decide (k < n)) as [Hk|Hk].
  - rewrite !lookup_take_lt, !lookup_drop by done. destruct (lookup_lt_is_Some_2 l (i + k)) as [x Hx]; [lia|].
    rewrite Hx, <- Nat.add_assoc. by apply H3.
  - by rewrite !lookup_take_ge by lia.
Qed.

Lemma IntoIter_next_ok it l ds : iter_rep it l →
  ∃ it', IntoIter_next (it, ds) = (Ok (head l), (it', ds)) ∧ iter_rep it' (tl l).
Proof.
  intros Hr. unfold IntoIter_next, get_iter. rewrite run_gets. cbn [fst]. rewrite (run_lift _ _ (length l)) by by apply iter_rep_len.
  destruct l as [|x l]; [by exists it|]. cbn [length]. rewrite (proj2 (Nat.eqb_neq _ _)) by lia.
  destruct Hr as (H1 & H2 & H3). cbn in H1. pose proof (H3 0 x eq_refl) as Hx. rewrite Nat.add_0_r in Hx.
  rewrite (run_lift _ _ x) by (unfold mem_read; by rewrite Hx). unfold set_start. rewrite run_modify. eexists. split; [done|].
  split_and!; cbn; [lia|done|]. intros i y Hy. rewrite <- Nat.add_assoc. by apply (H3 (1 + i)).
Qed.
Lemma IntoIter_next_back_ok it l ds : iter_rep it l →
  ∃ it', IntoIter_next_back (it, ds) = (Ok (list.last l), (it', ds)) ∧ iter_rep it' (take (length l - 1) l).
Proof.
  intros Hr. unfold IntoIter_next_back, get_iter. rewrite run_gets. cbn [fst]. rewrite (run_lift _ _ (length l)) by by apply iter_rep_len.
  destruct l as [|x l _] using rev_ind; [by exists it|]. rewrite length_app, last_snoc. cbn [length].
  rewrite (proj2 (Nat.eqb_neq _ _)) by lia. replace (length l + 1 - 1) with (length l) by lia. rewrite take_app_length.
  destruct Hr as (H1 & H2 & H3). rewrite length_app in H1. cbn in H1. unfold set_end. rewrite run_modify.
  rewrite (run_lift _ _ x).
  2: { unfold mem_read. replace (it_end it - 1) with (it_start it + length l) by lia. rewrite (H3 (length l) x); [done|]. by rewrite list_lookup_middle. }
  eexists. split; [done|]. split_and!; cbn; [lia|lia|]. intros i y Hy. apply H3. by apply lookup_app_l_Some.
Qed.
Lemma IntoIter_nth_ok it l n ds : iter_rep it l →
  ∃ it', IntoIter_nth n (it, ds) = (Ok (l !! n), (it', if n <? length l then ds ++ take n l else ds)) ∧
    iter_rep it' (if n <? length l then drop (S n) l else l).
Proof.
  intros Hr. unfold IntoIter_nth, get_iter. rewrite run_gets. cbn [fst]. rewrite (run_lift _ _ (length l)) by by apply iter_rep_len.
  destruct (Nat.leb_spec (length l) n) as [Hn|Hn].
  { rewrite (proj2 (Nat.ltb_ge _ _)), lookup_ge_None_2 by done. by exists it. }
  rewrite (proj2 (Nat.ltb_lt _ _)) by done. destruct (lookup_lt_is_Some_2 l n Hn) as [x Hx].
  assert (iter_drop (it_start it) (it_start it + n - it_start it) (it, ds) = (Ok tt, (it, ds ++ take n l))) as Hd.
  { unfold iter_drop, get_iter. rewrite run_gets. cbn [fst]. replace (it_start it + n - it_start it) with n by lia.
    rewrite <- (Nat.add_0_r (it_start it)), (run_lift _ _ (take n l)); [done|]. rewrite (iter_rep_slice it l 0 n Hr) by lia. by rewrite drop_0. }
  rewrite run_bind, Hd. unfold set_start. rewrite run_modify. destruct Hr as (H1 & H2 & H3).
  rewrite (run_lift _ _ x) by (unfold mem_read; by rewrite (H3 n x Hx)). rewrite Hx. eexists. split; [done|].
  split_and!; cbn; [rewrite length_drop; lia|done|]. intros i y Hy. rewrite lookup_drop in Hy.
  replace (it_start it + n + 1 + i) with (it_start it + (S n + i)) by lia. by apply H3.
Qed.
(** The drop of the iterator drops what it still holds. *)
Lemma IntoIter_drop_ok it l ds : iter_rep it l → IntoIter_drop (it, ds) = (Ok tt, (it, ds ++ l)).
Proof.
  intros Hr. unfold IntoIter_drop, get_iter. rewrite run_gets. cbn [fst]. rewrite (run_lift _ _ (length l)) by by apply iter_rep_len.
  destruct (Nat.eqb_spec (length l) 0) as [H0|H0]; [destruct l; [by rewrite app_nil_r|done]|].
  unfold iter_drop, get_iter. rewrite run_gets. cbn [fst]. rewrite <- (Nat.add_0_r (it_start it)).
  rewrite (run_lift _ _ l); [done|]. rewrite (iter_rep_slice it l 0 (length l) Hr) by done. by rewrite drop_0, take_ge.
Qed.
End more.
