(* ===== verification/StaticVecExamples.v ===== *)
(** * [StaticVec] on concrete vectors

    Witnesses of the theorems, for vectors whose length is a byte as in the structures
    of the file system, and the calls of the crate that do not do what they promise. *)

From S2P Require Import Prelude StaticVec StaticVecProofs StaticVecSpec StaticVecMore StaticVecMoreProofs.
Local Open Scope nat_scope.

#[local] Instance u8_length : LengthType := 255%Z.

(** A vector that holds [l], with unused slots *)
Definition vec_of (N : nat) (l : list Z) : StaticVec := mkVec ((Some <$> l) ++ replicate (N - length l) None) (length l).
Lemma vec_of_rep N l : length l ≤ N → rep N (vec_of N l) l.
Proof. intros Hl. exists (replicate (N - length l) None). split; [done|]. rewrite length_replicate. lia. Qed.

Definition demo_ops : list Op :=
  [Push 1%Z; Push 2%Z; Insert 1 3%Z; TryPush 4%Z; Push 5%Z; Drain (Included 1) (Excluded 3); Extend [6; 7; 8]%Z; Remove 9;
   SwapRemove 0; Retain (λ i x, Some (negb (x =? 6)%Z)); Append [9; 9; 7]%Z [None]; DedupBy Z.eqb; SplitOff 2; Clear].
Definition demo_results : list (result fault Out) * list Z * list Z := spec_all 4 demo_ops [].

Lemma static_vec_refines_lists_witness :
  demo_results.1.1 !! 5 = Some (Ok (OVec [3; 2]%Z)) ∧ demo_results.1.1 !! 4 = Some Panic ∧
  ∃ v0 v, StaticVec_new 4 = Ok v0 ∧ exec_all demo_ops (mkState v0 []) = (demo_results.1.1, mkState v demo_results.2) ∧
    Err UB ∉ demo_results.1.1 ∧ as_slice v = Ok demo_results.1.2 ∧ len v = length demo_results.1.2 ∧ capacity v = 4 ∧
    length demo_results.1.2 ≤ 4.
Proof.
  split; [reflexivity|]. split; [reflexivity|].
  apply (static_vec_refines_lists 4 demo_ops); [vm_compute; discriminate|repeat constructor; vm_compute; discriminate|reflexivity].
Defined.

(** The vector is full at the third push; the fourth value is dropped by the panic. *)
Definition demo_owning_ops : list (Op (T:=Z)) := [Push 1%Z; Push 2%Z; Push 3%Z; Insert 1 9%Z; Pop; Truncate 1; TryInsert 0 7%Z].

Lemma static_vec_ownership_witness :
  ∃ rs s v ds, exec_all demo_owning_ops (mkState (vec_of 3 []) []) = (rs, s) ∧ drop_vec s = (Ok tt, mkState v ds) ∧
    rs !! 3 = Some Panic ∧ ds ++ concat (taken_by <$> rs) ≡ₚ [1; 2; 3; 9; 7]%Z.
Proof.
  assert (Z.of_nat 3 ≤ L_MAX)%Z as HN by (vm_compute; discriminate).
  destruct (static_vec_ownership 3 demo_owning_ops HN) as (v0 & rs & s & v & ds & Hv0 & Hrun & Hd & _ & Hp);
    [repeat constructor|repeat constructor|].
  injection Hv0 as <-. exists rs, s, v, ds. split; [exact Hrun|]. split; [exact Hd|]. split.
  - assert ((exec_all demo_owning_ops (mkState (mkVec (new_data_uninit 3) 0) [])).1 !! 3 = Some Panic) as Hr by reflexivity.
    rewrite Hrun in Hr. exact Hr.
  - apply Hp. repeat constructor.
Defined.

Lemma drain_iter_spec_witness :
  ∃ fr bk rest v', drain_with (Included 1) (Excluded 4) [false; true] (mkState (vec_of 6 [1; 2; 3; 4; 5]%Z) []) =
      (Ok (fr, bk), mkState v' ([] ++ rest)) ∧
    rep 6 v' [1; 5]%Z ∧ [2; 3; 4]%Z = fr ++ rest ++ rev bk.
Proof.
  assert (Z.of_nat 6 ≤ L_MAX)%Z as HN by (vm_compute; discriminate).
  apply (drain_iter_spec 6 HN (vec_of 6 [1; 2; 3; 4; 5]%Z) [1; 2; 3; 4; 5]%Z
    (Included 1) (Excluded 4) 1 4 [false; true] []); [apply vec_of_rep; vm_compute; lia|reflexivity|reflexivity|vm_compute; lia].
Defined.

(** ** Where the crate fails *)

(** [extend] with a vector moves its values, and drops them when the vector goes out of
    scope: the value 1 is in the vector and has been dropped. [fs::mem_tree] merges two
    nodes in this way. *)
Lemma extend_vec_drops_twice :
  match extend_vec (vec_of 4 [1]%Z) (mkState (vec_of 4 []) []) with
  | (Ok _, s) => as_slice (self s) = Ok [1]%Z ∧ dropped s = [1]%Z
  | _ => False
  end.
Proof. vm_compute. done. Qed.
(** So does [extend] after [drain], for all that was drained. *)
Lemma extend_after_drain_drops_twice :
  match drain Unbounded Unbounded (mkState (vec_of 4 [1; 2; 3]%Z) []) with
  | (Ok w, _) =>
      match extend_vec w (mkState (vec_of 4 []) []) with
      | (Ok _, s) => as_slice (self s) = Ok [1; 2; 3]%Z ∧ dropped s = [1; 2; 3]%Z
      | _ => False
      end
  | _ => False
  end.
Proof. vm_compute. done. Qed.

(** [insert_many] compares the length of the tail with the capacity and forgets the
    values in front of [index]: it writes behind the array. *)
Lemma insert_many_overruns :
  (insert_many 6 4 [1; 2; 3; 4]%Z (mkState (vec_of 8 [0; 0; 0; 0; 0; 0; 0]%Z) [])).1 = Err UB.
Proof. vm_compute. done. Qed.
(** It also panics when the values fit exactly. *)
Lemma insert_many_refuses :
  (insert_many 0 2 [1; 2]%Z (mkState (vec_of 4 [3; 4]%Z) [])).1 = Panic.
Proof. vm_compute. done. Qed.

(** [from_iter] with a vector that is not full reads slots without a value. *)
Lemma from_iter_vec_uninitialised : from_iter_vec 4 (vec_of 4 [1]%Z) = Err UB.
Proof. vm_compute. done. Qed.

(** [copy_with_new_capacity] panics when the elements would fit. *)
Lemma copy_with_new_capacity_panics : copy_with_new_capacity 2 (vec_of 4 [1; 2]%Z) = Panic.
Proof. vm_compute. done. Qed.

(** [union] only removes duplicates that are neighbours. *)
Lemma union_keeps_duplicates :
  match union_ Z.eqb (vec_of 4 [1; 2; 1]%Z) (vec_of 4 [2; 2; 2; 3]%Z) with
  | Ok w => as_slice w = Ok [1; 2; 1; 3]%Z
  | _ => False
  end.
Proof. vm_compute. done. Qed.

(** [try_extend_from_slice] panics for slices that are longer than the length type,
    instead of returning its error. *)
Lemma try_extend_panics : (try_extend_from_slice (replicate 256 0%Z) (mkState (vec_of 4 []) [])).1 = Panic.
Proof. vm_compute. done. Qed.
