(* ===== verification/NvmeBlock.v ===== *)
(** * [wasabi-kernel/src/pci/nvme/block_device.rs]: the NVMe block device

    A read turns the caller's buffer into physical pages, builds a command per block
    group, submits the commands to the queue of [NvmeQueue], waits for them in batches
    and gives the pages of the PRP lists back. Those pages come from a
    [MappingsAllocator], which stands on the page and frame allocators and the page
    table of [PageAlloc] and [PageMapping].

    The locks and the log are left out. The [trace] of a device is not part of the
    source: it records in which order commands are submitted, the memory is shown to
    the controller, completions are seen and pages are given back. *)

From S2P Require Import Prelude Bits BlockDevice NvmePrp NvmeCommand WrappingValue NvmeQueue KernelMem RangeSet PageAlloc PageMapping.
Local Open Scope Z_scope.

(** ** [MappingsAllocator] *)

Definition MAX_REUSE_PRP_PAGE_COUNT : nat := Z.to_nat (pages_required_for Size4KiB (1024 * 1024)).

(** The list of mappings to reuse, and the kernel's allocators and page table *)
Record Mappings (PT : Type) := mkMappings {
  free_mappings : list (Page * PhysFrame);
  page_alloc : RangeSet;
  page_table : PT;
  frame_alloc : RangeSet;
}.
Arguments mkMappings {PT}.
Arguments free_mappings {PT}.
Arguments page_alloc {PT}.
Arguments page_table {PT}.
Arguments frame_alloc {PT}.

Section allocator.
Context `{Addresses} {PT : Type} `{Mapper PT}.
(** [Vec::try_reserve(1)] of a vector of this length *)
Context (can_reserve : nat → bool).

Local Abbreviation M := (M (Mappings PT)).

Definition set_free_mappings (l : list (Page * PhysFrame)) (s : Mappings PT) : Mappings PT :=
  mkMappings l (page_alloc s) (page_table s) (frame_alloc s).
Definition on_pages {E A} (m : Prelude.M RangeSet E A) : M E A := λ s,
  let '(r, p) := m (page_alloc s) in (r, mkMappings (free_mappings s) p (page_table s) (frame_alloc s)).
Definition on_table {E A} (m : Prelude.M (PT * RangeSet) E A) : M E A := λ s,
  let '(r, (t, f)) := m (page_table s, frame_alloc s) in
  (r, mkMappings (free_mappings s) (page_alloc s) t f).

Definition PRP_PAGE_FLAGS : Z := Z.lor (Z.lor NO_EXECUTE PRESENT) WRITABLE.

(** [pop] takes the last mapping. *)
Definition MappingsAllocator_allocate : M MemError (Page * PhysFrame) :=
  l ← gets free_mappings;
  match last l with
  | Some mapping =>
      _ ← modify (set_free_mappings (removelast l));
      mret mapping
  | None =>
      page ← on_pages (allocate_page Size4KiB);
      frame ← on_table (on_snd (FrameAllocator_alloc Size4KiB));
      _ ← on_table (mapM_err PageTableMap (map_kernel Size4KiB page frame PRP_PAGE_FLAGS));
      mret (page, frame)
  end.

Definition free_mapping (page : Page) (frame : PhysFrame) : M MemError unit :=
  '(free_frame, _) ← on_table (on_fst (mapM_err PageTableMap (PageTable_unmap Size4KiB page)));
  _ ← lift (assert_ (frame =? free_frame));
  _ ← on_pages (free_page Size4KiB page);
  on_table (on_snd (FrameAllocator_free Size4KiB frame)).

Definition MappingsAllocator_free (page : Page) (frame : PhysFrame) : M MemError unit :=
  l ← gets free_mappings;
  if bool_decide (length l < MAX_REUSE_PRP_PAGE_COUNT)%nat && can_reserve (length l)
  then modify (set_free_mappings (l ++ [(page, frame)]))
  else free_mapping page frame.

(** A mapping that cannot be freed is logged and leaked. *)
Fixpoint drop_mappings {E} (l : list (Page * PhysFrame)) : M E unit :=
  match l with
  | [] => mret tt
  | (page, frame) :: l => _ ← try (free_mapping page frame); drop_mappings l
  end.
Definition MappingsAllocator_drop {E} : M E unit :=
  l ← gets free_mappings;
  _ ← modify (set_free_mappings []);
  drop_mappings l.
End allocator.

(** ** Errors and the device *)

Inductive NvmeBlockError :=
  | NvmeController (e : NVMEControllerError)
  | NvmePoll (e : PollCompletionError)
  | CommandCompletionStatus (st : CommandStatusCode)
  | NvmeMem (e : MemError).
Inductive ReadBlockDeviceError :=
  | ReadBlockDevice (e : NvmeBlockError)
  | ReadAllocation.
Inductive WriteBlockDeviceError :=
  | WriteBlockDevice (e : NvmeBlockError)
  | NotEnoughData (expected size : Z)
  | WriteAllocation.

(** The capabilities of the controller the device looks at *)
Record ControllerCapabilities := mkCapabilities { memory_page_size : Z; lba_block_size : Z }.

Record NvmeBlockDevice := mkNvmeBlockDevice {
  start_lba : LBA;
  block_count : Z;
  controller_cap : ControllerCapabilities;
  lba_count_conversion_shift : Z;
}.

(** [u64::checked_shl] only checks the number of bits; [<<] does the same and panics. *)
Definition checked_shl (v sh : Z) : option Z :=
  if sh <? 64 then Some (Z.shiftl v sh mod 2 ^ 64) else None.
Definition is_multiple_of (a b : Z) : bool := if b =? 0 then a =? 0 else a mod b =? 0.

Definition map_lba {E} (self : NvmeBlockDevice) (input : LBA) : result E LBA :=
  expect (checked_add input (start_lba self) ≫= λ addr,
          checked_shl addr (lba_count_conversion_shift self) ≫= LBA_new).
Definition map_block_count {E} (self : NvmeBlockDevice) (count : Z) : result E Z :=
  expect (checked_shl count (lba_count_conversion_shift self)).

Definition new_with_offset {E} (BLOCK_SIZE block_count : Z) (first_lba : LBA)
    (controller_cap : ControllerCapabilities) : result E NvmeBlockDevice :=
  _ ← assert_ (is_multiple_of BLOCK_SIZE 512);
  _ ← assert_ (is_multiple_of BLOCK_SIZE (lba_block_size controller_cap));
  _ ← assert_ (lba_block_size controller_cap <=? BLOCK_SIZE);
  _ ← expect (checked_add block_count first_lba ≫= LBA_new);
  _ ← assert_ (memory_page_size controller_cap =? SIZE Size4KiB);
  _ ← assert_ (negb (lba_block_size controller_cap =? 0));
  let lba_conversion_quotient := BLOCK_SIZE / lba_block_size controller_cap in
  lba_conversion_shift ← ilog2 lba_conversion_quotient;
  shifted ← expect (checked_shl (lba_block_size controller_cap) lba_conversion_shift);
  _ ← assert_ (shifted =? BLOCK_SIZE);
  let this := mkNvmeBlockDevice first_lba block_count controller_cap lba_conversion_shift in
  start ← map_lba this (start_lba this);
  count ← map_block_count this block_count;
  _ ← expect (checked_add start count ≫= LBA_new);
  mret this.
Definition NvmeBlockDevice_new {E} (BLOCK_SIZE block_count : Z)
    (controller_cap : ControllerCapabilities) : result E NvmeBlockDevice :=
  new_with_offset BLOCK_SIZE block_count 0 controller_cap.
Definition NvmeBlockDevice_size (self : NvmeBlockDevice) : Z := block_count self.

(** ** The state of a device *)

(** A [&mut [u8]] *)
Record Slice := mkSlice { slice_addr : Z; slice_len : Z }.
(** [split_off_mut(..n)] *)
Definition split_off_mut (s : Slice) (n : Z) : option (Slice * Slice) :=
  if n <=? slice_len s
  then Some (mkSlice (slice_addr s) n, mkSlice (slice_addr s + n) (slice_len s - n)) else None.

Inductive Event :=
  | Submitted (ident : CommandIdentifier) (command : CommonCommand) (prp : Prp)
  | Flushed (mem : Memory)
  | Completed (ident : CommandIdentifier) (entry : CommonCompletionEntry)
  | Freed (page : Page) (frame : PhysFrame).

Record Device (PT : Type) := mkDev {
  io_queue : QState;
  prp_page_allocator : Mappings PT;
  memory : Memory;
  trace : list Event;
}.
Arguments mkDev {PT}.
Arguments io_queue {PT}.
Arguments prp_page_allocator {PT}.
Arguments memory {PT}.
Arguments trace {PT}.

(** [Mapper::translate_page] of the crate [x86_64]: the frame a page is mapped to *)
Class Translate (PT : Type) `{Mapper PT} := {
  translate_page : PT → Page → option PhysFrame;
  translate_page_spec pt p f flags :
    mapping pt Size4KiB p = Some (f, flags) → translate_page pt p = Some f;
}.

(** The local [read_idents] *)
Abbreviation Idents := (list (CommandIdentifier * Prp)).
Definition IDENTS_CAPACITY : nat := 64.

Section device.
Context `{BF : BitField} `{Addresses} {PT : Type} `{Mapper PT} `{!Translate PT}.
Context (env : nat → Hardware → Hardware) (rounds fuel : nat).
Context (can_reserve : nat → bool) (try_reserve : nat → result MemError unit).

Local Abbreviation M := (M (Device PT)).
Local Abbreviation MI := (Prelude.M (Device PT * Idents)).

Definition on_io {E A} (m : Prelude.M QState E A) : M E A := λ s,
  let '(r, q) := m (io_queue s) in (r, mkDev q (prp_page_allocator s) (memory s) (trace s)).
Definition on_mappings {E A} (m : Prelude.M (Mappings PT * Memory) E A) : M E A := λ s,
  let '(r, (a, mem)) := m (prp_page_allocator s, memory s) in (r, mkDev (io_queue s) a mem (trace s)).
Definition log {E} (e : Device PT → Event) : M E unit :=
  modify (λ s, mkDev (io_queue s) (prp_page_allocator s) (memory s) (trace s ++ [e s])).

(** *** [create_prp_form_buffer] *)

(** The pages of the iterator, at most [n]; only the first has the offset. *)
Fixpoint prp_entries {E} (n : nat) (it : PagesIter) (offset : Z) (pt : PT) : result E (list PrpEntry) :=
  match n with
  | O => mret []
  | S n =>
      '(page, it) ← PagesIter_next it;
      match page with
      | None => mret []
      | Some page =>
          frame ← expect (translate_page pt page);
          entry ← match PrpEntry_with_offset frame offset with Ok e => Ok e | _ => Panic end;
          rest ← prp_entries n it 0 pt;
          mret (entry :: rest)
      end
  end.

Definition create_prp_form_buffer (buffer : Slice) : M ReadBlockDeviceError Prp :=
  '(pages, offset) ← lift (Pages_from_ref Size4KiB (slice_addr buffer) (slice_len buffer));
  pt ← gets (λ s, page_table (prp_page_allocator s));
  entries ← lift (prp_entries (S (Z.to_nat (page_count pages))) (Pages_iter pages) offset pt);
  match entries with
  | [] => lift Panic
  | [single_entry] => mret (Prp_Entry single_entry)
  | [first; second] => mret (Prp_DoubleEntry first second)
  | entries =>
      prp_list ← on_mappings (mapM_err (λ e, ReadBlockDevice (NvmeMem e))
                   (PrpList_new MappingsAllocator_allocate try_reserve entries));
      mret (Prp_List prp_list)
  end.

(** *** Batches of commands *)

(** A page that cannot be freed is logged and leaked. *)
Fixpoint free_pages_of {E} (mappings : list (Page * PhysFrame)) : M E unit :=
  match mappings with
  | [] => mret tt
  | (page, frame) :: mappings =>
      _ ← log (λ _, Freed page frame);
      _ ← on_mappings (on_fst (try (MappingsAllocator_free can_reserve page frame)));
      free_pages_of mappings
  end.
Fixpoint free_prps {E} (idents : Idents) : M E unit :=
  match idents with
  | [] => mret tt
  | (_, prp) :: idents => _ ← free_pages_of (Prp_mappings prp); free_prps idents
  end.
Definition free_prp {E} : MI E unit :=
  idents ← gets snd;
  _ ← on_fst (free_prps idents);
  modify (λ s, (s.1, [])).

Fixpoint wait_for_idents (idents : Idents) : M ReadBlockDeviceError unit :=
  match idents with
  | [] => mret tt
  | (ident, _) :: idents =>
      entry ← on_io (mapM_err (λ e, ReadBlockDevice (NvmePoll e)) (wait_for env rounds fuel ident));
      _ ← log (λ _, Completed ident entry);
      st ← lift (status entry);
      if is_err st then lift (Err (ReadBlockDevice (CommandCompletionStatus st)))
      else wait_for_idents idents
  end.
Definition flush_io_queue : MI ReadBlockDeviceError unit :=
  _ ← on_fst (on_io (flush env));
  _ ← on_fst (log (λ s, Flushed (memory s)));
  idents ← gets snd;
  _ ← on_fst (wait_for_idents idents);
  free_prp.

(** *** Reading *)

(** The body of the loop: the command for a group is submitted and kept in [read_idents];
    the result is the rest of the buffer. *)
Definition submit_group (lba_size : Z) (block_group : BlockGroup) (remaining_buffer : Slice)
    : MI ReadBlockDeviceError Slice :=
  bytes ← lift (BlockGroup_bytes block_group lba_size);
  '(buffer, remaining_buffer) ← lift (expect (split_off_mut remaining_buffer bytes));
  prp ← on_fst (create_prp_form_buffer buffer);
  count ← lift (if BlockGroup_count block_group <=? u16_max
                then Ok (BlockGroup_count block_group) else Panic);
  read_command ← lift (create_read_command prp (bg_start block_group) count);
  read_ident ← on_fst (on_io (mapM_err (λ e, ReadBlockDevice (NvmeController e))
                 (submit env fuel read_command)));
  _ ← on_fst (log (λ _, Submitted read_ident read_command prp));
  read_idents ← gets snd;
  _ ← lift (assert_ (bool_decide (length read_idents < IDENTS_CAPACITY)%nat));
  _ ← modify (λ s, (s.1, read_idents ++ [(read_ident, prp)]));
  mret remaining_buffer.
Definition flush_if_full : MI ReadBlockDeviceError unit :=
  s ← gets id;
  full ← (if bool_decide (length s.2 = IDENTS_CAPACITY)%nat then mret true
          else lift (is_full_for_submission (queue (io_queue s.1))));
  if full : bool then flush_io_queue else mret tt.

(** The groups are the items of a lazy iterator, in the space of the NVMe device. *)
Fixpoint read_groups (lba_size : Z) (blocks : list (result ReadBlockDeviceError BlockGroup))
    (remaining_buffer : Slice) : MI ReadBlockDeviceError unit :=
  match blocks with
  | [] => flush_io_queue
  | block_group :: blocks =>
      block_group ← lift block_group;
      remaining_buffer ← submit_group lba_size block_group remaining_buffer;
      _ ← flush_if_full;
      read_groups lba_size blocks remaining_buffer
  end.

Definition read_blocks_internal (self : NvmeBlockDevice)
    (blocks : list (result ReadBlockDeviceError BlockGroup)) (buffer : Slice)
    : M ReadBlockDeviceError unit := λ s,
  let '(r, (s, _)) :=
    (inner_result ← try (read_groups (lba_block_size (controller_cap self)) blocks buffer);
     _ ← free_prp;
     match inner_result with
     | inl _ => mret tt
     | inr e => lift (Err e)
     end) (s, []) in (r, s).

Definition read_blocks_contig (self : NvmeBlockDevice) (start : LBA) (block_count : Z) (buffer : Slice)
    : M ReadBlockDeviceError unit :=
  start ← lift (map_lba self start);
  block_count ← lift (map_block_count self block_count);
  count ← lift (NonZero block_count);
  read_blocks_internal self [Ok (BlockGroup_with_count start count)] buffer.
Definition NvmeBlockDevice_read_block (self : NvmeBlockDevice) (lba : LBA) (buffer : Slice)
    : M ReadBlockDeviceError unit :=
  read_blocks_contig self lba 1 buffer.

(** A group in the space of the NVMe device *)
Definition map_group {E} (self : NvmeBlockDevice) (group : BlockGroup) : result E BlockGroup :=
  start ← map_lba self (bg_start group);
  count ← map_block_count self (BlockGroup_count group);
  count ← NonZero count;
  mret (BlockGroup_with_count start count).
Definition read_blocks (self : NvmeBlockDevice) (blocks : list BlockGroup) (buffer : Slice)
    : M ReadBlockDeviceError unit :=
  read_blocks_internal self (map_group self <$> blocks) buffer.

(** *** Writing, which is not implemented: every path ends in [todo!] or an assertion *)

Definition write_blocks_internal (self : NvmeBlockDevice)
    (blocks : list (result WriteBlockDeviceError BlockGroup)) (data : Slice)
    : M WriteBlockDeviceError unit :=
  lift Panic.
Definition write_blocks_contig (self : NvmeBlockDevice) (start : LBA) (data : Slice)
    : M WriteBlockDeviceError unit :=
  start ← lift (map_lba self start);
  let lba_size := lba_block_size (controller_cap self) in
  let block_count := counts_required_for lba_size (slice_len data) in
  bytes ← lift (mul_u64 block_count lba_size);
  _ ← lift (assert_ (bytes =? slice_len data));
  count ← lift (NonZero block_count);
  write_blocks_internal self [Ok (BlockGroup_with_count start count)] data.
Definition NvmeBlockDevice_write_block (BLOCK_SIZE : Z) (self : NvmeBlockDevice) (lba : LBA) (data : Slice)
    : M WriteBlockDeviceError unit :=
  _ ← lift (assert_ (slice_len data =? BLOCK_SIZE));
  write_blocks_contig self lba data.
Definition write_blocks (self : NvmeBlockDevice) (blocks : list BlockGroup) (data : Slice)
    : M WriteBlockDeviceError unit :=
  write_blocks_internal self (map_group self <$> blocks) data.
End device.
