(* ===== verification/NvmeMappingsProofs.v ===== *)
(** * Correctness of the [MappingsAllocator] of the NVMe block device

    The page table consists of the mappings it had before and those the allocator made,
    which it either handed out or keeps for reuse. Their pages and frames are all
    different, and none of the frames is free. *)

From stdpp Require Import propset.
From S2P Require Import Prelude KernelMem RangeSet RangeSetProofs PageAlloc PageAllocProofs PageMapping PageMappingProofs NvmeBlock.
Local Open Scope Z_scope.

(** ** The invariant *)

(** The mappings [m] and, on top of them, those of the list *)
Fixpoint with_mappings (l : list (Page * PhysFrame)) (m : mappings) : mappings :=
  match l with
  | [] => m
  | (p, f) :: l => map_page Size4KiB p (Some (f, PRP_PAGE_FLAGS)) (with_mappings l m)
  end.

#[export] Instance with_mappings_proper l : Proper (same_mappings ==> same_mappings) (with_mappings l).
Proof. induction l as [|[p f] l IH]; intros m m' Hm; [done|]. cbn. by rewrite (IH m m' Hm). Qed.

Lemma with_mappings_other l m sz p : (sz, p) ∉ (pair Size4KiB) <$> l.*1 → with_mappings l m sz p = m sz p.
Proof.
  induction l as [|[q f] l IH]; [done|]. cbn. intros [Hne Hin]%not_elem_of_cons.
  rewrite map_page_ne by done. by apply IH.
Qed.

Lemma with_mappings_fresh l m p : p ∉ l.*1 → with_mappings l m Size4KiB p = m Size4KiB p.
Proof. intros Hp. apply with_mappings_other. intros (q & [= <-] & Hq)%list_elem_of_fmap. done. Qed.

Lemma with_mappings_at l m p f : (p, f) ∈ l → NoDup l.*1 → with_mappings l m Size4KiB p = Some (f, PRP_PAGE_FLAGS).
Proof.
  induction l as [|[q g] l IH]; [by intros ?%not_elem_of_nil|]. cbn.
  intros [[= -> ->]|Hin]%elem_of_cons [Hq Hnd]%NoDup_cons; [apply map_page_eq|].
  rewrite map_page_ne; [by apply IH|]. intros [= <-]. apply Hq. apply list_elem_of_fmap. by exists (p, f).
Qed.

Lemma with_mappings_perm l k m : l ≡ₚ k → NoDup l.*1 → same_mappings (with_mappings l m) (with_mappings k m).
Proof.
  induction 1 as [|[p f] l k _ IH|[p f] [q g] l|l1 l2 l3 H12 IH1 _ IH2]; intros Hnd.
  - done.
  - apply NoDup_cons in Hnd as [_ Hnd]. cbn. by rewrite IH.
  - cbn. apply map_page_comm. cbn in Hnd. apply NoDup_cons in Hnd as [Hp _].
    intros [= <-]. apply Hp. left.
  - rewrite IH1 by done. apply IH2. by rewrite <- H12.
Qed.

Lemma with_mappings_remove p f l m : p ∉ l.*1 → m Size4KiB p = None →
  same_mappings (map_page Size4KiB p None (with_mappings ((p, f) :: l) m)) (with_mappings l m).
Proof.
  intros Hp Hm. cbn. rewrite map_page_twice. apply map_page_none. by rewrite with_mappings_fresh.
Qed.

(** An aligned page or frame that can be given back *)
Definition addr_ok (a : Z) : Prop := a mod 4096 = 0 ∧ 0 ≤ a ∧ a + 4096 ≤ u64_max + 1.

Section invariant.
Context {PT : Type} `{MP : Mapper PT}.
(** the mappings of the kernel without those of the allocator *)
Context (base : mappings).

(** [held] are the mappings that were handed out. *)
Record mappings_inv (held : list (Page * PhysFrame)) (a : Mappings PT) : Prop := {
  mi_pages : RangeSet_ok (page_alloc a);
  mi_frames : RangeSet_ok (frame_alloc a);
  mi_table : same_mappings (mapping (page_table a)) (with_mappings (free_mappings a ++ held) base);
  mi_base p : p ∈ (free_mappings a ++ held).*1 → base Size4KiB p = None;
  mi_nodup : NoDup (free_mappings a ++ held).*1;
  mi_nodup_frames : NoDup (free_mappings a ++ held).*2;
  mi_ok p f : (p, f) ∈ free_mappings a ++ held → addr_ok p ∧ addr_ok f;
  mi_not_free f : f ∈ (free_mappings a ++ held).*2 → ¬ page_free (frame_alloc a) f;
}.

(** The frames a mapping can still be handed out for *)
Definition owned (a : Mappings PT) : propset PhysFrame :=
  {[ f | f ∈ (free_mappings a).*2 ∨ page_free (frame_alloc a) f ]}.

(** Mappings that move between the list and the clients *)
Lemma mappings_inv_move l held held' a :
  l ++ held' ≡ₚ free_mappings a ++ held → mappings_inv held a → mappings_inv held' (set_free_mappings l a).
Proof.
  intros Hq []. split; cbn; try done; rewrite ?Hq; try done.
  - rewrite mi_table0. by apply with_mappings_perm.
  - intros p. rewrite Hq. apply mi_base0.
  - intros p f. rewrite Hq. apply mi_ok0.
  - intros f. rewrite Hq. apply mi_not_free0.
Qed.

Lemma mappings_inv_perm held held' a : held ≡ₚ held' → mappings_inv held a → mappings_inv held' a.
Proof.
  intros Hp Hi. replace a with (set_free_mappings (free_mappings a) a) by by destruct a.
  apply (mappings_inv_move _ held); [by rewrite Hp|done].
Qed.

(** Other free pages and frames *)
Lemma mappings_inv_sets held a pg fr t :
  mappings_inv held a → RangeSet_ok pg → frames_left (frame_alloc a) fr →
  same_mappings (mapping t) (mapping (page_table a)) →
  mappings_inv held (mkMappings (free_mappings a) pg t fr).
Proof.
  intros [] Hpg [Hfr Hsub] Ht. split; cbn; try done.
  - by rewrite Ht.
  - intros f Hf Hfree. by apply (mi_not_free0 f Hf), Hsub.
Qed.

Lemma owned_sets a pg fr t : frames_left (frame_alloc a) fr →
  owned (mkMappings (free_mappings a) pg t fr) ⊆ owned a.
Proof.
  intros [_ Hsub] f [Hf|Hf]%elem_of_PropSet; apply elem_of_PropSet; [by left|right; by apply Hsub].
Qed.
End invariant.

(** ** The operations *)

Section operations.
Context `{AD : Addresses} {PT : Type} `{MP : Mapper PT} (can_reserve : nat → bool) (base : mappings).

Local Abbreviation mappings_inv := (mappings_inv base).

Lemma runs_on_pages {E A} (m : M RangeSet E A) pan (err : E → Mappings PT → Prop) (post : A → Mappings PT → Prop) a :
  runs m pan (λ e s, err e (mkMappings (free_mappings a) s (page_table a) (frame_alloc a)))
    (λ x s, post x (mkMappings (free_mappings a) s (page_table a) (frame_alloc a))) (page_alloc a) →
  runs (on_pages m) pan err post a.
Proof. unfold runs, on_pages. by destruct (m (page_alloc a)) as [[| | |] ?]. Qed.
Lemma runs_on_table {E A} (m : M (PT * RangeSet) E A) pan (err : E → Mappings PT → Prop)
    (post : A → Mappings PT → Prop) a :
  runs m pan (λ e s, err e (mkMappings (free_mappings a) (page_alloc a) s.1 s.2))
    (λ x s, post x (mkMappings (free_mappings a) (page_alloc a) s.1 s.2)) (page_table a, frame_alloc a) →
  runs (on_table m) pan err post a.
Proof. unfold runs, on_table. by destruct (m (page_table a, frame_alloc a)) as [[| | |] [? ?]]. Qed.

(** When an allocation panics: a set of free pages or frames has no slot left or reaches
    to the end of the addresses. *)
Definition allocate_panics (a : Mappings PT) : Prop :=
  may_panic (2 ^ 47) (page_alloc a) ∨ frames_panic (frame_alloc a).
(** When giving a mapping back panics: there is no slot left, or the frame is the last
    of the 64-bit addresses. *)
Definition free_panics (f : PhysFrame) (a : Mappings PT) : Prop :=
  room (page_alloc a) = 0%nat ∨ room (frame_alloc a) = 0%nat ∨ u64_max < f + 4096.

Lemma taken_page p rs rs' : p mod SIZE Size4KiB = 0 → takes [(p, SIZE Size4KiB)] rs rs' →
  addr_ok p ∧ page_free rs p ∧ ¬ page_free rs' p.
Proof.
  intros Hp [_ Ha Hf _]. apply Forall_cons in Ha as [(_ & _ & H1 & _ & H2) _]. cbn in *.
  split; [done|]. apply Hf; [done|]. apply Exists_cons. left. unfold in_area. cbn. lia.
Qed.

(** A new mapping *)
Lemma mappings_inv_new held a p f pg fr t :
  mappings_inv held a → RangeSet_ok pg → addr_ok p → addr_ok f →
  mapping (page_table a) Size4KiB p = None → page_free (frame_alloc a) f → ¬ page_free fr f →
  frames_left (frame_alloc a) fr →
  same_mappings (mapping t) (map_page Size4KiB p (Some (f, PRP_PAGE_FLAGS)) (mapping (page_table a))) →
  mappings_inv (held ++ [(p, f)]) (mkMappings (free_mappings a) pg t fr).
Proof.
  intros [] Hpg Hp Hf Hnone Hfree Hnot [Hok Hsub] Ht.
  assert (p ∉ (free_mappings a ++ held).*1) as Hnew.
  { intros ([q g] & Hq & Hin)%list_elem_of_fmap. cbn in Hq. subst q.
    pose proof (mi_table0 Size4KiB p) as Hm. rewrite (with_mappings_at _ _ _ _ Hin) in Hm by done. congruence. }
  assert (base Size4KiB p = None) as Hbase.
  { pose proof (mi_table0 Size4KiB p) as Hm. rewrite with_mappings_fresh in Hm by done. congruence. }
  assert (free_mappings a ++ held ++ [(p, f)] ≡ₚ (p, f) :: free_mappings a ++ held) as Hq.
  { by rewrite app_assoc, (Permutation_app_comm _ [(p, f)]). }
  assert (f ∉ (free_mappings a ++ held).*2) as Hnewf by (intros H; by apply (mi_not_free0 f)).
  split; cbn [page_alloc page_table frame_alloc free_mappings]; rewrite ?Hq; try done.
  - rewrite Ht, (with_mappings_perm _ _ _ Hq), mi_table0; [done|]. rewrite Hq. cbn. by constructor.
  - intros q. rewrite Hq. cbn. intros [->|?]%elem_of_cons; [done|by apply mi_base0].
  - cbn. by constructor.
  - cbn. by constructor.
  - intros q g. rewrite Hq. intros [[= -> ->]|?]%elem_of_cons; [done|by apply mi_ok0].
  - intros g. rewrite Hq. cbn. intros [->|Hg]%elem_of_cons; [done|]. intros Hgf%Hsub. by apply (mi_not_free0 g).
Qed.

Lemma runs_allocate_mapping held a : mappings_inv held a →
  runs MappingsAllocator_allocate (allocate_panics a)
    (λ _ a', mappings_inv held a' ∧ owned a' ⊆ owned a)
    (λ pf a', mappings_inv (held ++ [pf]) a' ∧ pf.2 ∈ owned a ∧ pf.2 ∉ owned a' ∧ owned a' ⊆ owned a) a.
Proof.
  intros Hi. unfold MappingsAllocator_allocate. apply runs_bind, runs_gets.
  destruct (last (free_mappings a)) as [[p f]|] eqn:Hlast.
  - apply last_Some in Hlast as [l Hl]. rewrite Hl, removelast_last. unfold runs. cbn.
    assert (NoDup ((l ++ [(p, f)]) ++ held).*2) as Hnd by (rewrite <- Hl; apply Hi).
    split_and!.
    + apply (mappings_inv_move _ l held _ a); [|exact Hi]. rewrite Hl, <- app_assoc. apply Permutation_app_head, Permutation_app_comm.
    + apply elem_of_PropSet. left. rewrite Hl, fmap_app. apply elem_of_app. right. left.
    + intros [Hin|Hin]%elem_of_PropSet; cbn in Hin.
      * rewrite <- app_assoc, fmap_app in Hnd. apply NoDup_app in Hnd as (_ & Hd & _). apply (Hd f Hin).
        rewrite fmap_app. left.
      * apply (mi_not_free _ _ _ Hi f); [|done]. rewrite Hl, !fmap_app. apply elem_of_app. left.
        apply elem_of_app. right. left.
    + intros g [Hg|Hg]%elem_of_PropSet; apply elem_of_PropSet; cbn in Hg; [left|by right].
      rewrite Hl, fmap_app. apply elem_of_app. by left.
  - apply last_None in Hlast.
    assert (∀ pg t fr, RangeSet_ok pg → frames_left (frame_alloc a) fr →
      same_mappings (mapping t) (mapping (page_table a)) →
      mappings_inv held (mkMappings (free_mappings a) pg t fr) ∧
      owned (mkMappings (free_mappings a) pg t fr) ⊆ owned a) as Hsets.
    { intros. split; [by apply mappings_inv_sets|by apply owned_sets]. }
    pose proof (frames_left_refl _ (mi_frames _ _ _ Hi)) as Hrefl.
    apply runs_bind, runs_on_pages.
    eapply runs_mono; [apply runs_allocate_page, Hi|by left| |].
    { intros e pg [_ ->]. apply Hsets; [apply Hi|done|done]. }
    intros p pg [Hp Htp]. destruct (taken_page _ _ _ Hp Htp) as (Hpok & _).
    apply runs_bind, runs_on_table, runs_on_snd. cbn [page_table frame_alloc].
    eapply runs_mono; [apply runs_frame_alloc_pan, Hi|by right| |].
    { intros e fr [_ ->]. apply Hsets; [apply Htp|done|done]. }
    intros f fr [Hf Htf]. destruct (taken_page _ _ _ Hf Htf) as (Hfok & Hfree & Hnot).
    pose proof (takes_left _ _ _ Htf) as Hleft.
    apply runs_bind, runs_on_table, runs_mapM_err. cbn [page_table frame_alloc fst snd page_alloc free_mappings].
    destruct (mapping (page_table a) Size4KiB p) as [[old fl]|] eqn:Hold.
    + unfold map_kernel. apply runs_mapM_err. unfold runs. erewrite map_to_mapped by done.
      apply Hsets; [apply Htp|done|done].
    + eapply runs_mono; [by apply (runs_map_kernel Size4KiB p f PRP_PAGE_FLAGS (page_table a) fr fr);
        [apply frames_left_refl, Hleft|]| | |].
      * intros Hpan. right. by eapply frames_panic_left.
      * intros e [t fr'] (_ & Hsame & Hl2). apply Hsets; [apply Htp| |done]. by eapply frames_left_trans.
      * intros [] [t fr'] (Hsame & Hl2). cbn [fst snd] in *.
        assert (frames_left (frame_alloc a) fr') as Hl3 by by eapply frames_left_trans.
        assert (¬ page_free fr' f) as Hnot' by (intros H; by apply Hnot, Hl2).
        apply runs_ret. split_and!.
        -- by apply mappings_inv_new; try done; apply Htp.
        -- apply elem_of_PropSet. by right.
        -- intros [H|H]%elem_of_PropSet; cbn in H; [|done]. rewrite Hlast in H. by apply not_elem_of_nil in H.
        -- by apply owned_sets.
Qed.

Lemma runs_frame_free_pan f fr : RangeSet_ok fr → f mod 4096 = 0 → 0 ≤ f →
  runs (FrameAllocator_free Size4KiB f) (room fr = 0%nat ∨ u64_max < f + 4096) (λ _ _, False)
    (λ _ fr', gives [(f, SIZE Size4KiB)] fr fr') fr.
Proof.
  intros Hok Hm Hp. destruct (decide (f + 4096 ≤ u64_max)).
  - eapply runs_mono; [by apply (runs_phys_free Size4KiB f (λ _ _, False))|by left|done|done].
  - unfold FrameAllocator_free, PhysAllocator_free, runs, add_u64. cbn.
    destruct (Z.leb_spec (f + 4096) u64_max); [lia|]. cbn. right. lia.
Qed.

Lemma runs_free_mapping p f held a err : mappings_inv ((p, f) :: held) a →
  runs (free_mapping p f) (free_panics f a) err
    (λ _ a', mappings_inv held a' ∧ owned a' ≡ owned a ∪ {[f]}) a.
Proof.
  intros Hi. destruct (mi_ok _ _ _ Hi p f) as [Hpok Hfok]; [apply elem_of_app; right; left|].
  destruct Hpok as (Hp1 & Hp2 & Hp3), Hfok as (Hf1 & Hf2 & Hf3).
  assert (free_mappings a ++ (p, f) :: held ≡ₚ (p, f) :: free_mappings a ++ held) as Hq
    by by rewrite Permutation_middle.
  unfold free_mapping. apply runs_bind, runs_on_table, runs_on_fst, runs_mapM_err. cbn [fst snd].
  destruct (unmap_spec Size4KiB p (page_table a) f PRP_PAGE_FLAGS) as (t & Ht & Hm).
  { rewrite (mi_table _ _ _ Hi). apply with_mappings_at; [rewrite Hq; left|apply Hi]. }
  { done. }
  unfold PageTable_unmap. apply runs_mapM_err. unfold runs at 1. rewrite Ht. cbn beta iota.
  apply runs_bind, runs_assert; [intros _|by rewrite Z.eqb_refl].
  apply runs_bind, runs_on_pages. cbn [page_alloc].
  eapply runs_mono; [by apply (runs_free_page Size4KiB p (λ _ _, False)); [apply Hi|..]|by left|done|].
  intros [] pg Hpg. apply runs_on_table, runs_on_snd. cbn [page_alloc frame_alloc free_mappings page_table].
  eapply runs_mono; [by apply (runs_frame_free_pan f); [apply Hi|..]| |done|].
  { intros [?|?]; [by right; left|by right; right]. }
  intros [] fr [Hfr Hfree]. cbn [fst snd]. destruct Hi.
  assert (∀ g, page_free fr g ↔ page_free (frame_alloc a) g ∨ g = f) as Hfree'.
  { intros g. rewrite Hfree. unfold in_areas. rewrite Exists_cons, Exists_nil. unfold in_area. cbn [fst snd].
    assert (page_aligned g ∧ f ≤ g < f + SIZE Size4KiB ↔ g = f); [|tauto].
    unfold page_aligned. cbn [SIZE]. split; [|intros ->; split; [done|lia]].
    intros [Hg ?]. Z.to_euclidean_division_equations. lia. }
  rewrite Hq in mi_nodup0, mi_nodup_frames0. cbn in mi_nodup0, mi_nodup_frames0.
  apply NoDup_cons in mi_nodup0 as [Hpn Hnd], mi_nodup_frames0 as [Hfn Hndf].
  assert (∀ x, x ∈ free_mappings a ++ held → x ∈ free_mappings a ++ (p, f) :: held) as Hsub
    by (intros x Hx; rewrite Hq; by right).
  assert (∀ (B : Type) (g : Page * PhysFrame → B) x, x ∈ g <$> free_mappings a ++ held →
            x ∈ g <$> free_mappings a ++ (p, f) :: held) as Hsub'.
  { intros B g x (y & -> & Hy)%list_elem_of_fmap. apply list_elem_of_fmap. by exists y; auto. }
  split; [split; cbn [page_alloc frame_alloc page_table free_mappings]; try done|].
  - apply Hpg.
  - intros sz q. rewrite Hm. revert sz q. change (same_mappings (map_page Size4KiB p None (mapping (page_table a)))
      (with_mappings (free_mappings a ++ held) base)).
    rewrite mi_table0, (with_mappings_perm _ _ _ Hq) by (rewrite Hq; by constructor).
    apply with_mappings_remove; [done|]. apply mi_base0. rewrite Hq. left.
  - intros q Hq'. apply mi_base0. by apply (Hsub' _ fst).
  - intros q g Hin. by apply mi_ok0, Hsub.
  - intros g Hin [Hg| ->]%Hfree'; [|done]. apply (mi_not_free0 g); [by apply (Hsub' _ snd)|done].
  - intros g. unfold owned. cbn. rewrite elem_of_union, !elem_of_PropSet, elem_of_singleton, Hfree'. tauto.
Qed.

Lemma runs_free_held p f held held' a err : held ≡ₚ (p, f) :: held' →
  mappings_inv held a →
  runs (MappingsAllocator_free can_reserve p f) (free_panics f a) err
    (λ _ a', mappings_inv held' a' ∧ owned a' ≡ owned a ∪ {[f]}) a.
Proof.
  intros Hp Hi. apply (mappings_inv_perm _ _ _ _ Hp) in Hi. unfold MappingsAllocator_free.
  apply runs_bind, runs_gets. destruct (bool_decide _ && _); [|by apply runs_free_mapping].
  apply runs_modify. split.
  - eapply mappings_inv_move; [|exact Hi]. by rewrite <- app_assoc.
  - intros g. unfold owned. cbn. rewrite elem_of_union, !elem_of_PropSet, elem_of_singleton, fmap_app, elem_of_app.
    cbn. rewrite list_elem_of_singleton. tauto.
Qed.

(** A loop of frees panics when one of them does, in the state the others left. *)
Definition drop_panics (l : list (Page * PhysFrame)) (a : Mappings PT) : Prop :=
  ∃ l1 p f l2 a', l = l1 ++ (p, f) :: l2 ∧ drop_mappings (E:=MemError) l1 a = (Ok tt, a') ∧ free_panics f a'.

Lemma runs_drop_mappings l held : ∀ a, mappings_inv (l ++ held) a →
  runs (drop_mappings (E:=MemError) l) (drop_panics l a) (λ _ _, False)
    (λ _ a', mappings_inv held a' ∧ free_mappings a' = free_mappings a ∧
       owned a' ≡ owned a ∪ list_to_set l.*2) a.
Proof.
  induction l as [|[p f] l IH]; intros a Hi; cbn [drop_mappings app fmap list_fmap list_to_set].
  { apply runs_ret. split; [done|]. split; [done|]. set_solver. }
  pose proof (runs_free_mapping p f (l ++ held) a (λ _ _, False) Hi) as Hfree.
  assert (free_mappings (free_mapping p f a).2 = free_mappings a) as Hsame.
  { unfold free_mapping, on_table, on_pages. cbn. unfold mbind, M_bind.
    repeat (case_match; simplify_eq; cbn; try done). }
  unfold runs in *. cbn [drop_mappings]. rewrite run_bind. unfold try.
  destruct (free_mapping p f a) as [[[]|e| |] a1] eqn:Heq; [|done| |done].
  - destruct Hfree as [Hi1 Ho1]. specialize (IH a1 Hi1). unfold runs in IH. cbn [snd] in Hsame.
    destruct (drop_mappings l a1) as [[[]|e| |] a2]; [|done| |done].
    + destruct IH as (Hi2 & Hf2 & Ho2). split; [done|]. split; [congruence|]. rewrite Ho2, Ho1. set_solver.
    + destruct IH as (l1 & q & g & l2 & a' & -> & Hrun & Hp). exists ((p, f) :: l1), q, g, l2, a'.
      split; [done|]. split; [|done]. cbn [drop_mappings]. rewrite run_bind. unfold try. by rewrite Heq.
  - exists [], p, f, l, a. by split.
Qed.

(** ** Runs *)

(** The calls of the clients, which hold [held]: an allocation, which may fail, and
    giving back a mapping they hold *)
Inductive alloc_step : list (Page * PhysFrame) * Mappings PT → list (Page * PhysFrame) * Mappings PT → Prop :=
  | step_allocate held a pf a' :
      MappingsAllocator_allocate a = (Ok pf, a') → alloc_step (held, a) (held ++ [pf], a')
  | step_allocate_failed held a e a' :
      MappingsAllocator_allocate a = (Err e, a') → alloc_step (held, a) (held, a')
  | step_free held held' p f a r a' :
      held ≡ₚ (p, f) :: held' → MappingsAllocator_free can_reserve p f a = (r, a') →
      r ≠ Panic → alloc_step (held, a) (held', a').

(** What the steps keep: the invariant, and that frames only come from the start *)
Definition run_inv (a0 : Mappings PT) (s : list (Page * PhysFrame) * Mappings PT) : Prop :=
  mappings_inv s.1 s.2 ∧ (∀ f, f ∈ owned s.2 ∨ f ∈ s.1.*2 → f ∈ owned a0).

Lemma alloc_step_inv a0 s s' : alloc_step s s' → run_inv a0 s → run_inv a0 s'.
Proof.
  intros Hstep [Hi Ho]. destruct Hstep as [held a pf a' Heq|held a e a' Heq|held held' p f a r a' Hp Heq Hr];
    cbn [fst snd] in *.
  - pose proof (runs_allocate_mapping held a Hi) as H. unfold runs in H. rewrite Heq in H.
    destruct H as (Hi' & Hin & _ & Hsub). split; [done|]. cbn [fst snd]. intros f [Hf|Hf]; [by apply Ho; left; apply Hsub|].
    rewrite fmap_app in Hf. apply elem_of_app in Hf as [Hf| ->%list_elem_of_singleton]; apply Ho; [by right|by left].
  - pose proof (runs_allocate_mapping held a Hi) as H. unfold runs in H. rewrite Heq in H.
    destruct H as (Hi' & Hsub). split; [done|]. cbn [fst snd]. intros f [Hf|Hf]; apply Ho; [left; by apply Hsub|by right].
  - pose proof (runs_free_held p f held held' a (λ _ _, False) Hp Hi) as H. unfold runs in H. rewrite Heq in H.
    destruct r as [[]|e| |]; [|done..]. destruct H as (Hi' & Hsub). split; [done|]. cbn [fst snd].
    intros g [Hg|Hg]; apply Ho; [rewrite Hsub in Hg; apply elem_of_union in Hg as [Hg| ->%elem_of_singleton]|].
    + by left.
    + right. rewrite Hp. left.
    + right. rewrite Hp. by right.
Qed.

Lemma alloc_run_inv a0 s s' : rtc alloc_step s s' → run_inv a0 s → run_inv a0 s'.
Proof. induction 1; [done|]. intros. by eauto using alloc_step_inv. Qed.
End operations.

Section spec.
Context `{AD : Addresses} {PT : Type} `{MP : Mapper PT} (can_reserve : nat → bool).

(** C28: however the clients of a fresh allocator allocate mappings and give them back, the
    page table holds exactly the mappings it had and those that are handed out or kept for
    reuse. All of these have pages and frames of their own; the pages were not mapped
    before, and the frames were free and are no longer. Dropping the allocator unmaps
    exactly the mappings it keeps and frees their frames; it panics only when the sets of
    free addresses cannot take them back. *)
Theorem mappings_allocator_spec (a0 a : Mappings PT) (held : list (Page * PhysFrame)) :
  RangeSet_ok (page_alloc a0) → RangeSet_ok (frame_alloc a0) → free_mappings a0 = [] →
  rtc (alloc_step can_reserve) ([], a0) (held, a) →
  let made := free_mappings a ++ held in
  same_mappings (mapping (page_table a)) (with_mappings made (mapping (page_table a0))) ∧
  NoDup made.*1 ∧ NoDup made.*2 ∧
  (∀ p f, (p, f) ∈ made → mapping (page_table a0) Size4KiB p = None ∧
     page_free (frame_alloc a0) f ∧ ¬ page_free (frame_alloc a) f) ∧
  runs (MappingsAllocator_drop (E:=MemError)) (drop_panics (free_mappings a) (set_free_mappings [] a)) (λ _ _, False)
    (λ _ a', free_mappings a' = [] ∧
       same_mappings (mapping (page_table a')) (with_mappings held (mapping (page_table a0))) ∧
       ∀ f, f ∈ (free_mappings a).*2 → page_free (frame_alloc a') f) a.
Proof.
  intros Hpg Hfr Hnil Hrun.
  destruct (alloc_run_inv can_reserve (mapping (page_table a0)) a0 _ _ Hrun) as [Hi Ho].
  { split; cbn [fst snd]; [|by intros f [Hf|Hf%not_elem_of_nil]].
    split; rewrite ?Hnil; cbn; try done; [by intros p ?%not_elem_of_nil|constructor|constructor
      |by intros p f ?%not_elem_of_nil|by intros f ?%not_elem_of_nil]. }
  cbn [fst snd] in *. split_and!; [apply Hi..| |].
  - intros p f Hin.
    assert (f ∈ (free_mappings a ++ held).*2) as Hf by (apply list_elem_of_fmap; by exists (p, f)).
    split; [|split; [|by apply (mi_not_free _ _ _ Hi)]].
    + apply (mi_base _ _ _ Hi). apply list_elem_of_fmap. by exists (p, f).
    + assert (f ∈ owned a0) as [Hc|Hc]%elem_of_PropSet; [|by rewrite Hnil in Hc; apply not_elem_of_nil in Hc|done].
      apply Ho. rewrite fmap_app in Hf. apply elem_of_app in Hf as [Hf|Hf]; [left|by right].
      apply elem_of_PropSet. by left.
  - unfold MappingsAllocator_drop. apply runs_bind, runs_gets, runs_bind, runs_modify.
    eapply runs_mono; [apply (runs_drop_mappings (mapping (page_table a0)) _ held)|done|done|].
    { by apply (mappings_inv_move _ _ held). }
    intros [] a' (Hi' & Hnil' & Howned). cbn in Hnil'. split; [done|]. split.
    + pose proof (mi_table _ _ _ Hi') as Ht. by rewrite Hnil' in Ht.
    + intros f Hf. assert (f ∈ owned a') as [Hc|Hc]%elem_of_PropSet; [|by rewrite Hnil' in Hc; apply not_elem_of_nil in Hc|done].
      rewrite Howned. apply elem_of_union. right. by apply elem_of_list_to_set.
Qed.
End spec.

(** ** A run: two allocations, of which the first is given back and kept for reuse *)

Definition demo_mappings : Mappings mappings := mkMappings [] demo_free demo_table demo_free.
Definition demo_first : Mappings mappings := (MappingsAllocator_allocate demo_mappings).2.
Definition demo_second : Mappings mappings := (MappingsAllocator_allocate demo_first).2.
Definition demo_kept : Mappings mappings :=
  (MappingsAllocator_free (λ _, true) 0x2000 0x2000 demo_second).2.

Lemma call_result {S E A} (m : M S E A) s r : (m s).1 = r → m s = (r, (m s).2).
Proof. intros <-. by destruct (m s). Qed.

Lemma demo_mappings_run : rtc (alloc_step (λ _, true)) ([], demo_mappings) ([(0x3000, 0x4000)], demo_kept).
Proof.
  eapply rtc_l; [apply (step_allocate _ [] _ (0x2000, 0x2000)), call_result; vm_compute; reflexivity|].
  eapply rtc_l; [apply (step_allocate _ _ _ (0x3000, 0x4000)), call_result; vm_compute; reflexivity|].
  apply rtc_once. apply (step_free _ _ _ 0x2000 0x2000 _ (Ok tt)); [done| |done].
  apply call_result. vm_compute. reflexivity.
Qed.

Lemma mappings_allocator_spec_witness :
  free_mappings demo_kept = [(0x2000, 0x2000)] ∧
  mapping (page_table demo_kept) Size4KiB 0x3000 = Some (0x4000, PRP_PAGE_FLAGS) ∧
  runs (MappingsAllocator_drop (E:=MemError)) (drop_panics [(0x2000, 0x2000)] (set_free_mappings [] demo_kept))
    (λ _ _, False)
    (λ _ a', free_mappings a' = [] ∧
       same_mappings (mapping (page_table a')) (with_mappings [(0x3000, 0x4000)] demo_table) ∧
       ∀ f, f ∈ [0x2000] → page_free (frame_alloc a') f) demo_kept.
Proof.
  destruct (mappings_allocator_spec (λ _, true) demo_mappings demo_kept [(0x3000, 0x4000)]
              demo_free_ok demo_free_ok eq_refl demo_mappings_run) as (Ht & _ & _ & _ & Hdrop).
  assert (free_mappings demo_kept = [(0x2000, 0x2000)]) as Hkept by (vm_compute; reflexivity).
  split; [exact Hkept|]. rewrite Hkept in Hdrop, Ht. split; [|exact Hdrop].
  rewrite (Ht Size4KiB 0x3000). reflexivity.
Defined.
