(* ===== verification/NvmeBlockProofs.v ===== *)
(** * Correctness of the NVMe block device

    The pages a command names are the pages of the buffer, byte for byte; a read that
    succeeds submitted one command per group, showed the controller PRP lists that were
    complete, saw every command succeed and gave the pages of the lists back only then. *)

From stdpp Require Import propset.
From S2P Require Import Prelude Bits BlockDevice NvmePrp NvmeCommand WrappingValue NvmeQueue NvmeQueueProofs NvmeQueueSpec KernelMem RangeSet RangeSetProofs PageAlloc PageAllocProofs PageMapping PageMappingProofs NvmeBlock NvmeMappingsProofs.
Local Open Scope Z_scope.

(** ** What the controller makes of a command

    The first entry has an offset; from it and the number of bytes the controller knows
    how many pages there are. The second entry is the second of two pages, and otherwise
    points to the list of the remaining ones. *)
Definition controller_pages (mem : Memory) (e1 e2 : PrpEntry) (len : Z) : option (list PrpEntry) :=
  match Z.to_nat (counts_required_for PAGE_SIZE (e1 mod PAGE_SIZE + len)) with
  | O => Some []
  | 1%nat => Some [e1]
  | 2%nat => Some [e1; e2]
  | n => rest ← prp_read n mem e2 (n - 1); Some (e1 :: rest)
  end.

(** The address of the byte [k] of the transfer *)
Definition dma_address (pages : list PrpEntry) (k : Z) : option Z :=
  e1 ← head pages;
  let pos := e1 mod PAGE_SIZE + k in
  e ← pages !! Z.to_nat (pos / PAGE_SIZE);
  Some (e - e mod PAGE_SIZE + pos mod PAGE_SIZE).

(** The physical address of a virtual one *)
Definition phys_addr (m : mappings) (v : Z) : option Z :=
  '(f, _) ← m Size4KiB (v - v mod PAGE_SIZE);
  Some (f + v mod PAGE_SIZE).

(** The controller transfers to the buffer, byte for byte. *)
Definition transfers_to (m : mappings) (mem : Memory) (prp : Prp) (buf : Slice) : Prop :=
  ∃ pages, controller_pages mem (Prp_entry_1 prp) (Prp_entry_2 prp) (slice_len buf) = Some pages ∧
    ∀ k, 0 ≤ k < slice_len buf →
      ∃ a, dma_address pages k = Some a ∧ phys_addr m (slice_addr buf + k) = Some a.

(** ** The pages of a buffer *)

(** The pages from [start] on are mapped to these frames. *)
Definition mapped_to `{Addresses} (m : mappings) (start : Z) (fs : list PhysFrame) : Prop :=
  ∀ i f, fs !! i = Some f →
    let page := start + Z.of_nat i * PAGE_SIZE in
    page ≤ u64_max ∧ (∀ E, VirtAddr_new (E:=E) page = Ok page) ∧
    f mod PAGE_SIZE = 0 ∧ 0 ≤ f ∧ ∃ flags, m Size4KiB page = Some (f, flags).

(** A buffer the device can use: it is mapped, starts at a multiple of 4, and the pages
    [Pages::from_ref] finds are those it covers. *)
Record buffer_ok `{Addresses} (m : mappings) (buf : Slice) (fs : list PhysFrame) : Prop := {
  bo_addr : 0 ≤ slice_addr buf;
  bo_len : 0 < slice_len buf;
  bo_aligned : slice_addr buf mod 4 = 0;
  bo_exact : slice_addr buf mod PAGE_SIZE = 0 ∨ slice_len buf mod PAGE_SIZE = 0 ∨
    PAGE_SIZE < slice_addr buf mod PAGE_SIZE + slice_len buf mod PAGE_SIZE;
  bo_count : Z.of_nat (length fs) = counts_required_for PAGE_SIZE (slice_addr buf mod PAGE_SIZE + slice_len buf);
  bo_mapped : mapped_to m (slice_addr buf - slice_addr buf mod PAGE_SIZE) fs;
}.

(** The entries of the frames: only the first has the offset. *)
Definition entries_of (fs : list PhysFrame) (offset : Z) : list PrpEntry :=
  match fs with [] => [] | f :: fs => (f + offset) :: fs end.

Lemma counts_required_bound n x : 0 < n → 0 ≤ x →
  let c := counts_required_for n x in (c - 1) * n < x ≤ c * n ∨ (x = 0 ∧ c = 0).
Proof.
  intros Hn Hx. cbn zeta. unfold counts_required_for. pose proof (Z.div_mod x n ltac:(lia)).
  pose proof (Z.mod_pos_bound x n Hn). destruct (Z.eqb_spec (x mod n) 0); cbn; nia.
Qed.

Lemma counts_required_unique n x c : 0 < n → (c - 1) * n < x ≤ c * n → 0 < x → counts_required_for n x = c.
Proof. intros Hn Hc Hx. pose proof (counts_required_bound n x Hn ltac:(lia)). cbn zeta in *. nia. Qed.

(** [Pages::from_ref] finds the pages the buffer covers. *)
Lemma Pages_from_ref_ok `{Addresses} {E} m buf fs : buffer_ok m buf fs →
  Z.of_nat (length fs) ≤ u64_max →
  Pages_from_ref (E:=E) Size4KiB (slice_addr buf) (slice_len buf) =
    Ok (mkPages Size4KiB (slice_addr buf - slice_addr buf mod PAGE_SIZE) (Z.of_nat (length fs)),
        slice_addr buf mod PAGE_SIZE).
Proof.
  intros [Ha Hl _ Hex Hc _] Hlen. unfold Pages_from_ref, pages_required_for. cbn [SIZE]. unfold PAGE_SIZE in *.
  set (o := slice_addr buf mod 4096) in *. set (len := slice_len buf) in *.
  assert (0 ≤ o < 4096) as Ho by (apply Z.mod_pos_bound; lia).
  rewrite sub_u64_ok by lia. cbn. replace (slice_addr buf - (slice_addr buf - o)) with o by lia.
  pose proof (counts_required_bound 4096 len ltac:(lia) ltac:(lia)) as Hb. cbn zeta in Hb.
  pose proof (counts_required_bound 4096 (o + len) ltac:(lia) ltac:(lia)) as Hb'. cbn zeta in Hb'.
  rewrite <- Hc in Hb'. assert (len mod 4096 = len - 4096 * (len / 4096)) as Hm
    by (pose proof (Z.div_mod len 4096); lia).
  destruct (Z.eqb_spec o 0) as [Ho0|Ho0]; cbn.
  - do 3 f_equal. lia.
  - unfold add_u64. assert (counts_required_for 4096 len + 1 = Z.of_nat (length fs)) as ->.
    { unfold counts_required_for in *. destruct (Z.eqb_spec (len mod 4096) 0); cbn in *; lia. }
    rewrite (proj2 (Z.leb_le _ _)) by done. done.
Qed.

Lemma with_offset_ok frame offset : frame mod PAGE_SIZE = 0 → 0 ≤ offset < PAGE_SIZE → offset mod 4 = 0 →
  PrpEntry_with_offset frame offset = Ok (frame + offset).
Proof.
  intros Hf Ho H4. unfold PrpEntry_with_offset. destruct (Z.geb_spec offset PAGE_SIZE); [lia|].
  change (Z.land offset 3) with (Z.land offset (Z.ones 2)). rewrite Z.land_ones by lia.
  change (2 ^ 2) with 4. rewrite H4. cbn. f_equal. unfold PAGE_SIZE in *.
  rewrite (Z.div_mod frame 4096) by done. rewrite Hf, Z.add_0_r, Z.mul_comm. by apply (lor_low_bits _ 12).
Qed.

Section entries.
Context `{AD : Addresses} {PT : Type} `{MP : Mapper PT} `{TR : !Translate PT}.

Lemma prp_entries_ok {E} (pt : PT) start count n : ∀ i fs offset,
  0 ≤ start → 0 ≤ i → i + Z.of_nat (length fs) = count → count ≤ u64_max → (length fs < n)%nat →
  mapped_to (mapping pt) (start + i * PAGE_SIZE) fs → 0 ≤ offset < PAGE_SIZE → offset mod 4 = 0 →
  prp_entries (E:=E) n (mkPagesIter (mkPages Size4KiB start count) i) offset pt = Ok (entries_of fs offset).
Proof.
  induction n as [|n IH]; intros i fs offset Hs Hi Hlen Hcount Hn Hmap Ho H4; [lia|].
  cbn [prp_entries]. unfold PagesIter_next. cbn [pi_pages index page_count page_size first_page].
  destruct (Z.geb_spec i count) as [Hge|Hlt].
  { destruct fs; [done|cbn in Hlen; lia]. }
  destruct fs as [|f fs]; [cbn in Hlen; lia|]. cbn [length] in *.
  destruct (Hmap 0%nat f eq_refl) as (Hle & Hnew & Hf & Hf0 & flags & Hm). rewrite Z.add_0_r in Hle, Hnew, Hm.
  assert (i * 4096 ≤ u64_max) as Hmul by (unfold PAGE_SIZE in *; lia).
  unfold Page_add, VirtAddr_add, mul_u64, add_u64. cbn [SIZE]. rewrite (proj2 (Z.leb_le _ _) Hmul).
  unfold PAGE_SIZE in *. cbn. rewrite (proj2 (Z.leb_le _ _) Hle). cbn. rewrite Hnew. cbn.
  rewrite (proj2 (Z.leb_le (i + 1) u64_max)) by lia. cbn.
  rewrite (translate_page_spec _ _ _ _ Hm). cbn. rewrite with_offset_ok by done. cbn.
  rewrite (IH (i + 1) fs 0); [|lia..| |unfold PAGE_SIZE; lia|done].
  { cbn. by destruct fs; cbn; rewrite ?Z.add_0_r. }
  intros j g Hj. specialize (Hmap (S j) g Hj). cbn zeta in Hmap.
  cbn zeta. unfold PAGE_SIZE in *.
  replace (start + (i + 1) * 4096 + Z.of_nat j * 4096) with (start + i * 4096 + Z.of_nat (S j) * 4096) by lia.
  exact Hmap.
Qed.
End entries.

(** The entries of a buffer reach its bytes. *)
Lemma entries_dma `{Addresses} m buf fs k : buffer_ok m buf fs → 0 ≤ k < slice_len buf →
  ∃ a, dma_address (entries_of fs (slice_addr buf mod PAGE_SIZE)) k = Some a ∧
    phys_addr m (slice_addr buf + k) = Some a.
Proof.
  intros [Ha Hl _ _ Hc Hmap] Hk. set (o := slice_addr buf mod PAGE_SIZE) in *.
  assert (0 ≤ o < PAGE_SIZE) as Ho by by apply Z.mod_pos_bound.
  pose proof (counts_required_bound PAGE_SIZE (o + slice_len buf) ltac:(done) ltac:(lia)) as Hb.
  cbn zeta in Hb. rewrite <- Hc in Hb. set (i := (o + k) / PAGE_SIZE).
  assert (PAGE_SIZE * i ≤ o + k < PAGE_SIZE * i + PAGE_SIZE) as Hi.
  { pose proof (Z.div_mod (o + k) PAGE_SIZE ltac:(done)) as Hdm.
    pose proof (Z.mod_pos_bound (o + k) PAGE_SIZE ltac:(done)). fold i in Hdm. lia. }
  assert (0 ≤ i < Z.of_nat (length fs)) as Hil by (unfold PAGE_SIZE in *; lia).
  assert ((o + k) mod PAGE_SIZE = o + k - PAGE_SIZE * i) as Hmod.
  { pose proof (Z.div_mod (o + k) PAGE_SIZE ltac:(done)) as Hdm. fold i in Hdm. lia. }
  assert (slice_addr buf mod PAGE_SIZE = slice_addr buf - PAGE_SIZE * (slice_addr buf / PAGE_SIZE)) as Hoe
    by (pose proof (Z.div_mod (slice_addr buf) PAGE_SIZE ltac:(done)); lia). fold o in Hoe.
  destruct (lookup_lt_is_Some_2 fs (Z.to_nat i)) as [f Hf]; [lia|].
  destruct (Hmap _ f Hf) as (_ & _ & Hf1 & Hf2 & flags & Hm). rewrite Z2Nat.id in Hm by lia.
  exists (f + (o + k) mod PAGE_SIZE). split.
  - destruct fs as [|f0 fs]; [done|]. cbn [entries_of]. unfold dma_address. cbn [head mbind option_bind].
    destruct (Hmap 0%nat f0 eq_refl) as (_ & _ & Hf01 & _).
    assert ((f0 + o) mod PAGE_SIZE = o) as ->.
    { rewrite Z.add_mod, Hf01, Z.add_0_l, Z.mod_mod by done. by apply Z.mod_small. }
    fold i. destruct (Z.to_nat i) as [|n] eqn:Hn; cbn in Hf |- *.
    + injection Hf as ->. rewrite Z.add_mod, Hf1, Z.add_0_l, Z.mod_mod by done.
      rewrite (Z.mod_small o) by done. f_equal. lia.
    + rewrite Hf. cbn. rewrite Hf1. f_equal. lia.
  - unfold phys_addr.
    assert ((slice_addr buf + k) mod PAGE_SIZE = (o + k) mod PAGE_SIZE) as ->.
    { rewrite <- (Z.add_mod_idemp_l (slice_addr buf)) by done. done. }
    replace (slice_addr buf + k - (o + k) mod PAGE_SIZE) with (slice_addr buf - o + i * PAGE_SIZE) by lia.
    by rewrite Hm.
Qed.

(** ** Calls that may not come back *)

Section ends.
Context {S E : Type}.

(** What holds when a call panics, waits forever, fails or returns *)
Definition ends {A} (m : M S E A) (pan : Prop) (hang : S → Prop) (err : E → S → Prop)
    (post : A → S → Prop) (s : S) : Prop :=
  match m s with
  | (Ok a, s) => post a s
  | (Err e, s) => err e s
  | (Panic, _) => pan
  | (Hang, s) => hang s
  end.

Lemma ends_bind {A B} (m : M S E A) (f : A → M S E B) pan hang err post s :
  ends m pan hang err (λ a, ends (f a) pan hang err post) s → ends (m ≫= f) pan hang err post s.
Proof. unfold ends. rewrite run_bind. by destruct (m s) as [[| | |] ?]. Qed.
Lemma ends_mono {A} (m : M S E A) (pan pan' : Prop) (hang hang' : S → Prop) (err err' : E → S → Prop)
    (post post' : A → S → Prop) s :
  ends m pan hang err post s → (pan → pan') → (∀ s', hang s' → hang' s') →
  (∀ e s', err e s' → err' e s') → (∀ a s', post a s' → post' a s') → ends m pan' hang' err' post' s.
Proof. unfold ends. destruct (m s) as [[| | |] ?]; auto. Qed.
Lemma runs_ends {A} (m : M S E A) pan hang err (post : A → S → Prop) s :
  runs m pan err post s → ends m pan hang err post s.
Proof. unfold runs, ends. by destruct (m s) as [[| | |] ?]. Qed.
End ends.

Lemma ends_on_fst {S T E A} (m : M S E A) pan (hang : S * T → Prop) (err : E → S * T → Prop)
    (post : A → S * T → Prop) s t :
  ends m pan (λ s', hang (s', t)) (λ e s', err e (s', t)) (λ a s', post a (s', t)) s →
  ends (on_fst m) pan hang err post (s, t).
Proof. unfold ends, on_fst. cbn. by destruct (m s) as [[| | |] ?]. Qed.
Lemma ends_mapM_err {S E E' A} (f : E → E') (m : M S E A) pan hang (err : E' → S → Prop) (post : A → S → Prop) s :
  ends m pan hang (λ e, err (f e)) post s → ends (mapM_err f m) pan hang err post s.
Proof. unfold ends, mapM_err. by destruct (m s) as [[| | |] ?]. Qed.
Lemma ends_on_io {PT E A} (m : M QState E A) pan (hang : Device PT → Prop) (err : E → Device PT → Prop)
    (post : A → Device PT → Prop) s :
  ends m pan (λ q, hang (mkDev q (prp_page_allocator s) (memory s) (trace s)))
    (λ e q, err e (mkDev q (prp_page_allocator s) (memory s) (trace s)))
    (λ x q, post x (mkDev q (prp_page_allocator s) (memory s) (trace s))) (io_queue s) →
  ends (on_io m) pan hang err post s.
Proof. unfold ends, on_io. by destruct (m (io_queue s)) as [[| | |] ?]. Qed.

(** ** The allocator of the device *)

Section device.
Context `{BF : BitField} `{AD : Addresses} {PT : Type} `{MP : Mapper PT} `{TR : !Translate PT}.
Context (can_reserve : nat → bool) (try_reserve : nat → result MemError unit).
Hypothesis try_reserve_spec : ∀ n, try_reserve n ≠ Panic ∧ try_reserve n ≠ Hang.
(** the mappings of the kernel, and what was handed out when the run started *)
Context (base : mappings) (start : list (Page * PhysFrame) * Mappings PT).

Definition reached (held : list (Page * PhysFrame)) (a : Mappings PT) : Prop :=
  rtc (alloc_step can_reserve) start (held, a) ∧ mappings_inv base held a.

(** The allocator panics in a state it reached. *)
Definition allocator_panics : Prop :=
  ∃ held a, rtc (alloc_step can_reserve) start (held, a) ∧
    ((MappingsAllocator_allocate a).1 = Panic ∨
     ∃ p f held', held ≡ₚ (p, f) :: held' ∧ (MappingsAllocator_free can_reserve p f a).1 = Panic).

Lemma runs_allocate_reached held a : reached held a →
  runs MappingsAllocator_allocate allocator_panics (λ _ a', reached held a' ∧ owned a' ⊆ owned a)
    (λ pf a', reached (held ++ [pf]) a' ∧ pf.2 ∈ owned a ∧ pf.2 ∉ owned a' ∧ owned a' ⊆ owned a) a.
Proof.
  intros [Hr Hi]. pose proof (runs_allocate_mapping base held a Hi) as H. unfold runs in *.
  destruct (MappingsAllocator_allocate a) as [[pf|e| |] a'] eqn:Heq; [| | |done].
  - destruct H as (Hi' & H). split; [split; [|done]|done]. eapply rtc_r; [done|]. by apply step_allocate.
  - destruct H as (Hi' & H). split; [split; [|done]|done]. eapply rtc_r; [done|]. by eapply step_allocate_failed.
  - exists held, a. split; [done|]. left. by rewrite Heq.
Qed.

Lemma runs_free_reached p f held held' a : reached held a → held ≡ₚ (p, f) :: held' →
  runs (MappingsAllocator_free can_reserve p f) allocator_panics (λ _ _, False)
    (λ _ a', reached held' a' ∧ owned a' ≡ owned a ∪ {[f]}) a.
Proof.
  intros [Hr Hi] Hp. pose proof (runs_free_held can_reserve base p f held held' a (λ _ _, False) Hp Hi) as H.
  unfold runs in *. destruct (MappingsAllocator_free can_reserve p f a) as [[[]|e| |] a'] eqn:Heq; [|done| |done].
  - destruct H as (Hi' & H). split; [split; [|done]|done]. eapply rtc_r; [done|]. by eapply step_free.
  - exists held, a. split; [done|]. right. exists p, f, held'. by rewrite Heq.
Qed.

(** ** The device

    [U] are the frames the allocator may ever hand out, which are pages of the memory. *)
Record device_inv (U : propset PhysFrame) (held : list (Page * PhysFrame)) (s : Device PT) : Prop := {
  di_reached : reached held (prp_page_allocator s);
  di_owned : owned (prp_page_allocator s) ⊆ U;
  di_held f : f ∈ held.*2 → f ∈ U;
  di_mapped : frames_mapped U (memory s);
}.

(** As long as the pages of its list stay as they are, the controller reads the buffer
    from the entries. *)
Definition describes (mem : Memory) (prp : Prp) (buf : Slice) : Prop :=
  ∀ mem', (∀ g, g ∈ (Prp_mappings prp).*2 → mem' !! g = mem !! g) → transfers_to base mem' prp buf.

Lemma describes_mono mem mem' prp buf : describes mem prp buf →
  (∀ g, g ∈ (Prp_mappings prp).*2 → mem' !! g = mem !! g) → describes mem' prp buf.
Proof. intros Hd Hm mem2 H2. apply Hd. intros g Hg. by rewrite H2, Hm. Qed.

Lemma mapped_to_table held a start_page fs : mappings_inv base held a →
  mapped_to base start_page fs → mapped_to (mapping (page_table a)) start_page fs.
Proof.
  intros Hi Hm i f Hf. destruct (Hm i f Hf) as (H1 & H2 & H3 & H4 & flags & H5).
  split_and!; try done. exists flags. rewrite (mi_table _ _ _ Hi).
  rewrite with_mappings_fresh; [done|]. intros Hin. by rewrite (mi_base _ _ _ Hi) in H5.
Qed.

(** What a description of one, two or more pages reads *)
Lemma controller_pages_of mem prp buf fs :
  buffer_ok base buf fs →
  let entries := entries_of fs (slice_addr buf mod PAGE_SIZE) in
  head entries = Some (Prp_entry_1 prp) →
  (length fs = 2%nat → entries !! 1%nat = Some (Prp_entry_2 prp)) →
  ((3 ≤ length fs)%nat → prp_read (length fs) mem (Prp_entry_2 prp) (length fs - 1) = Some (tail entries)) →
  transfers_to base mem prp buf.
Proof.
  intros Hb entries H1 H2 H3. exists entries. split; [|intros k Hk; by apply entries_dma].
  assert (length entries = length fs) as Hlen by (unfold entries; by destruct fs).
  assert (Prp_entry_1 prp mod PAGE_SIZE = slice_addr buf mod PAGE_SIZE) as Ho.
  { unfold entries in H1. destruct fs as [|f fs]; [done|]. cbn in H1. injection H1 as <-.
    destruct (bo_mapped _ _ _ Hb 0%nat f eq_refl) as (_ & _ & Hf & _).
    rewrite Z.add_mod, Hf, Z.add_0_l, !Z.mod_mod by done. done. }
  unfold controller_pages. rewrite Ho, <- (bo_count _ _ _ Hb), Nat2Z.id.
  destruct entries as [|e1 entries]; [done|]. injection H1 as ->. cbn [length tail lookup list_lookup] in *.
  destruct (length fs) as [|[|[|n]]] eqn:Hn; [lia| | |].
  - destruct entries; [done|cbn in Hlen; lia].
  - destruct entries as [|e2 [|]]; cbn in Hlen; [lia| |lia]. specialize (H2 eq_refl). cbn in H2. by injection H2 as ->.
  - rewrite H3 by lia. done.
Qed.

Lemma entries_of_offset fs o m start_page : mapped_to m start_page fs →
  Forall (λ e, PrpEntry_offset e = 0) (tail (entries_of fs o)).
Proof.
  intros Hm. destruct fs as [|f fs]; [done|]. cbn. apply Forall_forall. intros g Hg.
  apply list_elem_of_lookup in Hg as [i Hi]. destruct (Hm (S i) g Hi) as (_ & _ & H & _).
  unfold PrpEntry_offset. change (PAGE_SIZE - 1) with (Z.ones 12). by rewrite Z.land_ones.
Qed.

Lemma runs_on_mappings {E A} (m : M (Mappings PT * Memory) E A) pan (err : E → Device PT → Prop)
    (post : A → Device PT → Prop) s :
  runs m pan (λ e t, err e (mkDev (io_queue s) t.1 t.2 (trace s)))
    (λ x t, post x (mkDev (io_queue s) t.1 t.2 (trace s))) (prp_page_allocator s, memory s) →
  runs (on_mappings m) pan err post s.
Proof. unfold runs, on_mappings. by destruct (m (prp_page_allocator s, memory s)) as [[| | |] [? ?]]. Qed.

(** The part of the device that PRP lists do not touch *)
Definition same_io (s s' : Device PT) : Prop := io_queue s' = io_queue s ∧ trace s' = trace s.

Lemma runs_create_prp U held buf fs s :
  device_inv U held s → buffer_ok base buf fs → Z.of_nat (length fs) ≤ u64_max →
  runs (create_prp_form_buffer try_reserve buf) allocator_panics
    (λ e s', (∃ e', e = ReadBlockDevice (NvmeMem e')) ∧ same_io s s' ∧
       ∃ lost, device_inv U (held ++ lost) s')
    (λ prp s', same_io s s' ∧ device_inv U (held ++ Prp_mappings prp) s' ∧
       describes (memory s') prp buf ∧
       ∀ g, g ∉ owned (prp_page_allocator s) → memory s' !! g = memory s !! g) s.
Proof.
  intros [Hr Ho Hh Hm] Hb Hlen. unfold create_prp_form_buffer.
  apply runs_bind. eapply runs_lift_Ok; [by eapply Pages_from_ref_ok|]. cbn beta iota.
  assert (∀ prp, length (Prp_mappings prp) = 0%nat → device_inv U (held ++ Prp_mappings prp) s) as Hsame.
  { intros prp Hp. destruct (Prp_mappings prp); [|done]. by rewrite app_nil_r. }
  assert (slice_addr buf mod PAGE_SIZE < PAGE_SIZE) as Hoff by by apply Z.mod_pos_bound.
  assert (0 ≤ slice_addr buf mod PAGE_SIZE) by by apply Z.mod_pos_bound.
  apply runs_bind, runs_gets, runs_bind. eapply runs_lift_Ok.
  { cbn [page_count]. rewrite Nat2Z.id. unfold Pages_iter.
    apply (prp_entries_ok _ _ _ _ _ fs); try (done || lia).
    - pose proof (bo_addr _ _ _ Hb). pose proof (Z.mod_le (slice_addr buf) PAGE_SIZE ltac:(done) ltac:(done)). lia.
    - rewrite Z.add_0_r. destruct Hr as [_ Hi]. eapply mapped_to_table; [exact Hi|apply Hb].
    - unfold PAGE_SIZE. pose proof (bo_aligned _ _ _ Hb). Z.to_euclidean_division_equations. lia. }
  pose proof (entries_of_offset fs (slice_addr buf mod PAGE_SIZE) _ _ (bo_mapped _ _ _ Hb)) as Htail.
  assert (0 < length fs)%nat as Hpos.
  { pose proof (bo_count _ _ _ Hb) as Hc. pose proof (bo_len _ _ _ Hb).
    pose proof (counts_required_bound PAGE_SIZE (slice_addr buf mod PAGE_SIZE + slice_len buf) ltac:(done) ltac:(lia)) as Hb'.
    cbn zeta in Hb'. unfold PAGE_SIZE in *. lia. }
  destruct fs as [|f1 [|f2 [|f3 fs]]]; [cbn in Hpos; lia| | |]; cbn [entries_of].
  - apply runs_ret. split; [done|]. split; [by apply Hsame|]. split; [|done].
    intros mem' _. eapply controller_pages_of; [done|done|done|cbn; lia].
  - apply runs_ret. split; [done|]. split; [by apply Hsame|]. split; [|done].
    intros mem' _. eapply controller_pages_of; [done|done|done|cbn; lia].
  - apply runs_bind, runs_on_mappings, runs_mapM_err.
    eapply runs_mono; [apply (runs_PrpList_new MappingsAllocator_allocate try_reserve owned reached allocator_panics
      runs_allocate_reached try_reserve_spec held)|done| |]; [cbn; lia|done|done| | |].
    { intros f Hf. by apply Hm, Ho. }
    { intros e [a mem] ((lost & Hl & Hlo) & Hsub & Hk). split; [by eexists|]. split; [done|]. exists lost.
      cbn [fst snd] in *. split; cbn.
      - done.
      - by etrans.
      - intros g. rewrite fmap_app, elem_of_app. intros [Hg|Hg]; [by apply Hh|]. by apply Ho, Hlo.
      - by eapply frames_mapped_keeps. }
    intros l [a mem] [Hc Hf Hrd Hi Hown Hk Hfr Hnd Hoth]. cbn [fst snd] in *. apply runs_ret.
    split; [done|]. cbn [Prp_mappings memory]. split; [split; cbn|split; [|done]].
    + done.
    + by etrans.
    + intros g. rewrite fmap_app, elem_of_app. intros [Hg|Hg]; [by apply Hh|]. by apply Ho, Hfr.
    + by eapply frames_mapped_keeps.
    + intros mem' Hmem'. eapply controller_pages_of; [done|done|done|]. intros _. cbn. by apply Hrd.
Qed.

(** A mapping that is handed out is not handed out again. *)
Lemma held_not_owned held a f : mappings_inv base held a → f ∈ held.*2 → f ∉ owned a.
Proof.
  intros Hi Hf [Hin|Hin]%elem_of_PropSet.
  - pose proof (mi_nodup_frames _ _ _ Hi) as Hnd. rewrite fmap_app in Hnd.
    apply NoDup_app in Hnd as (_ & Hd & _). by apply (Hd f).
  - apply (mi_not_free _ _ _ Hi f); [|done]. rewrite fmap_app. apply elem_of_app. by right.
Qed.

(** ** Traces *)

(** A command that was submitted, with its description of the buffer *)
Record submission := mkSub { sub_ident : CommandIdentifier; sub_command : CommonCommand; sub_prp : Prp }.

Definition sub_event (sub : submission) : Event := Submitted (sub_ident sub) (sub_command sub) (sub_prp sub).
Definition sub_mappings (subs : list submission) : list (Page * PhysFrame) :=
  subs ≫= λ sub, Prp_mappings (sub_prp sub).
(** The command as it is written to the ring *)
Definition sub_written (sub : submission) : CommonCommand := with_identifier (sub_ident sub) (sub_command sub).
Definition freed_event (pf : Page * PhysFrame) : Event := Freed pf.1 pf.2.

(** The commands and the completion entries of a trace *)
Definition commands_of (tr : list Event) : list CommonCommand :=
  omap (λ e, match e with Submitted i c _ => Some (with_identifier i c) | _ => None end) tr.
Definition completions_of (tr : list Event) : list CommonCompletionEntry :=
  omap (λ e, match e with Completed _ e => Some e | _ => None end) tr.

(** The command for a group asks for its blocks and the part of the buffer. *)
Definition reads_group (mem : Memory) (gb : BlockGroup * Slice) (sub : submission) : Prop :=
  transfer_command Read (sub_prp sub) (bg_start gb.1) (bg_count gb.1) (sub_command sub) ∧
  transfers_to base mem (sub_prp sub) gb.2.
Definition succeeded (sub : submission) (e : CommonCompletionEntry) : Prop :=
  command_ident e = sub_ident sub ∧ status (E:=ReadBlockDeviceError) e = Ok (GenericStatus Success).

(** A batch: the commands, the flush at which the controller sees the memory, the
    completions, and only then the pages of the lists *)
Inductive batch (gbs : list (BlockGroup * Slice)) : list Event → Prop :=
  | batch_intro subs mem es :
      Forall2 (reads_group mem) gbs subs → Forall2 succeeded subs es →
      batch gbs ((sub_event <$> subs) ++ Flushed mem ::
        zip_with (λ sub, Completed (sub_ident sub)) subs es ++ (freed_event <$> sub_mappings subs)).
Inductive batches : list (BlockGroup * Slice) → list Event → Prop :=
  | batches_last gbs tr : batch gbs tr → batches gbs tr
  | batches_more gbs1 tr1 gbs2 tr2 :
      batch gbs1 tr1 → batches gbs2 tr2 → batches (gbs1 ++ gbs2) (tr1 ++ tr2).

(** *** Giving pages back *)

Lemma runs_free_pages_of {E} U err ms : ∀ rest held s, held ≡ₚ ms ++ rest → device_inv U held s →
  runs (free_pages_of (E:=E) can_reserve ms) allocator_panics err
    (λ _ s', (∃ held', held' ≡ₚ rest ∧ device_inv U held' s') ∧ io_queue s' = io_queue s ∧
       memory s' = memory s ∧ trace s' = trace s ++ (freed_event <$> ms)) s.
Proof.
  induction ms as [|[p f] ms IH]; intros rest held s Hp Hd; cbn [free_pages_of].
  { apply runs_ret. split; [by exists held|]. by rewrite app_nil_r. }
  apply runs_bind, runs_modify, runs_bind, runs_on_mappings, runs_on_fst, runs_try. cbn [prp_page_allocator].
  destruct Hd as [Hr Ho Hh Hm].
  eapply runs_mono; [by apply (runs_free_reached p f held (ms ++ rest))|done|done|].
  intros [] a [Hr' Howned]. cbn [io_queue memory trace fst snd].
  eapply runs_mono; [apply (IH rest (ms ++ rest)); [done|]|done|done|].
  - split; cbn; [done| | |done].
    + rewrite Howned. intros g [Hg| ->%elem_of_singleton]%elem_of_union; [by apply Ho|].
      apply Hh. rewrite Hp. left.
    + intros g Hg. apply Hh. rewrite Hp. by right.
  - intros [] s' (H1 & -> & -> & ->). cbn. by rewrite <- app_assoc.
Qed.

Definition idents_mappings (idents : Idents) : list (Page * PhysFrame) :=
  idents ≫= λ ip, Prp_mappings ip.2.

Lemma runs_free_prps {E} U err idents : ∀ rest held s,
  held ≡ₚ idents_mappings idents ++ rest → device_inv U held s →
  runs (free_prps (E:=E) can_reserve idents) allocator_panics err
    (λ _ s', (∃ held', held' ≡ₚ rest ∧ device_inv U held' s') ∧ io_queue s' = io_queue s ∧
       memory s' = memory s ∧ trace s' = trace s ++ (freed_event <$> idents_mappings idents)) s.
Proof.
  induction idents as [|[i prp] idents IH]; intros rest held s Hp Hd; cbn [free_prps].
  { apply runs_ret. split; [by exists held|]. by rewrite app_nil_r. }
  apply runs_bind. unfold idents_mappings in *. cbn [mbind list_bind snd] in *. rewrite <- app_assoc in Hp.
  eapply runs_mono; [by eapply runs_free_pages_of|done|done|].
  intros [] s1 ((held1 & Hp1 & Hd1) & Hio & Hmem & Htr).
  eapply runs_mono; [by eapply IH|done|done|].
  intros [] s2 (Hd2 & -> & -> & ->). split; [done|]. split; [done|]. split; [done|].
  by rewrite Htr, fmap_app, app_assoc.
Qed.

Lemma runs_free_prp {E} U err rest held s idents :
  held ≡ₚ idents_mappings idents ++ rest → device_inv U held s →
  runs (free_prp (E:=E) can_reserve) allocator_panics err
    (λ _ s', (∃ held', held' ≡ₚ rest ∧ device_inv U held' s'.1) ∧ io_queue s'.1 = io_queue s ∧
       memory s'.1 = memory s ∧ trace s'.1 = trace s ++ (freed_event <$> idents_mappings idents) ∧ s'.2 = [])
    (s, idents).
Proof.
  intros Hp Hd. unfold free_prp. apply runs_bind, runs_gets, runs_bind, runs_on_fst.
  eapply runs_mono; [by eapply (runs_free_prps U (λ _ _, False))|done|done|].
  intros [] s' (H1 & H2 & H3 & H4). apply runs_modify. done.
Qed.

Section io.
Context (ident : QueueIdentifier) (ns nc : nat) (env : nat → Hardware → Hardware) (rounds fuel : nat).
Hypothesis Henv : controller ident ns nc env.
Hypothesis Hfuel : (nc ≤ fuel)%nat.
(** the clock when the run started *)
Context (t0 : nat).

Local Abbreviation refines := (refines ident ns nc).

(** The abstract queues and the time *)
Definition queues (l : Queues) (q : QState) : Prop := refines l q ∧ (t0 ≤ clock q)%nat.

Lemma runs_submit l q command : 0 ≤ dword0 command → queues l q →
  runs (submit env fuel command) False (λ _, queues l)
    (λ i, queues (mkQueues (sent l) (staged l ++ [with_identifier i command]) (claimed l))) q.
Proof.
  intros Hc [Hr Ht]. destruct (run_op_refines ident ns nc env fuel Henv Hfuel (OpSubmit command) l q Hc Hr)
    as (l' & s' & Hrun & Hr'). cbn [run_op] in Hrun. unfold runs.
  pose proof (ticks_submit nc env fuel Hfuel command q) as Htick.
  destruct (submit env fuel command q) as [[i|e| |] q']; [| |done..]; cbn in Htick;
    injection Hrun as <- <-; split; (done || lia).
Qed.

Lemma runs_flush {E} l q : queues l q →
  runs (flush (E:=E) env) False (λ _ _, False) (λ _, queues (mkQueues (sent l ++ staged l) [] (claimed l))) q.
Proof.
  intros [(c & d & hd & Hi & Hacc) Ht].
  pose proof (wp_flush ident ns nc env Henv (E:=E) (λ _ _, False) _ _ _ _ _ _ Hi) as H.
  pose proof (ticks_flush nc env fuel Hfuel (E:=E) q) as Htick. unfold wp in H. unfold runs.
  destruct (flush env q) as [[[]| | |] q']; [|done..]. destruct H as [Hi' Hm]. cbn in Htick.
  split; [|lia]. exists c, d, hd. split; [done|by eapply accounted_moved].
Qed.

(** The entry of the command, an error, or a controller that does not answer *)
Lemma ends_wait_for l q i : queues l q →
  ends (wait_for env rounds fuel i) False
    (λ q', i ∉ idents (completions (queue q')) ∧ (t0 + rounds ≤ clock q')%nat)
    (λ _, queues l)
    (λ e q', command_ident e = i ∧ queues (mkQueues (sent l) (staged l) (claimed l ++ [e])) q') q.
Proof.
  intros [Hr Ht]. pose proof (ticks_wait_for nc env fuel Hfuel rounds i q) as Htick.
  destruct (run_op_refines ident ns nc env fuel Henv Hfuel (OpWait rounds i) l q I Hr)
    as (l' & s' & Hrun & Hr'). cbn [run_op] in Hrun.
  destruct Hr as (c & d & hd & Hi & _).
  pose proof (wait_for_outcome ident ns nc env fuel Henv Hfuel rounds i _ _ _ _ _ _ Hi) as Hout.
  unfold ends. destruct (wait_for env rounds fuel i q) as [[e|e| |] q'] eqn:Heq; cbn in Htick; [| |done|].
  - injection Hrun as <- <-. destruct Hout as (? & ? & ? & ? & _ & _ & _ & He & _). split; [done|].
    split; [done|lia].
  - injection Hrun as <- <-. split; [done|lia].
  - destruct (wait_for_hang ident ns nc env fuel Henv Hfuel _ _ _ _ _ _ _ _ _ Hi Heq). split; [done|lia].
Qed.

(** *** Waiting for a batch *)

Definition sub_ident_prp (sub : submission) : CommandIdentifier * Prp := (sub_ident sub, sub_prp sub).

(** The controller does not answer: it ran in every round and posted no entry that could
    be read for a command that was submitted. *)
Definition unanswered (s : Device PT) : Prop :=
  ∃ i c prp, Submitted i c prp ∈ trace s ∧ i ∉ idents (completions (queue (io_queue s))) ∧
    (t0 + rounds ≤ clock (io_queue s))%nat.

Definition same_memory (s s' : Device PT) : Prop :=
  prp_page_allocator s' = prp_page_allocator s ∧ memory s' = memory s.

Lemma ends_wait_for_idents subs : ∀ l s,
  queues l (io_queue s) → Forall (λ sub, sub_event sub ∈ trace s) subs →
  ends (wait_for_idents env rounds fuel (sub_ident_prp <$> subs)) False unanswered
    (λ _ s', same_memory s s' ∧ ∃ l', queues l' (io_queue s'))
    (λ _ s', same_memory s s' ∧ ∃ es, Forall2 succeeded subs es ∧
       trace s' = trace s ++ zip_with (λ sub, Completed (sub_ident sub)) subs es ∧
       queues (mkQueues (sent l) (staged l) (claimed l ++ es)) (io_queue s')) s.
Proof.
  induction subs as [|sub subs IH]; intros l s Hq Hin; cbn [fmap list_fmap wait_for_idents].
  { unfold ends. cbn. split; [done|]. exists []. split; [done|]. rewrite !app_nil_r. by destruct l. }
  apply Forall_cons in Hin as [Hsub Hin]. cbn [sub_ident_prp].
  apply ends_bind, ends_on_io, ends_mapM_err.
  eapply ends_mono; [by apply (ends_wait_for l)|done| | |].
  - intros q' [H1 H2]. exists (sub_ident sub), (sub_command sub), (sub_prp sub). by split.
  - intros e q' Hq'. split; [done|by exists l].
  - intros e q' [He Hq']. apply ends_bind. unfold ends at 1. cbn [log modify].
    apply ends_bind. destruct (status_decodes (E:=ReadBlockDeviceError) e) as (st & Hst & _).
    unfold ends at 1, lift. rewrite Hst. destruct (is_err st) eqn:Herr.
    { unfold ends. split; [done|]. by eexists. }
    eapply ends_mono; [eapply (IH _ (mkDev q' (prp_page_allocator s) (memory s)
      (trace s ++ [Completed (sub_ident sub) e])))|done|done| |]; [exact Hq'| |..].
    + eapply Forall_impl; [exact Hin|]. cbn. intros x Hx. apply elem_of_app. by left.
    + intros e' s' [Hsame Hl]. by split.
    + cbn [trace io_queue prp_page_allocator memory sent staged claimed].
      intros [] s' (Hsame & es & Hes & Htr & Hq2). split; [done|]. exists (e :: es).
      split; [|cbn; by rewrite Htr, <- !app_assoc in *]. constructor; [|done]. split; [done|].
      unfold is_err, is_success in Herr. apply negb_false_iff, bool_decide_eq_true in Herr. by subst st.
Qed.

(** *** Batches *)

Lemma idents_mappings_subs subs : idents_mappings (sub_ident_prp <$> subs) = sub_mappings subs.
Proof. induction subs as [|sub subs IH]; [done|]. unfold idents_mappings, sub_mappings in *. cbn. by rewrite IH. Qed.

Lemma sub_mappings_snoc subs sub : sub_mappings (subs ++ [sub]) = sub_mappings subs ++ Prp_mappings (sub_prp sub).
Proof. unfold sub_mappings. rewrite bind_app. cbn. by rewrite app_nil_r. Qed.

Lemma batch_commands subs mem es : Forall2 succeeded subs es →
  let tr := (sub_event <$> subs) ++ Flushed mem ::
    zip_with (λ sub, Completed (sub_ident sub)) subs es ++ (freed_event <$> sub_mappings subs) in
  commands_of tr = sub_written <$> subs ∧ completions_of tr = es.
Proof.
  intros Hes. unfold commands_of, completions_of. cbn zeta. rewrite !omap_app. cbn. rewrite !omap_app.
  assert (∀ ms : list (Page * PhysFrame),
    omap (λ e, match e with Submitted i c _ => Some (with_identifier i c) | _ => None end) (freed_event <$> ms) = [] ∧
    omap (λ e, match e with Completed _ e => Some e | _ => None end) (freed_event <$> ms) = []) as Hfree.
  { intros ms. by induction ms as [|m ms IH]. }
  destruct (Hfree (sub_mappings subs)) as [-> ->]. rewrite !app_nil_r. clear Hfree.
  assert (omap (λ e, match e with Submitted i c _ => Some (with_identifier i c) | _ => None end) (sub_event <$> subs)
    = sub_written <$> subs ∧
    omap (λ e, match e with Completed _ e => Some e | _ => None end) (sub_event <$> subs) = []) as [-> ->].
  { clear. induction subs as [|sub subs [IH1 IH2]]; [done|]. cbn. by rewrite IH1, IH2. }
  assert (omap (λ e, match e with Submitted i c _ => Some (with_identifier i c) | _ => None end)
      (zip_with (λ sub, Completed (sub_ident sub)) subs es) = [] ∧
    omap (λ e, match e with Completed _ e => Some e | _ => None end)
      (zip_with (λ sub, Completed (sub_ident sub)) subs es) = es) as [-> ->].
  { induction Hes as [|sub e subs es _ _ [IH1 IH2]]; [done|]. cbn. by rewrite IH1, IH2. }
  by rewrite app_nil_r.
Qed.

(** The state of the loop: [subs] are submitted and not flushed yet. *)
Record loop_inv (U : propset PhysFrame) (held0 : list (Page * PhysFrame)) (l0 : Queues) (tr0 : list Event)
    (gbs : list (BlockGroup * Slice)) (subs : list submission) (s : Device PT * Idents) : Prop := {
  li_dev : ∃ held, held ≡ₚ held0 ++ sub_mappings subs ∧ device_inv U held s.1;
  li_queue : queues (mkQueues (sent l0) (sub_written <$> subs) (claimed l0)) (io_queue s.1);
  li_trace : trace s.1 = tr0 ++ (sub_event <$> subs);
  li_idents : s.2 = sub_ident_prp <$> subs;
  li_subs : Forall2 (λ gb sub,
    transfer_command Read (sub_prp sub) (bg_start gb.1) (bg_count gb.1) (sub_command sub) ∧
    describes (memory s.1) (sub_prp sub) gb.2) gbs subs;
}.

(** After an error: some mappings may be lost. *)
Definition failed (U : propset PhysFrame) (held0 : list (Page * PhysFrame)) (s : Device PT * Idents) : Prop :=
  (∃ held lost, held ≡ₚ held0 ++ idents_mappings s.2 ++ lost ∧ device_inv U held s.1) ∧
  ∃ l, queues l (io_queue s.1).

(** The queues after a part of the trace *)
Definition after (l : Queues) (tr : list Event) : Queues :=
  mkQueues (sent l ++ commands_of tr) [] (claimed l ++ completions_of tr).

Lemma after_app l tr tr' : after (after l tr) tr' = after l (tr ++ tr').
Proof. unfold after, commands_of, completions_of. cbn. by rewrite !omap_app, <- !app_assoc. Qed.

Lemma ends_flush U held0 l0 tr0 gbs subs s :
  loop_inv U held0 l0 tr0 gbs subs s →
  ends (flush_io_queue env rounds fuel can_reserve) allocator_panics (λ s', unanswered s'.1)
    (λ _, failed U held0)
    (λ _ s', ∃ tr, batch gbs tr ∧ loop_inv U held0 (after l0 tr) (tr0 ++ tr) [] [] s') s.
Proof.
  destruct s as [s ids]. intros [(held & Hp & Hd) Hq Htr Hids Hsubs]. cbn [fst snd] in *. subst ids.
  unfold flush_io_queue. apply ends_bind, ends_on_fst, ends_on_io.
  eapply ends_mono; [apply (runs_ends _ _ (λ _, False)), (runs_flush _ _ Hq)|done|done|done|].
  intros [] q Hq1. cbn [sent staged claimed] in Hq1. apply ends_bind, ends_on_fst. unfold ends at 1. cbn [log modify].
  apply ends_bind. unfold ends at 1. cbn [gets snd]. apply ends_bind, ends_on_fst.
  eapply ends_mono; [apply (ends_wait_for_idents subs (mkQueues (sent l0 ++ (sub_written <$> subs)) [] (claimed l0)))| | | |].
  - exact Hq1.
  - cbn. rewrite Htr. apply Forall_forall. intros sub Hsub. apply elem_of_app. left. apply elem_of_app. right.
    by apply list_elem_of_fmap_2.
  - done.
  - done.
  - intros e s' [[Ha Hm] Hl]. cbn in *. split; [|done]. exists held, []. cbn.
    rewrite idents_mappings_subs, app_nil_r. split; [done|].
    destruct Hd. split; rewrite ?Ha, ?Hm; done.
  - cbn [trace io_queue prp_page_allocator memory sent staged claimed].
    intros [] s' ([Ha Hm] & es & Hes & Htr' & Hq'). cbn in Ha, Hm.
    apply runs_ends.
    eapply runs_mono; [apply (runs_free_prp U (λ _ _, False) held0 held)|done|done|].
    + rewrite idents_mappings_subs, Hp. apply Permutation_app_comm.
    + destruct Hd. split; rewrite ?Ha, ?Hm; done.
    + intros [] [s2 ids2] (Hd2 & Hio2 & Hm2 & Htr2 & Hids2). cbn [fst snd] in *. rewrite idents_mappings_subs in Htr2.
      destruct (batch_commands subs (memory s) es Hes) as [Hc Hcs].
      eexists. split; [apply (batch_intro gbs subs (memory s) es); [|done]|].
      { eapply Forall2_impl; [exact Hsubs|]. cbn. intros gb sub [H1 H2]. split; [done|by apply H2]. }
      split; cbn [fst snd fmap list_fmap]; [| |by rewrite app_nil_r, Htr2, Htr', Htr, <- !app_assoc|done|constructor].
      * destruct Hd2 as (held' & Hp' & Hd'). exists held'. split; [by rewrite Hp', app_nil_r|done].
      * unfold after. cbn [sent claimed]. rewrite Hc, Hcs, Hio2. done.
Qed.

(** *** The loop *)

(** The parts of the buffer for the groups *)
Fixpoint split_buffer (lba_size : Z) (groups : list BlockGroup) (addr : Z) : list (BlockGroup * Slice) :=
  match groups with
  | [] => []
  | g :: groups =>
      (g, mkSlice addr (bg_count g * lba_size)) :: split_buffer lba_size groups (addr + bg_count g * lba_size)
  end.
Definition total_bytes (lba_size : Z) (groups : list BlockGroup) : Z :=
  foldr (λ g n, bg_count g * lba_size + n) 0 groups.

(** A group the device can read into its part of the buffer *)
Definition readable (gb : BlockGroup * Slice) : Prop :=
  is_u64 (bg_start gb.1) ∧ 0 < bg_count gb.1 ≤ u16_max ∧ slice_len gb.2 ≤ u64_max ∧
  ∃ fs, buffer_ok base gb.2 fs ∧ Z.of_nat (length fs) ≤ u64_max.

Lemma queues_full {E} l q : queues l q → ∃ b, is_full_for_submission (E:=E) (queue q) = Ok b.
Proof. intros [(c & d & hd & Hi & _) _]. eexists. by eapply is_full_spec. Qed.

Lemma total_bytes_nonneg lba_size groups addr :
  Forall readable (split_buffer lba_size groups addr) → 0 ≤ total_bytes lba_size groups.
Proof.
  revert addr. induction groups as [|g groups IH]; intros addr H; [done|]. cbn in *.
  apply Forall_cons in H as [(_ & _ & _ & fs & Hb & _) H]. specialize (IH _ H).
  pose proof (bo_len _ _ _ Hb) as Hl. unfold total_bytes in *. cbn in *. lia.
Qed.

(** Submitting one more command keeps the descriptions of the others. *)
Lemma loop_inv_submitted U held0 l0 tr0 gbs subs s ids gb sub s1 q held :
  loop_inv U held0 l0 tr0 gbs subs (s, ids) →
  held ≡ₚ held0 ++ sub_mappings subs → device_inv U held s →
  same_io s s1 → device_inv U (held ++ Prp_mappings (sub_prp sub)) s1 →
  transfer_command Read (sub_prp sub) (bg_start gb.1) (bg_count gb.1) (sub_command sub) →
  describes (memory s1) (sub_prp sub) gb.2 →
  (∀ g, g ∉ owned (prp_page_allocator s) → memory s1 !! g = memory s !! g) →
  queues (mkQueues (sent l0) ((sub_written <$> subs) ++ [sub_written sub]) (claimed l0)) q →
  loop_inv U held0 l0 tr0 (gbs ++ [gb]) (subs ++ [sub])
    (mkDev q (prp_page_allocator s1) (memory s1) (trace s1 ++ [sub_event sub]), ids ++ [sub_ident_prp sub]).
Proof.
  intros [_ _ Htr Hids Hsubs] Hp Hd [Hio1 Htr1] Hd1 Htc Hdesc Hoth Hq. cbn [fst snd] in *. subst ids.
  split; cbn [fst snd io_queue memory trace].
  - exists (held ++ Prp_mappings (sub_prp sub)). split; [by rewrite sub_mappings_snoc, Hp, <- app_assoc|].
    by destruct Hd1.
  - by rewrite fmap_app.
  - by rewrite Htr1, Htr, fmap_app, app_assoc.
  - by rewrite fmap_app.
  - apply Forall2_app; [|constructor; [by split|constructor]].
    apply Forall2_same_length_lookup_2; [by eapply Forall2_length|]. intros j gb' sub' Hgb Hsub'.
    destruct (Forall2_lookup_lr _ _ _ _ _ _ Hsubs Hgb Hsub') as [H1 H2]. split; [done|].
    eapply describes_mono; [exact H2|]. intros f Hf. apply Hoth.
    eapply held_not_owned; [apply (di_reached _ _ _ Hd)|]. rewrite Hp, fmap_app. apply elem_of_app. right.
    unfold sub_mappings. apply list_elem_of_fmap in Hf as (pf & -> & Hpf). apply list_elem_of_fmap_2.
    apply list_elem_of_bind. exists sub'. split; [done|]. by eapply list_elem_of_lookup_2.
Qed.

Lemma ends_submit_group U held0 l0 tr0 gbs subs lba_size g buf s :
  let part := mkSlice (slice_addr buf) (bg_count g * lba_size) in
  loop_inv U held0 l0 tr0 gbs subs s → (length subs < IDENTS_CAPACITY)%nat →
  readable (g, part) → bg_count g * lba_size ≤ slice_len buf →
  ends (submit_group env fuel try_reserve lba_size g buf) allocator_panics (λ _, False) (λ _, failed U held0)
    (λ rest s', rest = mkSlice (slice_addr buf + bg_count g * lba_size) (slice_len buf - bg_count g * lba_size) ∧
       ∃ sub, loop_inv U held0 l0 tr0 (gbs ++ [(g, part)]) (subs ++ [sub]) s') s.
Proof.
  intros part Hl Hlen (Hst & Hcnt & Hbytes & fs & Hbuf & Hfs) Hfit. cbn [fst snd slice_len part] in *.
  pose proof Hl as [(held & Hp & Hd) Hq _ Hids _]. destruct s as [s ids]. cbn [fst snd] in *.
  assert (∀ lost s', device_inv U (held ++ lost) s' → (∃ l, queues l (io_queue s')) → failed U held0 (s', ids)) as Hfail.
  { intros lost s' Hd' Hl'. split; [|done]. exists (held ++ lost), lost. cbn [snd fst].
    split; [by rewrite Hids, idents_mappings_subs, Hp, <- app_assoc|done]. }
  unfold submit_group. apply ends_bind. unfold ends at 1, lift, BlockGroup_bytes, BlockGroup_count, mul_u64.
  rewrite (proj2 (Z.leb_le _ _) Hbytes). apply ends_bind. unfold ends at 1, lift, split_off_mut.
  rewrite (proj2 (Z.leb_le _ _) Hfit). cbn [expect]. fold part.
  apply ends_bind, ends_on_fst.
  eapply ends_mono; [apply (runs_ends _ _ (λ _, False)); by eapply (runs_create_prp U held part fs)|done|done| |].
  { intros e s' (_ & [Hio Htr'] & lost & Hd'). eapply Hfail; [done|]. rewrite Hio. by exists (mkQueues (sent l0) (sub_written <$> subs) (claimed l0)). }
  intros prp s1 ([Hio1 Htr1] & Hd1 & Hdesc & Hoth).
  apply ends_bind. unfold ends at 1, lift. rewrite (proj2 (Z.leb_le (bg_count g) u16_max)) by lia.
  destruct (create_read_command_ok (E:=ReadBlockDeviceError) prp (bg_start g) (bg_count g) Hst Hcnt) as (command & Hcmd & Htc).
  apply ends_bind. unfold ends at 1, lift. rewrite Hcmd.
  apply ends_bind, ends_on_fst, ends_on_io, ends_mapM_err.
  eapply ends_mono; [apply (runs_ends _ _ (λ _, False)), (runs_submit (mkQueues (sent l0) (sub_written <$> subs) (claimed l0)));
    [apply (tc_dword0 _ _ _ _ _ Htc)|by rewrite Hio1]|done|done| |].
  { intros e q Hq'. apply (Hfail (Prp_mappings prp)); [by destruct Hd1|]. cbn [io_queue]. by exists (mkQueues (sent l0) (sub_written <$> subs) (claimed l0)). }
  intros i q Hq'. cbn [sent staged claimed] in Hq'.
  apply ends_bind, ends_on_fst. unfold ends at 1. cbn [log modify].
  apply ends_bind. unfold ends at 1. cbn [gets snd].
  apply ends_bind. unfold ends at 1, lift. rewrite bool_decide_true by (by rewrite Hids, length_fmap).
  apply ends_bind. unfold ends, modify, mret, M_ret. cbn [fst snd]. split; [done|]. exists (mkSub i command prp).
  by eapply (loop_inv_submitted U held0 l0 tr0 gbs subs s ids (g, part) (mkSub i command prp) s1 q held).
Qed.

Lemma ends_flush_if_full U held0 l0 tr0 gbs subs s :
  loop_inv U held0 l0 tr0 gbs subs s → (length subs ≤ IDENTS_CAPACITY)%nat →
  ends (flush_if_full env rounds fuel can_reserve) allocator_panics (λ s', unanswered s'.1) (λ _, failed U held0)
    (λ _ s', (s' = s ∧ (length subs < IDENTS_CAPACITY)%nat) ∨
       ∃ tr, batch gbs tr ∧ loop_inv U held0 (after l0 tr) (tr0 ++ tr) [] [] s') s.
Proof.
  intros Hl Hlen. unfold flush_if_full. apply ends_bind. unfold ends at 1, gets, id. cbn beta iota.
  pose proof (li_idents _ _ _ _ _ _ _ Hl) as Hids. rewrite Hids, length_fmap.
  destruct (queues_full (E:=ReadBlockDeviceError) _ _ (li_queue _ _ _ _ _ _ _ Hl)) as [b Hb].
  assert (ends (flush_io_queue env rounds fuel can_reserve) allocator_panics (λ s', unanswered s'.1) (λ _, failed U held0)
    (λ _ s', (s' = s ∧ (length subs < IDENTS_CAPACITY)%nat) ∨
       ∃ tr, batch gbs tr ∧ loop_inv U held0 (after l0 tr) (tr0 ++ tr) [] [] s') s) as Hflush.
  { eapply ends_mono; [by eapply ends_flush|done|done|done|]. intros [] s' H. by right. }
  case_bool_decide as Hcap.
  - apply ends_bind. exact Hflush.
  - apply ends_bind. unfold ends at 1, lift. rewrite Hb. destruct b; [exact Hflush|].
    unfold ends. left. split; [done|]. lia.
Qed.

Lemma ends_read_groups U held0 lba_size groups : ∀ buf gbs subs l0 tr0 s,
  loop_inv U held0 l0 tr0 gbs subs s → (length subs < IDENTS_CAPACITY)%nat →
  total_bytes lba_size groups ≤ slice_len buf →
  Forall readable (split_buffer lba_size groups (slice_addr buf)) →
  ends (read_groups env rounds fuel can_reserve try_reserve lba_size (Ok <$> groups) buf)
    allocator_panics (λ s', unanswered s'.1) (λ _, failed U held0)
    (λ _ s', ∃ tr, batches (gbs ++ split_buffer lba_size groups (slice_addr buf)) tr ∧
       loop_inv U held0 (after l0 tr) (tr0 ++ tr) [] [] s') s.
Proof.
  induction groups as [|g groups IH]; intros buf gbs subs l0 tr0 s Hl Hlen Htot Hgs; cbn [fmap list_fmap read_groups].
  { eapply ends_mono; [by eapply ends_flush|done|done|done|]. intros [] s' (tr & Hb & Hl'). exists tr.
    cbn [split_buffer]. rewrite app_nil_r. split; [by apply batches_last|done]. }
  cbn [split_buffer total_bytes foldr] in *. apply Forall_cons in Hgs as [Hg Hgs].
  pose proof (total_bytes_nonneg _ _ _ Hgs) as Hrest. unfold total_bytes in Hrest.
  apply ends_bind. unfold ends at 1, lift. apply ends_bind.
  eapply ends_mono; [by eapply (ends_submit_group U held0 l0 tr0 gbs subs); [done|done|done|lia]|done|done|done|].
  intros rest s1 (-> & sub & Hl1). apply ends_bind.
  eapply ends_mono; [eapply ends_flush_if_full; [exact Hl1|rewrite length_app; cbn; lia]|done|done|done|].
  assert (total_bytes lba_size groups ≤ slice_len buf - bg_count g * lba_size) as Htot' by (unfold total_bytes; lia).
  intros [] s2 [[-> Hlen2]|(tr & Hb & Hl2)].
  - eapply ends_mono; [by apply (IH _ _ _ _ _ _ Hl1); cbn [slice_len slice_addr]; [|lia|]|done|done|done|].
    intros [] s3 (tr & Hbs & Hl3). exists tr. by rewrite <- app_assoc in Hbs.
  - eapply ends_mono; [by apply (IH _ _ _ _ _ _ Hl2); cbn [slice_len slice_addr length]; [unfold IDENTS_CAPACITY; lia|lia|]|done|done|done|].
    intros [] s3 (tr' & Hbs & Hl3). exists (tr ++ tr'). rewrite (cons_middle _ gbs), app_assoc.
    split; [by apply batches_more|]. by rewrite <- app_assoc, after_app in Hl3.
Qed.

(** *** The whole read *)

(** The device after an error: some mappings may be lost. *)
Definition usable (U : propset PhysFrame) (held0 : list (Page * PhysFrame)) (s : Device PT) : Prop :=
  (∃ held lost, held ≡ₚ held0 ++ lost ∧ device_inv U held s) ∧ ∃ l, queues l (io_queue s).

Lemma ends_read_internal U held l self groups buf s :
  device_inv U held s → staged l = [] → queues l (io_queue s) →
  let lba_size := lba_block_size (controller_cap self) in
  total_bytes lba_size groups ≤ slice_len buf →
  Forall readable (split_buffer lba_size groups (slice_addr buf)) →
  ends (read_blocks_internal env rounds fuel can_reserve try_reserve self (Ok <$> groups) buf)
    allocator_panics unanswered (λ _, usable U held)
    (λ _ s', ∃ tr, batches (split_buffer lba_size groups (slice_addr buf)) tr ∧
       trace s' = trace s ++ tr ∧ queues (after l tr) (io_queue s') ∧
       ∃ held', held' ≡ₚ held ∧ device_inv U held' s') s.
Proof.
  intros Hd Hst Hq lba_size Htot Hgs.
  assert (loop_inv U held l (trace s) [] [] (s, [])) as Hl.
  { split; cbn; [|by destruct l; cbn in *; subst|by rewrite app_nil_r|done|constructor].
    exists held. by rewrite app_nil_r. }
  pose proof (ends_read_groups U held lba_size groups buf [] [] l (trace s) (s, []) Hl
    ltac:(unfold IDENTS_CAPACITY; cbn; lia) Htot Hgs) as H.
  unfold ends in H |- *. unfold read_blocks_internal. rewrite run_bind. unfold try. fold lba_size.
  destruct (read_groups _ _ _ _ _ lba_size _ buf (s, [])) as [[[]|e| |] [s1 ids]]; [| |done|done].
  - destruct H as (tr & Hb & [(held1 & Hp1 & Hd1) Hq1 Htr1 Hids1 _]). cbn [fst snd app] in *. subst ids.
    exists tr. rewrite app_nil_r in Htr1, Hp1. split; [done|]. split; [done|]. split; [done|].
    by exists held1.
  - destruct H as [(held1 & lost & Hp1 & Hd1) [l1 Hl1]]. cbn [fst snd] in *. rewrite run_bind.
    pose proof (runs_free_prp (E:=ReadBlockDeviceError) U (λ _ _, False) (held ++ lost) held1 s1 ids) as Hf.
    unfold runs in Hf. destruct (free_prp can_reserve (s1, ids)) as [[[]|e'| |] [s2 ids2]]; cbn.
    + destruct Hf as ((held2 & Hp2 & Hd2) & Hio2 & _); [|done|].
      { rewrite Hp1, !app_assoc. by rewrite (Permutation_app_comm held). }
      cbn [fst snd] in *. split; [by exists held2, lost|]. rewrite Hio2. by exists l1.
    + destruct Hf; [|done]. rewrite Hp1, !app_assoc. by rewrite (Permutation_app_comm held).
    + apply Hf; [|done]. rewrite Hp1, !app_assoc. by rewrite (Permutation_app_comm held).
    + destruct Hf; [|done]. rewrite Hp1, !app_assoc. by rewrite (Permutation_app_comm held).
Qed.
End io.
End device.

(** ** The two spaces of block addresses *)

(** A group in the space of the NVMe device *)
Definition nvme_group (self : NvmeBlockDevice) (g : BlockGroup) : BlockGroup :=
  let k := 2 ^ lba_count_conversion_shift self in
  mkBlockGroup ((bg_start g + start_lba self) * k) (bg_count g * k).

(** A group whose conversion does not overflow *)
Definition mappable (self : NvmeBlockDevice) (g : BlockGroup) : Prop :=
  0 ≤ lba_count_conversion_shift self < 64 ∧ 0 ≤ bg_start g ∧ 0 ≤ start_lba self ∧ 0 < bg_count g ∧
  bg_start (nvme_group self g) < u64_max ∧ bg_count (nvme_group self g) ≤ u64_max.

Lemma checked_shl_ok v sh : 0 ≤ v → 0 ≤ sh < 64 → v * 2 ^ sh ≤ u64_max → checked_shl v sh = Some (v * 2 ^ sh).
Proof.
  intros Hv Hsh Hle. unfold checked_shl. destruct (Z.ltb_spec sh 64); [|lia].
  rewrite Z.shiftl_mul_pow2 by lia. f_equal. apply Z.mod_small. unfold u64_max in Hle.
  pose proof (Z.pow_pos_nonneg 2 sh). split; [nia|]. lia.
Qed.

Lemma map_group_ok {E} self g : mappable self g → map_group (E:=E) self g = Ok (nvme_group self g).
Proof.
  intros (Hsh & Hg & Hs & Hc & Hst & Hcnt). unfold map_group, map_lba, map_block_count, nvme_group in *.
  cbn [bg_start bg_count] in *. pose proof (Z.pow_pos_nonneg 2 (lba_count_conversion_shift self) ltac:(lia) ltac:(lia)).
  unfold checked_add. rewrite (proj2 (Z.leb_le _ u64_max)) by nia. cbn [mbind option_bind].
  rewrite (checked_shl_ok (bg_start g + start_lba self)) by lia. cbn [mbind option_bind]. unfold LBA_new.
  destruct (Z.eqb_spec ((bg_start g + start_lba self) * 2 ^ lba_count_conversion_shift self) u64_max); [lia|].
  cbn [expect mbind result_bind]. unfold BlockGroup_count. rewrite checked_shl_ok by lia.
  cbn [expect mbind result_bind]. unfold NonZero.
  destruct (Z.eqb_spec (bg_count g * 2 ^ lba_count_conversion_shift self) 0); [nia|]. done.
Qed.

Section spec.
Context `{BF : BitField} `{AD : Addresses} {PT : Type} `{MP : Mapper PT} `{TR : !Translate PT}.
Context (env : nat → Hardware → Hardware) (rounds fuel : nat).
Context (can_reserve : nat → bool) (try_reserve : nat → result MemError unit).

(** Reading one group is reading a list of one group. *)
Lemma read_blocks_contig_single self start count buf (s : Device PT) :
  read_blocks_contig env rounds fuel can_reserve try_reserve self start count buf s =
  read_blocks env rounds fuel can_reserve try_reserve self [mkBlockGroup start count] buf s.
Proof.
  unfold read_blocks_contig, read_blocks. cbn [fmap list_fmap]. unfold map_group. cbn [bg_start bg_count BlockGroup_count].
  rewrite run_bind. unfold lift at 1. destruct (map_lba self start) as [a| | |]; [|by destruct s..].
  rewrite run_bind. unfold lift at 1. unfold BlockGroup_count. cbn [bg_count mbind result_bind].
  destruct (map_block_count self count) as [n| | |]; [|by destruct s..].
  rewrite run_bind. unfold lift at 1. cbn [mbind result_bind].
  destruct (NonZero n) as [m| | |]; by destruct s.
Qed.

(** C2: reading groups of blocks into a mapped buffer, on a queue with a controller that
    follows the protocol. A read that returns [Ok] worked in batches: for every group one
    read command was submitted with the mapped first block and count and entries from
    which the controller gets exactly the addresses of the group's part of the buffer;
    the lists of entries were complete when the controller was told of the commands; every
    command's completion entry was then claimed and reported success; and only after that
    the pages of the lists were given back, all of them. An error may lose mappings and
    keeps the device usable. The read panics only when the allocator of mappings does, and
    waits forever only for a controller that does not answer a command. *)
Theorem nvme_read_blocks_spec (ident : QueueIdentifier) (ns nc : nat) (base : mappings)
    (held : list (Page * PhysFrame)) (l : Queues) (self : NvmeBlockDevice) (blocks : list BlockGroup)
    (buf : Slice) (s : Device PT) :
  controller ident ns nc env → (nc ≤ fuel)%nat → (∀ n, try_reserve n ≠ Panic ∧ try_reserve n ≠ Hang) →
  mappings_inv base held (prp_page_allocator s) →
  frames_mapped (owned (prp_page_allocator s) ∪ list_to_set held.*2) (memory s) →
  refines ident ns nc l (io_queue s) → staged l = [] →
  let lba_size := lba_block_size (controller_cap self) in
  let groups := nvme_group self <$> blocks in
  let parts := split_buffer lba_size groups (slice_addr buf) in
  Forall (mappable self) blocks → total_bytes lba_size groups ≤ slice_len buf → Forall (readable base) parts →
  ends (read_blocks env rounds fuel can_reserve try_reserve self blocks buf)
    (allocator_panics can_reserve (held, prp_page_allocator s))
    (unanswered rounds (clock (io_queue s)))
    (λ _ s', (∃ held', held ⊆+ held' ∧ mappings_inv base held' (prp_page_allocator s')) ∧
       ∃ l', refines ident ns nc l' (io_queue s'))
    (λ _ s', ∃ tr, batches base parts tr ∧ trace s' = trace s ++ tr ∧
       refines ident ns nc (after l tr) (io_queue s') ∧
       mappings_inv base held (prp_page_allocator s')) s.
Proof.
  intros Henv Hfuel Htry Hi Hm Hr Hst lba_size groups parts Hmap Htot Hparts.
  set (start := (held, prp_page_allocator s)). set (U := owned (prp_page_allocator s) ∪ list_to_set held.*2).
  assert (map_group (E:=ReadBlockDeviceError) self <$> blocks = Ok <$> groups) as Hgroups.
  { unfold groups. clear -Hmap. induction Hmap as [|g blocks Hg _ IH]; [done|]. cbn. by rewrite map_group_ok, IH. }
  unfold read_blocks. rewrite Hgroups.
  eapply ends_mono; [apply (ends_read_internal can_reserve try_reserve Htry base start ident ns nc env rounds fuel
    Henv Hfuel (clock (io_queue s)) U held l self groups buf s)|done|done| |]; [|done|by split|done|done| |].
  - split; [by split| | |done]; unfold U.
    + set_solver.
    + intros f Hf. apply elem_of_union. right. by apply elem_of_list_to_set.
  - intros e s' [(held1 & lost & Hp & Hd) [l1 [Hl1 _]]]. split; [|by exists l1].
    exists held1. split; [|apply (di_reached _ _ _ _ _ _ Hd)]. rewrite Hp. by apply submseteq_inserts_r.
  - intros [] s' (tr & Hb & Htr & [Hq _] & held1 & Hp & Hd). exists tr. split; [done|]. split; [done|]. split; [done|].
    eapply mappings_inv_perm; [exact Hp|apply (di_reached _ _ _ _ _ _ Hd)].
Qed.
End spec.
