(* ===== verification/NvmeBlockExamples.v ===== *)
(** * Runs of the NVMe block device

    A read of two groups, of which one needs a list of pages, on the queue and with the
    controller of [NvmeQueueSpec]; and runs that show what the code does not handle. *)

From stdpp Require Import propset.
From S2P Require Import Prelude Bits BlockDevice NvmePrp NvmeCommand WrappingValue NvmeQueue NvmeQueueProofs NvmeQueueSpec KernelMem RangeSet RangeSetProofs PageAlloc PageAllocProofs PageMapping PageMappingProofs NvmeBlock NvmeMappingsProofs NvmeBlockProofs.
Local Open Scope Z_scope.

(** ** A device with four free frames, and a buffer of six pages *)

#[export] Instance plain_translate : Translate mappings.
Proof.
  refine {| translate_page pt p := fst <$> pt Size4KiB p |}.
  intros pt p f flags H. change (pt Size4KiB p = Some (f, flags)) in H. by rewrite H.
Defined.

Definition demo_buffer : Slice := mkSlice 0x100000 0x6000.
Definition demo_base : mappings := λ sz p,
  match sz with
  | Size4KiB => if (0x100000 <=? p) && (p <? 0x106000) then Some (p + 0x10000000, 3) else None
  | _ => None
  end.
Definition demo_frames : RangeSet := mkRangeSet (mkRange 0x2000 0x5fff :: replicate 7 (mkRange 0 0)) 1.
Definition demo_prp_memory : Memory :=
  list_to_map ((λ f, (f, replicate PAGE_ENTRY_COUNT 0)) <$> [0x2000; 0x3000; 0x4000; 0x5000]).
Definition demo_device : Device mappings :=
  mkDev demo_fresh (mkMappings [] demo_free demo_base demo_frames) demo_prp_memory [].

(** Blocks of 1024 bytes on a device with blocks of 512 bytes, from block 100 on *)
Definition demo_nvme : NvmeBlockDevice := mkNvmeBlockDevice 100 1000 (mkCapabilities 4096 512) 1.
Definition demo_blocks : list BlockGroup := [mkBlockGroup 5 4; mkBlockGroup 20 16].

Lemma demo_nvme_new : new_with_offset (E:=unit) 1024 1000 100 (mkCapabilities 4096 512) = Ok demo_nvme.
Proof. vm_compute. reflexivity. Qed.

Lemma demo_frames_ok : RangeSet_ok demo_frames.
Proof.
  split; [cbn; lia|]. unfold RangeSet_entries, demo_frames. cbn [take in_use ranges].
  split; [|by constructor]. constructor; [|done]. unfold range_ok, u64_max. cbn. lia.
Qed.

Lemma demo_device_inv : mappings_inv demo_base [] (prp_page_allocator demo_device).
Proof.
  split; cbn; [apply demo_free_ok|apply demo_frames_ok|done| | | | |].
  - by intros p ?%not_elem_of_nil.
  - constructor.
  - constructor.
  - by intros p f ?%not_elem_of_nil.
  - by intros f ?%not_elem_of_nil.
Qed.

Lemma demo_device_pages : frames_mapped (owned (prp_page_allocator demo_device) ∪ list_to_set []) (memory demo_device).
Proof.
  intros f [[Hf|[Ha Hf]]%elem_of_PropSet|Hf]%elem_of_union.
  - by apply not_elem_of_nil in Hf.
  - assert (0x2000 ≤ f ≤ 0x5fff - 4095) as Hb.
    { assert (∀ x, covers (RangeSet_entries demo_frames) x → 0x2000 ≤ x ≤ 0x5fff) as Hc.
      { intros x (e & He & Hx)%Exists_exists. unfold RangeSet_entries, demo_frames in He. cbn in He.
        apply list_elem_of_singleton in He. subst e. unfold in_range in Hx. cbn in Hx. lia. }
      pose proof (Hc f (Hf f ltac:(lia))). pose proof (Hc (f + 4095) (Hf (f + 4095) ltac:(lia))). lia. }
    unfold page_aligned in Ha.
    assert (f = 0x2000 ∨ f = 0x3000 ∨ f = 0x4000 ∨ f = 0x5000) as Hcase
      by (Z.to_euclidean_division_equations; lia).
    exists (replicate PAGE_ENTRY_COUNT 0).
    by destruct Hcase as [->|[->|[->| ->]]]; vm_compute.
  - by apply elem_of_list_to_set, not_elem_of_nil in Hf.
Qed.

Definition demo_read (env : nat → Hardware → Hardware) (buf : Slice) :=
  read_blocks env 20 4 (λ _, true) (λ _, Ok tt) demo_nvme demo_blocks buf demo_device.

Lemma demo_mapped addr n :
  0x100000 ≤ addr → addr mod 4096 = 0 → addr + Z.of_nat n * 4096 ≤ 0x106000 →
  mapped_to demo_base addr ((λ i, addr + 0x10000000 + Z.of_nat i * 4096) <$> seq 0 n).
Proof.
  intros Ha Hm Hn i f Hf. apply list_lookup_fmap_Some in Hf as (j & -> & Hj).
  apply lookup_seq in Hj as [-> Hlt]. cbn zeta. unfold PAGE_SIZE. rewrite Nat.add_0_l. split_and!.
  - unfold u64_max. lia.
  - intros E. apply VirtAddr_new_ok. lia.
  - Z.to_euclidean_division_equations. lia.
  - lia.
  - exists 3. unfold demo_base. rewrite (proj2 (Z.leb_le _ _)), (proj2 (Z.ltb_lt _ _)) by lia.
    cbn. do 2 f_equal. lia.
Qed.

Lemma demo_readable addr start count n :
  0x100000 ≤ addr → addr mod 4096 = 0 → addr + Z.of_nat n * 4096 ≤ 0x106000 → (0 < n)%nat →
  is_u64 start → 0 < count ≤ u16_max → count * 512 = Z.of_nat n * 4096 →
  readable demo_base (mkBlockGroup start count, mkSlice addr (count * 512)).
Proof.
  intros Ha Hm Hn Hn0 Hs Hc Hlen. split; [done|]. split; [done|]. cbn [snd slice_len].
  split; [unfold u64_max; lia|]. eexists. split; [|].
  - split; cbn [slice_addr slice_len].
    + lia.
    + lia.
    + Z.to_euclidean_division_equations. lia.
    + by left.
    + unfold PAGE_SIZE. rewrite Hm, Z.add_0_l, Hlen. symmetry.
      apply counts_required_unique; [lia| |lia].
      instantiate (1 := (λ i, addr + 0x10000000 + Z.of_nat i * 4096) <$> seq 0 n).
      rewrite length_fmap, length_seq. lia.
    + unfold PAGE_SIZE. rewrite Hm, Z.sub_0_r. by apply demo_mapped.
  - rewrite length_fmap, length_seq. unfold u64_max. lia.
Qed.

Lemma demo_try_reserve (n : nat) : (Ok tt : result MemError unit) ≠ Panic ∧ (Ok tt : result MemError unit) ≠ Hang.
Proof. done. Qed.

Lemma nvme_read_blocks_spec_witness :
  ∃ tr s', demo_read (demo_env 1 4 4) demo_buffer = (Ok tt, s') ∧ trace s' = tr ∧
    batches demo_base
      [(mkBlockGroup 210 8, mkSlice 0x100000 0x1000); (mkBlockGroup 240 32, mkSlice 0x101000 0x4000)] tr ∧
    (dword10 <$> sent (after (mkQueues [] [] []) tr)) = [210; 240] ∧
    mappings_inv demo_base [] (prp_page_allocator s').
Proof.
  assert (refines 1 4 4 (mkQueues [] [] []) (io_queue demo_device)) as Hr.
  { exists 0%nat, 0%nat, 0%nat. split; [exact demo_fresh_inv|]. split; [apply Nat.le_0_l|].
    reflexivity. }
  assert (Forall (mappable demo_nvme) demo_blocks) as Hmap.
  { repeat constructor; cbn; unfold u64_max; lia. }
  assert (total_bytes 512 (nvme_group demo_nvme <$> demo_blocks) ≤ slice_len demo_buffer) as Htot
    by (apply Z.leb_le; reflexivity).
  assert (Forall (readable demo_base) (split_buffer 512 (nvme_group demo_nvme <$> demo_blocks) 0x100000)) as Hparts.
  { constructor; [|constructor; [|constructor]].
    - apply (demo_readable 0x100000 210 8 1); unfold is_u64, u64_max, u16_max; reflexivity || lia.
    - apply (demo_readable 0x101000 240 32 4); unfold is_u64, u64_max, u16_max; reflexivity || lia. }
  pose proof (nvme_read_blocks_spec (demo_env 1 4 4) 20 4 (λ _, true) (λ _, Ok tt) 1 4 4 demo_base []
    (mkQueues [] [] []) demo_nvme demo_blocks demo_buffer demo_device (demo_controller 1 4 4) (le_n 4)
    demo_try_reserve
    demo_device_inv demo_device_pages Hr eq_refl Hmap Htot Hparts) as H.
  unfold ends in H. fold (demo_read (demo_env 1 4 4) demo_buffer) in H.
  assert (match demo_read (demo_env 1 4 4) demo_buffer with
          | (Ok _, s') => (dword10 <$> commands_of (trace s')) = [210; 240] | _ => False end) as Hok
    by (vm_compute; reflexivity).
  destruct (demo_read (demo_env 1 4 4) demo_buffer) as [[[]| | |] s']; [|destruct Hok..].
  destruct H as (tr & Hb & Htr & _ & Hi). exists tr, s'. split; [reflexivity|].
  change (trace demo_device) with (@nil Event) in Htr. cbn [app] in Htr.
  split; [exact Htr|]. split; [exact Hb|]. split; [|exact Hi].
  cbn [after sent app]. rewrite <- Htr. exact Hok.
Defined.

(** ** What the code does not handle *)

(** A controller that answers the first command with the status [LbaOutOfRange] and the
    second not yet *)
Definition failing_env (t : nat) (h : Hardware) : Hardware :=
  let h := demo_fetch 4 h in
  match fetched h, posted h with
  | _ :: _, [] =>
      let e := mkCompletion 0 0 1 1 0 257 in
      mkHardware (sq h) (sq_tail_doorbell h) (<[0%nat:=e]> (cq h)) (cq_head_doorbell h) (fetched h) [(e, 1%nat)]
  | _, _ => h
  end.

(** The steps of a trace: an identifier with the frames of its list, or a frame *)
Inductive step :=
  | Submit (i : CommandIdentifier) (lists : list PhysFrame)
  | Flush_
  | Complete (i : CommandIdentifier)
  | Free (f : PhysFrame).
Definition step_of (e : Event) : step :=
  match e with
  | Submitted i _ prp => Submit i (Prp_mappings prp).*2
  | Flushed _ => Flush_
  | Completed i _ => Complete i
  | Freed _ f => Free f
  end.

(** When one command fails, the read gives the pages of the lists of the others back
    although the controller may still read them, and returns the buffer to the caller
    while the transfers into it go on. *)
Lemma failed_read_frees_pages_in_use :
  let '(r, s') := demo_read failing_env demo_buffer in
  r = Err (ReadBlockDevice (CommandCompletionStatus (GenericStatus LbaOutOfRange))) ∧
  step_of <$> trace s' = [Submit 0 []; Submit 1 [0x2000]; Flush_; Complete 0; Free 0x2000] ∧
  length (fetched (hw (io_queue s'))) = 2%nat.
Proof. vm_compute. auto. Qed.

(** A buffer of nine blocks of 512 bytes in the middle of a page covers two pages;
    [Pages::from_ref] finds three. The device makes a list for them, and the controller,
    which expects the second page in the second entry, writes the last bytes of the
    transfer over the list. *)
Definition unaligned_buffer : Slice := mkSlice 0x100200 4608.
Lemma extra_page_overwrites_list :
  match create_prp_form_buffer (λ _, Ok tt) unaligned_buffer demo_device with
  | (Ok prp, s') =>
      Prp_mappings prp = [(0x2000, 0x2000)] ∧
      (∃ pages, controller_pages (memory s') (Prp_entry_1 prp) (Prp_entry_2 prp) 4608 = Some pages ∧
         dma_address pages 4000 = Some 0x21a0) ∧
      phys_addr demo_base (0x100200 + 4000) = Some 0x101011a0
  | _ => False
  end.
Proof.
  assert (match create_prp_form_buffer (λ _, Ok tt) unaligned_buffer demo_device with
    | (Ok prp, s') => (Prp_mappings prp,
        controller_pages (memory s') (Prp_entry_1 prp) (Prp_entry_2 prp) 4608 ≫= λ pages, dma_address pages 4000)
        = ([(0x2000, 0x2000)], Some 0x21a0)
    | _ => False end) as H by (vm_compute; reflexivity).
  destruct (create_prp_form_buffer (λ _, Ok tt) unaligned_buffer demo_device) as [r s'].
  destruct r as [prp| | |]; try contradiction.
  destruct (controller_pages _ _ _ 4608) as [pages|]; [|done]. injection H as H1 H2.
  split; [exact H1|]. split; [|vm_compute; reflexivity]. exists pages. split; [done|exact H2].
Qed.

(** The conversions only check the number of bits they shift by: a count of 2^63 blocks
    becomes 0, and a block address loses its highest bits. *)
Lemma conversions_wrap :
  map_block_count (E:=unit) demo_nvme (2 ^ 63) = Ok 0 ∧
  map_lba (E:=unit) demo_nvme (2 ^ 63) = Ok 200.
Proof. split; vm_compute; reflexivity. Qed.

(** The constructor converts the first block twice, which adds the offset twice: it refuses
    devices whose blocks can all be addressed. *)
Lemma new_refuses_second_half :
  new_with_offset (E:=unit) 512 1000 (2 ^ 63) (mkCapabilities 4096 512) = Panic ∧
  map_lba (E:=unit) (mkNvmeBlockDevice (2 ^ 63) 1000 (mkCapabilities 4096 512) 0) 999 = Ok (2 ^ 63 + 999).
Proof. split; vm_compute; reflexivity. Qed.

(** Reading more than 65535 blocks of the device at once panics, and so does a buffer
    that does not start at a multiple of four. *)
Lemma large_group_panics :
  (read_blocks_contig (demo_env 1 4 4) 20 4 (λ _, true) (λ _, Ok tt) demo_nvme 0 32768
     (mkSlice 0x100000 (65536 * 512)) demo_device).1 = Panic ∧
  (NvmeBlockDevice_read_block (demo_env 1 4 4) 20 4 (λ _, true) (λ _, Ok tt) demo_nvme 0
     (mkSlice 0x100002 1024) demo_device).1 = Panic.
Proof. split; vm_compute; reflexivity. Qed.
